(* ===== verification/_CoqProject ===== *)
-Q . S2P
Prelude.v
PyStr.v
Regex.v
PyVal.v
Canonical.v
JsonBytes.v
Lifecycle.v
Mission.v
Sectors.v
Evidence.v
Outbox.v
Commands.v
Connectivity.v
Idempotency.v
Instant.v
Topics.v
Envelope.v
Sql.v
Schema.v
Digest.v
Rpc.v
Integration.v
Approvals.v
Scoring.v
StoreProposals.v
StoreInvocations.v
StoreEvents.v
StoreProgress.v
StoreBindings.v
StoreEvidence.v
StoreRefusals.v
StoreInbox.v
StoreClaims.v
StoreOutbox.v
StoreApprovals.v
StoreAudit.v
StoreTimeline.v
StoreReceipts.v
FleetStore.v
Authority.v
Principals.v
Subscriptions.v
Scenario.v
Flight.v
Fleet.v
Dispatch.v
Policy.v
Ingress.v
DroneCommand.v
Routing.v
Queues.v
Provisioning.v
Provisioned.v
Retirement.v
BrokerLink.v
Reply.v
Exchange.v
Artifacts.v
Adapter.v
Delivery.v
DroneEdge.v
FleetRecords.v
FleetServe.v
Recorder.v
Authorization.v
GatewaySample.v
Authorized.v
Publication.v
Published.v
Drained.v
ApprovalIngress.v
Progression.v
Normalization.v
Normalized.v
Footprint.v
Service.v
Served.v
Recovery.v
Stalled.v
Vouched.v
