(* ===== verification/Prelude.v ===== *)
(** * Aerial Rescue Mesh: a verification library

    The program is a simulated aerial search mission run by several Python services that
    exchange closed, versioned messages over an event broker and keep what they decide in a
    relational store.  The library follows its layers bottom up; paths are relative to [src/].

    ** Trust boundary ([packages/contracts])

    Every message is canonical JSON inside a closed envelope on a topic of a fixed grammar.
    [PyStr] models text as bytes of UTF-8, [Regex] [re.fullmatch] with a reference language,
    [PyVal] the untyped values of the decoder, closed objects and the standard JSON scanner.
    - [Canonical], [JsonBytes]: [canonical.py] over text and over bytes.  Decoding inverts
      encoding, equal bytes mean equal values, an encoded value is within its limits.
    - [Instant]: [instant.py] and the microseconds an instant stands for; both are bijections.
    - [Topics], [Envelope]: [topics.py] and [envelope.py].  Building and parsing a topic are
      inverse; an envelope's document parses back to it, and an accepted envelope is bound to
      its discriminator, schema and topic.
    - [Rpc], [Integration], [Digest]: closed request, reply and agent bodies, and the
      domain-separated digests of [digest.py] over SHA-256 written out from FIPS 180-4: equal
      digests of different contents are an explicit collision on two known texts.

    ** Domain ([packages/domain])

    Pure state machines that every service applies.  [Lifecycle] is the contract of a
    deny-by-default transition table, as a class with its derived facts.
    - [Mission], [Sectors], [Evidence], [Outbox], [Commands], [Connectivity], [Idempotency]:
      the module of the same name.  Tables refine the decision they record, runs are bounded,
      and the state after a history is characterised by that history.
    - [Approvals], [Authority]: an approval is consumed at most once, inside its window and
      for what was approved, and nothing else authorizes a rescue escalation.
    - [Principals]: who may publish and hear what.  [Scoring]: the saturating score and the
      corroboration that an escalation needs.

    ** Store ([packages/store])

    [Sql] holds the statements the repositories build, as data, and the meaning SQL gives them
    on one table; [Database] is the class of servers that execute a statement so, refuse it, or
    fail, and [memory] an instance.  [Schema] is the columns, keys and checks of the tables.  A
    transaction commits when its body returns and rolls back when it raises.  Transactions are
    serial, as the row locks the code takes make those on the same rows; where the code takes
    none, the command outbox, [StoreOutbox] lets sessions overlap under [READ COMMITTED].
    - One file per repository: [StoreInbox], [StoreClaims], [StoreOutbox], [StoreEvents] (the
      application outbox), [StoreApprovals], [StoreBindings], [StoreAudit], [StoreProgress],
      [StoreProposals] (with the interface [Fact] of facts stored once), [StoreInvocations],
      [StoreEvidence], [StoreRefusals], [StoreReceipts], [FleetStore] and [StoreTimeline] (source
      events, dashboard links, the mission row).  Each says what every call leaves on each
      branch: outboxes move along their machine and are bounded (the command outbox up to the overshoot of
      the sessions that stage at once, which ADR-0093 accepts), the audit log is numbered
      without a gap, claims are answered by the result they were completed with, and a
      source's high-water only moves forward.

    ** Broker ([packages/broker])

    - [Subscriptions], [Queues], [Routing]: wildcard patterns, durable queues and the typed
      publication router, whose client library is the class [Broker].
    - [Provisioning], [Provisioned], [Retirement]: the objects the grants imply, over the class
      [Semp] of management interfaces; what an apply writes, and what it may delete.
    - [BrokerLink]: the connection's lifecycle as a run of locked callbacks, and what its
      readiness stands on.

    ** Command gateway ([services/command_gateway])

    - [Dispatch], [Policy], [Ingress]: the operations table, its policy, and what arrives; the
      payload validators are the class [PayloadModels], lawful by [LawfulModels].
    - [Reply], [Exchange]: one request in, one reply and one record out.
    - [Artifacts], [Adapter], [Authorization], [Authorized]: a command decided and committed in
      one transaction.  An escalation needs a person's approval over matching evidence, and a
      proposal is escalated once.  [GatewaySample] is the store their witnesses run on.
    - [Delivery]: settlement only after a commit, and redelivery answered from the inbox, as a
      shape ([guaranteed], [deduplicated]) the handlers instantiate.
    - [ApprovalIngress], [Progression], [Normalization], [Normalized], [Footprint]: the other
      handlers, and the tables each may change.
    - [Publication], [Published], [Drained]: outbox workers say the oldest staged rows, each once
      and in order, follow what the broker answered, and drain the outbox if it confirms.
    - [Service], [Served], [Recovery], [Stalled], [Vouched]: the serving process over the class
      [Surroundings], and what it keeps however long it serves: the store stays well formed,
      readiness means drained outboxes, and nothing is said on an escalation topic that the
      store does not hold an executed approval for.

    ** Fleet simulator ([services/fleet_simulator])

    - [Scenario], [Flight], [Fleet]: one tick folds the roster through the connectivity, sector
      and mission machines; a closed form of the state after [n] ticks is the specification,
      and the tick refines it.
    - [FleetRecords]: readings and lifecycle edges as events, and the edges one tick publishes:
      a listener knows the fleet.  [FleetServe]: the loop of [service.py], which ends within
      the longest run and reports exactly what it did, and answers a command once, by two reports.
    - [DroneCommand], [DroneEdge]: a command taken off a drone's queue, applied at most once,
      with its results staged in the bounded critical outbox in the same transaction.

    ** Recorder ([services/recorder])

    - [Recorder]: a notification is claimed, stored, appended to the audit log, linked and
      completed in one commit, and only then settled.  The store it leaves is an append-only
      history, in order for each mission and each source.

    ** Findings

    Theorems that state what the code does against what it says: [Stalled.sends_never_recorded]
    and [Stalled.reused_identity_escapes] for the gateway; [DroneEdge.restarted_gateway_unheard],
    [DroneEdge.long_identity_unserved] and [FleetServe.refused_result_lost] for the drones;
    [Recorder.salient_lost] for sightings that share a source with results.  Three theorems show
    the code leaving out a record the documents ask for: [Recorder.notification_recorded] (a
    refused event is rejected without a durable refusal), [DroneEdge.command_handled] (no
    continuity-breach audit at capacity) and [Normalized.normalization_exact] (no refused audit).

    ** Conventions

    A function that may raise returns [result E A]; [E] holds the structured refusals of the
    module and every other exception that can escape it.  Python integers are [Z], text is
    [string], a dictionary whose order is observable is an association list with the
    operations of [dict_get] and [dict_set] below, and a set is stdpp's [gset].  Unicode
    normalization enters as the class [Normalization] of [Canonical], with the facts Unicode
    documents; witnesses use an instance for ASCII text.  Code outside the repository is a
    class whose fields are its answers, and its documented laws are fields or hypotheses.

    ** Bounds and fuel

    The JSON scanner recurses on fuel equal to the length of its text, which every call
    shortens.  A fleet run, and the runner's loop, are bounded by [longest_run] of the
    scenario, computed from the sweep length and the scheduled absences, and the run theorems
    say that is enough.  The gateway serves until it is stopped, so its loop takes a number of
    turns and its theorems hold for every number.  SHA-256 is structural over blocks and rounds.

    ** Not modelled

    The Solace client, SQLAlchemy, pydantic, the HTTP server and the Agent Mesh package are
    libraries the sources call, so transports, engine configuration, migrations and the HTTP
    boundary are left out.  Within Python, the dashboard's API and view documents, the evidence
    service, the scenario service, the recording's export and replay, and the asyncio fleet
    executor with its control plane are not modelled: their logic runs through those libraries'
    objects or through repositories of their own.  The browser application is TypeScript; the
    quality gates check the repository's own text. *)

(** * Shared prelude: results, dictionaries, reachability and automation *)


From stdpp Require Export base tactics decidable option list numbers finite strings.
From Stdlib Require Export ZArith Lia.

#[export] Set Default Goal Selector "!".
#[export] Set Warnings "-clear-no-such-hyp,-register-all".

(** Comparisons stay folded, so that [bools] can read them. *)
#[global] Arguments Z.leb : simpl never.
#[global] Arguments Z.ltb : simpl never.
#[global] Arguments Z.eqb : simpl never.

(** ** Results: a value, or the structured refusal the source raises *)

Inductive result (E A : Type) : Type :=
| Ok (a : A)
| Err (e : E).
Arguments Ok {E A} a.
Arguments Err {E A} e.

#[export] Instance result_eq_dec `{EqDecision E, EqDecision A} : EqDecision (result E A).
Proof. solve_decision. Defined.

#[export] Instance result_ret {E} : MRet (result E) := fun A a => Ok a.
#[export] Instance result_bind {E} : MBind (result E) := fun A B f m =>
  match m with Ok a => f a | Err e => Err e end.
#[export] Instance result_fmap {E} : FMap (result E) := fun A B f m =>
  match m with Ok a => Ok (f a) | Err e => Err e end.

(** [if cond: raise e] as a statement. *)
Definition raise_if {E} (cond : bool) (e : E) : result E unit :=
  if cond then Err e else Ok tt.

(** [try: m except E1 as e: raise h(e)] *)
Definition map_err {E E' A} (h : E → E') (m : result E A) : result E' A :=
  match m with Ok a => Ok a | Err e => Err (h e) end.

(** A lookup that raises [e] when it finds nothing. *)
Definition or_raise {E A} (o : option A) (e : E) : result E A :=
  match o with Some a => Ok a | None => Err e end.

Definition is_ok {E A} (m : result E A) : bool :=
  match m with Ok _ => true | Err _ => false end.

Definition ok_value {E A} (m : result E A) : option A :=
  match m with Ok a => Some a | Err _ => None end.

(** A comprehension whose body may raise: the first refusal wins. *)
Fixpoint map_ok {E A B} (f : A → result E B) (l : list A) : result E (list B) :=
  match l with
  | [] => Ok []
  | a :: l => b ← f a; bs ← map_ok f l; Ok (b :: bs)
  end.

(** A loop that may raise. *)
Fixpoint fold_ok {E A S} (f : S → A → result E S) (s : S) (l : list A) : result E S :=
  match l with
  | [] => Ok s
  | a :: l => s' ← f s a; fold_ok f s' l
  end.

Lemma Forall_exists_Forall2 {A B} (R : A → B → Prop) l :
  Forall (λ x, ∃ y, R x y) l ↔ ∃ k, Forall2 R l k.
Proof.
  split.
  - induction 1 as [|x l [y Hy] _ [k Hk]]; [by exists [] | exists (y :: k); by constructor].
  - intros [k Hk]. induction Hk; constructor; eauto.
Qed.

Section result_lemmas.
Context {E : Type}.

Lemma bind_Ok {A B} (m : result E A) (f : A → result E B) b :
  (m ≫= f) = Ok b ↔ ∃ a, m = Ok a ∧ f a = Ok b.
Proof. destruct m; cbn; split; [eauto | | discriminate | ]; intros (?&?&?); congruence. Qed.

Lemma bind_Err {A B} (m : result E A) (f : A → result E B) e :
  (m ≫= f) = Err e ↔ m = Err e ∨ ∃ a, m = Ok a ∧ f a = Err e.
Proof.
  destruct m as [a|e']; cbn; split.
  - eauto.
  - intros [|(?&?&?)]; congruence.
  - intros [=->]; auto.
  - intros [|(?&?&?)]; congruence.
Qed.

Lemma raise_if_Ok b (e : E) u : raise_if b e = Ok u ↔ b = false.
Proof. destruct b, u; cbn; split; congruence. Qed.

Lemma raise_if_Err b (e e' : E) : raise_if b e = Err e' ↔ b = true ∧ e = e'.
Proof. destruct b; cbn; split; intuition congruence. Qed.

Lemma or_raise_Ok {A} (o : option A) (e : E) a : or_raise o e = Ok a ↔ o = Some a.
Proof. destruct o; cbn; split; congruence. Qed.

Lemma or_raise_Err {A} (o : option A) (e e' : E) :
  or_raise o e = Err e' ↔ o = None ∧ e = e'.
Proof. destruct o; cbn; split; intuition congruence. Qed.

Lemma map_err_Ok {E' A} (h : E → E') (m : result E A) a :
  map_err h m = Ok a ↔ m = Ok a.
Proof. destruct m; cbn; split; congruence. Qed.

Lemma map_err_Err {E' A} (h : E → E') (m : result E A) e' :
  map_err h m = Err e' ↔ ∃ e, m = Err e ∧ h e = e'.
Proof.
  destruct m; cbn; split; [discriminate | | | ].
  - intros (?&?&?); discriminate.
  - intros [=]; eauto.
  - intros (?&[=->]&<-); done.
Qed.

Lemma map_ok_Forall2 {A B} (f : A → result E B) l bs :
  map_ok f l = Ok bs ↔ Forall2 (λ a b, f a = Ok b) l bs.
Proof.
  revert bs; induction l as [|a l IH]; intros bs; cbn.
  - split; [intros [= <-]; constructor | inversion 1; done].
  - split.
    + intros (b&Hb&(bs'&Hbs&[= <-])%bind_Ok)%bind_Ok.
      constructor; [done|]. by apply IH.
    + inversion 1 as [|? b ? bs' Hb Hbs]; subst.
      rewrite Hb; cbn. apply IH in Hbs as ->. done.
Qed.

Lemma map_ok_total {A B} (f : A → result E B) l :
  (∀ a, a ∈ l → ∃ b, f a = Ok b) → ∃ bs, map_ok f l = Ok bs.
Proof.
  induction l as [|a l IH]; cbn; [eauto|]. intros H.
  destruct (H a) as [b ->]; [left|].
  destruct IH as [bs ->]; [intros; apply H; by right|]. cbn. eauto.
Qed.

Lemma map_ok_exists {A B} (f : A → result E B) l :
  (∃ bs, map_ok f l = Ok bs) ↔ Forall (λ a, ∃ b, f a = Ok b) l.
Proof. setoid_rewrite map_ok_Forall2. symmetry. apply Forall_exists_Forall2. Qed.

Lemma map_ok_Err {A B} (f : A → result E B) l e :
  map_ok f l = Err e → ∃ a, a ∈ l ∧ f a = Err e.
Proof.
  induction l as [|a l IH]; cbn; [done|].
  intros [H|(b&_&[H|(?&_&?)]%bind_Err)]%bind_Err; [| |done].
  - exists a. split; [left | done].
  - destruct (IH H) as (a'&?&?). exists a'. split; [by right | done].
Qed.

Lemma map_ok_pure {A B} (f : A → result E B) (g : A → B) l :
  (∀ a, a ∈ l → f a = Ok (g a)) → map_ok f l = Ok (g <$> l).
Proof.
  induction l as [|a l IH]; [done|]. intros Hf. cbn. rewrite (Hf a) by left. cbn.
  rewrite IH; [done|]. intros b Hb. apply Hf. by right.
Qed.

Lemma map_ok_first_Err {A B} (f : A → result E B) (g : A → B) before a after e :
  (∀ b, b ∈ before → f b = Ok (g b)) → f a = Err e → map_ok f (before ++ a :: after) = Err e.
Proof.
  intros Hb Ha. induction before as [|b before IH]; cbn; [by rewrite Ha|].
  rewrite (Hb b) by left. cbn. rewrite IH; [done|]. intros c Hc. apply Hb. by right.
Qed.

Lemma map_ok_ext {A B} (f g : A → result E B) l :
  (∀ a, f a = g a) → map_ok f l = map_ok g l.
Proof. intros Hfg. induction l as [|a l IH]; cbn; [done|]. by rewrite Hfg, IH. Qed.

Lemma map_ok_fmap {A B C} (f : B → result E C) (g : A → B) l :
  map_ok f (g <$> l) = map_ok (λ a, f (g a)) l.
Proof. induction l as [|a l IH]; cbn; [done|]. by rewrite IH. Qed.

Lemma fold_ok_omap {A B S} (f : S → B → result E S) (h : A → option B) st l :
  fold_ok f st (omap h l) =
  fold_ok (λ st a, match h a with Some b => f st b | None => Ok st end) st l.
Proof.
  revert st; induction l as [|a l IH]; intros st; cbn; [done|].
  destruct (h a) as [b|]; cbn; [|apply IH]. destruct (f st b); cbn; [apply IH | done].
Qed.

(** A loop invariant: every step keeps [P], so a loop that returns ends in [P]. *)
Lemma fold_ok_invariant {A S} (P : S → Prop) (f : S → A → result E S) l s s' :
  (∀ s a s', a ∈ l → P s → f s a = Ok s' → P s') →
  P s → fold_ok f s l = Ok s' → P s'.
Proof.
  revert s; induction l as [|a l IH]; cbn; intros s Hstep HP.
  - congruence.
  - intros (s1&H1&H2)%bind_Ok. eapply IH, H2.
    + intros; eapply Hstep; eauto. by right.
    + eapply Hstep; eauto. by left.
Qed.
End result_lemmas.

(** Two relations that agree on the elements of a list relate it to the same lists. *)
Lemma Forall2_agree {A B} (P : A → Prop) (Q R : A → B → Prop) l k :
  Forall P l → (∀ x y, P x → Q x y ↔ R x y) → Forall2 Q l k ↔ Forall2 R l k.
Proof.
  intros Hl HQR. split; intros Hk; revert Hl; induction Hk; intros Hl; [done | | done | ];
    apply Forall_cons in Hl as [Hx Hl]; (constructor; [by apply HQR | by auto]).
Qed.

Lemma forallb_Forall {A} (f : A → bool) l : forallb f l = true ↔ Forall (λ x, f x = true) l.
Proof. rewrite forallb_forall, Forall_forall. by setoid_rewrite <- list_elem_of_In. Qed.

(** Two predicates that agree where two others hold. *)
Lemma Forall_iff_2 {A} (P Q R S : A → Prop) l :
  Forall P l → Forall Q l → (∀ x, P x → Q x → R x ↔ S x) → Forall R l ↔ Forall S l.
Proof. rewrite !Forall_forall. naive_solver. Qed.

(** ** Tactics *)

(** Invert every monadic success or refusal in the context. *)
Ltac run_ok :=
  repeat match goal with
  | H : mbind _ _ = Ok _ |- _ => apply bind_Ok in H as (?&?&?)
  | H : result_bind _ _ _ _ = Ok _ |- _ => apply bind_Ok in H as (?&?&?)
  | H : raise_if _ _ = Ok _ |- _ => apply raise_if_Ok in H
  | H : raise_if _ _ = Err _ |- _ => apply raise_if_Err in H as [??]
  | H : or_raise _ _ = Ok _ |- _ => apply or_raise_Ok in H
  | H : or_raise _ _ = Err _ |- _ => apply or_raise_Err in H as [??]
  | H : map_err _ _ = Ok _ |- _ => apply map_err_Ok in H
  | H : map_err _ _ = Err _ |- _ => apply map_err_Err in H as (?&?&?)
  | H : Ok _ = Ok _ |- _ => injection H as H
  | H : Err _ = Err _ |- _ => injection H as H
  | H : Ok _ = Err _ |- _ => discriminate H
  | H : Err _ = Ok _ |- _ => discriminate H
  | H : mret _ = Ok _ |- _ => injection H as H
  | u : unit |- _ => destruct u
  end.

(** Resolve every decision the goal branches on that is settled by constructors. *)
Ltac settle := repeat match goal with
  | |- context [decide (?a = ?b)] =>
      first [ rewrite (decide_True (P := a = b)) by done | rewrite (decide_False (P := a = b)) by done ]
  end.

(** Split boolean conjunctions and comparisons into propositions. *)
Ltac bools :=
  repeat match goal with
  | H : _ && _ = true |- _ => apply andb_true_iff in H as [??]
  | H : _ || _ = false |- _ => apply orb_false_iff in H as [??]
  | H : negb _ = true |- _ => apply negb_true_iff in H
  | H : negb _ = false |- _ => apply negb_false_iff in H
  | H : bool_decide _ = true |- _ => apply bool_decide_eq_true in H
  | H : bool_decide _ = false |- _ => apply bool_decide_eq_false in H
  | H : (_ <=? _)%Z = true |- _ => apply Z.leb_le in H
  | H : (_ <=? _)%Z = false |- _ => apply Z.leb_gt in H
  | H : (_ <? _)%Z = true |- _ => apply Z.ltb_lt in H
  | H : (_ <? _)%Z = false |- _ => apply Z.ltb_ge in H
  | H : (_ =? _)%Z = true |- _ => apply Z.eqb_eq in H
  | H : (_ =? _)%Z = false |- _ => apply Z.eqb_neq in H
  | H : Is_true _ |- _ => apply Is_true_true in H
  end.

(** Exhaust a goal over finite enumerations. *)
Ltac enum_cases := intros; repeat match goal with
  | H : _ ∧ _ |- _ => destruct H
  | H : ?T |- _ => is_var H; lazymatch type of T with
                   | Set => destruct H; try discriminate
                   end
  end; try done; try congruence.

(** ** Python dictionaries

    Insertion-ordered, one entry per key: an association list with the dictionary's own
    update. [dict_wf] is the invariant every dictionary built by [dict_set] keeps. *)

Section dict.
Context {K V : Type} `{EqDecision K}.

Abbreviation dict := (list (K * V)).

Fixpoint dict_get (d : dict) (k : K) : option V :=
  match d with
  | [] => None
  | (k', v) :: d => if decide (k = k') then Some v else dict_get d k
  end.

Definition dict_has (d : dict) (k : K) : bool :=
  match dict_get d k with Some _ => true | None => false end.

(** [d[k] = v]: in place when [k] is present, at the end otherwise. *)
Fixpoint dict_set (d : dict) (k : K) (v : V) : dict :=
  match d with
  | [] => [(k, v)]
  | (k', v') :: d => if decide (k = k') then (k', v) :: d else (k', v') :: dict_set d k v
  end.

Definition dict_of_pairs (ps : list (K * V)) : dict :=
  foldl (λ d p, dict_set d p.1 p.2) [] ps.

Definition dict_keys (d : dict) : list K := d.*1.

Definition dict_wf (d : dict) : Prop := NoDup (dict_keys d).

(** Two dictionaries compare equal when they hold the same entries. *)
Definition dict_equiv (d d' : dict) : Prop := ∀ k, dict_get d k = dict_get d' k.

Lemma dict_get_elem d k v : dict_get d k = Some v → (k, v) ∈ d.
Proof.
  induction d as [|[k' v'] d IH]; cbn; [done|].
  case_decide; subst; [intros [= ->]; left | intros; right; auto].
Qed.

Lemma dict_get_None d k : dict_get d k = None ↔ k ∉ dict_keys d.
Proof.
  induction d as [|[k' v'] d IH]; cbn; [split; [intros _; apply not_elem_of_nil | done]|].
  rewrite not_elem_of_cons. case_decide; subst; [split; [done | tauto]|]. rewrite IH. tauto.
Qed.

Lemma dict_has_true d k : dict_has d k = true ↔ k ∈ dict_keys d.
Proof.
  unfold dict_has. destruct (dict_get d k) eqn:E.
  - split; [|done]. intros _. apply dict_get_elem in E.
    apply list_elem_of_fmap. by exists (k, v).
  - apply dict_get_None in E. split; [done | intros; by exfalso].
Qed.

Lemma dict_elem_get d k v : dict_wf d → (k, v) ∈ d → dict_get d k = Some v.
Proof.
  unfold dict_wf. induction d as [|[k' v'] d IH]; cbn; [by intros _ ?%elem_of_nil|].
  intros [Hk Hd]%NoDup_cons [[= -> ->]|Hin]%elem_of_cons; [by rewrite decide_True|].
  rewrite decide_False; [auto|]. intros ->. apply Hk, list_elem_of_fmap. by exists (k', v).
Qed.

Lemma dict_set_get d k v k' :
  dict_get (dict_set d k v) k' = if decide (k = k') then Some v else dict_get d k'.
Proof.
  induction d as [|[k1 v1] d IH]; cbn; repeat case_decide; cbn; repeat case_decide;
    subst; try congruence; try (by rewrite IH, decide_False); try (by rewrite IH, decide_True).
Qed.

Lemma dict_set_keys d k v :
  dict_keys (dict_set d k v) = if decide (k ∈ dict_keys d) then dict_keys d else dict_keys d ++ [k].
Proof.
  induction d as [|[k1 v1] d IH]; cbn; [done|].
  destruct (decide (k = k1)) as [->|Hne]; cbn.
  - rewrite decide_True; [done | left].
  - unfold dict_keys in *. rewrite IH. repeat case_decide; rewrite ?elem_of_cons in *; try done; tauto.
Qed.

Lemma dict_set_new d k v : k ∉ dict_keys d → dict_set d k v = d ++ [(k, v)].
Proof.
  induction d as [|[k' v'] d IH]; cbn; [done|]. intros [Hne Hk]%not_elem_of_cons.
  rewrite decide_False by done. f_equal. by apply IH.
Qed.

Lemma dict_set_wf d k v : dict_wf d → dict_wf (dict_set d k v).
Proof.
  unfold dict_wf. rewrite dict_set_keys. case_decide as Hk; [done|]. intros Hd.
  apply NoDup_app. split; [done|]. split; [|apply NoDup_singleton].
  intros x Hx ->%list_elem_of_singleton. done.
Qed.

Lemma dict_of_pairs_wf ps : dict_wf (dict_of_pairs ps).
Proof.
  unfold dict_of_pairs. assert (Hn : dict_wf []) by (unfold dict_wf; constructor).
  revert Hn. generalize (@nil (K * V)).
  induction ps as [|[k v] ps IH]; intros d Hd; cbn; [done|]. by apply IH, dict_set_wf.
Qed.

(** Pairs that already name distinct keys are their own dictionary. *)
Lemma dict_of_pairs_id ps : dict_wf ps → dict_of_pairs ps = ps.
Proof.
  unfold dict_of_pairs, dict_wf. intros Hps.
  enough (∀ acc, NoDup (dict_keys (acc ++ ps)) →
    foldl (λ d p, dict_set d p.1 p.2) acc ps = acc ++ ps) by (by apply (H [])).
  clear Hps. induction ps as [|[k v] ps IH]; intros acc Hnd; cbn; [by rewrite app_nil_r|].
  assert (Hset : dict_set acc k v = acc ++ [(k, v)]).
  { apply dict_set_new. unfold dict_keys in *. rewrite fmap_app in Hnd.
    apply NoDup_app in Hnd as (_&Hd&_). intros Hin. apply (Hd k Hin). left. }
  rewrite Hset. replace (acc ++ (k, v) :: ps) with ((acc ++ [(k, v)]) ++ ps) in Hnd |- *
    by (by rewrite <- app_assoc). by apply IH.
Qed.

#[export] Instance dict_equiv_equivalence : Equivalence dict_equiv.
Proof. unfold dict_equiv; split; intros ?; intros; congruence. Qed.

Lemma dict_equiv_Permutation d d' : dict_wf d → d ≡ₚ d' → dict_equiv d d'.
Proof.
  intros Hwf Hp k. assert (Hwf' : dict_wf d').
  { unfold dict_wf, dict_keys in *. by rewrite <- Hp. }
  destruct (dict_get d k) eqn:E.
  - symmetry. apply dict_elem_get; [done|]. rewrite <- Hp. by apply dict_get_elem.
  - symmetry. apply dict_get_None in E. apply dict_get_None.
    unfold dict_keys in *. by rewrite <- Hp.
Qed.
End dict.

#[export] Hint Resolve dict_set_wf dict_of_pairs_wf : core.

(** *** Dictionaries tabulated from a list of rows with distinct keys *)

Section tabulated.
Context {K V A : Type} `{EqDecision K, EqDecision A} (key : A → K).

Definition tabulate (f : A → V) (l : list A) : list (K * V) := (λ a, (key a, f a)) <$> l.

Lemma tabulate_keys f l : dict_keys (tabulate f l) = key <$> l.
Proof. unfold dict_keys, tabulate. rewrite <- list_fmap_compose. by apply list_fmap_ext. Qed.

Lemma tabulate_of_pairs f l : NoDup (key <$> l) → dict_of_pairs (tabulate f l) = tabulate f l.
Proof. intros Hl. apply dict_of_pairs_id. unfold dict_wf. by rewrite tabulate_keys. Qed.

Lemma tabulate_ext f g l : (∀ a, a ∈ l → f a = g a) → tabulate f l = tabulate g l.
Proof.
  intros Hfg. unfold tabulate. induction l as [|a l IH]; [done|]. cbn. rewrite (Hfg a) by left.
  f_equal. apply IH. intros b Hb. apply Hfg. by right.
Qed.

Lemma tabulate_get f l a : NoDup (key <$> l) → a ∈ l → dict_get (tabulate f l) (key a) = Some (f a).
Proof.
  intros Hl Ha. apply dict_elem_get; [unfold dict_wf; by rewrite tabulate_keys|].
  apply list_elem_of_fmap. by exists a.
Qed.

Lemma tabulate_set f l a v : NoDup (key <$> l) → a ∈ l →
  dict_set (tabulate f l) (key a) v = tabulate (λ b, if decide (b = a) then v else f b) l.
Proof.
  induction l as [|b l IH]; [by intros _ ?%elem_of_nil|]. cbn [fmap list_fmap].
  intros [Hb Hl]%NoDup_cons Ha. unfold tabulate. cbn [fmap list_fmap dict_set].
  destruct (decide (key b = key a)) as [He|He].
  - assert (b = a) as ->.
    { apply elem_of_cons in Ha as [->|Ha]; [done|]. destruct Hb. rewrite He. by apply list_elem_of_fmap_2. }
    rewrite (decide_True (P := a = a)) by done.
    rewrite ?(decide_True (P := key a = key a)) by done. f_equal.
    apply tabulate_ext. intros c Hc. rewrite decide_False; [done|]. intros ->.
    by apply Hb, list_elem_of_fmap_2.
  - rewrite ?(decide_False (P := key a = key b)) by done. rewrite ?(decide_False (P := key b = key a)) by done.
    rewrite (decide_False (P := b = a)) by congruence. f_equal. apply IH; [done|].
    apply elem_of_cons in Ha as [->|Ha]; [done|done].
Qed.

(** A loop over distinct rows that rewrites each row's own entry. *)
Lemma fold_tabulate {E} (step : list (K * V) → A → result E (list (K * V))) f g l rows :
  NoDup (key <$> l) → NoDup rows → (∀ a, a ∈ rows → a ∈ l) →
  (∀ h a, a ∈ rows → h a = f a →
     step (tabulate h l) a = Ok (tabulate (λ b, if decide (b = a) then g a else h b) l)) →
  fold_ok step (tabulate f l) rows =
    Ok (tabulate (λ b, if decide (b ∈ rows) then g b else f b) l).
Proof.
  intros Hl. revert f. induction rows as [|a rows IH]; intros f Hr Hsub Hstep; cbn [fold_ok].
  - do 2 f_equal.
  - apply NoDup_cons in Hr as [Ha Hr]. rewrite Hstep by (done || left). cbn [mbind result_bind].
    rewrite IH; [|done| |].
    + f_equal. apply tabulate_ext. intros b _.
      destruct (decide (b ∈ rows)) as [Hb|Hb], (decide (b ∈ a :: rows)) as [Hb'|Hb']; try done.
      * destruct Hb'. by right.
      * rewrite decide_True; [by apply elem_of_cons in Hb' as [->|?]|].
        by apply elem_of_cons in Hb' as [->|?].
      * rewrite decide_False; [done|]. intros ->. destruct Hb'. by left.
    + intros b Hb. apply Hsub. by right.
    + intros h b Hb Hh. apply Hstep; [by right|]. rewrite Hh.
      rewrite decide_False; [done|]. by intros ->.
Qed.
End tabulated.

Create HintDb rescue discriminated.

(** ** Reachability: reflexive transitive closure of a step relation *)

Section reach.
Context {S : Type} (step : S → S → Prop).

Inductive reaches : S → S → Prop :=
| reaches_refl s : reaches s s
| reaches_step s s' s'' : step s s' → reaches s' s'' → reaches s s''.

Lemma reaches_trans a b c : reaches a b → reaches b c → reaches a c.
Proof. induction 1; eauto using reaches. Qed.

Lemma reaches_invariant (P : S → Prop) :
  (∀ s s', P s → step s s' → P s') → ∀ s s', reaches s s' → P s → P s'.
Proof. intros Hstep s s' H. induction H; eauto. Qed.

(** A measure that every step decreases bounds the length of every run. *)
Lemma measure_no_infinite (m : S → nat) :
  (∀ s s', step s s' → m s' < m s)%nat → ∀ s s', reaches s s' → (m s' ≤ m s)%nat.
Proof. intros Hm s s' H. induction H as [|??? Hs]; [done|]. apply Hm in Hs. lia. Qed.
End reach.
#[export] Hint Constructors reaches : rescue.
