(* ===== verification/PyStr.v ===== *)
(** * Python text

    A Python [str] is modelled as the byte string of its (generalized) UTF-8 encoding, so
    [len(text.encode())] is [String.length] and Python's ordering of strings by code point is
    the byte order [String.le].  A lone surrogate, which [str] admits and [str.encode]
    refuses, is its three-byte generalized encoding.  The file holds the text operations the
    sources call: [split], [join], [startswith], [removeprefix], decimal rendering and
    zero-padding, with their round trips. *)

From S2P Require Import Prelude.
From Stdlib Require Export Ascii String.
From stdpp Require Export sorting.

Local Open Scope string_scope.

#[global] Arguments String.append !_ _ / : simpl nomatch.

(** ** Character classes *)

Definition ord (c : ascii) : N := N_of_ascii c.

Definition in_range (lo hi : ascii) (c : ascii) : bool :=
  (ord lo <=? ord c)%N && (ord c <=? ord hi)%N.

Definition is_lower : ascii → bool := in_range "a" "z".
Definition is_upper : ascii → bool := in_range "A" "Z".
Definition is_digit : ascii → bool := in_range "0" "9".
Definition is_lower_hex (c : ascii) : bool := is_digit c || in_range "a" "f" c.

(** ** Whole-string predicates *)

Fixpoint str_all (p : ascii → bool) (s : string) : bool :=
  match s with
  | "" => true
  | String c s => p c && str_all p s
  end.

Definition has_char (c : ascii) (s : string) : bool :=
  negb (str_all (λ d, negb (bool_decide (c = d))) s).

(** A continuation byte starts no character, so the others count the code points. *)
Fixpoint char_len (s : string) : nat :=
  match s with
  | "" => 0
  | String c s => (if in_range "128" "191" c then 0 else 1) + char_len s
  end.

(** UTF-8 of a code point in [U+D800..U+DFFF] is [ED A0..BF xx] and nothing else is. *)
Fixpoint has_surrogate (s : string) : bool :=
  match s with
  | String c (String d _ as s') =>
      (bool_decide (c = "237"%char) && in_range "160" "191" d) || has_surrogate s'
  | String _ s' => has_surrogate s'
  | "" => false
  end.

(** [text.encode()]: refused for a lone surrogate, the bytes otherwise. *)
Definition encode_utf8 (s : string) : option string :=
  if has_surrogate s then None else Some s.

Lemma str_all_app p s t : str_all p (s ++ t) = str_all p s && str_all p t.
Proof. induction s as [|c s IH]; cbn; [done|]. by rewrite IH, andb_assoc. Qed.

Lemma str_all_mono p q s : (∀ c, p c = true → q c = true) → str_all p s = true → str_all q s = true.
Proof.
  intros Hpq. induction s as [|c s IH]; cbn; [done|].
  intros [??]%andb_true_iff. rewrite Hpq, IH; done.
Qed.

Lemma has_char_false c s : has_char c s = false ↔ str_all (λ d, negb (bool_decide (c = d))) s = true.
Proof. unfold has_char. by rewrite negb_false_iff. Qed.

Lemma has_char_cons c d s : has_char c (String d s) = bool_decide (c = d) || has_char c s.
Proof. unfold has_char. change (str_all ?p (String d s)) with (p d && str_all p s). by rewrite negb_andb, negb_involutive. Qed.

Lemma has_char_app c s t : has_char c (s ++ t) = has_char c s || has_char c t.
Proof. unfold has_char. by rewrite str_all_app, negb_andb. Qed.

Lemma str_all_has_char p c s : p c = false → str_all p s = true → has_char c s = false.
Proof.
  intros Hc Hs. apply has_char_false. revert Hs. apply str_all_mono.
  intros d Hd. case_bool_decide; subst; [congruence | done].
Qed.

Lemma str_app_nil_r s : s ++ "" = s.
Proof. induction s; cbn; congruence. Qed.

Lemma str_app_assoc s t u : s ++ (t ++ u) = (s ++ t) ++ u.
Proof. induction s; cbn; congruence. Qed.

Lemma str_length_app s t : String.length (s ++ t) = (String.length s + String.length t)%nat.
Proof. induction s; cbn; congruence. Qed.

Lemma str_app_inv_tail s t u : s ++ u = t ++ u → s = t.
Proof.
  revert t. induction s as [|c s IH]; intros [|d t] H; [done| | |injection H as -> H; f_equal; auto].
  - apply (f_equal String.length) in H. cbn in H. rewrite str_length_app in H. lia.
  - apply (f_equal String.length) in H. cbn in H. rewrite str_length_app in H. lia.
Qed.

Lemma str_app_inv_head s t u : s ++ t = s ++ u → t = u.
Proof. induction s; cbn; [done|]. intros [= ?]; auto. Qed.

(** ** Splitting and joining *)

(** [text.split(c)] *)
Fixpoint split_on (c : ascii) (s : string) : list string :=
  match s with
  | "" => [""]
  | String d s =>
      if decide (c = d) then "" :: split_on c s
      else match split_on c s with
           | [] => [String d ""]
           | p :: ps => String d p :: ps
           end
  end.

(** [sep.join(parts)] *)
Definition join (sep : string) (parts : list string) : string := String.concat sep parts.

Lemma join_cons sep p q ps : join sep (p :: q :: ps) = p ++ sep ++ join sep (q :: ps).
Proof. done. Qed.

Lemma split_on_nonempty c s : split_on c s ≠ [].
Proof. destruct s as [|d s]; cbn; [done|]. case_decide; [done|]. by destruct (split_on c s). Qed.

Lemma join_split c s : join (String c "") (split_on c s) = s.
Proof.
  induction s as [|d s IH]; cbn; [done|].
  pose proof (split_on_nonempty c s) as Hne.
  destruct (split_on c s) as [|p ps] eqn:E; [done|].
  case_decide as Hc.
  - subst d. rewrite join_cons, IH. done.
  - destruct ps; cbn in *; by f_equal.
Qed.

Lemma split_on_Forall c s : Forall (λ p, has_char c p = false) (split_on c s).
Proof.
  induction s as [|d s IH]; cbn; [by repeat constructor|].
  case_decide as Hc; [by constructor|].
  destruct (split_on c s) as [|p ps].
  - constructor; [|done]. rewrite has_char_cons. by rewrite bool_decide_false.
  - apply Forall_cons in IH as [Hp Hps]. constructor; [|done].
    rewrite has_char_cons. by rewrite bool_decide_false, Hp.
Qed.

Lemma split_on_plain c s : has_char c s = false → split_on c s = [s].
Proof.
  induction s as [|d s IH]; cbn [split_on]; [done|]. rewrite has_char_cons.
  intros [Hd Hs]%orb_false_iff. bools. rewrite decide_False by done. by rewrite IH.
Qed.

Lemma split_on_app c p s :
  has_char c p = false → split_on c (p ++ String c s) = p :: split_on c s.
Proof.
  induction p as [|d p IH]; cbn [append split_on].
  - intros _. by rewrite decide_True.
  - rewrite has_char_cons. intros [Hd Hp]%orb_false_iff. bools.
    rewrite decide_False by done. by rewrite IH.
Qed.

Lemma split_join c ps :
  ps ≠ [] → Forall (λ p, has_char c p = false) ps → split_on c (join (String c "") ps) = ps.
Proof.
  induction ps as [|p ps IH]; [done|]. intros _ [Hp Hps]%Forall_cons.
  destruct ps as [|q ps]; [by apply split_on_plain|].
  rewrite join_cons. cbn [append]. rewrite split_on_app by done. by rewrite IH.
Qed.

(** A character of a part is a character of the joined text. *)
Lemma join_has_char c sep ps p : p ∈ ps → has_char c (join sep ps) = false → has_char c p = false.
Proof.
  induction ps as [|q [|q' ps] IH]; [by intros ?%elem_of_nil|by intros ->%list_elem_of_singleton|].
  rewrite join_cons, !has_char_app. intros Hp [Hq [_ Hrest]%orb_false_iff]%orb_false_iff.
  apply elem_of_cons in Hp as [->|Hp]; [done | by apply IH].
Qed.

Lemma split_has_char c sep s p : p ∈ split_on sep s → has_char c s = false → has_char c p = false.
Proof. intros Hp Hs. rewrite <- (join_split sep s) in Hs. by eapply join_has_char. Qed.

(** Splitting around one more separator. *)
Lemma split_on_snoc c s p :
  has_char c p = false → split_on c (s ++ String c p) = (split_on c s ++ [p])%list.
Proof.
  intros Hp. induction s as [|d s IH]; cbn [append split_on].
  - rewrite decide_True by done. by rewrite split_on_plain.
  - case_decide; [by rewrite IH|]. rewrite IH. pose proof (split_on_nonempty c s) as Hne.
    by destruct (split_on c s).
Qed.

Lemma join_length sep ps :
  String.length (join sep ps) =
    (sum_list (String.length <$> ps) + String.length sep * (length ps - 1))%nat.
Proof.
  induction ps as [|p ps IH]; [cbn; lia|]. destruct ps as [|q ps]; [cbn; lia|].
  rewrite join_cons, !str_length_app, IH. cbn. lia.
Qed.

Lemma join_str_all p sep ps :
  str_all p sep = true → Forall (λ s, str_all p s = true) ps → str_all p (join sep ps) = true.
Proof.
  intros Hsep. induction 1 as [|s ps Hs Hps IH]; [done|]. destruct ps as [|q ps]; [done|].
  rewrite join_cons, !str_all_app, Hs, Hsep, IH. done.
Qed.

(** ** Prefixes *)

Fixpoint remove_prefix_opt (p s : string) : option string :=
  match p, s with
  | "", _ => Some s
  | String c p, String d s => if decide (c = d) then remove_prefix_opt p s else None
  | String _ _, "" => None
  end.

(** [text.startswith(p)] *)
Definition starts_with (p s : string) : bool :=
  match remove_prefix_opt p s with Some _ => true | None => false end.

(** [text.removeprefix(p)] *)
Definition remove_prefix (p s : string) : string := default s (remove_prefix_opt p s).

Lemma remove_prefix_opt_Some p s t : remove_prefix_opt p s = Some t ↔ s = p ++ t.
Proof.
  revert s; induction p as [|c p IH]; intros s; cbn; [split; congruence|].
  destruct s as [|d s]; [done|]. case_decide; subst.
  - rewrite IH. split; [by intros -> | by intros [= ->]].
  - split; [done|]. by intros [= ??].
Qed.

Lemma starts_with_spec p s : starts_with p s = true ↔ ∃ t, s = p ++ t.
Proof.
  unfold starts_with. destruct (remove_prefix_opt p s) eqn:E.
  - split; [|done]. intros _. apply remove_prefix_opt_Some in E. eauto.
  - split; [done|]. intros [t Ht]. apply remove_prefix_opt_Some in Ht. congruence.
Qed.

Lemma remove_prefix_app p t : remove_prefix p (p ++ t) = t.
Proof. unfold remove_prefix. by rewrite (proj2 (remove_prefix_opt_Some p _ t) eq_refl). Qed.

(** ** Decimal rendering *)

Local Open Scope Z_scope.

Definition digit (n : Z) : ascii := ascii_of_N (Z.to_N (48 + n)).
Definition digit_value (c : ascii) : Z := Z.of_N (ord c) - 48.

Fixpoint dec_fuel (fuel : nat) (n : Z) : string :=
  match fuel with
  | O => ""
  | S fuel => if n <? 10 then String (digit n) "" else dec_fuel fuel (n / 10) ++ String (digit (n mod 10)) ""
  end.

(** [str(n)]: at most one digit per bit, so [log2 n + 1] steps suffice. *)
Definition dec_nat (n : Z) : string := dec_fuel (S (Z.to_nat (Z.log2 n))) n.
Definition dec (n : Z) : string := if n <? 0 then String "-" (dec_nat (- n)) else dec_nat n.

(** Exactly [w] digits, most significant first. *)
Fixpoint fixed_dec (w : nat) (n : Z) : string :=
  match w with
  | O => ""
  | S w => fixed_dec w (n / 10) ++ String (digit (n mod 10)) ""
  end.

Fixpoint zeros (k : nat) : string := match k with O => "" | S k => String "0" (zeros k) end.

(** [f"{n:0wd}"] *)
Definition zero_padded (w : nat) (n : Z) : string := zeros (w - String.length (dec n)) ++ dec n.

(** [int(text)] on a run of ASCII digits. *)
Fixpoint digits_value (acc : Z) (s : string) : Z :=
  match s with
  | "" => acc
  | String c s => digits_value (10 * acc + digit_value c) s
  end.

Lemma digit_spec n : 0 ≤ n < 10 → digit_value (digit n) = n ∧ is_digit (digit n) = true.
Proof.
  intros Hn. assert (Hc : n = 0 ∨ n = 1 ∨ n = 2 ∨ n = 3 ∨ n = 4 ∨ n = 5 ∨ n = 6 ∨ n = 7 ∨ n = 8 ∨ n = 9) by lia.
  repeat destruct Hc as [->|Hc]; try (by vm_compute). subst; by vm_compute.
Qed.

Lemma digit_value_range c : is_digit c = true → 0 ≤ digit_value c < 10 ∧ digit (digit_value c) = c.
Proof. destruct c as [[] [] [] [] [] [] [] []]; by vm_compute. Qed.

Lemma digits_value_app acc s c :
  digits_value acc (s ++ String c "") = 10 * digits_value acc s + digit_value c.
Proof. revert acc; induction s as [|d s IH]; intros acc; cbn [append digits_value]; [done | apply IH]. Qed.

Lemma log2_div10 n : 10 ≤ n → (Z.to_nat (Z.log2 (n / 10)) < Z.to_nat (Z.log2 n))%nat.
Proof.
  intros Hn. assert (1 ≤ n / 10) by (apply Z.div_le_lower_bound; lia).
  apply Z2Nat.inj_lt; [apply Z.log2_nonneg.. |].
  apply Z.lt_le_trans with (Z.log2 (2 * (n / 10))).
  - rewrite Z.log2_double by lia. lia.
  - apply Z.log2_le_mono. pose proof (Z.mul_div_le n 10). lia.
Qed.

Section dec_fuel_lemmas.
Lemma dec_fuel_step f n :
  (Z.to_nat (Z.log2 n) < f)%nat → 10 ≤ n →
  dec_fuel f n = dec_fuel (pred f) (n / 10) ++ String (digit (n mod 10)) "".
Proof. intros Hf Hn. destruct f; [lia|]. cbn. by rewrite (proj2 (Z.ltb_ge n 10)). Qed.

Lemma dec_fuel_small f n : (0 < f)%nat → n < 10 → dec_fuel f n = String (digit n) "".
Proof. intros Hf Hn. destruct f; [lia|]. cbn. by rewrite (proj2 (Z.ltb_lt n 10)). Qed.

Lemma dec_fuel_value f n :
  0 ≤ n → (Z.to_nat (Z.log2 n) < f)%nat → digits_value 0 (dec_fuel f n) = n.
Proof.
  revert n; induction f as [|f IH]; intros n Hn Hf; [lia|].
  destruct (Z.lt_ge_cases n 10).
  - rewrite dec_fuel_small by lia. cbn [digits_value]. rewrite (proj1 (digit_spec n ltac:(lia))). lia.
  - rewrite dec_fuel_step by lia. cbn [pred]. rewrite digits_value_app.
    pose proof (log2_div10 n ltac:(lia)).
    rewrite IH by (try lia; apply Z.div_pos; lia).
    rewrite (proj1 (digit_spec (n mod 10) ltac:(apply Z.mod_pos_bound; lia))).
    pose proof (Z.div_mod n 10). lia.
Qed.

Lemma dec_fuel_digits f n : 0 ≤ n → str_all is_digit (dec_fuel f n) = true.
Proof.
  revert n; induction f as [|f IH]; intros n Hn; cbn; [done|].
  case_match; bools.
  - cbn. by rewrite (proj2 (digit_spec n ltac:(lia))).
  - rewrite str_all_app, IH by (apply Z.div_pos; lia). cbn.
    by rewrite (proj2 (digit_spec (n mod 10) ltac:(apply Z.mod_pos_bound; lia))).
Qed.

Lemma zeros_snoc k : zeros (S k) = zeros k ++ "0".
Proof. induction k; cbn in *; [done | by f_equal]. Qed.

Lemma fixed_dec_0 w : fixed_dec w 0 = zeros w.
Proof. induction w as [|w IH]; [done|]. rewrite zeros_snoc, <- IH. done. Qed.

Lemma zeros_length k : String.length (zeros k) = k.
Proof. induction k; cbn; congruence. Qed.

Lemma fixed_dec_length w n : String.length (fixed_dec w n) = w.
Proof. revert n; induction w; intros n; cbn; [done|]. rewrite str_length_app, IHw. cbn. lia. Qed.

Lemma dec_fuel_fixed f w n :
  0 ≤ n < 10 ^ Z.of_nat (S w) → (Z.to_nat (Z.log2 n) < f)%nat →
  (String.length (dec_fuel f n) ≤ S w)%nat ∧
  zeros (S w - String.length (dec_fuel f n)) ++ dec_fuel f n = fixed_dec (S w) n.
Proof.
  revert f n; induction w as [|w IH]; intros f n Hn Hf.
  - change (10 ^ Z.of_nat 1) with 10 in Hn. rewrite dec_fuel_small by lia. cbn.
    rewrite Z.mod_small by lia. split; [lia|done].
  - destruct (Z.lt_ge_cases n 10).
    + rewrite dec_fuel_small by lia. split; [cbn; lia|].
      change (fixed_dec (S (S w)) n) with (fixed_dec (S w) (n / 10) ++ String (digit (n mod 10)) "").
      rewrite Z.div_small, Z.mod_small, fixed_dec_0 by lia. cbn [String.length].
      by replace (S (S w) - 1)%nat with (S w) by lia.
    + rewrite dec_fuel_step by lia.
      assert (Hd : 0 ≤ n / 10 < 10 ^ Z.of_nat (S w)).
      { split; [apply Z.div_pos; lia|]. apply Z.div_lt_upper_bound; [lia|].
        rewrite <- Z.pow_succ_r by lia. rewrite <- Nat2Z.inj_succ. lia. }
      pose proof (log2_div10 n ltac:(lia)).
      destruct (IH (pred f) (n / 10) Hd ltac:(lia)) as [Hlen Heq].
      rewrite str_length_app. cbn [String.length]. split; [lia|].
      change (fixed_dec (S (S w)) n) with (fixed_dec (S w) (n / 10) ++ String (digit (n mod 10)) "").
      rewrite <- Heq, str_app_assoc. f_equal. f_equal. f_equal. lia.
Qed.
End dec_fuel_lemmas.

Lemma zero_padded_fixed w n :
  0 ≤ n < 10 ^ Z.of_nat (S w) → zero_padded (S w) n = fixed_dec (S w) n.
Proof.
  intros Hn. unfold zero_padded, dec, dec_nat. rewrite (proj2 (Z.ltb_ge n 0)) by lia.
  apply dec_fuel_fixed; [done | lia].
Qed.

Lemma fixed_dec_value w n : 0 ≤ n < 10 ^ Z.of_nat w → digits_value 0 (fixed_dec w n) = n.
Proof.
  revert n; induction w as [|w IH]; intros n Hn; [cbn in *; lia|].
  cbn [fixed_dec]. rewrite digits_value_app.
  rewrite Nat2Z.inj_succ, Z.pow_succ_r in Hn by lia.
  rewrite IH by (split; [apply Z.div_pos; lia | apply Z.div_lt_upper_bound; lia]).
  rewrite (proj1 (digit_spec (n mod 10) ltac:(apply Z.mod_pos_bound; lia))).
  pose proof (Z.div_mod n 10). lia.
Qed.

Lemma fixed_dec_digits w n : str_all is_digit (fixed_dec w n) = true.
Proof.
  revert n; induction w as [|w IH]; intros n; cbn; [done|].
  rewrite str_all_app, IH. cbn.
  by rewrite (proj2 (digit_spec (n mod 10) ltac:(apply Z.mod_pos_bound; lia))).
Qed.

Lemma dec_nat_value n : 0 ≤ n → digits_value 0 (dec_nat n) = n.
Proof. intros. unfold dec_nat. apply dec_fuel_value; lia. Qed.

Lemma dec_nat_digits n : 0 ≤ n → str_all is_digit (dec_nat n) = true.
Proof. intros. by apply dec_fuel_digits. Qed.

Lemma digits_value_bound s : str_all is_digit s = true → ∀ acc, 0 ≤ acc →
  0 ≤ digits_value acc s < (acc + 1) * 10 ^ Z.of_nat (String.length s).
Proof.
  induction s as [|c s IH]; intros Hs acc Ha; cbn [digits_value String.length str_all] in *.
  - change (Z.of_nat 0) with 0. lia.
  - bools. apply digit_value_range in H as [Hd _].
    rewrite Nat2Z.inj_succ, Z.pow_succ_r by lia.
    specialize (IH H0 (10 * acc + digit_value c) ltac:(lia)). split; [lia|].
    apply Z.lt_le_trans with (1 := proj2 IH). rewrite Z.mul_assoc. apply Z.mul_le_mono_nonneg_r; lia.
Qed.

Lemma digits_value_scale s acc :
  str_all is_digit s = true → 0 ≤ acc → acc * 10 ^ Z.of_nat (String.length s) ≤ digits_value acc s.
Proof.
  revert acc; induction s as [|c s IH]; intros acc Hs Ha; cbn [digits_value String.length str_all] in *.
  - change (Z.of_nat 0) with 0. lia.
  - bools. apply digit_value_range in H as [Hd _]. rewrite Nat2Z.inj_succ, Z.pow_succ_r by lia.
    etrans; [|apply IH; [done | lia]]. rewrite Z.mul_assoc. apply Z.mul_le_mono_nonneg_r; lia.
Qed.

(** Between digit strings of one length, text order is numeric order. *)
Lemma compare_digits s s' a :
  0 ≤ a → String.length s = String.length s' → str_all is_digit s = true → str_all is_digit s' = true →
  String.compare s s' = Z.compare (digits_value a s) (digits_value a s').
Proof.
  revert s' a; induction s as [|c s IH]; intros [|c' s'] a Ha Hl Hs Hs'; try discriminate Hl;
    cbn [String.compare digits_value str_all String.length] in *; [symmetry; apply Z.compare_refl|].
  injection Hl as Hl. apply andb_true_iff in Hs as [Hd Hs], Hs' as [Hd' Hs'].
  pose proof (digit_value_range c Hd) as [Hc _].
  pose proof (digit_value_range c' Hd') as [Hc' _]. unfold Ascii.compare.
  destruct (N.compare_spec (N_of_ascii c) (N_of_ascii c')) as [He|Hlt|Hgt].
  - assert (c = c') as <- by (rewrite <- (ascii_N_embedding c), He; apply ascii_N_embedding).
    apply IH; try done. lia.
  - symmetry. apply Z.compare_lt_iff.
    pose proof (digits_value_bound s Hs (10 * a + digit_value c) ltac:(lia)) as [_ Hb].
    pose proof (digits_value_bound s' Hs' (10 * a + digit_value c') ltac:(lia)) as [Hb' _].
    apply Z.lt_le_trans with (1 := Hb). rewrite Hl.
    apply Z.le_trans with ((10 * a + digit_value c') * 10 ^ Z.of_nat (String.length s')).
    + apply Z.mul_le_mono_nonneg_r; [lia|]. unfold digit_value, ord. lia.
    + apply digits_value_scale; [done | lia].
  - symmetry. apply Z.compare_gt_iff.
    pose proof (digits_value_bound s' Hs' (10 * a + digit_value c') ltac:(lia)) as [_ Hb].
    apply Z.lt_le_trans with (1 := Hb). rewrite <- Hl.
    apply Z.le_trans with ((10 * a + digit_value c) * 10 ^ Z.of_nat (String.length s)).
    + apply Z.mul_le_mono_nonneg_r; [lia|]. unfold digit_value, ord. lia.
    + apply digits_value_scale; [done | lia].
Qed.
