(* ===== verification/Regex.v ===== *)
(** * Regular expressions, as [re.fullmatch] reads them

    The patterns of the sources are built from character classes, sequences, alternatives,
    bounded and unbounded repetition, and negative lookahead at a fixed position (modelled by
    intersection and complement).  [fullmatch] runs Brzozowski derivatives; [lang] is the
    reference meaning, and [fullmatch_lang] says the two agree.  [alphabet], [max_len] and
    [min_len] over-approximate the characters and lengths of a pattern's matches, so that
    facts such as "an identifier carries no slash" are one computation. *)

From S2P Require Import Prelude PyStr.

Local Open Scope string_scope.

Inductive re : Type :=
| REmpty
| REps
| RChr (p : ascii → bool)
| RSeq (r s : re)
| RAlt (r s : re)
| RStar (r : re)
| RAnd (r s : re)
| RNot (r : re).

(** ** Reference meaning *)

Inductive star_lang (L : string → Prop) : string → Prop :=
| star_lang_nil : star_lang L ""
| star_lang_app u v : L u → star_lang L v → star_lang L (u ++ v).

Fixpoint lang (r : re) : string → Prop :=
  match r with
  | REmpty => λ _, False
  | REps => λ w, w = ""
  | RChr p => λ w, ∃ c, p c = true ∧ w = String c ""
  | RSeq r s => λ w, ∃ u v, w = u ++ v ∧ lang r u ∧ lang s v
  | RAlt r s => λ w, lang r w ∨ lang s w
  | RStar r => star_lang (lang r)
  | RAnd r s => λ w, lang r w ∧ lang s w
  | RNot r => λ w, ¬ lang r w
  end.

(** ** Derivatives *)

Fixpoint nullable (r : re) : bool :=
  match r with
  | REmpty => false
  | REps => true
  | RChr _ => false
  | RSeq r s => nullable r && nullable s
  | RAlt r s => nullable r || nullable s
  | RStar _ => true
  | RAnd r s => nullable r && nullable s
  | RNot r => negb (nullable r)
  end.

(** Smart constructors keep derivatives small. *)
Definition mk_seq (r s : re) : re :=
  match r, s with
  | REmpty, _ => REmpty
  | _, REmpty => REmpty
  | REps, s => s
  | r, s => RSeq r s
  end.

Definition mk_alt (r s : re) : re :=
  match r, s with
  | REmpty, s => s
  | r, REmpty => r
  | r, s => RAlt r s
  end.

Definition mk_and (r s : re) : re :=
  match r, s with
  | REmpty, _ => REmpty
  | _, REmpty => REmpty
  | r, s => RAnd r s
  end.

Fixpoint deriv (c : ascii) (r : re) : re :=
  match r with
  | REmpty => REmpty
  | REps => REmpty
  | RChr p => if p c then REps else REmpty
  | RSeq r s =>
      let d := mk_seq (deriv c r) s in
      if nullable r then mk_alt d (deriv c s) else d
  | RAlt r s => mk_alt (deriv c r) (deriv c s)
  | RStar r => mk_seq (deriv c r) (RStar r)
  | RAnd r s => mk_and (deriv c r) (deriv c s)
  | RNot r => RNot (deriv c r)
  end.

(** [re.fullmatch(pattern, text) is not None] *)
Fixpoint fullmatch (r : re) (w : string) : bool :=
  match w with
  | "" => nullable r
  | String c w => fullmatch (deriv c r) w
  end.

Lemma star_lang_cons L c w :
  star_lang L (String c w) ↔ ∃ u v, w = u ++ v ∧ L (String c u) ∧ star_lang L v.
Proof.
  split.
  - remember (String c w) as x eqn:Hx. intros H. revert c w Hx.
    induction H as [|u v Hu Hv IH]; intros c w Hx; [done|].
    destruct u as [|d u]; cbn in Hx.
    + by apply IH.
    + injection Hx as -> <-. eauto.
  - intros (u&v&->&Hu&Hv). change (String c (u ++ v)) with (String c u ++ v). by constructor.
Qed.

Lemma nullable_lang r : nullable r = true ↔ lang r "".
Proof.
  induction r as [| |p|r IHr s IHs|r IHr s IHs|r IHr|r IHr s IHs|r IHr]; cbn.
  - done.
  - done.
  - split; [done|]. by intros (?&_&?).
  - rewrite andb_true_iff, IHr, IHs. split.
    + intros []. by exists "", "".
    + intros (u&v&Huv&?&?). by destruct u, v.
  - by rewrite orb_true_iff, IHr, IHs.
  - split; [constructor | done].
  - by rewrite andb_true_iff, IHr, IHs.
  - rewrite negb_true_iff, <- IHr. by destruct (nullable r).
Qed.

Lemma mk_seq_lang r s w : lang (mk_seq r s) w ↔ lang (RSeq r s) w.
Proof.
  assert (Heps : ∀ s w, lang (RSeq REps s) w ↔ lang s w).
  { intros s' w'. cbn. split; [by intros (u&v&->&->&?)|]. intros. by exists "", w'. }
  assert (Hr : ∀ r w, lang (RSeq r REmpty) w ↔ False) by (intros; cbn; naive_solver).
  assert (Hl : ∀ s w, lang (RSeq REmpty s) w ↔ False) by (intros; cbn; naive_solver).
  destruct r; destruct s; cbn [mk_seq]; rewrite ?Heps, ?Hr, ?Hl; done.
Qed.

Lemma mk_alt_lang r s w : lang (mk_alt r s) w ↔ lang r w ∨ lang s w.
Proof. destruct r; destruct s; cbn; tauto. Qed.

Lemma mk_and_lang r s w : lang (mk_and r s) w ↔ lang r w ∧ lang s w.
Proof. destruct r; destruct s; cbn; tauto. Qed.

Lemma seq_cons_lang (L M : string → Prop) c w :
  (∃ u v, String c w = u ++ v ∧ L u ∧ M v) ↔
  (∃ u v, w = u ++ v ∧ L (String c u) ∧ M v) ∨ (L "" ∧ M (String c w)).
Proof.
  split.
  - intros (u&v&Huv&Hu&Hv). destruct u as [|d u]; cbn in Huv.
    + subst v. by right.
    + injection Huv as -> ->. left. by exists u, v.
  - intros [(u&v&->&?&?)|[??]].
    + by exists (String c u), v.
    + by exists "", (String c w).
Qed.

Lemma deriv_lang c r w : lang (deriv c r) w ↔ lang r (String c w).
Proof.
  revert w; induction r as [| |p|r IHr s IHs|r IHr s IHs|r IHr|r IHr s IHs|r IHr]; intros w;
    cbn [deriv].
  - done.
  - by cbn.
  - destruct (p c) eqn:Hp; cbn.
    + split; [intros ->; eauto | by intros (?&_&[= -> ->])].
    + split; [done|]. intros (d&Hd&[= -> ->]). congruence.
  - assert (Hseq : lang (mk_seq (deriv c r) s) w ↔
      ∃ u v, w = u ++ v ∧ lang r (String c u) ∧ lang s v).
    { rewrite mk_seq_lang. cbn. by setoid_rewrite IHr. }
    change (lang (RSeq r s) (String c w)) with (∃ u v, String c w = u ++ v ∧ lang r u ∧ lang s v).
    rewrite seq_cons_lang, <- nullable_lang.
    destruct (nullable r).
    + rewrite mk_alt_lang, Hseq, IHs. naive_solver.
    + rewrite Hseq. naive_solver.
  - rewrite mk_alt_lang, IHr, IHs. done.
  - rewrite mk_seq_lang. cbn. rewrite star_lang_cons. by setoid_rewrite IHr.
  - rewrite mk_and_lang, IHr, IHs. done.
  - cbn. by rewrite IHr.
Qed.

Lemma fullmatch_lang r w : fullmatch r w = true ↔ lang r w.
Proof.
  revert r; induction w as [|c w IH]; intros r; cbn; [apply nullable_lang|].
  by rewrite IH, deriv_lang.
Qed.

(** ** Characters and lengths of a pattern's matches *)

Fixpoint alphabet (r : re) (c : ascii) : bool :=
  match r with
  | REmpty | REps => false
  | RChr p => p c
  | RSeq r s | RAlt r s => alphabet r c || alphabet s c
  | RStar r => alphabet r c
  | RAnd r s => alphabet r c && alphabet s c
  | RNot _ => true
  end.

Fixpoint max_len (r : re) : option nat :=
  match r with
  | REmpty | REps => Some 0
  | RChr _ => Some 1
  | RSeq r s =>
      match max_len r, max_len s with Some m, Some n => Some (m + n) | _, _ => None end
  | RAlt r s =>
      match max_len r, max_len s with Some m, Some n => Some (m `max` n) | _, _ => None end
  | RStar _ => None
  | RAnd r s => match max_len r with Some m => Some m | None => max_len s end
  | RNot _ => None
  end%nat.

Fixpoint min_len (r : re) : nat :=
  match r with
  | REmpty | REps | RStar _ | RNot _ => 0
  | RChr _ => 1
  | RSeq r s => min_len r + min_len s
  | RAlt r s => min_len r `min` min_len s
  | RAnd r s => min_len r `max` min_len s
  end%nat.

Lemma lang_alphabet r w : lang r w → str_all (alphabet r) w = true.
Proof.
  revert w; induction r as [| |p|r IHr s IHs|r IHr s IHs|r IHr|r IHr s IHs|r IHr]; intros w; cbn.
  - done.
  - by intros ->.
  - intros (c&Hc&->). cbn. by rewrite Hc.
  - intros (u&v&->&Hu%IHr&Hv%IHs). rewrite str_all_app. apply andb_true_iff. split.
    + revert Hu. apply str_all_mono. by intros c ->.
    + revert Hv. apply str_all_mono. intros c ->. apply orb_true_r.
  - intros [H%IHr|H%IHs]; revert H; apply str_all_mono; intros c ->; [done | apply orb_true_r].
  - induction 1 as [|u v Hu Hv IH]; [done|]. by rewrite str_all_app, IHr, IH.
  - intros [H1%IHr H2%IHs]. clear IHr IHs. induction w as [|c w IH]; cbn in *; [done|].
    bools. apply andb_true_iff. split; [by apply andb_true_iff | auto].
  - intros _. induction w; cbn; auto.
Qed.

Lemma lang_max_len r w n : max_len r = Some n → lang r w → (String.length w ≤ n)%nat.
Proof.
  revert w n; induction r as [| |p|r IHr s IHs|r IHr s IHs|r IHr|r IHr s IHs|r IHr]; intros w n; cbn.
  - done.
  - intros [= <-] ->. done.
  - intros [= <-] (c&_&->). done.
  - destruct (max_len r), (max_len s); try done. intros [= <-] (u&v&->&Hu&Hv).
    rewrite str_length_app. eapply IHr in Hu; [|done]. eapply IHs in Hv; [|done]. lia.
  - destruct (max_len r), (max_len s); try done. intros [= <-] [Hu|Hv].
    + eapply IHr in Hu; [|done]. lia.
    + eapply IHs in Hv; [|done]. lia.
  - done.
  - destruct (max_len r) eqn:E.
    + intros [= ->] [H _]. by eapply IHr in H.
    + intros Hs [_ H]. by eapply IHs in H.
  - done.
Qed.

Lemma lang_min_len r w : lang r w → (min_len r ≤ String.length w)%nat.
Proof.
  revert w; induction r as [| |p|r IHr s IHs|r IHr s IHs|r IHr|r IHr s IHs|r IHr]; intros w; cbn.
  - lia.
  - lia.
  - intros (c&_&->). done.
  - intros (u&v&->&Hu%IHr&Hv%IHs). rewrite str_length_app. lia.
  - intros [H%IHr|H%IHs]; lia.
  - lia.
  - intros [H1%IHr H2%IHs]. lia.
  - lia.
Qed.

Lemma fullmatch_no_char r w c : alphabet r c = false → fullmatch r w = true → has_char c w = false.
Proof. intros Hc Hw%fullmatch_lang%lang_alphabet. by eapply str_all_has_char. Qed.

Lemma fullmatch_max_len r w n : max_len r = Some n → fullmatch r w = true → (String.length w ≤ n)%nat.
Proof. intros Hn Hw%fullmatch_lang. by eapply lang_max_len. Qed.

Lemma fullmatch_min_len r w : fullmatch r w = true → (min_len r ≤ String.length w)%nat.
Proof. intros Hw%fullmatch_lang. by apply lang_min_len. Qed.

Lemma fullmatch_all r w p :
  (∀ c, alphabet r c = true → p c = true) → fullmatch r w = true → str_all p w = true.
Proof. intros Hp Hw%fullmatch_lang%lang_alphabet. by eapply str_all_mono. Qed.

(** ** Pattern notation *)

Fixpoint lit (s : string) : re :=
  match s with
  | "" => REps
  | String c "" => RChr (λ d, bool_decide (c = d))
  | String c s => RSeq (RChr (λ d, bool_decide (c = d))) (lit s)
  end.

(** [r{n}] *)
Fixpoint rep (n : nat) (r : re) : re :=
  match n with
  | O => REps
  | S O => r
  | S n => RSeq r (rep n r)
  end.

(** [r{0,n}] *)
Fixpoint upto (n : nat) (r : re) : re :=
  match n with
  | O => REps
  | S n => RAlt REps (RSeq r (upto n r))
  end.

(** [r+] *)
Definition plus (r : re) : re := RSeq r (RStar r).
Definition any_text : re := RStar (RChr (λ _, true)).
(** [(?!r)rest]: no prefix of the text matches [r]. *)
Definition not_ahead (r rest : re) : re := RAnd (RNot (RSeq r any_text)) rest.

Definition seqs (rs : list re) : re := foldr RSeq REps rs.

Lemma any_text_lang w : lang any_text w.
Proof.
  induction w as [|c w IH]; [constructor|].
  change (String c w) with (String c "" ++ w). constructor; [|done]. cbn. eauto.
Qed.

(** ** Completeness helpers: building a match *)

Lemma lang_lit s : lang (lit s) s.
Proof.
  induction s as [|c s IH]; [done|]. destruct s as [|d s]; cbn.
  - exists c. split; [|done]. by rewrite bool_decide_true.
  - exists (String c ""), (String d s). split; [done|]. split; [|done].
    exists c. split; [|done]. by rewrite bool_decide_true.
Qed.

Lemma lang_lit_inv s w : lang (lit s) w → w = s.
Proof.
  revert w; induction s as [|c s IH]; intros w; [done|]. destruct s as [|d s].
  - intros (e&He&->). bools. by subst.
  - intros (u&v&->&(e&He&->)&Hv%IH). bools. by subst.
Qed.

Lemma lang_rep p n w : lang (rep n (RChr p)) w ↔ String.length w = n ∧ str_all p w = true.
Proof.
  revert w; induction n as [|n IH]; intros w.
  - cbn. split; [by intros -> | by destruct w; intros []].
  - assert (Hr : lang (rep (S n) (RChr p)) w ↔ lang (RSeq (RChr p) (rep n (RChr p))) w).
    { destruct n; [|done]. cbn. split.
      - intros H. exists w, "". rewrite str_app_nil_r. done.
      - intros (u&v&->&Hu&->). by rewrite str_app_nil_r. }
    rewrite Hr. cbn [lang]. split.
    + intros (u&v&->&(c&Hc&->)&[Hl Hv]%IH). cbn. rewrite Hc, Hl. done.
    + destruct w as [|c w]; cbn; [by intros []|]. intros [[= Hl] [Hc Hw]%andb_true_iff].
      exists (String c ""), w. split; [done|]. split; [eauto|]. by apply IH.
Qed.

Lemma lang_star_chr p w : lang (RStar (RChr p)) w ↔ str_all p w = true.
Proof.
  cbn. split.
  - induction 1 as [|u v (c&Hc&->) Hv IH]; [done|]. cbn. by rewrite Hc, IH.
  - induction w as [|c w IH]; cbn; [constructor|]. intros [Hc Hw]%andb_true_iff.
    change (String c w) with (String c "" ++ w). constructor; [eauto | auto].
Qed.

Lemma lang_plus_chr p w : lang (plus (RChr p)) w ↔ w ≠ "" ∧ str_all p w = true.
Proof.
  unfold plus. cbn [lang]. split.
  - intros (u&v&->&(c&Hc&->)&Hv). apply lang_star_chr in Hv. cbn. by rewrite Hc, Hv.
  - intros [Hne Hw]. destruct w as [|c w]; [done|]. cbn in Hw. bools.
    exists (String c ""), w. split; [done|]. split; [by exists c|]. by apply lang_star_chr.
Qed.

Lemma lang_upto_chr p n w :
  lang (upto n (RChr p)) w ↔ (String.length w ≤ n)%nat ∧ str_all p w = true.
Proof.
  revert w; induction n as [|n IH]; intros w.
  - cbn. split; [by intros -> | by destruct w; cbn; intros [??]; [|lia]].
  - cbn [upto lang]. split.
    + intros [->|(u&v&->&(c&Hc&->)&[Hl Hv]%IH)]; cbn; [split; [lia|done]|].
      rewrite Hc, Hv. split; [lia|done].
    + destruct w as [|c w]; [by left|]. cbn. intros [Hl [Hc Hw]%andb_true_iff]. right.
      exists (String c ""), w. split; [done|]. split; [eauto|]. apply IH. split; [lia|done].
Qed.

(** A sequence of patterns matches the concatenation of their matches. *)
Lemma lang_seqs rs w : lang (seqs rs) w ↔ ∃ ps, Forall2 lang rs ps ∧ w = foldr String.append "" ps.
Proof.
  revert w; induction rs as [|r rs IH]; intros w; cbn [seqs foldr lang].
  - split; [intros ->; by exists [] | by intros (ps&->%Forall2_nil_inv_l&->)].
  - change (foldr RSeq REps rs) with (seqs rs). split.
    + intros (u&v&->&Hu&(ps&Hps&->)%IH). exists (u :: ps). split; [by constructor | done].
    + intros (ps&Hps&->). inversion Hps as [|? u ? ps' Hu Hps']; subst. cbn.
      exists u, (foldr String.append "" ps'). split; [done|]. split; [done|]. apply IH. eauto.
Qed.
