(* ===== verification/PyVal.v ===== *)
(** * Python's values, closed objects and the standard JSON decoder

    The values the contracts read, the closed-object discipline over them, and [json.loads].
    The scanner of Python's [json] module over text: RFC 8259 plus its documented
    extensions ([NaN], [Infinity], lone surrogate escapes), strict about control characters,
    with the object hook called as each object closes.  A float becomes an opaque value
    (the canonical profile refuses every one).  An integer longer than the interpreter's
    digit limit raises [ValueError], and nesting beyond [limit] raises [RecursionError]:
    both are outcomes of their own, because the callers treat them differently. *)

From S2P Require Import Prelude PyStr.
Local Open Scope string_scope.
Local Open Scope Z_scope.

(** ** Python values and closed objects

    The values the contract parsers take, and the shape they share: a document must be an object,
    carry no member outside a closed set, and carry every required one, refused in that order.
    [MemberFaults] is what a parser's error type promises to this file; [closed_members] is the
    check as the envelope and the RPC bodies write it, which reports an unknown member by looking
    its printed key up again, and [closed_members_by_key] as the integration body writes it,
    which keeps the key. *)

(** ** Python values at the trust boundary

    [object] arguments of the contract parsers: the JSON-shaped values Python's decoder
    builds, plus any other object (a float, bytes, a set), known here by its printed form.
    A mapping is an insertion-ordered dictionary whose keys are text, or some other hashable
    known by its [str]. *)

Inductive pykey : Set :=
| KStr (s : string)
| KOther (text : string).

Inductive pyval : Set :=
| PyNone
| PyBool (b : bool)
| PyInt (z : Z)
| PyStr (s : string)
| PyList (l : list pyval)
| PyDict (d : list (pykey * pyval))
| PyOther (text : string).

#[export] Instance pykey_eq_dec : EqDecision pykey.
Proof. solve_decision. Defined.

#[export] Instance KStr_inj : Inj (=) (=) KStr.
Proof. by intros ? ? [= ->]. Qed.

Abbreviation members := (list (pykey * pyval)).

(** Structural induction through lists and dictionaries. *)
Section pyval_ind.
Context (P : pyval → Prop).
Hypothesis HNone : P PyNone.
Hypothesis HBool : ∀ b, P (PyBool b).
Hypothesis HInt : ∀ z, P (PyInt z).
Hypothesis HStr : ∀ s, P (PyStr s).
Hypothesis HList : ∀ l, Forall P l → P (PyList l).
Hypothesis HDict : ∀ d : members, Forall (λ kv, P kv.2) d → P (PyDict d).
Hypothesis HOther : ∀ t, P (PyOther t).

Fixpoint pyval_ind' (v : pyval) : P v :=
  match v with
  | PyNone => HNone
  | PyBool b => HBool b
  | PyInt z => HInt z
  | PyStr s => HStr s
  | PyList l =>
      HList l ((fix go (l : list pyval) : Forall P l :=
        match l with
        | [] => List.Forall_nil P
        | v :: l => @List.Forall_cons _ P v l (pyval_ind' v) (go l)
        end) l)
  | PyDict d =>
      HDict d ((fix go (d : members) : Forall (λ kv, P kv.2) d :=
        match d with
        | [] => List.Forall_nil _
        | kv :: d => @List.Forall_cons _ (λ kv, P kv.2) kv d (pyval_ind' kv.2) (go d)
        end) d)
  | PyOther t => HOther t
  end.
End pyval_ind.

Fixpoint pyval_eqb (v v' : pyval) : bool :=
  match v, v' with
  | PyNone, PyNone => true
  | PyBool b, PyBool b' => Bool.eqb b b'
  | PyInt z, PyInt z' => z =? z'
  | PyStr s, PyStr s' => bool_decide (s = s')
  | PyList l, PyList l' =>
      (fix go (l l' : list pyval) : bool :=
        match l, l' with
        | [], [] => true
        | v :: l, v' :: l' => pyval_eqb v v' && go l l'
        | _, _ => false
        end) l l'
  | PyDict d, PyDict d' =>
      (fix go (d d' : members) : bool :=
        match d, d' with
        | [], [] => true
        | (k, v) :: d, (k', v') :: d' => bool_decide (k = k') && pyval_eqb v v' && go d d'
        | _, _ => false
        end) d d'
  | PyOther t, PyOther t' => bool_decide (t = t')
  | _, _ => false
  end.

Lemma pyval_eqb_eq v v' : pyval_eqb v v' = true ↔ v = v'.
Proof.
  revert v'; induction v as [|b|z|s|l IH|d IH|t] using pyval_ind'; intros [|b'|z'|s'|l'|d'|t'];
    cbn; try (split; congruence).
  - rewrite Bool.eqb_true_iff. split; congruence.
  - rewrite Z.eqb_eq. split; congruence.
  - rewrite bool_decide_eq_true. split; congruence.
  - transitivity (l = l'); [|split; congruence].
    revert l'; induction IH as [|v l Hv Hl IHl]; intros [|v' l']; try (split; congruence).
    rewrite andb_true_iff, Hv, IHl. split; [intros []|intros [= ??]]; by subst.
  - transitivity (d = d'); [|split; congruence].
    revert d'; induction IH as [|[k v] d Hv Hd IHd]; intros [|[k' v'] d']; try (split; congruence).
    cbn in Hv. rewrite !andb_true_iff, bool_decide_eq_true, Hv, IHd.
    split; [intros [[]]|intros [= ???]]; by subst.
  - rewrite bool_decide_eq_true. split; congruence.
Qed.

#[export] Instance pyval_eq_dec : EqDecision pyval.
Proof.
  intros v v'. destruct (pyval_eqb v v') eqn:E.
  - left. by apply pyval_eqb_eq.
  - right. intros H%pyval_eqb_eq. congruence.
Defined.

(** [==]: a boolean equals the integer it is, and a dictionary's order does not matter. *)
Fixpoint py_eq (v v' : pyval) : bool :=
  match v, v' with
  | PyNone, PyNone => true
  | PyBool b, PyBool b' => Bool.eqb b b'
  | PyBool b, PyInt z | PyInt z, PyBool b => z =? Z.b2z b
  | PyInt z, PyInt z' => z =? z'
  | PyStr s, PyStr s' => bool_decide (s = s')
  | PyList l, PyList l' =>
      (fix go (l l' : list pyval) : bool :=
        match l, l' with
        | [], [] => true
        | v :: l, v' :: l' => py_eq v v' && go l l'
        | _, _ => false
        end) l l'
  | PyDict d, PyDict d' =>
      (length d =? length d')%nat &&
      (fix go (d : members) : bool :=
        match d with
        | [] => true
        | (k, x) :: d => match dict_get d' k with Some y => py_eq x y && go d | None => false end
        end) d
  | PyOther t, PyOther t' => bool_decide (t = t')
  | _, _ => false
  end.

Lemma py_eq_text v s : py_eq v (PyStr s) = true ↔ v = PyStr s.
Proof.
  destruct v; cbn; try (split; [done|congruence]). rewrite bool_decide_eq_true. split; congruence.
Qed.

(** [str(key)] *)
Definition key_text (k : pykey) : string := match k with KStr s => s | KOther t => t end.

(** [document[name]], [document.get(name)] and [name in document] for a text name. *)
Definition member (d : members) (name : string) : option pyval := dict_get d (KStr name).
Definition get (d : members) (name : string) : pyval := default PyNone (member d name).
Definition has (d : members) (name : string) : bool := dict_has d (KStr name).

(** [key in allowed] for a set of names. *)
Definition key_in (allowed : list string) (k : pykey) : bool :=
  match k with KStr s => bool_decide (s ∈ allowed) | KOther _ => false end.

(** [set(payload) == keys] *)
Definition exactly (keys : list string) (d : members) : bool :=
  forallb (key_in keys) d.*1 && forallb (has d) keys.

Definition as_text (v : pyval) : option string := match v with PyStr s => Some s | _ => None end.
Definition as_dict (v : pyval) : option members := match v with PyDict d => Some d | _ => None end.

(** The document a dictionary literal with text keys builds. *)
Definition document (ms : list (string * pyval)) : members := (λ m, (KStr m.1, m.2)) <$> ms.

(** [{member.value: member for member in Enum}.get(text) if isinstance(text, str) else None] *)
Definition by_value {A} (table : list (string * A)) (v : pyval) : option A :=
  match v with PyStr s => dict_get table s | _ => None end.

Lemma member_document ms name : member (document ms) name = dict_get ms name.
Proof.
  unfold member, document. induction ms as [|[k v] ms IH]; cbn; [done|].
  repeat case_decide; simplify_eq; done.
Qed.

Lemma by_value_Some {A} (table : list (string * A)) v a :
  by_value table v = Some a ↔ ∃ s, v = PyStr s ∧ dict_get table s = Some a.
Proof. destruct v; cbn; naive_solver. Qed.

(** ** Closed objects *)

Class MemberFaults (E : Type) := {
  not_an_object : string → pyval → E;
  unknown_member : string → pyval → E;
  missing_member : string → E;
  lookup_error : string → E
}.

(** The keys outside the allowed names. *)
Definition foreign_keys (allowed : list string) (d : members) : list pykey :=
  filter (λ k, key_in allowed k = false) d.*1.

(** [sorted(str(key) for key in document if key not in allowed)] *)
Definition unknown_names (allowed : list string) (d : members) : list string :=
  merge_sort String.le (key_text <$> foreign_keys allowed d).

(** The first required name the document lacks. *)
Definition first_missing (required : list string) (d : members) : option string :=
  list_find (λ name, has d name = false) required ≫= λ p, Some p.2.

(** [min(((str(key), key) ...), key=first)]: the first of the smallest printed keys. *)
Fixpoint smallest_key (ks : list pykey) : option pykey :=
  match ks with
  | [] => None
  | k :: ks =>
      match smallest_key ks with
      | Some k' => if decide (String.le (key_text k) (key_text k')) then Some k else Some k'
      | None => Some k
      end
  end.

Section closed.
Context {E : Type} `{MemberFaults E} (label : string) (allowed required : list string).

Definition check_missing (d : members) : result E members :=
  match first_missing required d with
  | Some name => Err (missing_member name)
  | None => Ok d
  end.

Definition closed_members (v : pyval) : result E members :=
  match v with
  | PyDict d =>
      match unknown_names allowed d with
      | u :: _ => x ← or_raise (member d u) (lookup_error u); Err (unknown_member u x)
      | [] => check_missing d
      end
  | _ => Err (not_an_object label v)
  end.

Definition closed_members_by_key (v : pyval) : result E members :=
  match v with
  | PyDict d =>
      match smallest_key (foreign_keys allowed d) with
      | Some k => Err (unknown_member (key_text k) (default PyNone (dict_get d k)))
      | None => check_missing d
      end
  | _ => Err (not_an_object label v)
  end.

(** Acceptance: an object whose keys are allowed names, every required one among them. *)
Definition closed (d : members) : Prop :=
  (∀ k, k ∈ d.*1 → key_in allowed k = true) ∧ (∀ name, name ∈ required → has d name = true).

Lemma foreign_keys_nil d : foreign_keys allowed d = [] ↔ ∀ k, k ∈ d.*1 → key_in allowed k = true.
Proof.
  unfold foreign_keys. split.
  - intros E1 k Hk. destruct (key_in allowed k) eqn:Hk'; [done|].
    assert (Hin : k ∈ filter (λ k, key_in allowed k = false) d.*1) by (by apply list_elem_of_filter).
    rewrite E1 in Hin. by apply elem_of_nil in Hin.
  - intros Hall. apply elem_of_nil_inv. intros k [Hk Hin]%list_elem_of_filter. rewrite Hall in Hk; done.
Qed.

Lemma unknown_names_nil d : unknown_names allowed d = [] ↔ foreign_keys allowed d = [].
Proof.
  unfold unknown_names. split; [|by intros ->]. intros E1. apply (fmap_nil_inv key_text), Permutation_nil_r.
  rewrite <- E1. symmetry. apply merge_sort_Permutation.
Qed.

Lemma smallest_key_None ks : smallest_key ks = None ↔ ks = [].
Proof. destruct ks as [|k ks]; cbn; [done|]. split; [|done]. repeat case_match; done. Qed.

Lemma check_missing_Ok d d' :
  check_missing d = Ok d' ↔ d' = d ∧ ∀ name, name ∈ required → has d name = true.
Proof.
  unfold check_missing, first_missing. destruct (list_find _ _) as [[i name]|] eqn:E1; cbn.
  - split; [done|]. intros (->&Hreq). apply list_find_Some in E1 as (Hi&Hn&_).
    rewrite Hreq in Hn; [done|]. by eapply list_elem_of_lookup_2.
  - split; [|by intros [-> _]]. intros [= <-]. split; [done|]. intros name Hin.
    apply list_find_None in E1. rewrite Forall_forall in E1. specialize (E1 _ Hin). by destruct (has d name).
Qed.

Lemma closed_members_Ok v d : closed_members v = Ok d ↔ v = PyDict d ∧ closed d.
Proof.
  unfold closed. destruct v as [| | | | |d0|]; cbn [closed_members];
    try (split; [done | by intros [? _]]).
  destruct (unknown_names allowed d0) as [|u us] eqn:Eu.
  - rewrite unknown_names_nil, foreign_keys_nil in Eu. rewrite check_missing_Ok. split; [by intros [-> Hr] | by intros ([= ->]&_&Hr)].
  - split; [by intros (x&_&?)%bind_Ok|]. intros ([= ->]&Hk&_).
    rewrite <- foreign_keys_nil, <- unknown_names_nil in Hk. congruence.
Qed.

Lemma closed_members_by_key_Ok v d : closed_members_by_key v = Ok d ↔ v = PyDict d ∧ closed d.
Proof.
  unfold closed. destruct v as [| | | | |d0|]; cbn [closed_members_by_key];
    try (split; [done | by intros [? _]]).
  destruct (smallest_key (foreign_keys allowed d0)) as [k|] eqn:Eu.
  - split; [done|]. intros ([= ->]&Hk&_). rewrite <- foreign_keys_nil in Hk. by rewrite Hk in Eu.
  - rewrite smallest_key_None, foreign_keys_nil in Eu. rewrite check_missing_Ok. split; [by intros [-> Hr] | by intros ([= ->]&_&Hr)].
Qed.

Lemma closed_equiv_dict d d' : dict_equiv d d' → closed d → closed d'.
Proof.
  intros Hd [Hk Hr]. split.
  - intros k Hin. apply Hk, dict_has_true. apply (dict_has_true d') in Hin.
    unfold dict_has in *. by rewrite Hd.
  - intros n Hn. unfold has, dict_has. rewrite <- Hd. by apply Hr.
Qed.

(** Two closed dictionaries are equal as mappings when they agree on every allowed name. *)
Lemma closed_agree (d d' : members) :
  (∀ k, k ∈ d.*1 → key_in allowed k = true) → (∀ k, k ∈ d'.*1 → key_in allowed k = true) →
  (∀ n, n ∈ allowed → dict_get d (KStr n) = dict_get d' (KStr n)) → dict_equiv d d'.
Proof.
  intros Hd Hd' Hag k.
  assert (Habs : ∀ x : members, (∀ k, k ∈ x.*1 → key_in allowed k = true) →
    key_in allowed k = false → dict_get x k = None).
  { intros x Hx Hk. apply dict_get_None. intros Hin%Hx. congruence. }
  destruct (key_in allowed k) eqn:Hk; [|by rewrite !Habs].
  destruct k as [n|]; [|done]. cbn in Hk. bools. by apply Hag.
Qed.

(** A structured refusal, when the document's keys are text. *)
Lemma closed_members_text_keys d e :
  (∀ k, k ∈ d.*1 → ∃ s, k = KStr s) → closed_members (PyDict d) = Err e →
  (∃ n x, e = unknown_member n x) ∨ ∃ n, e = missing_member n.
Proof.
  intros Htext. cbn [closed_members]. destruct (unknown_names allowed d) as [|u us] eqn:Eu.
  - unfold check_missing. destruct (first_missing _ _); [intros [= <-]; eauto | done].
  - intros [Hm|(x&_&[= <-])]%bind_Err; [|eauto]. exfalso. apply or_raise_Err in Hm as [Hm _].
    assert (Hin : u ∈ unknown_names allowed d) by (rewrite Eu; left).
    unfold unknown_names in Hin. rewrite merge_sort_Permutation in Hin.
    apply list_elem_of_fmap in Hin as (k&->&Hin). apply list_elem_of_filter in Hin as [_ Hin].
    destruct (Htext k Hin) as [s ->]. by apply dict_get_None in Hm.
Qed.
End closed.

(** ** Members by name *)

#[export] Instance get_proper : Proper (dict_equiv ==> eq ==> eq) get.
Proof. intros d d' Hd n ? <-. unfold get, member. by rewrite Hd. Qed.

#[export] Instance has_proper : Proper (dict_equiv ==> eq ==> eq) has.
Proof. intros d d' Hd n ? <-. unfold has, dict_has. by rewrite Hd. Qed.

Lemma has_get (d : members) n v : has d n = true → get d n = v → dict_get d (KStr n) = Some v.
Proof. unfold has, get, member, dict_has. by destruct (dict_get d (KStr n)) as [x|]; [intros _ <-|]. Qed.

Lemma has_false (d : members) n : has d n = false ↔ dict_get d (KStr n) = None.
Proof. unfold has, dict_has. by destruct (dict_get d (KStr n)). Qed.

Lemma get_Some (d : members) n v : dict_get d (KStr n) = Some v → get d n = v ∧ has d n = true.
Proof. unfold has, get, member, dict_has. by intros ->. Qed.

Definition QUOTE : ascii := "034".
Definition BACKSLASH : ascii := "092".

(** What [json.loads] raises: [hook] is whatever the object hook raised. *)
Inductive json_error (H : Type) : Type :=
| JSONDecodeError
| RecursionError
| IntegerLimit
| Hook (e : H).
Arguments JSONDecodeError {H}.
Arguments RecursionError {H}.
Arguments IntegerLimit {H}.
Arguments Hook {H} e.

(** [sys.int_info.default_max_str_digits] *)
Definition MAX_INT_DIGITS : nat := 4300.

Definition is_ws (c : ascii) : bool :=
  bool_decide (c = " "%char) || bool_decide (c = "009"%char)
  || bool_decide (c = "010"%char) || bool_decide (c = "013"%char).

Fixpoint skip_ws (s : string) : string :=
  match s with
  | String c s' => if is_ws c then skip_ws s' else s
  | "" => ""
  end.

(** ** Strings *)

Definition hex_value (c : ascii) : option Z :=
  if is_digit c then Some (digit_value c)
  else if in_range "a" "f" c then Some (Z.of_N (ord c) - 87)
  else if in_range "A" "F" c then Some (Z.of_N (ord c) - 55)
  else None.

Definition hex4 (a b c d : ascii) : option Z :=
  x ← hex_value a; y ← hex_value b; z ← hex_value c; w ← hex_value d;
  Some (4096 * x + 256 * y + 16 * z + w).

Definition byte (n : Z) : ascii := ascii_of_N (Z.to_N n).

(** Generalized UTF-8 of one code point. *)
Definition utf8 (u : Z) : string :=
  if u <? 128 then String (byte u) ""
  else if u <? 2048 then String (byte (192 + u / 64)) (String (byte (128 + u mod 64)) "")
  else if u <? 65536 then
    String (byte (224 + u / 4096)) (String (byte (128 + u / 64 mod 64)) (String (byte (128 + u mod 64)) ""))
  else
    String (byte (240 + u / 262144)) (String (byte (128 + u / 4096 mod 64))
      (String (byte (128 + u / 64 mod 64)) (String (byte (128 + u mod 64)) ""))).

Definition is_high (u : Z) : bool := (55296 <=? u) && (u <=? 56319).
Definition is_low (u : Z) : bool := (56320 <=? u) && (u <=? 57343).
Definition combine (hi lo : Z) : Z := 65536 + 1024 * (hi - 55296) + (lo - 56320).

Definition short_escape (c : ascii) : option ascii :=
  if bool_decide (c = QUOTE) then Some QUOTE
  else if bool_decide (c = BACKSLASH) then Some BACKSLASH
  else if bool_decide (c = "/"%char) then Some "/"%char
  else if bool_decide (c = "b"%char) then Some "008"%char
  else if bool_decide (c = "f"%char) then Some "012"%char
  else if bool_decide (c = "n"%char) then Some "010"%char
  else if bool_decide (c = "r"%char) then Some "013"%char
  else if bool_decide (c = "t"%char) then Some "009"%char
  else None.

Section scanner.
Context {H : Type}.
Abbreviation jresult := (result (json_error H)).

Definition prepend (p : string) (r : jresult (string * string)) : jresult (string * string) :=
  match r with Ok (s, rest) => Ok (p ++ s, rest) | Err e => Err e end.

(** The text after an opening quote: the decoded string and what follows its closing quote. *)
Fixpoint scan_string (s : string) : jresult (string * string) :=
  match s with
  | "" => Err JSONDecodeError
  | String c s1 =>
      if bool_decide (c = QUOTE) then Ok ("", s1)
      else if bool_decide (c = BACKSLASH) then
        match s1 with
        | "" => Err JSONDecodeError
        | String e s2 =>
            if bool_decide (e = "u"%char) then
              match s2 with
              | String a (String b (String c' (String d s3))) =>
                  match hex4 a b c' d with
                  | None => Err JSONDecodeError
                  | Some u =>
                      if is_high u then
                        match s3 with
                        | String x (String y (String a' (String b' (String c'' (String d' s4))))) =>
                            if bool_decide (x = BACKSLASH) && bool_decide (y = "u"%char) then
                              match hex4 a' b' c'' d' with
                              | None => Err JSONDecodeError
                              | Some u' =>
                                  if is_low u' then prepend (utf8 (combine u u')) (scan_string s4)
                                  else prepend (utf8 u) (scan_string s3)
                              end
                            else prepend (utf8 u) (scan_string s3)
                        | _ => prepend (utf8 u) (scan_string s3)
                        end
                      else prepend (utf8 u) (scan_string s3)
                  end
              | _ => Err JSONDecodeError
              end
            else match short_escape e with
                 | Some c' => prepend (String c' "") (scan_string s2)
                 | None => Err JSONDecodeError
                 end
        end
      else if (ord c <? 32)%N then Err JSONDecodeError
      else prepend (String c "") (scan_string s1)
  end.

(** ** Numbers *)

Fixpoint take_digits (s : string) : string * string :=
  match s with
  | String c s' =>
      if is_digit c then let '(ds, rest) := take_digits s' in (String c ds, rest) else ("", s)
  | "" => ("", "")
  end.

(** [0] or a digit run without a leading zero. *)
Definition take_int (s : string) : option (string * string) :=
  match s with
  | String c s' =>
      if bool_decide (c = "0"%char) then Some ("0", s')
      else if is_digit c then Some (take_digits s) else None
  | "" => None
  end.

(** [\.[0-9]+] *)
Definition take_frac (s : string) : string * string :=
  match s with
  | String c s' =>
      if bool_decide (c = "."%char) then
        match take_digits s' with
        | ("", _) => ("", s)
        | (ds, rest) => (String "." ds, rest)
        end
      else ("", s)
  | "" => ("", "")
  end.

(** [[eE][-+]?[0-9]+] *)
Definition take_exp (s : string) : string * string :=
  match s with
  | String c s' =>
      if bool_decide (c = "e"%char) || bool_decide (c = "E"%char) then
        let '(sign, s'') :=
          match s' with
          | String d t => if bool_decide (d = "-"%char) || bool_decide (d = "+"%char)
                          then (String d "", t) else ("", s')
          | "" => ("", "")
          end in
        match take_digits s'' with
        | ("", _) => ("", s)
        | (ds, rest) => (String c (sign ++ ds), rest)
        end
      else ("", s)
  | "" => ("", "")
  end.

Definition int_value (negative : bool) (ds : string) : jresult pyval :=
  if (MAX_INT_DIGITS <? String.length ds)%nat then Err IntegerLimit
  else Ok (PyInt (if negative then - digits_value 0 ds else digits_value 0 ds)).

Definition scan_number (s : string) : jresult (pyval * string) :=
  let '(negative, s1) :=
    match s with
    | String c s' => if bool_decide (c = "-"%char) then (true, s') else (false, s)
    | "" => (false, "")
    end in
  match take_int s1 with
  | None => Err JSONDecodeError
  | Some (ds, s2) =>
      let '(frac, s3) := take_frac s2 in
      let '(exp, s4) := take_exp s3 in
      match frac, exp with
      | "", "" => v ← int_value negative ds; Ok (v, s4)
      | _, _ => Ok (PyOther ((if negative then "-" else "") ++ ds ++ frac ++ exp), s4)
      end
  end.

(** A literal word, if the text starts with it. *)
Fixpoint scan_words (words : list (string * pyval)) (s : string) : option (pyval * string) :=
  match words with
  | [] => None
  | (w, v) :: words =>
      match remove_prefix_opt w s with
      | Some rest => Some (v, rest)
      | None => scan_words words s
      end
  end.

Definition WORDS : list (string * pyval) :=
  [("null", PyNone); ("true", PyBool true); ("false", PyBool false);
   ("NaN", PyOther "nan"); ("Infinity", PyOther "inf"); ("-Infinity", PyOther "-inf")].

(** ** Arrays and objects, over a scanner of their elements *)

Section containers.
Context (value : string → jresult (pyval * string)).
Context (hook : list (string * pyval) → result H pyval).

(** The elements after the first: each is led by a comma. *)
Fixpoint scan_elements (fuel : nat) (s : string) : jresult (list pyval * string) :=
  match fuel with
  | O => Err JSONDecodeError
  | S fuel =>
      '(v, s1) ← value s;
      match skip_ws s1 with
      | String c s2 =>
          if bool_decide (c = ","%char) then
            '(vs, rest) ← scan_elements fuel (skip_ws s2); Ok (v :: vs, rest)
          else if bool_decide (c = "]"%char) then Ok ([v], s2)
          else Err JSONDecodeError
      | "" => Err JSONDecodeError
      end
  end.

Definition scan_array (s : string) : jresult (pyval * string) :=
  match skip_ws s with
  | String c s' =>
      if bool_decide (c = "]"%char) then Ok (PyList [], s')
      else '(vs, rest) ← scan_elements (String.length s) (skip_ws s); Ok (PyList vs, rest)
  | "" => Err JSONDecodeError
  end.

Fixpoint scan_members (fuel : nat) (s : string) : jresult (list (string * pyval) * string) :=
  match fuel with
  | O => Err JSONDecodeError
  | S fuel =>
      match s with
      | String q s1 =>
          if bool_decide (q = QUOTE) then
            '(k, s2) ← scan_string s1;
            match skip_ws s2 with
            | String colon s3 =>
                if bool_decide (colon = ":"%char) then
                  '(v, s4) ← value (skip_ws s3);
                  match skip_ws s4 with
                  | String c s5 =>
                      if bool_decide (c = ","%char) then
                        '(ms, rest) ← scan_members fuel (skip_ws s5); Ok ((k, v) :: ms, rest)
                      else if bool_decide (c = "}"%char) then Ok ([(k, v)], s5)
                      else Err JSONDecodeError
                  | "" => Err JSONDecodeError
                  end
                else Err JSONDecodeError
            | "" => Err JSONDecodeError
            end
          else Err JSONDecodeError
      | "" => Err JSONDecodeError
      end
  end.

Definition close_object (ms : list (string * pyval)) : jresult pyval := map_err Hook (hook ms).

Definition scan_object (s : string) : jresult (pyval * string) :=
  match skip_ws s with
  | String c s' =>
      if bool_decide (c = "}"%char) then v ← close_object []; Ok (v, s')
      else '(ms, rest) ← scan_members (String.length s) (skip_ws s);
           v ← close_object ms; Ok (v, rest)
  | "" => Err JSONDecodeError
  end.
End containers.

Section value.
Context (hook : list (string * pyval) → result H pyval).

(** [scan_once], with [limit] levels of nesting left. *)
Fixpoint scan_value (limit : nat) (s : string) : jresult (pyval * string) :=
  match s with
  | "" => Err JSONDecodeError
  | String c s1 =>
      if bool_decide (c = QUOTE) then '(t, rest) ← scan_string s1; Ok (PyStr t, rest)
      else if bool_decide (c = "{"%char) then
        match limit with
        | O => Err RecursionError
        | S limit => scan_object (scan_value limit) hook s1
        end
      else if bool_decide (c = "["%char) then
        match limit with
        | O => Err RecursionError
        | S limit => scan_array (scan_value limit) s1
        end
      else match scan_words WORDS s with
           | Some r => Ok r
           | None => scan_number s
           end
  end.

(** [json.loads(text, object_pairs_hook=hook)] *)
Definition loads (limit : nat) (text : string) : jresult pyval :=
  '(v, rest) ← scan_value limit (skip_ws text);
  match skip_ws rest with
  | "" => Ok v
  | _ => Err JSONDecodeError
  end.
End value.
End scanner.
