(* ===== verification/Canonical.v ===== *)
(** * Canonical serialization of digest-covered payloads

    [packages/contracts/src/aerial_rescue_contracts/canonical.py].  [encode] is [_encode],
    refusals in the order the source raises them; [decode] is [decode] over [PyVal.loads].
    Unicode NFC normalization is the standard library's table and enters as the class
    [Normalization] with three facts Unicode documents.  [canonical_form] is the value a
    canonical text stands for: strings normalized, members in key order.  The file's main
    results are that decoding inverts encoding up to [canonical_form], hence that two values
    with the same bytes have the same canonical form. *)

From S2P Require Import Prelude PyStr Regex PyVal.
Local Open Scope string_scope.
Local Open Scope Z_scope.

(** [unicodedata.normalize("NFC", text)]: ASCII text is already in normal form, normalizing
    twice is normalizing once, and scalar values normalize to scalar values. *)
Class Normalization := {
  nfc : string → string;
  nfc_ascii : ∀ s, str_all (λ c, (ord c <? 128)%N) s = true → nfc s = s;
  nfc_idempotent : ∀ s, nfc (nfc s) = nfc s;
  nfc_scalar : ∀ s, has_surrogate s = false → has_surrogate (nfc s) = false
}.

(** Text the model's witnesses use is ASCII, where NFC is the identity. *)
Definition ascii_normalization : Normalization :=
  {| nfc := λ s, s; nfc_ascii := λ _ _, eq_refl; nfc_idempotent := λ _, eq_refl; nfc_scalar := λ _ H, H |}.

Definition MAX_SAFE_INTEGER : Z := 2 ^ 53 - 1.
Definition MAX_KEY_LENGTH : nat := 64.
Definition MAX_STRING_BYTES : nat := 4096.

Definition CANONICAL_KEY_PATTERN : re :=
  RSeq (RChr is_lower) (RStar (RChr (λ c, is_lower c || is_upper c || is_digit c))).

Inductive Refusal : Set :=
| UNSUPPORTED_TYPE | INTEGER_RANGE | KEY_FORM | KEY_LENGTH
| STRING_LENGTH | LONE_SURROGATE | DUPLICATE_KEY | MALFORMED_TEXT.

#[export] Instance Refusal_eq_dec : EqDecision Refusal.
Proof. solve_decision. Defined.

(** [CanonicalizationError(refusal, value)] *)
Record CanonicalizationError : Set := { refusal : Refusal; value : pyval }.

Definition refuse {A} (r : Refusal) (v : pyval) : result CanonicalizationError A :=
  Err {| refusal := r; value := v |}.

Definition key_value (k : pykey) : pyval := match k with KStr s => PyStr s | KOther t => PyOther t end.

(** ** Encoding *)

Definition SHORT_ESCAPES : list (ascii * string) :=
  [ (QUOTE, String BACKSLASH (String QUOTE ""));
    (BACKSLASH, String BACKSLASH (String BACKSLASH ""));
    ("008"%char, String BACKSLASH "b");
    ("012"%char, String BACKSLASH "f");
    ("010"%char, String BACKSLASH "n");
    ("013"%char, String BACKSLASH "r");
    ("009"%char, String BACKSLASH "t") ].

Definition hex_digit (n : Z) : ascii := if n <? 10 then digit n else byte (87 + n).

(** [format(ord(character), "04x")] for a code point below 32 *)
Definition hex04 (c : ascii) : string :=
  let n := Z.of_N (ord c) in
  "00" ++ String (hex_digit (n / 16)) (String (hex_digit (n mod 16)) "").

Definition escape (c : ascii) : string :=
  match dict_get SHORT_ESCAPES c with
  | Some short => short
  | None => if (ord c <? 32)%N then String BACKSLASH ("u" ++ hex04 c) else String c ""
  end.

Fixpoint escape_all (s : string) : string :=
  match s with
  | "" => ""
  | String c s => escape c ++ escape_all s
  end.

Definition quoted (body : string) : string := String QUOTE (body ++ String QUOTE "").

Definition encode_boolean (b : bool) : string := if b then "true" else "false".

Definition encode_integer (n : Z) : result CanonicalizationError string :=
  if (n <? - MAX_SAFE_INTEGER) || (MAX_SAFE_INTEGER <? n) then refuse INTEGER_RANGE (PyInt n)
  else Ok (dec n).

Definition reject_lone_surrogate (s : string) : result CanonicalizationError unit :=
  raise_if (has_surrogate s) {| refusal := LONE_SURROGATE; value := PyStr s |}.

Definition canonical_key (k : pykey) : result CanonicalizationError string :=
  match k with
  | KOther t => refuse KEY_FORM (PyOther t)
  | KStr s =>
      if (MAX_KEY_LENGTH <? char_len s)%nat then refuse KEY_LENGTH (PyStr s)
      else if fullmatch CANONICAL_KEY_PATTERN s then Ok s
      else refuse KEY_FORM (PyStr s)
  end.

(** Members in ascending key order. *)
Definition key_le {A} (a b : string * A) : Prop := String.le a.1 b.1.
#[export] Instance key_le_dec {A} : RelDecision (@key_le A).
Proof. intros a b. unfold key_le. apply _. Defined.

Definition sort_members {A} (ms : list (string * A)) : list (string * A) := merge_sort key_le ms.

Section normalization.
Context `{Normalization}.

Definition encode_string (s : string) : result CanonicalizationError string :=
  reject_lone_surrogate s ;;
  let normalized := nfc s in
  raise_if (MAX_STRING_BYTES <? String.length normalized)%nat
           {| refusal := STRING_LENGTH; value := PyStr s |} ;;
  Ok (quoted (escape_all normalized)).

(** [_encode_object]: every key is validated in the mapping's own order before any member
    is encoded, then the members are encoded in key order. *)
Definition encode_object (keys : list pykey) (items : list (result CanonicalizationError string))
    : result CanonicalizationError string :=
  names ← map_ok canonical_key keys;
  parts ← map_ok (λ m : string * result CanonicalizationError string,
                    k ← encode_string m.1; v ← m.2; Ok (k ++ ":" ++ v))
                 (sort_members (zip names items));
  Ok ("{" ++ join "," parts ++ "}").

Definition encode_array (items : list (result CanonicalizationError string))
    : result CanonicalizationError string :=
  parts ← map_ok id items; Ok ("[" ++ join "," parts ++ "]").

Fixpoint encode (v : pyval) : result CanonicalizationError string :=
  match v with
  | PyNone => Ok "null"
  | PyBool b => Ok (encode_boolean b)
  | PyInt n => encode_integer n
  | PyStr s => encode_string s
  | PyDict d => encode_object d.*1 ((λ kv, encode kv.2) <$> d)
  | PyList l => encode_array (encode <$> l)
  | PyOther t => refuse UNSUPPORTED_TYPE (PyOther t)
  end.

Definition canonical_bytes (v : pyval) : result CanonicalizationError string := encode v.

(** ** Decoding *)

(** [_object_from_pairs] *)
Definition object_from_pairs (ps : list (string * pyval)) : result CanonicalizationError pyval :=
  d ← fold_ok (λ (ms : members) p,
                 if has ms p.1 then refuse DUPLICATE_KEY (PyStr p.1)
                 else Ok (dict_set ms (KStr p.1) p.2)) [] ps;
  Ok (PyDict d).

(** What escapes [decode]: its own refusal, or the [ValueError] of an over-long integer,
    which is no [JSONDecodeError] and is not caught. *)
Inductive decode_error : Set :=
| Refused (e : CanonicalizationError)
| UncaughtValueError.

Definition decode (limit : nat) (text : string) : result decode_error pyval :=
  match loads object_from_pairs limit text with
  | Err JSONDecodeError | Err RecursionError =>
      Err (Refused {| refusal := MALFORMED_TEXT; value := PyStr text |})
  | Err IntegerLimit => Err UncaughtValueError
  | Err (Hook e) => Err (Refused e)
  | Ok v =>
      match canonical_bytes v with
      | Err e => Err (Refused e)
      | Ok _ => Ok v
      end
  end.
End normalization.

(** ** The value a canonical text stands for *)

(** Every dictionary of a Python value has one entry per key. *)
Fixpoint well_formed (v : pyval) : bool :=
  match v with
  | PyList l => forallb well_formed l
  | PyDict d => bool_decide (NoDup d.*1) && forallb (λ kv, well_formed kv.2) d
  | _ => true
  end.

(** Levels of nesting. *)
Fixpoint depth (v : pyval) : nat :=
  match v with
  | PyList l => S (max_list (depth <$> l))
  | PyDict d => S (max_list ((λ kv, depth kv.2) <$> d))
  | _ => 0
  end.

Section canonical_form.
Context `{Normalization}.

Fixpoint canonical_form (v : pyval) : pyval :=
  match v with
  | PyStr s => PyStr (nfc s)
  | PyList l => PyList (canonical_form <$> l)
  | PyDict d => PyDict (document (sort_members ((λ kv, (key_text kv.1, canonical_form kv.2)) <$> d)))
  | v => v
  end.
End canonical_form.

(** ** Scanning one canonical text *)

Definition delimited (s : string) : bool :=
  match s with
  | "" => true
  | String c _ => bool_decide (c = ","%char) || bool_decide (c = "]"%char) || bool_decide (c = "}"%char)
  end.

(** A canonical text opens with neither white space nor a closing bracket. *)
Definition opens (s : string) : bool :=
  match s with
  | "" => false
  | String c _ => negb (is_ws c) && negb (bool_decide (c = "]"%char)) && negb (bool_decide (c = "}"%char))
  end.

Section scan.
Context {H : Type}.

Lemma scan_escape c (rest : string) :
  scan_string (H:=H) (escape c ++ rest) = prepend (String c "") (scan_string rest).
Proof. destruct c as [[] [] [] [] [] [] [] []]; reflexivity. Qed.

Lemma scan_escape_all s rest :
  scan_string (H:=H) (escape_all s ++ String QUOTE rest) = Ok (s, rest).
Proof.
  induction s as [|c s IH]; [done|]. cbn [escape_all].
  rewrite <- str_app_assoc, scan_escape, IH. done.
Qed.

Lemma skip_ws_opens s : opens s = true → skip_ws s = s.
Proof. destruct s as [|c s]; cbn; [done|]. by destruct (is_ws c). Qed.

Lemma opens_app s t : opens s = true → opens (s ++ t) = true.
Proof. by destruct s. Qed.

Lemma skip_ws_delimited s : delimited s = true → skip_ws s = s.
Proof.
  destruct s as [|c s]; cbn; [done|]. intros Hc. destruct (is_ws c) eqn:E; [|done].
  repeat (apply orb_true_iff in Hc as [Hc|Hc]); bools; by subst.
Qed.

(** *** Numbers *)

Lemma take_digits_app ds rest :
  str_all is_digit ds = true → delimited rest = true → take_digits (ds ++ rest) = (ds, rest).
Proof.
  intros Hds Hr. induction ds as [|c ds IH]; cbn.
  - destruct rest as [|c rest]; cbn in *; [done|]. destruct (is_digit c) eqn:E; [|done].
    repeat (apply orb_true_iff in Hr as [Hr|Hr]); bools; by subst.
  - cbn in Hds. bools. rewrite H0. by rewrite IH.
Qed.

Lemma dec_fuel_head f n :
  0 < n → (Z.to_nat (Z.log2 n) < f)%nat →
  ∃ c t, dec_fuel f n = String c t ∧ c ≠ "0"%char ∧ is_digit c = true.
Proof.
  revert n; induction f as [|f IH]; intros n Hn Hf; [lia|].
  destruct (Z.lt_ge_cases n 10).
  - rewrite dec_fuel_small by lia. exists (digit n), "". split; [done|].
    pose proof (digit_spec n ltac:(lia)) as [Hv Hd]. split; [|done].
    intros Heq. rewrite Heq in Hv. vm_compute in Hv. lia.
  - rewrite dec_fuel_step by lia. cbn [pred]. pose proof (log2_div10 n ltac:(lia)).
    destruct (IH (n / 10)) as (c&t&->&Hc); [apply Z.div_str_pos; lia | lia|].
    exists c. eexists. by split; [cbn; reflexivity|].
Qed.

Lemma take_int_dec n rest :
  0 ≤ n → delimited rest = true → take_int (dec_nat n ++ rest) = Some (dec_nat n, rest).
Proof.
  intros Hn Hr. destruct (Z.eq_dec n 0) as [->|Hne].
  - reflexivity.
  - pose proof (dec_nat_digits n Hn) as Hd. unfold dec_nat in *.
    destruct (dec_fuel_head (S (Z.to_nat (Z.log2 n))) n) as (c&t&Heq&Hc&Hcd); [lia | lia|].
    rewrite Heq in Hd |- *. cbn [append take_int]. rewrite bool_decide_false, Hcd by done.
    f_equal. change (String c (t ++ rest)) with (String c t ++ rest).
    by apply take_digits_app.
Qed.

Lemma dec_nat_short n : 0 ≤ n ≤ MAX_SAFE_INTEGER → (String.length (dec_nat n) ≤ 16)%nat.
Proof.
  intros Hn. unfold dec_nat. apply (dec_fuel_fixed _ 15 n); [|lia].
  unfold MAX_SAFE_INTEGER in Hn. lia.
Qed.

Lemma scan_fraction rest : delimited rest = true → take_frac rest = ("", rest) ∧ take_exp rest = ("", rest).
Proof.
  destruct rest as [|c rest]; cbn; [done|]. intros Hc.
  repeat (apply orb_true_iff in Hc as [Hc|Hc]); bools; by subst.
Qed.

Lemma scan_number_dec n rest :
  - MAX_SAFE_INTEGER ≤ n ≤ MAX_SAFE_INTEGER → delimited rest = true →
  scan_number (H:=H) (dec n ++ rest) = Ok (PyInt n, rest).
Proof.
  intros Hn Hr. destruct (scan_fraction rest Hr) as [Hf He].
  assert (Hshort : ∀ m, 0 ≤ m ≤ MAX_SAFE_INTEGER → (MAX_INT_DIGITS <? String.length (dec_nat m))%nat = false).
  { intros m Hm. apply Nat.ltb_ge. pose proof (dec_nat_short m Hm). unfold MAX_INT_DIGITS. lia. }
  unfold scan_number, dec. destruct (n <? 0) eqn:Hneg; bools.
  - cbn [append]. rewrite bool_decide_true by done.
    rewrite take_int_dec, Hf, He by (done || lia).
    unfold int_value. rewrite Hshort, dec_nat_value by lia. cbn. by rewrite Z.opp_involutive.
  - pose proof (dec_nat_digits n ltac:(lia)) as Hd.
    pose proof (take_int_dec n rest ltac:(lia) Hr) as Hi.
    destruct (dec_nat n ++ rest) as [|c s] eqn:E; [done|].
    assert (Hc : c ≠ "-"%char) by (intros ->; done).
    rewrite bool_decide_false by done. rewrite Hi, Hf, He.
    unfold int_value. rewrite Hshort, dec_nat_value by lia. done.
Qed.
End scan.

(** ** Sorting members by key *)

#[export] Instance key_le_trans {A} : Transitive (@key_le A).
Proof. intros a b c. unfold key_le. by transitivity b.1. Qed.
#[export] Instance key_le_total {A} : Total (@key_le A).
Proof. intros a b. unfold key_le. apply (total String.le). Qed.

Definition on_value {A B} (f : A → B) (m : string * A) : string * B := (m.1, f m.2).

Lemma on_value_keys {A B} (f : A → B) l : (on_value f <$> l).*1 = l.*1.
Proof. rewrite <- list_fmap_compose. by apply list_fmap_ext; intros ? []. Qed.

Lemma sort_members_Permutation {A} (l : list (string * A)) : sort_members l ≡ₚ l.
Proof. apply merge_sort_Permutation. Qed.

Lemma sort_members_sorted {A} (l : list (string * A)) : StronglySorted key_le (sort_members l).
Proof. apply StronglySorted_merge_sort; apply _. Qed.

(** With distinct keys, the sorted arrangement is unique. *)
Lemma sorted_members_unique {A} (l l' : list (string * A)) :
  NoDup l.*1 → StronglySorted key_le l → StronglySorted key_le l' → l ≡ₚ l' → l = l'.
Proof.
  intros Hnd Hl Hl' Hp. apply (StronglySorted_unique_strong key_le); try done.
  intros [k v] [k' v'] Hin Hin' H1 H2. unfold key_le in *; cbn in *.
  assert (k = k') as <- by (by apply (anti_symm String.le)).
  rewrite <- Hp in Hin'. apply (dict_elem_get _ _ _ Hnd) in Hin, Hin'. congruence.
Qed.

Lemma sort_members_on_value {A B} (f : A → B) (l : list (string * A)) :
  NoDup l.*1 → sort_members (on_value f <$> l) = on_value f <$> sort_members l.
Proof.
  intros Hnd. apply sorted_members_unique.
  - by rewrite sort_members_Permutation, on_value_keys.
  - apply sort_members_sorted.
  - eapply (StronglySorted_fmap (on_value f) key_le); [|apply sort_members_sorted]. by intros ? ?.
  - by rewrite !sort_members_Permutation.
Qed.

Lemma sort_members_id {A} (l : list (string * A)) :
  NoDup l.*1 → sort_members (sort_members l) = sort_members l.
Proof.
  intros Hnd. apply sorted_members_unique; try apply sort_members_sorted.
  - by rewrite !sort_members_Permutation.
  - apply sort_members_Permutation.
Qed.

(** ** Scanning containers of canonical texts *)

(** [value] reads [t] as [v] wherever a value may end. *)
Definition reads {H} (value : string → result (json_error H) (pyval * string)) (v : pyval) (t : string) :=
  opens t = true ∧ ∀ rest, delimited rest = true → value (t ++ rest) = Ok (v, rest).

Section containers.
Context {H : Type} (value : string → result (json_error H) (pyval * string)).

Lemma scan_elements_join vs parts fuel rest :
  parts ≠ [] → Forall2 (reads value) vs parts → (length parts ≤ fuel)%nat →
  scan_elements value fuel (join "," parts ++ String "]" rest) = Ok (vs, rest).
Proof.
  intros Hne Hp. revert fuel. induction Hp as [|v t vs parts [Ho Hv] Hp IH]; intros fuel Hf; [done|].
  destruct fuel as [|fuel]; [cbn in Hf; lia|]. cbn [scan_elements].
  destruct parts as [|q parts].
  - apply Forall2_nil_inv_r in Hp as ->. cbn [join String.concat]. rewrite Hv by done. done.
  - rewrite join_cons, <- !str_app_assoc, Hv by done. cbn [mbind result_bind].
    cbn [append skip_ws]. change (is_ws ",") with false.
    cbn [String.append]. rewrite bool_decide_true by done.
    rewrite skip_ws_opens; [rewrite IH by (done || cbn in *; lia); done|].
    apply opens_app. inversion Hp as [|? ? ? ? [Hq _]]; subst.
    destruct parts; cbn; [done|]. by destruct q.
Qed.

Lemma scan_array_join vs parts rest :
  Forall2 (reads value) vs parts →
  scan_array value (join "," parts ++ String "]" rest) = Ok (PyList vs, rest).
Proof.
  intros Hp. destruct (decide (parts = [])) as [->|Hne].
  - by apply Forall2_nil_inv_r in Hp as ->.
  - assert (Ho : opens (join "," parts ++ String "]" rest) = true).
    { apply opens_app. destruct Hp as [|? q ? ps [Hq _] _]; [done|]. destruct ps; cbn; [done|].
      by destruct q. }
    unfold scan_array. rewrite skip_ws_opens by done.
    destruct (join "," parts ++ String "]" rest) as [|c s] eqn:E; [done|].
    cbn in Ho. bools. rewrite bool_decide_false by done. rewrite <- E, (scan_elements_join vs parts); try done.
    rewrite str_length_app, join_length. cbn. lia.
Qed.
End containers.

Section objects.
Context {H : Type} (value : string → result (json_error H) (pyval * string)).

(** The text [encode_object] writes for one member. *)
Definition member_text (name t : string) : string := quoted (escape_all name) ++ ":" ++ t.

Lemma scan_members_join ms parts fuel rest :
  parts ≠ [] →
  Forall2 (λ (m : string * pyval) p, ∃ t, p = member_text m.1 t ∧ reads value m.2 t) ms parts →
  (length parts ≤ fuel)%nat →
  scan_members value fuel (join "," parts ++ String "}" rest) = Ok (ms, rest).
Proof.
  intros Hne Hp. revert fuel.
  induction Hp as [|[k v] ? ms parts (t&->&Ho&Hv) Hp IH]; intros fuel Hf; [done|].
  destruct fuel as [|fuel]; [cbn in Hf; lia|]. cbn [fst snd] in *.
  assert (Hhead : ∀ more, delimited more = true →
    scan_members value (S fuel) (member_text k t ++ more) =
    match skip_ws more with
    | String c s5 =>
        if bool_decide (c = ","%char) then
          '(ms, rest) ← scan_members value fuel (skip_ws s5); Ok ((k, v) :: ms, rest)
        else if bool_decide (c = "}"%char) then Ok ([(k, v)], s5)
        else Err JSONDecodeError
    | "" => Err JSONDecodeError
    end).
  { intros more Hm. unfold member_text, quoted. cbn [append scan_members].
    rewrite bool_decide_true by done. rewrite <- !str_app_assoc. cbn [append].
    rewrite scan_escape_all. cbn [mbind result_bind skip_ws].
    change (is_ws ":") with false. cbn [String.append]. rewrite bool_decide_true by done.
    rewrite skip_ws_opens by (by apply opens_app). by rewrite Hv. }
  destruct parts as [|q parts].
  - apply Forall2_nil_inv_r in Hp as ->. cbn [join String.concat]. by rewrite Hhead.
  - rewrite join_cons, <- !str_app_assoc, Hhead by done. cbn [append skip_ws].
    change (is_ws ",") with false. cbn [String.append]. rewrite bool_decide_true by done.
    rewrite skip_ws_opens; [by rewrite IH by (done || cbn in *; lia)|].
    apply opens_app. inversion Hp as [|? ? ? ? (t'&->&_)]; subst. by destruct parts.
Qed.

Lemma scan_object_join hook ms parts rest v :
  Forall2 (λ (m : string * pyval) p, ∃ t, p = member_text m.1 t ∧ reads value m.2 t) ms parts →
  hook ms = Ok v →
  scan_object value hook (join "," parts ++ String "}" rest) = Ok (v, rest).
Proof.
  intros Hp Hhook. unfold scan_object. destruct (decide (parts = [])) as [->|Hne].
  - apply Forall2_nil_inv_r in Hp as ->. cbn. unfold close_object. by rewrite Hhook.
  - assert (Hq : ∃ s, join "," parts ++ String "}" rest = String QUOTE s).
    { destruct Hp as [|? ? ? ps (t&->&_) _]; [done|]. destruct ps; cbn; eauto. }
    destruct Hq as [s Hs]. rewrite Hs. cbn [skip_ws]. change (is_ws QUOTE) with false.
    cbv iota. rewrite bool_decide_false by done. rewrite <- Hs, (scan_members_join ms parts); try done.
    + cbn [mbind result_bind]. unfold close_object. by rewrite Hhook.
    + rewrite str_length_app, join_length. cbn. lia.
Qed.
End objects.

(** ** Encoding, characterized *)

Definition is_ascii (c : ascii) : bool := (ord c <? 128)%N.

Lemma ascii_no_surrogate s : str_all is_ascii s = true → has_surrogate s = false.
Proof.
  induction s as [|c s IH]; [done|]. cbn [str_all]. intros [Hc Hs]%andb_true_iff.
  cbn. destruct s as [|d s]; [done|]. rewrite IH by done. rewrite orb_false_r.
  rewrite bool_decide_false; [done|]. by intros ->.
Qed.

Lemma ascii_char_len s : str_all is_ascii s = true → char_len s = String.length s.
Proof.
  induction s as [|c s IH]; [done|]. cbn [str_all char_len String.length].
  intros [Hc Hs]%andb_true_iff. rewrite IH by done.
  replace (in_range "128" "191" c) with false; [done|].
  symmetry. unfold in_range, is_ascii in *. apply andb_false_iff. left.
  apply N.ltb_lt in Hc. apply N.leb_gt. done.
Qed.

Lemma key_pattern_ascii s : fullmatch CANONICAL_KEY_PATTERN s = true → str_all is_ascii s = true.
Proof.
  apply fullmatch_all. intros c. cbn. destruct c as [[] [] [] [] [] [] [] []]; by vm_compute.
Qed.

Lemma canonical_key_Ok k name :
  canonical_key k = Ok name ↔
  k = KStr name ∧ (char_len name ≤ MAX_KEY_LENGTH)%nat ∧ fullmatch CANONICAL_KEY_PATTERN name = true.
Proof.
  destruct k as [s|t]; cbn [canonical_key]; [|split; [done | by intros []]].
  destruct (Nat.ltb_spec MAX_KEY_LENGTH (char_len s)).
  - split; [done|]. intros ([= ->]&?&_). lia.
  - destruct (fullmatch _ s) eqn:E; (split; [intros [= ->] || done | intros ([= ->]&?&?)]); try done.
    congruence.
Qed.

Section encoding.
Context `{Normalization}.

Lemma encode_string_Ok s t :
  encode_string s = Ok t ↔
  has_surrogate s = false ∧ (String.length (nfc s) ≤ MAX_STRING_BYTES)%nat ∧
  t = quoted (escape_all (nfc s)).
Proof.
  unfold encode_string, reject_lone_surrogate. split.
  - intros Ht. run_ok. repeat split; try done. by apply Nat.ltb_ge.
  - intros (->&Hl&->). cbn -[Nat.ltb]. by rewrite (proj2 (Nat.ltb_ge _ _)).
Qed.

Lemma encode_key k name : canonical_key k = Ok name → encode_string name = Ok (quoted (escape_all name)).
Proof.
  intros (->&Hlen&Hm)%canonical_key_Ok. apply key_pattern_ascii in Hm as Ha.
  apply encode_string_Ok. rewrite (nfc_ascii name Ha). split; [by apply ascii_no_surrogate|].
  split; [|done]. rewrite ascii_char_len in Hlen by done. unfold MAX_KEY_LENGTH, MAX_STRING_BYTES in *. lia.
Qed.

(** The members of a mapping under its keys' texts, in its own order. *)
Definition named (d : members) : list (string * pyval) := (λ kv, (key_text kv.1, kv.2)) <$> d.

Lemma keys_text ks names : map_ok canonical_key ks = Ok names → names = key_text <$> ks ∧ ks = KStr <$> names.
Proof.
  rewrite map_ok_Forall2. induction 1 as [|k name ks names Hk _ [-> IH]]; [done|].
  apply canonical_key_Ok in Hk as (->&_). cbn. split; [done|]. by f_equal.
Qed.

Lemma named_document d names : map_ok canonical_key d.*1 = Ok names → d = document (named d).
Proof.
  intros [_ Hk]%keys_text. unfold named, document. rewrite <- list_fmap_compose.
  revert names Hk. induction d as [|[k v] d IH]; intros [|n names] Hk; try done.
  cbn in *. injection Hk as -> Hk. f_equal. by eapply IH.
Qed.

Lemma zip_named d : zip (key_text <$> d.*1) ((λ kv, encode kv.2) <$> d) = on_value encode <$> named d.
Proof. induction d as [|[k v] d IH]; cbn; [done|]. by rewrite IH. Qed.

Lemma named_names d : (named d).*1 = key_text <$> d.*1.
Proof. unfold named. induction d as [|[k v] d IH]; cbn; [done | by f_equal]. Qed.

Lemma named_NoDup d names :
  map_ok canonical_key d.*1 = Ok names → NoDup d.*1 → NoDup (named d).*1.
Proof.
  intros [-> Hk]%keys_text Hnd. rewrite Hk in Hnd. apply NoDup_fmap_1 in Hnd.
  by rewrite named_names.
Qed.

Lemma named_keys d names :
  map_ok canonical_key d.*1 = Ok names → Forall (λ m, ∃ k, canonical_key k = Ok m.1) (named d).
Proof.
  rewrite map_ok_Forall2. unfold named. rewrite Forall_fmap. revert names.
  induction d as [|[k v] d IH]; intros names; cbn; [constructor|].
  inversion 1 as [|? name ? names' Hk Hks]; subst. constructor; [|by eapply IH]. cbn.
  exists k. rewrite Hk. by apply canonical_key_Ok in Hk as (->&_).
Qed.

(** An object's text, member by member in key order. *)
Lemma encode_object_Ok (d : members) t :
  NoDup d.*1 →
  encode (PyDict d) = Ok t ↔
  (∃ names, map_ok canonical_key d.*1 = Ok names) ∧
  ∃ parts, Forall2 (λ m p, ∃ vt, encode m.2 = Ok vt ∧ p = member_text m.1 vt) (sort_members (named d)) parts ∧
           t = "{" ++ join "," parts ++ "}".
Proof.
  intros Hnd. cbn [encode]. unfold encode_object.
  assert (Hparts : ∀ names parts, map_ok canonical_key d.*1 = Ok names →
    map_ok (λ m : string * result CanonicalizationError string,
      k ← encode_string m.1; v ← m.2; Ok (k ++ ":" ++ v))
      (sort_members (zip names ((λ kv, encode kv.2) <$> d))) = Ok parts ↔
    Forall2 (λ m p, ∃ vt, encode m.2 = Ok vt ∧ p = member_text m.1 vt) (sort_members (named d)) parts).
  { intros names parts Hn. pose proof (named_NoDup d names Hn Hnd) as Hnd'.
    pose proof (keys_text _ _ Hn) as [-> _].
    rewrite zip_named, sort_members_on_value, map_ok_Forall2 by done. rewrite Forall2_fmap_l.
    apply (Forall2_agree (λ m, ∃ k, canonical_key k = Ok m.1)).
    - rewrite sort_members_Permutation. by eapply named_keys.
    - intros [k v] p [k' Hk]. cbn in *. rewrite (encode_key _ _ Hk). cbn.
      unfold member_text. split; [intros (?&?&[= <-])%bind_Ok; eauto | by intros (?&->&->)]. }
  split.
  - intros Ht. run_ok. subst. split; [eauto|]. eexists. split; [by eapply Hparts|done].
  - intros ([names Hn]&parts&Hp&->). rewrite Hn. cbn [mbind result_bind].
    apply (Hparts _ _ Hn) in Hp. by rewrite Hp.
Qed.
End encoding.

(** ** Decoding inverts encoding *)

Lemma max_list_le l n : (max_list l ≤ n)%nat ↔ Forall (λ m, (m ≤ n)%nat) l.
Proof.
  induction l as [|m l IH]; cbn; [split; [constructor | lia]|].
  rewrite Forall_cons, <- IH. cbn. lia.
Qed.

Lemma document_keys ms : (document ms).*1 = KStr <$> ms.*1.
Proof. unfold document. induction ms as [|[k v] ms IH]; cbn; [done | by f_equal]. Qed.

Lemma named_of_document ms : named (document ms) = ms.
Proof. unfold named, document. induction ms as [|[k v] ms IH]; cbn; [done | by f_equal]. Qed.

Lemma named_Forall (Q : pyval → Prop) d :
  Forall (λ kv : pykey * pyval, Q kv.2) d → Forall (λ m : string * pyval, Q m.2) (sort_members (named d)).
Proof.
  rewrite sort_members_Permutation. unfold named. rewrite Forall_fmap. intros Hd.
  eapply Forall_impl; [exact Hd|]. done.
Qed.

Lemma object_from_pairs_distinct ms :
  NoDup ms.*1 → object_from_pairs ms = Ok (PyDict (document ms)).
Proof.
  intros Hnd. unfold object_from_pairs.
  enough (∀ acc : list (string * pyval), NoDup (acc ++ ms)%list.*1 →
    fold_ok (λ (ms : members) (p : string * pyval), if has ms p.1 then refuse DUPLICATE_KEY (PyStr p.1)
                       else Ok (dict_set ms (KStr p.1) p.2)) (document acc) ms
    = Ok (document (acc ++ ms)%list)) as Hgo by (specialize (Hgo []); cbn in Hgo; by rewrite Hgo).
  clear Hnd. induction ms as [|[k v] ms IH]; intros acc Hnd; cbn [fold_ok]; [by rewrite app_nil_r|].
  assert (Hk : KStr k ∉ (document acc).*1).
  { rewrite document_keys. intros (?&[= <-]&Hin)%list_elem_of_fmap.
    rewrite fmap_app in Hnd. apply NoDup_app in Hnd as (_&Hd&_). apply (Hd k Hin). left. }
  destruct (has (document acc) k) eqn:E; [by apply dict_has_true in E|].
  cbn [fst snd]. rewrite E. cbn [mbind result_bind]. rewrite dict_set_new by done.
  replace (document acc ++ [(KStr k, v)])%list with (document (acc ++ [(k, v)])%list)
    by (unfold document; by rewrite fmap_app).
  replace (acc ++ (k, v) :: ms)%list with ((acc ++ [(k, v)]) ++ ms)%list in Hnd |- *
    by (by rewrite <- app_assoc).
  by apply IH.
Qed.

Lemma digit_opens c s : is_digit c = true → opens (String c s) = true.
Proof. destruct c as [[] [] [] [] [] [] [] []]; by vm_compute. Qed.

Section roundtrip.
Context `{Normalization}.

Lemma canonical_form_dict d :
  NoDup (named d).*1 →
  canonical_form (PyDict d) = PyDict (document (on_value canonical_form <$> sort_members (named d))).
Proof.
  intros Hnd. cbn [canonical_form]. rewrite <- sort_members_on_value by done.
  unfold named. by rewrite <- list_fmap_compose.
Qed.

Lemma encode_opens v t : encode v = Ok t → opens t = true.
Proof.
  destruct v as [|[]|n|s|l|d|?]; cbn [encode]; intros Ht; try discriminate Ht.
  - by injection Ht as <-.
  - by injection Ht as <-.
  - by injection Ht as <-.
  - unfold encode_integer in Ht. case_match; [done|]. injection Ht as <-. unfold dec.
    destruct (n <? 0) eqn:Hn; bools; [done|].
    assert (Hc : dec_nat n ≠ "" ∧ str_all is_digit (dec_nat n) = true).
    { split; [|by apply dec_nat_digits]. unfold dec_nat. cbn. case_match; [done|].
      by destruct (dec_fuel _ _). }
    destruct (dec_nat n) as [|c s]; [tauto|]. destruct Hc as [_ [Hc _]%andb_true_iff].
    by apply digit_opens.
  - by apply encode_string_Ok in Ht as (_&_&->).
  - unfold encode_array in Ht. by run_ok; subst.
  - unfold encode_object in Ht. by run_ok; subst.
Qed.

Abbreviation value_at limit := (scan_value object_from_pairs limit).

Lemma scan_integer limit n rest :
  - MAX_SAFE_INTEGER ≤ n ≤ MAX_SAFE_INTEGER → delimited rest = true →
  value_at limit (dec n ++ rest) = Ok (PyInt n, rest).
Proof.
  intros Hn Hr. pose proof (scan_number_dec (H:=CanonicalizationError) n rest Hn Hr) as Hs.
  assert (Hw : ∀ c s, is_digit c = true → scan_words WORDS (String c s) = None ∧
    value_at limit (String c s) = scan_number (String c s)).
  { intros c s Hc. destruct limit, c as [[] [] [] [] [] [] [] []]; try discriminate Hc; by split. }
  unfold dec in *. destruct (n <? 0) eqn:Hneg; bools.
  - pose proof (dec_nat_digits (- n) ltac:(lia)) as Hd. cbn [append] in *.
    destruct (dec_nat (- n)) as [|c s] eqn:E.
    { pose proof (dec_nat_value (- n) ltac:(lia)) as Hv. rewrite E in Hv. cbn in Hv. lia. }
    cbn in Hd. bools. rewrite <- Hs.
    destruct limit, c as [[] [] [] [] [] [] [] []]; try discriminate H0; reflexivity.
  - pose proof (dec_nat_digits n ltac:(lia)) as Hd.
    destruct (dec_nat n) as [|c s] eqn:E.
    { unfold dec_nat in E. cbn in E. case_match; [done|]. by destruct (dec_fuel _ _). }
    cbn in Hd. bools. cbn [append] in *. by rewrite (proj2 (Hw c (s ++ rest) H0)).
Qed.

(** Every canonical text reads back, in any context, as the value's canonical form. *)
Lemma encode_reads v : ∀ limit t,
  well_formed v = true → (depth v ≤ limit)%nat → encode v = Ok t →
  reads (value_at limit) (canonical_form v) t.
Proof.
  induction v as [|[]|n|s|l IH|d IH|o] using pyval_ind'; intros limit t Hwf Hd Ht;
    (split; [by eapply encode_opens|]); intros rest Hr.
  - injection Ht as <-. by destruct limit.
  - injection Ht as <-. by destruct limit.
  - injection Ht as <-. by destruct limit.
  - cbn [encode] in Ht. unfold encode_integer in Ht. case_match; [done|]. injection Ht as <-.
    bools. apply scan_integer; [lia|done].
  - apply encode_string_Ok in Ht as (_&_&->). unfold quoted. cbn [append].
    rewrite <- str_app_assoc. cbn [append canonical_form].
    assert (Hq : ∀ s, value_at limit (String QUOTE s) = ('(t, rest) ← scan_string s; Ok (PyStr t, rest)))
      by (by destruct limit).
    by rewrite Hq, scan_escape_all.
  - cbn [encode] in Ht. unfold encode_array in Ht. run_ok. subst t.
    destruct limit as [|limit]; [cbn in Hd; lia|].
    cbn [append]. rewrite <- str_app_assoc. cbn [canonical_form append].
    change (value_at (S limit) (String "[" ?s)) with (scan_array (value_at limit) s).
    apply scan_array_join. apply map_ok_Forall2 in H0. rewrite Forall2_fmap_l in H0.
    cbn in Hwf, Hd. apply le_S_n in Hd. apply Is_true_eq_left, forallb_True in Hwf.
    rewrite max_list_le, Forall_fmap in Hd. rewrite Forall2_fmap_l.
    revert Hwf Hd IH. clear -H0. induction H0 as [|v u l us Hvu _ IHl]; [done|].
    rewrite !Forall_cons. intros [Hw1 Hw2] [Hd1 Hd2] [Hv IH].
    constructor; [|by auto]. apply Hv; [by apply Is_true_true | done | done].
  - cbn [well_formed] in Hwf. bools.
    apply encode_object_Ok in Ht as ([names Hn]&parts&Hp&->); [|done].
    destruct limit as [|limit]; [cbn in Hd; lia|].
    pose proof (named_NoDup _ _ Hn H0) as Hnd. rewrite canonical_form_dict by done.
    cbn [append]. rewrite <- str_app_assoc. cbn [append].
    change (value_at (S limit) (String "{" ?s)) with (scan_object (value_at limit) object_from_pairs s).
    apply (scan_object_join _ _ (on_value canonical_form <$> sort_members (named d))).
    + cbn in Hd. apply le_S_n in Hd. rewrite max_list_le, Forall_fmap in Hd.
      apply Is_true_eq_left, forallb_True in H1.
      assert (Hall : Forall (λ m : string * pyval, ∀ t, encode m.2 = Ok t →
        reads (value_at limit) (canonical_form m.2) t) (sort_members (named d))).
      { apply (named_Forall (λ v, ∀ t, encode v = Ok t → reads (value_at limit) (canonical_form v) t)).
        clear -IH Hd H1. induction IH as [|kv d Hkv _ IHd]; [done|].
        rewrite !Forall_cons in *. destruct Hd as [Hd1 Hd2], H1 as [Hw1 Hw2].
        constructor; [|by auto]. intros u. apply Hkv; [by apply Is_true_true | done]. }
      rewrite Forall2_fmap_l. revert Hall. induction Hp as [|m p ms parts (vt&Hv&->) Hp IHp]; [done|].
      rewrite Forall_cons. intros [Hm Hms]. constructor; [|by auto]. cbn. eauto.
    + apply object_from_pairs_distinct. rewrite on_value_keys, sort_members_Permutation. done.
  - discriminate Ht.
Qed.

(** Encoding the canonical form writes the same text. *)
Lemma encode_canonical_form v : ∀ t,
  well_formed v = true → encode v = Ok t → encode (canonical_form v) = Ok t.
Proof.
  induction v as [|b|n|s|l IH|d IH|o] using pyval_ind'; intros t Hwf Ht; try done.
  - apply encode_string_Ok in Ht as (Hs&Hl&->). apply encode_string_Ok.
    rewrite nfc_idempotent. split; [by apply nfc_scalar | done].
  - cbn [encode canonical_form] in *. unfold encode_array in *. run_ok. subst t.
    assert (Hx : map_ok id (encode <$> (canonical_form <$> l)) = Ok x).
    { apply map_ok_Forall2 in H0. apply map_ok_Forall2. rewrite !Forall2_fmap_l in *.
      cbn in Hwf. revert Hwf IH. clear -H0. induction H0 as [|v u l us Hvu _ IHl]; [done|].
      cbn. intros [??]%andb_true_iff [Hv ?]%Forall_cons. constructor; [by apply Hv | by auto]. }
    by rewrite Hx.
  - cbn [well_formed] in Hwf. bools.
    apply encode_object_Ok in Ht as ([names Hn]&parts&Hp&->); [|done].
    pose proof (named_NoDup _ _ Hn H0) as Hnd. rewrite canonical_form_dict by done.
    assert (Hks : NoDup (on_value canonical_form <$> sort_members (named d)).*1)
      by (by rewrite on_value_keys, sort_members_Permutation).
    apply encode_object_Ok.
    { rewrite document_keys. by apply (NoDup_fmap_2 KStr). }
    split.
    + apply map_ok_total. rewrite document_keys, on_value_keys.
      intros k (name&->&Hin)%list_elem_of_fmap. rewrite sort_members_Permutation in Hin.
      apply named_keys in Hn as Hall. apply list_elem_of_fmap in Hin as (m&->&Hin).
      rewrite Forall_forall in Hall. destruct (Hall _ Hin) as [k Hk]. exists m.1.
      by pose proof Hk as (->&_)%canonical_key_Ok.
    + exists parts. split; [|done]. rewrite named_of_document.
      rewrite sort_members_on_value by (by rewrite sort_members_Permutation).
      rewrite sort_members_id by done. rewrite Forall2_fmap_l.
      assert (Hall : Forall (λ m : string * pyval, ∀ t, encode m.2 = Ok t →
        encode (canonical_form m.2) = Ok t) (sort_members (named d))).
      { apply (named_Forall (λ v, ∀ t, encode v = Ok t → encode (canonical_form v) = Ok t)).
        clear -IH H1. induction IH as [|kv d Hkv _ IHd]; [done|]. cbn in H1. bools.
        constructor; [|by auto]. intros u. by apply Hkv. }
      revert Hall. clear -Hp. induction Hp as [|m p ms parts (vt&Hv&->) Hp IHp]; [done|].
      intros [Hm Hms]%Forall_cons. constructor; [|by auto]. cbn. eauto.
Qed.
End roundtrip.

(** ** The values the profile admits *)

Section admissible.
Context `{Normalization}.

Definition admissible_text (s : string) : bool :=
  negb (has_surrogate s) && (String.length (nfc s) <=? MAX_STRING_BYTES)%nat.

Definition admissible_key (k : pykey) : bool :=
  match k with
  | KStr s => (char_len s <=? MAX_KEY_LENGTH)%nat && fullmatch CANONICAL_KEY_PATTERN s
  | KOther _ => false
  end.

Fixpoint admissible (v : pyval) : bool :=
  match v with
  | PyNone | PyBool _ => true
  | PyInt n => (- MAX_SAFE_INTEGER <=? n) && (n <=? MAX_SAFE_INTEGER)
  | PyStr s => admissible_text s
  | PyList l => forallb admissible l
  | PyDict d => forallb (λ kv, admissible_key kv.1 && admissible kv.2) d
  | PyOther _ => false
  end.

Lemma admissible_key_Ok k : admissible_key k = true ↔ ∃ name, canonical_key k = Ok name.
Proof.
  setoid_rewrite canonical_key_Ok. destruct k as [s|t]; cbn [admissible_key].
  - rewrite andb_true_iff, Nat.leb_le. naive_solver.
  - naive_solver.
Qed.

Lemma encode_admissible v : well_formed v = true → is_ok (encode v) = admissible v.
Proof.
  intros Hwf. apply eq_true_iff_eq.
  transitivity (∃ t, encode v = Ok t); [destruct (encode v); cbn; naive_solver|].
  induction v as [|b|n|s|l IH|d IH|o] using pyval_ind';
    try (by split; [done | intros _; eexists]); try (by split; [intros [t Ht]; discriminate Ht | done]).
  - cbn [encode admissible]. unfold encode_integer.
    destruct (n <? - MAX_SAFE_INTEGER) eqn:?, (MAX_SAFE_INTEGER <? n) eqn:?; bools; cbn;
      rewrite andb_true_iff, !Z.leb_le; (split; [intros [t Ht]; try discriminate Ht | eauto]); lia.
  - cbn [encode admissible]. setoid_rewrite encode_string_Ok. unfold admissible_text.
    rewrite andb_true_iff, negb_true_iff, Nat.leb_le. naive_solver.
  - cbn [encode admissible well_formed] in *. unfold encode_array.
    transitivity (∃ parts, map_ok id (encode <$> l) = Ok parts).
    { destruct (map_ok _ _); cbn; naive_solver. }
    rewrite map_ok_exists, Forall_fmap, forallb_Forall.
    rewrite forallb_Forall in Hwf. eapply Forall_iff_2; [exact IH | exact Hwf |]. cbn. auto.
  - cbn [well_formed] in Hwf. bools. setoid_rewrite encode_object_Ok; [|done].
    transitivity ((∃ names, map_ok canonical_key d.*1 = Ok names) ∧
      Forall (λ m : string * pyval, ∃ t, encode m.2 = Ok t) (named d)).
    { rewrite <- (sort_members_Permutation (named d)). split.
      - intros (t&Hn&parts&Hp&_). split; [done|]. apply (ex_intro (Forall2 _ _)), Forall_exists_Forall2 in Hp.
        eapply Forall_impl; [exact Hp|]. cbn. naive_solver.
      - intros [Hn Hall]. assert (Hp : Forall (λ m : string * pyval, ∃ p vt,
          encode m.2 = Ok vt ∧ p = member_text m.1 vt) (sort_members (named d)))
          by (eapply Forall_impl; [exact Hall|]; cbn; naive_solver).
        apply Forall_exists_Forall2 in Hp as [parts Hp]. eauto 10. }
    cbn [admissible]. rewrite map_ok_exists, forallb_Forall. unfold named. rewrite !Forall_fmap, <- Forall_and.
    rewrite forallb_Forall in H1. eapply Forall_iff_2; [exact IH | exact H1 |].
    intros [k w] Hw Hwf'. cbn in *. rewrite andb_true_iff, admissible_key_Ok. naive_solver.
Qed.
End admissible.

(** ** Theorems *)

Lemma loads_encode `{Normalization} limit v t :
  well_formed v = true → (depth v ≤ limit)%nat → encode v = Ok t →
  loads object_from_pairs limit t = Ok (canonical_form v).
Proof.
  intros Hwf Hd Ht. destruct (encode_reads v limit t Hwf Hd Ht) as [Ho Hr].
  unfold loads. rewrite skip_ws_opens by done.
  specialize (Hr "" eq_refl). rewrite str_app_nil_r in Hr. by rewrite Hr.
Qed.

(** C34: decoding inverts encoding.  Whenever [canonical_bytes] accepts a value, [decode]
    reads the bytes back as the value's canonical form (strings in NFC, members in key
    order), for every nesting the interpreter can carry. *)
Theorem decode_inverts_canonical_bytes `{Normalization} limit v t :
  well_formed v = true → (depth v ≤ limit)%nat → canonical_bytes v = Ok t →
  decode limit t = Ok (canonical_form v).
Proof.
  intros Hwf Hd Ht. unfold decode. rewrite (loads_encode limit v t) by done.
  unfold canonical_bytes. by rewrite (encode_canonical_form v t).
Qed.

Definition sample : pyval :=
  PyDict [(KStr "b", PyList [PyInt (-7); PyNone]); (KStr "a", PyStr "x")].

Lemma decode_inverts_canonical_bytes_witness :
  ∃ t, decode (H := ascii_normalization) 2 t =
       Ok (PyDict [(KStr "a", PyStr "x"); (KStr "b", PyList [PyInt (-7); PyNone])]).
Proof.
  eexists. apply (decode_inverts_canonical_bytes (H := ascii_normalization) 2 sample);
    vm_compute; [reflexivity | lia | reflexivity].
Defined.

Lemma canonical_bytes_iff `{Normalization} v v' t t' :
  well_formed v = true → well_formed v' = true →
  canonical_bytes v = Ok t → canonical_bytes v' = Ok t' →
  t = t' ↔ canonical_form v = canonical_form v'.
Proof.
  intros Hwf Hwf' Ht Ht'. split.
  - intros <-.
    pose proof (loads_encode (depth v `max` depth v') v t Hwf ltac:(lia) Ht) as H1.
    pose proof (loads_encode (depth v `max` depth v') v' t Hwf' ltac:(lia) Ht') as H2. congruence.
  - intros Hc. apply encode_canonical_form in Ht, Ht'; [|done..]. congruence.
Qed.

(** Canonical bytes determine the value and the value determines its bytes: two accepted
    values have the same bytes exactly when they have the same canonical form, whatever the
    order of their mappings. *)
Lemma canonical_bytes_injective `{Normalization} v v' t t' :
  well_formed v = true → well_formed v' = true →
  canonical_bytes v = Ok t → canonical_bytes v' = Ok t' →
  t = t' ↔ canonical_form v = canonical_form v'.
Proof. apply canonical_bytes_iff. Qed.

Lemma canonical_bytes_injective_witness :
  let v' := PyDict [(KStr "a", PyStr "x"); (KStr "b", PyList [PyInt (-7); PyNone])] in
  ∃ t : string, t = t ↔ canonical_form (H := ascii_normalization) sample = canonical_form (H := ascii_normalization) v'.
Proof.
  eexists. eapply (canonical_bytes_injective (H := ascii_normalization) sample); vm_compute; reflexivity.
Defined.

(** [canonical_bytes] accepts exactly the profile's values: integers within 2^53 - 1,
    text without a lone surrogate whose NFC form fits the byte bound, keys that are text of
    the key pattern within the length bound, and nothing that is not JSON-shaped. *)
Lemma canonical_bytes_accepts `{Normalization} v :
  well_formed v = true → is_ok (canonical_bytes v) = admissible v.
Proof. apply encode_admissible. Qed.

Lemma canonical_bytes_accepts_witness :
  is_ok (canonical_bytes (H := ascii_normalization) sample) = true ∧
  is_ok (canonical_bytes (H := ascii_normalization) (PyList [PyInt (2 ^ 53)])) = false.
Proof.
  split.
  - rewrite (canonical_bytes_accepts (H := ascii_normalization) sample); vm_compute; reflexivity.
  - rewrite (canonical_bytes_accepts (H := ascii_normalization) (PyList [PyInt (2 ^ 53)])); vm_compute; reflexivity.
Defined.

Lemma take_digits_zeros k : take_digits (zeros k) = (zeros k, "").
Proof. induction k as [|k IH]; [done|]. cbn. by rewrite IH. Qed.

(** Text holding an integer of more digits than the interpreter converts makes [decode]
    raise a bare [ValueError], which is not the [CanonicalizationError] it promises. *)
Lemma decode_long_integer_escapes `{Normalization} limit k :
  (MAX_INT_DIGITS ≤ k)%nat → decode limit (String "1" (zeros k)) = Err UncaughtValueError.
Proof.
  intros Hk. unfold decode, loads. cbn [skip_ws]. change (is_ws "1") with false. cbv iota.
  assert (Hs : scan_value object_from_pairs limit (String "1" (zeros k)) =
    scan_number (H := CanonicalizationError) (String "1" (zeros k))) by (destruct limit; reflexivity).
  rewrite Hs. unfold scan_number. change (bool_decide ("1"%char = "-"%char)) with false. cbv iota.
  unfold take_int. change (bool_decide ("1"%char = "0"%char)) with false.
  cbn [take_digits]. change (is_digit "1") with true. cbv iota. rewrite take_digits_zeros.
  cbn [take_frac take_exp]. unfold int_value. cbn [String.length]. rewrite zeros_length.
  by rewrite (proj2 (Nat.ltb_lt _ _)) by lia.
Qed.

Lemma decode_long_integer_escapes_witness :
  decode (H := ascii_normalization) 100 (String "1" (zeros 4300)) = Err UncaughtValueError.
Proof. apply (decode_long_integer_escapes (H := ascii_normalization)). unfold MAX_INT_DIGITS. lia. Defined.
