(* ===== verification/JsonBytes.v ===== *)
(** * Bytes as JSON text

    What [json.loads] makes of a [bytes] argument: [json.detect_encoding] and the codec it
    names, under the [surrogatepass] handler.  Text is the string of its UTF-8 octets, a lone
    surrogate being its three-octet form; [None] is a [UnicodeDecodeError]. *)

From S2P Require Import Prelude PyStr PyVal Canonical.
Local Open Scope string_scope.
Local Open Scope Z_scope.

Inductive encoding : Set := UTF8 | UTF8_SIG | UTF16 (big : bool) (bom : bool) | UTF32 (big : bool) (bom : bool).

Definition octets (s : string) : list Z := (λ c, Z.of_N (ord c)) <$> list_ascii_of_string s.

Definition detect_encoding (s : string) : encoding :=
  match octets s with
  | 0 :: 0 :: 254 :: 255 :: _ => UTF32 true true
  | 255 :: 254 :: 0 :: 0 :: _ => UTF32 false true
  | 254 :: 255 :: _ => UTF16 true true
  | 255 :: 254 :: _ => UTF16 false true
  | 239 :: 187 :: 191 :: _ => UTF8_SIG
  | 0 :: b :: _ :: _ :: _ => if b =? 0 then UTF32 true false else UTF16 true false
  | _ :: 0 :: c :: d :: _ => if (c =? 0) && (d =? 0) then UTF32 false false else UTF16 false false
  | [0; _] => UTF16 true false
  | [_; 0] => UTF16 false false
  | _ => UTF8
  end.

Definition continues (b : Z) : bool := (128 <=? b) && (b <? 192).

(** Well-formed UTF-8, surrogates allowed. *)
Fixpoint valid_utf8 (fuel : nat) (l : list Z) : bool :=
  match fuel, l with
  | _, [] => true
  | O, _ => false
  | S fuel, a :: l =>
      if a <? 128 then valid_utf8 fuel l
      else match l with
      | b :: l =>
          if (194 <=? a) && (a <? 224) then continues b && valid_utf8 fuel l
          else match l with
          | c :: l =>
              if (224 <=? a) && (a <? 240) then
                continues b && continues c && negb ((a =? 224) && (b <? 160)) && valid_utf8 fuel l
              else match l with
              | d :: l =>
                  (240 <=? a) && (a <? 245) && continues b && continues c && continues d &&
                  negb ((a =? 240) && (b <? 144)) && negb ((a =? 244) && (143 <? b)) &&
                  valid_utf8 fuel l
              | [] => false
              end
          | [] => false
          end
      | [] => false
      end
  end.

Definition decode_utf8 (s : string) : option string :=
  if valid_utf8 (String.length s) (octets s) then Some s else None.

Definition unit16 (big : bool) (a b : Z) : Z := if big then 256 * a + b else 256 * b + a.

Fixpoint units16 (big : bool) (l : list Z) : option (list Z) :=
  match l with
  | [] => Some []
  | a :: b :: l => (λ us, unit16 big a b :: us) <$> units16 big l
  | _ => None
  end.

Fixpoint text16 (us : list Z) : string :=
  match us with
  | [] => ""
  | u :: us' =>
      match us' with
      | v :: rest => if is_high u && is_low v then utf8 (combine u v) ++ text16 rest
                     else utf8 u ++ text16 us'
      | [] => utf8 u
      end
  end.

Fixpoint units32 (big : bool) (l : list Z) : option (list Z) :=
  match l with
  | [] => Some []
  | a :: b :: c :: d :: l =>
      (λ us, (if big then ((a * 256 + b) * 256 + c) * 256 + d
              else ((d * 256 + c) * 256 + b) * 256 + a) :: us) <$> units32 big l
  | _ => None
  end.

Definition decode_text (s : string) : option string :=
  match detect_encoding s with
  | UTF8 => decode_utf8 s
  | UTF8_SIG => decode_utf8 (substring 3 (String.length s - 3) s)
  | UTF16 big bom =>
      text16 <$> units16 big (if bom then drop 2 (octets s) else octets s)
  | UTF32 big bom =>
      us ← units32 big (if bom then drop 4 (octets s) else octets s);
      if forallb (λ u, u <=? 1114111) us then Some (foldr (λ u t, utf8 u ++ t) "" us) else None
  end.

(** [canonical.decode] of bytes. *)
Definition decode_bytes `{Normalization} (limit : nat) (raw : string) : result decode_error pyval :=
  match decode_text raw with
  | None => Err (Refused {| refusal := MALFORMED_TEXT; value := PyOther raw |})
  | Some text => decode limit text
  end.

Example utf16_reads : decode_text (String "{" (String "000" (String "}" (String "000" "")))) = Some "{}".
Proof. reflexivity. Qed.

Example utf8_overlong_refused : decode_text (String "192" (String "128" "")) = None.
Proof. reflexivity. Qed.

(** ** Flat documents of ASCII text *)

Lemma octet_ascii c : is_ascii c = true → 0 ≤ Z.of_N (ord c) < 128.
Proof. unfold is_ascii. rewrite N.ltb_lt. lia. Qed.

Lemma valid_utf8_ascii s n :
  str_all is_ascii s = true → (String.length s ≤ n)%nat → valid_utf8 n (octets s) = true.
Proof.
  revert n. induction s as [|c s IH]; intros n Ha Hn; [by destruct n|].
  destruct n as [|n]; [cbn in Hn; lia|]. cbn in Ha, Hn. apply andb_true_iff in Ha as [Hc Ha].
  unfold octets. cbn [list_ascii_of_string fmap list_fmap valid_utf8].
  rewrite (proj2 (Z.ltb_lt _ _)) by (by apply octet_ascii). apply IH; [done|lia].
Qed.

Lemma decode_text_object rest :
  str_all is_ascii (String "{" (String QUOTE rest)) = true →
  decode_text (String "{" (String QUOTE rest)) = Some (String "{" (String QUOTE rest)).
Proof.
  intros Ha. change (decode_text (String "{" (String QUOTE rest))) with
    (decode_utf8 (String "{" (String QUOTE rest))). unfold decode_utf8. by rewrite valid_utf8_ascii.
Qed.

Lemma escape_ascii c : is_ascii c = true → str_all is_ascii (escape c) = true.
Proof. destruct c as [[] [] [] [] [] [] [] []]; by vm_compute. Qed.

Lemma quoted_ascii s : str_all is_ascii s = true → str_all is_ascii (quoted (escape_all s)) = true.
Proof.
  intros Ha. assert (He : str_all is_ascii (escape_all s) = true).
  { induction s as [|c s IH]; [done|]. cbn [str_all escape_all] in *. apply andb_true_iff in Ha as [Hc Ha].
    by rewrite str_all_app, escape_ascii, IH. }
  unfold quoted. change (str_all is_ascii (escape_all s ++ String QUOTE "") = true). by rewrite str_all_app, He.
Qed.

(** A text in ASCII or an integer. *)
Definition plain (v : pyval) : bool :=
  match v with PyStr s => str_all is_ascii s | PyInt _ => true | _ => false end.

Lemma digit_ascii c : is_digit c = true → is_ascii c = true.
Proof. destruct c as [[] [] [] [] [] [] [] []]; by vm_compute. Qed.

Lemma dec_ascii n : str_all is_ascii (dec n) = true.
Proof.
  unfold dec. destruct (Z.ltb_spec n 0); cbn [str_all]; [rewrite andb_true_iff; split; [done|]|];
    (eapply str_all_mono; [apply digit_ascii|]; apply dec_nat_digits; lia).
Qed.

Section plain.
Context `{Normalization}.

Lemma encode_plain_ascii v t : plain v = true → encode v = Ok t → str_all is_ascii t = true.
Proof.
  destruct v as [| |n|s| | |]; try done; cbn [plain encode]; intros Hp.
  - unfold encode_integer. case_match; [done|]. intros [= <-]. apply dec_ascii.
  - intros (_&_&->)%encode_string_Ok. rewrite nfc_ascii by done. by apply quoted_ascii.
Qed.

Lemma canonical_form_plain v : plain v = true → canonical_form v = v.
Proof. destruct v; try done. cbn. intros Hp. by rewrite nfc_ascii. Qed.

Lemma plain_well_formed v : plain v = true → well_formed v = true ∧ depth v = 0%nat.
Proof. by destruct v. Qed.

(** The canonical text of a document of plain members is ASCII. *)
Lemma encode_plain_document ms t :
  ms ≠ [] → NoDup ms.*1 → Forall (λ m, plain m.2 = true) ms →
  encode (PyDict (document ms)) = Ok t →
  str_all is_ascii t = true ∧ ∃ rest, t = String "{" (String QUOTE rest).
Proof.
  intros Hne Hnd Ha Ht.
  apply encode_object_Ok in Ht as ([names Hn]&parts&Hp&->).
  2: { rewrite document_keys. by apply (NoDup_fmap_2 KStr). }
  assert (Hall : Forall (λ p, str_all is_ascii p = true ∧ ∃ u, p = String QUOTE u) parts).
  { apply named_keys in Hn. rewrite named_of_document in Hn, Hp.
    rewrite <- (sort_members_Permutation ms) in Hn, Ha.
    revert Hn Ha. clear -Hp. induction Hp as [|[k v] p l parts (vt&Hv&->) Hp IH]; [by constructor|].
    intros [[k' Hk] Hn]%Forall_cons [Hpl Hl]%Forall_cons. constructor; [|by auto].
    split; [|by eexists]. cbn in Hk, Hv, Hpl. apply canonical_key_Ok in Hk as (_&_&Hk).
    unfold member_text. rewrite !str_all_app, (encode_plain_ascii v vt) by done.
    by rewrite quoted_ascii by by apply key_pattern_ascii. }
  destruct parts as [|p ps].
  { exfalso. apply Forall2_length in Hp.
    rewrite named_of_document, (Permutation_length (sort_members_Permutation _)) in Hp. by destruct ms. }
  pose proof Hall as [[_ [u Hu]] _]%Forall_cons. split.
  - cbn [append]. cbn [str_all]. rewrite str_all_app. cbn [str_all].
    rewrite andb_true_r. apply join_str_all; [done|]. eapply Forall_impl; [exact Hall|]. by intros ? [].
  - subst p. cbn. destruct ps; cbn; eauto.
Qed.

(** Its bytes decode to the same document in key order, which has the same bytes. *)
Lemma decode_bytes_plain limit ms t :
  ms ≠ [] → NoDup ms.*1 → Forall (λ m, plain m.2 = true) ms → (0 < limit)%nat →
  canonical_bytes (PyDict (document ms)) = Ok t →
  decode_bytes limit t = Ok (PyDict (document (sort_members ms))) ∧
  canonical_bytes (PyDict (document (sort_members ms))) = Ok t.
Proof.
  intros Hne Hnd Ha Hl Ht. destruct (encode_plain_document ms t Hne Hnd Ha Ht) as [Hta [rest Hr]].
  assert (Hwf : well_formed (PyDict (document ms)) = true).
  { cbn [well_formed]. rewrite document_keys, bool_decide_eq_true_2 by (by apply (NoDup_fmap_2 KStr)).
    cbn [andb]. unfold document. rewrite forallb_Forall, Forall_fmap. eapply Forall_impl; [exact Ha|].
    intros m Hm. cbn. by apply plain_well_formed in Hm as [-> _]. }
  assert (Hdep : (depth (PyDict (document ms)) ≤ limit)%nat).
  { cbn [depth]. enough (max_list ((λ kv : pykey * pyval, depth kv.2) <$> document ms) ≤ 0)%nat by lia.
    apply max_list_le. unfold document. rewrite !Forall_fmap. eapply Forall_impl; [exact Ha|].
    intros m Hm. cbn. by apply plain_well_formed in Hm as [_ ->]. }
  assert (Hcf : canonical_form (PyDict (document ms)) = PyDict (document (sort_members ms))).
  { cbn [canonical_form]. do 3 f_equal. unfold document. rewrite <- !list_fmap_compose.
    rewrite <- (list_fmap_id ms) at 2. apply Forall_fmap_ext. eapply Forall_impl; [exact Ha|].
    intros [k v] Hm. cbn in *. by rewrite canonical_form_plain. }
  pose proof (encode_canonical_form _ _ Hwf Ht) as Henc. rewrite Hcf in Henc. split; [|exact Henc].
  unfold decode_bytes. rewrite Hr in Hta |- *. rewrite decode_text_object by done. rewrite <- Hr.
  unfold decode. rewrite (loads_encode limit _ t Hwf Hdep Ht).
  rewrite Hcf. by unfold canonical_bytes; rewrite Henc.
Qed.
End plain.

(** The dictionary of some texts. *)
Definition texts (ms : list (string * string)) : members := document (on_value PyStr <$> ms).

Lemma decode_bytes_texts `{Normalization} limit ms t :
  ms ≠ [] → NoDup ms.*1 → Forall (λ m, str_all is_ascii m.2 = true) ms → (0 < limit)%nat →
  canonical_bytes (PyDict (texts ms)) = Ok t →
  decode_bytes limit t = Ok (PyDict (texts (sort_members ms))) ∧
  canonical_bytes (PyDict (texts (sort_members ms))) = Ok t.
Proof.
  intros Hne Hnd Ha Hl Ht. unfold texts. rewrite <- sort_members_on_value by done.
  apply decode_bytes_plain; [by destruct ms|by rewrite on_value_keys| |done|done].
  rewrite Forall_fmap. eapply Forall_impl; [exact Ha|]. done.
Qed.
