(* ===== verification/Lifecycle.v ===== *)
(** * Deny-by-default transition tables

    Six domain modules share one shape: a finite set of states, a finite set of events, a
    dictionary from (state, event) to the next state, an initial state, and terminal states
    derived from the table as the states that are the source of no row.  [Lifecycle] is that
    contract as a class, [lc_terminal] the derived set, and the lemmas below hold of every
    instance: a pair outside the table is refused, terminality is exactly having no row, a
    terminal state absorbs every run, and a table whose rows all decrease a rank bounds the
    length of every run. *)

From S2P Require Import Prelude.

(** Close the two obligations of a [Finite] instance given by an explicit enumeration. *)
Ltac solve_finite :=
  first [ by apply (bool_decide_unpack _); vm_compute
        | intros []; rewrite ?elem_of_cons; tauto ].

Class Lifecycle (S E : Type) `{EqDecision S, Finite S, EqDecision E} := {
  lc_table : list ((S * E) * S);
  lc_initial : S;
  lc_table_wf : bool_decide (NoDup lc_table.*1) = true
}.

Section lifecycle.
Context {S E : Type} `{Lifecycle S E}.

(** [_TRANSITIONS.get((state, event))] *)
Definition lc_get (s : S) (e : E) : option S := dict_get lc_table (s, e).

Definition lc_sources : list S := (λ row, row.1.1) <$> lc_table.

(** [frozenset(States) - {source for source, _ in _TRANSITIONS}] *)
Definition lc_terminal : list S := filter (λ s, s ∉ lc_sources) (enum S).

(** [state in TERMINAL_STATES] *)
Definition lc_is_terminal (s : S) : bool := bool_decide (s ∈ lc_terminal).

Definition lc_step (s s' : S) : Prop := ∃ e, lc_get s e = Some s'.

(** A run applies its events in order and stops at the first refusal. *)
Fixpoint lc_run (s : S) (es : list E) : option S :=
  match es with
  | [] => Some s
  | e :: es => s' ← lc_get s e; lc_run s' es
  end.

Lemma lc_get_elem s e s' : lc_get s e = Some s' ↔ ((s, e), s') ∈ lc_table.
Proof.
  split; [apply dict_get_elem|]. apply dict_elem_get.
  pose proof lc_table_wf as Hwf. by apply bool_decide_eq_true in Hwf.
Qed.

Lemma lc_is_terminal_spec s : lc_is_terminal s = true ↔ ∀ e, lc_get s e = None.
Proof.
  unfold lc_is_terminal, lc_terminal. rewrite bool_decide_eq_true, list_elem_of_filter.
  split.
  - intros [Hs _] e. apply dict_get_None. intros ((k&v)&Hk&Hin)%list_elem_of_fmap.
    apply Hs, list_elem_of_fmap. exists ((s, e), v). cbn in Hk. by subst k.
  - intros Hs. split; [|apply elem_of_enum].
    intros ([[s1 e] v]&->&Hin)%list_elem_of_fmap. apply lc_get_elem in Hin.
    cbn in Hs. by rewrite (Hs e) in Hin.
Qed.

Lemma lc_terminal_stuck s s' : lc_is_terminal s = true → ¬ lc_step s s'.
Proof. rewrite lc_is_terminal_spec. intros Hs [e He]. congruence. Qed.

Lemma lc_nonterminal_moves s : lc_is_terminal s = false → ∃ e s', lc_get s e = Some s'.
Proof.
  unfold lc_is_terminal, lc_terminal. rewrite bool_decide_eq_false, list_elem_of_filter.
  intros Hs. destruct (decide (s ∈ lc_sources)) as [Hin|Hn].
  - apply list_elem_of_fmap in Hin as ([[s1 e] v]&->&Hin). exists e, v. by apply lc_get_elem in Hin.
  - exfalso. apply Hs. split; [done | apply elem_of_enum].
Qed.

Lemma lc_terminal_absorbs s s' : lc_is_terminal s = true → reaches lc_step s s' → s' = s.
Proof. intros Hs Hr. destruct Hr as [|? ? ? Hst _]; [done|]. by apply lc_terminal_stuck in Hst. Qed.

Lemma lc_run_reaches s es s' : lc_run s es = Some s' → reaches lc_step s s'.
Proof.
  revert s; induction es as [|e es IH]; intros s; cbn; [intros [= ->]; constructor|].
  destruct (lc_get s e) as [s1|] eqn:He; cbn; [|done]. intros Hr%IH.
  eapply reaches_step; [by exists e | done].
Qed.

Lemma lc_reaches_run s s' : reaches lc_step s s' → ∃ es, lc_run s es = Some s'.
Proof.
  induction 1 as [s|s s1 s2 [e He] _ [es Hes]]; [by exists []|].
  exists (e :: es). cbn. by rewrite He.
Qed.

(** *** Tables with a rank *)
Section ranked.
Context (rank : S → nat).
Hypothesis rank_decreases : ∀ s e s', lc_get s e = Some s' → (rank s' < rank s)%nat.

Lemma lc_run_bounded s es s' : lc_run s es = Some s' → (length es + rank s' ≤ rank s)%nat.
Proof.
  revert s; induction es as [|e es IH]; intros s; cbn; [intros [= ->]; lia|].
  destruct (lc_get s e) as [s1|] eqn:He; cbn; [|done].
  apply rank_decreases in He. intros Hr%IH. lia.
Qed.

(** Every state can be driven to an ending. *)
Lemma lc_reaches_ending s : ∃ s', reaches lc_step s s' ∧ lc_is_terminal s' = true.
Proof.
  remember (rank s) as n eqn:Hn. revert s Hn.
  induction (lt_wf n) as [n _ IH]; intros s ->.
  destruct (lc_is_terminal s) eqn:Ht; [exists s; split; [constructor|done]|].
  apply lc_nonterminal_moves in Ht as (e&s1&He).
  destruct (IH (rank s1) (rank_decreases _ _ _ He) s1 eq_refl) as (s'&Hr&Ht).
  exists s'. split; [|done]. eapply reaches_step; [by exists e | done].
Qed.
End ranked.
End lifecycle.

#[global] Arguments lc_get {S E _ _ _ _ _} s e : simpl never.

#[export] Hint Resolve lc_run_reaches : rescue.

(** Look up a concrete table: [table_cases] runs every (state, event) pair. *)
Ltac table_cases := intros; repeat match goal with
  | s : ?T |- _ => is_var s; lazymatch type of T with Set => destruct s end
  end; vm_compute in *; try done; try congruence; try lia.

(** Evaluate every lookup of a concrete pair. *)
Ltac table_get := repeat match goal with
  | |- context [lc_get ?s ?e] =>
      let r := eval vm_compute in (lc_get s e) in change (lc_get s e) with r
  | H : context [lc_get ?s ?e] |- _ =>
      let r := eval vm_compute in (lc_get s e) in change (lc_get s e) with r in H
  end.
