(* ===== verification/Mission.v ===== *)
(** * The mission lifecycle

    [packages/domain/src/aerial_rescue_domain/mission.py]: six states, five events, seven
    legal pairs.  [Mission.step] is the decision of ADR-0072 as rules; the theorems say the
    table implements exactly those rules, that endings are final, that every mission ends
    after at most three events, and that [event_reaching] inverts the table. *)

From S2P Require Import Prelude Lifecycle.

Inductive MissionState : Set :=
| PLANNED | SEARCHING | ESCALATED | COMPLETED | EXHAUSTED | ABORTED.

Inductive MissionEvent : Set :=
| START | ESCALATE | EXHAUST | COMPLETE | ABORT.

Inductive MissionRefusal : Set := TRANSITION.

#[export] Instance MissionState_eq_dec : EqDecision MissionState.
Proof. solve_decision. Defined.
#[export] Instance MissionEvent_eq_dec : EqDecision MissionEvent.
Proof. solve_decision. Defined.
#[export] Program Instance MissionState_finite : Finite MissionState :=
  {| enum := [PLANNED; SEARCHING; ESCALATED; COMPLETED; EXHAUSTED; ABORTED] |}.
Solve All Obligations with solve_finite.

Definition state_value (s : MissionState) : string :=
  match s with
  | PLANNED => "planned" | SEARCHING => "searching" | ESCALATED => "escalated"
  | COMPLETED => "completed" | EXHAUSTED => "exhausted" | ABORTED => "aborted"
  end%string.

(** A refused operation: the refusal and the value it refuses. *)
Record MissionError : Set := { refusal : MissionRefusal; value : MissionState * MissionEvent }.

Definition TRANSITIONS : list ((MissionState * MissionEvent) * MissionState) :=
  [ ((PLANNED, START), SEARCHING);
    ((SEARCHING, ESCALATE), ESCALATED);
    ((SEARCHING, EXHAUST), EXHAUSTED);
    ((ESCALATED, COMPLETE), COMPLETED);
    ((PLANNED, ABORT), ABORTED);
    ((SEARCHING, ABORT), ABORTED);
    ((ESCALATED, ABORT), ABORTED) ].

Definition INITIAL_STATE : MissionState := PLANNED.

#[export] Instance mission_lifecycle : Lifecycle MissionState MissionEvent :=
  {| lc_table := TRANSITIONS; lc_initial := INITIAL_STATE; lc_table_wf := eq_refl |}.

Definition TERMINAL_STATES : list MissionState := lc_terminal (S := MissionState) (E := MissionEvent).

(** [{target: event for (_source, event), target in _TRANSITIONS.items()}] *)
Definition EVENT_REACHING : list (MissionState * MissionEvent) :=
  dict_of_pairs ((λ row, (row.2, row.1.2)) <$> TRANSITIONS).

Definition transition (s : MissionState) (e : MissionEvent) : result MissionError MissionState :=
  match lc_get s e with
  | None => Err {| refusal := TRANSITION; value := (s, e) |}
  | Some target => Ok target
  end.

Definition event_reaching (s : MissionState) : option MissionEvent := dict_get EVENT_REACHING s.

Definition is_terminal (s : MissionState) : bool := bool_decide (s ∈ TERMINAL_STATES).

(** ** The decision of ADR-0072 *)

Inductive step : MissionState → MissionEvent → MissionState → Prop :=
| step_start : step PLANNED START SEARCHING
| step_escalate : step SEARCHING ESCALATE ESCALATED
| step_exhaust : step SEARCHING EXHAUST EXHAUSTED
| step_complete : step ESCALATED COMPLETE COMPLETED
| step_abort s : s ∈ [PLANNED; SEARCHING; ESCALATED] → step s ABORT ABORTED.

Lemma transition_get s e s' : transition s e = Ok s' ↔ lc_get s e = Some s'.
Proof. unfold transition. destruct (lc_get s e); split; congruence. Qed.

Lemma step_transition s e s' : step s e s' ↔ transition s e = Ok s'.
Proof.
  split.
  - destruct 1 as [| | | |s Hs]; try done. rewrite !elem_of_cons in Hs.
    destruct Hs as [->|[->|[->|?%elem_of_nil]]]; done.
  - destruct s, e; intros [= <-]; constructor; by rewrite !elem_of_cons; auto.
Qed.

(** A rank every edge decreases: three events end any mission. *)
Definition rank (s : MissionState) : nat :=
  match s with PLANNED => 3 | SEARCHING => 2 | ESCALATED => 1 | _ => 0 end.

Lemma rank_step s e s' : lc_get s e = Some s' → (rank s' < rank s)%nat.
Proof. table_cases. Qed.

Lemma mission_is_terminal_lc s : is_terminal s = lc_is_terminal (S := MissionState) (E := MissionEvent) s.
Proof. done. Qed.

(** The events of one mission, applied in order from the initial state. *)
Definition run (es : list MissionEvent) : result MissionError MissionState :=
  fold_ok transition INITIAL_STATE es.

Lemma mission_run_lc s es s' : fold_ok transition s es = Ok s' ↔ lc_run s es = Some s'.
Proof.
  revert s; induction es as [|e es IH]; intros s; cbn [fold_ok lc_run]; [split; congruence|].
  rewrite bind_Ok. setoid_rewrite transition_get.
  destruct (lc_get s e) as [t|]; cbn; [rewrite <- IH; naive_solver | naive_solver].
Qed.

(** Every event sequence a mission can take, by enumeration of the sequences short enough. *)
Lemma mission_run_length es s : run es = Ok s → (length es + rank s ≤ 3)%nat.
Proof. unfold run. rewrite mission_run_lc. apply (lc_run_bounded rank rank_step). Qed.

(** ** Properties *)

(** The mission table implements ADR-0072 exactly: [transition] takes a state to another
    when, and only when, a rule of the decision does, refuses every other pair with the pair
    itself, and [event_reaching] names for each state the event whose edges enter it. *)
Lemma mission_refines_adr0072 s e :
  (∀ s', step s e s' ↔ transition s e = Ok s') ∧
  ((∀ s', ¬ step s e s') ↔ transition s e = Err {| refusal := TRANSITION; value := (s, e) |}) ∧
  (event_reaching s = Some e ↔ ∃ s0, step s0 e s) ∧
  (is_terminal s = true ↔ ∀ e' s', ¬ step s e' s').
Proof.
  split; [intros; apply step_transition|]. split; [|split].
  - setoid_rewrite step_transition. unfold transition. destruct (lc_get s e); naive_solver.
  - setoid_rewrite step_transition. split.
    + destruct s; intros [= <-]; first [by exists PLANNED | by exists SEARCHING | by exists ESCALATED].
    + intros [s0 H0]. by destruct s0, e; try discriminate H0; injection H0 as <-.
  - setoid_rewrite step_transition. setoid_rewrite transition_get.
    rewrite mission_is_terminal_lc, lc_is_terminal_spec.
    split; [intros H e' s' He; congruence|]. intros H e'. destruct (lc_get s e') eqn:E; [|done].
    by apply H in E.
Qed.

(** Every mission ends after at most three events; it is completed only by being started,
    escalated and then completed, in that order, and nothing follows an ending. *)
Lemma mission_runs es s :
  run es = Ok s →
  (length es ≤ 3)%nat ∧
  (s = COMPLETED → es = [START; ESCALATE; COMPLETE]) ∧
  (is_terminal s = true → ∀ e, run (es ++ [e]) = Err {| refusal := TRANSITION; value := (s, e) |}) ∧
  (is_terminal s = false → ∃ more s', run (es ++ more) = Ok s' ∧ is_terminal s' = true).
Proof.
  intros Hr. pose proof (mission_run_length _ _ Hr) as Hl.
  destruct es as [|e1 [|e2 [|e3 [|? ?]]]]; cbn in Hl; try lia;
    repeat match goal with e : MissionEvent |- _ => destruct e; try discriminate Hr end;
    injection Hr as <-; (split; [cbn; lia|]; split; [done|]; split; [by intros ? []|]); intros Ht;
    try discriminate Ht; exists [ABORT], ABORTED; done.
Qed.

Lemma mission_runs_witness :
  (3 ≤ 3)%nat ∧ run ([START; ESCALATE; COMPLETE] ++ [ABORT]) = Err {| refusal := TRANSITION; value := (COMPLETED, ABORT) |}.
Proof.
  split; [exact (proj1 (mission_runs [START; ESCALATE; COMPLETE] COMPLETED eq_refl))|].
  exact (proj1 (proj2 (proj2 (mission_runs [START; ESCALATE; COMPLETE] COMPLETED eq_refl))) eq_refl ABORT).
Defined.
