(* ===== verification/Sectors.v ===== *)
(** * The sector lifecycle

    [packages/domain/src/aerial_rescue_domain/sectors.py]: four states, five events, five
    legal pairs.  The machine is cyclic between assigned and at-risk, and only a swept sector
    absorbs. *)

From S2P Require Import Prelude Lifecycle.

Inductive SectorState : Set := UNASSIGNED | ASSIGNED | AT_RISK | SEARCHED.
Inductive SectorEvent : Set := ASSIGN | IMPERIL | REASSIGN | RECOVER | SWEEP.
Inductive SectorRefusal : Set := TRANSITION.

#[export] Instance SectorState_eq_dec : EqDecision SectorState.
Proof. solve_decision. Defined.
#[export] Instance SectorEvent_eq_dec : EqDecision SectorEvent.
Proof. solve_decision. Defined.
#[export] Program Instance SectorState_finite : Finite SectorState :=
  {| enum := [UNASSIGNED; ASSIGNED; AT_RISK; SEARCHED] |}.
Solve All Obligations with solve_finite.

Definition state_value (s : SectorState) : string :=
  match s with
  | UNASSIGNED => "unassigned" | ASSIGNED => "assigned"
  | AT_RISK => "at-risk" | SEARCHED => "searched"
  end%string.

Record SectorError : Set := { refusal : SectorRefusal; value : SectorState * SectorEvent }.

Definition TRANSITIONS : list ((SectorState * SectorEvent) * SectorState) :=
  [ ((UNASSIGNED, ASSIGN), ASSIGNED);
    ((ASSIGNED, IMPERIL), AT_RISK);
    ((AT_RISK, REASSIGN), ASSIGNED);
    ((AT_RISK, RECOVER), ASSIGNED);
    ((ASSIGNED, SWEEP), SEARCHED) ].

Definition INITIAL_STATE : SectorState := UNASSIGNED.

#[export] Instance sector_lifecycle : Lifecycle SectorState SectorEvent :=
  {| lc_table := TRANSITIONS; lc_initial := INITIAL_STATE; lc_table_wf := eq_refl |}.

Definition TERMINAL_STATES : list SectorState := lc_terminal (S := SectorState) (E := SectorEvent).

Definition transition (s : SectorState) (e : SectorEvent) : result SectorError SectorState :=
  match lc_get s e with
  | None => Err {| refusal := TRANSITION; value := (s, e) |}
  | Some target => Ok target
  end.

Definition is_terminal (s : SectorState) : bool := bool_decide (s ∈ TERMINAL_STATES).

(** ** The decision of ADR-0073 *)

Inductive step : SectorState → SectorEvent → SectorState → Prop :=
| step_assign : step UNASSIGNED ASSIGN ASSIGNED
| step_imperil : step ASSIGNED IMPERIL AT_RISK
| step_regain e : e = REASSIGN ∨ e = RECOVER → step AT_RISK e ASSIGNED
| step_sweep : step ASSIGNED SWEEP SEARCHED.

Lemma sector_step_transition s e s' : step s e s' ↔ transition s e = Ok s'.
Proof.
  split.
  - by destruct 1 as [| |e [-> | ->]|].
  - destruct s, e; intros [= <-]; constructor; auto.
Qed.

Lemma sector_is_terminal_spec s : is_terminal s = true ↔ s = SEARCHED.
Proof. destruct s; vm_compute; split; congruence. Qed.

Lemma sector_transition_refuses s e :
  (∀ s', ¬ step s e s') ↔ transition s e = Err {| refusal := TRANSITION; value := (s, e) |}.
Proof.
  setoid_rewrite sector_step_transition. unfold transition.
  destruct (lc_get s e); split; try naive_solver.
Qed.

(** ** Properties *)

(** A sector's history. *)
Definition run (es : list SectorEvent) : result SectorError SectorState :=
  fold_ok transition INITIAL_STATE es.

(** How often an event occurs in a history. *)
Definition times (e : SectorEvent) (es : list SectorEvent) : nat := length (filter (λ x, x = e) es).

(** The ledger a history keeps: one assignment, one sweep, and every imperilment answered
    except a pending one. *)
Definition ledger (es : list SectorEvent) (s : SectorState) : Prop :=
  times ASSIGN es = match s with UNASSIGNED => 0 | _ => 1 end%nat ∧
  times SWEEP es = match s with SEARCHED => 1 | _ => 0 end%nat ∧
  times IMPERIL es =
    (times REASSIGN es + times RECOVER es + match s with AT_RISK => 1 | _ => 0 end)%nat.

Lemma times_snoc e es e' : times e (es ++ [e']) = (times e es + if decide (e' = e) then 1 else 0)%nat.
Proof. unfold times. rewrite filter_app, length_app. cbn. by case_decide. Qed.

Lemma ledger_step es s e s' : ledger es s → step s e s' → ledger (es ++ [e]) s'.
Proof.
  unfold ledger. rewrite !times_snoc. intros Hl Hs. revert Hl.
  destruct Hs as [| |? [-> | ->]|]; intros (H1&H2&H3); settle; lia.
Qed.

(** The sector table implements ADR-0073 exactly, and refuses every other pair with the
    pair itself; only a swept sector is terminal; and any accepted history assigned the sector
    at most once, swept it at most once, and answered every imperilment by one reassignment
    or recovery, except the one still pending when the sector is at risk. *)
Lemma sector_refines_adr0073 s e :
  (∀ s', step s e s' ↔ transition s e = Ok s') ∧
  ((∀ s', ¬ step s e s') ↔ transition s e = Err {| refusal := TRANSITION; value := (s, e) |}) ∧
  (is_terminal s = true ↔ s = SEARCHED) ∧
  (∀ es, run es = Ok s → ledger es s).
Proof.
  split; [intros; apply sector_step_transition|]. split; [apply sector_transition_refuses|].
  split; [apply sector_is_terminal_spec|].
  unfold run. intros es.
  enough (∀ pre s0, ledger pre s0 → fold_ok transition s0 es = Ok s → ledger (pre ++ es) s)
    as Hgo by (apply (Hgo []); by vm_compute).
  induction es as [|e' es IH]; intros pre s0 Hpre; cbn [fold_ok].
  - intros [= <-]. by rewrite app_nil_r.
  - intros (s1&H1&H2)%bind_Ok. replace (pre ++ e' :: es) with ((pre ++ [e']) ++ es) by (by rewrite <- app_assoc).
    eapply IH; [|exact H2]. eapply ledger_step; [done|]. by apply sector_step_transition.
Qed.
