(* ===== verification/Evidence.v ===== *)
(** * The evidence lifecycle

    [packages/domain/src/aerial_rescue_domain/evidence.py]: seven states, seven events, eight
    legal pairs.  An agent that declines abstains; only an admitted item contributes. *)

From S2P Require Import Prelude Lifecycle.

Inductive EvidenceState : Set :=
| REQUESTED | OBSERVED | VALIDATED | MANUAL_REVIEW | CONTRIBUTING | ABSTAINED | REJECTED.
Inductive EvidenceEvent : Set :=
| OBSERVE | ABSTAIN | VALIDATE | REJECT | REFER | ADMIT | DISMISS.
Inductive EvidenceRefusal : Set := TRANSITION.

#[export] Instance EvidenceState_eq_dec : EqDecision EvidenceState.
Proof. solve_decision. Defined.
#[export] Instance EvidenceEvent_eq_dec : EqDecision EvidenceEvent.
Proof. solve_decision. Defined.
#[export] Program Instance EvidenceState_finite : Finite EvidenceState :=
  {| enum := [REQUESTED; OBSERVED; VALIDATED; MANUAL_REVIEW; CONTRIBUTING; ABSTAINED; REJECTED] |}.
Solve All Obligations with solve_finite.

Record EvidenceError : Set := { refusal : EvidenceRefusal; value : EvidenceState * EvidenceEvent }.

Definition TRANSITIONS : list ((EvidenceState * EvidenceEvent) * EvidenceState) :=
  [ ((REQUESTED, OBSERVE), OBSERVED);
    ((REQUESTED, ABSTAIN), ABSTAINED);
    ((OBSERVED, VALIDATE), VALIDATED);
    ((OBSERVED, REJECT), REJECTED);
    ((VALIDATED, ADMIT), CONTRIBUTING);
    ((VALIDATED, REFER), MANUAL_REVIEW);
    ((MANUAL_REVIEW, ADMIT), CONTRIBUTING);
    ((MANUAL_REVIEW, DISMISS), REJECTED) ].

Definition INITIAL_STATE : EvidenceState := REQUESTED.

#[export] Instance evidence_lifecycle : Lifecycle EvidenceState EvidenceEvent :=
  {| lc_table := TRANSITIONS; lc_initial := INITIAL_STATE; lc_table_wf := eq_refl |}.

Definition TERMINAL_STATES : list EvidenceState :=
  lc_terminal (S := EvidenceState) (E := EvidenceEvent).

Definition transition (s : EvidenceState) (e : EvidenceEvent) : result EvidenceError EvidenceState :=
  match lc_get s e with
  | None => Err {| refusal := TRANSITION; value := (s, e) |}
  | Some target => Ok target
  end.

Definition is_terminal (s : EvidenceState) : bool := bool_decide (s ∈ TERMINAL_STATES).

(** A rank every edge decreases. *)
Definition rank (s : EvidenceState) : nat :=
  match s with REQUESTED => 4 | OBSERVED => 3 | VALIDATED => 2 | MANUAL_REVIEW => 1 | _ => 0 end.

Lemma evidence_rank_step s e s' : lc_get s e = Some s' → (rank s' < rank s)%nat.
Proof. table_cases. Qed.

(** A run of the machine, as the producer applies it. *)
Definition run (es : list EvidenceEvent) : result EvidenceError EvidenceState :=
  fold_ok transition INITIAL_STATE es.

Lemma run_lc s es s' : fold_ok transition s es = Ok s' ↔ lc_run s es = Some s'.
Proof.
  revert s; induction es as [|e es IH]; intros s; cbn [fold_ok lc_run]; [split; congruence|].
  assert (Ht : transition s e = match lc_get s e with
    | None => Err {| refusal := TRANSITION; value := (s, e) |} | Some t => Ok t end) by done.
  rewrite Ht. destruct (lc_get s e); [apply IH | split; intros [=]].
Qed.

(** Every run is one of the finitely many event sequences of at most four events. *)
Lemma evidence_run_length es s : run es = Ok s → (length es ≤ 4)%nat.
Proof.
  unfold run. rewrite run_lc. intros H. apply (lc_run_bounded rank evidence_rank_step) in H.
  cbn in H. lia.
Qed.

(** ** Properties *)

(** Every accepted history, in the order of its length. *)
Definition HISTORIES : list (list EvidenceEvent * EvidenceState) :=
  [ ([], REQUESTED);
    ([OBSERVE], OBSERVED); ([ABSTAIN], ABSTAINED);
    ([OBSERVE; VALIDATE], VALIDATED); ([OBSERVE; REJECT], REJECTED);
    ([OBSERVE; VALIDATE; ADMIT], CONTRIBUTING); ([OBSERVE; VALIDATE; REFER], MANUAL_REVIEW);
    ([OBSERVE; VALIDATE; REFER; ADMIT], CONTRIBUTING); ([OBSERVE; VALIDATE; REFER; DISMISS], REJECTED) ].

(** An evidence item has nine possible histories and no other: it contributes only after it
    was observed, validated and admitted, an abstention is the first and last thing an agent
    says, a rejection needs an observation, and every refusal names the state and the event. *)
Lemma evidence_histories es s :
  (run es = Ok s ↔ (es, s) ∈ HISTORIES) ∧
  (∀ e s', transition s e = Ok s' → is_terminal s = false ∧ s' ≠ INITIAL_STATE) ∧
  (is_terminal s = true → ∀ e, transition s e = Err {| refusal := TRANSITION; value := (s, e) |}) ∧
  (is_terminal s = false → ∃ e s', transition s e = Ok s').
Proof.
  split; [|split; [|split]].
  - split.
    + intros Hr. pose proof (evidence_run_length _ _ Hr) as Hl.
      destruct es as [|e1 [|e2 [|e3 [|e4 [|? ?]]]]]; cbn in Hl; try lia.
      * injection Hr as <-. left.
      * destruct e1; try discriminate Hr; injection Hr as <-;
          by apply (bool_decide_eq_true_1 (_ ∈ HISTORIES)).
      * destruct e1; try discriminate Hr; destruct e2; try discriminate Hr; injection Hr as <-;
          by apply (bool_decide_eq_true_1 (_ ∈ HISTORIES)).
      * destruct e1; try discriminate Hr; destruct e2; try discriminate Hr;
          destruct e3; try discriminate Hr; injection Hr as <-;
          by apply (bool_decide_eq_true_1 (_ ∈ HISTORIES)).
      * destruct e1; try discriminate Hr; destruct e2; try discriminate Hr;
          destruct e3; try discriminate Hr; destruct e4; try discriminate Hr; injection Hr as <-;
          by apply (bool_decide_eq_true_1 (_ ∈ HISTORIES)).
    + intros Hin. repeat (apply elem_of_cons in Hin as [[= -> ->]|Hin]; [done|]).
      by apply elem_of_nil in Hin.
  - intros e s'. by destruct s, e; intros [= <-].
  - by destruct s; intros [=] [].
  - destruct s; intros [=].
    + by exists OBSERVE, OBSERVED.
    + by exists VALIDATE, VALIDATED.
    + by exists ADMIT, CONTRIBUTING.
    + by exists ADMIT, CONTRIBUTING.
Qed.

Lemma evidence_histories_witness :
  transition CONTRIBUTING ADMIT = Err {| refusal := TRANSITION; value := (CONTRIBUTING, ADMIT) |}.
Proof. exact (proj1 (proj2 (proj2 (evidence_histories [] CONTRIBUTING))) eq_refl ADMIT). Defined.
