(* ===== verification/Outbox.v ===== *)
(** * The outbox publication lifecycle

    [packages/domain/src/aerial_rescue_domain/outbox.py]: what is known about one staged
    command's publication.  Ambiguity never confirms and confirmation is final. *)

From S2P Require Import Prelude Lifecycle.

Inductive OutboxState : Set := STAGED | RECONCILIATION_NEEDED | CONFIRMED.
Inductive OutboxEvent : Set := CONFIRM | AMBIGUOUS.
Inductive OutboxRefusal : Set := TRANSITION.

#[export] Instance OutboxState_eq_dec : EqDecision OutboxState.
Proof. solve_decision. Defined.
#[export] Instance OutboxEvent_eq_dec : EqDecision OutboxEvent.
Proof. solve_decision. Defined.
#[export] Program Instance OutboxState_finite : Finite OutboxState :=
  {| enum := [STAGED; RECONCILIATION_NEEDED; CONFIRMED] |}.
Solve All Obligations with solve_finite.

Record OutboxError : Set := { refusal : OutboxRefusal; value : OutboxState * OutboxEvent }.

Definition TRANSITIONS : list ((OutboxState * OutboxEvent) * OutboxState) :=
  [ ((STAGED, CONFIRM), CONFIRMED);
    ((STAGED, AMBIGUOUS), RECONCILIATION_NEEDED);
    ((RECONCILIATION_NEEDED, CONFIRM), CONFIRMED);
    ((RECONCILIATION_NEEDED, AMBIGUOUS), RECONCILIATION_NEEDED) ].

Definition INITIAL_STATE : OutboxState := STAGED.

#[export] Instance outbox_lifecycle : Lifecycle OutboxState OutboxEvent :=
  {| lc_table := TRANSITIONS; lc_initial := INITIAL_STATE; lc_table_wf := eq_refl |}.

Definition TERMINAL_STATES : list OutboxState := lc_terminal (S := OutboxState) (E := OutboxEvent).

Definition transition (s : OutboxState) (e : OutboxEvent) : result OutboxError OutboxState :=
  match lc_get s e with
  | None => Err {| refusal := TRANSITION; value := (s, e) |}
  | Some target => Ok target
  end.

Definition is_terminal (s : OutboxState) : bool := bool_decide (s ∈ TERMINAL_STATES).

(** What a reader of the attempt log would conclude: confirmed exactly when the last report
    is a confirmation and no earlier one was. *)
Definition log_state (log : list OutboxEvent) : option OutboxState :=
  match reverse log with
  | [] => Some STAGED
  | e :: earlier =>
      if decide (CONFIRM ∈ earlier) then None
      else Some (match e with CONFIRM => CONFIRMED | AMBIGUOUS => RECONCILIATION_NEEDED end)
  end.

Lemma outbox_get s e :
  lc_get s e = match s with
               | CONFIRMED => None
               | _ => Some (match e with CONFIRM => CONFIRMED | AMBIGUOUS => RECONCILIATION_NEEDED end)
               end.
Proof. by destruct s, e. Qed.

Lemma outbox_transition_get s e s' : transition s e = Ok s' ↔ lc_get s e = Some s'.
Proof. unfold transition. destruct (lc_get s e); split; congruence. Qed.

(** The reports on one staged command, applied in order. *)
Definition run (es : list OutboxEvent) : result OutboxError OutboxState :=
  fold_ok transition INITIAL_STATE es.

Lemma outbox_run_snoc s es e :
  fold_ok transition s (es ++ [e]) = (t ← fold_ok transition s es; transition t e).
Proof.
  revert s; induction es as [|x es IH]; intros s; cbn.
  - by destruct (transition s e).
  - destruct (transition s x); cbn; [apply IH | done].
Qed.

(** What every accepted log looks like, and that the log alone says where the entry is. *)
Lemma outbox_log es :
  ok_value (run es) = log_state es ∧ (∀ s, run es = Ok s → s ≠ CONFIRMED → CONFIRM ∉ es) ∧
  (run es = Ok CONFIRMED → ∃ k, es = replicate k AMBIGUOUS ++ [CONFIRM]).
Proof.
  unfold run, log_state. induction es as [|e es (IH&IHn&IHc)] using rev_ind.
  - split; [done|]. split; [intros ? _ _; apply not_elem_of_nil | done].
  - rewrite outbox_run_snoc, reverse_snoc.
    destruct (fold_ok transition INITIAL_STATE es) as [t|err] eqn:E; cbn in IH |- *.
    + destruct (decide (t = CONFIRMED)) as [->|Ht].
      * destruct (IHc eq_refl) as [k ->].
        rewrite decide_True by (rewrite elem_of_reverse, elem_of_app; right; left). by destruct e.
      * specialize (IHn t eq_refl Ht). rewrite decide_False by (by rewrite elem_of_reverse).
        assert (Hk : replicate (length es) AMBIGUOUS = es).
        { apply replicate_as_elem_of. split; [done|]. intros [] Hin; [by exfalso|done]. }
        assert (Hte : transition t e = Ok (match e with CONFIRM => CONFIRMED | AMBIGUOUS => RECONCILIATION_NEEDED end))
          by (apply outbox_transition_get; rewrite outbox_get; by destruct t, e).
        rewrite Hte. split; [done|]. split.
        -- intros s [= <-] Hs. destruct e; [done|].
           rewrite elem_of_app, list_elem_of_singleton. naive_solver.
        -- intros [= He]. destruct e; [|done]. exists (length es). by rewrite Hk.
    + split; [|split; by intros]. destruct (reverse es) as [|x xs] eqn:Er; [done|].
      case_decide as Hc; [|done]. by rewrite decide_True by (by right).
Qed.

Lemma outbox_ambiguous k s :
  s ≠ CONFIRMED → ∃ s', fold_ok transition s (replicate k AMBIGUOUS) = Ok s' ∧ s' ≠ CONFIRMED.
Proof.
  revert s; induction k as [|k IH]; intros s Hs; cbn [replicate fold_ok]; [eauto|].
  destruct s; [| |done]; by apply (IH RECONCILIATION_NEEDED).
Qed.

(** ** Properties *)

(** The state the outbox keeps is what its attempt log says: a log is refused exactly when it
    reports something after a confirmation, an entry is confirmed exactly when its last report
    confirms it, and any number of ambiguous reports leaves it awaiting reconciliation, never
    confirmed. *)
Lemma outbox_state_is_log es :
  ok_value (run es) = log_state es ∧
  (run es = Ok CONFIRMED ↔ ∃ k, es = replicate k AMBIGUOUS ++ [CONFIRM]) ∧
  (∀ s, is_terminal s = true ↔ s = CONFIRMED).
Proof.
  pose proof (outbox_log es) as (H1&_&H3). split; [done|]. split; [split; [done|]|].
  - intros [k ->]. unfold run. rewrite outbox_run_snoc.
    destruct (outbox_ambiguous k INITIAL_STATE) as (s'&->&Hs'); [done|]. by destruct s'.
  - intros s. destruct s; vm_compute; split; congruence.
Qed.
