(* ===== verification/Commands.v ===== *)
(** * The command dispatch lifecycle

    [packages/domain/src/aerial_rescue_domain/commands.py]: one table over six states plus one
    counted bound.  [reachable] collects every progress the gateway can reach from the initial
    one under a send budget; the invariant bounds the sends by the budget and says which
    states have been on the wire, and [run_length_bound] bounds every run. *)

From S2P Require Import Prelude Lifecycle.
Local Open Scope Z_scope.

Inductive CommandState : Set :=
| ACCEPTED | IN_FLIGHT | ACKNOWLEDGED | SUCCEEDED | FAILED | ABANDONED.
Inductive CommandEvent : Set := SEND | TIME_OUT | ACKNOWLEDGE | SUCCEED | FAIL.
Inductive CommandRefusal : Set := TRANSITION | SEND_BUDGET.

#[export] Instance CommandState_eq_dec : EqDecision CommandState.
Proof. solve_decision. Defined.
#[export] Instance CommandEvent_eq_dec : EqDecision CommandEvent.
Proof. solve_decision. Defined.
#[export] Program Instance CommandState_finite : Finite CommandState :=
  {| enum := [ACCEPTED; IN_FLIGHT; ACKNOWLEDGED; SUCCEEDED; FAILED; ABANDONED] |}.
Solve All Obligations with solve_finite.

Definition state_value (s : CommandState) : string :=
  match s with
  | ACCEPTED => "accepted" | IN_FLIGHT => "in-flight" | ACKNOWLEDGED => "acknowledged"
  | SUCCEEDED => "succeeded" | FAILED => "failed" | ABANDONED => "abandoned"
  end%string.

(** A refused operation, with the value the source attaches. *)
Inductive CommandError : Set :=
| transition_error (value : CommandState * CommandEvent)
| send_budget_error (value : Z).

Definition error_refusal (e : CommandError) : CommandRefusal :=
  match e with transition_error _ => TRANSITION | send_budget_error _ => SEND_BUDGET end.

Definition MINIMUM_SENDS : Z := 1.

Record SendBudget : Set := { max_sends : Z }.

(** The dataclass constructor and its [__post_init__]. *)
Definition new_send_budget (n : Z) : result CommandError SendBudget :=
  raise_if (n <? MINIMUM_SENDS) (send_budget_error n) ;; Ok {| max_sends := n |}.

Record CommandProgress : Set := { state : CommandState; sends : Z }.

#[export] Instance CommandProgress_eq_dec : EqDecision CommandProgress.
Proof. solve_decision. Defined.

Definition TRANSITIONS : list ((CommandState * CommandEvent) * CommandState) :=
  [ ((ACCEPTED, SEND), IN_FLIGHT);
    ((IN_FLIGHT, TIME_OUT), ACCEPTED);
    ((IN_FLIGHT, ACKNOWLEDGE), ACKNOWLEDGED);
    ((ACKNOWLEDGED, SUCCEED), SUCCEEDED);
    ((ACKNOWLEDGED, FAIL), FAILED) ].

Definition INITIAL_PROGRESS : CommandProgress := {| state := ACCEPTED; sends := 0 |}.

#[export] Instance command_lifecycle : Lifecycle CommandState CommandEvent :=
  {| lc_table := TRANSITIONS; lc_initial := ACCEPTED; lc_table_wf := eq_refl |}.

Definition TERMINAL_STATES : list CommandState :=
  lc_terminal (S := CommandState) (E := CommandEvent).

Definition advance (progress : CommandProgress) (event : CommandEvent) (budget : SendBudget)
    : result CommandError CommandProgress :=
  match lc_get (state progress) event with
  | None => Err (transition_error (state progress, event))
  | Some target =>
      if decide (event = SEND) then Ok {| state := target; sends := sends progress + 1 |}
      else if bool_decide (event = TIME_OUT) && (max_sends budget <=? sends progress)
           then Ok {| state := ABANDONED; sends := sends progress |}
           else Ok {| state := target; sends := sends progress |}
  end.

Definition is_terminal (s : CommandState) : bool := bool_decide (s ∈ TERMINAL_STATES).

(** ** Runs under one budget *)

Definition advances (b : SendBudget) (p p' : CommandProgress) : Prop :=
  ∃ e, advance p e b = Ok p'.

Definition run (b : SendBudget) (p : CommandProgress) (es : list CommandEvent)
    : result CommandError CommandProgress :=
  fold_ok (λ p e, advance p e b) p es.

(** Every success of [advance], one case per row of the table. *)
Lemma advance_cases p e b p' :
  advance p e b = Ok p' ↔
  (state p = ACCEPTED ∧ e = SEND ∧ p' = {| state := IN_FLIGHT; sends := sends p + 1 |}) ∨
  (state p = IN_FLIGHT ∧ e = TIME_OUT ∧ max_sends b ≤ sends p
     ∧ p' = {| state := ABANDONED; sends := sends p |}) ∨
  (state p = IN_FLIGHT ∧ e = TIME_OUT ∧ sends p < max_sends b
     ∧ p' = {| state := ACCEPTED; sends := sends p |}) ∨
  (state p = IN_FLIGHT ∧ e = ACKNOWLEDGE ∧ p' = {| state := ACKNOWLEDGED; sends := sends p |}) ∨
  (state p = ACKNOWLEDGED ∧ e = SUCCEED ∧ p' = {| state := SUCCEEDED; sends := sends p |}) ∨
  (state p = ACKNOWLEDGED ∧ e = FAIL ∧ p' = {| state := FAILED; sends := sends p |}).
Proof.
  destruct p as [s n], b as [m]; unfold advance; cbn [state sends max_sends].
  split.
  - destruct s, e; table_get; try discriminate; cbn -[Z.leb];
      try destruct (m <=? n) eqn:?; intros [= <-]; bools; naive_solver.
  - intros Hc; repeat destruct Hc as [Hc|Hc]; destruct_and!; simplify_eq/=; table_get; try done; cbn -[Z.leb].
    + by rewrite (proj2 (Z.leb_le _ _)).
    + by rewrite (proj2 (Z.leb_gt _ _)).
Qed.

(** What holds of every progress reached under a legal budget. *)
Definition progress_ok (b : SendBudget) (p : CommandProgress) : Prop :=
  0 ≤ sends p ≤ max_sends b ∧
  match state p with
  | ACCEPTED => sends p < max_sends b
  | ABANDONED => sends p = max_sends b
  | _ => 1 ≤ sends p
  end.

Lemma progress_ok_initial b : 1 ≤ max_sends b → progress_ok b INITIAL_PROGRESS.
Proof. unfold progress_ok; cbn; lia. Qed.

Lemma progress_ok_advance b p e p' : progress_ok b p → advance p e b = Ok p' → progress_ok b p'.
Proof.
  unfold progress_ok. destruct p as [s n]. intros [Hn Hs] Ha%advance_cases; cbn [state sends] in *.
  repeat destruct Ha as [Ha|Ha]; destruct_and!; subst; cbn in *; lia.
Qed.

(** The work left: each remaining send costs two events. *)
Definition measure (b : SendBudget) (p : CommandProgress) : nat :=
  match state p with
  | ACCEPTED => Z.to_nat (2 * (max_sends b - sends p) + 2)
  | IN_FLIGHT => Z.to_nat (2 * (max_sends b - sends p) + 3)
  | ACKNOWLEDGED => 1
  | _ => 0
  end.

Lemma measure_decreases b p e p' :
  progress_ok b p → advance p e b = Ok p' → (measure b p' < measure b p)%nat.
Proof.
  unfold progress_ok, measure. destruct p as [s n]. intros [Hn Hs] Ha%advance_cases; cbn [state sends] in *.
  repeat destruct Ha as [Ha|Ha]; destruct_and!; subst; cbn in *; lia.
Qed.

Lemma run_measure b p es p' :
  progress_ok b p → run b p es = Ok p' → progress_ok b p' ∧ (length es + measure b p' ≤ measure b p)%nat.
Proof.
  unfold run. revert p; induction es as [|e es IH]; intros p Hp; cbn [fold_ok].
  - intros [= <-]. cbn. split; [done | lia].
  - intros (p1&Ha&Hr)%bind_Ok. pose proof (measure_decreases _ _ _ _ Hp Ha).
    apply IH in Hr as [Hok Hlen]; [|by eapply progress_ok_advance]. split; [done|cbn; lia].
Qed.

(** ** Properties *)

(** However the gateway's events arrive, a command never goes on the wire more often than its
    budget allows; it is abandoned only with the budget spent, it succeeds or fails only after it
    was sent at least once, and no run is longer than two events per budgeted send plus two. *)
Lemma command_dispatch_bounded (b : SendBudget) (es : list CommandEvent) (p : CommandProgress) :
  new_send_budget (max_sends b) = Ok b → run b INITIAL_PROGRESS es = Ok p →
  0 ≤ sends p ≤ max_sends b ∧
  (state p = ABANDONED → sends p = max_sends b) ∧
  (state p = SUCCEEDED ∨ state p = FAILED → 1 ≤ sends p) ∧
  Z.of_nat (length es) ≤ 2 * max_sends b + 2.
Proof.
  unfold new_send_budget. intros Hb Hr. run_ok. bools. unfold MINIMUM_SENDS in *.
  apply run_measure in Hr as [[Hs Hst] Hlen]; [|by apply progress_ok_initial].
  split; [done|]. split; [intros E; by rewrite E in Hst|].
  split; [intros [E|E]; by rewrite E in Hst|]. cbn in Hlen. lia.
Qed.

Lemma command_dispatch_bounded_witness :
  let b := {| max_sends := 2 |} in
  0 ≤ 2 ≤ max_sends b ∧ (ABANDONED = ABANDONED → 2 = max_sends b) ∧
  (ABANDONED = SUCCEEDED ∨ ABANDONED = FAILED → 1 ≤ 2) ∧ Z.of_nat 4 ≤ 2 * max_sends b + 2.
Proof.
  exact (command_dispatch_bounded {| max_sends := 2 |} [SEND; TIME_OUT; SEND; TIME_OUT]
           {| state := ABANDONED; sends := 2 |} eq_refl eq_refl).
Defined.

(** A command is reported succeeded or failed only from the acknowledged state, an ending is
    exactly a state no event leaves, and an ending absorbs every later event with a refusal that
    names the state and the event. *)
Lemma command_endings (b : SendBudget) (p p' : CommandProgress) (e : CommandEvent) :
  (advance p e b = Ok p' → state p' = SUCCEEDED ∨ state p' = FAILED → state p = ACKNOWLEDGED) ∧
  (is_terminal (state p) = true ↔ state p ∈ [SUCCEEDED; FAILED; ABANDONED]) ∧
  (is_terminal (state p) = true → advance p e b = Err (transition_error (state p, e))) ∧
  (is_terminal (state p) = false → ∃ e p', advance p e b = Ok p').
Proof.
  split; [|split; [|split]].
  - intros Ha%advance_cases. repeat destruct Ha as [Ha|Ha]; destruct_and!; subst; cbn; naive_solver.
  - destruct p as [s n]; cbn. rewrite !elem_of_cons, elem_of_nil. destruct s; vm_compute; naive_solver.
  - intros Ht. apply (lc_is_terminal_spec (E := CommandEvent)) with (e := e) in Ht.
    unfold advance. by rewrite Ht.
  - intros Ht. destruct p as [s n]. cbn [state] in Ht.
    destruct s; try discriminate Ht.
    + exists SEND; eexists; done.
    + exists ACKNOWLEDGE; eexists; done.
    + exists SUCCEED; eexists; done.
Qed.

Lemma command_endings_witness :
  let p := {| state := ACKNOWLEDGED; sends := 1 |} in
  state p = ACKNOWLEDGED.
Proof.
  apply (proj1 (command_endings {| max_sends := 3 |} {| state := ACKNOWLEDGED; sends := 1 |}
    {| state := FAILED; sends := 1 |} FAIL)); [reflexivity | right; reflexivity].
Defined.

(** The budget is read by one edge only, so any other event ignores it. *)
Lemma advance_budget_blind p e b b' : e ≠ TIME_OUT → advance p e b = advance p e b'.
Proof.
  intros He. unfold advance. destruct (lc_get (state p) e); [|done].
  case_decide; [done|]. by rewrite bool_decide_false.
Qed.
