(* ===== verification/Connectivity.v ===== *)
(** * The drone connectivity counter

    [packages/domain/src/aerial_rescue_domain/connectivity.py]: three link states and two
    streaks.  One observation per interval, so a history is a list of booleans.  The theorems
    characterise the state a history leaves by the trailing streak of that history. *)

From S2P Require Import Prelude.
Local Open Scope Z_scope.

Inductive ConnectivityState : Set := CONNECTED | DEGRADED | OFFLINE.
Inductive ConnectivityRefusal : Set := MISS_THRESHOLDS | RECOVERY_COUNT.

#[export] Instance ConnectivityState_eq_dec : EqDecision ConnectivityState.
Proof. solve_decision. Defined.

Definition state_value (s : ConnectivityState) : string :=
  match s with CONNECTED => "connected" | DEGRADED => "degraded" | OFFLINE => "offline" end%string.

Inductive ConnectivityError : Set :=
| miss_thresholds_error (value : Z * Z)
| recovery_count_error (value : Z).

Definition MINIMUM_COUNT : Z := 1.

Record ConnectivityThresholds : Set := {
  misses_to_degraded : Z;
  misses_to_offline : Z;
  heartbeats_to_recover : Z
}.

Record ConnectivityStatus : Set := {
  state : ConnectivityState;
  consecutive_misses : Z;
  consecutive_heartbeats : Z
}.

#[export] Instance ConnectivityStatus_eq_dec : EqDecision ConnectivityStatus.
Proof. solve_decision. Defined.

Definition INITIAL_STATUS : ConnectivityStatus :=
  {| state := CONNECTED; consecutive_misses := 0; consecutive_heartbeats := 0 |}.

Definition check_thresholds (t : ConnectivityThresholds) : result ConnectivityError unit :=
  raise_if (negb ((MINIMUM_COUNT <=? misses_to_degraded t)
                  && (misses_to_degraded t <? misses_to_offline t)))
           (miss_thresholds_error (misses_to_degraded t, misses_to_offline t)) ;;
  raise_if (heartbeats_to_recover t <? MINIMUM_COUNT)
           (recovery_count_error (heartbeats_to_recover t)).

(** The dataclass constructor and its [__post_init__]. *)
Definition new_thresholds (d o r : Z) : result ConnectivityError ConnectivityThresholds :=
  let t := {| misses_to_degraded := d; misses_to_offline := o; heartbeats_to_recover := r |} in
  check_thresholds t ;; Ok t.

Definition heartbeat_missed (status : ConnectivityStatus) (t : ConnectivityThresholds)
    : ConnectivityStatus :=
  let misses := consecutive_misses status + 1 in
  let state' :=
    if bool_decide (state status = OFFLINE) || (misses_to_offline t <=? misses) then OFFLINE
    else if bool_decide (state status = DEGRADED) || (misses_to_degraded t <=? misses) then DEGRADED
    else CONNECTED in
  {| state := state'; consecutive_misses := misses; consecutive_heartbeats := 0 |}.

Definition heartbeat_received (status : ConnectivityStatus) (t : ConnectivityThresholds)
    : ConnectivityStatus :=
  let heartbeats := consecutive_heartbeats status + 1 in
  let recovered := heartbeats_to_recover t <=? heartbeats in
  let state' := if recovered then CONNECTED else state status in
  {| state := state'; consecutive_misses := 0; consecutive_heartbeats := heartbeats |}.

(** ** Histories: [true] is an observed heartbeat, newest last *)

Definition observe (t : ConnectivityThresholds) (s : ConnectivityStatus) (heartbeat : bool) :=
  if heartbeat then heartbeat_received s t else heartbeat_missed s t.

Definition observe_all (t : ConnectivityThresholds) (s : ConnectivityStatus) (h : list bool) :=
  foldl (observe t) s h.

(** Ordinal badness of a link. *)
Definition severity (s : ConnectivityState) : Z :=
  match s with CONNECTED => 0 | DEGRADED => 1 | OFFLINE => 2 end.

(** How many of the newest observations equal [b], newest first. *)
Fixpoint streak (b : bool) (newest_first : list bool) : Z :=
  match newest_first with
  | [] => 0
  | x :: l => if Bool.eqb x b then 1 + streak b l else 0
  end.

Lemma streak_nonneg b l : 0 ≤ streak b l.
Proof. induction l as [|x l IH]; cbn; [lia|]. destruct (Bool.eqb x b); lia. Qed.

Lemma thresholds_ok d o r t :
  new_thresholds d o r = Ok t →
  t = {| misses_to_degraded := d; misses_to_offline := o; heartbeats_to_recover := r |}
  ∧ 1 ≤ d < o ∧ 1 ≤ r.
Proof.
  unfold new_thresholds, check_thresholds, MINIMUM_COUNT. cbn zeta. intros H. run_ok. subst.
  cbn in *. bools. split; [done|]. lia.
Qed.

Lemma observe_all_snoc t s h b : observe_all t s (h ++ [b]) = observe t (observe_all t s h) b.
Proof. unfold observe_all. by rewrite foldl_app. Qed.

(** The streak counters are exactly the trailing streaks of the history. *)
Lemma observe_streaks t h :
  let s := observe_all t INITIAL_STATUS h in
  consecutive_misses s = streak false (reverse h) ∧
  consecutive_heartbeats s = streak true (reverse h).
Proof.
  cbn zeta. induction h as [|b h IH] using rev_ind; [done|].
  rewrite observe_all_snoc, reverse_snoc. destruct IH as [Hm Hh].
  destruct b; cbn -[observe_all]; rewrite ?Hm, ?Hh; split; lia.
Qed.

(** One miss never improves a link and one heartbeat never worsens it. *)
Lemma missed_severity t s : severity (state s) ≤ severity (state (heartbeat_missed s t)).
Proof.
  destruct s as [[] m k]; unfold heartbeat_missed; cbn -[Z.leb];
    repeat case_match; bools; cbn; try done; lia.
Qed.

Lemma received_severity t s : severity (state (heartbeat_received s t)) ≤ severity (state s).
Proof.
  destruct s as [[] m k]; unfold heartbeat_received; cbn -[Z.leb];
    repeat case_match; bools; cbn; try done; lia.
Qed.

(** For every history of heartbeats and misses and every accepted threshold record, the state
    machine's two counters are the history's trailing streaks; a trailing run of misses at least
    as long as a threshold puts the link at least that far down, a trailing run of heartbeats as
    long as the recovery count reconnects it, a miss never improves the link and a heartbeat never
    worsens it. *)
Lemma connectivity_follows_streaks d o r t (h : list bool) :
  new_thresholds d o r = Ok t →
  let s := observe_all t INITIAL_STATUS h in
  consecutive_misses s = streak false (reverse h) ∧
  consecutive_heartbeats s = streak true (reverse h) ∧
  (o ≤ streak false (reverse h) → state s = OFFLINE) ∧
  (d ≤ streak false (reverse h) → state s ≠ CONNECTED) ∧
  (r ≤ streak true (reverse h) → state s = CONNECTED) ∧
  severity (state s) ≤ severity (state (observe t s false)) ∧
  severity (state (observe t s true)) ≤ severity (state s).
Proof.
  intros Ht. apply thresholds_ok in Ht as (->&Hd&Hr). set (t := {| misses_to_degraded := d |}).
  cbn zeta. destruct (observe_streaks t h) as [Hm Hk].
  repeat split; [done | done | | | | apply missed_severity | apply received_severity].
  all: clear Hm Hk; destruct h as [|b h _] using rev_ind; [cbn; lia|].
  all: rewrite observe_all_snoc, reverse_snoc; destruct (observe_streaks t h) as [Hm Hk].
  all: destruct b; cbn -[Z.leb]; rewrite ?Hm, ?Hk; intros Hle; try lia.
  - by rewrite (proj2 (Z.leb_le _ _)), orb_true_r by lia.
  - repeat case_match; try done. bools. lia.
  - by rewrite (proj2 (Z.leb_le _ _)) by lia.
Qed.

Lemma connectivity_follows_streaks_witness :
  let t := {| misses_to_degraded := 2; misses_to_offline := 3; heartbeats_to_recover := 2 |} in
  let s := observe_all t INITIAL_STATUS [false; false; false] in
  consecutive_misses s = streak false (reverse [false; false; false]) ∧
  consecutive_heartbeats s = streak true (reverse [false; false; false]) ∧
  (3 ≤ streak false (reverse [false; false; false]) → state s = OFFLINE) ∧
  (2 ≤ streak false (reverse [false; false; false]) → state s ≠ CONNECTED) ∧
  (2 ≤ streak true (reverse [false; false; false]) → state s = CONNECTED) ∧
  severity (state s) ≤ severity (state (observe t s false)) ∧
  severity (state (observe t s true)) ≤ severity (state s).
Proof. apply (connectivity_follows_streaks 2 3 2). reflexivity. Defined.
