(* ===== verification/Idempotency.v ===== *)
(** * Producer-scoped sequences and the known-identifier decision

    [packages/domain/src/aerial_rescue_domain/idempotency.py].  A producer's stream keeps a
    high-water mark; feeding it any arrival order accepts exactly the strict running maxima. *)

From S2P Require Import Prelude.
From stdpp Require Import sorting.
Local Open Scope Z_scope.

Inductive SequenceVerdict : Set := ADVANCES | DUPLICATE | STALE.

#[export] Instance SequenceVerdict_eq_dec : EqDecision SequenceVerdict.
Proof. solve_decision. Defined.

Record Stream : Set := { last_accepted : option Z }.
Record Reception : Set := { verdict : SequenceVerdict; stream : Stream }.

Inductive IdempotencyKind : Set :=
| COMMAND | APPROVAL_CONSUMPTION | DASHBOARD_COMMAND | DASHBOARD_DECISION.
Inductive IdempotencyDecision : Set := EXECUTE | RETURN_PRIOR_RESULT | DENY.

#[export] Instance IdempotencyKind_eq_dec : EqDecision IdempotencyKind.
Proof. solve_decision. Defined.

Definition DASHBOARD_IDEMPOTENCY_KINDS : list IdempotencyKind :=
  [DASHBOARD_COMMAND; DASHBOARD_DECISION].

Definition receive (s : Stream) (sequence : Z) : Reception :=
  match last_accepted s with
  | None => {| verdict := ADVANCES; stream := {| last_accepted := Some sequence |} |}
  | Some last =>
      if last <? sequence then
        {| verdict := ADVANCES; stream := {| last_accepted := Some sequence |} |}
      else if sequence =? last then {| verdict := DUPLICATE; stream := s |}
      else {| verdict := STALE; stream := s |}
  end.

Definition idempotency_decision (kind : IdempotencyKind) (known : bool) : IdempotencyDecision :=
  if negb known then EXECUTE
  else if bool_decide (kind = APPROVAL_CONSUMPTION) then DENY
  else RETURN_PRIOR_RESULT.

(** A stream moves forward only. *)
Definition forward (a b : option Z) : Prop :=
  match a, b with None, _ => True | Some m, Some n => m ≤ n | Some _, None => False end.

#[export] Instance forward_preorder : PreOrder forward.
Proof.
  split; [intros [n|]; cbn; lia || done|]. intros [a|] [b|] [c|]; cbn; lia || done.
Qed.

(** ** A consumer's loop: every arrival is judged and the stream carried forward *)

Definition carry (s : Stream) (arrivals : list Z) : Stream :=
  foldl (λ s n, stream (receive s n)) s arrivals.

(** The sequences the consumer acts on. *)
Fixpoint accepted (s : Stream) (arrivals : list Z) : list Z :=
  match arrivals with
  | [] => []
  | n :: arrivals =>
      let r := receive s n in
      (match verdict r with ADVANCES => [n] | _ => [] end) ++ accepted (stream r) arrivals
  end.

(** The reference: an element is kept exactly when it exceeds everything before it. *)
Fixpoint running_maxima (bound : option Z) (l : list Z) : list Z :=
  match l with
  | [] => []
  | n :: l =>
      if match bound with None => true | Some m => m <? n end
      then n :: running_maxima (Some n) l
      else running_maxima bound l
  end.

Lemma accepted_running_maxima s l : accepted s l = running_maxima (last_accepted s) l.
Proof.
  revert s; induction l as [|n l IH]; intros [b]; cbn [accepted running_maxima]; [done|].
  unfold receive; cbn [last_accepted]. destruct b as [m|]; [|cbn; by rewrite IH].
  destruct (m <? n) eqn:E; [cbn; by rewrite IH|].
  destruct (n =? m); cbn; by rewrite IH.
Qed.

Lemma running_maxima_above b l n :
  n ∈ running_maxima b l → match b with None => True | Some m => m < n end.
Proof.
  revert b; induction l as [|x l IH]; intros b; cbn; [by intros ?%elem_of_nil|].
  destruct b as [m|]; [|done]. destruct (m <? x) eqn:E; bools.
  - intros [->|Hn%IH]%elem_of_cons; lia.
  - intros Hn%IH. done.
Qed.

Lemma running_maxima_sorted b l : StronglySorted Z.lt (running_maxima b l).
Proof.
  revert b; induction l as [|x l IH]; intros b; cbn; [constructor|].
  case_match; [|apply IH]. constructor; [apply IH|].
  apply List.Forall_forall. intros y Hy%list_elem_of_In%running_maxima_above. done.
Qed.

Lemma running_maxima_dominated m l : Forall (λ n, n ≤ m) l → running_maxima (Some m) l = [].
Proof.
  induction 1 as [|n l Hn _ IH]; cbn; [done|]. by rewrite (proj2 (Z.ltb_ge m n)) by done.
Qed.

(** The mark never falls and covers the sequence just judged. *)
Lemma receive_mark s n :
  ∃ m, last_accepted (stream (receive s n)) = Some m ∧ n ≤ m ∧
       ∀ m0, last_accepted s = Some m0 → m0 ≤ m.
Proof.
  unfold receive. destruct (last_accepted s) as [m|] eqn:E; [|by exists n].
  destruct (m <? n) eqn:E1; bools; [exists n; cbn; naive_solver lia|].
  exists m. destruct (n =? m); cbn; naive_solver lia.
Qed.

Lemma carry_mark s l :
  (∀ m0, last_accepted s = Some m0 → ∃ m, last_accepted (carry s l) = Some m ∧ m0 ≤ m) ∧
  (l = [] ∨ ∃ m, last_accepted (carry s l) = Some m ∧ Forall (λ n, n ≤ m) l).
Proof.
  revert s; induction l as [|n l IH]; intros s; cbn [carry foldl].
  - split; [intros m0 Hm; exists m0; split; [done|lia] | by left].
  - destruct (receive_mark s n) as (m&Hm&Hn&Hle).
    destruct (IH (stream (receive s n))) as [Hmono Hall].
    destruct (Hmono m Hm) as (m'&Hm'&Hmm). split.
    + intros m0 Hm0%Hle. exists m'. split; [done|lia].
    + right. exists m'. split; [done|]. constructor; [lia|].
      destruct Hall as [->|(m2&Hm2&Hall)]; [done|]. unfold carry in *. by simplify_eq.
Qed.

(** Whatever order a producer's events arrive in, duplicated or reordered, the consumer acts
    on a strictly increasing sequence, which is exactly the running maxima of the arrivals; feeding
    it the same arrivals again is accepted nowhere. *)
Lemma sequence_admission_monotone (arrivals : list Z) :
  let s0 := {| last_accepted := None |} in
  accepted s0 arrivals = running_maxima None arrivals ∧
  StronglySorted Z.lt (accepted s0 arrivals) ∧
  accepted (carry s0 arrivals) arrivals = [].
Proof.
  cbn zeta. rewrite !accepted_running_maxima. split; [done|].
  split; [apply running_maxima_sorted|].
  destruct (carry_mark {| last_accepted := None |} arrivals) as [_ [->|(m&->&Hall)]]; [done|].
  by apply running_maxima_dominated.
Qed.

(** The first sight of an identifier executes; afterwards every repeatable operation returns
    its prior result and an approval consumption alone is denied. *)
Theorem idempotency_decision_spec (kind : IdempotencyKind) (known : bool) :
  (idempotency_decision kind known = EXECUTE ↔ known = false) ∧
  (idempotency_decision kind known = DENY ↔ known = true ∧ kind = APPROVAL_CONSUMPTION) ∧
  (idempotency_decision kind known = RETURN_PRIOR_RESULT ↔
     known = true ∧ kind ≠ APPROVAL_CONSUMPTION).
Proof. destruct kind, known; cbn; naive_solver. Qed.
