(* ===== verification/Instant.v ===== *)
(** * Canonical instants, and instants as microseconds

    First the canonical text of [instant.py], then the microseconds it stands for.
    The approval protocol subtracts and compares aware [datetime]s; [Approvals] does so on the
    microseconds since 0001-01-01T00:00Z.  This file is the bijection between the two: the
    proleptic Gregorian calendar of the [datetime] module. *)

From S2P Require Import Prelude Regex PyStr PyVal.
Local Open Scope string_scope.
Local Open Scope Z_scope.

(** ** The canonical instant

    [packages/contracts/src/aerial_rescue_contracts/instant.py]: [YYYY-MM-DDTHH:MM:SS.sssZ]
    and nothing else.  [parse_instant] matches [INSTANT_PATTERN] and then reads the fields by
    position as [strptime] does, refusing a date outside the Gregorian calendar;
    [format_instant] writes an aware UTC datetime, flooring to the millisecond.  The theorems
    are the two round trips. *)

(** A [datetime]: [offset] is [None] for a naive value, else the UTC offset in microseconds. *)
Record datetime : Set := {
  year : Z; month : Z; day : Z;
  hour : Z; minute : Z; second : Z; microsecond : Z;
  offset : option Z
}.

#[export] Instance datetime_eq_dec : EqDecision datetime.
Proof. solve_decision. Defined.

Definition one_of (lo hi : ascii) : re := RChr (in_range lo hi).
Definition DIGIT : re := RChr is_digit.

Definition MONTH : re := RAlt (RSeq (lit "0") (one_of "1" "9")) (RSeq (lit "1") (one_of "0" "2")).
Definition DAY : re :=
  RAlt (RSeq (lit "0") (one_of "1" "9"))
       (RAlt (RSeq (one_of "1" "2") DIGIT) (RSeq (lit "3") (one_of "0" "1"))).
Definition HOUR : re := RAlt (RSeq (one_of "0" "1") DIGIT) (RSeq (lit "2") (one_of "0" "3")).
Definition SIXTY : re := RSeq (one_of "0" "5") DIGIT.

(** [^(?!0000)[0-9]{4}-(?:0[1-9]|1[0-2])-(?:0[1-9]|[12][0-9]|3[01])T(?:[01][0-9]|2[0-3]):...Z$] *)
Definition INSTANT_PATTERN : re :=
  not_ahead (lit "0000")
    (seqs [rep 4 DIGIT; lit "-"; MONTH; lit "-"; DAY; lit "T"; HOUR; lit ":"; SIXTY; lit ":";
           SIXTY; lit "."; rep 3 DIGIT; lit "Z"]).

Inductive InstantRefusal : Set := UNSUPPORTED_TYPE | FORM | CALENDAR | NAIVE | NOT_UTC.

(** [InstantError(refusal, value)]: the candidate for [parse_instant], the datetime for
    [format_instant]. *)
Record InstantError (V : Set) : Set := { refusal : InstantRefusal; value : V }.
Arguments refusal {V} _.
Arguments value {V} _.

(** ** The calendar *)

Definition is_leap (y : Z) : bool :=
  (y mod 4 =? 0) && (negb (y mod 100 =? 0) || (y mod 400 =? 0)).

Definition days_in_month (y m : Z) : Z :=
  if m =? 2 then (if is_leap y then 29 else 28)
  else if (m =? 4) || (m =? 6) || (m =? 9) || (m =? 11) then 30
  else 31.

(** The values [datetime] can hold. *)
Definition is_datetime (d : datetime) : bool :=
  (1 <=? year d) && (year d <=? 9999) && (1 <=? month d) && (month d <=? 12) &&
  (1 <=? day d) && (day d <=? days_in_month (year d) (month d)) &&
  (0 <=? hour d) && (hour d <=? 23) && (0 <=? minute d) && (minute d <=? 59) &&
  (0 <=? second d) && (second d <=? 59) && (0 <=? microsecond d) && (microsecond d <=? 999999).

(** ** Parsing *)

Definition field (pos len : nat) (s : string) : Z := digits_value 0 (substring pos len s).

(** [datetime.strptime(text, "%Y-%m-%dT%H:%M:%S.%fZ")] on text of the pattern: the fields sit
    at fixed positions, three fraction digits are milliseconds, and a day the month does not
    have is the [ValueError]. *)
Definition strptime (text : string) : option datetime :=
  let d := {| year := field 0 4 text; month := field 5 2 text; day := field 8 2 text;
              hour := field 11 2 text; minute := field 14 2 text; second := field 17 2 text;
              microsecond := 1000 * field 20 3 text; offset := None |} in
  if day d <=? days_in_month (year d) (month d) then Some d else None.

Definition parse_instant (v : pyval) : result (InstantError pyval) datetime :=
  match v with
  | PyStr text =>
      raise_if (negb (fullmatch INSTANT_PATTERN text)) {| refusal := FORM; value := v |} ;;
      naive ← or_raise (strptime text) {| refusal := CALENDAR; value := v |};
      Ok {| year := year naive; month := month naive; day := day naive; hour := hour naive;
            minute := minute naive; second := second naive; microsecond := microsecond naive;
            offset := Some 0 |}
  | _ => Err {| refusal := UNSUPPORTED_TYPE; value := v |}
  end.

(** ** Formatting *)

Definition format_instant (d : datetime) : result (InstantError datetime) string :=
  match offset d with
  | None => Err {| refusal := NAIVE; value := d |}
  | Some o =>
      raise_if (negb (o =? 0)) {| refusal := NOT_UTC; value := d |} ;;
      Ok (zero_padded 4 (year d) ++ "-" ++ zero_padded 2 (month d) ++ "-" ++ zero_padded 2 (day d)
          ++ "T" ++ zero_padded 2 (hour d) ++ ":" ++ zero_padded 2 (minute d) ++ ":"
          ++ zero_padded 2 (second d) ++ "." ++ zero_padded 3 (microsecond d / 1000) ++ "Z")
  end.

(** The instant at millisecond precision. *)
Definition floor_millisecond (d : datetime) : datetime :=
  {| year := year d; month := month d; day := day d; hour := hour d; minute := minute d;
     second := second d; microsecond := 1000 * (microsecond d / 1000); offset := offset d |}.

(** ** Shape of the text *)

(** [n] digits whose value lies between [lo] and [hi]. *)
Definition piece (n : nat) (lo hi : Z) (s : string) : Prop :=
  String.length s = n ∧ str_all is_digit s = true ∧ lo ≤ digits_value 0 s ≤ hi.

Lemma fixed_dec_digits_value s :
  str_all is_digit s = true → fixed_dec (String.length s) (digits_value 0 s) = s.
Proof.
  enough (∀ s acc, str_all is_digit s = true → 0 ≤ acc →
    ∀ w, fixed_dec (w + String.length s) (digits_value acc s) = fixed_dec w acc ++ s) as Hgo
    by (intros Hs; exact (Hgo s 0 Hs ltac:(lia) 0%nat)).
  clear s. induction s as [|c s IH]; intros acc Hs Ha w; cbn [digits_value String.length str_all] in *.
  - by rewrite str_app_nil_r, Nat.add_0_r.
  - bools. apply digit_value_range in H as [Hd Hc].
    replace (w + S (String.length s))%nat with (S w + String.length s)%nat by lia.
    rewrite IH by (done || lia). cbn [fixed_dec].
    replace ((10 * acc + digit_value c) / 10) with acc by (apply Z.div_unique with (digit_value c); lia).
    replace ((10 * acc + digit_value c) mod 10) with (digit_value c)
      by (apply Z.mod_unique with acc; lia).
    by rewrite Hc, <- str_app_assoc.
Qed.

Lemma piece_padded n lo hi s : piece (S n) lo hi s → zero_padded (S n) (digits_value 0 s) = s.
Proof.
  intros (Hl&Hd&_). rewrite zero_padded_fixed.
  - rewrite <- Hl. by apply fixed_dec_digits_value.
  - rewrite <- Hl. pose proof (digits_value_bound s Hd 0 ltac:(lia)). lia.
Qed.

Lemma padded_piece n lo hi v :
  0 ≤ lo → lo ≤ v ≤ hi → hi < 10 ^ Z.of_nat (S n) →
  piece (S n) lo hi (zero_padded (S n) v) ∧ digits_value 0 (zero_padded (S n) v) = v.
Proof.
  intros Hlo Hv Hhi. rewrite zero_padded_fixed by lia. unfold piece.
  rewrite fixed_dec_length, fixed_dec_digits, fixed_dec_value by lia. done.
Qed.

(** ** The pattern, field by field *)

Definition digits10 : list Z := [0; 1; 2; 3; 4; 5; 6; 7; 8; 9].

(** A two-character pattern over digits, decided by its hundred candidates. *)
Lemma two_digits r lo hi :
  max_len r = Some 2%nat → min_len r = 2%nat → (∀ c, alphabet r c = true → is_digit c = true) →
  forallb (λ a, forallb (λ b,
    Bool.eqb (fullmatch r (String (digit a) (String (digit b) "")))
             ((lo <=? 10 * a + b) && (10 * a + b <=? hi))) digits10) digits10 = true →
  ∀ s, fullmatch r s = true ↔ piece 2 lo hi s.
Proof.
  intros Hmax Hmin Halpha Hall s.
  assert (Hin : ∀ c, is_digit c = true → digit_value c ∈ digits10).
  { intros c [Hc _]%digit_value_range. unfold digits10. rewrite !elem_of_cons. lia. }
  assert (Hpair : ∀ a b, is_digit a = true → is_digit b = true →
    fullmatch r (String a (String b "")) = true ↔ lo ≤ digits_value 0 (String a (String b "")) ≤ hi).
  { intros a b Ha Hb. rewrite forallb_forall in Hall.
    specialize (Hall _ (proj1 (list_elem_of_In _ _) (Hin a Ha))). cbv beta in Hall.
    rewrite forallb_forall in Hall.
    specialize (Hall _ (proj1 (list_elem_of_In _ _) (Hin b Hb))). cbv beta in Hall.
    apply Bool.eqb_prop in Hall.
    rewrite (proj2 (digit_value_range a Ha)), (proj2 (digit_value_range b Hb)) in Hall.
    rewrite Hall, andb_true_iff, !Z.leb_le. cbn [digits_value]. lia. }
  unfold piece. split.
  - intros Hm. pose proof (fullmatch_max_len _ _ _ Hmax Hm). pose proof (fullmatch_min_len _ _ Hm).
    pose proof (fullmatch_all r s is_digit Halpha Hm) as Hd.
    destruct s as [|a [|b [|c s]]]; cbn in *; try lia. bools.
    split; [done|]. split; [by rewrite H1, H2|]. by apply Hpair.
  - intros (Hl&Hd&Hv). destruct s as [|a [|b [|c s]]]; try discriminate Hl.
    cbn in Hd. bools. by apply Hpair.
Qed.

Ltac digit_alphabet := intros c; destruct c as [[] [] [] [] [] [] [] []]; by vm_compute.

Lemma month_piece s : fullmatch MONTH s = true ↔ piece 2 1 12 s.
Proof. revert s. apply two_digits; [done | done | digit_alphabet | by vm_compute]. Qed.
Lemma day_piece s : fullmatch DAY s = true ↔ piece 2 1 31 s.
Proof. revert s. apply two_digits; [done | done | digit_alphabet | by vm_compute]. Qed.
Lemma hour_piece s : fullmatch HOUR s = true ↔ piece 2 0 23 s.
Proof. revert s. apply two_digits; [done | done | digit_alphabet | by vm_compute]. Qed.
Lemma sixty_piece s : fullmatch SIXTY s = true ↔ piece 2 0 59 s.
Proof. revert s. apply two_digits; [done | done | digit_alphabet | by vm_compute]. Qed.

Lemma rep_piece n s : lang (rep n DIGIT) s ↔ piece n 0 (10 ^ Z.of_nat n - 1) s.
Proof.
  unfold DIGIT, piece. rewrite lang_rep. split; [|tauto].
  intros [Hl Hd]. split; [done|]. split; [done|]. subst n.
  pose proof (digits_value_bound s Hd 0 ltac:(lia)). lia.
Qed.

(** The text of seven digit groups and their punctuation. *)
Definition spell (y mo d h mi s ms : string) : string :=
  y ++ "-" ++ mo ++ "-" ++ d ++ "T" ++ h ++ ":" ++ mi ++ ":" ++ s ++ "." ++ ms ++ "Z".

Definition pieces (y mo d h mi s ms : string) : Prop :=
  piece 4 1 9999 y ∧ piece 2 1 12 mo ∧ piece 2 1 31 d ∧ piece 2 0 23 h ∧ piece 2 0 59 mi ∧
  piece 2 0 59 s ∧ piece 3 0 999 ms.

Lemma not_zero_year y w :
  String.length y = 4%nat → str_all is_digit y = true →
  ¬ lang (RSeq (lit "0000") any_text) (y ++ w) ↔ digits_value 0 y ≠ 0.
Proof.
  intros Hl Hd. assert (Hz : y = "0000" ↔ digits_value 0 y = 0).
  { split; [by intros ->|]. intros Hv. rewrite <- (fixed_dec_digits_value y Hd), Hl, Hv. done. }
  rewrite <- Hz. split; intros Hn Hy; apply Hn; clear Hn.
  - subst. exists "0000", w. split; [done|]. split; [apply lang_lit | apply any_text_lang].
  - destruct Hy as (u&v&Huv&->%lang_lit_inv&_).
    destruct y as [|? [|? [|? [|? [|? ?]]]]]; try discriminate Hl. cbn in Huv. by simplify_eq.
Qed.

Lemma lit_lang p w : lang (lit p) w ↔ w = p.
Proof. split; [apply lang_lit_inv | intros ->; apply lang_lit]. Qed.

Lemma instant_shape w :
  fullmatch INSTANT_PATTERN w = true ↔
  ∃ y mo d h mi s ms, pieces y mo d h mi s ms ∧ w = spell y mo d h mi s ms.
Proof.
  rewrite fullmatch_lang. unfold INSTANT_PATTERN, not_ahead, pieces, spell.
  change (lang (RAnd (RNot ?a) ?b) w) with (¬ lang a w ∧ lang b w). rewrite lang_seqs. split.
  - intros [Hz (ps&Hps&->)].
    repeat match goal with H : Forall2 lang (_ :: _) _ |- _ =>
      apply Forall2_cons_inv_l in H as (?&?&?&?&->) end.
    match goal with H : Forall2 lang [] _ |- _ => apply Forall2_nil_inv_l in H as -> end.
    repeat match goal with H : lang (lit _) _ |- _ => apply lit_lang in H; subst end.
    repeat match goal with
    | H : lang MONTH _ |- _ => apply fullmatch_lang, month_piece in H
    | H : lang DAY _ |- _ => apply fullmatch_lang, day_piece in H
    | H : lang HOUR _ |- _ => apply fullmatch_lang, hour_piece in H
    | H : lang SIXTY _ |- _ => apply fullmatch_lang, sixty_piece in H
    | H : lang (rep _ DIGIT) _ |- _ => apply rep_piece in H
    end.
    match goal with H : piece 4 _ _ _ |- _ => destruct H as (Hl&Hdy&Hv) end.
    cbn [foldr] in Hz |- *. rewrite not_zero_year in Hz by done.
    do 7 eexists. split; [|reflexivity]. split; [split; [done|split; [done|lia]]|]. tauto.
  - intros (y&mo&d&h&mi&s&ms&((Hl&Hdy&Hv)&Hmo&Hd&Hh&Hmi&Hs&Hms)&->). split.
    + rewrite not_zero_year by done. lia.
    + exists [y; "-"; mo; "-"; d; "T"; h; ":"; mi; ":"; s; "."; ms; "Z"]. split; [|done].
      assert (Hy : piece 4 0 (10 ^ Z.of_nat 4 - 1) y) by (split; [done|split; [done|lia]]).
      apply month_piece, fullmatch_lang in Hmo. apply day_piece, fullmatch_lang in Hd.
      apply hour_piece, fullmatch_lang in Hh. apply sixty_piece, fullmatch_lang in Hmi, Hs.
      apply rep_piece in Hy, Hms.
      repeat (apply List.Forall2_cons; [first [done | by apply lit_lang]|]). apply List.Forall2_nil.
Qed.

Lemma piece_chars n lo hi s : piece n lo hi s → String.length s = n.
Proof. by intros [? _]. Qed.

(** Reading the fields back from their positions. *)
Lemma spell_fields y mo d h mi s ms :
  pieces y mo d h mi s ms →
  let w := spell y mo d h mi s ms in
  field 0 4 w = digits_value 0 y ∧ field 5 2 w = digits_value 0 mo ∧ field 8 2 w = digits_value 0 d ∧
  field 11 2 w = digits_value 0 h ∧ field 14 2 w = digits_value 0 mi ∧
  field 17 2 w = digits_value 0 s ∧ field 20 3 w = digits_value 0 ms.
Proof.
  intros (Hy&Hmo&Hd&Hh&Hmi&Hs&Hms). apply piece_chars in Hy, Hmo, Hd, Hh, Hmi, Hs, Hms.
  destruct y as [|? [|? [|? [|? [|]]]]]; try discriminate Hy.
  destruct mo as [|? [|? [|]]]; try discriminate Hmo. destruct d as [|? [|? [|]]]; try discriminate Hd.
  destruct h as [|? [|? [|]]]; try discriminate Hh. destruct mi as [|? [|? [|]]]; try discriminate Hmi.
  destruct s as [|? [|? [|]]]; try discriminate Hs. destruct ms as [|? [|? [|? [|]]]]; try discriminate Hms.
  done.
Qed.

(** ** Theorems *)

Definition at_epoch : datetime :=
  {| year := 2024; month := 2; day := 29; hour := 23; minute := 59; second := 58;
     microsecond := 999999; offset := Some 0 |}.

(** The text [format_instant] writes for an aware UTC datetime, field by field. *)
Lemma format_pieces d :
  is_datetime d = true → offset d = Some 0 →
  let y := zero_padded 4 (year d) in let mo := zero_padded 2 (month d) in
  let dd := zero_padded 2 (day d) in let h := zero_padded 2 (hour d) in
  let mi := zero_padded 2 (minute d) in let s := zero_padded 2 (second d) in
  let ms := zero_padded 3 (microsecond d / 1000) in
  format_instant d = Ok (spell y mo dd h mi s ms) ∧ pieces y mo dd h mi s ms ∧
  digits_value 0 y = year d ∧ digits_value 0 mo = month d ∧ digits_value 0 dd = day d ∧
  digits_value 0 h = hour d ∧ digits_value 0 mi = minute d ∧ digits_value 0 s = second d ∧
  digits_value 0 ms = microsecond d / 1000.
Proof.
  intros Hd Ho. unfold is_datetime in Hd. bools. cbn zeta.
  assert (Hdim : days_in_month (year d) (month d) ≤ 31) by (unfold days_in_month; repeat case_match; lia).
  assert (Hms : 0 ≤ microsecond d / 1000 ≤ 999).
  { split; [apply Z.div_pos; lia|]. apply Z.lt_succ_r, Z.div_lt_upper_bound; lia. }
  unfold format_instant. rewrite Ho. split; [done|].
  assert (Hall : (1 ≤ year d ≤ 9999) ∧ (1 ≤ month d ≤ 12) ∧ (1 ≤ day d ≤ 31) ∧ (0 ≤ hour d ≤ 23) ∧
    (0 ≤ minute d ≤ 59) ∧ (0 ≤ second d ≤ 59)) by lia.
  clear -Hall Hms. destruct Hall as (H1&H2&H3&H4&H5&H6).
  pose proof (padded_piece 3 1 9999 (year d) ltac:(done) H1 ltac:(done)).
  pose proof (padded_piece 1 1 12 (month d) ltac:(done) H2 ltac:(done)).
  pose proof (padded_piece 1 1 31 (day d) ltac:(done) H3 ltac:(done)).
  pose proof (padded_piece 1 0 23 (hour d) ltac:(done) H4 ltac:(done)).
  pose proof (padded_piece 1 0 59 (minute d) ltac:(done) H5 ltac:(done)).
  pose proof (padded_piece 1 0 59 (second d) ltac:(done) H6 ltac:(done)).
  pose proof (padded_piece 2 0 999 (microsecond d / 1000) ltac:(done) Hms ltac:(done)).
  unfold pieces. tauto.
Qed.

Lemma strptime_spell y mo d h mi s ms :
  pieces y mo d h mi s ms →
  strptime (spell y mo d h mi s ms) =
  if digits_value 0 d <=? days_in_month (digits_value 0 y) (digits_value 0 mo)
  then Some {| year := digits_value 0 y; month := digits_value 0 mo; day := digits_value 0 d;
               hour := digits_value 0 h; minute := digits_value 0 mi; second := digits_value 0 s;
               microsecond := 1000 * digits_value 0 ms; offset := None |}
  else None.
Proof.
  intros Hp. destruct (spell_fields y mo d h mi s ms Hp) as (H1&H2&H3&H4&H5&H6&H7).
  unfold strptime. cbn [day year month]. by rewrite H1, H2, H3, H4, H5, H6, H7.
Qed.

(** Every aware UTC datetime formats, and parsing the text gives the instant back at
    millisecond precision: flooring, never rounding into the next second, day or year. *)
Lemma parse_format_instant d :
  is_datetime d = true → offset d = Some 0 →
  ∃ text, format_instant d = Ok text ∧ parse_instant (PyStr text) = Ok (floor_millisecond d).
Proof.
  intros Hd Ho. destruct (format_pieces d Hd Ho) as (Hf&Hp&H1&H2&H3&H4&H5&H6&H7).
  eexists. split; [exact Hf|]. unfold parse_instant.
  rewrite (proj2 (instant_shape _)) by (do 7 eexists; split; [exact Hp | reflexivity]).
  rewrite strptime_spell by done. rewrite H1, H2, H3, H4, H5, H6, H7.
  unfold is_datetime in Hd. bools. rewrite (proj2 (Z.leb_le _ _)) by lia.
  unfold floor_millisecond. by rewrite Ho.
Qed.

Lemma parse_format_instant_witness :
  ∃ text, format_instant at_epoch = Ok text ∧
          parse_instant (PyStr text) = Ok (floor_millisecond at_epoch).
Proof. apply (parse_format_instant at_epoch); vm_compute; reflexivity. Defined.

Lemma parsed_instant text d :
  parse_instant (PyStr text) = Ok d →
  format_instant d = Ok text ∧ is_datetime d = true ∧ offset d = Some 0 ∧ floor_millisecond d = d.
Proof.
  cbn [parse_instant]. intros H. run_ok. bools.
  apply instant_shape in H as (y&mo&dd&h&mi&s&ms&Hp&->).
  rewrite strptime_spell in H0 by done. case_match eqn:Hdim; [|done].
  injection H0 as <-. cbn in H1. subst d. bools.
  pose proof Hp as (Hy&Hmo&Hd&Hh&Hmi&Hs&Hms).
  assert (Hround : 1000 * digits_value 0 ms / 1000 = digits_value 0 ms) by (rewrite Z.mul_comm; by apply Z.div_mul).
  split; [|split; [|split; [done|]]].
  - unfold format_instant. cbn [offset year month day hour minute second microsecond].
    change (0 =? 0) with true. cbn [negb raise_if mbind result_bind].
    rewrite Hround, (piece_padded 3 _ _ y Hy), (piece_padded 1 _ _ mo Hmo), (piece_padded 1 _ _ dd Hd),
      (piece_padded 1 _ _ h Hh), (piece_padded 1 _ _ mi Hmi), (piece_padded 1 _ _ s Hs),
      (piece_padded 2 _ _ ms Hms). done.
  - unfold is_datetime, piece in *. cbn [offset year month day hour minute second microsecond].
    destruct_and!. rewrite !(proj2 (Z.leb_le _ _)) by lia. done.
  - unfold floor_millisecond. cbn. by rewrite Hround.
Qed.

(** An instant has one spelling.  Text [parse_instant] accepts is a real calendar instant,
    aware and UTC at whole milliseconds, and [format_instant] reproduces the very same text. *)
Lemma format_parse_instant text d :
  parse_instant (PyStr text) = Ok d →
  format_instant d = Ok text ∧ is_datetime d = true ∧ offset d = Some 0 ∧ floor_millisecond d = d.
Proof. apply parsed_instant. Qed.

Lemma format_parse_instant_witness :
  format_instant {| year := 2026; month := 7; day := 28; hour := 9; minute := 0; second := 0;
                    microsecond := 250000; offset := Some 0 |} = Ok "2026-07-28T09:00:00.250Z".
Proof. apply (format_parse_instant "2026-07-28T09:00:00.250Z"). vm_compute. reflexivity. Defined.

(** Days before the first of January of a year, and in that many months of it from the [m]th. *)
Definition days_before_year (y : Z) : Z :=
  365 * (y - 1) + (y - 1) / 4 - (y - 1) / 100 + (y - 1) / 400.

Fixpoint days_from (y m : Z) (months : nat) : Z :=
  match months with
  | O => 0
  | S n => days_in_month y m + days_from y (m + 1) n
  end.

Definition DAY_MICROSECONDS : Z := 86400000000.

Definition microseconds_of_day (d : datetime) : Z :=
  ((hour d * 60 + minute d) * 60 + second d) * 1000000 + microsecond d.

Definition day_number (d : datetime) : Z :=
  days_before_year (year d) + days_from (year d) 1 (Z.to_nat (month d - 1)) + (day d - 1).

Definition micros (d : datetime) : Z := day_number d * DAY_MICROSECONDS + microseconds_of_day d.

(** The year of a day: within one of the average year's count. *)
Definition year_of (n : Z) : Z :=
  let y := n * 400 / 146097 + 1 in
  if n <? days_before_year y then y - 1
  else if days_before_year (y + 1) <=? n then y + 1 else y.

(** The month and the day of the month, counting days from the month [m]. *)
Fixpoint month_day (fuel : nat) (y m k : Z) : Z * Z :=
  match fuel with
  | O => (m, k + 1)
  | S fuel => if k <? days_in_month y m then (m, k + 1)
              else month_day fuel y (m + 1) (k - days_in_month y m)
  end.

(** The aware UTC [datetime] of that many microseconds. *)
Definition of_micros (t : Z) : datetime :=
  let n := t / DAY_MICROSECONDS in
  let r := t mod DAY_MICROSECONDS in
  let y := year_of n in
  let '(m, d) := month_day 11 y 1 (n - days_before_year y) in
  {| year := y; month := m; day := d;
     hour := r / 3600000000; minute := r / 60000000 mod 60; second := r / 1000000 mod 60;
     microsecond := r mod 1000000; offset := Some 0 |}.

Lemma div_step y k :
  0 < k → y / k = (y - 1) / k + (if y mod k =? 0 then 1 else 0).
Proof.
  intros Hk. pose proof (Z.div_mod y k). pose proof (Z.mod_pos_bound y k Hk).
  destruct (Z.eqb_spec (y mod k) 0).
  - rewrite <- (Z.div_unique (y - 1) k (y / k - 1) (k - 1)); lia.
  - rewrite <- (Z.div_unique (y - 1) k (y / k) (y mod k - 1)); lia.
Qed.

Lemma leap_year_days y :
  days_before_year (y + 1) = days_before_year y + 365 + (if is_leap y then 1 else 0).
Proof.
  unfold days_before_year, is_leap. replace (y + 1 - 1) with y by lia.
  rewrite (div_step y 4), (div_step y 100), (div_step y 400) by lia.
  assert (y mod 400 = 0 → y mod 100 = 0) by (clear; Z.to_euclidean_division_equations; lia).
  assert (y mod 100 = 0 → y mod 4 = 0) by (clear; Z.to_euclidean_division_equations; lia).
  destruct (Z.eqb_spec (y mod 4) 0), (Z.eqb_spec (y mod 100) 0), (Z.eqb_spec (y mod 400) 0);
    cbn [negb orb andb]; lia.
Qed.

(** The count stays within two days of the average year's. *)
Lemma days_before_year_close y :
  146097 * (y - 1) - 800 < 400 * days_before_year y ≤ 146097 * (y - 1) + 400.
Proof.
  unfold days_before_year.
  pose proof (Z.div_mod (y - 1) 4 ltac:(lia)). pose proof (Z.mod_pos_bound (y - 1) 4 ltac:(lia)).
  pose proof (Z.div_mod (y - 1) 100 ltac:(lia)). pose proof (Z.mod_pos_bound (y - 1) 100 ltac:(lia)).
  pose proof (Z.div_mod (y - 1) 400 ltac:(lia)). pose proof (Z.mod_pos_bound (y - 1) 400 ltac:(lia)).
  lia.
Qed.

Lemma year_of_spec n : days_before_year (year_of n) ≤ n < days_before_year (year_of n + 1).
Proof.
  unfold year_of. set (y := n * 400 / 146097 + 1).
  assert (Hy : (y - 1) * 146097 ≤ n * 400 < y * 146097).
  { unfold y. pose proof (Z.div_mod (n * 400) 146097 ltac:(lia)).
    pose proof (Z.mod_pos_bound (n * 400) 146097 ltac:(lia)). lia. }
  clearbody y.
  pose proof (days_before_year_close (y - 1)). pose proof (days_before_year_close y).
  pose proof (days_before_year_close (y + 1)). pose proof (days_before_year_close (y + 1 + 1)).
  destruct (Z.ltb_spec n (days_before_year y));
    [|destruct (Z.leb_spec (days_before_year (y + 1)) n); [|lia]];
    replace (y - 1 + 1) with y in * by lia; lia.
Qed.

Lemma days_before_year_mono y z : y ≤ z → days_before_year y ≤ days_before_year z.
Proof. unfold days_before_year. Z.to_euclidean_division_equations. lia. Qed.

Lemma year_of_unique y n : days_before_year y ≤ n < days_before_year (y + 1) → year_of n = y.
Proof.
  intros Hn. pose proof (year_of_spec n) as Hs.
  destruct (Z.lt_trichotomy (year_of n) y) as [Hl|[He|Hl]]; [|done|].
  - pose proof (days_before_year_mono (year_of n + 1) y). lia.
  - pose proof (days_before_year_mono (y + 1) (year_of n)). lia.
Qed.

(** ** Months *)

Lemma days_in_month_pos y m : 28 ≤ days_in_month y m.
Proof. unfold days_in_month. repeat case_match; lia. Qed.

Lemma days_from_nonneg y n : ∀ m, 0 ≤ days_from y m n.
Proof.
  induction n as [|n IH]; intros m; cbn [days_from]; [done|].
  pose proof (days_in_month_pos y m). specialize (IH (m + 1)). lia.
Qed.

Lemma month_day_from y n : ∀ fuel m k,
  (n ≤ fuel)%nat → 0 ≤ k < days_in_month y (m + Z.of_nat n) →
  month_day fuel y m (days_from y m n + k) = (m + Z.of_nat n, k + 1).
Proof.
  induction n as [|n IH]; intros fuel m k Hf Hk; cbn [days_from].
  - rewrite Z.add_0_r in *. destruct fuel; [done|]. cbn [month_day days_from]. rewrite Z.add_0_l.
    destruct (Z.ltb_spec k (days_in_month y m)); [done|lia].
  - destruct fuel as [|fuel]; [lia|]. cbn [month_day].
    pose proof (days_from_nonneg y n (m + 1)).
    destruct (Z.ltb_spec (days_in_month y m + days_from y (m + 1) n + k) (days_in_month y m)); [lia|].
    replace (days_in_month y m + days_from y (m + 1) n + k - days_in_month y m)
      with (days_from y (m + 1) n + k) by lia.
    rewrite IH; [f_equal; lia|lia|]. by replace (m + 1 + Z.of_nat n) with (m + Z.of_nat (S n)) by lia.
Qed.

Lemma year_length y : days_from y 1 12 = 365 + (if is_leap y then 1 else 0).
Proof. cbn [days_from]. unfold days_in_month. by destruct (is_leap y). Qed.

Lemma days_from_split y n : ∀ m k,
  days_from y m (n + k) = days_from y m n + days_from y (m + Z.of_nat n) k.
Proof.
  induction n as [|n IH]; intros m k; cbn [days_from Nat.add].
  - by rewrite Z.add_0_r.
  - rewrite IH. replace (m + 1 + Z.of_nat n) with (m + Z.of_nat (S n)) by lia. lia.
Qed.

(** ** The bijection *)

Lemma is_datetime_bounds d :
  is_datetime d = true →
  1 ≤ month d ≤ 12 ∧ 1 ≤ day d ≤ days_in_month (year d) (month d) ∧ 0 ≤ hour d ≤ 23 ∧
  0 ≤ minute d ≤ 59 ∧ 0 ≤ second d ≤ 59 ∧ 0 ≤ microsecond d ≤ 999999.
Proof. unfold is_datetime. intros Hd. bools. lia. Qed.

Lemma day_number_year d :
  is_datetime d = true → days_before_year (year d) ≤ day_number d < days_before_year (year d + 1).
Proof.
  intros (Hm&Hd&_)%is_datetime_bounds. rewrite leap_year_days. unfold day_number.
  rewrite <- (Z.add_assoc _ 365), <- (year_length (year d)).
  set (n := Z.to_nat (month d - 1)). assert (Hn : 1 + Z.of_nat n = month d) by lia.
  pose proof (days_from_nonneg (year d) n 1).
  replace 12%nat with (n + S (11 - n))%nat by lia. rewrite days_from_split. cbn [days_from].
  rewrite Hn. pose proof (days_from_nonneg (year d) (11 - n) (month d + 1)). lia.
Qed.

Lemma of_micros_micros d :
  is_datetime d = true → offset d = Some 0 → of_micros (micros d) = d.
Proof.
  intros Hv Ho. pose proof (day_number_year d Hv) as Hy.
  destruct (is_datetime_bounds d Hv) as (Hm&Hd&Hh&Hmi&Hs&Hu).
  assert (Hr : 0 ≤ microseconds_of_day d < DAY_MICROSECONDS)
    by (unfold microseconds_of_day, DAY_MICROSECONDS; lia).
  unfold of_micros, micros.
  rewrite Z.div_add_l, (Z.div_small _ _ Hr), Z.add_0_r by (unfold DAY_MICROSECONDS; lia).
  rewrite Z.add_comm, Z.mod_add, (Z.mod_small _ _ Hr) by (unfold DAY_MICROSECONDS; lia).
  rewrite (year_of_unique _ _ Hy).
  replace (day_number d - days_before_year (year d))
    with (days_from (year d) 1 (Z.to_nat (month d - 1)) + (day d - 1)) by (unfold day_number; lia).
  rewrite month_day_from; [|lia|replace (1 + Z.of_nat (Z.to_nat (month d - 1))) with (month d) by lia; lia].
  destruct d; cbn in *. unfold microseconds_of_day. cbn. subst.
  f_equal; Z.to_euclidean_division_equations; lia.
Qed.
