(* ===== verification/Topics.v ===== *)
(** * Application topics

    [packages/contracts/src/aerial_rescue_contracts/topics.py]: the fifteen families, the
    grammar of each variable level, the builder [format_topic], the parser [parse_topic], and
    the type discriminator both ways.  [Family] iterates in declaration order; the theorems
    say building and parsing invert each other, that a built topic is always one the broker
    takes, and that a discriminator determines its family. *)

From S2P Require Import Prelude PyStr Regex PyVal.
Local Open Scope string_scope.

Definition TOPIC_NAMESPACE_ROOT : string := "aerial-rescue".
Definition CONTRACT_MAJOR_VERSION : Z := 1.
Definition namespace_prefix : string := TOPIC_NAMESPACE_ROOT ++ "/v" ++ dec CONTRACT_MAJOR_VERSION.

Definition MAX_TOPIC_BYTES : nat := 250.
Definition MAX_KIND_LENGTH : nat := 32.

Definition is_lower_digit (c : ascii) : bool := is_lower c || is_digit c.

(** [^(?:[a-z0-9]|[a-z0-9][a-z0-9-]{0,62}[a-z0-9])$] *)
Definition IDENTIFIER_PATTERN : re :=
  RAlt (RChr is_lower_digit)
       (seqs [RChr is_lower_digit; upto 62 (RChr (λ c, is_lower_digit c || bool_decide (c = "-"%char)));
              RChr is_lower_digit]).

(** [^[a-z][a-z0-9]*(?:-[a-z0-9]+)*$] *)
Definition KIND_PATTERN : re :=
  seqs [RChr is_lower; RStar (RChr is_lower_digit);
        RStar (RSeq (lit "-") (plus (RChr is_lower_digit)))].

(** [^[A-Za-z0-9_]{1,64}$] *)
Definition AGENT_NAME_PATTERN : re :=
  let c := RChr (λ c, is_upper c || is_lower c || is_digit c || bool_decide (c = "_"%char)) in
  RSeq c (upto 63 c).

Definition DECISIONS : list string := ["approve"; "reject"].
Definition WILDCARD_CHARACTERS : list ascii := ["*"%char; ">"%char].
Definition MISSION_PARAMETER : string := "missionId".
Definition DRONE_PARAMETER : string := "droneId".
Definition SECTOR_PARAMETER : string := "sectorId".
Definition PROPOSAL_PARAMETER : string := "proposalId".
Definition REQUESTOR_PARAMETER : string := "requestorId".
Definition RESERVED_REPLY_MISSION : string := "reply".

Definition IDENTIFIER_PARAMETERS : list string :=
  [MISSION_PARAMETER; DRONE_PARAMETER; SECTOR_PARAMETER; PROPOSAL_PARAMETER; REQUESTOR_PARAMETER;
   "commandId"; "requestId"].

(** [_PREFIX_LEVELS] and [_TYPE_PREFIX] *)
Definition PREFIX_LEVELS : list string := split_on "/" namespace_prefix.
Definition TYPE_PREFIX : string := join "." (split_on "/" namespace_prefix) ++ ".".

Inductive Rule : Set := IDENTIFIER | KIND | AGENT_NAME | DECISION.

#[export] Instance Rule_eq_dec : EqDecision Rule.
Proof. solve_decision. Defined.

Definition INSTANCE_RULES : list Rule := [IDENTIFIER; AGENT_NAME].

Definition rule_for (parameter : string) : Rule :=
  if bool_decide (parameter ∈ IDENTIFIER_PARAMETERS) then IDENTIFIER
  else if bool_decide (parameter = "agentName") then AGENT_NAME
  else if bool_decide (parameter = "decision") then DECISION
  else KIND.

Definition is_placeholder (level : string) : bool := starts_with "{" level.

(** [level[1:-1]] *)
Definition placeholder (level : string) : string := substring 1 (String.length level - 2) level.

Inductive Family : Set :=
| OPERATOR_COMMAND | OPERATOR_APPROVAL | DRONE_TELEMETRY | DRONE_EVENT | DRONE_COMMAND
| DRONE_COMMAND_RESULT | GATEWAY_REQUEST | GATEWAY_RESPONSE | GATEWAY_RECORD | AGENT_PROPOSAL
| AGENT_RESPONSE | EVIDENCE_DECISION | AUDIT | MISSION_EVENT | SECTOR_EVENT.

#[export] Instance Family_eq_dec : EqDecision Family.
Proof. solve_decision. Defined.

(** [for family in Family]: declaration order. *)
Definition FAMILIES : list Family :=
  [OPERATOR_COMMAND; OPERATOR_APPROVAL; DRONE_TELEMETRY; DRONE_EVENT; DRONE_COMMAND;
   DRONE_COMMAND_RESULT; GATEWAY_REQUEST; GATEWAY_RESPONSE; GATEWAY_RECORD; AGENT_PROPOSAL;
   AGENT_RESPONSE; EVIDENCE_DECISION; AUDIT; MISSION_EVENT; SECTOR_EVENT].

Definition template (f : Family) : string :=
  match f with
  | OPERATOR_COMMAND => "operator/command/{commandType}"
  | OPERATOR_APPROVAL => "operator/approval/{decision}"
  | DRONE_TELEMETRY => "drone/{droneId}/telemetry"
  | DRONE_EVENT => "drone/{droneId}/event/{eventType}"
  | DRONE_COMMAND => "drone/{droneId}/command/{commandType}"
  | DRONE_COMMAND_RESULT => "drone/{droneId}/command-result/{commandId}"
  | GATEWAY_REQUEST => "gateway/request/{operation}"
  | GATEWAY_RESPONSE => "gateway/response/{requestorId}"
  | GATEWAY_RECORD => "gateway/record/{requestId}"
  | AGENT_PROPOSAL => "agent/proposal/{agentName}/{proposalType}"
  | AGENT_RESPONSE => "agent/response/{agentName}"
  | EVIDENCE_DECISION => "evidence/decision/{proposalId}"
  | AUDIT => "audit/{recordType}"
  | MISSION_EVENT => "mission/event/{eventType}"
  | SECTOR_EVENT => "sector/{sectorId}/event/{eventType}"
  end.

(** [Family.name] *)
Definition family_name (f : Family) : string :=
  match f with
  | OPERATOR_COMMAND => "OPERATOR_COMMAND" | OPERATOR_APPROVAL => "OPERATOR_APPROVAL"
  | DRONE_TELEMETRY => "DRONE_TELEMETRY" | DRONE_EVENT => "DRONE_EVENT"
  | DRONE_COMMAND => "DRONE_COMMAND" | DRONE_COMMAND_RESULT => "DRONE_COMMAND_RESULT"
  | GATEWAY_REQUEST => "GATEWAY_REQUEST" | GATEWAY_RESPONSE => "GATEWAY_RESPONSE"
  | GATEWAY_RECORD => "GATEWAY_RECORD" | AGENT_PROPOSAL => "AGENT_PROPOSAL"
  | AGENT_RESPONSE => "AGENT_RESPONSE" | EVIDENCE_DECISION => "EVIDENCE_DECISION"
  | AUDIT => "AUDIT" | MISSION_EVENT => "MISSION_EVENT" | SECTOR_EVENT => "SECTOR_EVENT"
  end.

Definition levels (f : Family) : list string := split_on "/" (template f).

Definition parameters_of (f : Family) : list string :=
  placeholder <$> filter (λ l, is_placeholder l = true) (levels f).

Definition literal_suffix (f : Family) : string :=
  join "." (filter (λ l, is_placeholder l = false) (levels f)).

(** [self.name.lower().replace("_", "-")] *)
Definition outbox_char (c : ascii) : ascii :=
  if is_upper c then ascii_of_N (ord c + 32) else if bool_decide (c = "_"%char) then "-"%char else c.

Fixpoint outbox_text (s : string) : string :=
  match s with "" => "" | String c s => String (outbox_char c) (outbox_text s) end.

Definition outbox_family (f : Family) : string := outbox_text (family_name f).

Definition kept_in_type (l : string) : bool :=
  negb (is_placeholder l && bool_decide (rule_for (placeholder l) ∈ INSTANCE_RULES)).

Definition type_suffix (f : Family) : string :=
  join "." (filter (λ l, kept_in_type l = true) (levels f)).

Inductive Delivery : Set := DIRECT | GUARANTEED | REQUEST_REPLY.

#[export] Instance Delivery_eq_dec : EqDecision Delivery.
Proof. solve_decision. Defined.

Definition delivery_for (f : Family) : Delivery :=
  match f with
  | DRONE_TELEMETRY | GATEWAY_RECORD | AGENT_RESPONSE => DIRECT
  | GATEWAY_REQUEST | GATEWAY_RESPONSE => REQUEST_REPLY
  | _ => GUARANTEED
  end.

(** ** Refusals *)

Inductive TopicRefusal : Set :=
| UNSUPPORTED_TYPE | LENGTH | WILDCARD | PREFIX | SHAPE | IDENTIFIER_FORM | KIND_FORM
| AGENT_NAME_FORM | DECISION_VALUE | PARAMETER_SET.

Inductive refused_value : Set :=
| Value (v : pyval)
| Names (names : list string).

Record TopicError : Set := {
  refusal : TopicRefusal; value : refused_value; parameter : option string
}.

(** Everything these functions can raise: the structured refusal, the encoder's error on a
    lone surrogate, and the lookup error of a parameter a topic does not carry. *)
Inductive topic_failure : Set :=
| Refused (e : TopicError)
| UnicodeEncodeError
| KeyError (name : string).

Definition refuse {A} (r : TopicRefusal) (v : refused_value) (p : option string)
    : result topic_failure A :=
  Err (Refused {| refusal := r; value := v; parameter := p |}).

Definition refusal_by_rule (r : Rule) : TopicRefusal :=
  match r with
  | IDENTIFIER => IDENTIFIER_FORM | KIND => KIND_FORM
  | AGENT_NAME => AGENT_NAME_FORM | DECISION => DECISION_VALUE
  end.

(** [parameters] is the mapping from parameter name to level. *)
Record Topic : Set := { family : Family; mission_id : string; parameters : list (string * string) }.

Definition conforms (r : Rule) (value : string) : bool :=
  match r with
  | IDENTIFIER => fullmatch IDENTIFIER_PATTERN value
  | KIND => (char_len value <=? MAX_KIND_LENGTH)%nat && fullmatch KIND_PATTERN value
  | AGENT_NAME => fullmatch AGENT_NAME_PATTERN value
  | DECISION => bool_decide (value ∈ DECISIONS)
  end.

Definition validated_level (parameter value : string) : result topic_failure string :=
  let rule := rule_for parameter in
  if conforms rule value then Ok value
  else refuse (refusal_by_rule rule) (Value (PyStr value)) (Some parameter).

(** ** Building *)

(** One level of a template, filled from the parameters. *)
Definition fill (ps : list (string * string)) (level : string) : result topic_failure string :=
  if is_placeholder level then
    let name := placeholder level in
    v ← or_raise (dict_get ps name) (KeyError name);
    validated_level name v
  else Ok level.

(** [set(a) != set(b)] *)
Definition same_names (a b : list string) : bool :=
  forallb (λ x, bool_decide (x ∈ b)) a && forallb (λ x, bool_decide (x ∈ a)) b.

Definition format_topic (t : Topic) : result topic_failure string :=
  if negb (same_names (dict_keys (parameters t)) (parameters_of (family t))) then
    refuse PARAMETER_SET (Names (merge_sort String.le (dict_keys (parameters t)))) None
  else
    mission ← validated_level MISSION_PARAMETER (mission_id t);
    rest ← map_ok (fill (parameters t)) (levels (family t));
    Ok (join "/" (namespace_prefix :: mission :: rest)).

(** ** Parsing *)

Definition level_matches (expected level : string) : bool :=
  is_placeholder expected || bool_decide (expected = level).

Definition matches_template (tpl ls : list string) : bool :=
  (length tpl =? length ls)%nat && forallb (λ p, level_matches p.1 p.2) (zip tpl ls).

Definition bind_template (tpl ls : list string) : result topic_failure (list (string * string)) :=
  pairs ← map_ok (λ p : string * string,
                    v ← validated_level (placeholder p.1) p.2; Ok (placeholder p.1, v))
                 (filter (λ p, is_placeholder p.1 = true) (zip tpl ls));
  Ok (dict_of_pairs pairs).

(** The first family, in declaration order, whose template fits. *)
Definition first_family (template_of : Family → list string) (ls : list string) : option Family :=
  list_find (λ f, matches_template (template_of f) ls = true) FAMILIES ≫= λ p, Some p.2.

Definition family_for (ls : list string) (text : string) : result topic_failure Family :=
  match first_family levels ls with
  | Some f => Ok f
  | None => refuse SHAPE (Value (PyStr text)) None
  end.

Definition parse_topic (v : pyval) : result topic_failure Topic :=
  match v with
  | PyStr text =>
      encoded ← or_raise (encode_utf8 text) UnicodeEncodeError;
      if (MAX_TOPIC_BYTES <? String.length encoded)%nat then refuse LENGTH (Value v) None
      else if existsb (λ c, has_char c text) WILDCARD_CHARACTERS then refuse WILDCARD (Value v) None
      else
        let ls := split_on "/" text in
        if negb (bool_decide (take 2 ls = PREFIX_LEVELS)) then refuse PREFIX (Value v) None
        else
          f ← family_for (drop 3 ls) text;
          mission ← validated_level MISSION_PARAMETER (default "" (ls !! 2%nat));
          ps ← bind_template (levels f) (drop 3 ls);
          Ok {| family := f; mission_id := mission; parameters := ps |}
  | _ => refuse UNSUPPORTED_TYPE (Value v) None
  end.

(** ** Type discriminators *)

Definition type_levels (f : Family) : list string := split_on "." (type_suffix f).

Definition event_type (t : Topic) : result topic_failure string :=
  segments ← map_ok (fill (parameters t)) (type_levels (family t));
  Ok (TYPE_PREFIX ++ join "." segments).

Definition parse_event_type (v : pyval) : result topic_failure (Family * list (string * string)) :=
  match v with
  | PyStr text =>
      if negb (starts_with TYPE_PREFIX text) then refuse PREFIX (Value v) None
      else
        let segments := split_on "." (remove_prefix TYPE_PREFIX text) in
        match first_family type_levels segments with
        | None => refuse SHAPE (Value v) None
        | Some f => ps ← bind_template (type_levels f) segments; Ok (f, ps)
        end
  | _ => refuse UNSUPPORTED_TYPE (Value v) None
  end.

(** The namespace, then two or three dotted segments of the kind form. *)
Definition TYPE_PATTERN : re :=
  let segment := RSeq (lit ".") KIND_PATTERN in
  seqs [lit "aerial-rescue.v1"; segment; segment; RAlt REps segment].

(** ** What a level may hold *)

(** The characters of any conforming level: no separator, dot, wildcard or non-ASCII byte. *)
Definition level_char (c : ascii) : bool :=
  is_upper c || is_lower c || is_digit c || bool_decide (c = "-"%char) || bool_decide (c = "_"%char).

Definition rule_bound (r : Rule) : nat :=
  match r with IDENTIFIER | AGENT_NAME => 64 | KIND => 32 | DECISION => 7 end.

Lemma pattern_chars r s :
  (∀ c, alphabet r c = true → level_char c = true) → fullmatch r s = true → str_all level_char s = true.
Proof. apply fullmatch_all. Qed.

Lemma level_chars_char_len s : str_all level_char s = true → char_len s = String.length s.
Proof.
  induction s as [|c s IH]; [done|]. cbn [str_all char_len String.length].
  intros [Hc Hs]%andb_true_iff. rewrite IH by done.
  replace (in_range "128" "191" c) with false; [done|].
  destruct c as [[] [] [] [] [] [] [] []]; by vm_compute in Hc |- *.
Qed.

Ltac chars_in := intros c; destruct c as [[] [] [] [] [] [] [] []]; by vm_compute.

Lemma decision_values v : v ∈ DECISIONS → v = "approve" ∨ v = "reject".
Proof. unfold DECISIONS. rewrite !elem_of_cons, elem_of_nil. tauto. Qed.

Lemma conforms_chars r v : conforms r v = true → str_all level_char v = true.
Proof.
  destruct r; cbn [conforms].
  - apply pattern_chars. chars_in.
  - intros [_ H]%andb_true_iff. revert H. apply pattern_chars. chars_in.
  - apply pattern_chars. chars_in.
  - intros H. bools. by apply decision_values in H as [-> | ->].
Qed.

Lemma conforms_length r v : conforms r v = true → (1 ≤ String.length v ≤ rule_bound r)%nat.
Proof.
  intros H. pose proof (conforms_chars r v H) as Hc. destruct r; cbn [conforms rule_bound] in *.
  - split; [by apply (fullmatch_min_len IDENTIFIER_PATTERN) | by apply (fullmatch_max_len IDENTIFIER_PATTERN)].
  - apply andb_true_iff in H as [Hl H]. apply Nat.leb_le in Hl. rewrite level_chars_char_len in Hl by done.
    split; [by apply (fullmatch_min_len KIND_PATTERN) | done].
  - split; [by apply (fullmatch_min_len AGENT_NAME_PATTERN) | by apply (fullmatch_max_len AGENT_NAME_PATTERN)].
  - bools. apply decision_values in H as [-> | ->]; cbn; lia.
Qed.

Lemma level_chars_no c s : level_char c = false → str_all level_char s = true → has_char c s = false.
Proof. apply str_all_has_char. Qed.

Lemma validated_level_Ok p v v' : validated_level p v = Ok v' ↔ v' = v ∧ conforms (rule_for p) v = true.
Proof. unfold validated_level. destruct (conforms _ _); [naive_solver | split; [done | naive_solver]]. Qed.

Lemma mission_rule : rule_for MISSION_PARAMETER = IDENTIFIER.
Proof. by vm_compute. Qed.

Lemma validated_mission_Ok v v' :
  validated_level MISSION_PARAMETER v = Ok v' ↔ v' = v ∧ conforms IDENTIFIER v = true.
Proof. by rewrite validated_level_Ok, mission_rule. Qed.

(** ** Templates *)

(** Whether a level of the topic holds its template level: the literal itself, or a
    conforming value bound to the placeholder's name. *)
Definition level_holds (ps : list (string * string)) (expected level : string) : Prop :=
  if is_placeholder expected
  then dict_get ps (placeholder expected) = Some level ∧ conforms (rule_for (placeholder expected)) level = true
  else expected = level.

Lemma fill_Ok ps expected level : fill ps expected = Ok level ↔ level_holds ps expected level.
Proof.
  unfold fill, level_holds. destruct (is_placeholder expected); [|split; congruence].
  rewrite bind_Ok. setoid_rewrite or_raise_Ok. setoid_rewrite validated_level_Ok. naive_solver.
Qed.

Definition holes (tpl : list string) : list string :=
  placeholder <$> filter (λ l, is_placeholder l = true) tpl.

(** The pairs [bind_template] collects. *)
Definition bound (tpl ls : list string) : list (string * string) :=
  (λ p, (placeholder p.1, p.2)) <$> filter (λ p, is_placeholder p.1 = true) (zip tpl ls).

Lemma bound_keys tpl ls : length tpl = length ls → (bound tpl ls).*1 = holes tpl.
Proof.
  unfold bound, holes. revert ls; induction tpl as [|e tpl IH]; intros [|l ls] Hl; try done.
  injection Hl as Hl. cbn [zip zip_with]. rewrite !filter_cons. cbn [fst].
  destruct (decide (is_placeholder e = true)); cbn; [f_equal; by apply IH | by apply IH].
Qed.

Lemma bind_pairs_Ok (l pairs : list (string * string)) :
  map_ok (λ p : string * string, v ← validated_level (placeholder p.1) p.2; Ok (placeholder p.1, v)) l
    = Ok pairs ↔
  pairs = ((λ p, (placeholder p.1, p.2)) <$> l) ∧
  Forall (λ p, conforms (rule_for (placeholder p.1)) p.2 = true) l.
Proof.
  rewrite map_ok_Forall2. split.
  - induction 1 as [|p b l bs Hp _ [-> IH]]; [done|].
    apply bind_Ok in Hp as (v&[-> Hv]%validated_level_Ok&[= <-]). split; [done | by constructor].
  - intros [-> H]. induction H as [|p l Hp _ IH]; [constructor|]. cbn. constructor; [|done].
    by rewrite (proj2 (validated_level_Ok _ _ _) (conj eq_refl Hp)).
Qed.

Lemma bind_template_Ok tpl ls ps :
  length tpl = length ls → NoDup (holes tpl) →
  bind_template tpl ls = Ok ps ↔
  ps = bound tpl ls ∧ Forall (λ p, conforms (rule_for p.1) p.2 = true) (bound tpl ls).
Proof.
  intros Hl Hnd. unfold bind_template. rewrite bind_Ok. setoid_rewrite bind_pairs_Ok.
  assert (Hd : dict_of_pairs (bound tpl ls) = bound tpl ls).
  { apply dict_of_pairs_id. unfold dict_wf, dict_keys. by rewrite bound_keys. }
  unfold bound in *. rewrite Forall_fmap. split.
  - intros (?&[-> ?]&[= <-]). by rewrite Hd.
  - intros [-> ?]. eexists. split; [split; [reflexivity | done]|]. by rewrite Hd.
Qed.

(** Levels fill a template exactly when they fit it and bind to the same parameters. *)
Lemma fill_bind tpl ls ps :
  map_ok (fill ps) tpl = Ok ls →
  matches_template tpl ls = true ∧
  Forall (λ p, conforms (rule_for p.1) p.2 = true ∧ dict_get ps p.1 = Some p.2) (bound tpl ls) ∧
  length tpl = length ls.
Proof.
  rewrite map_ok_Forall2. unfold matches_template, bound. intros H.
  pose proof (Forall2_length _ _ _ H) as Hl. rewrite Hl, Nat.eqb_refl. cbn [andb].
  rewrite Forall_fmap. apply Logic.and_assoc. split; [|done]. clear Hl.
  induction H as [|e l tpl ls He _ [IH1 IH2]]; [done|]. apply fill_Ok in He. unfold level_holds in He.
  cbn [zip zip_with forallb fst snd]. unfold level_matches at 1. rewrite filter_cons. cbn [fst].
  destruct (is_placeholder e) eqn:Hp; cbn [orb andb].
  - split; [done|]. rewrite decide_True by done. constructor; [cbn; tauto | done].
  - subst. rewrite bool_decide_true by done. cbn. split; [done|]. by rewrite decide_False.
Qed.

Lemma bind_fill tpl ls :
  matches_template tpl ls = true → NoDup (holes tpl) →
  Forall (λ p, conforms (rule_for p.1) p.2 = true) (bound tpl ls) →
  map_ok (fill (bound tpl ls)) tpl = Ok ls.
Proof.
  unfold matches_template. intros [Hl Hm]%andb_true_iff Hnd Hc. apply Nat.eqb_eq in Hl.
  assert (Hget : Forall (λ p, dict_get (bound tpl ls) p.1 = Some p.2) (bound tpl ls)).
  { apply Forall_forall. intros [k v] Hin. apply dict_elem_get; [|done].
    unfold dict_wf, dict_keys. by rewrite bound_keys. }
  revert Hc Hget. generalize (bound tpl ls) at 2 4. intros ps Hc Hget.
  apply map_ok_Forall2. unfold bound in *. rewrite Forall_fmap in Hc, Hget. clear Hnd.
  revert ls Hl Hm Hc Hget. induction tpl as [|e tpl IH]; intros [|l ls] Hl; try done.
  injection Hl as Hl. cbn [zip zip_with forallb fst snd]. rewrite filter_cons. cbn [fst].
  intros [He Hm]%andb_true_iff. unfold level_matches in He.
  destruct (is_placeholder e) eqn:Hp; cbn [orb] in He.
  - rewrite decide_True by done. intros [Hc1 Hc]%Forall_cons [Hg1 Hg]%Forall_cons.
    constructor; [|by apply IH]. apply fill_Ok. unfold level_holds. by rewrite Hp.
  - rewrite decide_False by congruence. bools. intros Hc Hg.
    constructor; [|by apply IH]. apply fill_Ok. unfold level_holds. by rewrite Hp.
Qed.

(** ** No family shadows another *)

(** Two templates conflict when their lengths differ or some level is a different literal in
    each: no levels fit both. *)
Definition conflict (t1 t2 : list string) : bool :=
  negb (length t1 =? length t2)%nat ||
  existsb (λ p, negb (is_placeholder p.1) && negb (is_placeholder p.2) && negb (bool_decide (p.1 = p.2)))
          (zip t1 t2).

Lemma conflict_matches t1 t2 ls :
  conflict t1 t2 = true → matches_template t1 ls = true → matches_template t2 ls = false.
Proof.
  unfold conflict, matches_template. intros Hc [Hl1 Hm1]%andb_true_iff.
  destruct (length t2 =? length ls)%nat eqn:Hl2; [|done]. cbn [andb].
  apply Nat.eqb_eq in Hl1, Hl2. rewrite (proj2 (Nat.eqb_eq _ _)) in Hc by congruence.
  cbn [negb orb] in Hc. revert t2 ls Hc Hl1 Hl2 Hm1.
  induction t1 as [|e1 t1 IH]; intros [|e2 t2] [|l ls];
    cbn [zip zip_with forallb existsb length fst snd]; try done.
  intros [Hc|Hc]%orb_true_iff Hl1 Hl2 [He1 Hm1]%andb_true_iff.
  - unfold level_matches in *. bools. rewrite H, H1 in *. cbn in *. bools. subst. by rewrite bool_decide_false.
  - injection Hl1 as Hl1. injection Hl2 as Hl2. erewrite (IH t2 ls); try done. apply andb_false_r.
Qed.

Lemma FAMILIES_complete f : f ∈ FAMILIES.
Proof. apply (bool_decide_eq_true_1 (f ∈ FAMILIES)). by destruct f. Qed.

Definition distinct_templates (tf : Family → list string) : bool :=
  forallb (λ f, forallb (λ g, bool_decide (f = g) || conflict (tf f) (tf g)) FAMILIES) FAMILIES.

Lemma first_family_spec tf ls f :
  distinct_templates tf = true →
  first_family tf ls = Some f ↔ matches_template (tf f) ls = true.
Proof.
  intros Hd. unfold first_family.
  assert (Huniq : ∀ g, matches_template (tf f) ls = true → matches_template (tf g) ls = true → g = f).
  { intros g Hf Hg. unfold distinct_templates in Hd. rewrite forallb_Forall, Forall_forall in Hd.
    specialize (Hd f (FAMILIES_complete f)). cbv beta in Hd. rewrite forallb_Forall, Forall_forall in Hd.
    specialize (Hd g (FAMILIES_complete g)). cbv beta in Hd. apply orb_true_iff in Hd as [Hd|Hd].
    - by bools.
    - by rewrite (conflict_matches _ _ _ Hd Hf) in Hg. }
  destruct (list_find _ FAMILIES) as [[i g]|] eqn:E; cbn.
  - apply list_find_Some in E as (_&Hg&_). split; [by intros [= ->]|].
    intros Hf. by rewrite (Huniq g Hf Hg).
  - split; [done|]. intros Hf. apply list_find_None in E. rewrite Forall_forall in E.
    by specialize (E f (FAMILIES_complete f)).
Qed.

Lemma levels_distinct : distinct_templates levels = true.
Proof. by vm_compute. Qed.
Lemma type_levels_distinct : distinct_templates type_levels = true.
Proof. by vm_compute. Qed.

Lemma levels_holes_NoDup f : NoDup (holes (levels f)).
Proof. destruct f; by apply (bool_decide_unpack _). Qed.
Lemma type_levels_holes_NoDup f : NoDup (holes (type_levels f)).
Proof. destruct f; by apply (bool_decide_unpack _). Qed.

(** Literal levels are made of level characters too. *)
Definition plain_level (l : string) : bool := is_placeholder l || str_all level_char l.

Lemma levels_plain f : Forall (λ l, plain_level l = true) (levels f).
Proof. apply forallb_Forall. by destruct f. Qed.
Lemma type_levels_plain f : Forall (λ l, plain_level l = true) (type_levels f).
Proof. apply forallb_Forall. by destruct f. Qed.

Lemma filled_chars ps tpl ls :
  Forall (λ l, plain_level l = true) tpl → map_ok (fill ps) tpl = Ok ls →
  Forall (λ l, str_all level_char l = true) ls.
Proof.
  rewrite map_ok_Forall2. intros Hp H. revert Hp.
  induction H as [|e l tpl ls He _ IH]; [done|]. intros [Hpe Hp]%Forall_cons.
  constructor; [|by auto]. apply fill_Ok in He. unfold level_holds, plain_level in *.
  destruct (is_placeholder e); [by eapply conforms_chars, He | by subst].
Qed.

Lemma levels_nonempty f : Forall (λ l, l ≠ "") (levels f).
Proof. destruct f; by apply (bool_decide_unpack _). Qed.

Lemma filled_nonempty ps tpl ls :
  Forall (λ l, l ≠ "") tpl → map_ok (fill ps) tpl = Ok ls → Forall (λ l, l ≠ "") ls.
Proof.
  rewrite map_ok_Forall2. intros Hp H. revert Hp.
  induction H as [|e l tpl ls He _ IH]; [done|]. intros [Hpe Hp]%Forall_cons.
  constructor; [|by auto]. apply fill_Ok in He. unfold level_holds in He.
  destruct (is_placeholder e); [|by subst].
  destruct He as [_ He]. apply conforms_length in He as [He _]. intros ->. cbn in He. lia.
Qed.

Lemma level_chars_split (sep : ascii) parts :
  level_char sep = false → parts ≠ [] → Forall (λ l, str_all level_char l = true) parts →
  split_on sep (join (String sep "") parts) = parts.
Proof.
  intros Hs Hne Hp. apply split_join; [done|]. eapply Forall_impl; [exact Hp|].
  intros l. by apply level_chars_no.
Qed.

(** The longest text a level of the template can hold. *)
Definition level_bound (l : string) : nat :=
  if is_placeholder l then rule_bound (rule_for (placeholder l)) else String.length l.

Lemma filled_length ps tpl ls :
  map_ok (fill ps) tpl = Ok ls →
  (sum_list (String.length <$> ls) ≤ sum_list (level_bound <$> tpl))%nat ∧ length ls = length tpl.
Proof.
  rewrite map_ok_Forall2. induction 1 as [|e l tpl ls He _ [IH1 IH2]]; [done|].
  apply fill_Ok in He. unfold level_holds in He. cbn. unfold level_bound at 1.
  destruct (is_placeholder e); [destruct He as [_ He]; apply conforms_length in He | subst e]; lia.
Qed.

(** ** Built topics *)

Lemma namespace_prefix_eq : namespace_prefix = "aerial-rescue/v1".
Proof. by vm_compute. Qed.
Lemma PREFIX_LEVELS_eq : PREFIX_LEVELS = ["aerial-rescue"; "v1"].
Proof. by vm_compute. Qed.

Lemma join_prefix m rest :
  join "/" (namespace_prefix :: m :: rest) = join "/" ("aerial-rescue" :: "v1" :: m :: rest).
Proof. rewrite namespace_prefix_eq. reflexivity. Qed.

Lemma same_names_spec a b : same_names a b = true ↔ ∀ x, x ∈ a ↔ x ∈ b.
Proof.
  unfold same_names. rewrite andb_true_iff, !forallb_Forall, !Forall_forall.
  setoid_rewrite bool_decide_eq_true. naive_solver.
Qed.

Lemma format_topic_Ok t text :
  format_topic t = Ok text ↔
  (∀ x, x ∈ dict_keys (parameters t) ↔ x ∈ parameters_of (family t)) ∧
  conforms IDENTIFIER (mission_id t) = true ∧
  ∃ rest, map_ok (fill (parameters t)) (levels (family t)) = Ok rest ∧
          text = join "/" (namespace_prefix :: mission_id t :: rest).
Proof.
  unfold format_topic. rewrite <- same_names_spec. destruct (same_names _ _); cbn [negb].
  - rewrite bind_Ok. setoid_rewrite validated_mission_Ok. split.
    + intros (m&[-> Hm]&(rest&Hr&[= <-])%bind_Ok). eauto 10.
    + intros (_&Hm&rest&Hr&->). eexists. split; [done|]. by rewrite Hr.
  - split; [done | by intros []].
Qed.

(** The levels of a built topic, as [text.split("/")] sees them. *)
Lemma built_split t text :
  format_topic t = Ok text →
  ∃ rest, map_ok (fill (parameters t)) (levels (family t)) = Ok rest ∧
    conforms IDENTIFIER (mission_id t) = true ∧
    split_on "/" text = "aerial-rescue" :: "v1" :: mission_id t :: rest ∧
    text = join "/" ("aerial-rescue" :: "v1" :: mission_id t :: rest) ∧
    Forall (λ l, str_all level_char l = true) ("aerial-rescue" :: "v1" :: mission_id t :: rest).
Proof.
  intros (_&Hm&rest&Hr&->)%format_topic_Ok. exists rest.
  assert (Hall : Forall (λ l, str_all level_char l = true) ("aerial-rescue" :: "v1" :: mission_id t :: rest)).
  { repeat constructor; [by eapply (conforms_chars IDENTIFIER)|].
    eapply filled_chars; [apply levels_plain | done]. }
  split; [done|]. split; [done|]. 
  rewrite join_prefix. split; [|done].
  by apply level_chars_split.
Qed.

Definition topic_bound (f : Family) : nat :=
  (String.length namespace_prefix + 64 + 1 + sum_list (level_bound <$> levels f) + length (levels f))%nat.

Lemma built_length t text :
  format_topic t = Ok text → (String.length text ≤ topic_bound (family t))%nat.
Proof.
  intros (_&Hm&rest&Hr&->)%format_topic_Ok. apply conforms_length in Hm as [_ Hm].
  apply filled_length in Hr as [Hs Hl]. rewrite join_length. unfold topic_bound, rule_bound in *.
  rewrite !fmap_cons. cbn [sum_list_with id length String.length]. lia.
Qed.

Lemma topic_bound_232 f : (topic_bound f ≤ 232)%nat.
Proof. apply Nat.leb_le. destruct f; by vm_compute. Qed.

Lemma levels_length f : (2 ≤ length (levels f))%nat.
Proof. apply Nat.leb_le. destruct f; by vm_compute. Qed.

Lemma str_all_no_surrogate s : str_all (λ c, level_char c || bool_decide (c = "/"%char)) s = true → has_surrogate s = false.
Proof.
  induction s as [|c s IH]; [done|]. cbn [str_all]. intros [Hc Hs]%andb_true_iff.
  cbn. destruct s as [|d s]; [done|]. rewrite IH by done. rewrite orb_false_r, bool_decide_false; [done|].
  by intros ->.
Qed.

Lemma built_chars t text :
  format_topic t = Ok text → str_all (λ c, level_char c || bool_decide (c = "/"%char)) text = true.
Proof.
  intros (rest&_&_&_&->&Hall)%built_split. apply join_str_all; [done|].
  eapply Forall_impl; [exact Hall|]. intros l. apply str_all_mono. intros c ->. done.
Qed.

(** Acceptance by [parse_topic], one clause per check. *)
Lemma parse_topic_Ok text t :
  parse_topic (PyStr text) = Ok t ↔
  has_surrogate text = false ∧ (String.length text ≤ MAX_TOPIC_BYTES)%nat ∧
  existsb (λ c, has_char c text) WILDCARD_CHARACTERS = false ∧
  take 2 (split_on "/" text) = PREFIX_LEVELS ∧
  matches_template (levels (family t)) (drop 3 (split_on "/" text)) = true ∧
  mission_id t = default "" (split_on "/" text !! 2%nat) ∧ conforms IDENTIFIER (mission_id t) = true ∧
  bind_template (levels (family t)) (drop 3 (split_on "/" text)) = Ok (parameters t).
Proof.
  unfold parse_topic, encode_utf8. destruct (has_surrogate text); cbn [or_raise mbind result_bind]; [naive_solver|].
  destruct (Nat.ltb_spec MAX_TOPIC_BYTES (String.length text)); [split; [done|]; intros; lia|].
  destruct (existsb _ _); [naive_solver|].
  destruct (bool_decide _) eqn:Hp; bools; cbn [negb]; [|naive_solver].
  unfold family_for. split.
  - intros (f&Hf&(m&[-> Hm]%validated_mission_Ok&(ps&Hb&[= <-])%bind_Ok)%bind_Ok)%bind_Ok.
    case_match eqn:Hff; [|done]. injection Hf as ->.
    apply first_family_spec in Hff; [|apply levels_distinct]. done.
  - intros (_&_&_&_&Hm&Hmis&Hc&Hb). destruct t as [f m ps]; cbn [family mission_id parameters] in *.
    rewrite (proj2 (first_family_spec _ _ _ levels_distinct) Hm). cbn [mbind result_bind].
    rewrite (proj2 (validated_mission_Ok _ _) (conj eq_refl Hc)) || subst m.
    rewrite (proj2 (validated_mission_Ok _ _) (conj eq_refl Hc)). cbn [mbind result_bind]. by rewrite Hb.
Qed.

(** ** Theorems *)

(** Parsing inverts building: every topic [format_topic] builds is parsed back to the same
    family, mission and parameters, in template order; no built topic is refused by the
    parser's length, wildcard, prefix or shape rules. *)
Lemma format_topic_parses t text :
  dict_wf (parameters t) → format_topic t = Ok text →
  ∃ ps, parse_topic (PyStr text) =
          Ok {| family := family t; mission_id := mission_id t; parameters := ps |} ∧
        dict_equiv ps (parameters t) ∧ dict_keys ps = parameters_of (family t).
Proof.
  intros Hwf Hf. pose proof (built_length _ _ Hf) as Hlen. pose proof (topic_bound_232 (family t)).
  pose proof (built_chars _ _ Hf) as Hchars.
  destruct (built_split _ _ Hf) as (rest&Hr&Hm&Hsplit&_&_).
  apply fill_bind in Hr as (Hmatch&Hbound&Hl).
  assert (Hkeys : (bound (levels (family t)) rest).*1 = parameters_of (family t)) by (by rewrite bound_keys).
  exists (bound (levels (family t)) rest). split; [|split; [|done]].
  - apply parse_topic_Ok. cbn [family mission_id parameters]. rewrite Hsplit, PREFIX_LEVELS_eq.
    split; [by apply str_all_no_surrogate|]. split; [unfold MAX_TOPIC_BYTES; lia|]. split.
    { cbn [existsb WILDCARD_CHARACTERS].
      by rewrite (str_all_has_char _ "*" _ eq_refl Hchars), (str_all_has_char _ ">" _ eq_refl Hchars). }
    split; [done|]. split; [done|]. split; [done|]. split; [done|]. cbn [drop]. rewrite drop_0.
    apply bind_template_Ok; [done | apply levels_holes_NoDup|]. split; [done|].
    eapply Forall_impl; [exact Hbound|]. naive_solver.
  - intros k. apply format_topic_Ok in Hf as (Hset&_).
    destruct (dict_get (bound _ rest) k) as [v|] eqn:E.
    + apply dict_get_elem in E. rewrite Forall_forall in Hbound. by destruct (Hbound _ E).
    + symmetry. apply dict_get_None. rewrite Hset, <- Hkeys. by apply dict_get_None in E.
Qed.

(** Building inverts parsing.  Text [parse_topic] accepts is rebuilt, character for
    character, by [format_topic], so an accepted topic has one spelling. *)
Lemma format_parse_topic text t :
  parse_topic (PyStr text) = Ok t → format_topic t = Ok text ∧ dict_wf (parameters t).
Proof.
  intros (_&_&_&Hpre&Hm&Hmis&Hc&Hb)%parse_topic_Ok. destruct t as [f m ps]; cbn [family mission_id parameters] in *.
  assert (Hl : length (levels f) = length (drop 3 (split_on "/" text))).
  { apply andb_true_iff in Hm as [Hl _]. by apply Nat.eqb_eq. }
  apply bind_template_Ok in Hb as [-> Hbound]; [|done|apply levels_holes_NoDup].
  pose proof (bound_keys _ _ Hl) as Hk.
  split; [|unfold dict_wf, dict_keys; rewrite Hk; apply levels_holes_NoDup].
  apply format_topic_Ok. cbn [family mission_id parameters]. unfold dict_keys. rewrite Hk. split; [done|].
  split; [done|]. eexists. split; [by apply bind_fill; [|apply levels_holes_NoDup|]|].
  rewrite join_prefix. transitivity (join "/" (split_on "/" text)); [by rewrite join_split|].
  pose proof (levels_length f) as Hlen. rewrite Hl in Hlen.
  rewrite Hmis. clear -Hpre Hlen. rewrite PREFIX_LEVELS_eq in Hpre.
  destruct (split_on "/" text) as [|a [|b [|c rest]]]; cbn in Hlen; try lia.
  cbn in Hpre. by injection Hpre as -> ->.
Qed.

(** C40: building and parsing a topic are inverse.  Every topic [format_topic] builds is parsed
    back to the same family, mission and parameters, in template order, so no built topic is
    refused by the parser's length, wildcard, prefix or shape rules; and text [parse_topic]
    accepts is rebuilt, character for character, so an accepted topic has one spelling. *)
Theorem parse_format_topic :
  (∀ t text, dict_wf (parameters t) → format_topic t = Ok text →
     ∃ ps, parse_topic (PyStr text) =
             Ok {| family := family t; mission_id := mission_id t; parameters := ps |} ∧
           dict_equiv ps (parameters t) ∧ dict_keys ps = parameters_of (family t)) ∧
  (∀ text t, parse_topic (PyStr text) = Ok t → format_topic t = Ok text ∧ dict_wf (parameters t)).
Proof. split; [exact format_topic_parses|exact format_parse_topic]. Qed.

Definition sample_topic : Topic :=
  {| family := DRONE_COMMAND; mission_id := "mission-1";
     parameters := [("commandType", "return-home"); ("droneId", "drone-1")] |}.

Lemma parse_format_topic_witness :
  ∃ ps, parse_topic (PyStr "aerial-rescue/v1/mission-1/drone/drone-1/command/return-home") =
          Ok {| family := DRONE_COMMAND; mission_id := "mission-1"; parameters := ps |} ∧
        dict_equiv ps (parameters sample_topic) ∧ dict_keys ps = parameters_of DRONE_COMMAND.
Proof.
  apply (proj1 parse_format_topic sample_topic); [by apply (bool_decide_unpack _) | by vm_compute].
Defined.

Lemma format_parse_topic_witness :
  format_topic {| family := AUDIT; mission_id := "m"; parameters := [("recordType", "denial")] |} =
    Ok "aerial-rescue/v1/m/audit/denial" ∧ dict_wf [("recordType", "denial")].
Proof.
  apply (format_parse_topic "aerial-rescue/v1/m/audit/denial"
           {| family := AUDIT; mission_id := "m"; parameters := [("recordType", "denial")] |}).
  by vm_compute.
Defined.

(** A built topic is one the broker takes as published: at most 232 bytes, so within the
    broker's 250, only level characters and separators, hence no wildcard and no reserved
    first character, and no empty level. *)
Lemma built_topic_publishable t text :
  format_topic t = Ok text →
  (String.length text ≤ 232 ≤ MAX_TOPIC_BYTES)%nat ∧
  existsb (λ c, has_char c text) WILDCARD_CHARACTERS = false ∧
  starts_with namespace_prefix text = true ∧
  Forall (λ l, l ≠ "" ∧ str_all level_char l = true) (split_on "/" text).
Proof.
  intros Hf. pose proof (built_length _ _ Hf). pose proof (topic_bound_232 (family t)).
  pose proof (built_chars _ _ Hf) as Hchars. split; [unfold MAX_TOPIC_BYTES; lia|]. split.
  { cbn [existsb WILDCARD_CHARACTERS].
    by rewrite (str_all_has_char _ "*" _ eq_refl Hchars), (str_all_has_char _ ">" _ eq_refl Hchars). }
  destruct (built_split _ _ Hf) as (rest&Hr&Hm&->&->&Hall). split.
  - apply starts_with_spec. exists (String "/" (join "/" (mission_id t :: rest))).
    rewrite namespace_prefix_eq. reflexivity.
  - apply Forall_forall. intros l Hin. split; [|by rewrite Forall_forall in Hall; apply Hall].
    assert (Hrest : Forall (λ l, l ≠ "") rest) by (eapply filled_nonempty; [apply levels_nonempty | done]).
    rewrite Forall_forall in Hrest. apply elem_of_cons in Hin as [->|[->|[->|Hin]%elem_of_cons]%elem_of_cons]; try done.
    + intros E. rewrite E in Hm. by vm_compute in Hm.
    + by apply Hrest.
Qed.

Lemma built_topic_publishable_witness :
  (String.length "aerial-rescue/v1/mission-1/drone/drone-1/command/return-home" ≤ 232 ≤ MAX_TOPIC_BYTES)%nat.
Proof. apply (built_topic_publishable sample_topic). by vm_compute. Defined.

(** Segments of a discriminator are all of the kind form. *)
Definition kind_level (l : string) : bool :=
  if is_placeholder l then negb (bool_decide (rule_for (placeholder l) ∈ INSTANCE_RULES))
  else fullmatch KIND_PATTERN l.

Lemma type_levels_kinds f :
  Forall (λ l, kind_level l = true) (type_levels f) ∧ (length (type_levels f) = 2 ∨ length (type_levels f) = 3)%nat.
Proof.
  split; [apply forallb_Forall; by destruct f|].
  destruct f; first [by left | by right].
Qed.

Lemma conforms_kind r v : conforms r v = true → r ∉ INSTANCE_RULES → fullmatch KIND_PATTERN v = true.
Proof.
  unfold INSTANCE_RULES. rewrite !not_elem_of_cons. destruct r; cbn [conforms]; try tauto.
  - by intros [_ ?]%andb_true_iff.
  - intros H _. bools. by apply decision_values in H as [-> | ->].
Qed.

Lemma filled_kinds ps tpl ls :
  Forall (λ l, kind_level l = true) tpl → map_ok (fill ps) tpl = Ok ls →
  Forall (λ l, fullmatch KIND_PATTERN l = true) ls.
Proof.
  rewrite map_ok_Forall2. intros Hp H. revert Hp.
  induction H as [|e l tpl ls He _ IH]; [done|]. intros [Hpe Hp]%Forall_cons.
  constructor; [|by auto]. apply fill_Ok in He. unfold level_holds, kind_level in *.
  destruct (is_placeholder e); [|by subst]. bools. destruct He as [_ He]. by eapply conforms_kind.
Qed.

Lemma segments_type_pattern ls :
  (length ls = 2 ∨ length ls = 3)%nat → Forall (λ l, fullmatch KIND_PATTERN l = true) ls →
  fullmatch TYPE_PATTERN (TYPE_PREFIX ++ join "." ls) = true.
Proof.
  intros Hl Hk. apply fullmatch_lang. unfold TYPE_PATTERN. apply lang_seqs.
  assert (Hseg : ∀ l, fullmatch KIND_PATTERN l = true → lang (RSeq (lit ".") KIND_PATTERN) (String "." l)).
  { intros l Hm. apply fullmatch_lang in Hm. exists ".", l. split; [done|]. split; [apply (lang_lit ".")|done]. }
  assert (Hpre : TYPE_PREFIX = "aerial-rescue.v1.") by (by vm_compute). rewrite Hpre. clear Hpre.
  destruct ls as [|a [|b [|c [|? ?]]]]; cbn in Hl; try lia;
    apply Forall_cons in Hk as [Ha [Hb Hc]%Forall_cons].
  - exists ["aerial-rescue.v1"; String "." a; String "." b; ""]. split.
    + repeat (apply List.Forall2_cons; [first [apply lang_lit | by apply Hseg | by left]|]). apply List.Forall2_nil.
    + cbn. by rewrite str_app_nil_r.
  - apply Forall_cons in Hc as [Hc _].
    exists ["aerial-rescue.v1"; String "." a; String "." b; String "." c]. split.
    + repeat (apply List.Forall2_cons; [first [apply lang_lit | by apply Hseg | by right; apply Hseg]|]).
      apply List.Forall2_nil.
    + cbn. by rewrite str_app_nil_r.
Qed.

Lemma event_type_parses t text :
  event_type t = Ok text →
  fullmatch TYPE_PATTERN text = true ∧
  ∃ ps, parse_event_type (PyStr text) = Ok (family t, ps) ∧
        dict_keys ps = holes (type_levels (family t)) ∧
        Forall (λ p, dict_get (parameters t) p.1 = Some p.2) ps.
Proof.
  unfold event_type. intros (ls&Hf&Ht)%bind_Ok.
  assert (text = TYPE_PREFIX ++ join "." ls) as -> by congruence. clear Ht.
  destruct (type_levels_kinds (family t)) as [Hkinds Hlen].
  pose proof (filled_kinds _ _ _ Hkinds Hf) as Hkind.
  pose proof (filled_chars _ _ _ (type_levels_plain _) Hf) as Hchars.
  destruct (fill_bind _ _ _ Hf) as (Hm&Hb&Hl). rewrite Hl in Hlen.
  split; [by apply segments_type_pattern|].
  exists (bound (type_levels (family t)) ls). split; [|split].
  - unfold parse_event_type. rewrite (proj2 (starts_with_spec _ _)) by eauto.
    change (negb true) with false. cbv iota zeta.
    rewrite remove_prefix_app, (level_chars_split "." ls); [|done | by destruct ls; [destruct Hlen|] | done].
    rewrite (proj2 (first_family_spec _ _ _ type_levels_distinct) Hm).
    rewrite (proj2 (bind_template_Ok _ _ (bound (type_levels (family t)) ls) Hl (type_levels_holes_NoDup _)));
      [done|]. split; [done|]. eapply Forall_impl; [exact Hb|]. naive_solver.
  - unfold dict_keys. by rewrite bound_keys.
  - eapply Forall_impl; [exact Hb|]. naive_solver.
Qed.

(** A type's levels are literals or levels of the family's own topic. *)
Lemma type_levels_sub f :
  Forall (λ l, is_placeholder l = false ∨ l ∈ levels f) (type_levels f).
Proof. destruct f; by apply (bool_decide_unpack _). Qed.

(** A type discriminator determines its family and kinds.  The type derived from a topic is
    of the published type form, parses back to the topic's own family with exactly the kind
    parameters the topic carries, and reveals no instance level; and every topic that can be
    built has a type. *)
Lemma event_type_determines_family t :
  (∀ text, event_type t = Ok text →
     fullmatch TYPE_PATTERN text = true ∧
     ∃ ps, parse_event_type (PyStr text) = Ok (family t, ps) ∧
           dict_keys ps = holes (type_levels (family t)) ∧
           Forall (λ p, dict_get (parameters t) p.1 = Some p.2) ps) ∧
  (is_ok (format_topic t) = true → is_ok (event_type t) = true).
Proof.
  split; [intros; by apply event_type_parses|].
  unfold event_type. intros Hok. destruct (format_topic t) as [text|] eqn:E; [|done].
  apply format_topic_Ok in E as (_&_&rest&Hr&_).
  assert (Hex : ∃ bs, map_ok (fill (parameters t)) (levels (family t)) = Ok bs) by eauto.
  assert (Hsub : ∃ ls, map_ok (fill (parameters t)) (type_levels (family t)) = Ok ls).
  { apply map_ok_exists, Forall_forall. intros l Hl. rewrite map_ok_exists, Forall_forall in Hex.
    pose proof (type_levels_sub (family t)) as Hall. rewrite Forall_forall in Hall.
    destruct (Hall l Hl) as [Hp|Hin]; [|by apply Hex]. exists l. unfold fill. by rewrite Hp. }
  by destruct Hsub as [ls ->].
Qed.

Lemma event_type_determines_family_witness :
  event_type sample_topic = Ok "aerial-rescue.v1.drone.command.return-home" ∧
  fullmatch TYPE_PATTERN "aerial-rescue.v1.drone.command.return-home" = true ∧
  is_ok (event_type sample_topic) = true.
Proof.
  split; [by vm_compute|]. split.
  - apply (proj1 (event_type_determines_family sample_topic)). by vm_compute.
  - apply (proj2 (event_type_determines_family sample_topic)). by vm_compute.
Defined.

(** A structured refusal. *)
Definition structured (e : topic_failure) : Prop := e ≠ UnicodeEncodeError ∧ ∀ n, e ≠ KeyError n.

Lemma validated_level_Err p x e : validated_level p x = Err e → structured e.
Proof. unfold validated_level. destruct (conforms _ _); [done|]. by intros [= <-]. Qed.

Lemma bind_template_Err tpl ls e : bind_template tpl ls = Err e → structured e.
Proof.
  unfold bind_template. generalize (filter (λ p : string * string, is_placeholder p.1 = true) (zip tpl ls)).
  intros l [H|(?&_&H)]%bind_Err; [|done]. induction l as [|p l IH]; [done|]. cbn [map_ok] in H.
  apply bind_Err in H as [[H|(?&_&H)]%bind_Err|(?&_&[H|(?&_&H)]%bind_Err)]; try done; [|by apply IH].
  by eapply validated_level_Err.
Qed.

Lemma structured_refused e : structured (Refused e).
Proof. done. Qed.

Lemma family_for_Err ls text e : family_for ls text = Err e → structured e.
Proof. unfold family_for. destruct (first_family _ _); [done|]. by intros [= <-]. Qed.

(** The checks after the encoding, each a structured refusal. *)
Lemma parse_topic_text_Err text e :
  has_surrogate text = false → parse_topic (PyStr text) = Err e → structured e.
Proof.
  intros Hs. unfold parse_topic, encode_utf8. rewrite Hs. cbn [or_raise mbind result_bind].
  destruct (_ <? _)%nat; [intros [= <-]; apply structured_refused|].
  destruct (existsb _ _); [intros [= <-]; apply structured_refused|].
  destruct (negb _); [intros [= <-]; apply structured_refused|].
  intros [H'|(f&_&[H'|(m&_&[H'|(?&_&?)]%bind_Err)]%bind_Err)]%bind_Err; try done.
  - by eapply family_for_Err.
  - by eapply validated_level_Err.
  - by eapply bind_template_Err.
Qed.

(** [parse_topic] answers every value with a topic or a structured refusal, with one
    exception: text holding a lone surrogate, whatever else it holds, makes [str.encode] raise
    before any refusal is chosen. *)
Lemma parse_topic_failures v :
  (∀ name, parse_topic v ≠ Err (KeyError name)) ∧
  (parse_topic v = Err UnicodeEncodeError ↔ ∃ text, v = PyStr text ∧ has_surrogate text = true).
Proof.
  destruct v as [| | |text| | |]; try (split; [done|]; split; [done | by intros (?&?&_)]).
  destruct (has_surrogate text) eqn:Hs.
  - unfold parse_topic, encode_utf8. rewrite Hs. split; [done|]. split; eauto.
  - split; [intros n H; by destruct (proj2 (parse_topic_text_Err _ _ Hs H) n)|].
    split; [intros H; by destruct (proj1 (parse_topic_text_Err _ _ Hs H)) | intros (?&[= <-]&?); congruence].
Qed.
