(* ===== verification/Envelope.v ===== *)
(** * The application event envelope

    [packages/contracts/src/aerial_rescue_contracts/envelope.py]: the closed CloudEvents
    profile.  [parse_envelope] validates a decoded document member by member in the source's
    order and binds type, source, schema and payload; [envelope_document] writes it back;
    [check_topic_binding] ties an envelope to the topic it arrived on.  [envelope_failure] is
    everything that can escape, the structured refusals and the two lookups that are not. *)

From S2P Require Import Prelude PyStr Regex PyVal Canonical Instant Topics.
Local Open Scope string_scope.
Local Open Scope Z_scope.

Definition SPEC_VERSION : string := "1.0".
Definition DATA_CONTENT_TYPE : string := "application/json".
Definition SCHEMA_ID_BASE : string := "https://aerial-rescue.invalid/".

Definition is_hex_lower (c : ascii) : bool := is_digit c || in_range "a" "f" c.
Definition is_alnum (c : ascii) : bool := is_upper c || is_lower c || is_digit c.

(** [^urn:aerial-rescue:<kind>:[A-Za-z0-9][A-Za-z0-9_-]{0,63}$] *)
Definition SOURCE_PATTERN : re :=
  seqs [lit "urn:aerial-rescue:"; KIND_PATTERN; lit ":"; RChr is_alnum;
        upto 63 (RChr (λ c, is_alnum c || bool_decide (c = "_"%char) || bool_decide (c = "-"%char)))].

(** [^https://aerial-rescue\.invalid/schemas/v1/payload/<kind>\.schema\.json$] *)
Definition DATASCHEMA_PATTERN : re :=
  seqs [lit "https://aerial-rescue.invalid/schemas/v1/payload/"; KIND_PATTERN; lit ".schema.json"].

Definition SEQUENCE_DIGITS : nat := 15.
Definition SEQUENCE_PATTERN : re := rep SEQUENCE_DIGITS (RChr is_digit).
Definition MAX_SEQUENCE : Z := 10 ^ Z.of_nat SEQUENCE_DIGITS - 1.

(** [^00-(?!0{32})[0-9a-f]{32}-(?!0{16})[0-9a-f]{16}-[0-9a-f]{2}$] *)
Definition TRACEPARENT_PATTERN : re :=
  let hex := RChr is_hex_lower in
  RSeq (lit "00-")
    (not_ahead (rep 32 (lit "0"))
       (seqs [rep 32 hex; lit "-";
              not_ahead (rep 16 (lit "0")) (seqs [rep 16 hex; lit "-"; rep 2 hex])])).

(** [^[\x20-\x7e]{1,512}$] *)
Definition TRACESTATE_PATTERN : re :=
  let c := RChr (in_range " " "~") in RSeq c (upto 511 c).

Definition REQUIRED_MEMBERS : list string :=
  ["specversion"; "id"; "source"; "type"; "subject"; "time"; "datacontenttype"; "dataschema";
   "data"; "sequence"; "correlationid"; "traceparent"].
Definition OPTIONAL_MEMBERS : list string := ["causationid"; "tracestate"].
Definition ALLOWED_MEMBERS : list string := (REQUIRED_MEMBERS ++ OPTIONAL_MEMBERS)%list.

Definition TEXT_RULES : list (string * re) :=
  [("id", IDENTIFIER_PATTERN); ("source", SOURCE_PATTERN); ("type", TYPE_PATTERN);
   ("subject", IDENTIFIER_PATTERN); ("dataschema", DATASCHEMA_PATTERN);
   ("sequence", SEQUENCE_PATTERN); ("correlationid", IDENTIFIER_PATTERN);
   ("traceparent", TRACEPARENT_PATTERN)].
Definition OPTIONAL_RULES : list (string * re) :=
  [("causationid", IDENTIFIER_PATTERN); ("tracestate", TRACESTATE_PATTERN)].
Definition CONSTANTS : list (string * string) :=
  [("specversion", SPEC_VERSION); ("datacontenttype", DATA_CONTENT_TYPE)].
Definition MISSION_KEY : string := "missionId".

Definition TOPIC_PAYLOAD_PATHS : list (Family * list (string * list string)) :=
  [(OPERATOR_COMMAND, [("commandType", ["action"; "commandType"])]);
   (OPERATOR_APPROVAL, [("decision", ["decision"])]);
   (AGENT_PROPOSAL, [("agentName", ["agentName"]); ("proposalType", ["proposalType"])]);
   (EVIDENCE_DECISION, [("proposalId", ["proposalId"])]);
   (AUDIT, [("recordType", ["recordType"])])].

(** ** Refusals *)

Inductive EnvelopeRefusal : Set :=
| NOT_AN_OBJECT | UNKNOWN_MEMBER | MISSING_ATTRIBUTE | ATTRIBUTE_FORM | DATA_PROFILE
| RESERVED_MISSION | UNKNOWN_TYPE | SOURCE_BINDING | DATASCHEMA_BINDING | SUBJECT_BINDING
| PAYLOAD_BINDING | TOPIC_BINDING.

Record EnvelopeError : Set := { refusal : EnvelopeRefusal; attribute : string; value : pyval }.

(** Everything these functions can raise: the structured refusal, the canonical decoder's
    errors, a topic failure, and the [KeyError] of a member looked up by its printed key. *)
Inductive envelope_failure : Set :=
| Refused (e : EnvelopeError)
| Undecodable (e : decode_error)
| TopicFailure (e : topic_failure)
| KeyError (name : string).

Definition refuse {A} (r : EnvelopeRefusal) (name : string) (v : pyval) : result envelope_failure A :=
  Err (Refused {| refusal := r; attribute := name; value := v |}).

(** ** Bindings *)

Record Binding : Type := {
  bound_type : string; bound_family : Family; bound_schema : string; source_pattern : option re
}.

(** [_lifecycle_source_pattern] *)
Definition lifecycle_source_pattern (producer_kind : string) : re :=
  RSeq (lit ("urn:aerial-rescue:" ++ producer_kind ++ ":")) IDENTIFIER_PATTERN.

(** One row of the table: the type's suffix, the family, the schema's name, the producer. *)
Definition row (suffix : string) (f : Family) (schema : string) (producer : option string)
    : string * Binding :=
  let t := "aerial-rescue.v1." ++ suffix in
  (t, {| bound_type := t; bound_family := f;
         bound_schema := SCHEMA_ID_BASE ++ "schemas/v1/payload/" ++ schema ++ ".schema.json";
         source_pattern := lifecycle_source_pattern <$> producer |}).

Definition BINDINGS : list (string * Binding) :=
  [ row "operator.command.assign-sector" OPERATOR_COMMAND "operator-command" (Some "dashboard-api");
    row "operator.command.escalate-rescue" OPERATOR_COMMAND "operator-command" (Some "dashboard-api");
    row "operator.approval.approve" OPERATOR_APPROVAL "operator-approval" (Some "dashboard-api");
    row "operator.approval.reject" OPERATOR_APPROVAL "operator-approval" (Some "dashboard-api");
    row "drone.telemetry" DRONE_TELEMETRY "drone-telemetry" None;
    row "drone.event.salient" DRONE_EVENT "drone-event-salient" None;
    row "drone.event.connectivity-changed" DRONE_EVENT "drone-event-connectivity-changed"
        (Some "connectivity-lifecycle");
    row "mission.event.lifecycle" MISSION_EVENT "mission-event-lifecycle" (Some "mission-lifecycle");
    row "sector.event.lifecycle" SECTOR_EVENT "sector-event-lifecycle" (Some "sector-lifecycle");
    row "gateway.record" GATEWAY_RECORD "gateway-response" (Some "command-gateway");
    row "agent.proposal.candidate-location" AGENT_PROPOSAL "agent-proposal" (Some "command-gateway");
    row "evidence.decision" EVIDENCE_DECISION "evidence-decision" (Some "evidence-service");
    row "drone.command.assign-sector" DRONE_COMMAND "drone-command-assign-sector" None;
    row "drone.command.escalate-rescue" DRONE_COMMAND "drone-command-escalate-rescue"
        (Some "command-gateway");
    row "drone.command-result" DRONE_COMMAND_RESULT "drone-command-result" None;
    row "audit.proposal-normalization" AUDIT "audit" (Some "command-gateway");
    row "audit.evidence-decision" AUDIT "audit" (Some "evidence-service");
    row "audit.command-authorization" AUDIT "audit" (Some "command-gateway") ].

Definition binding_for (t : string) : result envelope_failure Binding :=
  or_raise (dict_get BINDINGS t)
    (Refused {| refusal := UNKNOWN_TYPE; attribute := "type"; value := PyStr t |}).

Record Envelope : Set := {
  id : string; source : string; type : string; subject : string; time : string;
  dataschema : string; sequence : string; correlation_id : string; traceparent : string;
  data : members; causation_id : option string; tracestate : option string
}.

(** ** Parsing *)

#[export] Instance envelope_faults : MemberFaults envelope_failure := {|
  not_an_object label v := Refused {| refusal := NOT_AN_OBJECT; attribute := label; value := v |};
  unknown_member n v := Refused {| refusal := UNKNOWN_MEMBER; attribute := n; value := v |};
  missing_member n := Refused {| refusal := MISSING_ATTRIBUTE; attribute := n; value := PyNone |};
  lookup_error := KeyError
|}.

(** [_members] *)
Definition check_members : pyval → result envelope_failure members :=
  closed_members "envelope" ALLOWED_MEMBERS REQUIRED_MEMBERS.

(** [_text] *)
Definition check_text (v : pyval) (name : string) (pattern : re) : result envelope_failure string :=
  match v with
  | PyStr s => if fullmatch pattern s then Ok s else refuse ATTRIBUTE_FORM name v
  | _ => refuse ATTRIBUTE_FORM name v
  end.

(** [_time] *)
Definition check_time (v : pyval) : result envelope_failure string :=
  text ← check_text v "time" INSTANT_PATTERN;
  map_err (λ _, Refused {| refusal := ATTRIBUTE_FORM; attribute := "time"; value := v |})
          (parse_instant (PyStr text)) ;;
  Ok text.

Section envelope.
Context `{Normalization}.

(** [_data] *)
Definition check_data (v : pyval) : result envelope_failure members :=
  match v with
  | PyDict d =>
      map_err (λ _, Refused {| refusal := DATA_PROFILE; attribute := "data"; value := v |})
              (canonical_bytes v) ;;
      Ok d
  | _ => refuse ATTRIBUTE_FORM "data" v
  end.

(** [members[name]]: [check_members] has made sure the required ones are there. *)
Definition check_constant (d : members) (c : string * string) : result envelope_failure unit :=
  raise_if (negb (bool_decide (get d c.1 = PyStr c.2)))
    (Refused {| refusal := ATTRIBUTE_FORM; attribute := c.1; value := get d c.1 |}).

Definition check_rule (d : members) (r : string * re) : result envelope_failure (string * string) :=
  s ← check_text (get d r.1) r.1 r.2; Ok (r.1, s).

(** [_forms] *)
Definition forms (d : members) : result envelope_failure (list (string * string)) :=
  map_ok (check_constant d) CONSTANTS ;;
  texts ← map_ok (check_rule d) TEXT_RULES;
  t ← check_time (get d "time");
  optional ← map_ok (check_rule d) (filter (λ r, has d r.1 = true) OPTIONAL_RULES);
  Ok (texts ++ ("time", t) :: optional)%list.

Definition text_of (texts : list (string * string)) (name : string) : string :=
  default "" (dict_get texts name).

(** [_reserved] *)
Definition reserved (texts : list (string * string)) : result envelope_failure unit :=
  raise_if (bool_decide (text_of texts "subject" = RESERVED_REPLY_MISSION))
    (Refused {| refusal := RESERVED_MISSION; attribute := "subject";
                value := PyStr (text_of texts "subject") |}).

(** [_bind] *)
Definition bind_envelope (texts : list (string * string)) (d : members) : result envelope_failure unit :=
  b ← binding_for (text_of texts "type");
  raise_if (match source_pattern b with
            | Some p => negb (fullmatch p (text_of texts "source")) | None => false end)
    (Refused {| refusal := SOURCE_BINDING; attribute := "source"; value := PyStr (text_of texts "source") |}) ;;
  raise_if (negb (bool_decide (text_of texts "dataschema" = bound_schema b)))
    (Refused {| refusal := DATASCHEMA_BINDING; attribute := "dataschema";
                value := PyStr (text_of texts "dataschema") |}) ;;
  raise_if (negb (bool_decide (get d MISSION_KEY = PyStr (text_of texts "subject"))))
    (Refused {| refusal := SUBJECT_BINDING; attribute := "subject";
                value := PyStr (text_of texts "subject") |}) ;;
  raise_if (bool_decide (bound_family b = OPERATOR_APPROVAL)
            && negb (bool_decide (get d "issuedAt" = PyStr (text_of texts "time"))))
    (Refused {| refusal := PAYLOAD_BINDING; attribute := "data.issuedAt"; value := get d "issuedAt" |}).

Definition parse_envelope (v : pyval) : result envelope_failure Envelope :=
  ms ← check_members v;
  texts ← forms ms;
  reserved texts ;;
  d ← check_data (get ms "data");
  bind_envelope texts d ;;
  Ok {| id := text_of texts "id"; source := text_of texts "source"; type := text_of texts "type";
        subject := text_of texts "subject"; time := text_of texts "time";
        dataschema := text_of texts "dataschema"; sequence := text_of texts "sequence";
        correlation_id := text_of texts "correlationid"; traceparent := text_of texts "traceparent";
        data := d; causation_id := dict_get texts "causationid";
        tracestate := dict_get texts "tracestate" |}.

Definition decode_envelope (limit : nat) (text : string) : result envelope_failure Envelope :=
  v ← map_err Undecodable (decode limit text); parse_envelope v.
End envelope.

(** ** Writing *)

Definition optional_member (name : string) (o : option string) : list (string * pyval) :=
  match o with Some s => [(name, PyStr s)] | None => [] end.

Definition envelope_document (e : Envelope) : members :=
  document (
    [("specversion", PyStr SPEC_VERSION); ("id", PyStr (id e)); ("source", PyStr (source e));
     ("type", PyStr (type e)); ("subject", PyStr (subject e)); ("time", PyStr (time e));
     ("datacontenttype", PyStr DATA_CONTENT_TYPE); ("dataschema", PyStr (dataschema e));
     ("data", PyDict (data e)); ("sequence", PyStr (sequence e));
     ("correlationid", PyStr (correlation_id e)); ("traceparent", PyStr (traceparent e))]
    ++ optional_member "causationid" (causation_id e)
    ++ optional_member "tracestate" (tracestate e))%list.

Definition sequence_text (value : Z) : option string :=
  if (value <? 0) || (MAX_SEQUENCE <? value) then None
  else Some (zero_padded SEQUENCE_DIGITS value).

(** ** Binding to a topic *)

(** [value.get(member) if isinstance(value, Mapping) else None], along the path. *)
Definition walk (path : list string) (v : pyval) : pyval :=
  foldl (λ v m, match v with PyDict d => get d m | _ => PyNone end) v path.

Definition repeated_paths (f : Family) : list (string * list string) :=
  default [] (dict_get TOPIC_PAYLOAD_PATHS f).

(** The payload paths a topic parameter must be repeated at, with the expected level. *)
Definition payload_bindings (t : Topic) : list (list string * string) :=
  (λ p, (default [p.1] (dict_get (repeated_paths (family t)) p.1), p.2)) <$>
    filter (λ p, dict_has (repeated_paths (family t)) p.1 || bool_decide (rule_for p.1 = IDENTIFIER) = true)
           (parameters t).

Definition check_topic_binding (e : Envelope) (t : Topic) : result envelope_failure unit :=
  ty ← map_err TopicFailure (event_type t);
  raise_if (negb (bool_decide (ty = type e)))
    (Refused {| refusal := TOPIC_BINDING; attribute := "type"; value := PyStr (type e) |}) ;;
  raise_if (negb (bool_decide (mission_id t = subject e)))
    (Refused {| refusal := TOPIC_BINDING; attribute := "subject"; value := PyStr (subject e) |}) ;;
  fold_ok (λ _ b,
    let v := walk b.1 (PyDict (data e)) in
    raise_if (negb (bool_decide (v = PyStr b.2)))
      (Refused {| refusal := TOPIC_BINDING; attribute := join "." b.1; value := v |}))
    tt (payload_bindings t).

(** ** What the checks establish *)

Lemma check_members_Ok v ms :
  check_members v = Ok ms ↔ v = PyDict ms ∧ closed ALLOWED_MEMBERS REQUIRED_MEMBERS ms.
Proof. apply closed_members_Ok. Qed.

Lemma check_text_Ok v name p s : check_text v name p = Ok s ↔ v = PyStr s ∧ fullmatch p s = true.
Proof.
  destruct v; cbn; try (split; [done | by intros [? _]]).
  destruct (fullmatch p s0) eqn:E; split; [intros [= <-] | intros [[= <-] _] | | intros [[= <-] ?]]; congruence || done.
Qed.

Lemma check_rule_Ok d r p :
  check_rule d r = Ok p ↔ ∃ s, get d r.1 = PyStr s ∧ fullmatch r.2 s = true ∧ p = (r.1, s).
Proof.
  unfold check_rule. rewrite bind_Ok. setoid_rewrite check_text_Ok. naive_solver.
Qed.

Lemma check_time_Ok v s :
  check_time v = Ok s ↔ v = PyStr s ∧ ∃ d, parse_instant (PyStr s) = Ok d.
Proof.
  unfold check_time. rewrite bind_Ok. setoid_rewrite check_text_Ok. split.
  - intros (t&[-> Hm]&(d&Hd%map_err_Ok&[= <-])%bind_Ok). eauto.
  - intros (->&d&Hd). exists s. split.
    + split; [done|]. cbn [parse_instant] in Hd. run_ok. by bools.
    + rewrite (proj2 (map_err_Ok _ _ _) Hd). done.
Qed.

(** A member is there, as text of its rule. *)
Definition text_member (d : members) (name : string) (p : re) (s : string) : Prop :=
  get d name = PyStr s ∧ fullmatch p s = true.

(** An optional member is absent, or there as text of its rule. *)
Definition optional_text (d : members) (name : string) (p : re) (o : option string) : Prop :=
  match o with
  | Some s => has d name = true ∧ text_member d name p s
  | None => has d name = false
  end.

Definition optional_pair (name : string) (o : option string) : list (string * string) :=
  match o with Some s => [(name, s)] | None => [] end.

Lemma optional_rule d r rs opt :
  Forall2 (λ a b, check_rule d a = Ok b) (filter (λ r, has d r.1 = true) (r :: rs)) opt →
  ∃ o opt', opt = (optional_pair r.1 o ++ opt')%list ∧ optional_text d r.1 r.2 o ∧
            Forall2 (λ a b, check_rule d a = Ok b) (filter (λ r, has d r.1 = true) rs) opt'.
Proof.
  rewrite filter_cons. case_decide as Hhas; intros H.
  - apply Forall2_cons_inv_l in H as (p&opt'&(s&Hg&Hm&->)%check_rule_Ok&Hopt&->).
    by exists (Some s), opt'.
  - exists None, opt. cbn. by destruct (has d r.1).
Qed.

Lemma forms_Ok d texts :
  forms d = Ok texts →
  get d "specversion" = PyStr SPEC_VERSION ∧ get d "datacontenttype" = PyStr DATA_CONTENT_TYPE ∧
  ∃ i so ty su ds se co tp ti ca ts,
    texts = ([("id", i); ("source", so); ("type", ty); ("subject", su); ("dataschema", ds);
              ("sequence", se); ("correlationid", co); ("traceparent", tp); ("time", ti)]
             ++ optional_pair "causationid" ca ++ optional_pair "tracestate" ts)%list ∧
    text_member d "id" IDENTIFIER_PATTERN i ∧ text_member d "source" SOURCE_PATTERN so ∧
    text_member d "type" TYPE_PATTERN ty ∧ text_member d "subject" IDENTIFIER_PATTERN su ∧
    text_member d "dataschema" DATASCHEMA_PATTERN ds ∧ text_member d "sequence" SEQUENCE_PATTERN se ∧
    text_member d "correlationid" IDENTIFIER_PATTERN co ∧
    text_member d "traceparent" TRACEPARENT_PATTERN tp ∧
    (get d "time" = PyStr ti ∧ ∃ x, parse_instant (PyStr ti) = Ok x) ∧
    optional_text d "causationid" IDENTIFIER_PATTERN ca ∧ optional_text d "tracestate" TRACESTATE_PATTERN ts.
Proof.
  unfold forms. intros (us&Hc&(tx&Ht&(ti&Hti&(opt&Hopt&[= <-])%bind_Ok)%bind_Ok)%bind_Ok)%bind_Ok.
  apply map_ok_Forall2 in Hc, Ht, Hopt. unfold CONSTANTS, TEXT_RULES in *.
  repeat match goal with H : Forall2 _ (_ :: _) _ |- _ =>
    apply Forall2_cons_inv_l in H as (?&?&?&?&->) end.
  repeat match goal with H : Forall2 _ [] _ |- _ => apply Forall2_nil_inv_l in H as -> end.
  repeat match goal with H : check_rule _ _ = Ok _ |- _ => apply check_rule_Ok in H as (?&?&?&->) end.
  unfold check_constant in *. run_ok. bools. cbn [fst snd] in *. split; [done|]. split; [done|].
  apply check_time_Ok in Hti.
  assert (Ho : ∃ ca ts, opt = (optional_pair "causationid" ca ++ optional_pair "tracestate" ts)%list ∧
    optional_text d "causationid" IDENTIFIER_PATTERN ca ∧ optional_text d "tracestate" TRACESTATE_PATTERN ts).
  { unfold OPTIONAL_RULES in Hopt. clear -Hopt.
    apply optional_rule in Hopt as (ca&opt1&->&Hca&Hopt). apply optional_rule in Hopt as (ts&opt2&->&Hts&Hopt).
    apply Forall2_nil_inv_l in Hopt as ->. exists ca, ts. by rewrite app_nil_r. }
  destruct Ho as (ca&ts&->&Hca&Hts).
  do 11 eexists. split; [reflexivity|]. unfold text_member. tauto.
Qed.

(** ** Members are all that matters *)

#[export] Instance forms_proper : Proper (dict_equiv ==> eq) forms.
Proof.
  intros d d' Hd. assert (Hg : ∀ n, get d n = get d' n) by (intros n; by apply get_proper).
  assert (Hh : ∀ n, has d n = has d' n) by (intros n; by apply has_proper).
  assert (Hr : ∀ r, check_rule d r = check_rule d' r) by (intros r; unfold check_rule; by rewrite Hg).
  assert (Hc : ∀ c, check_constant d c = check_constant d' c) by (intros c; unfold check_constant; by rewrite Hg).
  unfold forms. rewrite (map_ok_ext _ _ _ Hc), (map_ok_ext _ _ TEXT_RULES Hr), Hg.
  rewrite (list_filter_iff _ (λ r, has d' r.1 = true)) by (intros r; by rewrite Hh).
  by rewrite (map_ok_ext _ _ (filter _ OPTIONAL_RULES) Hr).
Qed.

Lemma check_members_equiv d d' :
  dict_equiv d d' → check_members (PyDict d) = Ok d → check_members (PyDict d') = Ok d'.
Proof.
  intros Hd [_ Hc]%check_members_Ok. apply check_members_Ok. split; [done|]. by eapply closed_equiv_dict.
Qed.

Section theorems.
Context `{Normalization}.

(** Acceptance by [parse_envelope], one clause per stage. *)
Lemma parse_envelope_Ok v e :
  parse_envelope v = Ok e ↔
  ∃ d texts dd, v = PyDict d ∧ check_members v = Ok d ∧ forms d = Ok texts ∧ reserved texts = Ok tt ∧
    check_data (get d "data") = Ok dd ∧ bind_envelope texts dd = Ok tt ∧
    e = {| id := text_of texts "id"; source := text_of texts "source"; type := text_of texts "type";
        subject := text_of texts "subject"; time := text_of texts "time";
        dataschema := text_of texts "dataschema"; sequence := text_of texts "sequence";
        correlation_id := text_of texts "correlationid"; traceparent := text_of texts "traceparent";
        data := dd; causation_id := dict_get texts "causationid";
        tracestate := dict_get texts "tracestate" |}.
Proof.
  unfold parse_envelope. split.
  - intros (d&Hm&(texts&Hf&([]&Hr&(dd&Hd&([]&Hb&[= <-])%bind_Ok)%bind_Ok)%bind_Ok)%bind_Ok)%bind_Ok.
    pose proof Hm as (->&_)%check_members_Ok. by exists d, texts, dd.
  - intros (d&texts&dd&->&Hm&Hf&Hr&Hd&Hb&->). rewrite Hm. cbn [mbind result_bind].
    rewrite Hf. cbn [mbind result_bind]. rewrite Hr. cbn [mbind result_bind].
    rewrite Hd. cbn [mbind result_bind]. by rewrite Hb.
Qed.

Lemma parse_envelope_equiv d d' e :
  dict_equiv d d' → parse_envelope (PyDict d) = Ok e → parse_envelope (PyDict d') = Ok e.
Proof.
  intros Hd (?&texts&dd&[= <-]&Hm&Hf&Hr&Hdd&Hb&->)%parse_envelope_Ok. apply parse_envelope_Ok.
  exists d', texts, dd. split; [done|]. split; [by eapply check_members_equiv|].
  split; [by rewrite <- (forms_proper _ _ Hd)|]. split; [done|].
  split; [by rewrite <- (get_proper _ _ Hd _ _ eq_refl) | done].
Qed.

Lemma check_data_Ok v d : check_data v = Ok d ↔ v = PyDict d ∧ is_ok (canonical_bytes v) = true.
Proof.
  destruct v; cbn [check_data]; try (split; [done | by intros [? _]]).
  destruct (canonical_bytes _) eqn:E; cbn; rewrite ?E; naive_solver.
Qed.

Lemma optional_text_get d n p o : optional_text d n p o → dict_get d (KStr n) = PyStr <$> o.
Proof.
  destruct o as [s|]; cbn [optional_text]; [|by intros ?%has_false]. intros (Hh&Hg&_). by apply has_get.
Qed.

(** The document's members are the envelope's, name by name. *)
Lemma envelope_document_members e n :
  dict_get (envelope_document e) (KStr n) =
  dict_get ([("specversion", PyStr SPEC_VERSION); ("id", PyStr (id e)); ("source", PyStr (source e));
     ("type", PyStr (type e)); ("subject", PyStr (subject e)); ("time", PyStr (time e));
     ("datacontenttype", PyStr DATA_CONTENT_TYPE); ("dataschema", PyStr (dataschema e));
     ("data", PyDict (data e)); ("sequence", PyStr (sequence e));
     ("correlationid", PyStr (correlation_id e)); ("traceparent", PyStr (traceparent e))]
    ++ optional_member "causationid" (causation_id e)
    ++ optional_member "tracestate" (tracestate e))%list n.
Proof. apply member_document. Qed.

Lemma envelope_document_allowed e k :
  k ∈ dict_keys (envelope_document e) → key_in ALLOWED_MEMBERS k = true.
Proof.
  revert k. apply Forall_forall.
  destruct e as [? ? ? ? ? ? ? ? ? ? [ca|] [ts|]]; repeat constructor.
Qed.

Lemma envelope_document_equiv d e : parse_envelope (PyDict d) = Ok e → dict_equiv (envelope_document e) d.
Proof.
  intros (?&texts&dd&[= <-]&Hm&Hf&_&Hdd&_&->)%parse_envelope_Ok.
  apply check_members_Ok in Hm as (_&Hk&Hreq). apply check_data_Ok in Hdd as [Hdd _].
  apply forms_Ok in Hf as (Hsv&Hct&i&so&ty&su&ds&se&co&tp&ti&ca&ts&->&[Hi _]&[Hso _]&[Hty _]&[Hsu _]&[Hds _]
    &[Hse _]&[Hco _]&[Htp _]&[Hti _]&Hca&Hts).
  apply optional_text_get in Hca, Hts.
  apply (closed_agree ALLOWED_MEMBERS); [apply envelope_document_allowed | exact Hk |].
  assert (Hget : ∀ m v, m ∈ REQUIRED_MEMBERS → get d m = v → dict_get d (KStr m) = Some v)
    by (intros m v Hm Hg; apply has_get; [by apply Hreq | done]).
  intros n Hin. rewrite envelope_document_members.
  unfold ALLOWED_MEMBERS, REQUIRED_MEMBERS, OPTIONAL_MEMBERS in Hin. cbn in Hin.
  repeat (apply elem_of_cons in Hin as [->|Hin]); try (by apply elem_of_nil in Hin);
    try (symmetry; apply Hget; [by apply (bool_decide_unpack _) | done]).
  - rewrite Hca. by destruct ca, ts.
  - rewrite Hts. by destruct ca, ts.
Qed.
End theorems.

(** C33: the envelope keeps everything its document said.  Whenever [parse_envelope] accepts a
    document, [envelope_document] writes a document with exactly the same members, optional
    ones omitted when absent, and parsing that document gives the same envelope back. *)
Theorem envelope_roundtrip `{Normalization} d e :
  parse_envelope (PyDict d) = Ok e →
  dict_equiv (envelope_document e) d ∧ parse_envelope (PyDict (envelope_document e)) = Ok e.
Proof.
  intros He. pose proof (envelope_document_equiv _ _ He) as Hd. split; [done|].
  eapply parse_envelope_equiv; [|exact He]. by symmetry.
Qed.

(** A telemetry envelope, for the witnesses. *)
Definition sample_payload : members :=
  [(KStr "missionId", PyStr "mission-1"); (KStr "droneId", PyStr "drone-1")].

Definition sample_envelope : Envelope :=
  {| id := "event-1"; source := "urn:aerial-rescue:simulator:sim-1";
     type := "aerial-rescue.v1.drone.telemetry"; subject := "mission-1";
     time := "2026-07-28T09:00:00.000Z";
     dataschema := "https://aerial-rescue.invalid/schemas/v1/payload/drone-telemetry.schema.json";
     sequence := "000000000000007"; correlation_id := "trace-1";
     traceparent := "00-0af7651916cd43dd8448eb211c80319c-b7ad6b7169203331-01";
     data := sample_payload; causation_id := None; tracestate := None |}.

Definition sample_arrival : Topic :=
  {| family := DRONE_TELEMETRY; mission_id := "mission-1"; parameters := [("droneId", "drone-1")] |}.

Lemma envelope_roundtrip_witness :
  dict_equiv (envelope_document sample_envelope) (envelope_document sample_envelope) ∧
  parse_envelope (H := ascii_normalization) (PyDict (envelope_document sample_envelope)) = Ok sample_envelope.
Proof. apply (envelope_roundtrip (H := ascii_normalization)). by vm_compute. Defined.

Section accepted.
Context `{Normalization}.

Lemma bind_envelope_Ok texts d :
  bind_envelope texts d = Ok tt ↔
  ∃ b, dict_get BINDINGS (text_of texts "type") = Some b ∧
    (∀ p, source_pattern b = Some p → fullmatch p (text_of texts "source") = true) ∧
    text_of texts "dataschema" = bound_schema b ∧
    get d MISSION_KEY = PyStr (text_of texts "subject") ∧
    (bound_family b = OPERATOR_APPROVAL → get d "issuedAt" = PyStr (text_of texts "time")).
Proof.
  unfold bind_envelope, binding_for. rewrite bind_Ok. setoid_rewrite or_raise_Ok. split.
  - intros (b&Hb&Hr). exists b. split; [done|]. run_ok. bools. split.
    + intros p Hp. rewrite Hp in H0. by bools.
    + split; [done|]. split; [done|]. intros Hf. apply andb_false_iff in H3 as [H3|H3]; by bools.
  - intros (b&Hb&Hs&Hd&Hm&Ha). exists b. split; [done|].
    assert (Hs' : match source_pattern b with
      | Some p => negb (fullmatch p (text_of texts "source")) | None => false end = false)
      by (destruct (source_pattern b) as [p|]; [by rewrite Hs|done]).
    rewrite Hs', (bool_decide_true _ Hd), (bool_decide_true _ Hm). cbn.
    destruct (bool_decide (bound_family b = OPERATOR_APPROVAL)) eqn:E; [|done]. bools.
    by rewrite bool_decide_true by auto.
Qed.
End accepted.

Section accepted_envelope.
Context `{Normalization}.

(** What an accepted envelope is bound to. *)
Lemma accepted_binding v e :
  parse_envelope v = Ok e →
  ∃ b, dict_get BINDINGS (type e) = Some b ∧
    (∀ p, source_pattern b = Some p → fullmatch p (source e) = true) ∧
    dataschema e = bound_schema b ∧ get (data e) MISSION_KEY = PyStr (subject e) ∧
    (bound_family b = OPERATOR_APPROVAL → get (data e) "issuedAt" = PyStr (time e)).
Proof.
  intros (d&texts&dd&_&_&_&_&_&Hb&->)%parse_envelope_Ok. by apply bind_envelope_Ok in Hb.
Qed.

(** What an accepted envelope's own members satisfy. *)
Lemma accepted_forms v e :
  parse_envelope v = Ok e →
  fullmatch IDENTIFIER_PATTERN (id e) = true ∧ fullmatch SOURCE_PATTERN (source e) = true ∧
  fullmatch IDENTIFIER_PATTERN (subject e) = true ∧ subject e ≠ RESERVED_REPLY_MISSION ∧
  fullmatch SEQUENCE_PATTERN (sequence e) = true ∧ fullmatch TRACEPARENT_PATTERN (traceparent e) = true ∧
  (∃ t, parse_instant (PyStr (time e)) = Ok t) ∧ is_ok (canonical_bytes (PyDict (data e))) = true.
Proof.
  intros (d&texts&dd&_&_&Hf&Hr&Hdd&_&->)%parse_envelope_Ok.
  apply check_data_Ok in Hdd as [Hdd Hok]. unfold reserved in Hr. run_ok. bools.
  apply forms_Ok in Hf as (_&_&i&so&ty&su&ds&se&co&tp&ti&ca&ts&->&[_ Hi]&[_ Hso]&_&[_ Hsu]&_
    &[_ Hse]&_&[_ Htp]&[_ Hti]&_&_).
  rewrite Hdd in Hok. done.
Qed.
End accepted_envelope.

(** An accepted envelope says one thing.  Its type is one of the bound types, its schema and
    producer are the bound ones, its payload names the same mission as its subject, which is
    never the reserved reply identifier, an approval's payload repeats its time, and the payload
    is inside the canonical profile. *)
Lemma accepted_envelope_bound `{Normalization} v e :
  parse_envelope v = Ok e →
  (∃ b, dict_get BINDINGS (type e) = Some b ∧
    (∀ p, source_pattern b = Some p → fullmatch p (source e) = true) ∧
    dataschema e = bound_schema b ∧ get (data e) MISSION_KEY = PyStr (subject e) ∧
    (bound_family b = OPERATOR_APPROVAL → get (data e) "issuedAt" = PyStr (time e))) ∧
  fullmatch IDENTIFIER_PATTERN (subject e) = true ∧ subject e ≠ RESERVED_REPLY_MISSION ∧
  (∃ t, parse_instant (PyStr (time e)) = Ok t) ∧ is_ok (canonical_bytes (PyDict (data e))) = true.
Proof.
  intros He. split; [by eapply accepted_binding|]. apply accepted_forms in He. tauto.
Qed.

Lemma accepted_envelope_bound_witness :
  fullmatch IDENTIFIER_PATTERN (subject sample_envelope) = true ∧
  subject sample_envelope ≠ RESERVED_REPLY_MISSION.
Proof.
  pose proof (accepted_envelope_bound (H := ascii_normalization) (PyDict (envelope_document sample_envelope))
    sample_envelope ltac:(vm_compute; reflexivity)) as (_&H1&H2&_). exact (conj H1 H2).
Defined.

(** ** Topics and envelopes *)

(** Every bound type derives from a topic of the bound family. *)
Lemma bindings_families :
  Forall (λ p : string * Binding, ok_value (fst <$> parse_event_type (PyStr p.1)) = Some (bound_family p.2)) BINDINGS.
Proof. unfold BINDINGS. repeat constructor; by vm_compute. Qed.

Lemma repeated_identifier_paths f :
  Forall (λ q, rule_for q.1 = IDENTIFIER → q.2 = [q.1]) (repeated_paths f).
Proof. destruct f; unfold repeated_paths; cbn; repeat constructor; by intros H; vm_compute in H. Qed.

Lemma fold_raise_Ok {E A} (f : A → result E unit) l :
  fold_ok (λ _ a, f a) tt l = Ok tt ↔ Forall (λ a, f a = Ok tt) l.
Proof.
  induction l as [|a l IH]; cbn; [split; [constructor | done]|]. rewrite Forall_cons, <- IH.
  destruct (f a) as [[]|]; cbn; naive_solver.
Qed.

Lemma check_topic_binding_Ok e t :
  check_topic_binding e t = Ok tt ↔
  event_type t = Ok (type e) ∧ mission_id t = subject e ∧
  Forall (λ b, walk b.1 (PyDict (data e)) = PyStr b.2) (payload_bindings t).
Proof.
  unfold check_topic_binding. rewrite bind_Ok. setoid_rewrite map_err_Ok. split.
  - intros (ty&Ht&Hr). apply bind_Ok in Hr as ([]&H1&Hr). apply bind_Ok in Hr as ([]&H2&Hr).
    apply raise_if_Ok in H1, H2. bools. subst. split; [done|]. split; [done|].
    apply fold_raise_Ok in Hr. eapply Forall_impl; [exact Hr|]. cbn. intros b Hb.
    apply raise_if_Ok in Hb. by bools.
  - intros (Ht&Hm&Hall). exists (type e). split; [done|]. rewrite !bool_decide_true by done. cbn.
    apply fold_raise_Ok. eapply Forall_impl; [exact Hall|]. cbn. intros b ->. by rewrite bool_decide_true.
Qed.

(** An envelope is accepted on a topic only where it belongs: the topic's family is the one
    bound to the envelope's type, the topic's mission is the payload's own mission, and every
    identifier the topic names is repeated in the payload. *)
Lemma topic_binding_agrees `{Normalization} v e t :
  parse_envelope v = Ok e → check_topic_binding e t = Ok tt →
  (∃ b, dict_get BINDINGS (type e) = Some b ∧ bound_family b = family t) ∧
  get (data e) MISSION_KEY = PyStr (mission_id t) ∧
  ∀ name level, (name, level) ∈ parameters t → rule_for name = IDENTIFIER →
    get (data e) name = PyStr level.
Proof.
  intros He (Ht&Hm&Hall)%check_topic_binding_Ok.
  destruct (accepted_binding _ _ He) as (b&Hb&_&_&Hmis&_). split; [|split].
  - exists b. split; [done|]. apply dict_get_elem in Hb. pose proof bindings_families as Hf.
    rewrite Forall_forall in Hf. specialize (Hf _ Hb). cbn [fst snd] in Hf.
    destruct (event_type_parses _ _ Ht) as (_&ps&Hp&_). rewrite Hp in Hf. cbn in Hf. congruence.
  - by rewrite Hm.
  - intros name level Hin Hrule. unfold payload_bindings in Hall. rewrite Forall_fmap in Hall.
    rewrite Forall_forall in Hall. specialize (Hall (name, level)). cbn [fst snd compose] in Hall.
    assert (Hpath : default [name] (dict_get (repeated_paths (family t)) name) = [name]).
    { destruct (dict_get _ name) as [path|] eqn:E; [|done]. apply dict_get_elem in E.
      pose proof (repeated_identifier_paths (family t)) as Hr. rewrite Forall_forall in Hr. by apply (Hr _ E). }
    rewrite Hpath in Hall. apply Hall, list_elem_of_filter. split; [|done].
    cbn. by rewrite Hrule, bool_decide_true, orb_true_r.
Qed.

Lemma topic_binding_agrees_witness :
  get (data sample_envelope) MISSION_KEY = PyStr (mission_id sample_arrival) ∧
  get (data sample_envelope) "droneId" = PyStr "drone-1".
Proof.
  pose proof (topic_binding_agrees (H := ascii_normalization) (PyDict (envelope_document sample_envelope))
    sample_envelope sample_arrival ltac:(vm_compute; reflexivity) ltac:(vm_compute; reflexivity)) as (_&H1&H2).
  split; [exact H1 | apply H2; [left | vm_compute; reflexivity]].
Defined.

(** ** Sequences *)

(** Rendering a producer's sequence numbers keeps their order: a number is refused exactly
    outside 0 to 10^15 - 1, every rendering matches the envelope's pattern and denotes its
    number, and comparing renderings as text compares the numbers. *)
Lemma sequence_text_ordered n m :
  (sequence_text n = None ↔ n < 0 ∨ MAX_SEQUENCE < n) ∧
  (∀ s, sequence_text n = Some s → fullmatch SEQUENCE_PATTERN s = true ∧ digits_value 0 s = n) ∧
  (∀ s s', sequence_text n = Some s → sequence_text m = Some s' →
     String.compare s s' = Z.compare n m).
Proof.
  assert (Hspec : ∀ k s, sequence_text k = Some s →
    s = fixed_dec SEQUENCE_DIGITS k ∧ 0 ≤ k < 10 ^ Z.of_nat SEQUENCE_DIGITS).
  { intros k s. unfold sequence_text. case_match; [done|]. bools. intros [= <-].
    unfold MAX_SEQUENCE in *. split; [|lia]. apply (zero_padded_fixed 14). unfold SEQUENCE_DIGITS in *. lia. }
  split; [|split].
  - unfold sequence_text. destruct (n <? 0) eqn:?, (MAX_SEQUENCE <? n) eqn:?; bools; cbn; (split; [|done || lia]); intros; lia || done.
  - intros s (->&Hn)%Hspec. split; [|by apply fixed_dec_value].
    apply fullmatch_lang, lang_rep. by rewrite fixed_dec_length, fixed_dec_digits.
  - intros s s' (->&Hn)%Hspec (->&Hm)%Hspec.
    rewrite (compare_digits _ _ 0), !fixed_dec_value; rewrite ?fixed_dec_length, ?fixed_dec_digits; done || lia.
Qed.

Lemma sequence_text_ordered_witness :
  fullmatch SEQUENCE_PATTERN "000000000000042" = true ∧
  String.compare "000000000000009" "000000000000042" = Z.compare 9 42.
Proof.
  split.
  - apply (sequence_text_ordered 42 0). vm_compute. reflexivity.
  - apply (sequence_text_ordered 9 42); vm_compute; reflexivity.
Defined.

(** ** The failures *)

(** The stages after the member check refuse in the structured way only. *)
Lemma check_text_Err v name p e : check_text v name p = Err e → ∃ r, e = Refused r.
Proof. destruct v; cbn; try (intros [= <-]; by eexists). destruct (fullmatch _ _); [done|]. intros [= <-]. by eexists. Qed.

Lemma forms_Err d e : forms d = Err e → ∃ r, e = Refused r.
Proof.
  assert (Hrule : ∀ r x, check_rule d r = Err x → ∃ r, x = Refused r).
  { intros r x [H|(?&_&?)]%bind_Err; [by eapply check_text_Err | done]. }
  unfold forms. intros [(c&_&H)%map_ok_Err|(?&_&[(r&_&H)%map_ok_Err|(?&_&[H|(?&_&[(r&_&H)%map_ok_Err|(?&_&?)]%bind_Err)]%bind_Err)]%bind_Err)]%bind_Err.
  - apply raise_if_Err in H as [_ <-]. by eexists.
  - by eapply Hrule.
  - unfold check_time in H. apply bind_Err in H as [H|(s&_&[(?&_&<-)%map_err_Err|(?&_&?)]%bind_Err)];
      [by eapply check_text_Err | by eexists | done].
  - by eapply Hrule.
  - done.
Qed.

Lemma bind_envelope_Err texts d e : bind_envelope texts d = Err e → ∃ r, e = Refused r.
Proof.
  unfold bind_envelope, binding_for. intros H.
  repeat first [ apply bind_Err in H as [H|(?&_&H)]
               | apply raise_if_Err in H as [_ <-]; by eexists
               | apply or_raise_Err in H as [_ <-]; by eexists ].
Qed.

Lemma later_stages_refuse `{Normalization} ms e :
  (texts ← forms ms;
   reserved texts ;;
   d ← check_data (get ms "data");
   bind_envelope texts d ;;
   Ok (E:=envelope_failure) {| id := text_of texts "id"; source := text_of texts "source"; type := text_of texts "type";
        subject := text_of texts "subject"; time := text_of texts "time";
        dataschema := text_of texts "dataschema"; sequence := text_of texts "sequence";
        correlation_id := text_of texts "correlationid"; traceparent := text_of texts "traceparent";
        data := d; causation_id := dict_get texts "causationid";
        tracestate := dict_get texts "tracestate" |}) = Err e → ∃ r, e = Refused r.
Proof.
  intros [H1|(texts&_&[H1|(?&_&[H1|(d&_&[H1|(?&_&?)]%bind_Err)]%bind_Err)]%bind_Err)]%bind_Err.
  - by eapply forms_Err.
  - apply raise_if_Err in H1 as [_ <-]. by eexists.
  - destruct (get ms "data"); cbn [check_data] in H1; try (injection H1 as <-; by eexists).
    apply bind_Err in H1 as [(?&_&<-)%map_err_Err|(?&_&?)]; [by eexists | done].
  - by eapply bind_envelope_Err.
  - done.
Qed.

(** A document whose first unknown member, in the order of printed keys, has a key that is
    not text is not refused as an unknown member: looking the printed key up again raises
    [KeyError], which is no [EnvelopeError].  Documents with text keys never meet it. *)
Lemma unknown_member_key_error `{Normalization} d :
  (∀ k us, unknown_names ALLOWED_MEMBERS d = k :: us →
     KStr k ∉ d.*1 → parse_envelope (PyDict d) = Err (KeyError k)) ∧
  ((∀ k, k ∈ d.*1 → ∃ s, k = KStr s) → ∀ n, parse_envelope (PyDict d) ≠ Err (KeyError n)).
Proof.
  split.
  - intros k us Hu Hk. unfold parse_envelope, check_members, closed_members. rewrite Hu.
    unfold member. by rewrite (proj2 (dict_get_None d (KStr k)) Hk).
  - intros Htext n. unfold parse_envelope. intros [Hm|(ms&_&Hr)]%bind_Err.
    + by apply closed_members_text_keys in Hm as [(?&?&?)|(?&?)].
    + destruct (later_stages_refuse _ _ Hr) as [r [=]].
Qed.

Lemma unknown_member_key_error_witness :
  parse_envelope (H := ascii_normalization) (PyDict [(KOther "7", PyNone)]) = Err (KeyError "7").
Proof.
  apply (proj1 (unknown_member_key_error (H := ascii_normalization) [(KOther "7", PyNone)]) "7" []);
    [vm_compute; reflexivity | by apply (bool_decide_unpack _)].
Defined.
