(* ===== verification/Sql.v ===== *)
(** * The relational store

    [packages/store] builds one SQL statement per operation with SQLAlchemy and reads its rows.
    This file holds the statements the repositories build, as data; the meaning the SQL
    standard and PostgreSQL document for them on one table ([run]); and [Database], the class
    of servers that execute a statement with that meaning, refuse it, or fail.  A transaction
    ([packages/store/src/aerial_rescue_store/session.py]) is a computation in [tx]: its effects
    are kept only when it returns.  Transactions are serial here: the isolation of concurrent
    ones is the server's. *)

From S2P Require Import Prelude PyStr PyVal.
From stdpp Require Import sorting.
Local Open Scope string_scope.
Local Open Scope Z_scope.

Inductive sqlval : Set := SNull | SText (s : string) | SInt (n : Z) | SBytes (b : string).

#[export] Instance sqlval_eq_dec : EqDecision sqlval.
Proof. solve_decision. Defined.

(** A stored row, by column. *)
Abbreviation row := (list (string * sqlval)).

(** ** Tables, as the metadata declares them *)

Inductive sqltype : Set := Varchar (n : nat) | SmallInteger | Integer | BigInteger | LargeBinary.

Record Column : Set := { column_name : string; column_type : sqltype; nullable : bool }.

(** The conditions of the check constraints. *)
Inductive check : Set :=
| CIn (c : string) (vs : list string)
| CBetween (c : string) (lo hi : Z)
| CMin (c : string) (lo : Z)
| CHex64 (c : string)
| CFilled (c : string)
| CNull (c : string)
| CNot (a : check)
| CAnd (a b : check)
| COr (a b : check).

Record Table : Set := {
  table_name : string; table_columns : list Column;
  unique_keys : list (list string); checks : list check
}.

#[export] Instance sqltype_eq_dec : EqDecision sqltype.
Proof. solve_decision. Defined.
#[export] Instance Column_eq_dec : EqDecision Column.
Proof. solve_decision. Defined.
#[export] Instance check_eq_dec : EqDecision check.
Proof. solve_decision. Defined.
#[export] Instance Table_eq_dec : EqDecision Table.
Proof. solve_decision. Defined.

Definition columns (t : Table) : list string := column_name <$> table_columns t.

(** ** Statements *)

Inductive cond : Set :=
| Equals (c : string) (v : sqlval)
| Differs (c : string) (v : sqlval)
| IsNull (c : string)
| Above (c : string) (n : Z)
| Either (a b : cond).

Inductive conflict : Set :=
| NoClause
| DoNothing (target : option (list string))
| DoIncrement (target : list string) (c : string) (step : Z).

(** [InsertIfFewer] is [INSERT ... SELECT literals WHERE (SELECT count of the table's rows
    satisfying counted) < bound]; [SelectUsage] is [SELECT count(c), coalesce(sum(octet_length(m1)
    + ... + octet_length(mk)), 0)] over the measured columns. *)
Inductive statement : Set :=
| Insert (t : Table) (values : row) (on_conflict : conflict) (returning : list string)
| InsertIfFewer (t : Table) (values : row) (counted : list cond) (bound : Z) (returning : list string)
| Update (t : Table) (where_ : list cond) (values : row) (returning : list string)
| Select (t : Table) (selected : list string) (where_ : list cond) (order_by : list string)
         (limit : option Z)
| SelectMax (t : Table) (c : string)
| SelectUsage (t : Table) (c : string) (measured : list string) (where_ : list cond).

Definition target (st : statement) : Table :=
  match st with
  | Insert t _ _ _ | InsertIfFewer t _ _ _ _ | Update t _ _ _ | Select t _ _ _ _ | SelectMax t _
  | SelectUsage t _ _ _ => t
  end.

(** ** The meaning of a statement on its table *)

Definition cell (r : row) (c : string) : sqlval := default SNull (dict_get r c).

Definition project (cs : list string) (r : row) : list sqlval := cell r <$> cs.

(** [a = b] is unknown, hence not true, when either side is null. *)
Definition sql_eq (a b : sqlval) : bool := bool_decide (a ≠ SNull ∧ a = b).

Definition of_type (ty : sqltype) (v : sqlval) : bool :=
  match ty, v with
  | Varchar n, SText s => (char_len s <=? n)%nat
  | SmallInteger, SInt z => (- 2 ^ 15 <=? z) && (z <? 2 ^ 15)
  | Integer, SInt z => (- 2 ^ 31 <=? z) && (z <? 2 ^ 31)
  | BigInteger, SInt z => (- 2 ^ 63 <=? z) && (z <? 2 ^ 63)
  | LargeBinary, SBytes _ => true
  | _, _ => false
  end.

Definition column_admits (r : row) (c : Column) : bool :=
  match cell r (column_name c) with
  | SNull => nullable c
  | v => of_type (column_type c) v
  end.

(** A condition on a null column is unknown, and a check constraint refuses only a false one. *)
Definition known (v : sqlval) (f : sqlval → bool) : option bool :=
  match v with SNull => None | v => Some (f v) end.

Fixpoint check_value (r : row) (k : check) : option bool :=
  match k with
  | CIn c vs => known (cell r c) (λ v, existsb (λ s, bool_decide (v = SText s)) vs)
  | CBetween c lo hi =>
      known (cell r c) (λ v, match v with SInt z => (lo <=? z) && (z <=? hi) | _ => false end)
  | CMin c lo => known (cell r c) (λ v, match v with SInt z => lo <=? z | _ => false end)
  | CHex64 c =>
      known (cell r c) (λ v, match v with
                             | SText s => str_all is_lower_hex s && (String.length s =? 64)%nat
                             | _ => false
                             end)
  | CFilled c =>
      known (cell r c) (λ v, match v with
                             | SText s | SBytes s => (0 <? String.length s)%nat
                             | _ => false
                             end)
  | CNull c => Some (bool_decide (cell r c = SNull))
  | CNot a => negb <$> check_value r a
  | CAnd a b =>
      match check_value r a, check_value r b with
      | Some false, _ | _, Some false => Some false
      | Some true, Some true => Some true
      | _, _ => None
      end
  | COr a b =>
      match check_value r a, check_value r b with
      | Some true, _ | _, Some true => Some true
      | Some false, Some false => Some false
      | _, _ => None
      end
  end.

(** The rows a table can hold. *)
Definition admitted (t : Table) (r : row) : bool :=
  forallb (column_admits r) (table_columns t) &&
  forallb (λ k, bool_decide (check_value r k ≠ Some false)) (checks t).

Fixpoint holds (r : row) (c : cond) : bool :=
  match c with
  | Equals c v => sql_eq (cell r c) v
  | Differs c v => bool_decide (cell r c ≠ SNull ∧ v ≠ SNull ∧ cell r c ≠ v)
  | IsNull c => bool_decide (cell r c = SNull)
  | Above c n => match cell r c with SInt m => n <? m | _ => false end
  | Either a b => holds r a || holds r b
  end.

Definition selects (w : list cond) (r : row) : bool := forallb (holds r) w.

Definition same_key (k : list string) (a b : row) : bool :=
  forallb (λ c, sql_eq (cell a c) (cell b c)) k.

Definition clash (ks : list (list string)) (a b : row) : bool := existsb (λ k, same_key k a b) ks.

(** A row of the table's columns; a column the statement does not name is null. *)
Definition make_row (t : Table) (values : row) : row := (λ c, (c, cell values c)) <$> columns t.

Definition assign (values : row) (r : row) : row := foldl (λ r v, dict_set r v.1 v.2) r values.

Definition where_rows (w : list cond) (l : list row) : list row := filter (λ r, selects w r = true) l.

Definition update_rows (w : list cond) (values : row) (l : list row) : list row :=
  (λ r, if selects w r then assign values r else r) <$> l.

Definition increment (k : list string) (c : string) (step : Z) (new r : row) : row :=
  if same_key k new r
  then dict_set r c (match cell r c with SInt n => SInt (n + step) | v => v end) else r.

(** [octet_length], unknown of a null; text is stored in UTF-8. *)
Definition octet_length (v : sqlval) : option Z :=
  match v with SText s | SBytes s => Some (Z.of_nat (String.length s)) | _ => None end.

Definition octets (cs : list string) (r : row) : option Z :=
  foldr (λ c n, m ← octet_length (cell r c); n ← n; Some (m + n)) (Some 0) cs.

(** The sum over the rows, of which nulls are left out. *)
Definition total_octets (cs : list string) (l : list row) : Z := foldr Z.add 0 (omap (octets cs) l).

(** [UniqueViolation] is a duplicate key, [CheckViolation] a row the table cannot hold,
    [Unavailable] everything else the driver reports;
    [MultipleRows] is SQLAlchemy's refusal to give one row out of several. *)
Inductive sql_failure : Set := UniqueViolation | CheckViolation | Unavailable | MultipleRows.

Section run.
Context (text_le : string → string → bool).

(** Ascending order: integers, text in the collation's order, nulls last. *)
Definition value_le (a b : sqlval) : bool :=
  match a, b with
  | SInt x, SInt y => x <=? y
  | SInt _, _ => true
  | _, SInt _ => false
  | SText x, SText y => text_le x y
  | SText _, _ => true
  | _, SText _ => false
  | SBytes x, SBytes y => bool_decide (String.le x y)
  | SBytes _, SNull => true
  | SNull, SBytes _ => false
  | SNull, SNull => true
  end.

Fixpoint values_le (a b : list sqlval) : bool :=
  match a, b with
  | x :: a, y :: b => if decide (x = y) then values_le a b else value_le x y
  | [], _ => true
  | _ :: _, [] => false
  end.

Definition row_le (cs : list string) (a b : row) : Prop :=
  values_le (project cs a) (project cs b) = true.

#[global] Instance row_le_dec cs a b : Decision (row_le cs a b).
Proof. unfold row_le. apply _. Defined.

Definition max_value (a b : sqlval) : sqlval :=
  match a, b with
  | SInt m, SInt n => SInt (Z.max m n)
  | SNull, v | v, SNull => v
  | v, _ => v
  end.

Definition insert_row (t : Table) (r : row) (oc : conflict) (ret : list string) (l : list row)
    : result sql_failure (list (list sqlval) * list row) :=
  if negb (admitted t r) then Err CheckViolation
  else if existsb (clash (unique_keys t) r) l then
    match oc with
    | DoNothing None => Ok ([], l)
    | DoNothing (Some k) => if existsb (same_key k r) l then Ok ([], l) else Err UniqueViolation
    | DoIncrement k c step =>
        if existsb (same_key k r) l then
          let l' := increment k c step r <$> l in
          if forallb (admitted t) l'
          then Ok (project ret <$> filter (λ x, same_key k r x = true) l', l')
          else Err CheckViolation
        else Err UniqueViolation
    | NoClause => Err UniqueViolation
    end
  else Ok ([project ret r], (l ++ [r])%list).

Definition run (st : statement) (l : list row) : result sql_failure (list (list sqlval) * list row) :=
  match st with
  | Insert t values oc ret => insert_row t (make_row t values) oc ret l
  | InsertIfFewer t values counted bound ret =>
      if Z.of_nat (length (where_rows counted l)) <? bound
      then insert_row t (make_row t values) NoClause ret l else Ok ([], l)
  | Update t w values ret =>
      let changed := assign values <$> where_rows w l in
      if forallb (admitted t) changed then Ok (project ret <$> changed, update_rows w values l)
      else Err CheckViolation
  | Select t cs w order limit =>
      let ordered := merge_sort (row_le order) (where_rows w l) in
      Ok (project cs <$> match limit with
                         | Some n => take (Z.to_nat n) ordered
                         | None => ordered
                         end, l)
  | SelectMax t c => Ok ([[foldr max_value SNull ((λ r, cell r c) <$> l)]], l)
  | SelectUsage t c measured w =>
      let l' := where_rows w l in
      Ok ([[SInt (Z.of_nat (length (filter (λ r, cell r c ≠ SNull) l'))); SInt (total_octets measured l')]], l)
  end.
End run.

(** The statements the repositories build: an update leaves every unique column alone, and an
    upsert touches none of its own key. *)
Definition well_formed (st : statement) : bool :=
  match st with
  | Update t _ values _ => forallb (λ c, bool_decide (c ∉ values.*1)) (concat (unique_keys t))
  | Insert t _ (DoIncrement k c _) _ =>
      bool_decide (k ∈ unique_keys t) && bool_decide (c ∉ concat (unique_keys t))
  | Insert t _ (DoNothing (Some k)) _ => bool_decide (k ∈ unique_keys t)
  | _ => true
  end.

(** ** The server *)

(** What the repositories rely on: a statement the server accepts means what [run] says, and
    changes no other table; a statement it refuses (a foreign key or partial index of the
    migrated schema, a timeout, a lost connection) raises.  Text is ordered by the database's
    collation. *)
Class Database := {
  db : Type;
  rows : db → Table → list row;
  permits : statement → db → bool;
  text_le : string → string → bool;
  text_le_order : PartialOrder (λ a b, text_le a b = true);
  text_le_total : Total (λ a b, text_le a b = true);
  execute : statement → db → result sql_failure (list (list sqlval) * db);
  execute_refused : ∀ st d, permits st d = false → ∃ e, execute st d = Err e;
  execute_run : ∀ st d, well_formed st = true → permits st d = true →
    match run text_le st (rows d (target st)) with
    | Err e => execute st d = Err e
    | Ok (out, after) =>
        ∃ d', execute st d = Ok (out, d') ∧
              ∀ t, rows d' t = if decide (t = target st) then after else rows d t
    end
}.

(** ** Transactions *)

Section transactions.
Context `{Database}.

Definition tx (E A : Type) : Type := db → result E (A * db).

#[global] Instance tx_ret {E} : MRet (tx E) := λ A a d, Ok (a, d).
#[global] Instance tx_bind {E} : MBind (tx E) := λ A B f m d,
  match m d with Ok (a, d') => f a d' | Err e => Err e end.

(** A computation without effects inside a transaction. *)
Definition pure {E A} (m : result E A) : tx E A := λ d, a ← m; Ok (a, d).

(** An exception seen through the caller's own failure type. *)
Definition lift {E E' A} (h : E → E') (m : tx E A) : tx E' A := λ d, map_err h (m d).

(** [transaction]: the body's effects are committed when it returns and rolled back when it
    raises. *)
Definition transaction {E A} (body : tx E A) (d : db) : result E A * db :=
  match body d with Ok (a, d') => (Ok a, d') | Err e => (Err e, d) end.

(** [session.execute(statement).all()] *)
Definition fetch_all (st : statement) : tx sql_failure (list (list sqlval)) := execute st.

(** [session.scalar]: the first column of the first row, [None] when there is no row or the
    column is null. *)
Definition scalar (st : statement) : tx sql_failure (option sqlval) :=
  out ← fetch_all st;
  mret (match head out ≫= head with Some SNull | None => None | Some v => Some v end).

(** [.one_or_none()] *)
Definition one_or_none (st : statement) : tx sql_failure (option (list sqlval)) :=
  out ← fetch_all st;
  match out with
  | [] => mret None
  | [r] => mret (Some r)
  | _ => pure (Err MultipleRows)
  end.
End transactions.

(** A repository's exception: its own refusal with the value it names, the driver's, or
    the [ValueError] of unpacking or converting a row that is not of the selected shape. *)
Inductive store_failure (R : Type) : Type :=
| Refused (refusal : R) (value : pyval)
| Driver (e : sql_failure)
| Unpack.
Arguments Refused {R} refusal value.
Arguments Driver {R} e.
Arguments Unpack {R}.

(** A cell as the Python object the driver returns. *)
Definition py (v : sqlval) : pyval :=
  match v with
  | SNull => PyNone | SText s => PyStr s | SInt n => PyInt n | SBytes b => PyOther b
  end.

(** [str(cell)] *)
Definition str_of (v : sqlval) : string :=
  match v with
  | SNull => "None" | SText s => s | SInt n => dec n | SBytes b => "b'" ++ b ++ "'"
  end.

(** [int(str(cell))] of an integer column. *)
Definition int_of {R} (v : sqlval) : result (store_failure R) Z :=
  match v with SInt n => Ok n | _ => Err Unpack end.

(** [None] is stored as null. *)
Definition text_or_null (o : option string) : sqlval := from_option SText SNull o.

(** [Enum(cell)]: the first member with that value. *)
Definition enum_of {A} (value : A → string) (members : list A) (v : sqlval) : option A :=
  match v with SText s => head (filter (λ a, value a = s) members) | _ => None end.

Lemma enum_of_Some {A} (value : A → string) members v a :
  enum_of value members v = Some a → v = SText (value a) ∧ a ∈ members.
Proof.
  destruct v as [|s| |]; try done. cbn. destruct (filter _ members) as [|b l] eqn:Hf; [done|].
  intros [= ->]. assert (Ha : a ∈ filter (λ a, value a = s) members) by (rewrite Hf; left).
  by apply list_elem_of_filter in Ha as [<- Ha].
Qed.

(** [raise Error(refusal, value)] *)
Definition refuse {R A} (r : R) (v : pyval) : result (store_failure R) A := Err (Refused r v).

(** A statement run by a repository, whose driver errors pass through. *)
Abbreviation sql m := (lift Driver m).

(** Read the cells of the rows that statements build. *)
Ltac value_in vs c :=
  lazymatch vs with
  | nil => constr:(SNull)
  | (c, ?v) :: _ => v
  | _ :: ?vs => value_in vs c
  | _ => let vs := eval hnf in vs in value_in vs c
  end.

Ltac row_values r :=
  lazymatch r with
  | make_row _ ?vs => vs
  | _ => let r := eval red in r in row_values r
  end.

Ltac cells :=
  repeat match goal with
  | |- context [cell ?r ?c] =>
      let vs := row_values r in let v := value_in vs c in change (cell r c) with v
  | H : context [cell ?r ?c] |- _ =>
      let vs := row_values r in let v := value_in vs c in change (cell r c) with v in H
  end.

(** A decidable closed fact. *)
Ltac by_decide := apply (bool_decide_unpack _); vm_compute; exact I.

#[export] Hint Extern 0 (_ ∈ unique_keys _) => by_decide : core.

(** ** Computations *)

Section tx_lemmas.
Context `{Database} {E : Type}.

Lemma tx_bind_Ok {A B} (m : tx E A) (f : A → tx E B) d p :
  (m ≫= f) d = Ok p ↔ ∃ a d', m d = Ok (a, d') ∧ f a d' = Ok p.
Proof.
  unfold mbind, tx_bind. destruct (m d) as [[a d']|e]; split; [eauto | | discriminate | ];
    intros (?&?&?&?); congruence.
Qed.

Lemma tx_bind_Err {A B} (m : tx E A) (f : A → tx E B) d e :
  (m ≫= f) d = Err e ↔ m d = Err e ∨ ∃ a d', m d = Ok (a, d') ∧ f a d' = Err e.
Proof.
  unfold mbind, tx_bind. destruct (m d) as [[a d']|e']; split.
  - eauto.
  - intros [|(?&?&?&?)]; congruence.
  - intros [=->]; auto.
  - intros [|(?&?&?&?)]; congruence.
Qed.

Lemma tx_bind_run {A B} (m : tx E A) (f : A → tx E B) d a d' :
  m d = Ok (a, d') → (m ≫= f) d = f a d'.
Proof. unfold mbind, tx_bind. by intros ->. Qed.

Lemma lift_run {E' A} (h : E' → E) (m : tx E' A) d p : m d = Ok p → lift h m d = Ok p.
Proof. unfold lift. by intros ->. Qed.

Lemma pure_Ok {A} (m : result E A) d a d' : pure m d = Ok (a, d') ↔ m = Ok a ∧ d' = d.
Proof. unfold pure. destruct m; cbn; split; intuition congruence. Qed.

Lemma pure_Err {A} (m : result E A) d e : pure m d = Err e ↔ m = Err e.
Proof. unfold pure. destruct m; cbn; split; congruence. Qed.

Lemma lift_Ok {E' A} (h : E → E') (m : tx E A) d p : lift h m d = Ok p ↔ m d = Ok p.
Proof. apply map_err_Ok. Qed.

Lemma lift_Err {E' A} (h : E → E') (m : tx E A) d e :
  lift h m d = Err e ↔ ∃ e', m d = Err e' ∧ h e' = e.
Proof. apply map_err_Err. Qed.

Lemma tx_ret_Ok {A} (a b : A) d d' : mret (M := tx E) a d = Ok (b, d') ↔ a = b ∧ d = d'.
Proof. unfold mret, tx_ret. split; [intros [= -> ->] | intros [-> ->]]; done. Qed.

Lemma transaction_Ok {A} (body : tx E A) d a d' :
  transaction body d = (Ok a, d') ↔ body d = Ok (a, d').
Proof. unfold transaction. destruct (body d) as [[]|]; split; congruence. Qed.

(** A transaction that raises has no effect. *)
Lemma transaction_Err {A} (body : tx E A) d e d' :
  transaction body d = (Err e, d') ↔ body d = Err e ∧ d' = d.
Proof. unfold transaction. destruct (body d) as [[]|]; split; intuition congruence. Qed.
End tx_lemmas.

(** Invert every transactional success in the context. *)
Ltac run_tx :=
  repeat match goal with
  | H : mbind _ _ _ = Ok _ |- _ => apply tx_bind_Ok in H as (?&?&?&?)
  | H : pure _ _ = Ok _ |- _ => apply pure_Ok in H as [??]
  | H : pure _ _ = Err _ |- _ => apply pure_Err in H
  | H : lift _ _ _ = Ok _ |- _ => apply lift_Ok in H
  | H : mret _ _ = Ok _ |- _ => apply tx_ret_Ok in H as [??]
  | H : transaction _ _ = (Ok _, _) |- _ => apply transaction_Ok in H
  | H : transaction _ _ = (Err _, _) |- _ => apply transaction_Err in H as [??]
  end; run_ok.

(** ** Effects: a relation every successful run keeps between its two stores *)

Definition effect `{Database} {E A} (R : db → db → Prop) (m : tx E A) : Prop :=
  ∀ d a d', m d = Ok (a, d') → R d d'.

Section effect.
Context `{Database} {E : Type} (R : db → db → Prop) `{!PreOrder R}.

Lemma effect_ret {A} (a : A) : effect R (mret (M := tx E) a).
Proof. intros d b d' [-> ->]%tx_ret_Ok. done. Qed.

Lemma effect_pure {A} (m : result E A) : effect R (pure m).
Proof. intros d a d' [_ ->]%pure_Ok. done. Qed.

Lemma effect_bind {A B} (m : tx E A) (f : A → tx E B) :
  effect R m → (∀ a, effect R (f a)) → effect R (m ≫= f).
Proof. intros Hm Hf d b d' (a&d1&H1&H2)%tx_bind_Ok. etransitivity; [by eapply Hm | by eapply Hf]. Qed.

Lemma effect_lift {E' A} (h : E' → E) (m : tx E' A) : effect R m → effect R (lift h m).
Proof. intros Hm d a d' Hd%lift_Ok. by eapply Hm. Qed.
End effect.

(** Reduce the effect of a computation to that of its statements. *)
Ltac effects :=
  repeat first
    [ typeclasses eauto
    | progress intros
    | solve [eauto 2 with effects]
    | apply effect_lift
    | apply effect_ret
    | apply effect_pure
    | apply effect_bind
    | match goal with |- effect _ (match ?x with _ => _ end) => destruct x end
    | by eauto with effects ].

Create HintDb effects.

(** ** What statements do *)

(** A server whose tables are those of [d], with [l] in place of the table [t]. *)
Definition replaces `{Database} (d : db) (t : Table) (l : list row) (d' : db) : Prop :=
  ∀ u, rows d' u = if decide (u = t) then l else rows d u.

(** Two stores are equivalent when they hold the same rows. *)
#[export] Instance db_equiv `{Database} : Equiv db := λ d d', ∀ t, rows d t = rows d' t.

#[export] Instance db_equivalence `{Database} : Equivalence (≡@{db}).
Proof.
  split; [by intros d t | by intros d d' Hd t | intros d1 d2 d3 H1 H2 t].
  by rewrite (H1 t).
Qed.

Section statements.
Context `{Database}.

Lemma replaces_target d t l d' : replaces d t l d' → rows d' t = l.
Proof. intros Hr. by rewrite (Hr t), decide_True. Qed.

Lemma replaces_frame d t l d' u : replaces d t l d' → u ≠ t → rows d' u = rows d u.
Proof. intros Hr Hu. by rewrite (Hr u), decide_False. Qed.

Lemma replaces_same d t d' : replaces d t (rows d t) d' → d' ≡ d.
Proof. intros Hr u. rewrite (Hr u). by case_decide; subst. Qed.

Lemma fetch_Ok st d out d' :
  well_formed st = true → fetch_all st d = Ok (out, d') →
  ∃ l, run text_le st (rows d (target st)) = Ok (out, l) ∧ replaces d (target st) l d'.
Proof.
  intros Hwf Hd. destruct (permits st d) eqn:Hp.
  - pose proof (execute_run st d Hwf Hp) as Hr. unfold fetch_all in Hd.
    destruct (run text_le st (rows d (target st))) as [[out' l]|e]; [|congruence].
    destruct Hr as (d1&Hd1&Hrows). rewrite Hd in Hd1. injection Hd1 as -> ->. eauto.
  - apply execute_refused in Hp as [e He]. unfold fetch_all in Hd. congruence.
Qed.

Lemma fetch_runs st d out l :
  well_formed st = true → permits st d = true →
  run text_le st (rows d (target st)) = Ok (out, l) →
  ∃ d', fetch_all st d = Ok (out, d') ∧ replaces d (target st) l d'.
Proof.
  intros Hwf Hp Hr. pose proof (execute_run st d Hwf Hp) as Hx. by rewrite Hr in Hx.
Qed.

Lemma scalar_Ok st d o d' :
  well_formed st = true → scalar st d = Ok (o, d') →
  ∃ out l, run text_le st (rows d (target st)) = Ok (out, l) ∧ replaces d (target st) l d' ∧
    o = match head out ≫= head with Some SNull | None => None | Some v => Some v end.
Proof.
  intros Hwf (out&d1&Hf&Hret)%tx_bind_Ok. apply tx_ret_Ok in Hret as [<- <-].
  apply fetch_Ok in Hf as (l&Hl&Hr); [|done]. eauto.
Qed.

Lemma scalar_runs st d out l :
  well_formed st = true → permits st d = true →
  run text_le st (rows d (target st)) = Ok (out, l) →
  ∃ d', scalar st d = Ok (match head out ≫= head with Some SNull | None => None | Some v => Some v end, d')
        ∧ replaces d (target st) l d'.
Proof.
  intros Hwf Hp Hr. apply fetch_runs in Hr as (d'&Hd&Hl); [|done..].
  exists d'. split; [|done]. apply tx_bind_Ok. exists out, d'. split; [done|]. by apply tx_ret_Ok.
Qed.
End statements.

(** *** Rows and keys *)

Lemma sql_eq_true a b : sql_eq a b = true ↔ a ≠ SNull ∧ a = b.
Proof. apply bool_decide_eq_true. Qed.

Lemma sql_eq_comm a b : sql_eq a b = sql_eq b a.
Proof. apply eq_true_iff_eq. rewrite !sql_eq_true. naive_solver. Qed.

Lemma same_key_true k a b :
  same_key k a b = true ↔ Forall (λ c, cell a c ≠ SNull ∧ cell a c = cell b c) k.
Proof.
  unfold same_key. rewrite forallb_Forall. apply Forall_proper; [|done].
  intros c. apply sql_eq_true.
Qed.

Lemma same_key_comm k a b : same_key k a b = same_key k b a.
Proof. unfold same_key. induction k as [|c k IH]; cbn; [done|]. by rewrite sql_eq_comm, IH. Qed.

Lemma selects_true w r : selects w r = true ↔ Forall (λ c, holds r c = true) w.
Proof. apply forallb_Forall. Qed.

(** Asking for the key of [r] is comparing keys with it. *)
Lemma selects_key k r x : selects ((λ c, Equals c (cell r c)) <$> k) x = same_key k x r.
Proof. unfold selects, same_key. induction k as [|c k IH]; cbn; [done|]. by rewrite IH. Qed.

Lemma existsb_false {A} (f : A → bool) l : existsb f l = false ↔ ∀ x, x ∈ l → f x = false.
Proof.
  induction l as [|a l IH]; cbn; [split; [intros _ x ?%elem_of_nil; done | done]|].
  rewrite orb_false_iff, IH. setoid_rewrite elem_of_cons. naive_solver.
Qed.

Lemma existsb_true {A} (f : A → bool) l : existsb f l = true ↔ ∃ x, x ∈ l ∧ f x = true.
Proof. rewrite existsb_exists. by setoid_rewrite <- list_elem_of_In. Qed.

Lemma where_rows_elem w l r : r ∈ where_rows w l ↔ r ∈ l ∧ selects w r = true.
Proof. unfold where_rows. rewrite list_elem_of_filter. tauto. Qed.

Lemma where_rows_nil w l : where_rows w l = [] ↔ ∀ r, r ∈ l → selects w r = false.
Proof.
  split.
  - intros Hw r Hr. apply not_true_iff_false. intros Hs.
    apply (not_elem_of_nil r). rewrite <- Hw. by apply where_rows_elem.
  - intros Hl. apply elem_of_nil_inv. intros r [Hr Hs]%where_rows_elem. rewrite Hl in Hs; done.
Qed.

Lemma where_rows_app w l l' : where_rows w (l ++ l') = (where_rows w l ++ where_rows w l')%list.
Proof. apply filter_app. Qed.

Lemma where_rows_cons w r l :
  where_rows w (r :: l) = if selects w r then r :: where_rows w l else where_rows w l.
Proof. unfold where_rows. rewrite filter_cons. by destruct (selects w r). Qed.

Lemma cell_make_row t values c :
  cell (make_row t values) c = if decide (c ∈ columns t) then cell values c else SNull.
Proof.
  unfold cell at 1, make_row. induction (columns t) as [|c' cs IH]; cbn; [done|].
  destruct (decide (c = c')) as [->|Hne]; cbn.
  - rewrite decide_True; [done|left].
  - rewrite IH. repeat case_decide; try done; exfalso; rewrite elem_of_cons in *; tauto.
Qed.

Lemma cell_dict_set r c v c' : cell (dict_set r c v) c' = if decide (c = c') then v else cell r c'.
Proof. unfold cell. rewrite dict_set_get. by case_decide. Qed.

Lemma cell_assign_frame values r c : c ∉ values.*1 → cell (assign values r) c = cell r c.
Proof.
  revert r. induction values as [|[c' v] values IH]; intros r; [done|].
  intros [Hne Hc]%not_elem_of_cons. change (assign _ r) with (assign values (dict_set r c' v)).
  rewrite IH by done. rewrite cell_dict_set.
  by rewrite decide_False by done.
Qed.

(** A condition that reads none of the given columns. *)
Fixpoint cond_columns (c : cond) : list string :=
  match c with
  | Equals c _ | Differs c _ | IsNull c | Above c _ => [c]
  | Either a b => (cond_columns a ++ cond_columns b)%list
  end.

Lemma holds_assign values c r :
  (∀ x, x ∈ cond_columns c → x ∉ values.*1) → holds (assign values r) c = holds r c.
Proof.
  induction c; cbn; intros Hc;
    try (rewrite cell_assign_frame; [done | apply Hc; by apply list_elem_of_singleton]).
  rewrite IHc1, IHc2; [done|..]; intros x Hx; apply Hc, elem_of_app; auto.
Qed.

Definition reads (w : list cond) : list string := concat (cond_columns <$> w).

Lemma selects_assign w values r :
  forallb (λ c, bool_decide (c ∉ values.*1)) (reads w) = true →
  selects w (assign values r) = selects w r.
Proof.
  unfold selects, reads. induction w as [|c w IH]; cbn; [done|].
  rewrite forallb_app. intros [Hc Hw]%andb_true_iff. rewrite IH by done. f_equal.
  apply holds_assign. apply forallb_Forall in Hc. intros x Hx.
  rewrite Forall_forall in Hc. specialize (Hc x Hx). by apply bool_decide_eq_true in Hc.
Qed.

(** A query over columns the update does not assign finds the same rows, updated. *)
Lemma where_update w' w values l :
  forallb (λ c, bool_decide (c ∉ values.*1)) (reads w') = true →
  where_rows w' (update_rows w values l) = update_rows w values (where_rows w' l).
Proof.
  intros Hw'. induction l as [|r l IH]; [done|].
  change (update_rows w values (r :: l))
    with ((if selects w r then assign values r else r) :: update_rows w values l).
  assert (Hr : selects w' (if selects w r then assign values r else r) = selects w' r).
  { destruct (selects w r); [by apply selects_assign | done]. }
  rewrite !where_rows_cons, Hr, IH. by destruct (selects w' r).
Qed.

Lemma update_rows_none w values l : where_rows w l = [] → update_rows w values l = l.
Proof.
  rewrite where_rows_nil. intros Hl. unfold update_rows. induction l as [|r l IH]; cbn; [done|].
  rewrite (Hl r) by left. f_equal. apply IH. intros x Hx. apply Hl. by right.
Qed.

Lemma count_update q w values l :
  (∀ x, x ∈ l → selects w x = true → selects q (assign values x) = true → selects q x = true) →
  (length (where_rows q (update_rows w values l)) ≤ length (where_rows q l))%nat.
Proof.
  intros Hl. induction l as [|x l IH]; [done|].
  assert (IH' : (length (where_rows q (update_rows w values l)) ≤ length (where_rows q l))%nat).
  { apply IH. intros y Hy. apply Hl. by right. }
  change (update_rows w values (x :: l))
    with ((if selects w x then assign values x else x) :: update_rows w values l).
  rewrite !where_rows_cons. specialize (Hl x (list_elem_of_here _ _)).
  destruct (selects w x); [|destruct (selects q x); cbn; lia].
  destruct (selects q (assign values x)), (selects q x); cbn; try lia; by specialize (Hl eq_refl eq_refl).
Qed.

(** ** Sums over updated rows *)

Lemma octets_nonneg cs r n : octets cs r = Some n → 0 ≤ n.
Proof.
  revert n. induction cs as [|c cs IH]; intros n; [by intros [= <-]|].
  change (octets (c :: cs) r) with (m ← octet_length (cell r c); k ← octets cs r; Some (m + k)).
  destruct (octet_length (cell r c)) as [m|] eqn:Hm; [|done]. destruct (octets cs r) as [k|]; [|done].
  cbn. intros [= <-]. specialize (IH k eq_refl). destruct (cell r c); try done; injection Hm as <-; lia.
Qed.

Lemma total_octets_app cs l l' : total_octets cs (l ++ l')%list = total_octets cs l + total_octets cs l'.
Proof.
  unfold total_octets. rewrite omap_app. induction (omap _ l) as [|n k IH]; cbn; [done|]. rewrite IH. lia.
Qed.

Lemma total_octets_cons cs r l : total_octets cs (r :: l) = default 0 (octets cs r) + total_octets cs l.
Proof. unfold total_octets. cbn. by destruct (octets cs r). Qed.

Lemma octets_frame cs values r :
  forallb (λ c, bool_decide (c ∉ values.*1)) cs = true → octets cs (assign values r) = octets cs r.
Proof.
  unfold octets. induction cs as [|c cs IH]; cbn; [done|]. intros [Hc Hcs]%andb_true_iff.
  apply bool_decide_eq_true in Hc. by rewrite cell_assign_frame, IH.
Qed.

(** An update that lets no row into a query, and leaves the measured columns alone, does not grow
    the query's total. *)
Lemma total_update cs q w values l :
  forallb (λ c, bool_decide (c ∉ values.*1)) cs = true →
  (∀ x, x ∈ l → selects w x = true → selects q (assign values x) = true → selects q x = true) →
  total_octets cs (where_rows q (update_rows w values l)) ≤ total_octets cs (where_rows q l).
Proof.
  intros Hcs Hl. induction l as [|x l IH]; [done|].
  assert (IH' : total_octets cs (where_rows q (update_rows w values l)) ≤ total_octets cs (where_rows q l)).
  { apply IH. intros y Hy. apply Hl. by right. }
  change (update_rows w values (x :: l))
    with ((if selects w x then assign values x else x) :: update_rows w values l).
  assert (Hp : 0 ≤ default 0 (octets cs x)).
  { destruct (octets cs x) eqn:Ho; [by eapply octets_nonneg|done]. }
  rewrite !where_rows_cons. specialize (Hl x (list_elem_of_here _ _)).
  destruct (selects w x); [|destruct (selects q x); rewrite ?total_octets_cons; lia].
  pose proof (octets_frame cs values x Hcs) as Ho.
  destruct (selects q (assign values x)), (selects q x); rewrite ?total_octets_cons, ?Ho;
    try lia; by specialize (Hl eq_refl eq_refl).
Qed.

(** *** One statement at a time *)

Section keyed.
Context `{Database} (t : Table) (k : list string) (Hk : unique_keys t = [k]).

Lemma clash_key r l : existsb (clash (unique_keys t) r) l = existsb (same_key k r) l.
Proof.
  rewrite Hk. induction l as [|x l IH]; cbn; [done|]. by rewrite IH, orb_false_r.
Qed.

Lemma insert_runs values c d :
  let st := Insert t values (DoNothing (Some k)) [c] in
  permits st d = true → admitted t (make_row t values) = true → ∃ o d', scalar st d = Ok (o, d').
Proof.
  intros st Hp Ha.
  destruct (run text_le st (rows d t)) as [[out l]|e] eqn:Hr.
  - apply scalar_runs in Hr as (d'&?&?); [eauto | | done].
    cbn. rewrite Hk. apply bool_decide_eq_true. left.
  - cbn in Hr. unfold insert_row in Hr. rewrite clash_key, Ha in Hr. cbn in Hr.
    by destruct (existsb _ _).
Qed.

(** A plain insert raises on a duplicate key. *)
Lemma insert_plain_Ok values cs d out d' :
  fetch_all (Insert t values NoClause cs) d = Ok (out, d') →
  admitted t (make_row t values) = true ∧
  existsb (same_key k (make_row t values)) (rows d t) = false ∧
  replaces d t (rows d t ++ [make_row t values])%list d'.
Proof.
  intros (l&Hr&Hl)%fetch_Ok; [|done]. cbn in Hr, Hl. unfold insert_row in Hr.
  rewrite clash_key in Hr. destruct (admitted _ _); [|done]. cbn in Hr.
  destruct (existsb _ _); [done|]. by injection Hr as <- <-.
Qed.
End keyed.

Section reading.
Context `{Database} (t : Table).

(** [INSERT ... ON CONFLICT DO NOTHING RETURNING c]: a claim of the key. *)
Lemma insert_Ok k' values c d o d' :
  k' ∈ unique_keys t → cell (make_row t values) c ≠ SNull →
  scalar (Insert t values (DoNothing (Some k')) [c]) d = Ok (o, d') →
  admitted t (make_row t values) = true ∧
  if existsb (same_key k' (make_row t values)) (rows d t) then o = None ∧ d' ≡ d
  else o = Some (cell (make_row t values) c) ∧
       replaces d t (rows d t ++ [make_row t values])%list d'.
Proof.
  intros Hin Hc Hd. apply scalar_Ok in Hd as (out&l&Hr&Hl&->); [|by apply bool_decide_eq_true].
  cbn in Hr, Hl. unfold insert_row in Hr.
  destruct (admitted _ _); [|done]. split; [done|]. cbn in Hr.
  destruct (existsb (same_key k' _) _) eqn:He.
  - destruct (existsb (clash _ _) _) eqn:Hclash.
    + injection Hr as <- <-. eauto using replaces_same.
    + exfalso. apply existsb_true in He as (x&Hx&He).
      apply (proj1 (existsb_false _ _) Hclash) in Hx. unfold clash in Hx.
      rewrite existsb_false in Hx. rewrite (Hx k' Hin) in He. done.
  - destruct (existsb (clash _ _) _); [done|]. injection Hr as <- <-. cbn.
    split; [|done]. by destruct (cell _ c).
Qed.

(** The same without naming a key: any duplicate leaves the table alone. *)
Lemma insert_any_Ok values c d o d' :
  cell (make_row t values) c ≠ SNull →
  scalar (Insert t values (DoNothing None) [c]) d = Ok (o, d') →
  admitted t (make_row t values) = true ∧
  if existsb (clash (unique_keys t) (make_row t values)) (rows d t) then o = None ∧ d' ≡ d
  else o = Some (cell (make_row t values) c) ∧
       replaces d t (rows d t ++ [make_row t values])%list d'.
Proof.
  intros Hc Hd. apply scalar_Ok in Hd as (out&l&Hr&Hl&->); [|done]. cbn in Hr, Hl. unfold insert_row in Hr.
  destruct (admitted _ _); [|done]. split; [done|]. cbn in Hr. destruct (existsb _ _); injection Hr as <- <-.
  - eauto using replaces_same.
  - cbn. split; [|done]. by destruct (cell _ c).
Qed.

Lemma insert_any_clash_runs values c d :
  permits (Insert t values (DoNothing None) [c]) d = true → admitted t (make_row t values) = true →
  existsb (clash (unique_keys t) (make_row t values)) (rows d t) = true →
  ∃ d', scalar (Insert t values (DoNothing None) [c]) d = Ok (None, d') ∧ d' ≡ d.
Proof.
  intros Hp Ha Hc.
  destruct (scalar_runs (Insert t values (DoNothing None) [c]) d [] (rows d t) eq_refl Hp) as (d'&Hr&Hl).
  - cbn. unfold insert_row. by rewrite Ha, Hc.
  - exists d'. split; [exact Hr|by apply replaces_same in Hl].
Qed.

Lemma select_usage_Ok c measured w d o d' :
  one_or_none (SelectUsage t c measured w) d = Ok (o, d') →
  d' ≡ d ∧ o = Some [SInt (Z.of_nat (length (filter (λ r, cell r c ≠ SNull) (where_rows w (rows d t)))));
                     SInt (total_octets measured (where_rows w (rows d t)))].
Proof.
  intros (out&d1&(l&Hr&Hl)%fetch_Ok&Ho)%tx_bind_Ok; [|done]. cbn in Hr. injection Hr as <- <-.
  apply tx_ret_Ok in Ho as [<- <-]. split; [|done]. by apply replaces_same in Hl.
Qed.

Lemma fetch_Select_Ok cs w order limit d out d' :
  fetch_all (Select t cs w order limit) d = Ok (out, d') →
  d' ≡ d ∧
  out = project cs <$> match limit with
                       | Some n => take (Z.to_nat n)
                       | None => id
                       end (merge_sort (row_le text_le order) (where_rows w (rows d t))).
Proof.
  intros (l&Hr&Hl)%fetch_Ok; [|done]. cbn in Hr. injection Hr as <- <-.
  split; [by apply replaces_same in Hl | by destruct limit].
Qed.

Lemma sort_singleton order (l : list row) r :
  merge_sort (row_le text_le order) l = [r] → l = [r].
Proof.
  intros Hs. pose proof (merge_sort_Permutation (row_le text_le order) l) as Hp.
  rewrite Hs in Hp. by apply Permutation_singleton_l in Hp.
Qed.

(** [SELECT ... WHERE w] read with [one_or_none]. *)
Lemma select_one_Ok cs w order d o d' :
  one_or_none (Select t cs w order None) d = Ok (o, d') →
  d' ≡ d ∧ match o with
           | None => where_rows w (rows d t) = []
           | Some vs => ∃ r, where_rows w (rows d t) = [r] ∧ vs = project cs r
           end.
Proof.
  intros (out&d1&Hf&Hd)%tx_bind_Ok. apply fetch_Select_Ok in Hf as [Hd1 ->]. cbn in Hd.
  destruct (merge_sort _ _) as [|r [|r' l]] eqn:Hs; cbn in Hd; [| |done].
  - apply tx_ret_Ok in Hd as [<- <-]. split; [done|].
    pose proof (merge_sort_Permutation (row_le text_le order) (where_rows w (rows d t))) as Hp.
    rewrite Hs in Hp. by apply Permutation_nil_l in Hp.
  - apply tx_ret_Ok in Hd as [<- <-]. split; [done|]. apply sort_singleton in Hs. eauto.
Qed.

Lemma select_one_runs cs w order d l :
  permits (Select t cs w order None) d = true → where_rows w (rows d t) = l → (length l ≤ 1)%nat →
  ∃ d', one_or_none (Select t cs w order None) d = Ok (project cs <$> head l, d').
Proof.
  intros Hp <- Hl.
  destruct (fetch_runs (Select t cs w order None) d _ _ eq_refl Hp eq_refl) as (d'&Hf&_).
  exists d'. apply tx_bind_Ok. eexists _, _. split; [exact Hf|]. change (target _) with t.
  destruct (where_rows w (rows d t)) as [|r [|r' l]]; cbn in *; [done..|lia].
Qed.

(** [UPDATE ... WHERE c = v AND ... RETURNING c]: a compare-and-set. *)
Lemma update_Ok w values c v d o d' :
  well_formed (Update t w values [c]) = true → Equals c v ∈ w → c ∉ values.*1 →
  scalar (Update t w values [c]) d = Ok (o, d') →
  o = match where_rows w (rows d t) with [] => None | _ => Some v end ∧
  Forall (λ r, admitted t (assign values r) = true) (where_rows w (rows d t)) ∧
  replaces d t (update_rows w values (rows d t)) d'.
Proof.
  intros Hwf Hw Hc Hd. apply scalar_Ok in Hd as (out&l&Hr&Hl&->); [|done].
  cbn in Hr, Hl. destruct (forallb _ _) eqn:Ha; [|done]. injection Hr as <- <-.
  apply forallb_Forall, Forall_fmap in Ha. split; [|done].
  destruct (where_rows w (rows d t)) as [|r rs] eqn:Hrs; [done|]. cbn.
  rewrite cell_assign_frame by done.
  assert (Hr : r ∈ where_rows w (rows d t)) by (rewrite Hrs; left).
  apply where_rows_elem in Hr as [_ Hr]. apply selects_true in Hr.
  rewrite Forall_forall in Hr. specialize (Hr _ Hw). cbn in Hr.
  apply sql_eq_true in Hr as [Hn Hv]. rewrite Hv in *. by destruct v.
Qed.

Lemma update_runs w values c d :
  let st := Update t w values [c] in
  well_formed st = true → permits st d = true →
  Forall (λ r, admitted t (assign values r) = true) (where_rows w (rows d t)) →
  ∃ o d', scalar st d = Ok (o, d').
Proof.
  intros st Hwf Hp Ha.
  destruct (scalar_runs st d (project [c] <$> (assign values <$> where_rows w (rows d t)))
              (update_rows w values (rows d t)) Hwf Hp) as (d'&Hd&_); [|eauto].
  cbn. by rewrite (proj2 (forallb_Forall _ _)) by by apply Forall_fmap.
Qed.
End reading.

(** *** Unique keys *)

Definition keys_unique (k : list string) (l : list row) : Prop :=
  ∀ r, (length (filter (λ x, same_key k r x = true) l) ≤ 1)%nat.

Lemma same_key_trans k a b c : same_key k a b = true → same_key k a c = same_key k b c.
Proof.
  rewrite same_key_true. intros Hab. apply eq_true_iff_eq. rewrite !same_key_true, !Forall_forall.
  rewrite Forall_forall in Hab. naive_solver congruence.
Qed.

Lemma keys_unique_nil k : keys_unique k [].
Proof. intros r. cbn. lia. Qed.

Lemma keys_unique_snoc k l r :
  keys_unique k l → existsb (same_key k r) l = false → keys_unique k (l ++ [r]).
Proof.
  intros Hl Hr x. rewrite filter_app, length_app. specialize (Hl x).
  rewrite filter_cons. case_decide as Hx; cbn; [|lia].
  assert (He : filter (λ y, same_key k x y = true) l = []).
  { apply elem_of_nil_inv. intros y [Hxy Hy]%list_elem_of_filter.
    apply (proj1 (existsb_false _ _) Hr) in Hy. 
    rewrite <- (same_key_trans k x r y Hx) in Hy. congruence. }
  rewrite He. cbn. lia.
Qed.

Lemma same_key_increment k' k c step new r x :
  c ∉ k' → same_key k' r (increment k c step new x) = same_key k' r x.
Proof.
  intros Hc. unfold increment. destruct (same_key k new x); [|done]. apply eq_true_iff_eq.
  rewrite !same_key_true, !Forall_forall. apply forall_proper. intros c'.
  rewrite cell_dict_set. destruct (decide (c = c')) as [->|]; naive_solver.
Qed.

Lemma same_key_assign k values r x :
  forallb (λ c, bool_decide (c ∉ values.*1)) k = true →
  same_key k r (assign values x) = same_key k r x.
Proof.
  unfold same_key. induction k as [|c k IH]; cbn; [done|]. intros [Hc Hk]%andb_true_iff.
  rewrite IH by done. f_equal. rewrite cell_assign_frame; [done|]. by apply bool_decide_eq_true in Hc.
Qed.

Lemma keys_unique_update k w values l :
  forallb (λ c, bool_decide (c ∉ values.*1)) k = true →
  keys_unique k l → keys_unique k (update_rows w values l).
Proof.
  intros Hk Hl r. specialize (Hl r). etransitivity; [|exact Hl]. clear Hl. apply Nat.eq_le_incl.
  unfold update_rows. induction l as [|x l IH]; [done|]. rewrite fmap_cons, !filter_cons.
  assert (Hx : same_key k r (if selects w x then assign values x else x) = same_key k r x).
  { destruct (selects w x); [by apply same_key_assign | done]. }
  rewrite Hx. case_decide; cbn; by rewrite IH.
Qed.

Lemma where_rows_key k w r l :
  (∀ x, selects w x = same_key k r x) → keys_unique k l → (length (where_rows w l) ≤ 1)%nat.
Proof.
  intros Hw Hl. specialize (Hl r). unfold where_rows.
  erewrite list_filter_iff; [exact Hl|]. intros x. by rewrite Hw.
Qed.

(** ** Well-typed tables

    Every row a table can hold, no two with the same key.  A statement the server executes
    keeps every table so. *)

Definition sound (t : Table) (l : list row) : Prop :=
  Forall (λ r, admitted t r = true) l ∧ Forall (λ k, keys_unique k l) (unique_keys t).

Lemma sound_nil t : sound t [].
Proof. split; [done|]. apply Forall_true. apply keys_unique_nil. Qed.

Lemma clash_false ks r x : clash ks r x = false ↔ Forall (λ k, same_key k r x = false) ks.
Proof. unfold clash. rewrite existsb_false, Forall_forall. done. Qed.

Lemma keys_unique_fmap k f l :
  (∀ r x, same_key k r (f x) = same_key k r x) → keys_unique k l → keys_unique k (f <$> l).
Proof.
  intros Hf Hl r. specialize (Hl r). etransitivity; [|exact Hl]. clear Hl. apply Nat.eq_le_incl.
  induction l as [|x l IH]; [done|]. rewrite fmap_cons, !filter_cons, Hf.
  case_decide; cbn; by rewrite IH.
Qed.

Lemma sound_insert le t values oc ret l out l' :
  well_formed (Insert t values oc ret) = true → sound t l →
  run le (Insert t values oc ret) l = Ok (out, l') → sound t l'.
Proof.
  intros Hwf [Ha Hu] Hr. cbn in Hr. unfold insert_row in Hr.
  destruct (admitted t (make_row t values)) eqn:Hnew; [|done]. cbn in Hr.
  destruct (existsb _ _) eqn:Hclash.
  - destruct oc as [|[k|]|k c step]; [done| | |].
    + destruct (existsb (same_key k (make_row t values)) l); [|done]. by injection Hr as _ <-.
    + by injection Hr as <- <-.
    + destruct (existsb (same_key k (make_row t values)) l); [|done]. destruct (forallb _ _) eqn:Hall; [|done].
      injection Hr as <- <-. split; [by apply forallb_Forall|].
      cbn in Hwf. bools. rewrite Forall_forall in Hu |- *. intros k' Hk'.
      apply keys_unique_fmap; [|auto]. intros r x. apply same_key_increment.
      intros Hc. match goal with H : c ∉ _ |- _ => apply H end.
      apply list_elem_of_In, in_concat. exists k'. by rewrite <- !list_elem_of_In.
  - injection Hr as <- <-. split; [by apply Forall_app; auto|].
    rewrite existsb_false in Hclash. rewrite Forall_forall in Hu |- *. intros k Hk.
    apply keys_unique_snoc; [auto|]. apply existsb_false. intros x Hx.
    specialize (Hclash x Hx). apply clash_false in Hclash. rewrite Forall_forall in Hclash. auto.
Qed.

Lemma sound_update le t w values ret l out l' :
  well_formed (Update t w values ret) = true → sound t l →
  run le (Update t w values ret) l = Ok (out, l') → sound t l'.
Proof.
  intros Hwf [Ha Hu] Hr. cbn in Hr. destruct (forallb _ _) eqn:Hall; [|done].
  injection Hr as <- <-. apply forallb_Forall, Forall_fmap in Hall. split.
  - unfold update_rows. apply Forall_fmap, Forall_forall. intros r Hin. cbn.
    destruct (selects w r) eqn:Hs; rewrite Forall_forall in *; [|auto].
    apply Hall. by apply where_rows_elem.
  - cbn in Hwf. apply forallb_Forall in Hwf.
    rewrite Forall_forall in Hu. rewrite Forall_forall in Hwf. apply Forall_forall.
    intros k Hk. apply keys_unique_update; [|auto]. apply forallb_Forall, Forall_forall.
    intros c Hc. apply Hwf, list_elem_of_In, in_concat. exists k. by rewrite <- !list_elem_of_In.
Qed.

Lemma run_sound le st l out l' :
  well_formed st = true → sound (target st) l → run le st l = Ok (out, l') → sound (target st) l'.
Proof.
  destruct st as [t values oc ret|t values counted bound ret|t w values ret| | |]; intros Hwf Hl Hr.
  - by eapply sound_insert.
  - cbn in Hr. destruct (_ <? _); [|by injection Hr as <- <-].
    by eapply (sound_insert le t values NoClause ret).
  - by eapply sound_update.
  - by injection Hr as <- <-.
  - by injection Hr as <- <-.
  - by injection Hr as <- <-.
Qed.

(** A store whose every table is well typed. *)
Definition consistent `{Database} (d : db) : Prop := ∀ t, sound t (rows d t).

Lemma fetch_consistent `{Database} st d out d' :
  well_formed st = true → fetch_all st d = Ok (out, d') → consistent d → consistent d'.
Proof.
  intros Hwf (l&Hr&Hl)%fetch_Ok Hd; [|done]. intros t. rewrite (Hl t). case_decide; [|apply Hd].
  subst t. by eapply run_sound.
Qed.

(** ** Rows found by a key *)

(** The row a query by key finds. *)
Definition found `{Database} (d : db) (t : Table) (w : list cond) : option row :=
  head (where_rows w (rows d t)).

(** A query that names the whole key of [r]. *)
Definition names_key (k : list string) (w : list cond) (r : row) : Prop :=
  ∀ x, selects w x = same_key k r x.

Lemma admitted_column t r c : admitted t r = true → c ∈ table_columns t → column_admits r c = true.
Proof.
  intros [Ha _]%andb_true_iff Hc. apply forallb_Forall in Ha. rewrite Forall_forall in Ha. auto.
Qed.

(** The value a not-null column holds. *)
Lemma admitted_text t r c n :
  admitted t r = true →
  {| column_name := c; column_type := Varchar n; nullable := false |} ∈ table_columns t →
  ∃ s, cell r c = SText s.
Proof.
  intros Ha Hc. pose proof (admitted_column _ _ _ Ha Hc) as H. unfold column_admits in H. cbn in H.
  destruct (cell r c); eauto; done.
Qed.

Lemma admitted_int t r c ty :
  admitted t r = true → {| column_name := c; column_type := ty; nullable := false |} ∈ table_columns t →
  match ty with SmallInteger | Integer | BigInteger => True | _ => False end →
  ∃ n, cell r c = SInt n.
Proof.
  intros Ha Hc Hty. pose proof (admitted_column _ _ _ Ha Hc) as H. unfold column_admits in H.
  cbn in H. destruct (cell r c), ty; eauto; done.
Qed.

Lemma admitted_bytes t r c :
  admitted t r = true →
  {| column_name := c; column_type := LargeBinary; nullable := false |} ∈ table_columns t →
  ∃ s, cell r c = SBytes s.
Proof.
  intros Ha Hc. pose proof (admitted_column _ _ _ Ha Hc) as H. unfold column_admits in H. cbn in H.
  destruct (cell r c); eauto; done.
Qed.

Lemma admitted_optional_text t r c n :
  admitted t r = true →
  {| column_name := c; column_type := Varchar n; nullable := true |} ∈ table_columns t →
  ∃ o, cell r c = text_or_null o.
Proof.
  intros Ha Hc. pose proof (admitted_column _ _ _ Ha Hc) as H. unfold column_admits in H. cbn in H.
  destruct (cell r c) as [|s| |] eqn:E; try done; [by exists None | by exists (Some s)].
Qed.

Section found.
Context `{Database} (t : Table).

#[global] Instance found_proper w : Proper ((≡) ==> (=)) (λ d, found d t w).
Proof. intros d d' Hd. unfold found. by rewrite (Hd t). Qed.

Lemma found_Some d w r : found d t w = Some r → r ∈ rows d t ∧ selects w r = true.
Proof.
  unfold found. destruct (where_rows w (rows d t)) as [|r' l] eqn:Hw; [done|]. intros [= ->].
  apply where_rows_elem. rewrite Hw. left.
Qed.

Lemma found_None d w : found d t w = None ↔ where_rows w (rows d t) = [].
Proof. unfold found. destruct (where_rows w (rows d t)); by split. Qed.

Lemma found_admitted d w r : consistent d → found d t w = Some r → admitted t r = true.
Proof.
  intros Hd [Hr _]%found_Some. destruct (Hd t) as [Ha _]. rewrite Forall_forall in Ha. auto.
Qed.

Lemma found_key d k w r :
  consistent d → k ∈ unique_keys t → names_key k w r →
  existsb (same_key k r) (rows d t) = match found d t w with Some _ => true | None => false end ∧
  where_rows w (rows d t) = match found d t w with Some x => [x] | None => [] end.
Proof.
  intros Hd Hk Hw. destruct (Hd t) as [_ Hu]. rewrite Forall_forall in Hu.
  pose proof (where_rows_key k w r _ Hw (Hu k Hk)) as Hlen. unfold found.
  destruct (where_rows w (rows d t)) as [|x [|x' l]] eqn:Hl; cbn in *; [| |lia]; (split; [|done]).
  - apply existsb_false. intros y Hy. rewrite <- (Hw y). by apply (proj1 (where_rows_nil _ _) Hl).
  - apply existsb_true. exists x. rewrite <- (Hw x). apply where_rows_elem. rewrite Hl. left.
Qed.

(** In a consistent table, a row that answers the query is the one it finds. *)
Lemma found_elem d k w r x :
  consistent d → k ∈ unique_keys t → names_key k w r → x ∈ rows d t → selects w x = true →
  found d t w = Some x.
Proof.
  intros Hd Hk Hw Hx Hs. destruct (found_key d k w r Hd Hk Hw) as [_ Hl].
  assert (Hin : x ∈ where_rows w (rows d t)) by by apply where_rows_elem.
  rewrite Hl in Hin. destruct (found d t w); [|by apply elem_of_nil in Hin].
  by apply list_elem_of_singleton in Hin as ->.
Qed.

Lemma insert_found d k w values c o d' :
  k ∈ unique_keys t → consistent d → names_key k w (make_row t values) →
  cell (make_row t values) c ≠ SNull →
  scalar (Insert t values (DoNothing (Some k)) [c]) d = Ok (o, d') →
  admitted t (make_row t values) = true ∧
  match found d t w with
  | Some _ => o = None ∧ d' ≡ d
  | None => o = Some (cell (make_row t values) c) ∧
            replaces d t (rows d t ++ [make_row t values])%list d'
  end.
Proof.
  intros Hk Hd Hw Hc Hi. apply insert_Ok in Hi as [Ha Hi]; [|done..]. split; [done|].
  destruct (found_key d k w (make_row t values) Hd Hk Hw) as [He _].
  rewrite He in Hi. by destruct (found d t w).
Qed.

Lemma select_found d cs w order o d' :
  one_or_none (Select t cs w order None) d = Ok (o, d') →
  d' ≡ d ∧ o = project cs <$> found d t w.
Proof.
  intros [Hd Ho]%select_one_Ok. split; [done|]. unfold found.
  destruct o as [vs|]; [destruct Ho as (r&->&->) | rewrite Ho]; done.
Qed.

Lemma select_found_runs d k r cs w order :
  consistent d → k ∈ unique_keys t → names_key k w r →
  permits (Select t cs w order None) d = true →
  ∃ d', one_or_none (Select t cs w order None) d = Ok (project cs <$> found d t w, d').
Proof.
  intros Hd Hk Hw Hp. apply (select_one_runs t cs w order d _ Hp eq_refl).
  destruct (Hd t) as [_ Hu]. rewrite Forall_forall in Hu. eapply where_rows_key; eauto.
Qed.

(** A compare-and-set on the row of a key. *)
Lemma update_found d k w extra r0 values c v o d' :
  consistent d → k ∈ unique_keys t → names_key k w r0 →
  well_formed (Update t (w ++ extra) values [c]) = true → Equals c v ∈ w → c ∉ values.*1 →
  scalar (Update t (w ++ extra) values [c]) d = Ok (o, d') →
  match found d t w with
  | Some r =>
      if selects extra r
      then o = Some v ∧ admitted t (assign values r) = true ∧
           replaces d t (update_rows w values (rows d t)) d'
      else o = None ∧ d' ≡ d
  | None => o = None ∧ d' ≡ d
  end.
Proof.
  intros Hd Hk Hw Hwf Hc Hcv Hu. apply (update_Ok t _ _ _ v) in Hu as (->&Ha&Hr); [|done| |done].
  2: { apply elem_of_app. by left. }
  assert (Hrows : where_rows (w ++ extra) (rows d t) =
                  filter (λ r, selects extra r = true) (where_rows w (rows d t))).
  { unfold where_rows. rewrite list_filter_filter. apply list_filter_iff. intros x.
    unfold selects. rewrite forallb_app, andb_true_iff. tauto. }
  destruct (found_key d k w r0 Hd Hk Hw) as [_ Hl]. rewrite Hl in Hrows.
  destruct (found d t w) as [r|] eqn:Hf.
  - rewrite filter_cons, filter_nil in Hrows. destruct (selects extra r) eqn:Hs.
    + rewrite decide_True in Hrows by done. rewrite Hrows in Ha |- *. split; [done|].
      split; [by apply (proj1 (Forall_singleton _ _)) in Ha|]. intros u. rewrite (Hr u). case_decide; [|done].
      apply list_fmap_ext. intros i x Hx%list_elem_of_lookup_2.
      unfold selects. rewrite forallb_app. destruct (forallb (holds x) w) eqn:Hxw; [|done].
      assert (x = r) as -> by (by eapply found_elem in Hxw; [|done..]; congruence).
      unfold selects in Hs. by rewrite Hs.
    + rewrite decide_False in Hrows by done. cbn in Hrows. rewrite Hrows. split; [done|].
      apply (replaces_same _ t). by rewrite update_rows_none in Hr.
  - cbn in Hrows. rewrite Hrows. split; [done|]. apply (replaces_same _ t).
    by rewrite update_rows_none in Hr.
Qed.

(** An upsert that counts: it proposes the first row of a key, and increments it afterwards. *)
Lemma upsert_found d k w values c n step o d' :
  unique_keys t = [k] → consistent d → names_key k w (make_row t values) → c ∉ k →
  cell (make_row t values) c = SInt n →
  scalar (Insert t values (DoIncrement k c step) [c]) d = Ok (o, d') →
  match found d t w with
  | None => o = Some (SInt n) ∧ replaces d t (rows d t ++ [make_row t values])%list d'
  | Some r =>
      o = match increment k c step (make_row t values) r with
          | x => match cell x c with SNull => None | v => Some v end
          end ∧
      replaces d t (increment k c step (make_row t values) <$> rows d t) d'
  end.
Proof.
  intros Hk Hd Hw Hc Hn Hi. apply scalar_Ok in Hi as (out&l&Hr&Hl&->).
  2: { cbn. rewrite Hk. cbn. rewrite app_nil_r. rewrite !bool_decide_eq_true_2; [done|done|left]. }
  cbn in Hr, Hl. unfold insert_row in Hr. rewrite (clash_key t k Hk) in Hr.
  destruct (admitted _ _); [|done]. cbn [negb] in Hr.
  destruct (found_key d k w (make_row t values) Hd) as [He Hwhere]; [rewrite Hk; left | done |].
  rewrite He in Hr. destruct (found d t w) as [r|].
  - destruct (forallb _ _); [|done]. injection Hr as <- <-. split; [|done].
    assert (Hf : filter (λ x, same_key k (make_row t values) x = true)
                   (increment k c step (make_row t values) <$> rows d t) =
                 increment k c step (make_row t values) <$> where_rows w (rows d t)).
    { clear -Hw Hc. induction (rows d t) as [|x l IH]; [done|].
      rewrite fmap_cons, filter_cons, where_rows_cons, same_key_increment, Hw, IH by done.
      by destruct (same_key _ _ x). }
    rewrite Hf, Hwhere.
    change (head _ ≫= head) with (Some (cell (increment k c step (make_row t values) r) c)).
    by destruct (cell (increment _ _ _ _ _) c).
  - injection Hr as <- <-. split; [|done]. cbn. by rewrite Hn.
Qed.

(** What other queries find afterwards. *)
Lemma found_snoc d r d' w :
  replaces d t (rows d t ++ [r])%list d' →
  found d' t w = match found d t w with
                 | Some x => Some x
                 | None => if selects w r then Some r else None
                 end.
Proof.
  intros Hr. unfold found. rewrite (replaces_target _ _ _ _ Hr), where_rows_app.
  destruct (where_rows w (rows d t)); [|done]. rewrite where_rows_cons.
  by destruct (selects w r).
Qed.

Lemma found_update d w' w values d' :
  replaces d t (update_rows w values (rows d t)) d' →
  forallb (λ c, bool_decide (c ∉ values.*1)) (reads w') = true →
  found d' t w' = (λ r, if selects w r then assign values r else r) <$> found d t w'.
Proof.
  intros Hr Hw. unfold found. rewrite (replaces_target _ _ _ _ Hr), where_update by done.
  by destruct (where_rows w' (rows d t)).
Qed.
End found.

Definition stays_consistent `{Database} (d d' : db) : Prop := consistent d → consistent d'.

#[export] Instance stays_consistent_preorder `{Database} : PreOrder stays_consistent.
Proof. split; [by intros d Hd | intros d1 d2 d3 H1 H2 Hd; by apply H2, H1]. Qed.

(** Only the given tables change. *)
Definition confined `{Database} (ts : list Table) (d d' : db) : Prop :=
  ∀ t, t ∉ ts → rows d' t = rows d t.

#[export] Instance confined_preorder `{Database} ts : PreOrder (confined ts).
Proof. split; [by intros d t Ht | intros d1 d2 d3 H1 H2 t Ht; by rewrite H2, H1]. Qed.

Section confinement.
Context `{Database}.

Lemma confined_sub ts ts' d d' :
  confined ts d d' → forallb (λ t, bool_decide (t ∈ ts')) ts = true → confined ts' d d'.
Proof.
  intros Hc Hs t Ht. apply Hc. intros Hin. apply Ht. rewrite forallb_Forall, Forall_forall in Hs.
  apply Hs in Hin. by apply bool_decide_eq_true in Hin.
Qed.

Lemma effect_confined_into {E A} ts ts' (m : tx E A) :
  effect (confined ts) m → forallb (λ t, bool_decide (t ∈ ts')) ts = true → effect (confined ts') m.
Proof. intros Hm Hs d a d' Hd. eapply confined_sub; [by eapply Hm|done]. Qed.
End confinement.

(** ** The order of a query's rows *)

Section ordering.
Context `{Database}.

Lemma value_le_total a b : value_le text_le a b = true ∨ value_le text_le b a = true.
Proof.
  destruct a, b; cbn; auto; rewrite ?bool_decide_eq_true.
  - apply text_le_total.
  - rewrite !Z.leb_le. lia.
  - apply String.le_total.
Qed.

Lemma value_le_trans a b c :
  value_le text_le a b = true → value_le text_le b c = true → value_le text_le a c = true.
Proof.
  destruct a, b, c; cbn; try done; rewrite ?bool_decide_eq_true, ?Z.leb_le; try lia.
  - apply text_le_order.
  - apply String.le_po.
Qed.

Lemma value_le_anti a b : value_le text_le a b = true → value_le text_le b a = true → a = b.
Proof.
  destruct a, b; cbn; try done; rewrite ?bool_decide_eq_true, ?Z.leb_le; intros H1 H2; f_equal.
  - by apply text_le_order.
  - lia.
  - by apply String.le_po.
Qed.

#[global] Instance row_le_total cs : Total (row_le text_le cs).
Proof.
  intros a b. unfold row_le, project. induction cs as [|c cs IH]; cbn; [by left|].
  destruct (decide (cell a c = cell b c)) as [->|Hne].
  - by rewrite !decide_True.
  - rewrite !decide_False by congruence. apply value_le_total.
Qed.

#[global] Instance row_le_trans cs : Transitive (row_le text_le cs).
Proof.
  intros a b c. unfold row_le, project. induction cs as [|x cs IH]; cbn; [done|].
  intros H1 H2. destruct (decide (cell a x = cell b x)) as [Eab|Hab].
  - rewrite Eab. destruct (decide (cell b x = cell c x)); auto.
  - destruct (decide (cell b x = cell c x)) as [Ebc|Hbc].
    + by rewrite <- Ebc, decide_False.
    + destruct (decide (cell a x = cell c x)) as [Eac|Hac]; [|by eapply value_le_trans].
      exfalso. apply Hab, value_le_anti; [done|]. by rewrite Eac.
Qed.

Lemma StronglySorted_lookups {A} (R : A → A → Prop) (l : list A) (i j : nat) x y :
  StronglySorted R l → (i < j)%nat → l !! i = Some x → l !! j = Some y → R x y.
Proof.
  intros Hl. revert i j. induction Hl as [|z l _ IH Hz]; intros [|i] [|j] Hij Hx Hy;
    try (simpl in *; done || lia).
  - simplify_eq/=. by eapply Forall_lookup_1 in Hz.
  - apply (IH i j); [lia|done|done].
Qed.

(** Rows already in strictly increasing order are read in that order. *)
Lemma sort_sorted cs l :
  StronglySorted (λ a b, ¬ row_le text_le cs b a) l → merge_sort (row_le text_le cs) l = l.
Proof.
  intros Hl. apply (StronglySorted_unique_strong (row_le text_le cs)).
  - intros x y Hx Hy Hxy Hyx. rewrite merge_sort_Permutation in Hx.
    apply list_elem_of_lookup in Hx as [i Hi]. apply list_elem_of_lookup in Hy as [j Hj].
    destruct (lt_eq_lt_dec i j) as [[Hlt| ->]|Hlt].
    + by destruct (StronglySorted_lookups _ _ _ _ _ _ Hl Hlt Hi Hj).
    + congruence.
    + by destruct (StronglySorted_lookups _ _ _ _ _ _ Hl Hlt Hj Hi).
  - apply StronglySorted_merge_sort; apply _.
  - revert Hl. induction 1 as [|x l _ IH Hx]; constructor; [done|].
    eapply Forall_impl; [exact Hx|]. intros y Hy. by destruct (row_le_total cs x y).
  - apply merge_sort_Permutation.
Qed.
End ordering.

Section statement_effects.
Context `{Database}.

Lemma fetch_effect st :
  well_formed st = true → effect stays_consistent (fetch_all st).
Proof. intros Hwf d out d' Hf Hd. by eapply fetch_consistent. Qed.

Lemma fetch_confined st ts :
  well_formed st = true → target st ∈ ts → effect (confined ts) (fetch_all st).
Proof.
  intros Hwf Ht d out d' (l&_&Hl)%fetch_Ok t Hnt; [|done]. rewrite (Hl t).
  by rewrite decide_False by congruence.
Qed.

Lemma scalar_effect R `{!PreOrder R} st : effect R (fetch_all st) → effect R (scalar st).
Proof. intros Hst. unfold scalar. effects. Qed.

Lemma one_or_none_effect R `{!PreOrder R} st : effect R (fetch_all st) → effect R (one_or_none st).
Proof. intros Hst. unfold one_or_none. effects. Qed.
End statement_effects.

#[export] Hint Resolve fetch_effect fetch_confined scalar_effect one_or_none_effect : effects.
#[export] Hint Extern 1 (well_formed _ = true) => reflexivity : effects.
#[export] Hint Extern 1 (target _ ∈ _) => by_decide : effects.

(** ** A server in memory: each table the list of its rows *)

Definition table_rows (d : list (Table * list row)) (t : Table) : list row :=
  default [] (dict_get d t).

Program Definition memory : Database := {|
  db := list (Table * list row);
  rows := table_rows;
  permits := λ _ _, true;
  text_le := λ a b, bool_decide (String.le a b);
  execute := λ st d,
    match run (λ a b, bool_decide (String.le a b)) st (table_rows d (target st)) with
    | Ok (out, l) => Ok (out, dict_set d (target st) l)
    | Err e => Err e
    end
|}.
Next Obligation.
  split; [split|].
  - intros a. by apply bool_decide_eq_true.
  - intros a b c. rewrite !bool_decide_eq_true. apply String.le_po.
  - intros a b. rewrite !bool_decide_eq_true. apply String.le_po.
Qed.
Next Obligation. intros a b. rewrite !bool_decide_eq_true. apply String.le_total. Qed.
Next Obligation. done. Qed.
Next Obligation.
  intros st d _ _. cbn. destruct (run _ st _) as [[out l]|e]; [|done].
  eexists. split; [done|]. intros t. unfold table_rows. rewrite dict_set_get.
  destruct (decide (target st = t)) as [<-|Hne].
  - by rewrite decide_True.
  - by rewrite decide_False by congruence.
Qed.

Lemma memory_empty : consistent (H := memory) [].
Proof. intros t. by apply sound_nil. Qed.
