(* ===== verification/Schema.v ===== *)
(** * The durable schema

    [packages/store/src/aerial_rescue_store/database/schema.py]: the tables the repositories
    write, with their column types, nullability, unique keys and check constraints, in the
    order the metadata declares their columns.  Foreign keys and partial indexes are the
    server's to enforce ([Sql.permits]). *)

From S2P Require Import Prelude Sql.
Local Open Scope string_scope.
Local Open Scope Z_scope.

Definition IDENTIFIER_LENGTH : nat := 64.
Definition KIND_LENGTH : nat := 32.
Definition EVENT_TYPE_LENGTH : nat := 96.
Definition SOURCE_LENGTH : nat := 256.
Definition TOPIC_LENGTH : nat := 250.
Definition INSTANT_LENGTH : nat := 24.
Definition DIGEST_LENGTH : nat := 64.
Definition TRACEPARENT_LENGTH : nat := 55.
Definition TRACESTATE_LENGTH : nat := 512.
Definition STATE_LENGTH : nat := 24.
Definition AGENT_NAME_LENGTH : nat := 64.
Definition DASHBOARD_SOURCE_LENGTH : nat := 128.
Definition DASHBOARD_STATE_LENGTH : nat := 16.
Definition MAXIMUM_PRODUCER_SEQUENCE : Z := 10 ^ 15 - 1.

(** [sa.Column(name, type, nullable=...)] *)
Definition required (c : string) (ty : sqltype) : Column :=
  {| column_name := c; column_type := ty; nullable := false |}.
Definition optional (c : string) (ty : sqltype) : Column :=
  {| column_name := c; column_type := ty; nullable := true |}.

Definition AUDIT_SEQUENCE : Table := {|
  table_name := "audit_sequence";
  table_columns := [
    required "mission_id" (Varchar IDENTIFIER_LENGTH);
    required "next_ordinal" BigInteger ];
  unique_keys := [["mission_id"]];
  checks := [
    CMin "next_ordinal" 1 ]
|}.

Definition AUDIT_RECORD : Table := {|
  table_name := "audit_record";
  table_columns := [
    required "mission_id" (Varchar IDENTIFIER_LENGTH);
    required "ordinal" BigInteger;
    required "kind" (Varchar EVENT_TYPE_LENGTH);
    required "occurred_at" (Varchar INSTANT_LENGTH);
    required "payload" LargeBinary;
    required "correlation_id" (Varchar IDENTIFIER_LENGTH);
    optional "causation_id" (Varchar IDENTIFIER_LENGTH);
    required "traceparent" (Varchar TRACEPARENT_LENGTH) ];
  unique_keys := [["mission_id"; "ordinal"]];
  checks := [
    CMin "ordinal" 1 ]
|}.

Definition APPROVAL : Table := {|
  table_name := "approval";
  table_columns := [
    required "mission_id" (Varchar IDENTIFIER_LENGTH);
    required "proposal_id" (Varchar IDENTIFIER_LENGTH);
    required "state" (Varchar 16);
    required "operator_identity" (Varchar IDENTIFIER_LENGTH);
    required "issued_wall" (Varchar INSTANT_LENGTH);
    required "issued_monotonic_milliseconds" BigInteger;
    required "time_to_live_milliseconds" BigInteger;
    required "proposal_digest" (Varchar DIGEST_LENGTH) ];
  unique_keys := [["proposal_id"]];
  checks := [
    CIn "state" ["requested"; "approved"; "rejected"; "expired"; "superseded"; "executed"];
    CMin "time_to_live_milliseconds" 1 ]
|}.

Definition IDEMPOTENCY_CLAIM : Table := {|
  table_name := "idempotency_claim";
  table_columns := [
    required "idempotency_key" (Varchar IDENTIFIER_LENGTH);
    required "kind" (Varchar 24);
    required "body_digest" (Varchar DIGEST_LENGTH);
    required "mission_id" (Varchar IDENTIFIER_LENGTH);
    optional "result" LargeBinary;
    required "claimed_at" (Varchar INSTANT_LENGTH) ];
  unique_keys := [["idempotency_key"]];
  checks := [
    CIn "kind" ["command"; "approval consumption"; "dashboard command"; "dashboard decision"] ]
|}.

Definition COMMAND_OUTBOX : Table := {|
  table_name := "command_outbox";
  table_columns := [
    required "command_id" (Varchar IDENTIFIER_LENGTH);
    required "mission_id" (Varchar IDENTIFIER_LENGTH);
    required "drone_id" (Varchar IDENTIFIER_LENGTH);
    required "payload" LargeBinary;
    required "state" (Varchar STATE_LENGTH);
    required "correlation_id" (Varchar IDENTIFIER_LENGTH);
    optional "causation_id" (Varchar IDENTIFIER_LENGTH);
    required "traceparent" (Varchar TRACEPARENT_LENGTH);
    required "staged_at" (Varchar INSTANT_LENGTH) ];
  unique_keys := [["command_id"]];
  checks := [
    CIn "state" ["staged"; "reconciliation needed"; "confirmed"] ]
|}.

Definition BROKER_INBOX : Table := {|
  table_name := "broker_inbox";
  table_columns := [
    required "consumer" (Varchar IDENTIFIER_LENGTH);
    required "source" (Varchar SOURCE_LENGTH);
    required "event_id" (Varchar IDENTIFIER_LENGTH);
    required "mission_id" (Varchar IDENTIFIER_LENGTH);
    required "canonical_digest" (Varchar DIGEST_LENGTH);
    optional "result" LargeBinary;
    optional "processed_at" (Varchar INSTANT_LENGTH) ];
  unique_keys := [["consumer"; "source"; "event_id"]];
  checks := [
    COr (CAnd (CNull "result") (CNull "processed_at")) (CAnd (CNot (CNull "result")) (CNot (CNull "processed_at"))) ]
|}.

Definition BROKER_REFUSAL : Table := {|
  table_name := "broker_refusal";
  table_columns := [
    required "consumer" (Varchar IDENTIFIER_LENGTH);
    optional "source" (Varchar SOURCE_LENGTH);
    optional "family" (Varchar KIND_LENGTH);
    required "channel" (Varchar TOPIC_LENGTH);
    required "refusal_code" (Varchar IDENTIFIER_LENGTH);
    required "raw_digest" (Varchar DIGEST_LENGTH);
    required "observed_at" (Varchar INSTANT_LENGTH) ];
  unique_keys := [["consumer"; "channel"; "raw_digest"]];
  checks := [
    CFilled "consumer";
    COr (CNull "source") (CFilled "source");
    COr (CNull "family") (CFilled "family");
    CFilled "channel";
    CFilled "refusal_code";
    CHex64 "raw_digest" ]
|}.

Definition SOURCE_EVENT : Table := {|
  table_name := "source_event";
  table_columns := [
    required "source" (Varchar SOURCE_LENGTH);
    required "event_id" (Varchar IDENTIFIER_LENGTH);
    required "mission_id" (Varchar IDENTIFIER_LENGTH);
    required "topic" (Varchar TOPIC_LENGTH);
    required "canonical_digest" (Varchar DIGEST_LENGTH);
    required "canonical_payload" LargeBinary;
    required "observed_at" (Varchar INSTANT_LENGTH) ];
  unique_keys := [["source"; "event_id"]];
  checks := [
    CHex64 "canonical_digest" ]
|}.

(** The check that a predecessor is another mission compares two columns; it is the server's. *)
Definition DASHBOARD_MISSION : Table := {|
  table_name := "dashboard_mission";
  table_columns := [
    required "mission_id" (Varchar IDENTIFIER_LENGTH);
    required "scenario_id" (Varchar IDENTIFIER_LENGTH);
    required "scenario_revision" Integer;
    required "lifecycle" (Varchar DASHBOARD_STATE_LENGTH);
    optional "predecessor_mission_id" (Varchar IDENTIFIER_LENGTH) ];
  unique_keys := [["mission_id"]; ["predecessor_mission_id"]; ["mission_id"; "scenario_id"; "scenario_revision"]];
  checks := [
    CIn "lifecycle" ["PLANNED"; "SEARCHING"; "EXHAUSTED"; "ABORTED"];
    CMin "scenario_revision" 1 ]
|}.

Definition DASHBOARD_BROKER_SOURCE : Table := {|
  table_name := "dashboard_broker_source";
  table_columns := [
    required "source" (Varchar DASHBOARD_SOURCE_LENGTH);
    optional "high_water_sequence" BigInteger ];
  unique_keys := [["source"]];
  checks := [
    COr (CNull "high_water_sequence") (CBetween "high_water_sequence" 0 MAXIMUM_PRODUCER_SEQUENCE) ]
|}.

Definition DASHBOARD_BROKER_EVENT : Table := {|
  table_name := "dashboard_broker_event";
  table_columns := [
    required "source" (Varchar DASHBOARD_SOURCE_LENGTH);
    required "event_id" (Varchar IDENTIFIER_LENGTH);
    required "source_sequence" BigInteger;
    required "payload_digest" (Varchar DIGEST_LENGTH);
    required "audit_mission_id" (Varchar IDENTIFIER_LENGTH);
    required "audit_ordinal" BigInteger ];
  unique_keys := [["source"; "event_id"]; ["source"; "source_sequence"]; ["audit_mission_id"; "audit_ordinal"]];
  checks := [
    CBetween "source_sequence" 0 MAXIMUM_PRODUCER_SEQUENCE;
    CMin "audit_ordinal" 1;
    CHex64 "payload_digest" ]
|}.

Definition PENDING_INVOCATION : Table := {|
  table_name := "pending_invocation";
  table_columns := [
    required "invocation_id" (Varchar IDENTIFIER_LENGTH);
    required "mission_id" (Varchar IDENTIFIER_LENGTH);
    required "agent_name" (Varchar AGENT_NAME_LENGTH);
    required "correlation_id" (Varchar IDENTIFIER_LENGTH);
    required "source_event_id" (Varchar IDENTIFIER_LENGTH);
    required "source_event_digest" (Varchar DIGEST_LENGTH) ];
  unique_keys := [["invocation_id"]];
  checks := [
    CHex64 "source_event_digest" ]
|}.

Definition APPLICATION_OUTBOX : Table := {|
  table_name := "application_outbox";
  table_columns := [
    required "producer" (Varchar IDENTIFIER_LENGTH);
    required "event_id" (Varchar IDENTIFIER_LENGTH);
    required "family" (Varchar KIND_LENGTH);
    required "topic" (Varchar TOPIC_LENGTH);
    required "headers" LargeBinary;
    required "payload" LargeBinary;
    required "state" (Varchar STATE_LENGTH);
    required "traceparent" (Varchar TRACEPARENT_LENGTH);
    optional "tracestate" (Varchar TRACESTATE_LENGTH);
    required "correlation_id" (Varchar IDENTIFIER_LENGTH);
    optional "causation_id" (Varchar IDENTIFIER_LENGTH);
    required "staged_at" (Varchar INSTANT_LENGTH);
    optional "confirmed_at" (Varchar INSTANT_LENGTH) ];
  unique_keys := [["producer"; "event_id"]];
  checks := [
    CIn "state" ["staged"; "reconciliation needed"; "confirmed"];
    COr (CAnd (CIn "state" ["confirmed"]) (CNot (CNull "confirmed_at"))) (CAnd (CNot (CIn "state" ["confirmed"])) (CNull "confirmed_at")) ]
|}.

Definition PROPOSAL : Table := {|
  table_name := "proposal";
  table_columns := [
    required "proposal_id" (Varchar IDENTIFIER_LENGTH);
    required "mission_id" (Varchar IDENTIFIER_LENGTH);
    required "source_event_id" (Varchar IDENTIFIER_LENGTH);
    required "source_event_digest" (Varchar DIGEST_LENGTH);
    required "agent_name" (Varchar AGENT_NAME_LENGTH);
    required "invocation_id" (Varchar IDENTIFIER_LENGTH);
    required "proposal_type" (Varchar KIND_LENGTH);
    required "proposal_digest" (Varchar DIGEST_LENGTH);
    required "payload" LargeBinary;
    required "drone_id" (Varchar IDENTIFIER_LENGTH);
    required "latitude_microdegrees" BigInteger;
    required "longitude_microdegrees" BigInteger;
    required "command_type" (Varchar KIND_LENGTH);
    required "issued_at" (Varchar INSTANT_LENGTH);
    required "sequence" BigInteger;
    required "correlation_id" (Varchar IDENTIFIER_LENGTH);
    optional "causation_id" (Varchar IDENTIFIER_LENGTH);
    required "traceparent" (Varchar TRACEPARENT_LENGTH) ];
  unique_keys := [["proposal_id"]; ["proposal_digest"]];
  checks := [
    CMin "sequence" 0;
    CBetween "latitude_microdegrees" (-90000000) 90000000;
    CBetween "longitude_microdegrees" (-180000000) 180000000 ]
|}.

Definition EVIDENCE_ITEM : Table := {|
  table_name := "evidence_item";
  table_columns := [
    required "evidence_id" (Varchar IDENTIFIER_LENGTH);
    required "mission_id" (Varchar IDENTIFIER_LENGTH);
    required "proposal_id" (Varchar IDENTIFIER_LENGTH);
    required "source_id" (Varchar IDENTIFIER_LENGTH);
    required "source_kind" (Varchar KIND_LENGTH);
    required "lifecycle" (Varchar STATE_LENGTH);
    required "provenance_digest" (Varchar DIGEST_LENGTH);
    required "payload" LargeBinary;
    required "observed_at" (Varchar INSTANT_LENGTH) ];
  unique_keys := [["evidence_id"]];
  checks := [
    CIn "source_kind" ["live-model"; "live-sensor"; "recorded"];
    CIn "lifecycle" ["requested"; "observed"; "validated"; "manual-review"; "contributing"; "abstained"; "rejected"] ]
|}.

Definition EVIDENCE_DECISION : Table := {|
  table_name := "evidence_decision";
  table_columns := [
    required "decision_id" (Varchar IDENTIFIER_LENGTH);
    required "mission_id" (Varchar IDENTIFIER_LENGTH);
    required "proposal_id" (Varchar IDENTIFIER_LENGTH);
    required "proposal_digest" (Varchar DIGEST_LENGTH);
    required "decision_digest" (Varchar DIGEST_LENGTH);
    required "decision_version" SmallInteger;
    optional "score_version" SmallInteger;
    optional "score" SmallInteger;
    optional "band" (Varchar STATE_LENGTH);
    required "outcome" (Varchar STATE_LENGTH);
    optional "contributors" LargeBinary;
    required "payload" LargeBinary;
    required "decided_at" (Varchar INSTANT_LENGTH);
    required "sequence" BigInteger ];
  unique_keys := [["decision_id"]; ["decision_digest"]; ["proposal_id"; "sequence"]];
  checks := [
    CIn "outcome" ["contributing"; "manual-review"; "abstained"; "rejected"];
    COr (CNull "band") (CIn "band" ["none"; "weak"; "supported"; "corroborated"]);
    COr (CNull "score") (CBetween "score" 0 100);
    CAnd (CMin "decision_version" 1) (COr (CNull "score_version") (CMin "score_version" 1));
    CMin "sequence" 0;
    COr (CAnd (CAnd (CAnd (CAnd (CIn "outcome" ["contributing"]) (CNot (CNull "score_version"))) (CNot (CNull "score"))) (CNot (CNull "band"))) (CNot (CNull "contributors"))) (CAnd (CAnd (CAnd (CAnd (CNot (CIn "outcome" ["contributing"])) (CNull "score_version")) (CNull "score")) (CNull "band")) (CNull "contributors")) ]
|}.

Definition APPROVAL_BINDING : Table := {|
  table_name := "operator_decision_binding";
  table_columns := [
    required "approval_id" (Varchar IDENTIFIER_LENGTH);
    required "proposal_id" (Varchar IDENTIFIER_LENGTH);
    required "proposal_version" SmallInteger;
    required "evidence_decision_id" (Varchar IDENTIFIER_LENGTH);
    required "evidence_decision_digest" (Varchar DIGEST_LENGTH);
    required "evidence_decision_version" SmallInteger;
    required "decision" (Varchar 16);
    required "action_payload" LargeBinary;
    required "decision_runtime_id" (Varchar IDENTIFIER_LENGTH);
    optional "authority_runtime_epoch" (Varchar IDENTIFIER_LENGTH);
    optional "authority_issued_monotonic_milliseconds" BigInteger;
    optional "expires_at" (Varchar INSTANT_LENGTH) ];
  unique_keys := [["approval_id"]; ["proposal_id"]];
  checks := [
    CAnd (CMin "proposal_version" 1) (CMin "evidence_decision_version" 1);
    CHex64 "evidence_decision_digest";
    CIn "decision" ["approve"; "reject"];
    COr (CAnd (CIn "decision" ["approve"]) (CNot (CNull "expires_at"))) (CAnd (CIn "decision" ["reject"]) (CNull "expires_at"));
    CFilled "action_payload";
    COr (CAnd (CNull "authority_runtime_epoch") (CNull "authority_issued_monotonic_milliseconds")) (CAnd (CNot (CNull "authority_runtime_epoch")) (CNot (CNull "authority_issued_monotonic_milliseconds"))) ]
|}.

Definition COMMAND_PROGRESS : Table := {|
  table_name := "command_progress";
  table_columns := [
    required "command_id" (Varchar IDENTIFIER_LENGTH);
    required "mission_id" (Varchar IDENTIFIER_LENGTH);
    required "drone_id" (Varchar IDENTIFIER_LENGTH);
    required "state" (Varchar STATE_LENGTH);
    required "send_count" SmallInteger;
    optional "last_sent_at" (Varchar INSTANT_LENGTH);
    optional "deadline_at" (Varchar INSTANT_LENGTH);
    optional "result_id" (Varchar IDENTIFIER_LENGTH);
    required "updated_at" (Varchar INSTANT_LENGTH) ];
  unique_keys := [["command_id"]];
  checks := [
    CIn "state" ["accepted"; "in-flight"; "acknowledged"; "succeeded"; "failed"; "abandoned"];
    CAnd (CMin "send_count" 0) (CBetween "send_count" (- 2 ^ 63) 5) ]
|}.

Definition DRONE_COMMAND_RECEIPT : Table := {|
  table_name := "drone_command_receipt";
  table_columns := [
    required "drone_id" (Varchar IDENTIFIER_LENGTH);
    required "command_id" (Varchar IDENTIFIER_LENGTH);
    required "mission_id" (Varchar IDENTIFIER_LENGTH);
    required "command_digest" (Varchar DIGEST_LENGTH);
    optional "result" LargeBinary;
    optional "applied_sequence" BigInteger;
    optional "processed_at" (Varchar INSTANT_LENGTH) ];
  unique_keys := [["drone_id"; "command_id"]];
  checks := [
    COr (CNull "applied_sequence") (CMin "applied_sequence" 0);
    COr (CAnd (CAnd (CNull "result") (CNull "applied_sequence")) (CNull "processed_at")) (CAnd (CAnd (CNot (CNull "result")) (CNot (CNull "applied_sequence"))) (CNot (CNull "processed_at"))) ]
|}.

Definition DRONE_STREAM_STATE : Table := {|
  table_name := "drone_stream_state";
  table_columns := [
    required "drone_id" (Varchar IDENTIFIER_LENGTH);
    required "producer" (Varchar SOURCE_LENGTH);
    optional "high_water" BigInteger ];
  unique_keys := [["drone_id"]; ["producer"]];
  checks := [
    COr (CNull "high_water") (CBetween "high_water" 0 999999999999999) ]
|}.

Definition DRONE_COMMAND_EFFECT : Table := {|
  table_name := "drone_command_effect";
  table_columns := [
    required "drone_id" (Varchar IDENTIFIER_LENGTH);
    required "command_id" (Varchar IDENTIFIER_LENGTH);
    required "mission_id" (Varchar IDENTIFIER_LENGTH);
    required "command_digest" (Varchar DIGEST_LENGTH);
    required "outcome" (Varchar STATE_LENGTH);
    required "effect_payload" LargeBinary;
    required "applied_sequence" BigInteger;
    required "applied_at" (Varchar INSTANT_LENGTH) ];
  unique_keys := [["drone_id"; "command_id"]; ["drone_id"; "applied_sequence"]];
  checks := [
    CHex64 "command_digest";
    CIn "outcome" ["succeeded"; "failed"];
    CFilled "effect_payload";
    CMin "applied_sequence" 0 ]
|}.

