(* ===== verification/Digest.v ===== *)
(** * Domain-separated digests

    [packages/contracts/src/aerial_rescue_contracts/digest.py]: SHA-256 over a prefix, the
    context and the canonical bytes of the covered members.  [material] is the hashed text;
    the theorems say it determines the context and the covered value, so two equal digests
    of different contents are a collision of SHA-256 on two known texts, and that each typed
    digest omits exactly its own member. *)

From S2P Require Import Prelude PyStr Regex PyVal Canonical Instant Topics Envelope.
Local Open Scope string_scope.
Local Open Scope Z_scope.

(** ** SHA-256

    The standard library's [hashlib.sha256], as FIPS 180-4 defines it: 32-bit words are
    integers modulo 2^32, a message is padded to 64-byte blocks, and each block is compressed
    in 64 rounds.  [sha256_hex] is [hashlib.sha256(material).hexdigest()]; the examples
    are the standard's own test vectors.  Nothing is assumed of the function: the digest
    theorems speak of a collision explicitly. *)

Definition word (x : Z) : Z := x mod 2 ^ 32.
Definition rotr (n x : Z) : Z := Z.lor (Z.shiftr x n) (word (Z.shiftl x (32 - n))).

(** The round constants, from the standard's own description: the first thirty-two bits of the
    fractional parts of the cube roots of the first sixty-four primes, and of the square roots
    of the first eight for the initial state. *)
Definition is_prime (n : nat) : bool :=
  forallb (λ d, negb (n mod d =? 0)%nat) (seq 2 (n - 2)).

Definition primes : list nat := filter (λ n, is_prime n = true) (seq 2 310).

(** The largest integer of [n] bits whose cube is at most [x]. *)
Fixpoint cube_root (n : nat) (acc x : Z) : Z :=
  match n with
  | O => acc
  | S n => let up := acc + 2 ^ Z.of_nat n in cube_root n (if up * up * up <=? x then up else acc) x
  end.

Definition K : list Z :=
  Eval vm_compute in (λ p, word (cube_root 36 0 (Z.of_nat p * 2 ^ 96))) <$> primes.

Definition H0 : list Z :=
  Eval vm_compute in (λ p, word (Z.sqrt (Z.of_nat p * 2 ^ 64))) <$> take 8 primes.

Definition bytes (s : string) : list Z := (λ c, Z.of_N (ord c)) <$> list_ascii_of_string s.

(** [n] bytes of [x], most significant first. *)
Fixpoint big_endian (n : nat) (x : Z) : list Z :=
  match n with
  | O => []
  | S n => Z.shiftr x (8 * Z.of_nat n) mod 256 :: big_endian n x
  end.

Definition pad (m : list Z) : list Z :=
  let n := length m in
  let z := ((119 - n mod 64) mod 64)%nat in
  m ++ [128] ++ replicate z 0 ++ big_endian 8 (8 * Z.of_nat n).

(** Big-endian 32-bit words. *)
Fixpoint words (m : list Z) : list Z :=
  match m with
  | a :: b :: c :: d :: m => (((a * 256 + b) * 256 + c) * 256 + d) :: words m
  | _ => []
  end.

Definition ssig0 (x : Z) : Z := Z.lxor (Z.lxor (rotr 7 x) (rotr 18 x)) (Z.shiftr x 3).
Definition ssig1 (x : Z) : Z := Z.lxor (Z.lxor (rotr 17 x) (rotr 19 x)) (Z.shiftr x 10).
Definition bsig0 (x : Z) : Z := Z.lxor (Z.lxor (rotr 2 x) (rotr 13 x)) (rotr 22 x).
Definition bsig1 (x : Z) : Z := Z.lxor (Z.lxor (rotr 6 x) (rotr 11 x)) (rotr 25 x).
Definition ch (x y z : Z) : Z := Z.lxor (Z.land x y) (Z.land (2 ^ 32 - 1 - x) z).
Definition maj (x y z : Z) : Z := Z.lxor (Z.lxor (Z.land x y) (Z.land x z)) (Z.land y z).

(** The message schedule, newest word first. *)
Fixpoint extend (n : nat) (r : list Z) : list Z :=
  match n with
  | O => r
  | S n => extend n (word (ssig1 (nth 1 r 0) + nth 6 r 0 + ssig0 (nth 14 r 0) + nth 15 r 0) :: r)
  end.

Definition schedule (block : list Z) : list Z := reverse (extend 48 (reverse block)).

Definition round (s : list Z) (kw : Z * Z) : list Z :=
  match s with
  | [a; b; c; d; e; f; g; h] =>
      let t1 := h + bsig1 e + ch e f g + kw.1 + kw.2 in
      let t2 := bsig0 a + maj a b c in
      [word (t1 + t2); a; b; c; word (d + t1); e; f; g]
  | _ => s
  end.

Definition compress (s block : list Z) : list Z :=
  zip_with (λ x y, word (x + y)) s (foldl round s (zip K (schedule block))).

Fixpoint blocks (fuel : nat) (s ws : list Z) : list Z :=
  match fuel, ws with
  | S fuel, _ :: _ => blocks fuel (compress s (take 16 ws)) (drop 16 ws)
  | _, _ => s
  end.

Definition sha256 (m : list Z) : list Z :=
  let ws := words (pad m) in blocks (length ws) H0 ws.

Definition hex_char (n : Z) : ascii :=
  ascii_of_N (Z.to_N (if n <? 10 then 48 + n else 87 + n)).

Definition hex_word (w : Z) : string :=
  foldr (λ b s, String (hex_char (b / 16)) (String (hex_char (b mod 16)) s)) "" (big_endian 4 w).

(** [hashlib.sha256(material).hexdigest()] *)
Definition sha256_hex (material : string) : string :=
  foldr (λ w s, hex_word w ++ s) "" (sha256 (bytes material)).

Example round_constants : length K = 64%nat ∧ nth 0 K 0 = 0x428a2f98 ∧ nth 63 K 0 = 0xc67178f2.
Proof. vm_compute. auto. Qed.

Example sha256_abc :
  sha256_hex "abc" = "ba7816bf8f01cfea414140de5dae2223b00361a396177a9cb410ff61f20015ad".
Proof. vm_compute. reflexivity. Qed.

Example sha256_two_blocks :
  sha256_hex "abcdbcdecdefdefgefghfghighijhijkijkljklmklmnlmnomnopnopq"
  = "248d6a61d20638b8e5c026930c3e6039a33ce45964ff2167f6ecedd419db06c1".
Proof. vm_compute. reflexivity. Qed.

Definition CANONICALIZATION_VERSION : Z := 1.
Definition VERSION_FIELD : string := "canonicalizationVersion".
Definition DIGEST_FIELD : string := "digest".
Definition PROPOSAL_DIGEST_FIELD : string := "proposalDigest".
Definition EVIDENCE_DECISION_DIGEST_FIELD : string := "evidenceDecisionDigest".

Definition PREFIX : string := "aerial-rescue/canonical/v1".
Definition NEWLINE : ascii := "010".
Definition SEPARATOR : string := String NEWLINE "".

Inductive Context : Set :=
| PROPOSAL | SOURCE_EVENT | REPLAY_STATE | ORDERED_DASHBOARD_EVENT | EVIDENCE | IDEMPOTENCY_BODY.

#[export] Instance Context_eq_dec : EqDecision Context.
Proof. solve_decision. Defined.

Definition context_value (c : Context) : string :=
  match c with
  | PROPOSAL => "proposal-digest" | SOURCE_EVENT => "source-event" | REPLAY_STATE => "replay-state"
  | ORDERED_DASHBOARD_EVENT => "ordered-dashboard-event" | EVIDENCE => "evidence"
  | IDEMPOTENCY_BODY => "idempotency-body"
  end.

Inductive DigestRefusal : Set := NOT_AN_OBJECT | VERSION.

Record DigestError : Set := { refusal : DigestRefusal; value : pyval }.

(** What these functions raise: the digest's refusal, the canonical profile's, and the
    [TypeError] of [hmac.compare_digest] on text that is not ASCII. *)
Inductive digest_failure : Set :=
| Refused (e : DigestError)
| Uncanonical (e : CanonicalizationError)
| TypeError.

(** [_covered_members]: [type(version) is not int] refuses [True], which equals 1. *)
Definition covered_members (payload : pyval) (omitted_field : string) : result digest_failure members :=
  match payload with
  | PyDict d =>
      let version := get d VERSION_FIELD in
      raise_if (negb (bool_decide (version = PyInt CANONICALIZATION_VERSION)))
               (Refused {| refusal := VERSION; value := version |}) ;;
      Ok (filter (λ kv : pykey * pyval, kv.1 ≠ KStr omitted_field) d)
  | v => Err (Refused {| refusal := NOT_AN_OBJECT; value := v |})
  end.

(** [hmac.compare_digest] *)
Definition matches (expected actual : string) : result digest_failure bool :=
  if str_all is_ascii expected && str_all is_ascii actual
  then Ok (bool_decide (expected = actual)) else Err TypeError.

Section digests.
Context `{Normalization}.

Definition material (c : Context) (bytes : string) : string :=
  PREFIX ++ SEPARATOR ++ context_value c ++ SEPARATOR ++ bytes.

Definition digest_covered (c : Context) (covered : members) : result digest_failure string :=
  bytes ← map_err Uncanonical (canonical_bytes (PyDict covered));
  Ok (sha256_hex (material c bytes)).

Definition digest (c : Context) (payload : pyval) : result digest_failure string :=
  covered ← covered_members payload DIGEST_FIELD;
  digest_covered c covered.

Definition proposal_digest (payload : members) : result digest_failure string :=
  covered ← covered_members (PyDict payload) PROPOSAL_DIGEST_FIELD;
  digest_covered PROPOSAL covered.

Definition source_event_digest (e : Envelope) : result digest_failure string :=
  digest_covered SOURCE_EVENT
    (document [(VERSION_FIELD, PyInt CANONICALIZATION_VERSION); ("event", PyDict (envelope_document e))]).

Definition proposal_digest_matches (payload : members) : result digest_failure bool :=
  computed ← proposal_digest payload;
  match get payload PROPOSAL_DIGEST_FIELD with
  | PyStr supplied => matches supplied computed
  | _ => Ok false
  end.

Definition evidence_decision_digest (payload : members) : result digest_failure string :=
  covered ← covered_members (PyDict payload) EVIDENCE_DECISION_DIGEST_FIELD;
  digest_covered EVIDENCE covered.

Definition evidence_decision_digest_matches (payload : members) : result digest_failure bool :=
  computed ← evidence_decision_digest payload;
  match get payload EVIDENCE_DECISION_DIGEST_FIELD with
  | PyStr supplied => matches supplied computed
  | _ => Ok false
  end.

Definition ordered_dashboard_event_digest (audit_ordinal : Z) (event : members)
    : result digest_failure string :=
  digest_covered ORDERED_DASHBOARD_EVENT
    (document [(VERSION_FIELD, PyInt CANONICALIZATION_VERSION); ("auditOrdinal", PyInt audit_ordinal);
               ("event", PyDict event)]).
End digests.

(** ** The hashed text determines what it covers *)

Lemma context_value_inj c c' : context_value c = context_value c' → c = c'.
Proof. by destruct c, c'. Qed.

Lemma context_no_newline c : has_char NEWLINE (context_value c) = false.
Proof. by destruct c. Qed.

(** A text splits at its first newline in one way. *)
Lemma newline_split a b s t :
  has_char NEWLINE a = false → has_char NEWLINE b = false →
  a ++ SEPARATOR ++ s = b ++ SEPARATOR ++ t → a = b ∧ s = t.
Proof.
  unfold SEPARATOR. revert b; induction a as [|c a IH]; intros [|d b] Ha Hb; cbn [append].
  - intros [= ->]. done.
  - intros [= <- _]. by rewrite has_char_cons, bool_decide_true in Hb.
  - intros [= -> _]. by rewrite has_char_cons, bool_decide_true in Ha.
  - rewrite has_char_cons in Ha, Hb. bools. intros [= <- Heq]. destruct (IH b) as [-> ->]; done.
Qed.

Lemma material_inj c c' s s' : material c s = material c' s' → c = c' ∧ s = s'.
Proof.
  unfold material. intros Hm. apply str_app_inv_head, str_app_inv_head in Hm.
  apply newline_split in Hm as [Hc ->]; try apply context_no_newline. by apply context_value_inj in Hc.
Qed.

Section theorems.
Context `{Normalization}.

Lemma digest_covered_Ok c d h :
  digest_covered c d = Ok h ↔ ∃ b, canonical_bytes (PyDict d) = Ok b ∧ h = sha256_hex (material c b).
Proof. unfold digest_covered. rewrite bind_Ok. setoid_rewrite map_err_Ok. naive_solver. Qed.

Lemma covered_members_Ok v f d :
  covered_members v f = Ok d ↔
  ∃ p, v = PyDict p ∧ get p VERSION_FIELD = PyInt CANONICALIZATION_VERSION ∧
       d = filter (λ kv : pykey * pyval, kv.1 ≠ KStr f) p.
Proof.
  destruct v; cbn [covered_members]; try naive_solver.
  split.
  - intros Hd. run_ok. bools. eauto.
  - intros (p&[= <-]&Hv&->). by rewrite Hv, bool_decide_true.
Qed.

(** Two hashed texts that differ and have one digest. *)
Definition collision (m m' : string) : Prop := m ≠ m' ∧ sha256_hex m = sha256_hex m'.

(** The contexts and the covered values agree, or SHA-256 collides on the two hashed texts. *)
Definition covers_same (c c' : Context) (d d' : members) : Prop :=
  (c = c' ∧ canonical_form (PyDict d) = canonical_form (PyDict d')) ∨
  ∃ b b', canonical_bytes (PyDict d) = Ok b ∧ canonical_bytes (PyDict d') = Ok b' ∧
          collision (material c b) (material c' b').

Lemma digest_covered_same c c' d d' h :
  well_formed (PyDict d) = true → well_formed (PyDict d') = true →
  digest_covered c d = Ok h → digest_covered c' d' = Ok h → covers_same c c' d d'.
Proof.
  intros Hwf Hwf' (b&Hb&->)%digest_covered_Ok (b'&Hb'&Hh)%digest_covered_Ok.
  destruct (decide (material c b = material c' b')) as [Hm|Hm].
  - left. apply material_inj in Hm as [-> ->]. split; [done|].
    by apply (canonical_bytes_iff _ _ _ _ Hwf Hwf' Hb Hb').
  - right. exists b, b'. by repeat split.
Qed.

Lemma well_formed_filter (P : pykey * pyval → Prop) `{∀ kv, Decision (P kv)} d :
  well_formed (PyDict d) = true → well_formed (PyDict (filter P d)) = true.
Proof.
  cbn [well_formed]. rewrite !andb_true_iff, !bool_decide_eq_true, !forallb_Forall.
  rewrite !Forall_forall. intros [Hn Hv]. split.
  - clear Hv. induction d as [|kv d IH]; [done|]. cbn [fmap list_fmap] in Hn.
    apply NoDup_cons in Hn as [Hk Hn].
    rewrite filter_cons. case_decide; [|by apply IH]. cbn [fmap list_fmap].
    apply NoDup_cons. split; [|by apply IH]. contradict Hk.
    apply list_elem_of_fmap in Hk as (x&->&[_ Hx]%list_elem_of_filter). by apply list_elem_of_fmap_2.
  - intros kv [_ Hx]%list_elem_of_filter. by apply Hv.
Qed.
End theorems.

(** A digest binds its context and its content.  Two accepted coverings with the same context
    and canonical form have the same digest; and when two digests agree, either context and
    canonical form agree or the two hashed texts are distinct and collide under SHA-256. *)
Lemma digest_binds `{Normalization} c c' d d' h h' :
  well_formed (PyDict d) = true → well_formed (PyDict d') = true →
  digest_covered c d = Ok h → digest_covered c' d' = Ok h' →
  (c = c' ∧ canonical_form (PyDict d) = canonical_form (PyDict d') → h = h') ∧
  (h = h' → covers_same c c' d d').
Proof.
  intros Hwf Hwf' Hh Hh'. split; [|intros ->; by eapply digest_covered_same].
  apply digest_covered_Ok in Hh as (b&Hb&->), Hh' as (b'&Hb'&->).
  intros [-> Hc]. by apply (canonical_bytes_iff _ _ _ _ Hwf Hwf' Hb Hb') in Hc as ->.
Qed.

Definition sample_proposal : members :=
  document [(VERSION_FIELD, PyInt 1); ("proposalId", PyStr "p-1")].

Lemma digest_binds_witness :
  ∃ h h' : string, h = h' →
    (PROPOSAL = EVIDENCE ∧ canonical_form (H := ascii_normalization) (PyDict sample_proposal)
       = canonical_form (H := ascii_normalization) (PyDict sample_proposal)) ∨
    ∃ b b', canonical_bytes (H := ascii_normalization) (PyDict sample_proposal) = Ok b ∧
            canonical_bytes (H := ascii_normalization) (PyDict sample_proposal) = Ok b' ∧
            material PROPOSAL b ≠ material EVIDENCE b' ∧
            sha256_hex (material PROPOSAL b) = sha256_hex (material EVIDENCE b').
Proof.
  eexists _, _. refine (proj2 (digest_binds (H := ascii_normalization) PROPOSAL EVIDENCE
    sample_proposal sample_proposal _ _ _ _ _ _)); vm_compute; reflexivity.
Defined.

(** ** Sealing *)

Lemma big_endian_bytes n x : Forall (λ b, 0 ≤ b < 256) (big_endian n x).
Proof. induction n; cbn; constructor; [apply Z.mod_pos_bound; lia | done]. Qed.

Lemma hex_char_ascii n : 0 ≤ n < 16 → is_ascii (hex_char n) = true.
Proof.
  intros Hn. assert (Hc : n ∈ [0; 1; 2; 3; 4; 5; 6; 7; 8; 9; 10; 11; 12; 13; 14; 15])
    by (rewrite !elem_of_cons; lia).
  clear Hn. revert n Hc. apply Forall_forall. by repeat constructor.
Qed.

Lemma hex_word_ascii w : str_all is_ascii (hex_word w) = true.
Proof.
  unfold hex_word. induction (big_endian_bytes 4 w) as [|b bs Hb _ IH]; [done|].
  cbn [foldr str_all]. rewrite IH, !hex_char_ascii; [done | apply Z.mod_pos_bound; lia|].
  split; [apply Z.div_pos; lia | apply Z.div_lt_upper_bound; lia].
Qed.

Lemma sha256_hex_ascii m : str_all is_ascii (sha256_hex m) = true.
Proof.
  unfold sha256_hex. induction (sha256 (bytes m)) as [|w ws IH]; [done|].
  cbn [foldr]. by rewrite str_all_app, hex_word_ascii, IH.
Qed.

Lemma filter_dict_set (p : members) k v :
  filter (λ kv : pykey * pyval, kv.1 ≠ k) (dict_set p k v) = filter (λ kv, kv.1 ≠ k) p.
Proof.
  induction p as [|[k' v'] p IH]; cbn [dict_set].
  - rewrite filter_cons, decide_False; [done|]. intros Hn. by apply Hn.
  - destruct (decide (k = k')) as [<-|Hne]; rewrite !filter_cons; cbn [fst].
    + rewrite !decide_False; [done | naive_solver | naive_solver].
    + rewrite !decide_True by congruence. by f_equal.
Qed.

(** Setting the omitted member changes nothing that is covered. *)
Lemma covered_set p f v :
  f ≠ VERSION_FIELD → covered_members (PyDict (dict_set p (KStr f) v)) f = covered_members (PyDict p) f.
Proof.
  intros Hf. cbn [covered_members]. rewrite filter_dict_set. unfold get, member.
  rewrite dict_set_get, decide_False by congruence. done.
Qed.

Section sealing.
Context `{Normalization}.

Lemma digest_covered_ascii c d h : digest_covered c d = Ok h → str_all is_ascii h = true.
Proof. intros (b&_&->)%digest_covered_Ok. apply sha256_hex_ascii. Qed.

Lemma matches_self h : str_all is_ascii h = true → matches h h = Ok true.
Proof. intros Hh. unfold matches. by rewrite Hh, bool_decide_true. Qed.

Lemma matches_true a b : matches a b = Ok true → a = b.
Proof. unfold matches. case_match; [|done]. intros [= Hd]. by bools. Qed.
End sealing.

(** A proposal's own digest is left out of what it digests, and nothing else is: a payload
    that digests can be sealed with its digest and then verifies, whatever the member held
    before; a verified payload carries exactly its digest; a payload without the integer
    version 1 is refused; and a member named [digest] is covered by the typed digests. *)
Lemma proposal_seal `{Normalization} p :
  (∀ h v, proposal_digest p = Ok h →
     proposal_digest (dict_set p (KStr PROPOSAL_DIGEST_FIELD) v) = Ok h ∧
     proposal_digest_matches (dict_set p (KStr PROPOSAL_DIGEST_FIELD) (PyStr h)) = Ok true) ∧
  (proposal_digest_matches p = Ok true →
     ∃ h, proposal_digest p = Ok h ∧ get p PROPOSAL_DIGEST_FIELD = PyStr h) ∧
  (get p VERSION_FIELD ≠ PyInt 1 →
     proposal_digest p = Err (Refused {| refusal := VERSION; value := get p VERSION_FIELD |})) ∧
  (∀ v d, covered_members (PyDict p) PROPOSAL_DIGEST_FIELD = Ok d → get p DIGEST_FIELD = v →
     get d DIGEST_FIELD = v).
Proof.
  assert (Hset : ∀ v, proposal_digest (dict_set p (KStr PROPOSAL_DIGEST_FIELD) v) = proposal_digest p).
  { intros v. unfold proposal_digest. by rewrite covered_set. }
  split; [|split; [|split]].
  - intros h v Hp. split; [by rewrite Hset|]. unfold proposal_digest_matches. rewrite Hset, Hp.
    cbn [mbind result_bind]. unfold get, member. rewrite dict_set_get, decide_True by done.
    cbn [default]. apply matches_self. unfold proposal_digest in Hp.
    apply bind_Ok in Hp as (d&_&Hd). by eapply digest_covered_ascii.
  - unfold proposal_digest_matches. intros (h&Hh&Hm)%bind_Ok. exists h. split; [done|].
    destruct (get p PROPOSAL_DIGEST_FIELD); try done. by apply matches_true in Hm as ->.
  - intros Hv. unfold proposal_digest. cbn [covered_members]. by rewrite bool_decide_false.
  - intros v d (p'&[= <-]&_&->)%covered_members_Ok <-. unfold get, member. f_equal. clear Hset.
    induction p as [|[k x] p' IH]; [done|]. rewrite filter_cons. cbn [fst]. case_decide as Hk; cbn [dict_get].
    + case_decide; [done | apply IH].
    + rewrite decide_False; [apply IH|]. intros <-. discriminate Hk.
Qed.

Lemma proposal_seal_witness :
  ∃ h, proposal_digest_matches (H := ascii_normalization)
         (dict_set sample_proposal (KStr PROPOSAL_DIGEST_FIELD) (PyStr h)) = Ok true.
Proof.
  eexists. eapply (proj2 (proj1 (proposal_seal (H := ascii_normalization) sample_proposal) _ PyNone _)).
  Unshelve. 2: vm_compute; reflexivity.
Defined.
