(* ===== verification/Rpc.v ===== *)
(** * Command-gateway request and reply bodies

    [packages/contracts/src/aerial_rescue_contracts/rpc.py]: two closed bodies carrying their
    own version.  A response's outcome must agree with its optional members: an answer names
    an authority and no refusal, a refusal names the refusal and no authority. *)

From S2P Require Import Prelude PyStr Regex PyVal Canonical Topics.
Local Open Scope string_scope.
Local Open Scope Z_scope.

Definition RPC_VERSION : Z := 1.
Definition VERSION_MEMBER : string := "rpcVersion".
Definition MAX_IDENTIFIER_LENGTH : nat := 64.

Definition REQUEST_MEMBERS : list string := [VERSION_MEMBER; "missionId"; "operation"; "commandType"].
Definition RESPONSE_REQUIRED_MEMBERS : list string :=
  (REQUEST_MEMBERS ++ ["requestId"; "outcome"; "actuated"])%list.
Definition RESPONSE_OPTIONAL_MEMBERS : list string := ["authority"; "refusal"].
Definition RESPONSE_ALLOWED : list string := (RESPONSE_REQUIRED_MEMBERS ++ RESPONSE_OPTIONAL_MEMBERS)%list.

Definition IDENTIFIER_RULE : re * nat := (IDENTIFIER_PATTERN, MAX_IDENTIFIER_LENGTH).
Definition KIND_RULE : re * nat := (KIND_PATTERN, MAX_KIND_LENGTH).

Definition REQUEST_TEXT_RULES : list (string * (re * nat)) :=
  [("missionId", IDENTIFIER_RULE); ("operation", KIND_RULE); ("commandType", KIND_RULE)].
Definition RESPONSE_TEXT_RULES : list (string * (re * nat)) :=
  [("missionId", IDENTIFIER_RULE); ("requestId", IDENTIFIER_RULE); ("operation", KIND_RULE);
   ("commandType", KIND_RULE)].
Definition OPTIONAL_RULES : list (string * (re * nat)) :=
  [("authority", KIND_RULE); ("refusal", KIND_RULE)].

Definition ACTUATED_MEMBER : string := "actuated".
Definition OUTCOME_MEMBER : string := "outcome".

Inductive Outcome : Set := ANSWERED | REFUSED.
#[export] Instance Outcome_eq_dec : EqDecision Outcome.
Proof. solve_decision. Defined.

Definition outcome_value (o : Outcome) : string :=
  match o with ANSWERED => "answered" | REFUSED => "refused" end.

Definition OUTCOMES : list (string * Outcome) :=
  [(outcome_value ANSWERED, ANSWERED); (outcome_value REFUSED, REFUSED)].

Inductive RpcRefusal : Set :=
| NOT_AN_OBJECT | UNKNOWN_MEMBER | MISSING_MEMBER | VERSION | MEMBER_FORM | OUTCOME_BINDING.

Record RpcError : Set := { error_refusal : RpcRefusal; error_member : string; error_value : pyval }.

Inductive rpc_failure : Set :=
| Refused (e : RpcError)
| Undecodable (e : decode_error)
| KeyError (name : string).

Definition refuse {A} (r : RpcRefusal) (name : string) (v : pyval) : result rpc_failure A :=
  Err (Refused {| error_refusal := r; error_member := name; error_value := v |}).

#[export] Instance rpc_faults : MemberFaults rpc_failure := {|
  not_an_object label v := Refused {| error_refusal := NOT_AN_OBJECT; error_member := label; error_value := v |};
  unknown_member n v := Refused {| error_refusal := UNKNOWN_MEMBER; error_member := n; error_value := v |};
  missing_member n := Refused {| error_refusal := MISSING_MEMBER; error_member := n; error_value := PyNone |};
  lookup_error := KeyError
|}.

Record GatewayRequest : Set := {
  request_mission_id : string; request_operation : string; request_command_type : string
}.

Record GatewayResponse : Set := {
  mission_id : string; request_id : string; operation : string; command_type : string;
  outcome : Outcome; actuated : bool; authority : option string; refusal : option string
}.

(** [_BINDING_ORDER]: the member each outcome requires, then the one it forbids. *)
Definition binding_order (o : Outcome) : string * string :=
  match o with ANSWERED => ("authority", "refusal") | REFUSED => ("refusal", "authority") end.

(** [_version]: [type(value) is not int] refuses a boolean. *)
Definition check_version (d : members) : result rpc_failure unit :=
  match get d VERSION_MEMBER with
  | PyInt n => raise_if (negb (n =? RPC_VERSION))
                 (Refused {| error_refusal := VERSION; error_member := VERSION_MEMBER; error_value := PyInt n |})
  | v => refuse MEMBER_FORM VERSION_MEMBER v
  end.

(** [_text] *)
Definition rpc_text (d : members) (name : string) (rule : re * nat) : result rpc_failure string :=
  match get d name with
  | PyStr s =>
      if (rule.2 <? char_len s)%nat || negb (fullmatch rule.1 s)
      then refuse MEMBER_FORM name (PyStr s) else Ok s
  | v => refuse MEMBER_FORM name v
  end.

Definition named_text (d : members) (r : string * (re * nat)) : result rpc_failure (string * string) :=
  s ← rpc_text d r.1 r.2; Ok (r.1, s).

(** [_texts] *)
Definition rpc_texts (d : members) (rules : list (string * (re * nat)))
    : result rpc_failure (list (string * string)) :=
  check_version d ;; map_ok (named_text d) rules.

(** [_outcome] *)
Definition check_outcome (d : members) : result rpc_failure Outcome :=
  or_raise (by_value OUTCOMES (get d OUTCOME_MEMBER))
    (Refused {| error_refusal := MEMBER_FORM; error_member := OUTCOME_MEMBER;
                error_value := get d OUTCOME_MEMBER |}).

(** [_actuated] *)
Definition check_actuated (d : members) : result rpc_failure bool :=
  match get d ACTUATED_MEMBER with
  | PyBool b => Ok b
  | v => refuse MEMBER_FORM ACTUATED_MEMBER v
  end.

(** [_optionals] *)
Definition rpc_optionals (d : members) : result rpc_failure (list (string * string)) :=
  map_ok (named_text d) (filter (λ r, has d r.1 = true) OPTIONAL_RULES).

(** [_binding] *)
Definition check_binding (o : Outcome) (optionals : list (string * string)) : result rpc_failure unit :=
  let '(required, forbidden) := binding_order o in
  if negb (dict_has optionals required) then refuse OUTCOME_BINDING required PyNone
  else match dict_get optionals forbidden with
       | Some s => refuse OUTCOME_BINDING forbidden (PyStr s)
       | None => Ok tt
       end.

Definition text_at (texts : list (string * string)) (name : string) : string :=
  default "" (dict_get texts name).

Definition parse_gateway_request (v : pyval) : result rpc_failure GatewayRequest :=
  d ← closed_members "request" REQUEST_MEMBERS REQUEST_MEMBERS v;
  texts ← rpc_texts d REQUEST_TEXT_RULES;
  Ok {| request_mission_id := text_at texts "missionId"; request_operation := text_at texts "operation";
        request_command_type := text_at texts "commandType" |}.

Definition parse_gateway_response (v : pyval) : result rpc_failure GatewayResponse :=
  d ← closed_members "response" RESPONSE_ALLOWED RESPONSE_REQUIRED_MEMBERS v;
  texts ← rpc_texts d RESPONSE_TEXT_RULES;
  o ← check_outcome d;
  a ← check_actuated d;
  optionals ← rpc_optionals d;
  check_binding o optionals ;;
  Ok {| mission_id := text_at texts "missionId"; request_id := text_at texts "requestId";
        operation := text_at texts "operation"; command_type := text_at texts "commandType";
        outcome := o; actuated := a; authority := dict_get optionals "authority";
        refusal := dict_get optionals "refusal" |}.

Definition gateway_request_document (r : GatewayRequest) : members :=
  document [(VERSION_MEMBER, PyInt RPC_VERSION); ("missionId", PyStr (request_mission_id r));
            ("operation", PyStr (request_operation r)); ("commandType", PyStr (request_command_type r))].

Definition optional_entry (name : string) (o : option string) : list (string * pyval) :=
  match o with Some s => [(name, PyStr s)] | None => [] end.

Definition gateway_response_document (r : GatewayResponse) : members :=
  document ([(VERSION_MEMBER, PyInt RPC_VERSION); ("missionId", PyStr (mission_id r));
             ("requestId", PyStr (request_id r)); ("operation", PyStr (operation r));
             ("commandType", PyStr (command_type r)); (OUTCOME_MEMBER, PyStr (outcome_value (outcome r)));
             (ACTUATED_MEMBER, PyBool (actuated r))]
            ++ optional_entry "authority" (authority r) ++ optional_entry "refusal" (refusal r))%list.

Definition decode_gateway_request `{Normalization} (limit : nat) (text : string)
    : result rpc_failure GatewayRequest :=
  v ← map_err Undecodable (decode limit text); parse_gateway_request v.

Definition decode_gateway_response `{Normalization} (limit : nat) (text : string)
    : result rpc_failure GatewayResponse :=
  v ← map_err Undecodable (decode limit text); parse_gateway_response v.

(** ** Only the members matter *)

Lemma named_text_equiv d d' : dict_equiv d d' → ∀ r, named_text d r = named_text d' r.
Proof. intros Hd r. unfold named_text, rpc_text. by rewrite (get_proper _ _ Hd _ _ eq_refl). Qed.

#[export] Instance rpc_texts_proper : Proper (dict_equiv ==> eq ==> eq) rpc_texts.
Proof.
  intros d d' Hd rules ? <-. unfold rpc_texts, check_version.
  by rewrite (get_proper _ _ Hd _ _ eq_refl), (map_ok_ext _ _ _ (named_text_equiv _ _ Hd)).
Qed.

#[export] Instance rpc_optionals_proper : Proper (dict_equiv ==> eq) rpc_optionals.
Proof.
  intros d d' Hd. unfold rpc_optionals.
  rewrite (list_filter_iff _ (λ r, has d' r.1 = true)) by (intros r; by rewrite (has_proper _ _ Hd _ _ eq_refl)).
  apply (map_ok_ext _ _ _ (named_text_equiv _ _ Hd)).
Qed.

Lemma parse_response_equiv d d' r :
  dict_equiv d d' → parse_gateway_response (PyDict d) = Ok r → parse_gateway_response (PyDict d') = Ok r.
Proof.
  intros Hd. unfold parse_gateway_response. intros (x&[[= <-] Hc]%closed_members_Ok&Hr)%bind_Ok.
  rewrite (proj2 (closed_members_Ok _ _ _ _ d')) by (split; [done | by eapply closed_equiv_dict]).
  cbn [mbind result_bind]. revert Hr. unfold check_outcome, check_actuated.
  by rewrite (rpc_texts_proper _ _ Hd _ _ eq_refl), (rpc_optionals_proper _ _ Hd), !(get_proper _ _ Hd _ _ eq_refl).
Qed.

Lemma parse_request_equiv d d' r :
  dict_equiv d d' → parse_gateway_request (PyDict d) = Ok r → parse_gateway_request (PyDict d') = Ok r.
Proof.
  intros Hd. unfold parse_gateway_request. intros (x&[[= <-] Hc]%closed_members_Ok&Hr)%bind_Ok.
  rewrite (proj2 (closed_members_Ok _ _ _ _ d')) by (split; [done | by eapply closed_equiv_dict]).
  cbn [mbind result_bind]. by rewrite <- (rpc_texts_proper _ _ Hd _ _ eq_refl).
Qed.

(** ** What acceptance establishes *)

Lemma named_text_Ok d r p :
  named_text d r = Ok p ↔
  ∃ s, get d r.1 = PyStr s ∧ (char_len s ≤ r.2.2)%nat ∧ fullmatch r.2.1 s = true ∧ p = (r.1, s).
Proof.
  unfold named_text, rpc_text. rewrite bind_Ok. destruct (get d r.1) as [| | |s| | |];
    try (split; [by intros (?&?&?) | by intros (?&?&_)]).
  destruct (Nat.ltb_spec r.2.2 (char_len s)); cbn.
  - split; [by intros (?&?&?) | intros (?&[= <-]&?&_); lia].
  - destruct (fullmatch r.2.1 s) eqn:E; cbn; split.
    + intros (?&[= <-]&[= <-]). eauto.
    + intros (?&[= <-]&_&_&->). eauto.
    + by intros (?&?&?).
    + intros (?&[= <-]&_&?&_). congruence.
Qed.

Lemma rpc_texts_Ok d rules texts :
  rpc_texts d rules = Ok texts →
  get d VERSION_MEMBER = PyInt RPC_VERSION ∧
  Forall2 (λ r p, ∃ s, get d r.1 = PyStr s ∧ fullmatch r.2.1 s = true ∧ p = (r.1, s)) rules texts.
Proof.
  unfold rpc_texts. intros ([]&Hv&Hm)%bind_Ok. split.
  - unfold check_version in Hv. destruct (get d VERSION_MEMBER); try done. run_ok. bools. by subst.
  - apply map_ok_Forall2 in Hm. eapply Forall2_impl; [exact Hm|].
    intros r p (s&?&_&?&?)%named_text_Ok. eauto.
Qed.

Lemma outcome_value_Ok d o : check_outcome d = Ok o → get d OUTCOME_MEMBER = PyStr (outcome_value o).
Proof.
  unfold check_outcome. intros (s&Hs&Ho)%or_raise_Ok%by_value_Some. rewrite Hs. f_equal.
  apply dict_get_elem in Ho. unfold OUTCOMES in Ho. rewrite !elem_of_cons, elem_of_nil in Ho. naive_solver.
Qed.

Lemma check_actuated_Ok d b : check_actuated d = Ok b → get d ACTUATED_MEMBER = PyBool b.
Proof. unfold check_actuated. destruct (get d ACTUATED_MEMBER); try done. by intros [= ->]. Qed.

Definition optional_pair (name : string) (o : option string) : list (string * string) :=
  match o with Some s => [(name, s)] | None => [] end.

(** One optional member, absent or there as text. *)
Lemma rpc_optional_rule d r rs opt :
  Forall2 (λ a b, named_text d a = Ok b) (filter (λ r, has d r.1 = true) (r :: rs)) opt →
  ∃ o opt', opt = (optional_pair r.1 o ++ opt')%list ∧ dict_get d (KStr r.1) = PyStr <$> o ∧
            Forall2 (λ a b, named_text d a = Ok b) (filter (λ r, has d r.1 = true) rs) opt'.
Proof.
  rewrite filter_cons. case_decide as Hhas; intros H.
  - apply Forall2_cons_inv_l in H as (p&opt'&(s&Hg&_&_&->)%named_text_Ok&Hopt&->).
    exists (Some s), opt'. split; [done|]. split; [by apply has_get | done].
  - exists None, opt. split; [done|]. split; [|done]. apply has_false. by destruct (has d r.1).
Qed.

Lemma rpc_optionals_Ok d optionals :
  rpc_optionals d = Ok optionals →
  ∃ a r, optionals = (optional_pair "authority" a ++ optional_pair "refusal" r)%list ∧
    dict_get d (KStr "authority") = PyStr <$> a ∧ dict_get d (KStr "refusal") = PyStr <$> r.
Proof.
  unfold rpc_optionals, OPTIONAL_RULES.
  intros (a&o1&->&Ha&(r&o2&->&Hr&->%Forall2_nil_inv_l)%rpc_optional_rule)%map_ok_Forall2%rpc_optional_rule.
  exists a, r. by rewrite app_nil_r.
Qed.

(** The outcome and the optional members it goes with. *)
Lemma check_binding_Ok o a r :
  check_binding o (optional_pair "authority" a ++ optional_pair "refusal" r) = Ok tt ↔
  match o with
  | ANSWERED => is_Some a ∧ r = None
  | REFUSED => is_Some r ∧ a = None
  end.
Proof.
  unfold check_binding, refuse. destruct o, a, r; cbn; rewrite ?is_Some_alt; split; try done; try (by intros []); try (by intros [[] ?]).
Qed.

Lemma response_allowed r k :
  k ∈ dict_keys (gateway_response_document r) → key_in RESPONSE_ALLOWED k = true.
Proof. revert k. apply Forall_forall. destruct r as [? ? ? ? ? ? [a|] [x|]]; repeat constructor. Qed.

Lemma request_allowed r k :
  k ∈ dict_keys (gateway_request_document r) → key_in REQUEST_MEMBERS k = true.
Proof. revert k. apply Forall_forall. repeat constructor. Qed.

(** Acceptance of a response, member by member. *)
Lemma parse_response_Ok d r :
  parse_gateway_response (PyDict d) = Ok r →
  closed RESPONSE_ALLOWED RESPONSE_REQUIRED_MEMBERS d ∧
  get d VERSION_MEMBER = PyInt RPC_VERSION ∧ get d "missionId" = PyStr (mission_id r) ∧
  get d "requestId" = PyStr (request_id r) ∧ get d "operation" = PyStr (operation r) ∧
  get d "commandType" = PyStr (command_type r) ∧ get d OUTCOME_MEMBER = PyStr (outcome_value (outcome r)) ∧
  get d ACTUATED_MEMBER = PyBool (actuated r) ∧
  dict_get d (KStr "authority") = PyStr <$> authority r ∧ dict_get d (KStr "refusal") = PyStr <$> refusal r ∧
  match outcome r with
  | ANSWERED => is_Some (authority r) ∧ refusal r = None
  | REFUSED => is_Some (refusal r) ∧ authority r = None
  end.
Proof.
  unfold parse_gateway_response.
  intros (x&[[= <-] Hc]%closed_members_Ok&(texts&Ht&(o&Ho&(b&Hb&(opts&Hopts&([]&Hbind&[= <-])%bind_Ok)%bind_Ok)%bind_Ok)%bind_Ok)%bind_Ok)%bind_Ok.
  split; [done|]. apply rpc_texts_Ok in Ht as [Hv Ht]. split; [done|].
  apply outcome_value_Ok in Ho. apply check_actuated_Ok in Hb.
  apply rpc_optionals_Ok in Hopts as (a&x&->&Ha&Hx). apply check_binding_Ok in Hbind.
  unfold RESPONSE_TEXT_RULES in Ht.
  repeat match goal with H : Forall2 _ (_ :: _) _ |- _ =>
    apply Forall2_cons_inv_l in H as (?&?&(?&?&?&->)&?&->) end.
  match goal with H : Forall2 _ [] _ |- _ => apply Forall2_nil_inv_l in H as -> end.
  cbn [mission_id request_id operation command_type outcome actuated authority refusal].
  do 6 (split; [done|]). rewrite Ha, Hx. destruct a, x; done.
Qed.

Lemma response_document_equiv d r :
  parse_gateway_response (PyDict d) = Ok r → dict_equiv (gateway_response_document r) d.
Proof.
  intros ([Hk Hreq]&Hv&Hm&Hr&Ho&Hc&Hout&Hact&Ha&Hx&_)%parse_response_Ok.
  apply (closed_agree RESPONSE_ALLOWED); [apply response_allowed | exact Hk |].
  assert (Hget : ∀ m v, m ∈ RESPONSE_REQUIRED_MEMBERS → get d m = v → dict_get d (KStr m) = Some v)
    by (intros m v Hm' Hg; apply has_get; [by apply Hreq | done]).
  intros n Hin. unfold RESPONSE_ALLOWED, RESPONSE_REQUIRED_MEMBERS, REQUEST_MEMBERS, RESPONSE_OPTIONAL_MEMBERS in Hin.
  cbn in Hin. destruct r as [? ? ? ? ? ? ra rx]. unfold gateway_response_document.
  rewrite (member_document _ n : dict_get (document _) (KStr n) = _).
  repeat (apply elem_of_cons in Hin as [->|Hin]); try (by apply elem_of_nil in Hin);
    try (symmetry; apply Hget; [by apply (bool_decide_unpack _) | done]).
  - rewrite Ha. by destruct ra, rx.
  - rewrite Hx. by destruct ra, rx.
Qed.

Lemma request_document_equiv d r :
  parse_gateway_request (PyDict d) = Ok r → dict_equiv (gateway_request_document r) d.
Proof.
  unfold parse_gateway_request. intros (x&[[= <-] [Hk Hreq]]%closed_members_Ok&(texts&[Hv Ht]%rpc_texts_Ok&[= <-])%bind_Ok)%bind_Ok.
  apply (closed_agree REQUEST_MEMBERS); [apply request_allowed | exact Hk |].
  unfold REQUEST_TEXT_RULES in Ht.
  repeat match goal with H : Forall2 _ (_ :: _) _ |- _ =>
    apply Forall2_cons_inv_l in H as (?&?&(?&?&?&->)&?&->) end.
  match goal with H : Forall2 _ [] _ |- _ => apply Forall2_nil_inv_l in H as -> end.
  assert (Hget : ∀ m v, m ∈ REQUEST_MEMBERS → get d m = v → dict_get d (KStr m) = Some v)
    by (intros m v Hm' Hg; apply has_get; [by apply Hreq | done]).
  intros n Hin. unfold gateway_request_document.
  rewrite (member_document _ n : dict_get (document _) (KStr n) = _). unfold REQUEST_MEMBERS in Hin.
  repeat (apply elem_of_cons in Hin as [->|Hin]); try (by apply elem_of_nil in Hin);
    symmetry; (apply Hget; [by apply (bool_decide_unpack _) | done]).
Qed.

(** Gateway bodies keep everything and mean one thing.  A request or response that parses is
    written back with the same members and parses to the same value, and an accepted response
    names an authority and no refusal when answered, a refusal and no authority when refused. *)
Lemma gateway_bodies_roundtrip d :
  (∀ q, parse_gateway_request (PyDict d) = Ok q →
     dict_equiv (gateway_request_document q) d ∧
     parse_gateway_request (PyDict (gateway_request_document q)) = Ok q) ∧
  (∀ r, parse_gateway_response (PyDict d) = Ok r →
     dict_equiv (gateway_response_document r) d ∧
     parse_gateway_response (PyDict (gateway_response_document r)) = Ok r ∧
     match outcome r with
     | ANSWERED => is_Some (authority r) ∧ refusal r = None
     | REFUSED => is_Some (refusal r) ∧ authority r = None
     end).
Proof.
  split.
  - intros q Hq. pose proof (request_document_equiv _ _ Hq) as Hd. split; [done|].
    eapply parse_request_equiv; [|exact Hq]. by symmetry.
  - intros r Hr. pose proof (response_document_equiv _ _ Hr) as Hd. split; [done|]. split.
    + eapply parse_response_equiv; [|exact Hr]. by symmetry.
    + apply parse_response_Ok in Hr. tauto.
Qed.

Definition sample_response : GatewayResponse :=
  {| mission_id := "mission-1"; request_id := "request-1"; operation := "authorize";
     command_type := "escalate-rescue"; outcome := REFUSED; actuated := false;
     authority := None; refusal := Some "expired" |}.

Lemma gateway_bodies_roundtrip_witness :
  is_Some (refusal sample_response) ∧ authority sample_response = None.
Proof.
  apply (proj2 (gateway_bodies_roundtrip (gateway_response_document sample_response)) sample_response).
  vm_compute. reflexivity.
Defined.
