(* ===== verification/Integration.v ===== *)
(** * The Agent Mesh integration response

    [packages/contracts/src/aerial_rescue_contracts/integration.py]: one closed, versioned body
    whose outcome selects its branch, a candidate with its result or an abstention with its
    reason.  It asserts nothing beyond the candidate, and binds to the topic it arrived on. *)

From S2P Require Import Prelude PyStr Regex PyVal Canonical Topics.
Local Open Scope string_scope.
Local Open Scope Z_scope.

Definition AGENT_RESPONSE_VERSION : Z := 1.
Definition VERSION_MEMBER : string := "agentResponseVersion".
Definition OUTCOME_MEMBER : string := "outcome".
Definition RESULT_MEMBER : string := "result".
Definition REASON_MEMBER : string := "reason".

Definition COMMON_MEMBERS : list string :=
  [VERSION_MEMBER; "missionId"; "agentName"; "invocationId"; "correlationId"; OUTCOME_MEMBER].
Definition OPTIONAL_MEMBERS : list string := [RESULT_MEMBER; REASON_MEMBER].
Definition ALLOWED_MEMBERS : list string := (COMMON_MEMBERS ++ OPTIONAL_MEMBERS)%list.

Definition RESULT_MEMBERS : list string :=
  ["proposalType"; "sourceEventId"; "sourceEventDigest"; "droneId"; "latitudeMicrodegrees";
   "longitudeMicrodegrees"; "commandType"].

(** [^[0-9a-f]{64}$] *)
Definition DIGEST_PATTERN : re := rep 64 (RChr (λ c, is_digit c || in_range "a" "f" c)).
Definition MIN_LATITUDE_MICRODEGREES : Z := -90000000.
Definition MAX_LATITUDE_MICRODEGREES : Z := 90000000.
Definition MIN_LONGITUDE_MICRODEGREES : Z := -180000000.
Definition MAX_LONGITUDE_MICRODEGREES : Z := 180000000.

Inductive AgentOutcome : Set := CANDIDATE | ABSTAINED.
Inductive AgentResponseReason : Set :=
| TIMEOUT | TRANSPORT_ERROR | MODEL_ERROR | INVALID_OUTPUT | IDENTITY_MISMATCH.
Inductive IntegrationRefusal : Set :=
| NOT_AN_OBJECT | UNKNOWN_MEMBER | MISSING_MEMBER | VERSION | MEMBER_FORM | OUTCOME_BINDING | TOPIC_BINDING.

#[export] Instance IntegrationRefusal_eq_dec : EqDecision IntegrationRefusal.
Proof. solve_decision. Defined.

Definition outcome_value (o : AgentOutcome) : string :=
  match o with CANDIDATE => "candidate" | ABSTAINED => "abstained" end.

Definition reason_value (r : AgentResponseReason) : string :=
  match r with
  | TIMEOUT => "timeout" | TRANSPORT_ERROR => "transport-error" | MODEL_ERROR => "model-error"
  | INVALID_OUTPUT => "invalid-output" | IDENTITY_MISMATCH => "identity-mismatch"
  end.

Definition OUTCOMES : list (string * AgentOutcome) :=
  (λ o, (outcome_value o, o)) <$> [CANDIDATE; ABSTAINED].
Definition REASONS : list (string * AgentResponseReason) :=
  (λ r, (reason_value r, r)) <$> [TIMEOUT; TRANSPORT_ERROR; MODEL_ERROR; INVALID_OUTPUT; IDENTITY_MISMATCH].

(** The refused value: a member, or the family of a topic. *)
Inductive integration_value : Set := Member (v : pyval) | OfFamily (f : Family).

Record IntegrationError : Set := {
  refusal : IntegrationRefusal; error_member : string; error_value : integration_value
}.

Inductive integration_failure : Set :=
| Refused (e : IntegrationError)
| Undecodable (e : decode_error).

Definition refuse {A} (r : IntegrationRefusal) (name : string) (v : pyval) : result integration_failure A :=
  Err (Refused {| refusal := r; error_member := name; error_value := Member v |}).

Definition fault (r : IntegrationRefusal) (name : string) (v : pyval) : integration_failure :=
  Refused {| refusal := r; error_member := name; error_value := Member v |}.

(** [_members] keeps the key it found, so its value is always there: no lookup fails. *)
#[export] Instance integration_faults : MemberFaults integration_failure := {|
  not_an_object := fault NOT_AN_OBJECT;
  unknown_member := fault UNKNOWN_MEMBER;
  missing_member n := fault MISSING_MEMBER n PyNone;
  lookup_error n := fault UNKNOWN_MEMBER n PyNone
|}.

Record AgentCandidate : Set := {
  proposal_type : string; source_event_id : string; source_event_digest : string; drone_id : string;
  latitude_microdegrees : Z; longitude_microdegrees : Z; command_type : string
}.

Record AgentResponse : Set := {
  mission_id : string; agent_name : string; invocation_id : string; correlation_id : string;
  outcome : AgentOutcome; candidate : option AgentCandidate; reason : option AgentResponseReason
}.

(** ** Member rules *)

Definition check_version (d : members) : result integration_failure unit :=
  match get d VERSION_MEMBER with
  | PyInt n => raise_if (negb (n =? AGENT_RESPONSE_VERSION)) (fault VERSION VERSION_MEMBER (PyInt n))
  | v => refuse MEMBER_FORM VERSION_MEMBER v
  end.

Definition wire_text (v : pyval) (member : string) (pattern : re) : result integration_failure string :=
  match v with
  | PyStr s => if fullmatch pattern s then Ok s else refuse MEMBER_FORM member v
  | _ => refuse MEMBER_FORM member v
  end.

Definition wire_constant (v : pyval) (member expected : string) : result integration_failure string :=
  match v with
  | PyStr s => if bool_decide (s = expected) then Ok s else refuse MEMBER_FORM member v
  | _ => refuse MEMBER_FORM member v
  end.

(** [type(value) is not int] refuses a boolean. *)
Definition wire_integer (v : pyval) (member : string) (lower upper : Z) : result integration_failure Z :=
  match v with
  | PyInt n => if (n <? lower) || (upper <? n) then refuse MEMBER_FORM member v else Ok n
  | _ => refuse MEMBER_FORM member v
  end.

Definition check_outcome (v : pyval) : result integration_failure AgentOutcome :=
  or_raise (by_value OUTCOMES v) (fault MEMBER_FORM OUTCOME_MEMBER v).

Definition check_reason (v : pyval) : result integration_failure AgentResponseReason :=
  or_raise (by_value REASONS v) (fault MEMBER_FORM REASON_MEMBER v).

(** The renaming of a structural refusal inside the result. *)
Definition inside_result (e : integration_failure) : integration_failure :=
  match e with
  | Refused err =>
      if bool_decide (refusal err ∈ [UNKNOWN_MEMBER; MISSING_MEMBER])
      then Refused {| refusal := refusal err; error_member := "result." ++ error_member err;
                      error_value := error_value err |}
      else e
  | _ => e
  end.

Definition check_candidate (v : pyval) : result integration_failure AgentCandidate :=
  d ← map_err inside_result (closed_members_by_key RESULT_MEMBER RESULT_MEMBERS RESULT_MEMBERS v);
  pt ← wire_constant (get d "proposalType") "result.proposalType" "candidate-location";
  se ← wire_text (get d "sourceEventId") "result.sourceEventId" IDENTIFIER_PATTERN;
  sd ← wire_text (get d "sourceEventDigest") "result.sourceEventDigest" DIGEST_PATTERN;
  dr ← wire_text (get d "droneId") "result.droneId" IDENTIFIER_PATTERN;
  la ← wire_integer (get d "latitudeMicrodegrees") "result.latitudeMicrodegrees"
         MIN_LATITUDE_MICRODEGREES MAX_LATITUDE_MICRODEGREES;
  lo ← wire_integer (get d "longitudeMicrodegrees") "result.longitudeMicrodegrees"
         MIN_LONGITUDE_MICRODEGREES MAX_LONGITUDE_MICRODEGREES;
  ct ← wire_constant (get d "commandType") "result.commandType" "escalate-rescue";
  Ok {| proposal_type := pt; source_event_id := se; source_event_digest := sd; drone_id := dr;
        latitude_microdegrees := la; longitude_microdegrees := lo; command_type := ct |}.

(** A branch member, validated when present. *)
Definition when_present {A} (d : members) (name : string) (check : pyval → result integration_failure A)
    : result integration_failure (option A) :=
  if has d name then a ← check (get d name); Ok (Some a) else Ok None.

(** [_optionals] *)
Definition check_optionals (d : members)
    : result integration_failure (option AgentCandidate * option AgentResponseReason) :=
  c ← when_present d RESULT_MEMBER check_candidate;
  r ← when_present d REASON_MEMBER check_reason;
  Ok (c, r).

Definition bind_outcome (o : AgentOutcome) (c : option AgentCandidate) (r : option AgentResponseReason)
    (d : members) : result integration_failure unit :=
  match o, c, r with
  | CANDIDATE, None, _ => refuse OUTCOME_BINDING RESULT_MEMBER PyNone
  | CANDIDATE, Some _, Some _ => refuse OUTCOME_BINDING REASON_MEMBER (get d REASON_MEMBER)
  | CANDIDATE, Some _, None => Ok tt
  | ABSTAINED, _, None => refuse OUTCOME_BINDING REASON_MEMBER PyNone
  | ABSTAINED, Some _, Some _ => refuse OUTCOME_BINDING RESULT_MEMBER (get d RESULT_MEMBER)
  | ABSTAINED, None, Some _ => Ok tt
  end.

Definition parse_agent_response (v : pyval) : result integration_failure AgentResponse :=
  d ← closed_members_by_key "response" ALLOWED_MEMBERS COMMON_MEMBERS v;
  check_version d ;;
  m ← wire_text (get d "missionId") "missionId" IDENTIFIER_PATTERN;
  a ← wire_text (get d "agentName") "agentName" AGENT_NAME_PATTERN;
  i ← wire_text (get d "invocationId") "invocationId" IDENTIFIER_PATTERN;
  c ← wire_text (get d "correlationId") "correlationId" IDENTIFIER_PATTERN;
  o ← check_outcome (get d OUTCOME_MEMBER);
  branches ← check_optionals d;
  bind_outcome o branches.1 branches.2 d ;;
  Ok {| mission_id := m; agent_name := a; invocation_id := i; correlation_id := c; outcome := o;
        candidate := branches.1; reason := branches.2 |}.

(** ** Writing *)

Definition candidate_document (c : AgentCandidate) : members :=
  document [("proposalType", PyStr (proposal_type c)); ("sourceEventId", PyStr (source_event_id c));
            ("sourceEventDigest", PyStr (source_event_digest c)); ("droneId", PyStr (drone_id c));
            ("latitudeMicrodegrees", PyInt (latitude_microdegrees c));
            ("longitudeMicrodegrees", PyInt (longitude_microdegrees c));
            ("commandType", PyStr (command_type c))].

Definition result_entry (c : option AgentCandidate) : list (string * pyval) :=
  match c with Some c => [(RESULT_MEMBER, PyDict (candidate_document c))] | None => [] end.

Definition reason_entry (r : option AgentResponseReason) : list (string * pyval) :=
  match r with Some r => [(REASON_MEMBER, PyStr (reason_value r))] | None => [] end.

Definition agent_response_document (r : AgentResponse) : members :=
  document ([(VERSION_MEMBER, PyInt AGENT_RESPONSE_VERSION); ("missionId", PyStr (mission_id r));
             ("agentName", PyStr (agent_name r)); ("invocationId", PyStr (invocation_id r));
             ("correlationId", PyStr (correlation_id r)); (OUTCOME_MEMBER, PyStr (outcome_value (outcome r)))]
            ++ result_entry (candidate r) ++ reason_entry (reason r))%list.

Definition decode_agent_response `{Normalization} (limit : nat) (text : string)
    : result integration_failure AgentResponse :=
  v ← map_err Undecodable (decode limit text); parse_agent_response v.

Definition check_agent_response_topic (r : AgentResponse) (t : Topic) : result integration_failure unit :=
  raise_if (negb (bool_decide (family t = AGENT_RESPONSE)))
    (Refused {| refusal := TOPIC_BINDING; error_member := "family"; error_value := OfFamily (family t) |}) ;;
  raise_if (negb (bool_decide (Topics.mission_id t = mission_id r)))
    (fault TOPIC_BINDING "missionId" (PyStr (mission_id r))) ;;
  raise_if (negb (bool_decide (dict_get (parameters t) "agentName" = Some (agent_name r))))
    (fault TOPIC_BINDING "agentName" (PyStr (agent_name r))).

(** ** Valid responses *)

Definition valid_candidate (c : AgentCandidate) : Prop :=
  proposal_type c = "candidate-location" ∧ command_type c = "escalate-rescue" ∧
  fullmatch IDENTIFIER_PATTERN (source_event_id c) = true ∧
  fullmatch DIGEST_PATTERN (source_event_digest c) = true ∧
  fullmatch IDENTIFIER_PATTERN (drone_id c) = true ∧
  MIN_LATITUDE_MICRODEGREES ≤ latitude_microdegrees c ≤ MAX_LATITUDE_MICRODEGREES ∧
  MIN_LONGITUDE_MICRODEGREES ≤ longitude_microdegrees c ≤ MAX_LONGITUDE_MICRODEGREES.

(** A candidate asserts exactly its result; an abstention gives exactly a reason. *)
Definition valid_branches (r : AgentResponse) : Prop :=
  match outcome r, candidate r, reason r with
  | CANDIDATE, Some c, None => valid_candidate c
  | ABSTAINED, None, Some _ => True
  | _, _, _ => False
  end.

Definition valid_response (r : AgentResponse) : Prop :=
  fullmatch IDENTIFIER_PATTERN (mission_id r) = true ∧ fullmatch AGENT_NAME_PATTERN (agent_name r) = true ∧
  fullmatch IDENTIFIER_PATTERN (invocation_id r) = true ∧
  fullmatch IDENTIFIER_PATTERN (correlation_id r) = true ∧ valid_branches r.

Lemma wire_text_Ok v n p s : wire_text v n p = Ok s ↔ v = PyStr s ∧ fullmatch p s = true.
Proof.
  destruct v as [| | |t| | |]; cbn; try (split; [done | by intros [? _]]).
  destruct (fullmatch p t) eqn:E; (split; [intros [= <-] || done | intros [[= <-] ?]]); congruence || done.
Qed.

Lemma wire_constant_Ok v n x s : wire_constant v n x = Ok s ↔ v = PyStr s ∧ s = x.
Proof.
  destruct v as [| | |t| | |]; cbn; try (split; [done | by intros [? _]]).
  case_bool_decide; (split; [intros [= <-] || done | intros [[= <-] ?]]); congruence || done.
Qed.

Lemma wire_integer_Ok v n lo hi z : wire_integer v n lo hi = Ok z ↔ v = PyInt z ∧ lo ≤ z ≤ hi.
Proof.
  destruct v as [| |m| | | |]; cbn; try (split; [done | by intros [? _]]).
  destruct (m <? lo) eqn:?, (hi <? m) eqn:?; bools; cbn;
    (split; [intros [= <-] || done | intros [[= <-] ?]]); lia || done.
Qed.

Lemma check_candidate_Ok v c : check_candidate v = Ok c → valid_candidate c.
Proof.
  unfold check_candidate.
  intros (d&_&(pt&[_ Hpt]%wire_constant_Ok&(se&[_ Hse]%wire_text_Ok&(sd&[_ Hsd]%wire_text_Ok&
    (dr&[_ Hdr]%wire_text_Ok&(la&[_ Hla]%wire_integer_Ok&(lo&[_ Hlo]%wire_integer_Ok&
    (ct&[_ Hct]%wire_constant_Ok&[= <-])%bind_Ok)%bind_Ok)%bind_Ok)%bind_Ok)%bind_Ok)%bind_Ok)%bind_Ok)%bind_Ok.
  done.
Qed.

Lemma when_present_Ok {A} d n (check : pyval → result integration_failure A) o :
  when_present d n check = Ok o → match o with Some a => check (get d n) = Ok a | None => True end.
Proof. unfold when_present. destruct (has d n); [by intros (a&Ha&[= <-])%bind_Ok | by intros [= <-]]. Qed.

Lemma parse_agent_response_valid v r : parse_agent_response v = Ok r → valid_response r.
Proof.
  unfold parse_agent_response.
  intros (d&_&([]&_&(m&[_ Hm]%wire_text_Ok&(a&[_ Ha]%wire_text_Ok&(i&[_ Hi]%wire_text_Ok&
    (co&[_ Hco]%wire_text_Ok&(o&_&([c x]&Hb&([]&Hbind&[= <-])%bind_Ok)%bind_Ok)%bind_Ok)%bind_Ok)%bind_Ok)%bind_Ok)%bind_Ok)%bind_Ok)%bind_Ok.
  do 4 (split; [done|]). unfold valid_branches. cbn in *.
  apply bind_Ok in Hb as (c'&Hc&(x'&Hx&[= <- <-])%bind_Ok). apply when_present_Ok in Hc.
  destruct o, c', x'; try done. by eapply check_candidate_Ok.
Qed.

Lemma candidate_document_parses c : valid_candidate c → check_candidate (PyDict (candidate_document c)) = Ok c.
Proof.
  intros (Hpt&Hct&Hse&Hsd&Hdr&Hla&Hlo). destruct c as [pt se sd dr la lo ct].
  cbn [proposal_type command_type source_event_id source_event_digest drone_id latitude_microdegrees
       longitude_microdegrees] in *. subst.
  set (c := {| proposal_type := _ |}). unfold check_candidate.
  rewrite (proj2 (closed_members_by_key_Ok _ _ _ _ (candidate_document c))).
  2:{ split; [reflexivity|]. split; apply Forall_forall; repeat constructor. }
  cbn [map_err mbind result_bind].
  rewrite (proj2 (wire_constant_Ok _ "result.proposalType" _ "candidate-location")) by done. cbn [mbind result_bind].
  rewrite (proj2 (wire_text_Ok _ "result.sourceEventId" _ se)) by done. cbn [mbind result_bind].
  rewrite (proj2 (wire_text_Ok _ "result.sourceEventDigest" _ sd)) by done. cbn [mbind result_bind].
  rewrite (proj2 (wire_text_Ok _ "result.droneId" _ dr)) by done. cbn [mbind result_bind].
  rewrite (proj2 (wire_integer_Ok _ "result.latitudeMicrodegrees" _ _ la)) by done. cbn [mbind result_bind].
  rewrite (proj2 (wire_integer_Ok _ "result.longitudeMicrodegrees" _ _ lo)) by done. cbn [mbind result_bind].
  by rewrite (proj2 (wire_constant_Ok _ "result.commandType" _ "escalate-rescue")) by done.
Qed.

Lemma branches_parse r :
  valid_branches r →
  check_optionals (agent_response_document r) = Ok (candidate r, reason r) ∧
  bind_outcome (outcome r) (candidate r) (reason r) (agent_response_document r) = Ok tt.
Proof.
  destruct r as [m a i co [|] [c|] [x|]]; unfold valid_branches; cbn [outcome candidate reason]; try done.
  - intros Hc. split; [|done]. unfold check_optionals, when_present.
    change (get _ RESULT_MEMBER) with (PyDict (candidate_document c)).
    change (has _ RESULT_MEMBER) with true. change (has _ REASON_MEMBER) with false. cbv iota.
    by rewrite candidate_document_parses.
  - intros _. split; [|done]. by destruct x.
Qed.

(** The integration body is exactly its valid responses.  Whatever [parse_agent_response]
    accepts is valid: identifiers of their form, a position on the globe, the one proposal and
    command it may assert, a candidate with a result and no reason or an abstention with a
    reason and no result; and every valid response is written to a document that parses back
    to it. *)
Lemma agent_response_exact :
  (∀ v r, parse_agent_response v = Ok r → valid_response r) ∧
  (∀ r, valid_response r → parse_agent_response (PyDict (agent_response_document r)) = Ok r).
Proof.
  split; [apply parse_agent_response_valid|].
  intros r (Hm&Ha&Hi&Hco&Hb). destruct (branches_parse r Hb) as [Hopt Hbind].
  unfold parse_agent_response. rewrite (proj2 (closed_members_by_key_Ok _ _ _ _ (agent_response_document r))).
  2:{ split; [reflexivity|]. destruct r as [? ? ? ? ? [c|] [x|]]; split; apply Forall_forall; repeat constructor. }
  cbn [mbind result_bind]. change (check_version (agent_response_document r)) with (Ok (E:=integration_failure) tt).
  cbn [mbind result_bind].
  rewrite (proj2 (wire_text_Ok _ "missionId" _ (mission_id r))) by done. cbn [mbind result_bind].
  rewrite (proj2 (wire_text_Ok _ "agentName" _ (agent_name r))) by done. cbn [mbind result_bind].
  rewrite (proj2 (wire_text_Ok _ "invocationId" _ (invocation_id r))) by done. cbn [mbind result_bind].
  rewrite (proj2 (wire_text_Ok _ "correlationId" _ (correlation_id r))) by done. cbn [mbind result_bind].
  assert (Ho : check_outcome (get (agent_response_document r) OUTCOME_MEMBER) = Ok (outcome r))
    by (by destruct r as [? ? ? ? [] ? ?]).
  rewrite Ho. cbn [mbind result_bind]. rewrite Hopt. cbn [mbind result_bind fst snd]. rewrite Hbind.
  by destruct r.
Qed.

Definition sample_response : AgentResponse :=
  {| mission_id := "mission-1"; agent_name := "Locator"; invocation_id := "inv-1";
     correlation_id := "corr-1"; outcome := ABSTAINED; candidate := None; reason := Some TIMEOUT |}.

Lemma agent_response_exact_witness :
  parse_agent_response (PyDict (agent_response_document sample_response)) = Ok sample_response.
Proof. apply agent_response_exact. repeat split; by vm_compute. Defined.
