(* ===== verification/Approvals.v ===== *)
(** * The approval protocol

    [packages/domain/src/aerial_rescue_domain/approvals.py]: proposal-bound, single-use,
    expiring approvals.  A record is created by [approve] only and changed by [supersede],
    [expire] and [consume]; [attempt] is one call on the record its caller holds, and
    [attempts] a sequence of them, in which a refused call leaves the immutable record as it
    was.  The theorems say when a consumption succeeds, that no sequence of calls consumes an
    approval twice or outside its window, and that what is consumed is what was approved. *)

From S2P Require Import Prelude PyStr PyVal Canonical Lifecycle Digest.
Local Open Scope string_scope.
Local Open Scope Z_scope.

Inductive ApprovalState : Set :=
| REQUESTED | APPROVED | REJECTED | EXPIRED | SUPERSEDED | EXECUTED.

Inductive ApprovalEvent : Set := APPROVE | REJECT | EXPIRE | SUPERSEDE | EXECUTE.

Inductive ApprovalRefusal : Set :=
| TRANSITION | TIME_TO_LIVE | PARAMETERS | NOT_APPROVED | ALREADY_CONSUMED | WAS_SUPERSEDED
| HAS_EXPIRED | MISSION | PROPOSAL_ID | DIGEST | CLOCK_REGRESSION.

#[export] Instance ApprovalState_eq_dec : EqDecision ApprovalState.
Proof. solve_decision. Defined.
#[export] Instance ApprovalEvent_eq_dec : EqDecision ApprovalEvent.
Proof. solve_decision. Defined.
#[export] Program Instance ApprovalState_finite : Finite ApprovalState :=
  {| enum := [REQUESTED; APPROVED; REJECTED; EXPIRED; SUPERSEDED; EXECUTED] |}.
Solve All Obligations with solve_finite.

Definition state_value (s : ApprovalState) : string :=
  match s with
  | REQUESTED => "requested" | APPROVED => "approved" | REJECTED => "rejected"
  | EXPIRED => "expired" | SUPERSEDED => "superseded" | EXECUTED => "executed"
  end.

(** An aware instant as the microseconds since 0001-01-01T00:00Z and a [timedelta] as
    microseconds: comparison and subtraction of aware datetimes are exact on both. *)
Record ClockReading : Set := { wall : Z; monotonic : Z }.

Record Proposal : Set := {
  mission_id : string; proposal_id : string; parameters : members
}.

Record Approval : Set := {
  state : ApprovalState; operator_identity : string; issued : ClockReading;
  time_to_live : Z; approved_mission : string; approved_proposal : string;
  approved_digest : string
}.

(** The values the refusals carry. *)
Inductive approval_value : Set :=
| Pair (s : ApprovalState) (e : ApprovalEvent)
| Duration (d : Z)
| Parameters (p : members)
| Text (s : string)
| Clocks (c : ClockReading).

Record ApprovalError : Set := { refusal : ApprovalRefusal; value : approval_value }.

(** [TypeError] is [hmac.compare_digest] on text that is not ASCII, [OverflowError] an
    instant past the year 9999. *)
Inductive approval_failure : Set :=
| Refused (e : ApprovalError)
| TypeError
| OverflowError.

Definition refuse {A} (r : ApprovalRefusal) (v : approval_value) : result approval_failure A :=
  Err (Refused {| refusal := r; value := v |}).

(** [date.max.toordinal()] days of microseconds: the first instant no [datetime] holds. *)
Definition END_OF_TIME : Z := 3652059 * 86400 * 1000000.

Definition expires_at (a : Approval) : result approval_failure Z :=
  let t := wall (issued a) + time_to_live a in
  if (0 <=? t) && (t <? END_OF_TIME) then Ok t else Err OverflowError.

Definition TRANSITIONS : list ((ApprovalState * ApprovalEvent) * ApprovalState) :=
  [ ((REQUESTED, APPROVE), APPROVED);
    ((REQUESTED, REJECT), REJECTED);
    ((REQUESTED, EXPIRE), EXPIRED);
    ((REQUESTED, SUPERSEDE), SUPERSEDED);
    ((APPROVED, EXECUTE), EXECUTED);
    ((APPROVED, EXPIRE), EXPIRED);
    ((APPROVED, SUPERSEDE), SUPERSEDED) ].

#[export] Instance approval_lifecycle : Lifecycle ApprovalState ApprovalEvent :=
  {| lc_table := TRANSITIONS; lc_initial := REQUESTED; lc_table_wf := eq_refl |}.

Definition CONSUME_REFUSALS : list (ApprovalState * ApprovalRefusal) :=
  [ (REQUESTED, NOT_APPROVED); (REJECTED, NOT_APPROVED); (EXPIRED, HAS_EXPIRED);
    (SUPERSEDED, WAS_SUPERSEDED); (EXECUTED, ALREADY_CONSUMED) ].

Definition NO_DURATION : Z := 0.

Definition transition (s : ApprovalState) (e : ApprovalEvent) : result approval_failure ApprovalState :=
  match lc_get s e with
  | None => refuse TRANSITION (Pair s e)
  | Some target => Ok target
  end.

Definition with_state (a : Approval) (s : ApprovalState) : Approval :=
  {| state := s; operator_identity := operator_identity a; issued := issued a;
     time_to_live := time_to_live a; approved_mission := approved_mission a;
     approved_proposal := approved_proposal a; approved_digest := approved_digest a |}.

Definition supersede (a : Approval) : result approval_failure Approval :=
  s ← transition (state a) SUPERSEDE; Ok (with_state a s).

Definition expire (a : Approval) : result approval_failure Approval :=
  s ← transition (state a) EXPIRE; Ok (with_state a s).

Section protocol.
Context `{Normalization}.

Definition proposal_digest (p : Proposal) : result approval_failure string :=
  map_err (λ e, match e with
                | Digest.Refused _ | Uncanonical _ =>
                    Refused {| refusal := PARAMETERS; value := Parameters (parameters p) |}
                | Digest.TypeError => TypeError
                end)
          (Digest.proposal_digest (parameters p)).

Definition approve (s : ApprovalState) (p : Proposal) (who : string) (at_ : ClockReading) (ttl : Z)
    : result approval_failure Approval :=
  approved ← transition s APPROVE;
  raise_if (ttl <=? NO_DURATION) (Refused {| refusal := TIME_TO_LIVE; value := Duration ttl |}) ;;
  d ← proposal_digest p;
  Ok {| state := approved; operator_identity := who; issued := at_; time_to_live := ttl;
        approved_mission := mission_id p; approved_proposal := proposal_id p;
        approved_digest := d |}.

(** [_refuse_unless_bound] *)
Definition refuse_unless_bound (a : Approval) (c : Proposal) : result approval_failure unit :=
  raise_if (negb (bool_decide (mission_id c = approved_mission a)))
           (Refused {| refusal := MISSION; value := Text (mission_id c) |}) ;;
  raise_if (negb (bool_decide (proposal_id c = approved_proposal a)))
           (Refused {| refusal := PROPOSAL_ID; value := Text (proposal_id c) |}) ;;
  computed ← proposal_digest c;
  same ← map_err (λ _, TypeError) (matches (approved_digest a) computed);
  raise_if (negb same) (Refused {| refusal := DIGEST; value := Text computed |}).

(** [_refuse_unless_live] *)
Definition refuse_unless_live (a : Approval) (now : ClockReading) : result approval_failure unit :=
  let at_ := issued a in
  raise_if ((wall now <? wall at_) || (monotonic now <? monotonic at_))
           (Refused {| refusal := CLOCK_REGRESSION; value := Clocks now |}) ;;
  let window := time_to_live a in
  raise_if ((window <=? wall now - wall at_) || (window <=? monotonic now - monotonic at_))
           (Refused {| refusal := HAS_EXPIRED; value := Clocks now |}).

Definition consume (a : Approval) (c : Proposal) (now : ClockReading) : result approval_failure Approval :=
  match dict_get CONSUME_REFUSALS (state a) with
  | Some r => refuse r (Text (approved_proposal a))
  | None =>
      refuse_unless_bound a c ;;
      refuse_unless_live a now ;;
      s ← transition (state a) EXECUTE;
      Ok (with_state a s)
  end.
End protocol.

(** ** Calls on one record *)

Inductive call : Set :=
| Supersede
| Expire
| Consume (candidate : Proposal) (now : ClockReading).

Section calls.
Context `{Normalization}.

Definition attempt (a : Approval) (k : call) : result approval_failure Approval :=
  match k with
  | Supersede => supersede a
  | Expire => expire a
  | Consume c now => consume a c now
  end.

(** The record a caller holds after a sequence of calls. *)
Fixpoint attempts (a : Approval) (ks : list call) : Approval :=
  match ks with
  | [] => a
  | k :: ks => match attempt a k with Ok a' => attempts a' ks | Err _ => attempts a ks end
  end.

(** The consumptions that succeeded on the way. *)
Fixpoint consumptions (a : Approval) (ks : list call) : list (Proposal * ClockReading) :=
  match ks with
  | [] => []
  | k :: ks =>
      match attempt a k, k with
      | Ok a', Consume c now => (c, now) :: consumptions a' ks
      | Ok a', _ => consumptions a' ks
      | Err _, _ => consumptions a ks
      end
  end.

(** ** What the record binds and the window it is live in *)

Definition bound (a : Approval) (c : Proposal) : Prop :=
  mission_id c = approved_mission a ∧ proposal_id c = approved_proposal a ∧
  proposal_digest c = Ok (approved_digest a).

Definition live (a : Approval) (now : ClockReading) : Prop :=
  (wall (issued a) ≤ wall now < wall (issued a) + time_to_live a) ∧
  (monotonic (issued a) ≤ monotonic now < monotonic (issued a) + time_to_live a).

Lemma proposal_digest_Ok p d : proposal_digest p = Ok d ↔ Digest.proposal_digest (parameters p) = Ok d.
Proof. apply map_err_Ok. Qed.

Lemma proposal_digest_ascii p d : proposal_digest p = Ok d → str_all is_ascii d = true.
Proof. rewrite proposal_digest_Ok. intros (x&_&Hx)%bind_Ok. by eapply digest_covered_ascii. Qed.

Lemma bound_Ok a c u : refuse_unless_bound a c = Ok u ↔ bound a c.
Proof.
  destruct u. unfold refuse_unless_bound, bound. split.
  - intros Hb. run_ok. bools. subst. repeat split; [done..|].
    match goal with H : matches _ _ = Ok _ |- _ => apply matches_true in H as -> end. done.
  - intros (->&->&Hd). rewrite !bool_decide_true by done. cbn [negb raise_if mbind result_bind].
    rewrite Hd. cbn [mbind result_bind]. by rewrite (matches_self _ (proposal_digest_ascii _ _ Hd)).
Qed.

Lemma live_Ok a now u : refuse_unless_live a now = Ok u ↔ live a now.
Proof.
  destruct u. unfold refuse_unless_live, live. split.
  - intros Hl. run_ok. bools. lia.
  - intros [? ?]. rewrite !(proj2 (Z.ltb_ge _ _)) by lia.
    rewrite !(proj2 (Z.leb_gt _ _)) by lia. done.
Qed.

Lemma consume_Ok a c now a' :
  consume a c now = Ok a' ↔
  state a = APPROVED ∧ bound a c ∧ live a now ∧ a' = with_state a EXECUTED.
Proof.
  unfold consume. destruct (state a) eqn:Hs; cbn [dict_get CONSUME_REFUSALS]; settle;
    try (split; [done | intros (?&_); done]).
  change (transition APPROVED EXECUTE) with (Ok (E := approval_failure) EXECUTED). split.
  - intros Hc. run_ok. subst. by split; [|split; [eapply bound_Ok | split; [eapply live_Ok|]]].
  - intros (_&Hb&Hl&->). rewrite (proj2 (bound_Ok a c tt) Hb), (proj2 (live_Ok a now tt) Hl). done.
Qed.

Lemma moved_Ok a e a' :
  (s ← transition (state a) e; Ok (with_state a s)) = Ok a' ↔
  ∃ s, lc_get (state a) e = Some s ∧ a' = with_state a s.
Proof.
  unfold transition. destruct (lc_get (state a) e) as [s|]; cbn; split.
  - intros [= <-]. by exists s.
  - by intros (?&[= ->]&->).
  - done.
  - by intros (?&?&?).
Qed.

(** A call that succeeds changes the state only, and only a consumption executes. *)
Lemma attempt_Ok a k a' :
  attempt a k = Ok a' →
  ∃ s, a' = with_state a s ∧ reaches lc_step (state a) s ∧
       (s = EXECUTED ↔ state a = APPROVED ∧ ∃ c now, k = Consume c now ∧ bound a c ∧ live a now).
Proof.
  destruct k as [| |c now]; cbn [attempt].
  - intros (s&Hs&->)%moved_Ok. exists s.
    split; [done|]. split; [eapply reaches_step; [by eexists | constructor]|].
    split; [|intros (_&?&?&?&_); done]. intros ->. by destruct (state a).
  - intros (s&Hs&->)%moved_Ok. exists s.
    split; [done|]. split; [eapply reaches_step; [by eexists | constructor]|].
    split; [|intros (_&?&?&?&_); done]. intros ->. by destruct (state a).
  - intros (Hs&Hb&Hl&->)%consume_Ok. exists EXECUTED. rewrite Hs.
    split; [done|]. split; [eapply reaches_step; [by exists EXECUTE | constructor]|].
    split; [|done]. intros _. split; [done|]. by exists c, now.
Qed.

Lemma with_state_twice a s s' : with_state (with_state a s) s' = with_state a s'.
Proof. done. Qed.

Lemma attempts_bind a ks : ∃ s, attempts a ks = with_state a s.
Proof.
  revert a; induction ks as [|k ks IH]; intros a; [exists (state a); by destruct a|].
  cbn [attempts]. destruct (attempt a k) as [a'|] eqn:Ha; [|apply IH].
  apply attempt_Ok in Ha as (s&->&_&_). destruct (IH (with_state a s)) as [s' Hs']. by exists s'.
Qed.

(** Nothing is consumed from a record that is not approved, and it never becomes executed. *)
Lemma dead_record a ks : state a ≠ REQUESTED → state a ≠ APPROVED →
  consumptions a ks = [] ∧ state (attempts a ks) = state a.
Proof.
  intros Hr Ha. induction ks as [|k ks IH]; [done|]. cbn [attempts consumptions].
  destruct (attempt a k) as [a'|] eqn:Hk; [|exact IH].
  exfalso. destruct k as [| |c now]; cbn [attempt] in Hk.
  - apply moved_Ok in Hk as (s&Hs&_). by destruct (state a).
  - apply moved_Ok in Hk as (s&Hs&_). by destruct (state a).
  - apply consume_Ok in Hk as (Hs&_). done.
Qed.

(** The calls on an approved record either consume it exactly once, with a candidate it
    binds while it is live, or leave it unexecuted. *)
Lemma consumptions_once a ks : state a = APPROVED →
  (consumptions a ks = [] ∧ state (attempts a ks) ≠ EXECUTED) ∨
  (∃ c now, consumptions a ks = [(c, now)] ∧ state (attempts a ks) = EXECUTED ∧
            bound a c ∧ live a now).
Proof.
  intros Ha. induction ks as [|k ks IH]; [left; cbn; by rewrite Ha|].
  cbn [attempts consumptions]. destruct (attempt a k) as [a'|] eqn:Hk; [|exact IH].
  destruct k as [| |c now]; cbn [attempt ok_value default] in *.
  - apply moved_Ok in Hk as (s&Hs&->). rewrite Ha in Hs. injection Hs as <-.
    left. by destruct (dead_record (with_state a SUPERSEDED) ks) as [-> ->].
  - apply moved_Ok in Hk as (s&Hs&->). rewrite Ha in Hs. injection Hs as <-.
    left. by destruct (dead_record (with_state a EXPIRED) ks) as [-> ->].
  - apply consume_Ok in Hk as (_&Hb&Hl&->). right. exists c, now.
    by destruct (dead_record (with_state a EXECUTED) ks) as [-> ->].
Qed.

Lemma approve_Ok s p who at_ ttl a :
  approve s p who at_ ttl = Ok a ↔
  s = REQUESTED ∧ 0 < ttl ∧ ∃ d, proposal_digest p = Ok d ∧
  a = {| state := APPROVED; operator_identity := who; issued := at_; time_to_live := ttl;
         approved_mission := mission_id p; approved_proposal := proposal_id p;
         approved_digest := d |}.
Proof.
  unfold approve. destruct s; try (split; [done | by intros (?&_)]).
  change (transition REQUESTED APPROVE) with (Ok (E := approval_failure) APPROVED).
  cbn [mbind result_bind]. split.
  - intros Hr. run_ok. bools. unfold NO_DURATION in *. split; [done|]. split; [lia|]. by eexists.
  - intros (_&Hl&d&Hd&->). rewrite (proj2 (Z.leb_gt _ _)) by (unfold NO_DURATION; lia).
    cbn [mbind result_bind raise_if]. by rewrite Hd.
Qed.
End calls.

(** What the digest covers of a proposal: its parameters without their own digest. *)
Definition covered (p : Proposal) : members :=
  filter (λ kv : pykey * pyval, kv.1 ≠ KStr PROPOSAL_DIGEST_FIELD) (parameters p).

(** Two proposals propose the same action, unless SHA-256 collides on them. *)
Definition same_action `{Normalization} (p c : Proposal) : Prop :=
  mission_id c = mission_id p ∧ proposal_id c = proposal_id p ∧
  covers_same Digest.PROPOSAL Digest.PROPOSAL (covered p) (covered c).

Lemma same_digest_covers `{Normalization} p c d :
  well_formed (PyDict (parameters p)) = true → well_formed (PyDict (parameters c)) = true →
  proposal_digest p = Ok d → proposal_digest c = Ok d →
  covers_same Digest.PROPOSAL Digest.PROPOSAL (covered p) (covered c).
Proof.
  rewrite !proposal_digest_Ok. unfold Digest.proposal_digest, covered.
  intros Hp Hc (x&Hx&Hd)%bind_Ok (y&Hy&Hd')%bind_Ok.
  apply covered_members_Ok in Hx as (?&[= <-]&_&->), Hy as (?&[= <-]&_&->).
  eapply digest_covered_same; [by apply well_formed_filter.. | done | done].
Qed.

(** C3: an approval is consumed at most once, for the action it approved, inside its window.
    Whatever calls follow an approval, at most one consumption among them succeeds; it
    executes the record, nothing else does; its candidate is the approved mission and
    proposal with the approved parameters (or a SHA-256 collision); and both clocks then read
    inside the window that opened at the approval. *)
Theorem approval_consumed_once `{Normalization} p who at_ ttl a ks :
  approve REQUESTED p who at_ ttl = Ok a →
  well_formed (PyDict (parameters p)) = true →
  (consumptions a ks = [] ∧ state (attempts a ks) ≠ EXECUTED) ∨
  (∃ c now, consumptions a ks = [(c, now)] ∧ state (attempts a ks) = EXECUTED ∧
     (wall at_ ≤ wall now < wall at_ + ttl) ∧
     (monotonic at_ ≤ monotonic now < monotonic at_ + ttl) ∧
     (well_formed (PyDict (parameters c)) = true → same_action p c)).
Proof.
  intros (_&_&d&Hd&->)%approve_Ok Hwf.
  match goal with |- context [consumptions ?r ks] => destruct (consumptions_once r ks eq_refl)
    as [Hn|(c&now&Hk&He&(Hm&Hp&Hc)&Hw&Hmono)]; [by left | right] end.
  exists c, now. do 4 (split; [done|]). intros Hwc. do 2 (split; [done|]).
  by eapply same_digest_covers.
Qed.

(** [consume] succeeds exactly on an approved record, for the mission, proposal and digest
    it binds, with neither clock before the approval nor at its window's end; the record is
    then executed and otherwise unchanged.  The refusals come in the documented order: state,
    mission, proposal, parameters, digest, clock regression, expiry, whatever else also fails. *)
Lemma consume_decides `{Normalization} a c now :
  (∀ a', consume a c now = Ok a' ↔
     state a = APPROVED ∧ bound a c ∧ live a now ∧ a' = with_state a EXECUTED) ∧
  (∀ r, dict_get CONSUME_REFUSALS (state a) = Some r →
     consume a c now = refuse r (Text (approved_proposal a))) ∧
  (state a = APPROVED →
     (mission_id c ≠ approved_mission a → consume a c now = refuse MISSION (Text (mission_id c))) ∧
     (mission_id c = approved_mission a →
       (proposal_id c ≠ approved_proposal a →
          consume a c now = refuse PROPOSAL_ID (Text (proposal_id c))) ∧
       (proposal_id c = approved_proposal a →
         (∀ e, Digest.proposal_digest (parameters c) = Err e → e ≠ Digest.TypeError →
            consume a c now = refuse PARAMETERS (Parameters (parameters c))) ∧
         (∀ d, proposal_digest c = Ok d → d ≠ approved_digest a →
            str_all is_ascii (approved_digest a) = true →
            consume a c now = refuse DIGEST (Text d)) ∧
         (proposal_digest c = Ok (approved_digest a) →
            (wall now < wall (issued a) ∨ monotonic now < monotonic (issued a) →
               consume a c now = refuse CLOCK_REGRESSION (Clocks now)) ∧
            (wall (issued a) ≤ wall now → monotonic (issued a) ≤ monotonic now → ¬ live a now →
               consume a c now = refuse HAS_EXPIRED (Clocks now)))))).
Proof.
  split; [apply consume_Ok|]. split; [by intros r Hr; unfold consume; rewrite Hr|].
  intros Hs. unfold consume. rewrite Hs. cbn [dict_get CONSUME_REFUSALS]. settle.
  unfold refuse_unless_bound, raise_if, refuse.
  split; [intros Hm; by rewrite (bool_decide_false _ Hm)|]. intros Hm. rewrite (bool_decide_true _ Hm).
  split; [intros Hp; by rewrite (bool_decide_false _ Hp)|]. intros Hp. rewrite (bool_decide_true _ Hp).
  cbn [negb mbind result_bind]. split; [|split].
  - intros e He Hne. unfold proposal_digest. rewrite He. by destruct e.
  - intros d Hd Hne Ha. rewrite Hd. cbn [mbind result_bind]. unfold matches.
    rewrite Ha, (proposal_digest_ascii _ _ Hd). cbn. by rewrite bool_decide_false.
  - intros Hd. rewrite Hd. cbn [mbind result_bind].
    rewrite (matches_self _ (proposal_digest_ascii _ _ Hd)).
    cbn [map_err mbind result_bind negb]. unfold refuse_unless_live, raise_if, live.
    destruct (Z.ltb_spec (wall now) (wall (issued a))), (Z.ltb_spec (monotonic now) (monotonic (issued a)));
      cbn [orb mbind result_bind]; (split; [intros; first [done | lia]|]); try lia.
    intros _ _ Hl.
    destruct (Z.leb_spec (time_to_live a) (wall now - wall (issued a))),
      (Z.leb_spec (time_to_live a) (monotonic now - monotonic (issued a))); cbn; try done.
    exfalso. apply Hl. lia.
Qed.

Definition sample_action : Proposal :=
  {| mission_id := "mission-1"; proposal_id := "p-1"; parameters := sample_proposal |}.
Definition sample_clock (w m : Z) : ClockReading := {| wall := w; monotonic := m |}.
Definition sample_calls : list call :=
  [ Consume sample_action (sample_clock 1060 60); Consume sample_action (sample_clock 1005 5);
    Consume sample_action (sample_clock 1006 6); Supersede ].

Lemma approval_consumed_once_witness :
  ∃ a, consumptions (H := ascii_normalization) a sample_calls
         = [(sample_action, sample_clock 1005 5)] ∧
       ((consumptions (H := ascii_normalization) a sample_calls = [] ∧
         state (attempts (H := ascii_normalization) a sample_calls) ≠ EXECUTED) ∨
        ∃ c now, consumptions (H := ascii_normalization) a sample_calls = [(c, now)] ∧
          state (attempts (H := ascii_normalization) a sample_calls) = EXECUTED ∧
          (1000 ≤ wall now < 1000 + 60) ∧ (0 ≤ monotonic now < 0 + 60) ∧
          (well_formed (PyDict (parameters c)) = true →
             same_action (H := ascii_normalization) sample_action c)).
Proof.
  eexists. split.
  2:{ eapply (approval_consumed_once (H := ascii_normalization) sample_action "operator-1"
                (sample_clock 1000 0) 60); vm_compute; reflexivity. }
  vm_compute. reflexivity.
Defined.
