(* ===== verification/Scoring.v ===== *)
(** * Evidence scoring

    [packages/domain/src/aerial_rescue_domain/scoring.py]: the saturating score, its bands
    and the two structural gates on escalation.  Sources are counted as a [gset] of their
    identifiers; [band_rank] orders the bands as [BAND_ORDER] does. *)

From stdpp Require Import gmap sorting.
From S2P Require Import Prelude Lifecycle.
Local Open Scope Z_scope.

Inductive ObservationOrigin : Set := LIVE_MODEL | LIVE_SENSOR | RECORDED.
Inductive EvidenceBand : Set := NONE | WEAK | SUPPORTED | CORROBORATED.
Inductive ScoreRefusal : Set := BOUNDARIES | WEIGHT | RECORDED_CONTRIBUTION.

#[export] Instance ObservationOrigin_eq_dec : EqDecision ObservationOrigin.
Proof. solve_decision. Defined.
#[export] Instance EvidenceBand_eq_dec : EqDecision EvidenceBand.
Proof. solve_decision. Defined.

Inductive score_value : Set :=
| Steps (weak supported corroborated : Z)
| Weight (w : Z)
| Source (id : string).

Record ScoreError : Set := { refusal : ScoreRefusal; value : score_value }.

Definition MINIMUM_SCORE : Z := 0.
Definition MAXIMUM_SCORE : Z := 100.
Definition SCORE_VERSION : Z := 1.
Definition MINIMUM_CORROBORATING_SOURCES : nat := 2.
Definition BAND_ORDER : list EvidenceBand := [NONE; WEAK; SUPPORTED; CORROBORATED].
Definition ESCALATING_BAND : EvidenceBand := CORROBORATED.

Record BandBoundaries : Set := { weak : Z; supported : Z; corroborated : Z }.
Record Contribution : Set := { source_id : string; origin : ObservationOrigin; weight : Z }.

(** [pairwise] and the [all] over it. *)
Fixpoint ascending (steps : list Z) : bool :=
  match steps with
  | lower :: (upper :: _) as rest => (lower <? upper) && ascending rest
  | _ => true
  end.

(** [_check_boundaries], run by [BandBoundaries.__post_init__] *)
Definition check_boundaries (b : BandBoundaries) : result ScoreError unit :=
  let steps := [MINIMUM_SCORE; weak b; supported b; corroborated b] in
  raise_if (negb (ascending steps) || (MAXIMUM_SCORE <? corroborated b))
    {| refusal := BOUNDARIES; value := Steps (weak b) (supported b) (corroborated b) |}.

Definition new_boundaries (w s c : Z) : result ScoreError BandBoundaries :=
  let b := {| weak := w; supported := s; corroborated := c |} in
  check_boundaries b ;; Ok b.

(** [Contribution.__post_init__] *)
Definition new_contribution (id : string) (o : ObservationOrigin) (w : Z) : result ScoreError Contribution :=
  raise_if (negb ((MINIMUM_SCORE <=? w) && (w <=? MAXIMUM_SCORE)))
    {| refusal := WEIGHT; value := Weight w |} ;;
  Ok {| source_id := id; origin := o; weight := w |}.

Definition sum (ws : list Z) : Z := foldr Z.add 0 ws.

Definition score (cs : list Contribution) : Z := MAXIMUM_SCORE `min` sum (weight <$> cs).

Definition band_for (total : Z) (b : BandBoundaries) : EvidenceBand :=
  if corroborated b <=? total then CORROBORATED
  else if supported b <=? total then SUPPORTED
  else if weak b <=? total then WEAK
  else NONE.

Definition sources (cs : list Contribution) : gset string := list_to_set (source_id <$> cs).

Definition corroborating_sources (cs : list Contribution) : nat := size (sources cs).

(** [_refuse_recorded] *)
Definition refuse_recorded (cs : list Contribution) : result ScoreError unit :=
  fold_ok (λ _ c, raise_if (bool_decide (origin c = RECORDED))
                    {| refusal := RECORDED_CONTRIBUTION; value := Source (source_id c) |}) tt cs.

(** [BAND_ORDER.index(band)] *)
Definition band_rank (b : EvidenceBand) : nat := default 0%nat (fst <$> list_find (b =.) BAND_ORDER).

(** [BAND_ORDER[BAND_ORDER.index(ESCALATING_BAND) - 1]] *)
Definition capped_band : EvidenceBand := default NONE (BAND_ORDER !! (band_rank ESCALATING_BAND - 1)%nat).

Definition decision_band (cs : list Contribution) (b : BandBoundaries) : result ScoreError EvidenceBand :=
  refuse_recorded cs ;;
  let band := band_for (score cs) b in
  let uncorroborated := (corroborating_sources cs <? MINIMUM_CORROBORATING_SOURCES)%nat in
  Ok (if bool_decide (band = ESCALATING_BAND) && uncorroborated then capped_band else band).

(** ** Live evidence *)

Definition is_live (c : Contribution) : Prop := origin c ≠ RECORDED.
Definition weighed (c : Contribution) : Prop := MINIMUM_SCORE ≤ weight c ≤ MAXIMUM_SCORE.

Lemma new_contribution_Ok id o w c :
  new_contribution id o w = Ok c ↔ c = {| source_id := id; origin := o; weight := w |} ∧ weighed c.
Proof.
  unfold new_contribution, weighed. split.
  - intros Hc. run_ok. bools. subst. by split.
  - intros [-> Hw]. cbn [weight] in Hw. by rewrite !(proj2 (Z.leb_le _ _)) by lia.
Qed.

Lemma check_boundaries_Ok b u :
  check_boundaries b = Ok u ↔ 0 < weak b < supported b ∧ supported b < corroborated b ≤ MAXIMUM_SCORE.
Proof.
  destruct u. unfold check_boundaries. cbn [ascending]. rewrite raise_if_Ok, orb_false_iff, negb_false_iff.
  rewrite !andb_true_iff, !Z.ltb_lt, Z.ltb_ge. unfold MINIMUM_SCORE. intuition lia.
Qed.

Lemma refuse_recorded_live cs : Forall is_live cs → refuse_recorded cs = Ok tt.
Proof.
  unfold refuse_recorded. induction 1 as [|c cs Hc _ IH]; [done|]. cbn [fold_ok].
  by rewrite bool_decide_false.
Qed.

Lemma refuse_recorded_first before c after :
  Forall is_live before → origin c = RECORDED →
  refuse_recorded (before ++ c :: after) =
    Err {| refusal := RECORDED_CONTRIBUTION; value := Source (source_id c) |}.
Proof.
  unfold refuse_recorded. intros Hb Hc. induction Hb as [|x l Hx _ IH]; cbn [app fold_ok].
  - by rewrite bool_decide_true.
  - by rewrite bool_decide_false.
Qed.

Lemma recorded_or_live cs :
  Forall is_live cs ∨ ∃ before c after, cs = before ++ c :: after ∧ Forall is_live before ∧ origin c = RECORDED.
Proof.
  induction cs as [|c cs IH]; [by left|]. destruct (decide (origin c = RECORDED)) as [Hc|Hc].
  - right. by exists [], c, cs.
  - destruct IH as [IH|(b&x&a&->&Hb&Hx)]; [left; by constructor|].
    right. exists (c :: b), x, a. split; [done|]. split; [by constructor | done].
Qed.

Lemma decision_band_live cs b :
  Forall is_live cs →
  decision_band cs b = Ok (if bool_decide (band_for (score cs) b = CORROBORATED) &&
                              (corroborating_sources cs <? 2)%nat
                           then SUPPORTED else band_for (score cs) b).
Proof. intros Hl. unfold decision_band. by rewrite refuse_recorded_live. Qed.

Lemma decision_band_first before c after b :
  Forall is_live before → origin c = RECORDED →
  decision_band (before ++ c :: after) b =
    Err {| refusal := RECORDED_CONTRIBUTION; value := Source (source_id c) |}.
Proof. intros Hb Hc. unfold decision_band. by rewrite refuse_recorded_first. Qed.

(** ** Monotonicity *)

Lemma sum_app xs ys : sum (xs ++ ys) = sum xs + sum ys.
Proof. unfold sum. induction xs as [|x xs IH]; cbn; lia. Qed.

Lemma sum_weights cs : Forall weighed cs → 0 ≤ sum (weight <$> cs).
Proof. unfold sum, weighed, MINIMUM_SCORE. induction 1; cbn; lia. Qed.

Lemma score_app cs more : Forall weighed more → score cs ≤ score (cs ++ more).
Proof. intros Hm%sum_weights. unfold score. rewrite fmap_app, sum_app. lia. Qed.

Lemma score_range cs : Forall weighed cs → 0 ≤ score cs ≤ MAXIMUM_SCORE.
Proof. intros Hm%sum_weights. unfold score, MAXIMUM_SCORE. lia. Qed.

Lemma sources_app cs more : (corroborating_sources cs ≤ corroborating_sources (cs ++ more))%nat.
Proof.
  unfold corroborating_sources, sources. apply subseteq_size.
  rewrite fmap_app, list_to_set_app. set_solver.
Qed.

Lemma band_for_mono t t' b :
  0 < weak b < supported b → supported b < corroborated b → t ≤ t' →
  (band_rank (band_for t b) ≤ band_rank (band_for t' b))%nat.
Proof.
  intros ? ? ?. unfold band_for.
  repeat match goal with |- context [Z.leb ?x ?y] => destruct (Z.leb_spec x y) end;
    first [lia | vm_compute; lia].
Qed.

(** ** Corroboration *)

Lemma two_sources cs :
  (2 ≤ corroborating_sources cs)%nat ↔
  ∃ c d, c ∈ cs ∧ d ∈ cs ∧ source_id c ≠ source_id d.
Proof.
  unfold corroborating_sources, sources. split.
  - intros Hs. destruct cs as [|c cs]; [cbn in Hs; rewrite size_empty in Hs; lia|].
    destruct (decide (Forall (λ d, source_id d = source_id c) cs)) as [Ha|Ha].
    + exfalso. assert (list_to_set (C := gset string) (source_id <$> c :: cs) ⊆ {[ source_id c ]}) as Hsub.
      { intros s. rewrite elem_of_list_to_set. intros (d&->&Hd)%list_elem_of_fmap.
        apply elem_of_singleton. apply elem_of_cons in Hd as [->|Hd]; [done|].
        by eapply Forall_forall in Ha. }
      apply subseteq_size in Hsub. rewrite size_singleton in Hsub. lia.
    + apply not_Forall_Exists in Ha; [|apply _]. apply Exists_exists in Ha as (d&Hd&Hn).
      exists d, c. rewrite !elem_of_cons. auto.
  - intros (c&d&Hc&Hd&Hn). change 2%nat with (length [source_id c; source_id d]).
    rewrite <- (size_list_to_set (C := gset string) [source_id c; source_id d]).
    + apply subseteq_size. intros s. rewrite !elem_of_list_to_set, !elem_of_cons, elem_of_nil.
      intros [->|[->|[]]]; by apply list_elem_of_fmap_2.
    + apply NoDup_cons. rewrite list_elem_of_singleton. split; [done | apply NoDup_singleton].
Qed.

Lemma decision_band_escalates cs b :
  Forall is_live cs →
  decision_band cs b = Ok ESCALATING_BAND ↔
  corroborated b ≤ score cs ∧ (2 ≤ corroborating_sources cs)%nat.
Proof.
  intros Hl. rewrite decision_band_live by done. unfold band_for, ESCALATING_BAND.
  destruct (Z.leb_spec (corroborated b) (score cs)).
  - rewrite bool_decide_true by done. cbn [andb].
    destruct (Nat.ltb_spec (corroborating_sources cs) 2); split; try done; lia.
  - rewrite bool_decide_false by (by repeat case_match). cbn [andb]. split; [|lia].
    repeat case_match; done.
Qed.

(** Escalation takes corroborated live evidence.  With boundaries and weights that the
    constructors accept, the decision band is the escalating one exactly when every item is
    live, the weights sum to the boundary and two items come from distinct sources; recorded
    evidence refuses the decision naming the first recorded source; further live evidence
    never lowers the band; and the order of the items does not matter. *)
Lemma escalation_needs_corroboration cs b :
  check_boundaries b = Ok tt → Forall weighed cs →
  (decision_band cs b = Ok ESCALATING_BAND ↔
     Forall is_live cs ∧ corroborated b ≤ sum (weight <$> cs) ∧
     ∃ c d, c ∈ cs ∧ d ∈ cs ∧ source_id c ≠ source_id d) ∧
  (∀ before c after, cs = before ++ c :: after → Forall is_live before → origin c = RECORDED →
     decision_band cs b = Err {| refusal := RECORDED_CONTRIBUTION; value := Source (source_id c) |}) ∧
  (∀ more r, Forall weighed more → Forall is_live more → decision_band cs b = Ok r →
     ∃ r', decision_band (cs ++ more) b = Ok r' ∧ (band_rank r ≤ band_rank r')%nat) ∧
  (∀ cs', cs ≡ₚ cs' → Forall is_live cs → decision_band cs' b = decision_band cs b).
Proof.
  intros [[Hw Hs] [Hc Hm]]%check_boundaries_Ok Hcs. split; [|split; [|split]].
  - destruct (recorded_or_live cs) as [Hl|(before&c&after&->&Hl&Hr)].
    + rewrite decision_band_escalates, two_sources by done. unfold score, MAXIMUM_SCORE in *.
      intuition lia.
    + rewrite decision_band_first by done. split; [done|].
      intros [Hall _]. apply Forall_app in Hall as [_ Hall]. by apply Forall_cons in Hall as [? _].
  - intros before c after -> Hl Hr. by apply decision_band_first.
  - intros more r Hmw Hml Hr.
    destruct (recorded_or_live cs) as [Hl|(before&c&after&->&Hl&Hx)];
      [|by rewrite decision_band_first in Hr].
    rewrite decision_band_live in Hr by done. rewrite decision_band_live by (by apply Forall_app).
    eexists. split; [done|]. injection Hr as <-.
    pose proof (score_app cs more Hmw) as Hsc. pose proof (sources_app cs more) as Hso.
    unfold band_for.
    destruct (Nat.ltb_spec (corroborating_sources cs) 2), (Nat.ltb_spec (corroborating_sources (cs ++ more)) 2);
    repeat match goal with |- context [Z.leb ?x ?y] => destruct (Z.leb_spec x y) end;
    first [lia | vm_compute; lia].
  - intros cs' Hp Hl. rewrite !decision_band_live; [|done | by rewrite <- Hp].
    assert (score cs' = score cs) as ->.
    { unfold score. f_equal. clear -Hp. induction Hp; unfold sum in *; cbn in *; lia. }
    assert (corroborating_sources cs' = corroborating_sources cs) as ->; [|done].
    unfold corroborating_sources, sources. f_equal. apply set_eq. intros s.
    by rewrite !elem_of_list_to_set, Hp.
Qed.

Lemma escalation_needs_corroboration_witness :
  let b := {| weak := 10; supported := 40; corroborated := 70 |} in
  decision_band [ {| source_id := "drone-1"; origin := LIVE_SENSOR; weight := 40 |};
                  {| source_id := "drone-2"; origin := LIVE_MODEL; weight := 35 |} ] b = Ok ESCALATING_BAND.
Proof.
  intros b. refine (proj2 (proj1 (escalation_needs_corroboration _ b _ _)) _).
  - vm_compute; reflexivity.
  - repeat constructor; vm_compute; discriminate.
  - split; [by repeat constructor|]. split; [cbn; lia|].
    do 2 eexists. split; [apply list_elem_of_here|].
    split; [apply list_elem_of_further, list_elem_of_here | done].
Defined.
