(* ===== verification/StoreProposals.v ===== *)
(** * Stored proposals

    [packages/store/src/aerial_rescue_store/proposals.py]: an immutable proposal is inserted
    once, an exact replay is accepted and changed content under its identity is refused; every
    stored row reads back as the proposal it holds.  Implements [Fact]. *)

From S2P Require Import Prelude PyVal Sql Schema.
Local Open Scope string_scope.
Local Open Scope Z_scope.

(** ** Immutable facts

    Several repositories of [packages/store] share one discipline: a fact is inserted under its
    identity, an exact repeat is accepted as a duplicate, and changed content under a stored
    identity is refused.  [Fact] is the interface one such repository offers: its table, the row
    of a fact, and a reader that gives the fact back.  [record_fact] and [load_fact] are the two
    operations against it, and the lemmas here are what their callers use. *)

Class Fact (A R : Type) `{EqDecision A} := {
  fact_table : Table;
  fact_key : list string;
  fact_id_column : string;
  fact_id : A → string;
  fact_values : A → row;
  fact_read : string → list sqlval → result (store_failure R) A;
  fact_conds (id : string) : list cond := [Equals fact_id_column (SText id)];
  fact_row (a : A) : row := make_row fact_table (fact_values a);
  fact_keyed : fact_key ∈ unique_keys fact_table;
  fact_named a : names_key fact_key (fact_conds (fact_id a)) (fact_row a);
  fact_filled a : cell (fact_row a) fact_id_column = SText (fact_id a);
  fact_reads_back a : fact_read (fact_id a) (project (columns fact_table) (fact_row a)) = Ok a
}.

Section facts.
Context `{Database} {A R : Type} `{Fact A R}.

Definition fact_insert (a : A) : statement :=
  Insert fact_table (fact_values a) (DoNothing (Some fact_key)) [fact_id_column].
Definition fact_select (id : string) : statement :=
  Select fact_table (columns fact_table) (fact_conds id) [] None.

(** [true] when the fact was stored now, [false] for an exact duplicate. *)
Definition record_fact (vanished conflict : R) (a : A) : tx (store_failure R) bool :=
  inserted ← sql (scalar (fact_insert a));
  match inserted with
  | Some _ => mret true
  | None =>
      found ← sql (one_or_none (fact_select (fact_id a)));
      row ← pure (or_raise found (Refused vanished (PyStr (fact_id a))));
      kept ← pure (fact_read (fact_id a) row);
      pure (raise_if (bool_decide (kept ≠ a)) (Refused conflict (PyStr (fact_id a)))) ;;
      mret false
  end.

Definition load_fact (absent : R) (id : string) : tx (store_failure R) A :=
  found ← sql (one_or_none (fact_select id));
  row ← pure (or_raise found (Refused absent (PyStr id)));
  pure (fact_read id row).

(** The row stored under an identity. *)
Definition fact_entry (d : db) (id : string) : option row := found d fact_table (fact_conds id).

(** The store holds exactly this fact under its identity. *)
Definition keeps (d : db) (a : A) : Prop :=
  ∃ r, fact_entry d (fact_id a) = Some r ∧
       fact_read (fact_id a) (project (columns fact_table) r) = Ok a.

Lemma fact_insert_well_formed a : well_formed (fact_insert a) = true.
Proof. apply bool_decide_eq_true, fact_keyed. Qed.

Lemma record_fact_Ok v c a d new d' :
  consistent d → record_fact v c a d = Ok (new, d') →
  match fact_entry d (fact_id a) with
  | Some r => new = false ∧ d' ≡ d ∧ keeps d a
  | None => new = true ∧ replaces d fact_table (rows d fact_table ++ [fact_row a])%list d'
  end.
Proof.
  intros Hd Hr. unfold record_fact in Hr. apply tx_bind_Ok in Hr as (o&d1&Hi&Hr). run_tx.
  apply (insert_found fact_table d fact_key (fact_conds (fact_id a))) in Hi as [_ Hi];
    [|apply fact_keyed|done|apply fact_named|fold (fact_row a); by rewrite fact_filled].
  fold (fact_entry d (fact_id a)) in Hi.
  destruct (fact_entry d (fact_id a)) as [r|] eqn:He; destruct Hi as [-> Hi].
  - run_tx. subst.
    match goal with H : one_or_none _ _ = _ |- _ => apply select_found in H as [Hs Hf] end.
    rewrite (found_proper _ _ _ _ Hi) in Hf. fold (fact_entry d (fact_id a)) in Hf.
    rewrite He in Hf. injection Hf as ->. bools.
    match goal with H : ¬ (_ ≠ _) |- _ => apply dec_stable in H; subst end.
    split; [done|]. split; [by rewrite Hs|]. by exists r.
  - apply tx_ret_Ok in Hr as [<- <-]. done.
Qed.

Lemma load_fact_Ok absent id a d d' :
  load_fact absent id d = Ok (a, d') →
  d' ≡ d ∧ ∃ r, fact_entry d id = Some r ∧ fact_read id (project (columns fact_table) r) = Ok a.
Proof.
  intros Hl. unfold load_fact in Hl. run_tx. subst.
  match goal with H : one_or_none _ _ = _ |- _ => apply select_found in H as [Hs Hf] end.
  split; [done|]. fold (fact_entry d id) in Hf. destruct (fact_entry d id) as [r|]; [|done].
  injection Hf as ->. eauto.
Qed.

(** What was recorded is kept, and stays. *)
Lemma record_fact_keeps v c a d new d' :
  consistent d → record_fact v c a d = Ok (new, d') →
  keeps d' a ∧ ∀ id r, fact_entry d id = Some r → fact_entry d' id = Some r.
Proof.
  intros Hd Hr. apply record_fact_Ok in Hr; [|done].
  destruct (fact_entry d (fact_id a)) as [r|] eqn:He.
  - destruct Hr as (_&Hs&(r'&Hr'&Ha)). unfold keeps, fact_entry.
    setoid_rewrite (found_proper _ _ _ _ Hs). split; [by exists r'|done].
  - destruct Hr as [_ Hr].
    assert (Hf : ∀ id, fact_entry d' id = match fact_entry d id with
              | Some x => Some x
              | None => if selects (fact_conds id) (fact_row a) then Some (fact_row a) else None
              end) by (intros id; apply (found_snoc _ _ _ _ _ Hr)).
    split.
    + exists (fact_row a). split; [|apply fact_reads_back]. rewrite Hf, He.
      cbn [selects fact_conds forallb holds]. rewrite fact_filled.
      by rewrite (proj2 (sql_eq_true _ _)).
    + intros id r Hid. by rewrite Hf, Hid.
Qed.

(** A kept fact loads as itself, and changed content under its identity is refused. *)
Lemma keeps_loads absent a d :
  consistent d → keeps d a → permits (fact_select (fact_id a)) d = true →
  ∃ d', load_fact absent (fact_id a) d = Ok (a, d').
Proof.
  intros Hd (r&Hr&Ha) Hp.
  destruct (select_found_runs fact_table d fact_key (fact_row a) (columns fact_table)
    (fact_conds (fact_id a)) [] Hd fact_keyed (fact_named a) Hp) as [d' Hs].
  fold (fact_entry d (fact_id a)) in Hs. rewrite Hr in Hs. exists d'. unfold load_fact.
  rewrite (tx_bind_run _ _ _ _ _ (lift_run Driver _ _ _ Hs)). cbn. unfold pure at 1. cbn.
  rewrite (tx_bind_run _ _ _ (project (columns fact_table) r) d') by done.
  unfold pure. by rewrite Ha.
Qed.

Lemma keeps_unique v c a b d new d' :
  consistent d → keeps d a → fact_id b = fact_id a → record_fact v c b d = Ok (new, d') →
  b = a ∧ new = false ∧ d' ≡ d.
Proof.
  intros Hd (r&Hr&Ha) Hid Hrec. apply record_fact_Ok in Hrec; [|done].
  rewrite Hid, Hr in Hrec. destruct Hrec as (->&Hs&(r'&Hr'&Hb)). rewrite Hid, Hr in Hr'.
  injection Hr' as <-. rewrite Hid, Ha in Hb. by injection Hb as ->.
Qed.

Lemma record_fact_effect v c a : effect stays_consistent (record_fact v c a).
Proof.
  unfold record_fact. effects. apply fetch_effect, fact_insert_well_formed.
Qed.

Lemma load_fact_effect absent id : effect stays_consistent (load_fact absent id).
Proof. unfold load_fact, fact_select. effects. Qed.

Lemma fact_insert_confined a : effect (confined [fact_table]) (fetch_all (fact_insert a)).
Proof. apply fetch_confined; [apply fact_insert_well_formed | left]. Qed.

Lemma fact_select_confined id : effect (confined [fact_table]) (fetch_all (fact_select id)).
Proof. apply fetch_confined; [done | left]. Qed.

Lemma record_fact_confined v c a : effect (confined [fact_table]) (record_fact v c a).
Proof.
  pose proof fact_insert_confined. pose proof fact_select_confined. unfold record_fact.
  repeat first [ apply effect_bind; [apply _| |intros] | apply effect_lift | apply effect_pure, _
               | apply effect_ret, _ | progress (unfold scalar, one_or_none) | solve [auto]
               | match goal with |- effect _ (match ?x with _ => _ end) => destruct x end ].
Qed.
End facts.

#[export] Hint Resolve record_fact_effect load_fact_effect record_fact_confined : effects.

(** A read changes no table. *)
Definition unchanged `{Database} (d d' : db) : Prop := d' ≡ d.

#[export] Instance unchanged_preorder `{Database} : PreOrder unchanged.
Proof. split; [by intros d | intros d1 d2 d3 H1 H2; unfold unchanged in *; by rewrite H2]. Qed.

Lemma select_unchanged `{Database} t cs w order limit :
  effect unchanged (fetch_all (Select t cs w order limit)).
Proof. intros d out d' Hf. by apply fetch_Select_Ok in Hf as [Hs _]. Qed.

#[export] Hint Resolve select_unchanged : effects.

(** The one row a query finds, as its repository reads it. *)
Definition reads `{Database} {E A : Type} (t : Table) (w : list cond) (f : list sqlval → result E A)
    (d : db) (a : A) : Prop :=
  ∃ r, found d t w = Some r ∧ f (project (columns t) r) = Ok a.

Lemma reads_same `{Database} {E A : Type} t w (f : list sqlval → result E A) d d' a :
  rows d' t = rows d t → reads t w f d' a → reads t w f d a.
Proof. intros Hr. unfold reads, found. by rewrite Hr. Qed.

Lemma select_reads `{Database} {R A : Type} t w absent (f : list sqlval → result (store_failure R) A) d a d' :
  (found ← sql (one_or_none (Select t (columns t) w [] None));
   row ← pure (or_raise found absent);
   pure (f row)) d = Ok (a, d') →
  d' ≡ d ∧ reads t w f d a.
Proof.
  intros Hl. run_tx. subst.
  match goal with H : one_or_none _ _ = _ |- _ => apply select_found in H as [Hs Hf] end.
  split; [done|]. unfold reads. destruct (found d t w) as [r|]; [|done].
  injection Hf as ->. eauto.
Qed.

(** An operation written out as [record_fact] is, once its statements are unfolded. *)
Ltac is_record_fact :=
  unfold record_fact, fact_insert, fact_select, fact_conds, mbind, tx_bind;
  cbn [fact_read fact_id fact_values fact_table fact_key fact_id_column];
  repeat match goal with
  | |- match ?m with Ok _ => _ | Err _ => _ end = _ => destruct m as [[[|] ?]|]; try done
  | |- match ?m with Ok _ => _ | Err _ => _ end = _ => destruct m as [[? ?]|]; try done
  end.

Inductive ProposalDecision : Set := STORED | DUPLICATE.

Inductive ProposalRefusal : Set := PROPOSAL_VANISHED | IDENTITY_CONFLICT | NOT_FOUND | UNREADABLE_ROW.

Record StoredProposal : Set := {
  proposal_id : string; mission_id : string; source_event_id : string; source_event_digest : string;
  agent_name : string; invocation_id : string; proposal_type : string; proposal_digest : string;
  payload : string; drone_id : string; latitude_microdegrees : Z; longitude_microdegrees : Z;
  command_type : string; issued_at : string; sequence : Z; correlation_id : string;
  causation_id : option string; traceparent : string
}.

#[export] Instance StoredProposal_eq_dec : EqDecision StoredProposal.
Proof. solve_decision. Defined.

Definition proposal_values (p : StoredProposal) : row :=
  [("proposal_id", SText (proposal_id p)); ("mission_id", SText (mission_id p));
   ("source_event_id", SText (source_event_id p));
   ("source_event_digest", SText (source_event_digest p)); ("agent_name", SText (agent_name p));
   ("invocation_id", SText (invocation_id p)); ("proposal_type", SText (proposal_type p));
   ("proposal_digest", SText (proposal_digest p)); ("payload", SBytes (payload p));
   ("drone_id", SText (drone_id p)); ("latitude_microdegrees", SInt (latitude_microdegrees p));
   ("longitude_microdegrees", SInt (longitude_microdegrees p));
   ("command_type", SText (command_type p)); ("issued_at", SText (issued_at p));
   ("sequence", SInt (sequence p)); ("correlation_id", SText (correlation_id p));
   ("causation_id", text_or_null (causation_id p)); ("traceparent", SText (traceparent p))].

Definition proposal_conds (id : string) : list cond := [Equals "proposal_id" (SText id)].

Definition record_statement (p : StoredProposal) : statement :=
  Insert PROPOSAL (proposal_values p) (DoNothing (Some ["proposal_id"])) ["proposal_id"].

Definition load_statement (id : string) : statement :=
  Select PROPOSAL (columns PROPOSAL) (proposal_conds id) [] None.

(** [_stored] *)
Definition stored (id : string) (row : list sqlval) : result (store_failure ProposalRefusal) StoredProposal :=
  match row with
  | [SText a; SText b; SText c; SText d; SText e; SText f; SText g; SText h; SBytes body; SText i;
     SInt lat; SInt lon; SText j; SText k; SInt n; SText l; (SNull | SText _) as causation; SText m] =>
      Ok {| proposal_id := a; mission_id := b; source_event_id := c; source_event_digest := d;
            agent_name := e; invocation_id := f; proposal_type := g; proposal_digest := h;
            payload := body; drone_id := i; latitude_microdegrees := lat;
            longitude_microdegrees := lon; command_type := j; issued_at := k; sequence := n;
            correlation_id := l;
            causation_id := match causation with SText x => Some x | _ => None end;
            traceparent := m |}
  | _ => refuse UNREADABLE_ROW (PyStr id)
  end.

#[export] Program Instance proposal_fact : Fact StoredProposal ProposalRefusal := {|
  fact_table := PROPOSAL; fact_key := ["proposal_id"]; fact_id_column := "proposal_id";
  fact_id := proposal_id; fact_values := proposal_values; fact_read := stored
|}.
Next Obligation. by_decide. Qed.
Next Obligation.
  intros a x. cbn [selects same_key forallb holds]. cells. by rewrite (sql_eq_comm (cell x _)).
Qed.
Next Obligation. done. Qed.
Next Obligation.
  intros a. unfold project. change (columns PROPOSAL) with ((proposal_values a).*1). cbn [fmap list_fmap fst].
  cells. by destruct a as [? ? ? ? ? ? ? ? ? ? ? ? ? ? ? ? [|] ?].
Qed.

Section proposals.
Context `{Database}.

Definition record (p : StoredProposal) : tx (store_failure ProposalRefusal) ProposalDecision :=
  inserted ← sql (scalar (record_statement p));
  match inserted with
  | Some _ => mret STORED
  | None =>
      found ← sql (one_or_none (load_statement (proposal_id p)));
      row ← pure (or_raise found (Refused PROPOSAL_VANISHED (PyStr (proposal_id p))));
      kept ← pure (stored (proposal_id p) row);
      pure (raise_if (bool_decide (kept ≠ p)) (Refused IDENTITY_CONFLICT (PyStr (proposal_id p)))) ;;
      mret DUPLICATE
  end.

Definition load (id : string) : tx (store_failure ProposalRefusal) StoredProposal :=
  found ← sql (one_or_none (load_statement id));
  row ← pure (or_raise found (Refused NOT_FOUND (PyStr id)));
  pure (stored id row).

Lemma proposal_load_is_fact id : load id = load_fact NOT_FOUND id.
Proof. done. Qed.

Lemma proposal_record_is_fact p d :
  record p d = (new ← record_fact PROPOSAL_VANISHED IDENTITY_CONFLICT p;
                mret (if new : bool then STORED else DUPLICATE)) d.
Proof. unfold record, record_statement, load_statement, proposal_conds, proposal_fact. is_record_fact. Qed.

Lemma proposal_record_keeps p d o d' :
  consistent d → record p d = Ok (o, d') →
  keeps d' p ∧ ∀ id r, fact_entry d id = Some r → fact_entry d' id = Some r.
Proof.
  intros Hd Hr. rewrite proposal_record_is_fact in Hr. run_tx. subst.
  by eapply record_fact_keeps.
Qed.

Lemma proposal_record_effect p : effect stays_consistent (record p).
Proof. unfold record, record_statement, load_statement. effects. Qed.

Lemma proposal_record_confined p : effect (confined [PROPOSAL]) (record p).
Proof. unfold record, record_statement, load_statement. effects. Qed.

Lemma proposal_load_effect id : effect unchanged (load id).
Proof. unfold load, load_statement. effects. Qed.
End proposals.
