(* ===== verification/StoreInvocations.v ===== *)
(** * Pending invocations

    [packages/store/src/aerial_rescue_store/pending_invocations.py]: the trusted context of an
    invocation is stored once before model work starts, under the same discipline as
    proposals.  Implements [StoreProposals.Fact]. *)

From S2P Require Import Prelude PyVal Sql Schema StoreProposals.
Local Open Scope string_scope.
Local Open Scope Z_scope.

Inductive PendingInvocationDecision : Set := STORED | DUPLICATE.

Inductive PendingInvocationRefusal : Set := CLAIM_VANISHED | IDENTITY_CONFLICT | NOT_FOUND | UNREADABLE_ROW.

Record StoredPendingInvocation : Set := {
  invocation_id : string; mission_id : string; agent_name : string; correlation_id : string;
  source_event_id : string; source_event_digest : string
}.

#[export] Instance StoredPendingInvocation_eq_dec : EqDecision StoredPendingInvocation.
Proof. solve_decision. Defined.

Definition invocation_values (i : StoredPendingInvocation) : row :=
  [("invocation_id", SText (invocation_id i)); ("mission_id", SText (mission_id i));
   ("agent_name", SText (agent_name i)); ("correlation_id", SText (correlation_id i));
   ("source_event_id", SText (source_event_id i));
   ("source_event_digest", SText (source_event_digest i))].

Definition record_statement (i : StoredPendingInvocation) : statement :=
  Insert PENDING_INVOCATION (invocation_values i) (DoNothing (Some ["invocation_id"])) ["invocation_id"].

Definition load_statement (id : string) : statement :=
  Select PENDING_INVOCATION (columns PENDING_INVOCATION) [Equals "invocation_id" (SText id)] [] None.

(** [_stored] *)
Definition stored (id : string) (row : list sqlval)
    : result (store_failure PendingInvocationRefusal) StoredPendingInvocation :=
  match row with
  | [SText a; SText b; SText c; SText d; SText e; SText f] =>
      Ok {| invocation_id := a; mission_id := b; agent_name := c; correlation_id := d;
            source_event_id := e; source_event_digest := f |}
  | _ => refuse UNREADABLE_ROW (PyStr id)
  end.

#[export] Program Instance invocation_fact : Fact StoredPendingInvocation PendingInvocationRefusal := {|
  fact_table := PENDING_INVOCATION; fact_key := ["invocation_id"]; fact_id_column := "invocation_id";
  fact_id := invocation_id; fact_values := invocation_values; fact_read := stored
|}.
Next Obligation. by_decide. Qed.
Next Obligation.
  intros a x. cbn [selects same_key forallb holds]. cells. by rewrite (sql_eq_comm (cell x _)).
Qed.
Next Obligation. done. Qed.
Next Obligation.
  intros a. unfold project. change (columns PENDING_INVOCATION) with ((invocation_values a).*1).
  cbn [fmap list_fmap fst]. cells. by destruct a.
Qed.

Section invocations.
Context `{Database}.

Definition record (i : StoredPendingInvocation)
    : tx (store_failure PendingInvocationRefusal) PendingInvocationDecision :=
  inserted ← sql (scalar (record_statement i));
  match inserted with
  | Some _ => mret STORED
  | None =>
      found ← sql (one_or_none (load_statement (invocation_id i)));
      row ← pure (or_raise found (Refused CLAIM_VANISHED (PyStr (invocation_id i))));
      kept ← pure (stored (invocation_id i) row);
      pure (raise_if (bool_decide (kept ≠ i)) (Refused IDENTITY_CONFLICT (PyStr (invocation_id i)))) ;;
      mret DUPLICATE
  end.

Definition load (id : string) : tx (store_failure PendingInvocationRefusal) StoredPendingInvocation :=
  found ← sql (one_or_none (load_statement id));
  row ← pure (or_raise found (Refused NOT_FOUND (PyStr id)));
  pure (stored id row).

Lemma invocation_load_is_fact id : load id = load_fact NOT_FOUND id.
Proof. done. Qed.

Lemma invocation_record_is_fact i d :
  record i d = (new ← record_fact CLAIM_VANISHED IDENTITY_CONFLICT i;
                mret (if new : bool then STORED else DUPLICATE)) d.
Proof. unfold record, record_statement, load_statement, invocation_fact. is_record_fact. Qed.

Lemma invocation_record_effect i : effect stays_consistent (record i).
Proof. unfold record, record_statement, load_statement. effects. Qed.

Lemma invocation_record_confined i : effect (confined [PENDING_INVOCATION]) (record i).
Proof. unfold record, record_statement, load_statement. effects. Qed.

Lemma invocation_load_effect id : effect unchanged (load id).
Proof. unfold load, load_statement. effects. Qed.
End invocations.
