(* ===== verification/StoreEvents.v ===== *)
(** * The application outbox

    [packages/store/src/aerial_rescue_store/application_outbox.py]: a producer's events are
    staged once per identity, read back oldest first in batches of fifty, and moved along the
    edges of [Outbox] by compare-and-set, with a confirmation instant exactly when confirmed. *)

From S2P Require Import Prelude PyStr PyVal Lifecycle Outbox Sql Schema StoreProposals.
Local Open Scope string_scope.
Local Open Scope Z_scope.

Definition APPLICATION_OUTBOX_BATCH_SIZE : Z := 50.

Inductive ApplicationOutboxRefusal : Set :=
| ALREADY_STAGED | UNREADABLE_ROW | CONFIRMATION_EVIDENCE | NOT_IN_EXPECTED_STATE.

Record StagedApplicationEvent : Set := {
  producer : string; event_id : string; family : string; topic : string; headers : string;
  payload : string; traceparent : string; tracestate : option string; correlation_id : string;
  causation_id : option string; staged_at : string
}.

Record ApplicationEventIdentity : Set := { of_producer : string; of_event : string }.

(** The values of [OutboxState]. *)
Definition state_value (s : OutboxState) : string :=
  match s with
  | Outbox.STAGED => "staged" | Outbox.RECONCILIATION_NEEDED => "reconciliation needed"
  | Outbox.CONFIRMED => "confirmed"
  end.

(** A repository error, or the domain's refusal of the move, unchanged. *)
Inductive event_failure : Type :=
| Store (e : store_failure ApplicationOutboxRefusal)
| Domain (e : OutboxError).

Definition staged_values (e : StagedApplicationEvent) : row :=
  [("producer", SText (producer e)); ("event_id", SText (event_id e)); ("family", SText (family e));
   ("topic", SText (topic e)); ("headers", SBytes (headers e)); ("payload", SBytes (payload e));
   ("state", SText (state_value Outbox.INITIAL_STATE)); ("traceparent", SText (traceparent e));
   ("tracestate", text_or_null (tracestate e)); ("correlation_id", SText (correlation_id e));
   ("causation_id", text_or_null (causation_id e)); ("staged_at", SText (staged_at e));
   ("confirmed_at", SNull)].

Definition identity_columns : list string := ["producer"; "event_id"].
Definition identity_conds (p e : string) : list cond :=
  [Equals "producer" (SText p); Equals "event_id" (SText e)].

Definition stage_statement (e : StagedApplicationEvent) : statement :=
  Insert APPLICATION_OUTBOX (staged_values e) (DoNothing (Some identity_columns)) ["event_id"].

Definition staged_statement (i : ApplicationEventIdentity) : statement :=
  Select APPLICATION_OUTBOX ["event_id"] (identity_conds (of_producer i) (of_event i)) [] None.

Definition selection_statement (p : string) (s : OutboxState) : statement :=
  Select APPLICATION_OUTBOX (columns APPLICATION_OUTBOX)
         [Equals "producer" (SText p); Equals "state" (SText (state_value s))]
         ["staged_at"; "event_id"] (Some APPLICATION_OUTBOX_BATCH_SIZE).

Definition pending_statement (p : string) : statement := selection_statement p STAGED.
Definition reconciliation_statement (p : string) : statement := selection_statement p RECONCILIATION_NEEDED.

Definition moved_values (became : OutboxState) (confirmed_at : option string) : row :=
  [("state", SText (state_value became)); ("confirmed_at", text_or_null confirmed_at)].

Definition publication_statement (p e : string) (was became : OutboxState)
    (confirmed_at : option string) : statement :=
  Update APPLICATION_OUTBOX (identity_conds p e ++ [Equals "state" (SText (state_value was))])%list
         (moved_values became confirmed_at) ["event_id"].

(** [_stored] *)
Definition stored (expected : OutboxState) (row : list sqlval)
    : result (store_failure ApplicationOutboxRefusal) StagedApplicationEvent :=
  match row with
  | [SText p; SText e; SText f; SText t; SBytes h; SBytes b; SText s; SText trace;
     (SNull | SText _) as state_; SText correlation; (SNull | SText _) as causation; SText at_; SNull] =>
      if negb (bool_decide (s = state_value expected)) then refuse UNREADABLE_ROW (PyStr e) else
      Ok {| producer := p; event_id := e; family := f; topic := t; headers := h; payload := b;
            traceparent := trace;
            tracestate := match state_ with SText x => Some x | _ => None end;
            correlation_id := correlation;
            causation_id := match causation with SText x => Some x | _ => None end;
            staged_at := at_ |}
  | [_; e; _; _; _; _; _; _; _; _; _; _; _] => refuse UNREADABLE_ROW (py e)
  | _ => refuse UNREADABLE_ROW (PyStr "shape")
  end.

Section events.
Context `{Database}.

Definition stage (e : StagedApplicationEvent) : tx (store_failure ApplicationOutboxRefusal) unit :=
  staged ← sql (scalar (stage_statement e));
  pure (raise_if (bool_decide (staged = None)) (Refused ALREADY_STAGED (PyStr (event_id e)))).

Definition is_staged (i : ApplicationEventIdentity) : tx (store_failure ApplicationOutboxRefusal) bool :=
  rows ← sql (fetch_all (staged_statement i));
  mret (0 <? length rows)%nat.

Definition pending (p : string)
    : tx (store_failure ApplicationOutboxRefusal) (list StagedApplicationEvent) :=
  rows ← sql (fetch_all (pending_statement p));
  pure (map_ok (stored STAGED) rows).

Definition reconciliation (p : string)
    : tx (store_failure ApplicationOutboxRefusal) (list StagedApplicationEvent) :=
  rows ← sql (fetch_all (reconciliation_statement p));
  pure (map_ok (stored RECONCILIATION_NEEDED) rows).

Definition record_publication (i : ApplicationEventIdentity) (was : OutboxState) (event : OutboxEvent)
    (confirmed_at : option string) : tx event_failure OutboxState :=
  became ← pure (map_err Domain (Outbox.transition was event));
  pure (raise_if (negb (Bool.eqb (bool_decide (became = CONFIRMED)) (bool_decide (confirmed_at ≠ None))))
                 (Store (Refused CONFIRMATION_EVIDENCE (PyStr (of_event i))))) ;;
  changed ← lift Store (sql (scalar
              (publication_statement (of_producer i) (of_event i) was became confirmed_at)));
  pure (raise_if (bool_decide (changed = None))
                 (Store (Refused NOT_IN_EXPECTED_STATE (PyStr (of_event i))))) ;;
  mret became.

(** ** The table *)

Definition event_entry (d : db) (p e : string) : option row :=
  found d APPLICATION_OUTBOX (identity_conds p e).

Definition event_row (e : StagedApplicationEvent) : row := make_row APPLICATION_OUTBOX (staged_values e).

Lemma event_names e : names_key identity_columns (identity_conds (producer e) (event_id e)) (event_row e).
Proof.
  intros x. cbn [selects identity_conds same_key identity_columns forallb holds]. cells.
  by rewrite (sql_eq_comm (cell x "producer")), (sql_eq_comm (cell x "event_id")).
Qed.

(** A new identity is staged; an existing one raises. *)
Lemma stage_event_Ok e u d d' :
  consistent d → stage e d = Ok (u, d') →
  event_entry d (producer e) (event_id e) = None ∧
  replaces d APPLICATION_OUTBOX (rows d APPLICATION_OUTBOX ++ [event_row e])%list d'.
Proof.
  intros Hd Hs. unfold stage in Hs. run_tx. subst. bools.
  match goal with H : scalar _ _ = _ |- _ =>
    apply (insert_found APPLICATION_OUTBOX d identity_columns
             (identity_conds (producer e) (event_id e))) in H as [_ Hi];
      [|done|done|apply event_names|done] end.
  fold (event_entry d (producer e) (event_id e)) in Hi.
  destruct (event_entry d (producer e) (event_id e)); naive_solver.
Qed.

(** A staged event stays staged, whatever else is. *)
Lemma stage_event_keeps e u d d' p i r :
  consistent d → stage e d = Ok (u, d') → event_entry d p i = Some r → event_entry d' p i = Some r.
Proof.
  intros Hd Hs Hr. apply stage_event_Ok in Hs as [_ Hs]; [|done].
  unfold event_entry in *. by rewrite (found_snoc _ _ _ _ _ Hs), Hr.
Qed.

Lemma stage_event_effect e : effect stays_consistent (stage e).
Proof. unfold stage, stage_statement. effects. Qed.

Lemma stage_event_confined e : effect (confined [APPLICATION_OUTBOX]) (stage e).
Proof. unfold stage, stage_statement. effects. Qed.

Lemma event_publication_effect i was event at_ :
  effect stays_consistent (record_publication i was event at_).
Proof. unfold record_publication, publication_statement. effects. Qed.

Lemma event_publication_confined i was event at_ :
  effect (confined [APPLICATION_OUTBOX]) (record_publication i was event at_).
Proof. unfold record_publication, publication_statement. effects. Qed.

(** A recorded publication moves the rows of its identity that are in the state it names. *)
Lemma event_publication_rows i was event at_ became d d' :
  record_publication i was event at_ d = Ok (became, d') →
  replaces d APPLICATION_OUTBOX
    (update_rows (identity_conds (of_producer i) (of_event i) ++ [Equals "state" (SText (state_value was))])%list
                 (moved_values became at_) (rows d APPLICATION_OUTBOX)) d'.
Proof.
  intros Hp. unfold record_publication in Hp. run_tx. subst.
  match goal with H : scalar _ _ = _ |- _ =>
    apply (update_Ok APPLICATION_OUTBOX _ _ "event_id" (SText (of_event i))) in H as (_&_&Hu);
      [exact Hu|done|cbn; rewrite !elem_of_cons; tauto|by_decide] end.
Qed.

Lemma pending_events_effect p : effect unchanged (pending p).
Proof. unfold pending, pending_statement, selection_statement. effects. Qed.
End events.
