(* ===== verification/StoreProgress.v ===== *)
(** * Durable command progress

    [packages/store/src/aerial_rescue_store/command_progress.py]: one row per command holds the
    progress of [Commands] and the facts of its last transition.  A transition is a
    compare-and-set over the state and the send count, so a dispatcher with a stale copy
    changes nothing: the row only ever moves as the domain's machine does. *)

From stdpp Require Import relations.
From S2P Require Import Prelude PyStr PyVal Lifecycle Commands Sql Schema StoreProposals.
Local Open Scope string_scope.
Local Open Scope Z_scope.

Definition MAXIMUM_SEND_COUNT : Z := 5.

Inductive CommandProgressRefusal : Set :=
| ALREADY_EXISTS | NOT_FOUND | UNREADABLE_ROW | SEND_COUNT_OUT_OF_RANGE | STALE_PROGRESS.

Record CommandIdentity : Set := { command_id : string; mission_id : string; drone_id : string }.

Record TransitionFacts : Set := {
  last_sent_at : option string; deadline_at : option string; result_id : option string;
  updated_at : string
}.

Record StoredCommandProgress : Set := {
  identity : CommandIdentity; progress : CommandProgress; facts : TransitionFacts
}.

(** A repository error, or the domain's refusal of the event, unchanged. *)
Inductive progress_failure : Type :=
| Store (e : store_failure CommandProgressRefusal)
| Domain (e : CommandError).

Definition initial_values (i : CommandIdentity) (at_ : string) : row :=
  [("command_id", SText (command_id i)); ("mission_id", SText (mission_id i));
   ("drone_id", SText (drone_id i)); ("state", SText (state_value (state INITIAL_PROGRESS)));
   ("send_count", SInt (sends INITIAL_PROGRESS)); ("last_sent_at", SNull); ("deadline_at", SNull);
   ("result_id", SNull); ("updated_at", SText at_)].

Definition progress_columns : list string := ["command_id"].
Definition progress_conds (id : string) : list cond := [Equals "command_id" (SText id)].

Definition initialize_statement (i : CommandIdentity) (at_ : string) : statement :=
  Insert COMMAND_PROGRESS (initial_values i at_) (DoNothing (Some progress_columns)) ["command_id"].

Definition load_statement (id : string) : statement :=
  Select COMMAND_PROGRESS (columns COMMAND_PROGRESS) (progress_conds id) [] None.

Definition compared_conds (p : CommandProgress) : list cond :=
  [Equals "state" (SText (state_value (state p))); Equals "send_count" (SInt (sends p))].

Definition moved_values (became : CommandProgress) (f : TransitionFacts) : row :=
  [("state", SText (state_value (state became))); ("send_count", SInt (sends became));
   ("last_sent_at", text_or_null (last_sent_at f)); ("deadline_at", text_or_null (deadline_at f));
   ("result_id", text_or_null (result_id f)); ("updated_at", SText (updated_at f))].

Definition transition_statement (current : StoredCommandProgress) (became : CommandProgress)
    (f : TransitionFacts) : statement :=
  Update COMMAND_PROGRESS
    (progress_conds (command_id (identity current)) ++ compared_conds (progress current))%list
    (moved_values became f) ["command_id"].

Definition optional_text (v : sqlval) : option string := match v with SText s => Some s | _ => None end.

(** [_stored] *)
Definition stored (id : string) (row : list sqlval)
    : result (store_failure CommandProgressRefusal) StoredCommandProgress :=
  let unreadable := refuse UNREADABLE_ROW (PyStr id) in
  match row with
  | [SText c; SText m; SText d; SText s; SInt n; (SNull | SText _) as sent; (SNull | SText _) as deadline;
     (SNull | SText _) as found; SText at_] =>
      if negb ((0 <=? n) && (n <=? MAXIMUM_SEND_COUNT)) then unreadable else
      match enum_of state_value (enum CommandState) (SText s) with
      | None => unreadable
      | Some st =>
          Ok {| identity := {| command_id := c; mission_id := m; drone_id := d |};
                progress := {| state := st; sends := n |};
                facts := {| last_sent_at := optional_text sent; deadline_at := optional_text deadline;
                            result_id := optional_text found; updated_at := at_ |} |}
      end
  | _ => unreadable
  end.

Section progress.
Context `{Database}.

Definition initialize (i : CommandIdentity) (at_ : string)
    : tx (store_failure CommandProgressRefusal) StoredCommandProgress :=
  inserted ← sql (scalar (initialize_statement i at_));
  pure (raise_if (bool_decide (inserted = None)) (Refused ALREADY_EXISTS (PyStr (command_id i)))) ;;
  mret {| identity := i; progress := INITIAL_PROGRESS;
          facts := {| last_sent_at := None; deadline_at := None; result_id := None;
                      updated_at := at_ |} |}.

Definition load (id : string) : tx (store_failure CommandProgressRefusal) StoredCommandProgress :=
  found ← sql (one_or_none (load_statement id));
  row ← pure (or_raise found (Refused NOT_FOUND (PyStr id)));
  pure (stored id row).

Definition in_range (n : Z) : bool := (0 <=? n) && (n <=? MAXIMUM_SEND_COUNT).

Definition record_transition (current : StoredCommandProgress) (event : CommandEvent)
    (budget : SendBudget) (f : TransitionFacts) : tx progress_failure StoredCommandProgress :=
  pure (raise_if (negb (in_range (sends (progress current))))
         (Store (Refused SEND_COUNT_OUT_OF_RANGE (PyInt (sends (progress current)))))) ;;
  became ← pure (map_err Domain (advance (progress current) event budget));
  pure (raise_if (negb (in_range (sends became)))
         (Store (Refused SEND_COUNT_OUT_OF_RANGE (PyInt (sends became))))) ;;
  changed ← lift Store (sql (scalar (transition_statement current became f)));
  pure (raise_if (bool_decide (changed = None))
         (Store (Refused STALE_PROGRESS (PyStr (command_id (identity current)))))) ;;
  mret {| identity := identity current; progress := became; facts := f |}.

(** ** The table *)

Definition progress_entry (d : db) (id : string) : option row :=
  found d COMMAND_PROGRESS (progress_conds id).

Definition initial_row (i : CommandIdentity) (at_ : string) : row :=
  make_row COMMAND_PROGRESS (initial_values i at_).

(** The row holds this progress. *)
Definition stands_at (r : row) (p : CommandProgress) : Prop :=
  cell r "state" = SText (state_value (state p)) ∧ cell r "send_count" = SInt (sends p).

Lemma progress_names i at_ :
  names_key progress_columns (progress_conds (command_id i)) (initial_row i at_).
Proof.
  intros x. cbn [selects progress_conds same_key progress_columns forallb holds]. cells.
  by rewrite (sql_eq_comm (cell x _)).
Qed.

Lemma progress_names_any id : ∃ r, names_key progress_columns (progress_conds id) r.
Proof.
  eexists. exact (progress_names {| command_id := id; mission_id := ""; drone_id := "" |} "").
Qed.

Lemma progress_value_inj s s' : state_value s = state_value s' → s = s'.
Proof. by destruct s, s'. Qed.

Lemma stands_at_unique r p p' : stands_at r p → stands_at r p' → p = p'.
Proof.
  intros [Hs Hn] [Hs' Hn']. destruct p, p'; cbn in *. f_equal; [apply progress_value_inj|]; congruence.
Qed.

Lemma initialize_Ok i at_ o d d' :
  consistent d → initialize i at_ d = Ok (o, d') →
  progress_entry d (command_id i) = None ∧
  replaces d COMMAND_PROGRESS (rows d COMMAND_PROGRESS ++ [initial_row i at_])%list d'.
Proof.
  intros Hd Hi. unfold initialize in Hi. run_tx. subst. bools.
  match goal with H : scalar _ _ = _ |- _ =>
    apply (insert_found COMMAND_PROGRESS d progress_columns (progress_conds (command_id i)))
      in H as [_ Hs]; [|done|done|apply progress_names|done] end.
  fold (progress_entry d (command_id i)) in Hs.
  destruct (progress_entry d (command_id i)); naive_solver.
Qed.

Lemma transition_Ok current event budget f o d d' :
  consistent d → record_transition current event budget f d = Ok (o, d') →
  ∃ became r,
    advance (progress current) event budget = Ok became ∧
    progress_entry d (command_id (identity current)) = Some r ∧ stands_at r (progress current) ∧
    replaces d COMMAND_PROGRESS
      (update_rows (progress_conds (command_id (identity current))) (moved_values became f)
                   (rows d COMMAND_PROGRESS)) d'.
Proof.
  intros Hd Ht. unfold record_transition in Ht. run_tx. subst. bools.
  destruct (progress_names_any (command_id (identity current))) as [r0 Hr0].
  match goal with H : scalar _ _ = _ |- _ => unfold transition_statement in H;
    apply (update_found COMMAND_PROGRESS d progress_columns _ _ r0 _ _
             (SText (command_id (identity current)))) in H as Hu
  end; [|done|done|done|done|left|by_decide].
  fold (progress_entry d (command_id (identity current))) in Hu.
  destruct (progress_entry d (command_id (identity current))) as [r|]; [|naive_solver].
  destruct (selects _ r) eqn:Hs; [|naive_solver]. destruct Hu as (_&_&Hr).
  eexists _, r. split; [done|]. split; [done|]. split; [|done].
  cbn [selects compared_conds forallb holds] in Hs. rewrite andb_true_r in Hs.
  apply andb_true_iff in Hs as [[_ Hc1]%sql_eq_true [_ Hc2]%sql_eq_true]. done.
Qed.

(** The domain refuses before any statement runs. *)
Lemma transition_refused {A} (k : StoredCommandProgress → A) current event budget f d e :
  (became ← record_transition current event budget f; mret (k became)) d = Err (Domain e) →
  advance (progress current) event budget = Err e.
Proof.
  intros [Hr|(?&?&_&Hr)]%tx_bind_Err; [|done]. unfold record_transition in Hr.
  apply tx_bind_Err in Hr as [Hr|(?&?&_&Hr)]; [apply pure_Err, raise_if_Err in Hr as [_ Hr]; done|].
  apply tx_bind_Err in Hr as [Hr|(became&?&_&Hr)].
  { apply pure_Err, map_err_Err in Hr as (e'&Hr&[= ->]). done. }
  repeat (apply tx_bind_Err in Hr as [Hr|(?&?&_&Hr)]).
  - by apply pure_Err, raise_if_Err in Hr as [_ Hr].
  - by apply lift_Err in Hr as (?&_&Hr).
  - by apply pure_Err, raise_if_Err in Hr as [_ Hr].
  - done.
Qed.

Lemma initialize_effect i at_ : effect stays_consistent (initialize i at_).
Proof. unfold initialize, initialize_statement. effects. Qed.

Lemma initialize_confined i at_ : effect (confined [COMMAND_PROGRESS]) (initialize i at_).
Proof. unfold initialize, initialize_statement. effects. Qed.

Lemma progress_load_effect id : effect unchanged (load id).
Proof. unfold load, load_statement. effects. Qed.

Lemma transition_effect c e b f : effect stays_consistent (record_transition c e b f).
Proof. unfold record_transition, transition_statement. effects. Qed.

Lemma transition_confined c e b f : effect (confined [COMMAND_PROGRESS]) (record_transition c e b f).
Proof. unfold record_transition, transition_statement. effects. Qed.

(** ** Histories: each call its own transaction *)

Inductive progress_call : Set :=
| Initialize (i : CommandIdentity) (at_ : string)
| Transition (current : StoredCommandProgress) (event : CommandEvent) (f : TransitionFacts).

Definition called (b : SendBudget) (d : db) (c : progress_call) : db :=
  match c with
  | Initialize i at_ => (transaction (initialize i at_) d).2
  | Transition current event f => (transaction (record_transition current event b f) d).2
  end.

(** Every row is a command the machine brought from its initial progress to where it stands. *)
Definition driven (b : SendBudget) (d : db) : Prop :=
  ∀ id r, progress_entry d id = Some r →
    ∃ p, stands_at r p ∧ rtc (advances b) INITIAL_PROGRESS p.

(** The same command, moved by the machine. *)
Definition moved (b : SendBudget) (d d' : db) : Prop :=
  ∀ id r p, progress_entry d id = Some r → stands_at r p →
    ∃ r' p', progress_entry d' id = Some r' ∧ stands_at r' p' ∧ rtc (advances b) p p' ∧
             ∀ c, c ∈ ["command_id"; "mission_id"; "drone_id"] → cell r' c = cell r c.

Lemma moved_refl b d : moved b d d.
Proof. intros id r p Hr Hp. exists r, p. by split_and!. Qed.

Lemma moved_trans b d1 d2 d3 : moved b d1 d2 → moved b d2 d3 → moved b d1 d3.
Proof.
  intros H1 H2 id r p Hr Hp. destruct (H1 id r p Hr Hp) as (r1&p1&Hr1&Hp1&Hs1&Hc1).
  destruct (H2 id r1 p1 Hr1 Hp1) as (r2&p2&Hr2&Hp2&Hs2&Hc2). exists r2, p2.
  split_and!; [done|done|by etransitivity|]. intros c Hc. by rewrite Hc2, Hc1.
Qed.

Lemma initial_stands i at_ : stands_at (initial_row i at_) INITIAL_PROGRESS.
Proof. done. Qed.

Lemma initialize_moves b i at_ o d d' :
  consistent d → driven b d → initialize i at_ d = Ok (o, d') → driven b d' ∧ moved b d d'.
Proof.
  intros Hd Hdr Hi. apply initialize_Ok in Hi as [_ Hr]; [|done].
  assert (Hf : ∀ id, progress_entry d' id = match progress_entry d id with
            | Some x => Some x
            | None => if selects (progress_conds id) (initial_row i at_)
                      then Some (initial_row i at_) else None
            end) by (intros id; apply (found_snoc _ _ _ _ _ Hr)).
  split.
  - intros id r Hid. rewrite Hf in Hid. destruct (progress_entry d id) as [x|] eqn:Hx.
    + injection Hid as <-. by eapply Hdr.
    + destruct (selects _ _); [|done]. injection Hid as <-. exists INITIAL_PROGRESS. done.
  - intros id r p Hid Hp. exists r, p. rewrite Hf, Hid. by split_and!.
Qed.

Lemma moved_cells became f r c :
  c ∈ ["command_id"; "mission_id"; "drone_id"] → cell (assign (moved_values became f) r) c = cell r c.
Proof.
  intros Hc. apply cell_assign_frame. revert Hc. cbn.
  rewrite !elem_of_cons, !elem_of_nil. naive_solver.
Qed.

Lemma moved_stands became f r : stands_at (assign (moved_values became f) r) became.
Proof.
  unfold stands_at, assign, moved_values. cbn [foldl fst snd]. rewrite !cell_dict_set. done.
Qed.

(** A loaded progress is its row's, under the row's own identity. *)
Lemma progress_reads id d cur :
  StoreProposals.reads COMMAND_PROGRESS (progress_conds id) (stored id) d cur →
  ∃ r, progress_entry d id = Some r ∧ stands_at r (progress cur) ∧
       cell r "command_id" = SText (command_id (identity cur)) ∧
       cell r "mission_id" = SText (mission_id (identity cur)) ∧
       cell r "drone_id" = SText (drone_id (identity cur)).
Proof.
  intros (r&Hr&Hs). exists r. split; [done|]. unfold project in Hs.
  change (columns COMMAND_PROGRESS) with ((initial_values (identity cur) "").*1) in Hs.
  cbn [initial_values fmap list_fmap fst] in Hs. unfold stored in Hs.
  destruct (cell r "command_id"), (cell r "mission_id"), (cell r "drone_id"),
    (cell r "state") as [| |st|] eqn:Hst, (cell r "send_count") eqn:Hn; try done.
  destruct (cell r "last_sent_at"); try done; destruct (cell r "deadline_at"); try done;
  destruct (cell r "result_id"); try done; destruct (cell r "updated_at"); try done;
  (destruct (negb _); [done|]; destruct (enum_of _ _ _) as [st'|] eqn:He; [|done];
   injection Hs as <-; cbn [progress identity state sends command_id mission_id drone_id];
   split; [|done]; unfold stands_at; cbn [state sends]; rewrite Hst, Hn; split; [|done];
   apply enum_of_Some in He as [He _]; congruence).
Qed.

(** A transition moves one row and leaves the others. *)
Lemma transition_row current event b f o d d' :
  consistent d → record_transition current event b f d = Ok (o, d') →
  ∃ became r, advance (progress current) event b = Ok became ∧
    progress_entry d (command_id (identity current)) = Some r ∧ stands_at r (progress current) ∧
    progress_entry d' (command_id (identity current)) = Some (assign (moved_values became f) r) ∧
    ∀ id, id ≠ command_id (identity current) → progress_entry d' id = progress_entry d id.
Proof.
  intros Hd Ht. apply transition_Ok in Ht as (became&r&Ha&Hr0&Hp0&Hr); [|done].
  set (w := progress_conds (command_id (identity current))) in *.
  assert (Hf : ∀ id, progress_entry d' id =
            (λ x, if selects w x then assign (moved_values became f) x else x) <$> progress_entry d id)
    by (intros id; apply (found_update _ _ _ _ _ _ Hr); done).
  exists became, r. split_and!; [done..| |].
  - rewrite Hf, Hr0. cbv [fmap option_fmap option_map]. apply found_Some in Hr0 as [_ Hs].
    by fold w in Hs; rewrite Hs.
  - intros id Hid. rewrite Hf. destruct (progress_entry d id) as [x|] eqn:Hx; [|done].
    cbv [fmap option_fmap option_map]. destruct (selects w x) eqn:Hs; [|done]. exfalso. apply Hid.
    apply found_Some in Hx as [_ Hsx]. subst w. unfold progress_conds in *.
    cbn [selects forallb holds] in Hs, Hsx. rewrite andb_true_r in Hs, Hsx.
    apply sql_eq_true in Hs as [_ Hs], Hsx as [_ Hsx]. congruence.
Qed.

Lemma transition_moves b current event f o d d' :
  consistent d → driven b d → record_transition current event b f d = Ok (o, d') →
  driven b d' ∧ moved b d d'.
Proof.
  intros Hd Hdr Ht. apply transition_Ok in Ht as (became&r0&Ha&Hr0&Hp0&Hr); [|done].
  set (w := progress_conds (command_id (identity current))) in *.
  assert (Hrow : ∀ x, x ∈ rows d COMMAND_PROGRESS → selects w x = true → x = r0).
  { intros x Hx Hs. destruct (progress_names_any (command_id (identity current))) as [k Hk].
    enough (Some x = Some r0) by congruence. rewrite <- Hr0. symmetry.
    eapply found_elem; [done|left|exact Hk|done..]. }
  assert (Hf : ∀ id, progress_entry d' id =
            (λ x, if selects w x then assign (moved_values became f) x else x) <$> progress_entry d id)
    by (intros id; apply (found_update _ _ _ _ _ _ Hr); done).
  assert (Hcell : ∀ id x, progress_entry d id = Some x → selects w x = true → x = r0).
  { intros id x Hx Hs. apply found_Some in Hx as [Hx _]. by apply Hrow. }
  split.
  - intros id r Hid. rewrite Hf in Hid. destruct (progress_entry d id) as [x|] eqn:Hx; [|done].
    apply (inj Some) in Hid as <-. cbv beta. destruct (Hdr id x Hx) as (p&Hp&Hreach).
    destruct (selects w x) eqn:Hs; [|by exists p].
    exists became. split; [apply moved_stands|]. rewrite (Hcell _ _ Hx Hs) in Hp.
    rewrite (stands_at_unique _ _ _ Hp Hp0) in Hreach. eapply rtc_r; [done|]. by exists event.
  - intros id x p Hx Hp. rewrite Hf, Hx. cbv [fmap option_fmap option_map]. destruct (selects w x) eqn:Hs.
    + rewrite (Hcell _ _ Hx Hs) in Hp |- *. rewrite (stands_at_unique _ _ _ Hp Hp0).
      exists (assign (moved_values became f) r0), became. split; [done|].
      split; [apply moved_stands|]. split; [|by intros; apply moved_cells].
      apply rtc_once. by exists event.
    + exists x, p. by split_and!.
Qed.

Lemma called_moves b c d :
  consistent d → driven b d → consistent (called b d c) ∧ driven b (called b d c) ∧ moved b d (called b d c).
Proof.
  intros Hd Hdr. assert (Hsame : consistent d ∧ driven b d ∧ moved b d d).
  { split_and!; [done|done|apply moved_refl]. }
  unfold called, transaction. destruct c as [i at_|current event f].
  - destruct (initialize i at_ d) as [[o d']|e] eqn:Hi; [|done].
    split; [by eapply initialize_effect|]. by eapply initialize_moves.
  - destruct (record_transition current event b f d) as [[o d']|e] eqn:Ht; [|done].
    split; [by eapply transition_effect|]. by eapply transition_moves.
Qed.

(** Starting from an empty table, a row's progress is within the send budget. *)
Lemma driven_bounded b d id r p :
  1 ≤ max_sends b → driven b d → progress_entry d id = Some r → stands_at r p → progress_ok b p.
Proof.
  intros Hb Hd Hr Hp. destruct (Hd id r Hr) as (p'&Hp'&Hreach).
  rewrite (stands_at_unique _ _ _ Hp Hp'). clear -Hreach Hb.
  assert (Hi := progress_ok_initial b Hb). revert Hi. generalize INITIAL_PROGRESS, p', Hreach.
  induction 1 as [|x y z [e He] _ IH]; [done|]. intros Hx. apply IH. by eapply progress_ok_advance.
Qed.

(** Whatever calls any number of dispatchers make, with whatever stale copies, and however
    they fail, each command's durable progress is one the domain's machine reaches from the
    initial progress under the budget, moves only by that machine's steps, keeps its identity,
    and never counts more sends than the budget. *)
Lemma progress_refines_machine (b : SendBudget) (cs : list progress_call) (d : db) :
  1 ≤ max_sends b → consistent d → driven b d →
  let d' := foldl (called b) d cs in
  driven b d' ∧ moved b d d' ∧
  ∀ id r p, progress_entry d' id = Some r → stands_at r p → progress_ok b p.
Proof.
  intros Hb Hd Hdr. cbn zeta. assert (Hcs : driven b (foldl (called b) d cs) ∧ moved b d (foldl (called b) d cs)).
  { revert d Hd Hdr. induction cs as [|c cs IH]; intros d Hd Hdr; [by split; [|apply moved_refl]|].
    destruct (called_moves b c d Hd Hdr) as (Hd1&Hdr1&Hm1). cbn [foldl].
    destruct (IH _ Hd1 Hdr1) as [Hdr2 Hm2]. split; [done|]. by eapply moved_trans. }
  destruct Hcs as [Hdr' Hm]. split; [done|]. split; [done|].
  intros id r p Hr Hp. by eapply driven_bounded.
Qed.
End progress.

(** ** Witness *)

Definition sample_identity : CommandIdentity :=
  {| command_id := "c1"; mission_id := "m1"; drone_id := "drone-1" |}.

Definition sample_facts : TransitionFacts := {|
  last_sent_at := None; deadline_at := None; result_id := None;
  updated_at := "2026-01-01T00:00:00.000Z"
|}.

Definition at_progress (s : CommandState) (n : Z) : StoredCommandProgress := {|
  identity := sample_identity; progress := {| state := s; sends := n |}; facts := sample_facts
|}.

(** A stale second send is refused; the acknowledgement finds the command in flight. *)
Definition sample_progress_calls : list progress_call :=
  [Initialize sample_identity "2026-01-01T00:00:00.000Z";
   Transition (at_progress ACCEPTED 0) SEND sample_facts;
   Transition (at_progress ACCEPTED 0) SEND sample_facts;
   Transition (at_progress IN_FLIGHT 1) ACKNOWLEDGE sample_facts].

Lemma progress_refines_machine_witness :
  let d' := foldl (called (H := memory) {| max_sends := 5 |}) [] sample_progress_calls in
  (λ r, (cell r "state", cell r "send_count")) <$> progress_entry (H := memory) d' "c1"
    = Some (SText "acknowledged", SInt 1) ∧
  driven (H := memory) {| max_sends := 5 |} d'.
Proof.
  split; [vm_compute; reflexivity|].
  apply (progress_refines_machine (H := memory) {| max_sends := 5 |} sample_progress_calls []);
    [done | apply memory_empty | done].
Defined.
