(* ===== verification/StoreBindings.v ===== *)
(** * Operator-decision bindings

    [packages/store/src/aerial_rescue_store/approval_bindings.py]: the immutable facts an
    operator's decision binds, stored once under both their approval and their proposal
    identity, to which one gateway epoch adds its clock authority exactly once. *)

From S2P Require Import Prelude PyStr PyVal Sql Schema StoreProposals.
Local Open Scope string_scope.
Local Open Scope Z_scope.

Definition DECISIONS : list string := ["approve"; "reject"].

Inductive ApprovalBindingDecision : Set := STORED | DUPLICATE.

(** The second member is [DUPLICATE] in the source. *)
Inductive ApprovalAuthorityDecision : Set := BOUND | ALREADY_BOUND | EPOCH_CONFLICT.

Inductive ApprovalBindingRefusal : Set :=
| CLAIM_VANISHED | IDENTITY_CONFLICT | NOT_FOUND | UNREADABLE_ROW | PREBOUND_AUTHORITY
| INVALID_AUTHORITY.

Record StoredApprovalBinding : Set := {
  approval_id : string; proposal_id : string; proposal_version : Z; evidence_decision_id : string;
  evidence_decision_digest : string; evidence_decision_version : Z; decision : string;
  action_payload : string; decision_runtime_id : string; authority_runtime_epoch : option string;
  authority_issued_monotonic_milliseconds : option Z; expires_at : option string
}.

Record StoredApprovalAuthority : Set := { runtime_epoch : string; issued_monotonic_milliseconds : Z }.

#[export] Instance StoredApprovalBinding_eq_dec : EqDecision StoredApprovalBinding.
Proof. solve_decision. Defined.

Definition int_or_null (o : option Z) : sqlval := from_option SInt SNull o.

Definition binding_values (b : StoredApprovalBinding) : row :=
  [("approval_id", SText (approval_id b)); ("proposal_id", SText (proposal_id b));
   ("proposal_version", SInt (proposal_version b));
   ("evidence_decision_id", SText (evidence_decision_id b));
   ("evidence_decision_digest", SText (evidence_decision_digest b));
   ("evidence_decision_version", SInt (evidence_decision_version b));
   ("decision", SText (decision b)); ("action_payload", SBytes (action_payload b));
   ("decision_runtime_id", SText (decision_runtime_id b));
   ("authority_runtime_epoch", text_or_null (authority_runtime_epoch b));
   ("authority_issued_monotonic_milliseconds", int_or_null (authority_issued_monotonic_milliseconds b));
   ("expires_at", text_or_null (expires_at b))].

Definition approval_conds (id : string) : list cond := [Equals "approval_id" (SText id)].
Definition proposal_conds (id : string) : list cond := [Equals "proposal_id" (SText id)].

Definition record_statement (b : StoredApprovalBinding) : statement :=
  Insert APPROVAL_BINDING (binding_values b) (DoNothing None) ["approval_id"].

Definition conflict_statement (b : StoredApprovalBinding) : statement :=
  Select APPROVAL_BINDING (columns APPROVAL_BINDING)
    [Either (Equals "approval_id" (SText (approval_id b))) (Equals "proposal_id" (SText (proposal_id b)))]
    [] None.

Definition by_approval_statement (id : string) : statement :=
  Select APPROVAL_BINDING (columns APPROVAL_BINDING) (approval_conds id) [] None.

Definition by_proposal_statement (id : string) : statement :=
  Select APPROVAL_BINDING (columns APPROVAL_BINDING) (proposal_conds id) [] None.

Definition bound_values (a : StoredApprovalAuthority) : row :=
  [("authority_runtime_epoch", SText (runtime_epoch a));
   ("authority_issued_monotonic_milliseconds", SInt (issued_monotonic_milliseconds a))].

Definition unbound_conds : list cond :=
  [IsNull "authority_runtime_epoch"; IsNull "authority_issued_monotonic_milliseconds"].

Definition bind_statement (id : string) (a : StoredApprovalAuthority) : statement :=
  Update APPROVAL_BINDING (approval_conds id ++ unbound_conds)%list (bound_values a) ["approval_id"].

(** [_positive_integer] *)
Definition positive_integer (v : sqlval) : bool := match v with SInt n => 0 <? n | _ => false end.

Definition is_text (v : sqlval) : bool := match v with SText _ => true | _ => false end.

Definition text_value (v : sqlval) : string := match v with SText s | SBytes s => s | _ => "" end.
Definition int_value (v : sqlval) : Z := match v with SInt n => n | _ => 0 end.
Definition optional_value (v : sqlval) : option string := match v with SText s => Some s | _ => None end.
Definition optional_int (v : sqlval) : option Z := match v with SInt n => Some n | _ => None end.

(** [authority_valid] of [_stored] *)
Definition authority_valid (epoch monotonic : sqlval) : bool :=
  match epoch, monotonic with
  | SNull, SNull => true
  | SText s, SInt _ => negb (bool_decide (s = ""))
  | _, _ => false
  end.

(** [_stored] *)
Definition stored (id : string) (row : list sqlval)
    : result (store_failure ApprovalBindingRefusal) StoredApprovalBinding :=
  let unreadable := refuse UNREADABLE_ROW (PyStr id) in
  match row with
  | [a; p; pv; e; ed; ev; dec_; body; runtime; epoch; monotonic; expiry] =>
      let valid :=
        forallb is_text [a; p; e; ed; dec_; runtime] && positive_integer pv && positive_integer ev &&
        bool_decide (text_value dec_ ∈ DECISIONS) &&
        match body with SBytes b => negb (bool_decide (b = "")) | _ => false end &&
        authority_valid epoch monotonic &&
        match expiry with SNull | SText _ => true | _ => false end &&
        Bool.eqb (bool_decide (text_value dec_ = "approve")) (bool_decide (expiry ≠ SNull)) in
      if negb valid then unreadable else
      Ok {| approval_id := text_value a; proposal_id := text_value p; proposal_version := int_value pv;
            evidence_decision_id := text_value e; evidence_decision_digest := text_value ed;
            evidence_decision_version := int_value ev; decision := text_value dec_;
            action_payload := text_value body; decision_runtime_id := text_value runtime;
            authority_runtime_epoch := optional_value epoch;
            authority_issued_monotonic_milliseconds := optional_int monotonic;
            expires_at := optional_value expiry |}
  | _ => unreadable
  end.

(** [_same_decision]: everything but the gateway's later authority. *)
Definition same_decision (a b : StoredApprovalBinding) : bool :=
  bool_decide (
    (approval_id a, proposal_id a, proposal_version a, evidence_decision_id a,
     evidence_decision_digest a, evidence_decision_version a, decision a, action_payload a,
     decision_runtime_id a, expires_at a) =
    (approval_id b, proposal_id b, proposal_version b, evidence_decision_id b,
     evidence_decision_digest b, evidence_decision_version b, decision b, action_payload b,
     decision_runtime_id b, expires_at b)).

Section bindings.
Context `{Database}.

Definition record (b : StoredApprovalBinding)
    : tx (store_failure ApprovalBindingRefusal) ApprovalBindingDecision :=
  pure (raise_if (bool_decide (authority_runtime_epoch b ≠ None) ||
                  bool_decide (authority_issued_monotonic_milliseconds b ≠ None))
                 (Refused PREBOUND_AUTHORITY (PyStr (approval_id b)))) ;;
  inserted ← sql (scalar (record_statement b));
  match inserted with
  | Some _ => mret STORED
  | None =>
      found ← sql (one_or_none (conflict_statement b));
      row ← pure (or_raise found (Refused CLAIM_VANISHED (PyStr (approval_id b))));
      kept ← pure (stored (approval_id b) row);
      pure (raise_if (negb (same_decision kept b)) (Refused IDENTITY_CONFLICT (PyStr (approval_id b)))) ;;
      mret DUPLICATE
  end.

(** [_load] *)
Definition load_by (st : statement) (id : string)
    : tx (store_failure ApprovalBindingRefusal) StoredApprovalBinding :=
  found ← sql (one_or_none st);
  row ← pure (or_raise found (Refused NOT_FOUND (PyStr id)));
  pure (stored id row).

Definition load_by_approval (id : string) := load_by (by_approval_statement id) id.
Definition load_by_proposal (id : string) := load_by (by_proposal_statement id) id.

Definition bind_authority (id : string) (a : StoredApprovalAuthority)
    : tx (store_failure ApprovalBindingRefusal) ApprovalAuthorityDecision :=
  pure (raise_if (bool_decide (runtime_epoch a = "")) (Refused INVALID_AUTHORITY (PyStr id))) ;;
  inserted ← sql (scalar (bind_statement id a));
  match inserted with
  | Some _ => mret BOUND
  | None =>
      kept ← load_by (by_approval_statement id) id;
      mret (if bool_decide (authority_runtime_epoch kept = Some (runtime_epoch a))
            then ALREADY_BOUND else EPOCH_CONFLICT)
  end.

(** ** The table *)

Definition binding_entry (d : db) (approval : string) : option row :=
  found d APPROVAL_BINDING (approval_conds approval).

Definition binding_row (b : StoredApprovalBinding) : row := make_row APPROVAL_BINDING (binding_values b).

Lemma approval_names b : names_key ["approval_id"] (approval_conds (approval_id b)) (binding_row b).
Proof.
  intros x. cbn [selects approval_conds same_key forallb holds]. cells.
  by rewrite (sql_eq_comm (cell x _)).
Qed.

Lemma approval_names_any id : ∃ r, names_key ["approval_id"] (approval_conds id) r.
Proof.
  eexists. exact (approval_names {| approval_id := id; proposal_id := ""; proposal_version := 1;
    evidence_decision_id := ""; evidence_decision_digest := ""; evidence_decision_version := 1;
    decision := ""; action_payload := ""; decision_runtime_id := "";
    authority_runtime_epoch := None; authority_issued_monotonic_milliseconds := None;
    expires_at := None |}).
Qed.

(** The authority a row carries. *)
Definition authority_of (r : row) : option StoredApprovalAuthority :=
  match cell r "authority_runtime_epoch", cell r "authority_issued_monotonic_milliseconds" with
  | SText e, SInt n => Some {| runtime_epoch := e; issued_monotonic_milliseconds := n |}
  | _, _ => None
  end.

(** What later calls may do to a binding: give one without authority one authority. *)
Definition authority_once (d d' : db) : Prop :=
  ∀ id r, binding_entry d id = Some r → ∃ r', binding_entry d' id = Some r' ∧
    (∀ c, c ∉ (bound_values {| runtime_epoch := ""; issued_monotonic_milliseconds := 0 |}).*1 →
          cell r' c = cell r c) ∧
    ∀ a, authority_of r = Some a → authority_of r' = Some a.

#[global] Instance authority_once_preorder : PreOrder authority_once.
Proof.
  split.
  - intros d id r Hr. by exists r.
  - intros d1 d2 d3 H12 H23 id r Hr. destruct (H12 id r Hr) as (r1&Hr1&Hc1&Ha1).
    destruct (H23 id r1 Hr1) as (r2&Hr2&Hc2&Ha2). exists r2. split; [done|]. split; [|by auto].
    intros c Hc. by rewrite Hc2, Hc1.
Qed.

(** Only the table matters. *)
Lemma authority_once_rows d1 d1' d2 d2' :
  rows d1 APPROVAL_BINDING = rows d1' APPROVAL_BINDING → rows d2 APPROVAL_BINDING = rows d2' APPROVAL_BINDING →
  authority_once d1 d2 → authority_once d1' d2'.
Proof. intros H1 H2 Ho id r. unfold binding_entry, found in *. rewrite <- H1, <- H2. apply Ho. Qed.

(** Binding writes an authority only where there is none. *)
Lemma bind_authority_Ok id a o d d' :
  consistent d → bind_authority id a d = Ok (o, d') →
  authority_once d d' ∧
  match o with
  | BOUND => ∃ r', binding_entry d' id = Some r' ∧ authority_of r' = Some a
  | _ => d' ≡ d
  end.
Proof.
  intros Hd Hb. unfold bind_authority in Hb. apply tx_bind_Ok in Hb as (?&d0&Hp&Hb).
  apply pure_Ok in Hp as [_ ->]. apply tx_bind_Ok in Hb as (changed&d1&Hs&Hb). apply lift_Ok in Hs.
  destruct (approval_names_any id) as [k Hk]. unfold bind_statement in Hs.
  apply (update_found APPROVAL_BINDING d ["approval_id"] _ _ k _ _ (SText id)) in Hs;
    [|done..|left|by_decide]. fold (binding_entry d id) in Hs.
  assert (Hnone : changed = None → d1 ≡ d → authority_once d d' ∧ match o with
            | BOUND => ∃ r', binding_entry d' id = Some r' ∧ authority_of r' = Some a
            | _ => d' ≡ d end).
  { intros -> Hd1. unfold load_by, by_approval_statement in Hb. run_tx. subst.
    match goal with H : one_or_none _ _ = _ |- _ => apply select_found in H as [Hs' _] end.
    assert (Hd' : d' ≡ d) by by rewrite Hs'.
    split; [|by destruct (bool_decide _)]. intros i r Hr. exists r. unfold binding_entry in *.
    by rewrite (found_proper _ _ _ _ Hd'). }
  destruct (binding_entry d id) as [r|] eqn:Hr; [|naive_solver].
  destruct (selects unbound_conds r) eqn:Hsel; [|naive_solver]. clear Hnone.
  destruct Hs as (->&_&Hu). apply tx_ret_Ok in Hb as [<- <-].
  assert (Hf : ∀ i, binding_entry d1 i =
            (λ x, if selects (approval_conds id) x then assign (bound_values a) x else x)
              <$> binding_entry d i) by (intros i; by apply (found_update _ _ _ _ _ _ Hu)).
  split.
  - intros i y Hx. rewrite Hf, Hx. eexists. split; [done|]. cbv beta.
    destruct (selects (approval_conds id) y) eqn:Hxs; [|done].
    assert (y = r) as ->.
    { enough (Some y = Some r) by congruence. rewrite <- Hr. symmetry.
      apply found_Some in Hx as [Hx _]. eapply found_elem; [done|left|exact Hk|done..]. }
    split; [intros c Hc; by apply cell_assign_frame|]. intros a' Ha'. exfalso.
    unfold authority_of in Ha'. cbn [selects unbound_conds forallb holds] in Hsel. 
    rewrite andb_true_r in Hsel. apply andb_true_iff in Hsel as [Hnull _].
    apply bool_decide_eq_true in Hnull. by rewrite Hnull in Ha'.
  - rewrite Hf, Hr. eexists. split; [done|]. cbv beta.
    apply found_Some in Hr as [_ Hrs]. rewrite Hrs. unfold authority_of, assign, bound_values.
    cbn [foldl fst snd]. rewrite !cell_dict_set. cbn. by destruct a.
Qed.

(** Whatever it answers but a new binding, the row it read says so. *)
Lemma bind_authority_read id a o d d' :
  bind_authority id a d = Ok (o, d') → o ≠ BOUND →
  ∃ d1 kept, reads APPROVAL_BINDING (approval_conds id) (stored id) d1 kept ∧ d' ≡ d1 ∧
    (o = ALREADY_BOUND ↔ authority_runtime_epoch kept = Some (runtime_epoch a)).
Proof.
  intros Hb Ho. unfold bind_authority in Hb. apply tx_bind_Ok in Hb as (?&d0&Hp&Hb).
  apply tx_bind_Ok in Hb as (changed&d1&_&Hb). destruct changed as [?|].
  { by apply tx_ret_Ok in Hb as [<- _]. }
  apply tx_bind_Ok in Hb as (kept&d2&Hl&Hb). apply tx_ret_Ok in Hb as [<- <-].
  apply select_reads in Hl as [Hd2 Hk]. exists d1, kept. split; [done|]. split; [done|].
  case_bool_decide; naive_solver.
Qed.

(** A bound authority is read from the row as it was bound. *)
Lemma reads_authority id d kept e :
  reads APPROVAL_BINDING (approval_conds id) (stored id) d kept → authority_runtime_epoch kept = Some e →
  ∃ r a, binding_entry d id = Some r ∧ authority_of r = Some a ∧ runtime_epoch a = e ∧
         authority_issued_monotonic_milliseconds kept = Some (issued_monotonic_milliseconds a).
Proof.
  intros (r&Hr&Hs) He. unfold project in Hs.
  change (columns APPROVAL_BINDING) with ((binding_values kept).*1) in Hs.
  cbn [binding_values fmap list_fmap fst stored] in Hs. destruct (negb _) eqn:Hv in Hs; [done|].
  injection Hs as Hs. subst kept. cbn in He. bools. exists r. unfold authority_of, authority_valid in *.
  destruct (cell r "authority_runtime_epoch"); try done. injection He as <-.
  destruct (cell r "authority_issued_monotonic_milliseconds"); try done. by eexists.
Qed.

Lemma bind_effect id a : effect stays_consistent (bind_authority id a).
Proof. unfold bind_authority, bind_statement, load_by, by_approval_statement. effects. Qed.

Lemma bind_confined id a : effect (confined [APPROVAL_BINDING]) (bind_authority id a).
Proof. unfold bind_authority, bind_statement, load_by, by_approval_statement. effects. Qed.

Lemma binding_record_effect b : effect stays_consistent (record b).
Proof. unfold record, record_statement, conflict_statement. effects. Qed.

Lemma by_approval_unchanged id : effect unchanged (load_by_approval id).
Proof. unfold load_by_approval, load_by, by_approval_statement. effects. Qed.

Lemma by_proposal_unchanged id : effect unchanged (load_by_proposal id).
Proof. unfold load_by_proposal, load_by, by_proposal_statement. effects. Qed.
End bindings.
