(* ===== verification/StoreEvidence.v ===== *)
(** * Stored evidence

    [packages/store/src/aerial_rescue_store/evidence.py]: observations and append-only
    decisions about a proposal, read back in a fixed order.  A stored decision has a score, a
    band and contributors exactly when it is contributing. *)

From S2P Require Import Prelude PyStr PyVal Evidence Scoring Sql Schema StoreProposals.
Local Open Scope string_scope.
Local Open Scope Z_scope.

Inductive EvidenceDecisionOutcome : Set := OUTCOME_CONTRIBUTING | OUTCOME_MANUAL_REVIEW | OUTCOME_ABSTAINED | OUTCOME_REJECTED.

Inductive EvidenceStoreRefusal : Set := ALREADY_STORED | NOT_FOUND | UNREADABLE_ROW.

#[export] Instance EvidenceDecisionOutcome_eq_dec : EqDecision EvidenceDecisionOutcome.
Proof. solve_decision. Defined.

(** The values of the enumerations the columns hold. *)
Definition outcome_value (o : EvidenceDecisionOutcome) : string :=
  match o with
  | OUTCOME_CONTRIBUTING => "contributing" | OUTCOME_MANUAL_REVIEW => "manual-review"
  | OUTCOME_ABSTAINED => "abstained" | OUTCOME_REJECTED => "rejected"
  end.
Definition OUTCOMES : list EvidenceDecisionOutcome :=
  [OUTCOME_CONTRIBUTING; OUTCOME_MANUAL_REVIEW; OUTCOME_ABSTAINED; OUTCOME_REJECTED].

Definition origin_value (o : ObservationOrigin) : string :=
  match o with LIVE_MODEL => "live-model" | LIVE_SENSOR => "live-sensor" | RECORDED => "recorded" end.
Definition ORIGINS : list ObservationOrigin := [LIVE_MODEL; LIVE_SENSOR; RECORDED].

Definition band_value (b : EvidenceBand) : string :=
  match b with
  | NONE => "none" | WEAK => "weak" | SUPPORTED => "supported" | CORROBORATED => "corroborated"
  end.

Definition lifecycle_value (s : EvidenceState) : string :=
  match s with
  | REQUESTED => "requested" | OBSERVED => "observed" | VALIDATED => "validated"
  | MANUAL_REVIEW => "manual-review" | CONTRIBUTING => "contributing" | ABSTAINED => "abstained"
  | REJECTED => "rejected"
  end.

Record StoredEvidenceItem : Set := {
  evidence_id : string; item_mission : string; item_proposal : string; source_id : string;
  source_kind : ObservationOrigin; lifecycle : EvidenceState; provenance_digest : string;
  item_payload : string; observed_at : string
}.

Record StoredEvidenceDecision : Set := {
  decision_id : string; mission_id : string; proposal_id : string; proposal_digest : string;
  decision_digest : string; decision_version : Z; score_version : option Z; score : option Z;
  band : option EvidenceBand; outcome : EvidenceDecisionOutcome; contributors : option string;
  payload : string; decided_at : string; sequence : Z
}.

Definition int_or_null (o : option Z) : sqlval := from_option SInt SNull o.
Definition bytes_or_null (o : option string) : sqlval := from_option SBytes SNull o.

Definition item_values (i : StoredEvidenceItem) : row :=
  [("evidence_id", SText (evidence_id i)); ("mission_id", SText (item_mission i));
   ("proposal_id", SText (item_proposal i)); ("source_id", SText (source_id i));
   ("source_kind", SText (origin_value (source_kind i)));
   ("lifecycle", SText (lifecycle_value (lifecycle i)));
   ("provenance_digest", SText (provenance_digest i)); ("payload", SBytes (item_payload i));
   ("observed_at", SText (observed_at i))].

Definition decision_values (e : StoredEvidenceDecision) : row :=
  [("decision_id", SText (decision_id e)); ("mission_id", SText (mission_id e));
   ("proposal_id", SText (proposal_id e)); ("proposal_digest", SText (proposal_digest e));
   ("decision_digest", SText (decision_digest e)); ("decision_version", SInt (decision_version e));
   ("score_version", int_or_null (score_version e)); ("score", int_or_null (score e));
   ("band", text_or_null (band_value <$> band e)); ("outcome", SText (outcome_value (outcome e)));
   ("contributors", bytes_or_null (contributors e)); ("payload", SBytes (payload e));
   ("decided_at", SText (decided_at e)); ("sequence", SInt (sequence e))].

Definition record_item_statement (i : StoredEvidenceItem) : statement :=
  Insert EVIDENCE_ITEM (item_values i) (DoNothing (Some ["evidence_id"])) ["evidence_id"].

Definition record_decision_statement (e : StoredEvidenceDecision) : statement :=
  Insert EVIDENCE_DECISION (decision_values e) (DoNothing (Some ["decision_id"])) ["decision_id"].

Definition items_statement (p : string) : statement :=
  Select EVIDENCE_ITEM (columns EVIDENCE_ITEM) [Equals "proposal_id" (SText p)]
         ["observed_at"; "evidence_id"] None.

Definition decisions_statement (p : string) : statement :=
  Select EVIDENCE_DECISION (columns EVIDENCE_DECISION) [Equals "proposal_id" (SText p)]
         ["sequence"; "decision_id"] None.

Definition decision_conds (id : string) : list cond := [Equals "decision_id" (SText id)].

Definition load_decision_statement (id : string) : statement :=
  Select EVIDENCE_DECISION (columns EVIDENCE_DECISION) (decision_conds id) [] None.

Definition latest_sequence_statement : statement := SelectMax EVIDENCE_DECISION "sequence".

(** [_item] *)
Definition item (row : list sqlval) : result (store_failure EvidenceStoreRefusal) StoredEvidenceItem :=
  match row with
  | [SText e; SText m; SText p; SText s; SText kind; SText life; SText prov; SBytes body; SText at_] =>
      match enum_of origin_value ORIGINS (SText kind),
            enum_of lifecycle_value (enum EvidenceState) (SText life) with
      | Some origin, Some state =>
          Ok {| evidence_id := e; item_mission := m; item_proposal := p; source_id := s;
                source_kind := origin; lifecycle := state; provenance_digest := prov;
                item_payload := body; observed_at := at_ |}
      | _, _ => refuse UNREADABLE_ROW (PyStr e)
      end
  | [e; _; _; _; _; _; _; _; _] => refuse UNREADABLE_ROW (py e)
  | _ => refuse UNREADABLE_ROW (PyStr "item-shape")
  end.

Definition optional_int (v : sqlval) : option Z := match v with SInt n => Some n | _ => None end.
Definition optional_bytes (v : sqlval) : option string := match v with SBytes b => Some b | _ => None end.

(** [_decision] *)
Definition decision (row : list sqlval)
    : result (store_failure EvidenceStoreRefusal) StoredEvidenceDecision :=
  match row with
  | [SText i; SText m; SText p; SText pd; SText dd; SInt dv; (SNull | SInt _) as sv;
     (SNull | SInt _) as sc; (SNull | SText _) as b; SText o; (SNull | SBytes _) as cs; SBytes body;
     SText at_; SInt n] =>
      let unreadable := refuse UNREADABLE_ROW (PyStr i) in
      match enum_of outcome_value OUTCOMES (SText o) with
      | None => unreadable
      | Some out =>
          match (match b with
                 | SText _ => match enum_of band_value BAND_ORDER b with
                              | Some x => Some (Some x)
                              | None => None
                              end
                 | _ => Some None
                 end) with
          | None => unreadable
          | Some bd =>
              let complete := forallb (λ v, bool_decide (v ≠ SNull)) [sv; sc; b; cs] in
              if negb (Bool.eqb (bool_decide (out = OUTCOME_CONTRIBUTING)) complete) then unreadable
              else Ok {| decision_id := i; mission_id := m; proposal_id := p; proposal_digest := pd;
                         decision_digest := dd; decision_version := dv;
                         score_version := optional_int sv; score := optional_int sc; band := bd;
                         outcome := out; contributors := optional_bytes cs; payload := body;
                         decided_at := at_; sequence := n |}
          end
      end
  | [i; _; _; _; _; _; _; _; _; _; _; _; _; _] => refuse UNREADABLE_ROW (py i)
  | _ => refuse UNREADABLE_ROW (PyStr "decision-shape")
  end.

Definition is_some_bool {A} (o : option A) : bool := match o with Some _ => true | None => false end.

Section evidence.
Context `{Database}.

Definition record_item (i : StoredEvidenceItem) : tx (store_failure EvidenceStoreRefusal) unit :=
  inserted ← sql (scalar (record_item_statement i));
  pure (raise_if (bool_decide (inserted = None)) (Refused ALREADY_STORED (PyStr (evidence_id i)))).

Definition record_decision (e : StoredEvidenceDecision) : tx (store_failure EvidenceStoreRefusal) unit :=
  inserted ← sql (scalar (record_decision_statement e));
  pure (raise_if (bool_decide (inserted = None)) (Refused ALREADY_STORED (PyStr (decision_id e)))).

Definition items_for (p : string) : tx (store_failure EvidenceStoreRefusal) (list StoredEvidenceItem) :=
  rows ← sql (fetch_all (items_statement p));
  pure (map_ok item rows).

Definition decisions_for (p : string)
    : tx (store_failure EvidenceStoreRefusal) (list StoredEvidenceDecision) :=
  rows ← sql (fetch_all (decisions_statement p));
  pure (map_ok decision rows).

Definition load_decision (id : string) : tx (store_failure EvidenceStoreRefusal) StoredEvidenceDecision :=
  found ← sql (one_or_none (load_decision_statement id));
  row ← pure (or_raise found (Refused NOT_FOUND (PyStr id)));
  pure (decision row).

Definition latest_sequence : tx (store_failure EvidenceStoreRefusal) (option Z) :=
  value ← sql (scalar latest_sequence_statement);
  pure match value with
       | None => Ok None
       | Some (SInt n) => if n <? 0 then refuse UNREADABLE_ROW (PyStr "sequence") else Ok (Some n)
       | Some _ => refuse UNREADABLE_ROW (PyStr "sequence")
       end.

(** ** The table *)

Definition decision_entry (d : db) (id : string) : option row :=
  found d EVIDENCE_DECISION (decision_conds id).

Definition decision_row (e : StoredEvidenceDecision) : row := make_row EVIDENCE_DECISION (decision_values e).

Lemma decision_names e :
  names_key ["decision_id"] (decision_conds (decision_id e)) (decision_row e).
Proof.
  intros x. cbn [selects decision_conds same_key forallb holds]. cells.
  by rewrite (sql_eq_comm (cell x _)).
Qed.

(** A decision is stored at most once, and never overwritten. *)
Lemma record_decision_Ok e u d d' :
  consistent d → record_decision e d = Ok (u, d') →
  decision_entry d (decision_id e) = None ∧ decision_entry d' (decision_id e) = Some (decision_row e) ∧
  ∀ id r, decision_entry d id = Some r → decision_entry d' id = Some r.
Proof.
  intros Hd Hr. unfold record_decision in Hr. run_tx. subst. bools.
  match goal with H : scalar _ _ = Ok (_, ?y) |- _ => rename y into d' end.
  match goal with H : scalar _ _ = _ |- _ =>
    apply (insert_found EVIDENCE_DECISION d ["decision_id"] (decision_conds (decision_id e)))
      in H as [_ Hi]; [|done|done|apply decision_names|done] end.
  fold (decision_entry d (decision_id e)) in Hi.
  destruct (decision_entry d (decision_id e)) eqn:He; [naive_solver|]. destruct Hi as [_ Hi].
  assert (Hf : ∀ id, decision_entry d' id = match decision_entry d id with
            | Some x => Some x
            | None => if selects (decision_conds id) (decision_row e)
                      then Some (decision_row e) else None
            end) by (intros id; apply (found_snoc _ _ _ _ _ Hi)).
  split; [done|]. split.
  - rewrite Hf, He. cbn [selects decision_conds forallb holds]. cells.
    by rewrite (proj2 (sql_eq_true _ _)).
  - intros id r Hid. by rewrite Hf, Hid.
Qed.

(** A decision that has a score, band and contributors exactly when contributing reads back as
    it was written. *)
Lemma decision_reads_back e :
  Bool.eqb (bool_decide (outcome e = OUTCOME_CONTRIBUTING))
    (is_some_bool (score_version e) && (is_some_bool (score e) && (is_some_bool (band e) && (is_some_bool (contributors e) && true))))
    = true →
  decision (project (columns EVIDENCE_DECISION) (decision_row e)) = Ok e.
Proof.
  intros Hb. unfold project. change (columns EVIDENCE_DECISION) with ((decision_values e).*1).
  cbn [fmap list_fmap fst]. cells. destruct e as [i m p pd dd dv sv sc bd o cs body at_ n].
  destruct o, sv, sc, bd as [[]|], cs; first [discriminate Hb | reflexivity].
Qed.

Lemma record_decision_effect e : effect stays_consistent (record_decision e).
Proof. unfold record_decision, record_decision_statement. effects. Qed.

Lemma record_item_effect i : effect stays_consistent (record_item i).
Proof. unfold record_item, record_item_statement. effects. Qed.

Lemma load_decision_unchanged id : effect unchanged (load_decision id).
Proof. unfold load_decision, load_decision_statement. effects. Qed.
End evidence.
