(* ===== verification/StoreRefusals.v ===== *)
(** * The broker-refusal ledger

    [packages/store/src/aerial_rescue_store/broker_refusals.py] and its recorder
    [processing/broker_refusals.py]: one fact per malformed delivery, keyed by the consumer, the
    channel and the digest of the exact bytes, whose first observation every redelivery gets. *)

From S2P Require Import Prelude PyStr PyVal Sql Schema StoreProposals.
Local Open Scope string_scope.
Local Open Scope Z_scope.

Inductive BrokerRefusalDecision : Set := STORED | DUPLICATE.

Inductive BrokerRefusalRefusal : Set := IDENTITY_VANISHED | IDENTITY_CONFLICT | UNREADABLE_ROW.

Record StoredBrokerRefusal : Set := {
  consumer : string; source : option string; family : option string; channel : string;
  refusal_code : string; raw_digest : string; observed_at : string
}.

Record BrokerRefusalCandidate : Set := {
  cand_consumer : string; cand_source : option string; cand_family : option string;
  cand_channel : string; cand_refusal_code : string; cand_raw_digest : string
}.

Record BrokerRefusalOutcome : Set := { refusal_decision : BrokerRefusalDecision; fact : StoredBrokerRefusal }.

Definition refusal_values (f : StoredBrokerRefusal) : row :=
  [("consumer", SText (consumer f)); ("source", text_or_null (source f));
   ("family", text_or_null (family f)); ("channel", SText (channel f));
   ("refusal_code", SText (refusal_code f)); ("raw_digest", SText (raw_digest f));
   ("observed_at", SText (observed_at f))].

Definition refusal_key : list string := ["consumer"; "channel"; "raw_digest"].
Definition refusal_conds (c ch dg : string) : list cond :=
  [Equals "consumer" (SText c); Equals "channel" (SText ch); Equals "raw_digest" (SText dg)].

Definition record_statement (f : StoredBrokerRefusal) : statement :=
  Insert BROKER_REFUSAL (refusal_values f) (DoNothing (Some refusal_key)) ["raw_digest"].

Definition identity_statement (c ch dg : string) : statement :=
  Select BROKER_REFUSAL (columns BROKER_REFUSAL) (refusal_conds c ch dg) [] None.

(** [_immutable_context] *)
Definition immutable_context (f : StoredBrokerRefusal) : option string * option string * string :=
  (source f, family f, refusal_code f).

(** The identity a refusal names. *)
Definition identity_value (f : StoredBrokerRefusal) : pyval :=
  PyList [PyStr (consumer f); PyStr (channel f); PyStr (raw_digest f)].

Definition optional_text (v : sqlval) : option string := match v with SText s => Some s | _ => None end.

(** [_stored] *)
Definition stored (id : pyval) (row : list sqlval)
    : result (store_failure BrokerRefusalRefusal) StoredBrokerRefusal :=
  match row with
  | [SText c; (SNull | SText _) as s; (SNull | SText _) as f; SText ch; SText code; SText dg; SText at_] =>
      Ok {| consumer := c; source := optional_text s; family := optional_text f; channel := ch;
            refusal_code := code; raw_digest := dg; observed_at := at_ |}
  | _ => refuse UNREADABLE_ROW id
  end.

Section refusals.
Context `{Database}.

Definition record (f : StoredBrokerRefusal) : tx (store_failure BrokerRefusalRefusal) BrokerRefusalOutcome :=
  inserted ← sql (scalar (record_statement f));
  match inserted with
  | Some _ => mret {| refusal_decision := STORED; fact := f |}
  | None =>
      found ← sql (one_or_none (identity_statement (consumer f) (channel f) (raw_digest f)));
      row ← pure (or_raise found (Refused IDENTITY_VANISHED (identity_value f)));
      kept ← pure (stored (identity_value f) row);
      pure (raise_if (bool_decide (immutable_context kept ≠ immutable_context f))
                     (Refused IDENTITY_CONFLICT (identity_value f))) ;;
      mret {| refusal_decision := DUPLICATE; fact := kept |}
  end.

(** [BrokerRefusalRecorder.record]: a transaction of its own, stamped by the trusted clock. *)
Definition record_candidate (observed : string) (c : BrokerRefusalCandidate) (d : db)
    : result (store_failure BrokerRefusalRefusal) BrokerRefusalOutcome * db :=
  transaction (record {|
    consumer := cand_consumer c; source := cand_source c; family := cand_family c;
    channel := cand_channel c; refusal_code := cand_refusal_code c;
    raw_digest := cand_raw_digest c; observed_at := observed |}) d.

(** ** The table *)

Definition refusal_entry (d : db) (c ch dg : string) : option row :=
  found d BROKER_REFUSAL (refusal_conds c ch dg).

Definition refusal_row (f : StoredBrokerRefusal) : row := make_row BROKER_REFUSAL (refusal_values f).

Lemma refusal_names f :
  names_key refusal_key (refusal_conds (consumer f) (channel f) (raw_digest f)) (refusal_row f).
Proof.
  intros x. cbn [selects refusal_conds same_key refusal_key forallb holds]. cells.
  by rewrite (sql_eq_comm (cell x "consumer")), (sql_eq_comm (cell x "channel")),
    (sql_eq_comm (cell x "raw_digest")).
Qed.

Lemma refusal_reads_back f id :
  stored id (project (columns BROKER_REFUSAL) (refusal_row f)) = Ok f.
Proof.
  unfold project. change (columns BROKER_REFUSAL) with ((refusal_values f).*1).
  cbn [fmap list_fmap fst]. cells. by destruct f as [? [|] [|] ? ? ? ?].
Qed.

(** A delivery is recorded once; its redelivery gets the fact that was recorded first. *)
Lemma record_refusal_Ok f o d d' :
  consistent d → record f d = Ok (o, d') →
  match refusal_entry d (consumer f) (channel f) (raw_digest f) with
  | None => o = {| refusal_decision := STORED; fact := f |} ∧
            replaces d BROKER_REFUSAL (rows d BROKER_REFUSAL ++ [refusal_row f])%list d'
  | Some r => d' ≡ d ∧ refusal_decision o = DUPLICATE ∧
              stored (identity_value f) (project (columns BROKER_REFUSAL) r) = Ok (fact o) ∧
              immutable_context (fact o) = immutable_context f
  end.
Proof.
  intros Hd Hr. unfold record in Hr. apply tx_bind_Ok in Hr as (ins&d1&Hi&Hr). run_tx.
  apply (insert_found BROKER_REFUSAL d refusal_key
           (refusal_conds (consumer f) (channel f) (raw_digest f))) in Hi as [_ Hi];
    [|done|done|apply refusal_names|done].
  fold (refusal_entry d (consumer f) (channel f) (raw_digest f)) in Hi.
  destruct (refusal_entry d (consumer f) (channel f) (raw_digest f)) as [r|] eqn:He;
    destruct Hi as [-> Hi].
  - run_tx. subst.
    match goal with H : one_or_none _ _ = _ |- _ => apply select_found in H as [Hs Hf] end.
    rewrite (found_proper _ _ _ _ Hi) in Hf.
    fold (refusal_entry d (consumer f) (channel f) (raw_digest f)) in Hf.
    rewrite He in Hf. injection Hf as ->. bools.
    match goal with H : ¬ (_ ≠ _) |- _ => apply dec_stable in H end.
    split; [by rewrite Hs|]. done.
  - apply tx_ret_Ok in Hr as [<- <-]. done.
Qed.

(** Once recorded, the delivery's fact is in the ledger. *)
Lemma record_refusal_held f o d d' :
  consistent d → record f d = Ok (o, d') →
  is_Some (refusal_entry d' (consumer f) (channel f) (raw_digest f)).
Proof.
  intros Hd Hr. apply record_refusal_Ok in Hr; [|done].
  destruct (refusal_entry d _ _ _) as [r|] eqn:He.
  - destruct Hr as [Hs _]. exists r. rewrite <- He. by apply found_proper.
  - destruct Hr as [_ Hr]. unfold refusal_entry in *. rewrite (found_snoc _ _ _ _ _ Hr), He.
    rewrite (refusal_names f), (proj2 (same_key_true _ _ _)) by (repeat constructor; by cells). eauto.
Qed.

Lemma record_refusal_effect f : effect stays_consistent (record f).
Proof. unfold record, record_statement, identity_statement. effects. Qed.

Lemma record_refusal_confined f : effect (confined [BROKER_REFUSAL]) (record f).
Proof. unfold record, record_statement, identity_statement. effects. Qed.
End refusals.
