(* ===== verification/StoreInbox.v ===== *)
(** * The broker inbox

    [packages/store/src/aerial_rescue_store/inbox.py]: a broker message is claimed by its
    complete identity before its effects, and completed with its result in the same
    transaction.  [entry] is what the table says of one identity; the theorems say a claim
    sees a new identity once, and that a completed identity answers every later claim with its
    exact result, or refuses other bytes under the same name. *)

From S2P Require Import Prelude PyStr PyVal Sql Schema.
Local Open Scope string_scope.
Local Open Scope Z_scope.

Inductive InboxDecision : Set := CLAIMED | DUPLICATE.
Inductive InboxRefusal : Set :=
| CLAIM_VANISHED | DIGEST_CONFLICT | INCOMPLETE | UNREADABLE_RESULT | NOT_CLAIMED.

Record InboxIdentity : Set := {
  consumer : string; source : string; event_id : string; mission_id : string;
  canonical_digest : string
}.

Record InboxOutcome : Set := { decision : InboxDecision; prior : option string }.

Definition claimed_values (i : InboxIdentity) : row :=
  [("consumer", SText (consumer i)); ("source", SText (source i));
   ("event_id", SText (event_id i)); ("mission_id", SText (mission_id i));
   ("canonical_digest", SText (canonical_digest i)); ("result", SNull); ("processed_at", SNull)].

Definition identity_columns : list string := ["consumer"; "source"; "event_id"].

Definition claim_statement (i : InboxIdentity) : statement :=
  Insert BROKER_INBOX (claimed_values i) (DoNothing (Some identity_columns)) ["event_id"].

Definition identity_conds (i : InboxIdentity) : list cond :=
  [Equals "consumer" (SText (consumer i)); Equals "source" (SText (source i));
   Equals "event_id" (SText (event_id i))].

Definition stored_statement (i : InboxIdentity) : statement :=
  Select BROKER_INBOX ["canonical_digest"; "result"; "processed_at"] (identity_conds i) [] None.

Definition completion_conds (i : InboxIdentity) : list cond :=
  (identity_conds i ++
   [Equals "canonical_digest" (SText (canonical_digest i)); IsNull "result"])%list.

Definition completion_values (result processed_at : string) : row :=
  [("result", SBytes result); ("processed_at", SText processed_at)].

Definition completion_statement (i : InboxIdentity) (result processed_at : string) : statement :=
  Update BROKER_INBOX (completion_conds i) (completion_values result processed_at) ["event_id"].

(** [_duplicate] *)
Definition duplicate (i : InboxIdentity) (row : list sqlval)
    : result (store_failure InboxRefusal) InboxOutcome :=
  match row with
  | [SText digest; stored_result; processed_at] =>
      raise_if (negb (bool_decide (digest = canonical_digest i)))
               (Refused DIGEST_CONFLICT (PyStr (event_id i))) ;;
      match stored_result, processed_at with
      | SNull, SNull => refuse INCOMPLETE (PyStr (event_id i))
      | SBytes r, SText _ => Ok {| decision := DUPLICATE; prior := Some r |}
      | _, _ => refuse UNREADABLE_RESULT (PyStr (event_id i))
      end
  | _ => refuse UNREADABLE_RESULT (PyStr (event_id i))
  end.

Section inbox.
Context `{Database}.

Definition claim (i : InboxIdentity) : tx (store_failure InboxRefusal) InboxOutcome :=
  claimed ← sql (scalar (claim_statement i));
  match claimed with
  | Some _ => mret {| decision := CLAIMED; prior := None |}
  | None =>
      stored ← sql (one_or_none (stored_statement i));
      match stored with
      | None => pure (refuse CLAIM_VANISHED (PyStr (event_id i)))
      | Some row => pure (duplicate i row)
      end
  end.

Definition complete (i : InboxIdentity) (result processed_at : string)
    : tx (store_failure InboxRefusal) unit :=
  completed ← sql (scalar (completion_statement i result processed_at));
  pure (raise_if (bool_decide (completed = None)) (Refused NOT_CLAIMED (PyStr (event_id i)))).

(** ** What the table says of an identity *)

Definition entry (d : db) (i : InboxIdentity) : option row := found d BROKER_INBOX (identity_conds i).

Definition new_row (i : InboxIdentity) : row := make_row BROKER_INBOX (claimed_values i).

Definition same_identity (i j : InboxIdentity) : Prop :=
  consumer i = consumer j ∧ source i = source j ∧ event_id i = event_id j.

Lemma identity_key i : names_key identity_columns (identity_conds i) (new_row i).
Proof.
  intros x. cbn [selects identity_conds same_key identity_columns forallb holds].
  cells. by rewrite !(sql_eq_comm (cell x _)).
Qed.

Lemma new_row_selected i j : selects (identity_conds j) (new_row i) = true ↔ same_identity i j.
Proof.
  rewrite selects_true. unfold identity_conds, same_identity. rewrite !Forall_cons.
  cbn [holds]. rewrite !sql_eq_true. cells. split; [naive_solver|]. by intros (->&->&->).
Qed.

Lemma same_identity_conds i j : same_identity i j → identity_conds i = identity_conds j.
Proof. unfold identity_conds. by intros (->&->&->). Qed.

(** The identity was completed with this result by exactly these bytes. *)
Definition completed (d : db) (i : InboxIdentity) (result : string) : Prop :=
  ∃ r at_, entry d i = Some r ∧ cell r "canonical_digest" = SText (canonical_digest i) ∧
           cell r "result" = SBytes result ∧ cell r "processed_at" = SText at_.

Lemma claim_Ok i d o d' :
  consistent d → claim i d = Ok (o, d') →
  match entry d i with
  | None => o = {| decision := CLAIMED; prior := None |} ∧
            replaces d BROKER_INBOX (rows d BROKER_INBOX ++ [new_row i])%list d'
  | Some _ => d' ≡ d ∧ ∃ result, o = {| decision := DUPLICATE; prior := Some result |} ∧
                                 completed d i result
  end.
Proof.
  intros Hd Hc. unfold claim in Hc. apply tx_bind_Ok in Hc as (claimed&d1&Hi&Hc). run_tx.
  apply (insert_found BROKER_INBOX d identity_columns (identity_conds i)) in Hi as [_ Hi];
    [|done..|apply identity_key|done]. fold (entry d i) in Hi. unfold completed.
  destruct (entry d i) as [r|] eqn:He; destruct Hi as [-> Hi].
  - apply tx_bind_Ok in Hc as (stored&d2&Hs&Hc). run_tx. apply select_found in Hs as [Hs ->].
    rewrite (found_proper _ _ _ _ Hi) in Hc. fold (entry d i) in Hc. rewrite He in Hc. cbn in Hc.
    apply pure_Ok in Hc as [Hc ->]. split; [by rewrite Hs|]. unfold duplicate in Hc.
    destruct (cell r "canonical_digest") as [|digest| |] eqn:Hdig; try done. run_ok. bools.
    destruct (cell r "result") as [| | |b] eqn:Hb, (cell r "processed_at") as [|at_| |] eqn:Hat; try done.
    run_ok. subst. eauto 10.
  - apply tx_ret_Ok in Hc as [<- <-]. done.
Qed.

(** Only an identity the table can hold is ever claimed. *)
Lemma claim_admitted i d o d' :
  consistent d → claim i d = Ok (o, d') → admitted BROKER_INBOX (new_row i) = true.
Proof.
  intros Hd Hc. unfold claim in Hc. apply tx_bind_Ok in Hc as (claimed&d1&Hi&_). run_tx.
  by apply (insert_found BROKER_INBOX d identity_columns (identity_conds i)) in Hi as [Ha _];
    [|done..|apply identity_key|done].
Qed.

(** A completed identity never reads as new work: an exact redelivery gets its result, other
    bytes are refused. *)
Lemma claim_completed_runs i j result d :
  consistent d → permits (claim_statement j) d = true →
  (∀ d', permits (stored_statement j) d' = true) → admitted BROKER_INBOX (new_row j) = true →
  same_identity i j → completed d i result →
  if decide (canonical_digest j = canonical_digest i)
  then ∃ d', claim j d = Ok ({| decision := DUPLICATE; prior := Some result |}, d') ∧ d' ≡ d
  else claim j d = Err (Refused DIGEST_CONFLICT (PyStr (event_id j))).
Proof.
  intros Hd Hp Hp' Ha Hij (r&at_&He&Hdig&Hres&Hat). unfold entry in He.
  rewrite (same_identity_conds i j Hij) in He.
  destruct (insert_runs BROKER_INBOX identity_columns eq_refl (claimed_values j) "event_id" d Hp Ha)
    as (o&d1&Hi).
  assert (Hi' := Hi). apply (insert_found BROKER_INBOX d identity_columns (identity_conds j)) in Hi'
    as [_ Hi']; [|done..|apply identity_key|done]. rewrite He in Hi'. destruct Hi' as [-> Hd1].
  assert (Hc1 : consistent d1) by (intros t; rewrite (Hd1 t); apply Hd).
  destruct (select_found_runs BROKER_INBOX d1 identity_columns (new_row j)
              ["canonical_digest"; "result"; "processed_at"] (identity_conds j) [])
    as (d2&Hs); [done | left | apply identity_key | apply Hp' |].
  assert (Hd2 := Hs). apply select_found in Hd2 as [Hd2 _].
  rewrite (found_proper _ _ _ _ Hd1), He in Hs.
  assert (Hclaim : claim j d = pure (duplicate j (project
            ["canonical_digest"; "result"; "processed_at"] r)) d2).
  { unfold claim. rewrite (tx_bind_run _ _ _ _ _ (lift_run Driver _ _ _ Hi)).
    by rewrite (tx_bind_run _ _ _ _ _ (lift_run Driver _ _ _ Hs)). }
  rewrite Hclaim. cbn. rewrite Hdig, Hres, Hat. unfold pure.
  case_decide as Hc; [|by rewrite bool_decide_eq_false_2 by congruence].
  rewrite bool_decide_eq_true_2 by congruence. cbn. exists d2. split; [done|]. by rewrite Hd2.
Qed.

Lemma complete_Ok i result at_ u d d' :
  consistent d → complete i result at_ d = Ok (u, d') →
  (∃ r, entry d i = Some r ∧ cell r "canonical_digest" = SText (canonical_digest i) ∧
        cell r "result" = SNull) ∧
  replaces d BROKER_INBOX
    (update_rows (identity_conds i) (completion_values result at_) (rows d BROKER_INBOX)) d'.
Proof.
  intros Hd Hc. unfold complete in Hc. run_tx. subst. bools. unfold completion_statement in *.
  match goal with H : scalar _ _ = _ |- _ =>
    apply (update_found BROKER_INBOX d identity_columns _ _ (new_row i) _ _ (SText (event_id i)))
      in H as Hu
  end; [|done|left|apply identity_key|done|right; right; left|by_decide].
  fold (entry d i) in Hu. destruct (entry d i) as [r|]; [|naive_solver].
  destruct (selects _ r) eqn:Hs; [|naive_solver]. destruct Hu as (->&_&Hr). split; [|done].
  exists r. cbn in Hs. bools. rewrite sql_eq_true in *. naive_solver.
Qed.

(** ** Results are kept *)

Definition remembers (d d' : db) : Prop :=
  consistent d → consistent d' ∧ ∀ i result, completed d i result → completed d' i result.

#[global] Instance remembers_preorder : PreOrder remembers.
Proof.
  split; [by intros d Hd|]. intros d1 d2 d3 H1 H2 Hd. destruct (H1 Hd) as [Hd2 H1'].
  destruct (H2 Hd2) as [Hd3 H2']. split; [done|]. eauto.
Qed.

Lemma claim_effect i : effect stays_consistent (claim i).
Proof. unfold claim, claim_statement, stored_statement. effects. Qed.

Lemma complete_effect i result at_ : effect stays_consistent (complete i result at_).
Proof. unfold complete, completion_statement. effects. Qed.

Lemma completed_proper d d' i result : d ≡ d' → completed d i result → completed d' i result.
Proof. intros Hd. unfold completed, entry. by rewrite (found_proper _ _ _ _ Hd). Qed.

Lemma claim_remembers i : effect remembers (claim i).
Proof.
  intros d o d' Hc Hd. split; [by eapply claim_effect|]. intros j result Hj.
  apply claim_Ok in Hc; [|done]. destruct (entry d i) as [r|].
  - destruct Hc as [Hc _]. by eapply completed_proper.
  - destruct Hc as [_ Hr]. destruct Hj as (x&at_&Hx&Hj). exists x, at_. split; [|done].
    unfold entry in *. by rewrite (found_snoc _ _ _ _ _ Hr), Hx.
Qed.

Lemma complete_remembers i result at_ : effect remembers (complete i result at_).
Proof.
  intros d o d' Hc Hd. split; [by eapply complete_effect|]. intros j b (x&at'&Hx&Hdig&Hb&Hat).
  apply complete_Ok in Hc as [(r&Hr&_&Hnull) Hu]; [|done]. exists x, at'. split; [|done].
  unfold entry in *. rewrite (found_update _ _ _ _ _ _ Hu) by done. rewrite Hx. cbn [fmap option_fmap option_map].
  destruct (selects (identity_conds i) x) eqn:Hs; [|done].
  apply found_Some in Hx as [Hx _].
  assert (Hxr : found d BROKER_INBOX (identity_conds i) = Some x).
  { eapply found_elem; [done|left|apply identity_key|done..]. }
  congruence.
Qed.

(** A completion records the result under the identity. *)
Lemma complete_completed i result at_ u d d' :
  consistent d → complete i result at_ d = Ok (u, d') → completed d' i result.
Proof.
  intros Hd Hc. apply complete_Ok in Hc as [(r&Hr&Hdig&_) Hu]; [|done].
  exists (assign (completion_values result at_) r), at_. unfold entry in *.
  rewrite (found_update _ _ _ _ _ _ Hu) by done. rewrite Hr. cbn [fmap option_fmap option_map].
  apply found_Some in Hr as [_ ->]. split; [done|].
  unfold completion_values, assign. cbn [foldl fst snd]. rewrite !cell_dict_set. by rewrite Hdig.
Qed.

Lemma claim_confined i : effect (confined [BROKER_INBOX]) (claim i).
Proof. unfold claim, claim_statement, stored_statement. effects. Qed.

Lemma complete_confined i result at_ : effect (confined [BROKER_INBOX]) (complete i result at_).
Proof. unfold complete, completion_statement. effects. Qed.
End inbox.
