(* ===== verification/StoreClaims.v ===== *)
(** * Idempotency claims

    [packages/store/src/aerial_rescue_store/idempotency.py]: a key is taken by one conflicting
    insert, answered once, and every repeat of it is compared with what took it: another kind
    or another body is refused, the same request gets the domain's decision with the recorded
    result. *)

From S2P Require Import Prelude PyStr PyVal Idempotency Sql Schema.
Local Open Scope string_scope.
Local Open Scope Z_scope.

Inductive StoredClaimRefusal : Set :=
| CLAIM_VANISHED | UNKNOWN_KIND | KIND_MISMATCH | BODY_MISMATCH | RESULT_NOT_RECORDED
| UNREADABLE_RESULT | RESULT_ALREADY_RECORDED.

(** The values of [IdempotencyKind], in declaration order. *)
Definition KINDS : list IdempotencyKind :=
  [COMMAND; APPROVAL_CONSUMPTION; DASHBOARD_COMMAND; DASHBOARD_DECISION].

Definition kind_value (k : IdempotencyKind) : string :=
  match k with
  | COMMAND => "command" | APPROVAL_CONSUMPTION => "approval consumption"
  | DASHBOARD_COMMAND => "dashboard command" | DASHBOARD_DECISION => "dashboard decision"
  end.

Record StoredClaim : Set := {
  idempotency_key : string; kind : IdempotencyKind; body_digest : string;
  mission_id : string; claimed_at : string
}.

Record ClaimOutcome : Set := { decision : IdempotencyDecision; prior : option string }.

Definition claimed_values (c : StoredClaim) : row :=
  [("idempotency_key", SText (idempotency_key c)); ("kind", SText (kind_value (kind c)));
   ("body_digest", SText (body_digest c)); ("mission_id", SText (mission_id c));
   ("claimed_at", SText (claimed_at c))].

Definition key_columns : list string := ["idempotency_key"].

Definition claim_statement (c : StoredClaim) : statement :=
  Insert IDEMPOTENCY_CLAIM (claimed_values c) (DoNothing (Some key_columns)) ["idempotency_key"].

Definition key_conds (key : string) : list cond := [Equals "idempotency_key" (SText key)].

Definition stored_statement (key : string) : statement :=
  Select IDEMPOTENCY_CLAIM ["kind"; "body_digest"; "result"] (key_conds key) [] None.

Definition result_statement (key result : string) : statement :=
  Update IDEMPOTENCY_CLAIM (key_conds key ++ [IsNull "result"])%list [("result", SBytes result)]
         ["idempotency_key"].

(** [_repeat]; the value of [UNREADABLE_RESULT] is the type's name, of which only the fact
    that it is not [bytes] matters. *)
Definition repeat (c : StoredClaim) (row : list sqlval)
    : result (store_failure StoredClaimRefusal) ClaimOutcome :=
  match row with
  | [stored_kind; stored_digest; stored_result] =>
      k ← or_raise (enum_of kind_value KINDS stored_kind) (Refused UNKNOWN_KIND (py stored_kind));
      raise_if (negb (bool_decide (k = kind c))) (Refused KIND_MISMATCH (PyStr (kind_value (kind c)))) ;;
      raise_if (negb (bool_decide (str_of stored_digest = body_digest c)))
               (Refused BODY_MISMATCH (PyStr (body_digest c))) ;;
      match idempotency_decision k true with
      | DENY => Ok {| decision := DENY; prior := None |}
      | decided =>
          match stored_result with
          | SNull => refuse RESULT_NOT_RECORDED (PyStr (idempotency_key c))
          | SBytes r => Ok {| decision := decided; prior := Some r |}
          | v => refuse UNREADABLE_RESULT (py v)
          end
      end
  | _ => Err Unpack
  end.

Section claims.
Context `{Database}.

Definition stored (key : string) : tx (store_failure StoredClaimRefusal) (list sqlval) :=
  found ← sql (one_or_none (stored_statement key));
  pure (or_raise found (Refused CLAIM_VANISHED (PyStr key))).

Definition claim (c : StoredClaim) : tx (store_failure StoredClaimRefusal) ClaimOutcome :=
  taken ← sql (scalar (claim_statement c));
  match taken with
  | Some _ => mret {| decision := idempotency_decision (kind c) false; prior := None |}
  | None => row ← stored (idempotency_key c); pure (repeat c row)
  end.

Definition record_result (key result : string) : tx (store_failure StoredClaimRefusal) unit :=
  recorded ← sql (scalar (result_statement key result));
  pure (raise_if (bool_decide (recorded = None)) (Refused RESULT_ALREADY_RECORDED (PyStr key))).

(** ** What the table says of a key *)

Definition entry (d : db) (key : string) : option row := found d IDEMPOTENCY_CLAIM (key_conds key).

Definition new_row (c : StoredClaim) : row := make_row IDEMPOTENCY_CLAIM (claimed_values c).

Lemma claim_key_names c : names_key key_columns (key_conds (idempotency_key c)) (new_row c).
Proof.
  intros x. cbn [selects key_conds same_key key_columns forallb holds]. cells.
  by rewrite (sql_eq_comm (cell x _)).
Qed.

(** The key was answered with this result, for exactly this request. *)
Definition answered (d : db) (c : StoredClaim) (result : string) : Prop :=
  ∃ r, entry d (idempotency_key c) = Some r ∧ cell r "kind" = SText (kind_value (kind c)) ∧
       cell r "body_digest" = SText (body_digest c) ∧ cell r "result" = SBytes result.

Lemma enum_of_kind v k : enum_of kind_value KINDS v = Some k ↔ v = SText (kind_value k).
Proof.
  split; [|intros ->; by destruct k]. destruct v as [|s| |]; try done. cbn.
  repeat case_decide; intros [= <-]; by subst.
Qed.

Lemma command_claim_Ok c d o d' :
  consistent d → claim c d = Ok (o, d') →
  match entry d (idempotency_key c) with
  | None => o = {| decision := EXECUTE; prior := None |} ∧
            replaces d IDEMPOTENCY_CLAIM (rows d IDEMPOTENCY_CLAIM ++ [new_row c])%list d'
  | Some r => d' ≡ d ∧ cell r "kind" = SText (kind_value (kind c)) ∧
              cell r "body_digest" = SText (body_digest c) ∧
              if decide (kind c = APPROVAL_CONSUMPTION)
              then o = {| decision := DENY; prior := None |}
              else ∃ result, o = {| decision := RETURN_PRIOR_RESULT; prior := Some result |} ∧
                             answered d c result
  end.
Proof.
  intros Hd Hc. unfold claim in Hc. apply tx_bind_Ok in Hc as (taken&d1&Hi&Hc). run_tx.
  apply (insert_found IDEMPOTENCY_CLAIM d key_columns (key_conds (idempotency_key c))) in Hi as [_ Hi];
    [|done..|apply claim_key_names|done]. fold (entry d (idempotency_key c)) in Hi. unfold answered.
  destruct (entry d (idempotency_key c)) as [r|] eqn:He; destruct Hi as [-> Hi].
  - unfold stored in Hc. run_tx. subst.
    match goal with H : one_or_none _ _ = _ |- _ => apply select_found in H as [Hs Hf] end.
    rewrite (found_proper _ _ _ _ Hi) in Hf. fold (entry d (idempotency_key c)) in Hf.
    rewrite He in Hf. cbn in Hf. injection Hf as ->.
    match goal with H : repeat _ _ = _ |- _ => rename H into Hr end. cbn in Hr. run_ok.
    match goal with H : enum_of _ _ _ = _ |- _ => apply enum_of_kind in H end. bools. subst.
    destruct (admitted_text IDEMPOTENCY_CLAIM r "body_digest" 64) as [s Hdig];
      [by eapply found_admitted | by_decide |].
    rewrite Hdig in *. cbn in *. split; [by rewrite Hs|]. split; [done|]. split; [congruence|].
    case_decide as Hk.
    + rewrite bool_decide_eq_true_2 in * by done. by run_ok.
    + rewrite bool_decide_eq_false_2 in * by done.
      destruct (cell r "result") as [| | |b] eqn:Hb; try done. run_ok. exists b. split; [done|].
      exists r. naive_solver congruence.
  - apply tx_ret_Ok in Hc as [<- <-]. done.
Qed.

Lemma record_result_Ok key result u d d' :
  consistent d → record_result key result d = Ok (u, d') →
  (∃ r, entry d key = Some r ∧ cell r "result" = SNull) ∧
  replaces d IDEMPOTENCY_CLAIM
    (update_rows (key_conds key) [("result", SBytes result)] (rows d IDEMPOTENCY_CLAIM)) d'.
Proof.
  intros Hd Hc. unfold record_result in Hc. run_tx. subst. bools. unfold result_statement in *.
  set (c := {| idempotency_key := key; kind := COMMAND; body_digest := ""; mission_id := "";
               claimed_at := "" |}).
  match goal with H : scalar _ _ = _ |- _ =>
    apply (update_found IDEMPOTENCY_CLAIM d key_columns _ _ (new_row c) _ _ (SText key)) in H as Hu
  end; [|done|left|apply (claim_key_names c)|done|left|by_decide].
  fold (entry d key) in Hu. destruct (entry d key) as [r|]; [|naive_solver].
  destruct (selects _ r) eqn:Hs; [|naive_solver]. destruct Hu as (->&_&Hr). split; [|done].
  exists r. cbn in Hs. bools. naive_solver.
Qed.

Lemma command_claim_effect c : effect stays_consistent (claim c).
Proof. unfold claim, claim_statement, stored, stored_statement. effects. Qed.

Lemma record_result_effect key result : effect stays_consistent (record_result key result).
Proof. unfold record_result, result_statement. effects. Qed.

Lemma command_claim_confined c : effect (confined [IDEMPOTENCY_CLAIM]) (claim c).
Proof. unfold claim, claim_statement, stored, stored_statement. effects. Qed.

Lemma record_result_confined key result :
  effect (confined [IDEMPOTENCY_CLAIM]) (record_result key result).
Proof. unfold record_result, result_statement. effects. Qed.
End claims.
