(* ===== verification/StoreOutbox.v ===== *)
(** * The command outbox

    [packages/store/src/aerial_rescue_store/outbox.py]: commands are staged under a counted
    bound by one conditional insert, move along one edge of [Outbox] at a time by a
    compare-and-set, and are read back oldest first.  The table's sessions overlap as [READ COMMITTED]
    lets them; the theorem says what any interleaving of their steps leaves in the table, and by how
    much the count inside the insert can be overshot. *)

From S2P Require Import Prelude PyStr PyVal Lifecycle Outbox Sql Schema.
From stdpp Require Import sorting.
Local Open Scope string_scope.
Local Open Scope Z_scope.

Definition MAXIMUM_UNCONFIRMED_RECORDS : Z := 500.
Definition COMMAND_PUBLICATION_BATCH_SIZE : Z := 50.

Inductive StagedCommandRefusal : Set :=
| AT_CAPACITY | NOT_IN_EXPECTED_STATE | INVALID_READ_LIMIT | TERMINAL_READ
| READ_LIMIT_EXCEEDED | UNREADABLE_ROW.

Record StagedCommand : Set := {
  command_id : string; mission_id : string; drone_id : string; payload : string;
  correlation_id : string; causation_id : option string; traceparent : string; staged_at : string
}.

Record CommandOutboxRecord : Set := { command : StagedCommand; state : OutboxState }.

(** The values of [OutboxState]. *)
Definition state_value (s : OutboxState) : string :=
  match s with
  | Outbox.STAGED => "staged" | Outbox.RECONCILIATION_NEEDED => "reconciliation needed"
  | Outbox.CONFIRMED => "confirmed"
  end.

(** A repository error, or the domain's refusal of the move, unchanged. *)
Inductive outbox_failure : Type :=
| Store (e : store_failure StagedCommandRefusal)
| Domain (e : OutboxError).

Definition staged_values (c : StagedCommand) : row :=
  [("command_id", SText (command_id c)); ("mission_id", SText (mission_id c));
   ("drone_id", SText (drone_id c)); ("payload", SBytes (payload c));
   ("state", SText (state_value Outbox.INITIAL_STATE));
   ("correlation_id", SText (correlation_id c)); ("causation_id", text_or_null (causation_id c));
   ("traceparent", SText (traceparent c)); ("staged_at", SText (staged_at c))].

Definition unconfirmed_conds : list cond := [Differs "state" (SText (state_value Outbox.CONFIRMED))].

Definition stage_statement (c : StagedCommand) : statement :=
  InsertIfFewer COMMAND_OUTBOX (staged_values c) unconfirmed_conds MAXIMUM_UNCONFIRMED_RECORDS
                ["command_id"].

Definition id_columns : list string := ["command_id"].
Definition id_conds (id : string) : list cond := [Equals "command_id" (SText id)].

Definition publication_statement (id : string) (was became : OutboxState) : statement :=
  Update COMMAND_OUTBOX (id_conds id ++ [Equals "state" (SText (state_value was))])%list
         [("state", SText (state_value became))] ["command_id"].

Definition pending_statement (s : OutboxState) (limit : Z) : statement :=
  Select COMMAND_OUTBOX (columns COMMAND_OUTBOX) [Equals "state" (SText (state_value s))]
         ["staged_at"; "command_id"] (Some limit).

(** [_stored] *)
Definition stored (row : list sqlval) (expected : OutboxState)
    : result (store_failure StagedCommandRefusal) CommandOutboxRecord :=
  let unreadable := refuse UNREADABLE_ROW (PyStr "redacted-row") in
  match row with
  | [SText id; SText mission; SText drone; SBytes body; SText s; SText correlation; causation;
     SText trace; SText at_] =>
      if negb (bool_decide (s = state_value expected)) then unreadable else
      match causation with
      | SNull | SText _ =>
          Ok {| command := {|
                  command_id := id; mission_id := mission; drone_id := drone; payload := body;
                  correlation_id := correlation;
                  causation_id := match causation with SText c => Some c | _ => None end;
                  traceparent := trace; staged_at := at_ |};
                state := expected |}
      | _ => unreadable
      end
  | _ => unreadable
  end.

Section outbox.
Context `{Database}.

Definition stage (c : StagedCommand) : tx (store_failure StagedCommandRefusal) unit :=
  staged ← sql (scalar (stage_statement c));
  pure (raise_if (bool_decide (staged = None)) (Refused AT_CAPACITY (PyStr (command_id c)))).

Definition record_publication (id : string) (was : OutboxState) (event : OutboxEvent)
    : tx outbox_failure OutboxState :=
  became ← pure (map_err Domain (Outbox.transition was event));
  moved ← lift Store (sql (scalar (publication_statement id was became)));
  pure (raise_if (bool_decide (moved = None)) (Store (Refused NOT_IN_EXPECTED_STATE (PyStr id)))) ;;
  mret became.

Definition pending (s : OutboxState) (limit : Z)
    : tx (store_failure StagedCommandRefusal) (list CommandOutboxRecord) :=
  pure (raise_if (negb ((1 <=? limit) && (limit <=? COMMAND_PUBLICATION_BATCH_SIZE)))
                 (Refused INVALID_READ_LIMIT (PyStr "redacted-limit"))) ;;
  pure (raise_if (bool_decide (s = Outbox.CONFIRMED))
                 (Refused TERMINAL_READ (PyStr (state_value s)))) ;;
  rows ← sql (fetch_all (pending_statement s limit));
  pure (raise_if (limit <? Z.of_nat (length rows))
                 (Refused READ_LIMIT_EXCEEDED (PyStr "redacted-batch"))) ;;
  pure (map_ok (λ row, stored row s) rows).

(** ** The table *)

Definition entry (d : db) (id : string) : option row := found d COMMAND_OUTBOX (id_conds id).

(** How many commands still await confirmation. *)
Definition unconfirmed (d : db) : Z :=
  Z.of_nat (length (where_rows unconfirmed_conds (rows d COMMAND_OUTBOX))).

Definition new_row (c : StagedCommand) : row := make_row COMMAND_OUTBOX (staged_values c).

Lemma id_names c : names_key id_columns (id_conds (command_id c)) (new_row c).
Proof.
  intros x. cbn [selects id_conds same_key id_columns forallb holds]. cells.
  by rewrite (sql_eq_comm (cell x _)).
Qed.

Lemma id_names_any id : ∃ r, names_key id_columns (id_conds id) r.
Proof.
  eexists. exact (id_names {| command_id := id; mission_id := ""; drone_id := ""; payload := "";
    correlation_id := ""; causation_id := None; traceparent := ""; staged_at := "" |}).
Qed.

Lemma stage_Ok c u d d' :
  stage c d = Ok (u, d') →
  unconfirmed d < MAXIMUM_UNCONFIRMED_RECORDS ∧ admitted COMMAND_OUTBOX (new_row c) = true ∧
  existsb (same_key id_columns (new_row c)) (rows d COMMAND_OUTBOX) = false ∧
  replaces d COMMAND_OUTBOX (rows d COMMAND_OUTBOX ++ [new_row c])%list d'.
Proof.
  intros Hs. unfold stage in Hs. run_tx. subst. bools.
  match goal with H : scalar _ _ = _ |- _ => apply scalar_Ok in H as (out&l&Hr&Hl&->); [|done] end.
  cbn [stage_statement target run] in Hr, Hl. fold (unconfirmed d) in Hr.
  destruct (unconfirmed d <? _) eqn:Hc.
  - bools. split; [done|]. unfold insert_row in Hr. fold (new_row c) in Hr.
    destruct (admitted _ _); [|done]. split; [done|]. cbn [negb] in Hr.
    rewrite (clash_key COMMAND_OUTBOX id_columns eq_refl) in Hr.
    destruct (existsb _ _); [done|]. split; [done|]. by injection Hr as <- <-.
  - injection Hr as <- <-. done.
Qed.

Lemma publication_Ok id was event became d d' :
  consistent d → record_publication id was event d = Ok (became, d') →
  Outbox.transition was event = Ok became ∧
  (∃ r, entry d id = Some r ∧ cell r "state" = SText (state_value was)) ∧
  replaces d COMMAND_OUTBOX
    (update_rows (id_conds id) [("state", SText (state_value became))] (rows d COMMAND_OUTBOX)) d'.
Proof.
  intros Hd Hp. unfold record_publication in Hp. run_tx. subst. bools. split; [done|].
  destruct (id_names_any id) as [r0 Hr0].
  match goal with H : scalar _ _ = _ |- _ => unfold publication_statement in H;
    apply (update_found COMMAND_OUTBOX d id_columns _ _ r0 _ _ (SText id)) in H as Hu
  end; [|done|left|done|done|left|by_decide].
  fold (entry d id) in Hu. destruct (entry d id) as [r|]; [|naive_solver].
  destruct (selects _ r) eqn:Hs; [|naive_solver]. destruct Hu as (_&_&Hr). split; [|done].
  exists r. split; [done|]. apply andb_true_iff in Hs as [Hs _]. by apply sql_eq_true in Hs as [_ Hs].
Qed.

Lemma stage_effect c : effect stays_consistent (stage c).
Proof. unfold stage, stage_statement. effects. Qed.

Lemma publication_effect id was event : effect stays_consistent (record_publication id was event).
Proof. unfold record_publication, publication_statement. effects. Qed.

Lemma stage_confined c : effect (confined [COMMAND_OUTBOX]) (stage c).
Proof. unfold stage, stage_statement. effects. Qed.

Lemma publication_confined id was event :
  effect (confined [COMMAND_OUTBOX]) (record_publication id was event).
Proof. unfold record_publication, publication_statement. effects. Qed.

(** [r'] is [r] after some reports: the same command, its state moved along the domain's edges. *)
Definition evolved (r r' : row) : Prop :=
  (∀ c, c ≠ "state" → cell r' c = cell r c) ∧
  ∃ s events s', cell r "state" = SText (state_value s) ∧ fold_ok transition s events = Ok s' ∧
                 cell r' "state" = SText (state_value s').

Lemma state_value_inj s s' : state_value s = state_value s' → s = s'.
Proof. by destruct s, s'. Qed.

Lemma stored_state r : admitted COMMAND_OUTBOX r = true → ∃ s, cell r "state" = SText (state_value s).
Proof.
  intros Ha. destruct (admitted_text COMMAND_OUTBOX r "state" 24 Ha) as [s Hs]; [by_decide|].
  apply andb_true_iff in Ha as [_ [Hk _]%andb_true_iff]. cbn in Hk. rewrite Hs in Hk. bools.
  cbn in Hk. rewrite Hs.
  destruct (decide (s = "staged")) as [->|]; [by exists STAGED|].
  destruct (decide (s = "reconciliation needed")) as [->|]; [by exists RECONCILIATION_NEEDED|].
  destruct (decide (s = "confirmed")) as [->|]; [by exists CONFIRMED|].
  rewrite !bool_decide_eq_false_2 in Hk by congruence. done.
Qed.

Lemma evolved_refl r : admitted COMMAND_OUTBOX r = true → evolved r r.
Proof. intros Ha. destruct (stored_state r Ha) as [s Hs]. split; [done|]. by exists s, [], s. Qed.

Lemma evolved_trans r1 r2 r3 : evolved r1 r2 → evolved r2 r3 → evolved r1 r3.
Proof.
  intros [H1 (s1&es1&s1'&Ha1&Hr1&Hb1)] [H2 (s2&es2&s2'&Ha2&Hr2&Hb2)].
  split; [intros c Hc; by rewrite H2, H1|].
  assert (s1' = s2) as -> by (apply state_value_inj; congruence).
  exists s1, (es1 ++ es2)%list, s2'. split; [done|]. split; [|done].
  clear - Hr1 Hr2. revert s1 Hr1. induction es1 as [|e es1 IH]; intros s1; cbn [fold_ok app].
  - by intros [= ->].
  - destruct (transition s1 e); [|done]. cbn. apply IH.
Qed.

Lemma entry_admitted d id r : consistent d → entry d id = Some r → admitted COMMAND_OUTBOX r = true.
Proof. apply found_admitted. Qed.

(** Every command stays what it was, and nothing enters but what is listed. *)
Definition evolves (added : list StagedCommand) (d d' : db) : Prop :=
  (∀ id r, entry d id = Some r → ∃ r', entry d' id = Some r' ∧ evolved r r') ∧
  (∀ id r', entry d' id = Some r' →
     (∃ r, entry d id = Some r ∧ evolved r r') ∨
     ∃ c, c ∈ added ∧ command_id c = id ∧ evolved (new_row c) r').

Lemma evolves_refl added d : consistent d → evolves added d d.
Proof.
  intros Hd. assert (Hev : ∀ id r, entry d id = Some r → evolved r r).
  { intros id r Hr. apply evolved_refl. exact (entry_admitted d _ _ Hd Hr). }
  split; intros id r Hr; [|left]; exists r; eauto.
Qed.

Lemma evolves_trans l1 l2 d1 d2 d3 : evolves l1 d1 d2 → evolves l2 d2 d3 → evolves (l1 ++ l2) d1 d3.
Proof.
  intros [Hk1 Hf1] [Hk2 Hf2]. split.
  - intros id r (r2&Hr2&He2)%Hk1. apply Hk2 in Hr2 as (r3&Hr3&He3). eauto using evolved_trans.
  - intros id r3 [(r2&Hr2&He3)|(c&Hc&Hid&He)]%Hf2.
    + apply Hf1 in Hr2 as [(r1&Hr1&He2)|(c&Hc&Hid&He)]; [left; eauto using evolved_trans|].
      right. exists c. rewrite elem_of_app. eauto using evolved_trans.
    + right. exists c. rewrite elem_of_app. eauto.
Qed.

(** The row a staging adds, whoever sees it. *)
Definition appended (c : StagedCommand) (d d' : db) : Prop :=
  admitted COMMAND_OUTBOX (new_row c) = true ∧
  replaces d COMMAND_OUTBOX (rows d COMMAND_OUTBOX ++ [new_row c])%list d'.

Lemma appended_evolves c d d' : consistent d → appended c d d' → evolves [c] d d'.
Proof.
  intros Hd [Ha Hr].
  assert (Hentry : ∀ id, entry d' id = match entry d id with
            | Some x => Some x
            | None => if selects (id_conds id) (new_row c) then Some (new_row c) else None
            end) by (intros id; apply (found_snoc _ _ _ _ _ Hr)).
  split; intros id r; rewrite Hentry.
  { intros Hid. exists r. rewrite Hid. split; [done|]. apply evolved_refl. exact (entry_admitted d _ _ Hd Hid). }
  destruct (entry d id) as [x|] eqn:Hid.
  - intros [= <-]. left. exists x. split; [done|]. apply evolved_refl. exact (entry_admitted d _ _ Hd Hid).
  - destruct (selects _ _) eqn:Hsel; [|done]. intros [= <-]. right. exists c.
    split; [left|]. split; [|by apply evolved_refl].
    apply andb_true_iff in Hsel as [Hsel _]. apply sql_eq_true in Hsel as [_ Hsel]. cells. congruence.
Qed.

Lemma appended_count c d d' : appended c d d' → unconfirmed d' = unconfirmed d + 1.
Proof.
  intros [_ Hr]. unfold unconfirmed. rewrite (replaces_target _ _ _ _ Hr), where_rows_app, length_app, where_rows_cons.
  assert (selects unconfirmed_conds (new_row c) = true) as -> by (cbn [selects unconfirmed_conds forallb holds]; by cells).
  cbn [where_rows length]. cbn. lia.
Qed.

Lemma publication_evolves id was event became d d' :
  consistent d → record_publication id was event d = Ok (became, d') →
  evolves [] d d' ∧ unconfirmed d' ≤ unconfirmed d.
Proof.
  intros Hd Hp. apply publication_Ok in Hp as (Ht&(r0&Hr0&Hwas)&Hr); [|done].
  destruct (id_names_any id) as [k Hk].
  assert (Hrow : ∀ x, x ∈ rows d COMMAND_OUTBOX → selects (id_conds id) x = true → x = r0).
  { intros x Hx Hs. enough (Some x = Some r0) by congruence. rewrite <- Hr0. symmetry.
    eapply found_elem; [done|left|exact Hk|done..]. }
  assert (Hentry : ∀ id', entry d' id' =
            (λ x, if selects (id_conds id) x then assign [("state", SText (state_value became))] x else x)
              <$> entry d id') by (intros id'; apply (found_update _ _ _ _ _ _ Hr); done).
  assert (Hev : ∀ id' x, entry d id' = Some x →
            evolved x (if selects (id_conds id) x
                       then assign [("state", SText (state_value became))] x else x)).
  { intros id' x Hx. destruct (selects (id_conds id) x) eqn:Hs.
    - apply found_Some in Hx as [Hx _]. rewrite (Hrow x Hx Hs). split.
      + intros c Hc. apply cell_assign_frame. cbn. rewrite list_elem_of_singleton. done.
      + exists was, [event], became. cbn [fold_ok]. rewrite Ht. split; [done|]. split; [done|].
        unfold assign. cbn [foldl fst snd]. by rewrite cell_dict_set, decide_True.
    - apply evolved_refl. exact (entry_admitted d _ _ Hd Hx). }
  split; [split|].
  - intros id' x Hx. rewrite Hentry, Hx. eexists. split; [done|]. by eapply Hev.
  - intros id' r' Hr'. left. rewrite Hentry in Hr'.
    destruct (entry d id') as [x|] eqn:Hx; [|done]. injection Hr' as <-. exists x. eauto.
  - unfold unconfirmed in *. rewrite (replaces_target _ _ _ _ Hr). apply Nat2Z.inj_le. apply count_update.
    intros x Hx Hs _. rewrite (Hrow x Hx Hs). cbn [unconfirmed_conds selects forallb holds].
    rewrite Hwas, andb_true_r. apply bool_decide_eq_true. by destruct was, event.
Qed.

(** ** Overlapping sessions

    The outbox takes no lock, so its transactions overlap.  Under [READ COMMITTED] a statement sees
    the committed rows only: the count of [stage_statement] misses what other sessions have staged
    and not committed.  A session's insertion is therefore two steps.  Its statement runs over the
    committed rows and leaves a row in flight; its commit, later, appends that row if the key is
    still free.  A worker's compare-and-set takes the row's lock, so its commit is one step. *)

Record sessions := { visible : db; inflight : list StagedCommand }.

(** What the statement writes once its count has let it through: a plain insertion. *)
Definition insertion (c : StagedCommand) : statement :=
  Sql.Insert COMMAND_OUTBOX (staged_values c) NoClause ["command_id"].

Inductive session_event : Set :=
| Opens (c : StagedCommand) | Commits (c : StagedCommand) | RollsBack (c : StagedCommand)
| Moves (id : string) (was : OutboxState) (event : OutboxEvent).

(** At most [n] sessions stage at once. *)
Inductive session_step (n : nat) : session_event → sessions → sessions → Prop :=
| step_opens c d l d' :
    (length l < n)%nat → stage c d = Ok (tt, d') →
    session_step n (Opens c) {| visible := d; inflight := l |} {| visible := d; inflight := c :: l |}
| step_commits c d l1 l2 out after d' :
    run text_le (insertion c) (rows d COMMAND_OUTBOX) = Ok (out, after) → replaces d COMMAND_OUTBOX after d' →
    session_step n (Commits c) {| visible := d; inflight := l1 ++ c :: l2 |}
                               {| visible := d'; inflight := l1 ++ l2 |}
| step_rolls_back c d l1 l2 :
    session_step n (RollsBack c) {| visible := d; inflight := l1 ++ c :: l2 |}
                                 {| visible := d; inflight := l1 ++ l2 |}
| step_moves id was event became d l d' :
    record_publication id was event d = Ok (became, d') →
    session_step n (Moves id was event) {| visible := d; inflight := l |} {| visible := d'; inflight := l |}.

Inductive session_run (n : nat) : list session_event → sessions → sessions → Prop :=
| run_nil s : session_run n [] s s
| run_cons e es s1 s2 s3 : session_step n e s1 s2 → session_run n es s2 s3 → session_run n (e :: es) s1 s3.

Definition idle (d : db) : sessions := {| visible := d; inflight := [] |}.

Definition committed_by (es : list session_event) : list StagedCommand :=
  omap (λ e, match e with Commits c => Some c | _ => None end) es.

(** Every row a session may still commit has been counted but by its contemporaries. *)
Definition within (n : nat) (s : sessions) : Prop :=
  unconfirmed (visible s) + Z.of_nat (length (inflight s)) ≤ MAXIMUM_UNCONFIRMED_RECORDS + Z.of_nat n - 1.

Lemma insertion_appended c d out after d' :
  run text_le (insertion c) (rows d COMMAND_OUTBOX) = Ok (out, after) → replaces d COMMAND_OUTBOX after d' →
  consistent d → appended c d d' ∧ consistent d'.
Proof.
  intros Hrun Hr Hd. split.
  - cbn [insertion run] in Hrun. unfold insert_row in Hrun. fold (new_row c) in Hrun. unfold appended.
    destruct (admitted _ _); [|done]. split; [done|]. cbn [negb] in Hrun.
    destruct (existsb _ _); [done|]. by injection Hrun as _ <-.
  - intros t. rewrite (Hr t). case_decide; [|apply Hd]. subst t.
    eapply (run_sound text_le (insertion c)); [done|apply Hd|exact Hrun].
Qed.

Lemma session_step_safe n e s s' :
  session_step n e s s' → consistent (visible s) → within n s →
  consistent (visible s') ∧ within n s' ∧ evolves (committed_by [e]) (visible s) (visible s').
Proof.
  unfold within. intros Hstep Hd Hw. destruct Hstep as [c d l d' Hn Hs|c d l1 l2 out after d' Hrun Hr|c d l1 l2|id was event became d l d' Hp];
    cbn [visible inflight] in *.
  - apply stage_Ok in Hs as (Hu&_). split; [done|]. split; [rewrite length_cons; lia|by apply evolves_refl].
  - destruct (insertion_appended c d out after d' Hrun Hr Hd) as [Ha Hd']. split; [done|].
    rewrite (appended_count _ _ _ Ha). rewrite length_app, length_cons in Hw. rewrite length_app.
    split; [lia|by apply appended_evolves].
  - rewrite length_app, length_cons in Hw. rewrite length_app. split; [done|]. split; [lia|by apply evolves_refl].
  - pose proof (publication_effect _ _ _ _ _ _ Hp Hd) as Hd'. apply publication_evolves in Hp as [He Hu]; [|done].
    split; [done|]. split; [lia|done].
Qed.

Lemma session_run_safe n es s s' :
  session_run n es s s' → consistent (visible s) → within n s →
  consistent (visible s') ∧ within n s' ∧ evolves (committed_by es) (visible s) (visible s').
Proof.
  induction 1 as [s|e es s1 s2 s3 Hstep _ IH]; intros Hd Hw; [split; [done|]; split; [done|by apply evolves_refl]|].
  apply session_step_safe in Hstep as (Hd2&Hw2&He2); [|done..]. destruct (IH Hd2 Hw2) as (Hd3&Hw3&He3).
  split; [done|]. split; [done|]. change (e :: es) with ([e] ++ es)%list. unfold committed_by in *.
  rewrite omap_app. by eapply evolves_trans.
Qed.

(** A session that is alone: its statement and its commit are the transaction. *)
Lemma alone_commits c u d d' : stage c d = Ok (u, d') → session_run 1 [Opens c; Commits c] (idle d) (idle d').
Proof.
  intros Hs. destruct u. pose proof Hs as Hok. apply stage_Ok in Hok as (_&Ha&Hnew&Hr).
  eapply run_cons; [apply (step_opens 1 c d [] d'); [cbn; lia|exact Hs]|].
  eapply run_cons; [|apply run_nil]. eapply (step_commits 1 c d [] []); [|exact Hr].
  cbn [insertion run]. unfold insert_row. fold (new_row c). rewrite Ha. cbn [negb].
  rewrite (clash_key COMMAND_OUTBOX id_columns eq_refl), Hnew. done.
Qed.

(** C35: however its sessions overlap, the outbox keeps every command and overshoots its bound by no
    more than the sessions that can stage at once.  Under [READ COMMITTED] each of at most [n]
    concurrent stagers counts only committed rows (outbox.py, ADR-0093), so between them the
    unconfirmed rows and the rows in flight stay within the bound plus [n - 1]: never more than 500
    for a lone stager, whatever else moves, and 504 for the pool of five that ADR-0090 allows.  Every
    command the table held is still there, every command in it is an old one or one whose session
    committed, and all of them are unchanged but for the publication state, which only moves along the
    lifecycle's edges. *)
Theorem command_outbox_safe (n : nat) (es : list session_event) (d : db) (s : sessions)
    (Hn : (1 ≤ n)%nat) (Hd : consistent d) (Hu : unconfirmed d ≤ MAXIMUM_UNCONFIRMED_RECORDS)
    (Hrun : session_run n es (idle d) s) :
  consistent (visible s) ∧
  unconfirmed (visible s) + Z.of_nat (length (inflight s)) ≤ MAXIMUM_UNCONFIRMED_RECORDS + (Z.of_nat n - 1) ∧
  evolves (committed_by es) d (visible s).
Proof.
  destruct (session_run_safe n es (idle d) s Hrun Hd) as (Hd'&Hw&He).
  - unfold within. cbn. lia.
  - split; [done|]. split; [unfold within in Hw; lia|done].
Qed.

(** ** Reading back *)

Definition text (v : sqlval) : string := match v with SText s | SBytes s => s | _ => "" end.
Definition optional_text (v : sqlval) : option string := match v with SText s => Some s | _ => None end.

(** The command a row of the table holds. *)
Definition command_of (r : row) : StagedCommand := {|
  command_id := text (cell r "command_id"); mission_id := text (cell r "mission_id");
  drone_id := text (cell r "drone_id"); payload := text (cell r "payload");
  correlation_id := text (cell r "correlation_id");
  causation_id := optional_text (cell r "causation_id");
  traceparent := text (cell r "traceparent"); staged_at := text (cell r "staged_at")
|}.

Lemma command_of_new c : command_of (new_row c) = c.
Proof. unfold command_of. cells. destruct c as [? ? ? ? ? [|] ? ?]; done. Qed.

(** Every row the table can hold reads as the command it holds. *)
Lemma stored_row r s :
  admitted COMMAND_OUTBOX r = true → cell r "state" = SText (state_value s) →
  stored (project (columns COMMAND_OUTBOX) r) s = Ok {| command := command_of r; state := s |}.
Proof.
  intros Ha Hs. unfold command_of, project. change (columns COMMAND_OUTBOX) with
    ["command_id"; "mission_id"; "drone_id"; "payload"; "state"; "correlation_id";
     "causation_id"; "traceparent"; "staged_at"]. cbn [fmap list_fmap].
  destruct (admitted_text _ r "command_id" 64 Ha) as [? ->]; [by_decide|].
  destruct (admitted_text _ r "mission_id" 64 Ha) as [? ->]; [by_decide|].
  destruct (admitted_text _ r "drone_id" 64 Ha) as [? ->]; [by_decide|].
  destruct (admitted_bytes _ r "payload" Ha) as [? ->]; [by_decide|].
  destruct (admitted_text _ r "correlation_id" 64 Ha) as [? ->]; [by_decide|].
  destruct (admitted_optional_text _ r "causation_id" 64 Ha) as [o ->]; [by_decide|].
  destruct (admitted_text _ r "traceparent" 55 Ha) as [? ->]; [by_decide|].
  destruct (admitted_text _ r "staged_at" 24 Ha) as [? ->]; [by_decide|].
  rewrite Hs. cbn. rewrite bool_decide_eq_true_2 by done. by destruct o.
Qed.

(** *** One move *)

Definition moved_to (became : OutboxState) (r : row) : row := assign [("state", SText (state_value became))] r.

Lemma moved_frame became r c : c ≠ "state" → cell (moved_to became r) c = cell r c.
Proof. intros Hc. apply cell_assign_frame. cbn. by rewrite list_elem_of_singleton. Qed.

Lemma moved_state became r : cell (moved_to became r) "state" = SText (state_value became).
Proof. unfold moved_to, assign. cbn [foldl fst snd]. by rewrite cell_dict_set, decide_True. Qed.

Lemma command_of_moved became r : command_of (moved_to became r) = command_of r.
Proof. unfold command_of. by rewrite !moved_frame. Qed.

Lemma moved_admitted became r : admitted COMMAND_OUTBOX r = true → admitted COMMAND_OUTBOX (moved_to became r) = true.
Proof.
  unfold admitted. rewrite !andb_true_iff. intros [Hc _]. split.
  - rewrite forallb_forall in *. intros c Hin. specialize (Hc c Hin). unfold column_admits in *.
    destruct (decide (column_name c = "state")) as [Hs|Hs]; [|by rewrite moved_frame].
    rewrite Hs, moved_state. destruct Hin as [<-|[<-|[<-|[<-|[<-|[<-|[<-|[<-|[<-|[]]]]]]]]]]; try done. by destruct became.
  - cbn [forallb checks COMMAND_OUTBOX check_value]. rewrite moved_state. by destruct became.
Qed.

(** What each identity finds after the move of one. *)
Lemma moved_entry d id became d' id' :
  replaces d COMMAND_OUTBOX (update_rows (id_conds id) [("state", SText (state_value became))] (rows d COMMAND_OUTBOX)) d' →
  entry d' id' = (if decide (id' = id) then moved_to became else λ r, r) <$> entry d id'.
Proof.
  intros Hr. unfold entry. rewrite (found_update _ _ _ _ _ _ Hr) by done.
  destruct (found d COMMAND_OUTBOX (id_conds id')) as [x|] eqn:Hx; [|done]. cbn. f_equal.
  apply found_Some in Hx as [_ Hx]. apply andb_true_iff in Hx as [Hx _]. cbn in Hx. apply sql_eq_true in Hx as [_ Hx].
  cbn [selects id_conds forallb holds]. rewrite Hx, andb_true_r. unfold sql_eq.
  destruct (decide (id' = id)) as [->|Hn]; [by rewrite bool_decide_true|]. rewrite bool_decide_false; [done|].
  intros [_ [= ?]]. done.
Qed.

(** A move the server takes, of a row that stands where the caller says. *)
Lemma publication_runs id was event became d r :
  consistent d → entry d id = Some r → cell r "state" = SText (state_value was) →
  Outbox.transition was event = Ok became → permits (publication_statement id was became) d = true →
  ∃ d', record_publication id was event d = Ok (became, d').
Proof.
  intros Hd Hr Hw Ht Hp. destruct (id_names_any id) as [k Hk].
  destruct (update_runs COMMAND_OUTBOX (id_conds id ++ [Equals "state" (SText (state_value was))])
    [("state", SText (state_value became))] "command_id" d) as (o&d'&Hu); [done|exact Hp| |].
  { apply Forall_forall. intros x Hx. apply where_rows_elem in Hx as [Hx _]. apply moved_admitted.
    destruct (Hd COMMAND_OUTBOX) as [Ha _]. rewrite Forall_forall in Ha. by apply Ha. }
  pose proof Hu as Hu'.
  apply (update_found COMMAND_OUTBOX d id_columns _ _ k _ _ (SText id)) in Hu'; [|done|left|done|done|left|by_decide].
  fold (entry d id) in Hu'. rewrite Hr in Hu'. cbn [selects forallb holds] in Hu'. rewrite Hw, andb_true_r in Hu'.
  unfold sql_eq in Hu'. rewrite bool_decide_true in Hu' by done. destruct Hu' as (->&_&_).
  exists d'. unfold record_publication. rewrite Ht. unfold publication_statement, id_columns.
  rewrite (tx_bind_run _ _ _ became d) by done.
  rewrite (tx_bind_run _ _ _ (Some (SText id)) d') by (by apply lift_run, lift_run).
  by rewrite (tx_bind_run _ _ _ tt d').
Qed.

(** The rows of one state, the oldest first, up to a limit. *)
Definition oldest (d : db) (s : OutboxState) (limit : Z) : list row :=
  take (Z.to_nat limit)
    (merge_sort (row_le text_le ["staged_at"; "command_id"])
       (filter (λ r, cell r "state" = SText (state_value s)) (rows d COMMAND_OUTBOX))).

Definition record_of (s : OutboxState) (r : row) : CommandOutboxRecord := {| command := command_of r; state := s |}.

Lemma state_where s l :
  where_rows [Equals "state" (SText (state_value s))] l = filter (λ r, cell r "state" = SText (state_value s)) l.
Proof.
  apply list_filter_iff. intros r. cbn [selects forallb holds].
  rewrite andb_true_r, sql_eq_true. split; [by intros [_ ?] | by intros ->].
Qed.

Lemma oldest_row d s limit r :
  r ∈ oldest d s limit → r ∈ rows d COMMAND_OUTBOX ∧ cell r "state" = SText (state_value s).
Proof.
  intros Hr. apply subseteq_take in Hr. rewrite merge_sort_Permutation in Hr.
  by apply list_elem_of_filter in Hr as [? ?].
Qed.

Lemma oldest_stored d s limit :
  consistent d →
  map_ok (λ row, stored row s) (project (columns COMMAND_OUTBOX) <$> oldest d s limit) =
  Ok (record_of s <$> oldest d s limit).
Proof.
  intros Hd. rewrite map_ok_fmap. apply map_ok_pure. intros r Hr. apply oldest_row in Hr as [Hr Hs].
  apply stored_row; [|done]. destruct (Hd COMMAND_OUTBOX) as [Ha _]. rewrite Forall_forall in Ha. by apply Ha.
Qed.

Lemma oldest_run s limit d :
  run text_le (pending_statement s limit) (rows d COMMAND_OUTBOX) =
  Ok (project (columns COMMAND_OUTBOX) <$> oldest d s limit, rows d COMMAND_OUTBOX).
Proof. unfold oldest. by rewrite <- state_where. Qed.

Lemma oldest_length d s limit : (length (oldest d s limit) ≤ Z.to_nat limit)%nat.
Proof. unfold oldest. rewrite length_take. lia. Qed.

(** A read within its bounds, of a state that is not terminal. *)
Lemma pending_runs s limit d :
  consistent d → permits (pending_statement s limit) d = true → 1 ≤ limit ≤ COMMAND_PUBLICATION_BATCH_SIZE →
  s ≠ CONFIRMED → ∃ d', d' ≡ d ∧ pending s limit d = Ok (record_of s <$> oldest d s limit, d').
Proof.
  intros Hd Hp Hl Hs. destruct (fetch_runs (pending_statement s limit) d _ _ eq_refl Hp (oldest_run s limit d)) as (d'&Hf&Hr).
  exists d'. split; [by apply (replaces_same _ COMMAND_OUTBOX)|]. unfold pending, raise_if.
  rewrite (proj2 (andb_true_iff _ _)) by (split; apply Z.leb_le; lia).
  rewrite (bool_decide_eq_false_2 (s = CONFIRMED)) by done. cbn [negb].
  rewrite !(tx_bind_run _ _ _ tt d) by done.
  rewrite (tx_bind_run _ _ _ _ _ (lift_run Driver _ _ _ Hf)). rewrite (tx_bind_run _ _ _ tt d').
  - unfold pure. by rewrite oldest_stored.
  - unfold pure. rewrite length_fmap. pose proof (oldest_length d s limit).
    rewrite (proj2 (Z.ltb_ge _ _)) by lia. done.
Qed.

(** What a read that returns gives. *)
Lemma pending_Ok s limit d l d' :
  consistent d → pending s limit d = Ok (l, d') → d' ≡ d ∧ l = record_of s <$> oldest d s limit.
Proof.
  intros Hd Hp. unfold pending in Hp. run_tx. subst.
  match goal with H : fetch_all _ _ = _ |- _ => apply fetch_Ok in H as (l'&Hrun&Hr); [|done] end.
  change (target (pending_statement s limit)) with COMMAND_OUTBOX in Hrun, Hr. rewrite oldest_run in Hrun.
  injection Hrun as <- <-. split; [by apply (replaces_same _ COMMAND_OUTBOX)|].
  match goal with H : map_ok _ _ = Ok _ |- _ => rewrite oldest_stored in H by done; by injection H as <- end.
Qed.

(** A recovery batch is exactly the oldest staged commands up to its limit, each read back
    as it was staged, and reading changes nothing; the read refuses only a limit outside one to
    fifty, or the terminal state. *)
Lemma pending_reads_oldest (s : OutboxState) (limit : Z) (d : db) :
  consistent d → (∀ st, permits st d = true) →
  if (1 <=? limit) && (limit <=? COMMAND_PUBLICATION_BATCH_SIZE) && bool_decide (s ≠ CONFIRMED)
  then ∃ d', d' ≡ d ∧ pending s limit d = Ok
         ((λ r, {| command := command_of r; state := s |}) <$>
            take (Z.to_nat limit)
              (merge_sort (row_le text_le ["staged_at"; "command_id"])
                 (filter (λ r, cell r "state" = SText (state_value s)) (rows d COMMAND_OUTBOX))), d')
  else pending s limit d = Err (if (1 <=? limit) && (limit <=? COMMAND_PUBLICATION_BATCH_SIZE)
                                then Refused TERMINAL_READ (PyStr (state_value s))
                                else Refused INVALID_READ_LIMIT (PyStr "redacted-limit")).
Proof.
  intros Hd Hp. destruct ((1 <=? limit) && (limit <=? COMMAND_PUBLICATION_BATCH_SIZE)) eqn:Hlimit.
  - bools. destruct (decide (s = CONFIRMED)) as [->|Hs].
    + unfold pending. by rewrite !(proj2 (Z.leb_le _ _)) by done.
    + rewrite (bool_decide_eq_true_2 (s ≠ CONFIRMED)) by done. by apply pending_runs.
  - unfold pending. by rewrite Hlimit.
Qed.
End outbox.

(** ** Witnesses *)

Definition sample_command (id : string) : StagedCommand := {|
  command_id := id; mission_id := "m1"; drone_id := "drone-1"; payload := "{}";
  correlation_id := "corr-1"; causation_id := Some "event-1";
  traceparent := "00-0123456789abcdef0123456789abcdef-0123456789abcdef-01";
  staged_at := "2026-01-01T00:00:00.000Z"
|}.

(** Two sessions that stage over each other. *)
Definition commit (c : StagedCommand) (d : db (Database := memory)) : db (Database := memory) :=
  match execute (Database := memory) (insertion c) d with Ok (_, d') => d' | Err _ => d end.

Lemma commit_steps c d l1 l2 :
  is_ok (execute (Database := memory) (insertion c) d) = true →
  session_step (H := memory) 2 (Commits c) {| visible := d; inflight := l1 ++ c :: l2 |}
    {| visible := commit c d; inflight := l1 ++ l2 |}.
Proof.
  intros Hc. unfold commit. pose proof (execute_run (Database := memory) (insertion c) d eq_refl eq_refl) as Hrun.
  destruct (run _ _ _) as [[out after]|e] eqn:Hr; [|by rewrite Hrun in Hc].
  destruct Hrun as (d'&Hd'&Hrows). rewrite Hd'. by eapply (step_commits (H := memory)).
Qed.

Lemma opens_steps c d l :
  is_ok (stage (H := memory) c d) = true → (length l < 2)%nat →
  session_step (H := memory) 2 (Opens c) {| visible := d; inflight := l |} {| visible := d; inflight := c :: l |}.
Proof. intros Hs Hl. destruct (stage c d) as [[[] d']|] eqn:Hst; [|done]. by eapply (step_opens (H := memory)). Qed.

Abbreviation both_opened := [Opens (sample_command "a"); Opens (sample_command "b");
                             Commits (sample_command "b"); Commits (sample_command "a")].

Lemma both_run f :
  is_ok (stage (H := memory) (sample_command "a") f) = true → is_ok (stage (H := memory) (sample_command "b") f) = true →
  is_ok (execute (Database := memory) (insertion (sample_command "b")) f) = true →
  is_ok (execute (Database := memory) (insertion (sample_command "a")) (commit (sample_command "b") f)) = true →
  session_run (H := memory) 2 both_opened (idle (H := memory) f)
    (idle (H := memory) (commit (sample_command "a") (commit (sample_command "b") f))).
Proof.
  intros Ha Hb Hcb Hca.
  eapply run_cons; [apply opens_steps; [exact Ha|cbn; lia]|].
  eapply run_cons; [apply opens_steps; [exact Hb|cbn; lia]|].
  eapply run_cons; [by apply (commit_steps (sample_command "b") f [] [sample_command "a"])|].
  eapply run_cons; [by apply (commit_steps (sample_command "a") _ [] [])|apply run_nil].
Qed.

Lemma commit_count c d :
  is_ok (execute (Database := memory) (insertion c) d) = true → consistent (H := memory) d →
  unconfirmed (H := memory) (commit c d) = unconfirmed (H := memory) d + 1 ∧ consistent (H := memory) (commit c d).
Proof.
  intros Hc Hd. unfold commit. pose proof (execute_run (Database := memory) (insertion c) d eq_refl eq_refl) as Hrun.
  destruct (run _ _ _) as [[out after]|e] eqn:Hr; [|by rewrite Hrun in Hc].
  destruct Hrun as (d'&Hd'&Hrows). rewrite Hd'.
  destruct (insertion_appended (H := memory) c d out after d' Hr Hrows Hd) as [Ha Hcd].
  split; [by apply (appended_count (H := memory) c)|done].
Qed.

(** The bound is exact: from 499 unconfirmed rows, two sessions that both find room leave 501. *)
Lemma overshoot_reached f :
  consistent (H := memory) f → unconfirmed (H := memory) f = 499 →
  is_ok (stage (H := memory) (sample_command "a") f) = true → is_ok (stage (H := memory) (sample_command "b") f) = true →
  is_ok (execute (Database := memory) (insertion (sample_command "b")) f) = true →
  is_ok (execute (Database := memory) (insertion (sample_command "a")) (commit (sample_command "b") f)) = true →
  ∃ s, session_run (H := memory) 2 both_opened (idle (H := memory) f) s ∧ unconfirmed (H := memory) (visible s) = 501.
Proof.
  intros Hd Hu Ha Hb Hcb Hca. eexists. split; [by apply both_run|]. cbn [visible idle].
  destruct (commit_count _ _ Hcb Hd) as [H1 Hd1]. destruct (commit_count _ _ Hca Hd1) as [H2 _]. lia.
Qed.

Lemma command_outbox_safe_witness :
  ∃ s, session_run (H := memory) 2 both_opened (idle (H := memory) []) s ∧ unconfirmed (H := memory) (visible s) = 2 ∧
    unconfirmed (H := memory) (visible s) + Z.of_nat (length (inflight s)) ≤ MAXIMUM_UNCONFIRMED_RECORDS + (Z.of_nat 2 - 1) ∧
    evolves (H := memory) [sample_command "b"; sample_command "a"] [] (visible s).
Proof.
  assert (Hrun := both_run [] ltac:(vm_compute; reflexivity) ltac:(vm_compute; reflexivity)
    ltac:(vm_compute; reflexivity) ltac:(vm_compute; reflexivity)).
  eexists. split; [exact Hrun|]. split; [vm_compute; reflexivity|].
  exact (proj2 (command_outbox_safe (H := memory) 2 both_opened [] _ ltac:(lia) memory_empty
    ltac:(apply Z.leb_le; vm_compute; reflexivity) Hrun)).
Defined.

(** The read of what one caller staged. *)
Definition one_staged : db (Database := memory) := (transaction (stage (H := memory) (sample_command "a")) []).2.

Lemma pending_reads_oldest_witness :
  ∃ d', d' ≡@{@db memory} one_staged ∧
    pending (H := memory) STAGED 50 one_staged = Ok ([{| command := sample_command "a"; state := STAGED |}], d').
Proof.
  assert (Hd : consistent (H := memory) one_staged).
  { unfold one_staged, transaction. destruct (stage _ _) as [[u d']|e] eqn:Hs; [|exact memory_empty].
    exact (stage_effect (H := memory) _ _ _ _ Hs memory_empty). }
  destruct (pending_reads_oldest (H := memory) STAGED 50 _ Hd (λ _, eq_refl)) as (d'&Hd'&Hr).
  exists d'. split; [exact Hd'|]. vm_compute in Hr |- *. exact Hr.
Defined.
