(* ===== verification/StoreApprovals.v ===== *)
(** * Durable approvals

    [packages/store/src/aerial_rescue_store/approvals.py]: an operator's decision is inserted
    once per proposal, read under its row lock, and becomes executed by one guarded write that
    matches only a row still approved. *)

From S2P Require Import Prelude PyStr PyVal Approvals Sql Schema.
Local Open Scope string_scope.
Local Open Scope Z_scope.

Inductive StoredApprovalRefusal : Set :=
| NOT_A_DECISION | NOT_FOUND | UNKNOWN_STATE | NOT_EXECUTED | NOT_CONSUMABLE.

Record StoredApproval : Set := {
  mission_id : string; proposal_id : string; state : ApprovalState; operator_identity : string;
  issued_wall : string; issued_monotonic_milliseconds : Z; time_to_live_milliseconds : Z;
  proposal_digest : string
}.

Definition DECISION_STATES : list ApprovalState := [APPROVED; REJECTED].

Definition key_columns : list string := ["proposal_id"].
Definition key_conds (proposal : string) : list cond := [Equals "proposal_id" (SText proposal)].

Definition lock_statement (proposal : string) : statement :=
  Select APPROVAL
    ["mission_id"; "proposal_id"; "state"; "operator_identity"; "issued_wall";
     "issued_monotonic_milliseconds"; "time_to_live_milliseconds"; "proposal_digest"]
    (key_conds proposal) [] None.

Definition stored_values (a : StoredApproval) : row :=
  [("mission_id", SText (mission_id a)); ("proposal_id", SText (proposal_id a));
   ("state", SText (state_value (state a))); ("operator_identity", SText (operator_identity a));
   ("issued_wall", SText (issued_wall a));
   ("issued_monotonic_milliseconds", SInt (issued_monotonic_milliseconds a));
   ("time_to_live_milliseconds", SInt (time_to_live_milliseconds a));
   ("proposal_digest", SText (proposal_digest a))].

Definition record_statement (a : StoredApproval) : statement :=
  Insert APPROVAL (stored_values a) NoClause [].

Definition consumed_values (a : StoredApproval) : row := [("state", SText (state_value (state a)))].

Definition consume_statement (a : StoredApproval) : statement :=
  Update APPROVAL
    (key_conds (proposal_id a) ++ [Equals "state" (SText (state_value APPROVED))])%list
    (consumed_values a) ["proposal_id"].

(** [_stored] *)
Definition stored (row : list sqlval) : result (store_failure StoredApprovalRefusal) StoredApproval :=
  match row with
  | [mission; proposal; st; operator; wall; monotonic; window; digest] =>
      s ← or_raise (enum_of state_value (enum ApprovalState) st) (Refused UNKNOWN_STATE (py st));
      m ← int_of monotonic;
      w ← int_of window;
      Ok {| mission_id := str_of mission; proposal_id := str_of proposal; state := s;
            operator_identity := str_of operator; issued_wall := str_of wall;
            issued_monotonic_milliseconds := m; time_to_live_milliseconds := w;
            proposal_digest := str_of digest |}
  | _ => Err Unpack
  end.

Section approvals.
Context `{Database}.

Definition record (a : StoredApproval) : tx (store_failure StoredApprovalRefusal) unit :=
  pure (raise_if (negb (bool_decide (state a ∈ DECISION_STATES)))
                 (Refused NOT_A_DECISION (PyStr (state_value (state a))))) ;;
  sql (fetch_all (record_statement a)) ;;
  mret tt.

Definition load_for_update (proposal : string) : tx (store_failure StoredApprovalRefusal) StoredApproval :=
  row ← sql (one_or_none (lock_statement proposal));
  pure (r ← or_raise row (Refused NOT_FOUND (PyStr proposal)); stored r).

Definition persist_consumed (a : StoredApproval) : tx (store_failure StoredApprovalRefusal) unit :=
  pure (raise_if (negb (bool_decide (state a = EXECUTED)))
                 (Refused NOT_EXECUTED (PyStr (state_value (state a))))) ;;
  changed ← sql (scalar (consume_statement a));
  pure (raise_if (bool_decide (changed = None)) (Refused NOT_CONSUMABLE (PyStr (proposal_id a)))).

(** ** The table *)

Definition entry (d : db) (proposal : string) : option row := found d APPROVAL (key_conds proposal).

Definition new_row (a : StoredApproval) : row := make_row APPROVAL (stored_values a).

Lemma key_names a : names_key key_columns (key_conds (proposal_id a)) (new_row a).
Proof.
  intros x. cbn [selects key_conds same_key key_columns forallb holds]. cells.
  by rewrite (sql_eq_comm (cell x _)).
Qed.

Lemma key_names_any p : ∃ r, names_key key_columns (key_conds p) r.
Proof.
  eexists. exact (key_names {| mission_id := ""; proposal_id := p; state := APPROVED;
    operator_identity := ""; issued_wall := ""; issued_monotonic_milliseconds := 0;
    time_to_live_milliseconds := 0; proposal_digest := "" |}).
Qed.

Lemma enum_of_state v s : enum_of state_value (enum ApprovalState) v = Some s ↔ v = SText (state_value s).
Proof.
  split; [|intros ->; by destruct s]. destruct v as [|x| |]; try done. cbn.
  repeat case_decide; intros [= <-]; by subst.
Qed.

(** A durable row and the record read from it. *)
Definition holds_approval (r : row) (a : StoredApproval) : Prop :=
  cell r "mission_id" = SText (mission_id a) ∧ cell r "proposal_id" = SText (proposal_id a) ∧
  cell r "state" = SText (state_value (state a)) ∧
  cell r "operator_identity" = SText (operator_identity a) ∧
  cell r "issued_wall" = SText (issued_wall a) ∧
  cell r "issued_monotonic_milliseconds" = SInt (issued_monotonic_milliseconds a) ∧
  cell r "time_to_live_milliseconds" = SInt (time_to_live_milliseconds a) ∧
  cell r "proposal_digest" = SText (proposal_digest a).

Lemma load_Ok proposal d a d' :
  consistent d → load_for_update proposal d = Ok (a, d') →
  d' ≡ d ∧ ∃ r, entry d proposal = Some r ∧ holds_approval r a.
Proof.
  intros Hd Hl. unfold load_for_update in Hl. run_tx. subst.
  match goal with H : one_or_none _ _ = _ |- _ => apply select_found in H as [Hs Hf] end.
  fold (entry d proposal) in Hf. destruct (entry d proposal) as [r|] eqn:Hr; [|done].
  cbn in Hf. injection Hf as ->.
  split; [done|]. exists r. split; [done|].
  pose proof (found_admitted _ _ _ _ Hd Hr) as Ha.
  match goal with H : stored _ = _ |- _ => cbn in H end. run_ok. subst.
  match goal with H : enum_of _ _ _ = _ |- _ => apply enum_of_state in H end.
  unfold int_of in *.
  destruct (cell r "issued_monotonic_milliseconds") eqn:?, (cell r "time_to_live_milliseconds") eqn:?;
    try done. run_ok. subst. unfold holds_approval. cbn.
  destruct (admitted_text _ r "mission_id" 64 Ha) as [? E1]; [by_decide|].
  destruct (admitted_text _ r "proposal_id" 64 Ha) as [? E2]; [by_decide|].
  destruct (admitted_text _ r "operator_identity" 64 Ha) as [? E3]; [by_decide|].
  destruct (admitted_text _ r "issued_wall" 24 Ha) as [? E4]; [by_decide|].
  destruct (admitted_text _ r "proposal_digest" 64 Ha) as [? E5]; [by_decide|].
  rewrite E1, E2, E3, E4, E5. done.
Qed.

Lemma persist_Ok a u d d' :
  consistent d → persist_consumed a d = Ok (u, d') →
  state a = EXECUTED ∧
  (∃ r, entry d (proposal_id a) = Some r ∧ cell r "state" = SText (state_value APPROVED)) ∧
  replaces d APPROVAL
    (update_rows (key_conds (proposal_id a)) [("state", SText "executed")] (rows d APPROVAL)) d'.
Proof.
  intros Hd Hp. unfold persist_consumed in Hp. run_tx. subst. bools. split; [done|].
  match goal with H : scalar _ _ = _ |- _ => unfold consume_statement in H;
    apply (update_found APPROVAL d key_columns _ _ (new_row a) _ _ (SText (proposal_id a))) in H as Hu
  end; [|done|left|apply key_names|done|left|by_decide].
  fold (entry d (proposal_id a)) in Hu. destruct (entry d (proposal_id a)) as [r|]; [|naive_solver].
  destruct (selects _ r) eqn:Hs; [|naive_solver]. destruct Hu as (_&_&Hr). split.
  - exists r. split; [done|]. apply andb_true_iff in Hs as [Hs _]. by apply sql_eq_true in Hs as [_ Hs].
  - unfold consumed_values in Hr.
    match goal with H : state a = EXECUTED |- _ => by rewrite H in Hr end.
Qed.

Lemma record_Ok a u d d' :
  record a d = Ok (u, d') →
  state a ∈ DECISION_STATES ∧ existsb (same_key key_columns (new_row a)) (rows d APPROVAL) = false ∧
  replaces d APPROVAL (rows d APPROVAL ++ [new_row a])%list d'.
Proof.
  intros Hr. unfold record in Hr. run_tx. subst. bools. split; [done|].
  match goal with H : fetch_all _ _ = _ |- _ =>
    apply (insert_plain_Ok APPROVAL key_columns eq_refl) in H as (_&?&?) end. done.
Qed.

Lemma record_effect a : effect stays_consistent (record a).
Proof. unfold record, record_statement. effects. Qed.

Lemma load_effect p : effect stays_consistent (load_for_update p).
Proof. unfold load_for_update, lock_statement. effects. Qed.

Lemma persist_effect a : effect stays_consistent (persist_consumed a).
Proof. unfold persist_consumed, consume_statement. effects. Qed.

Lemma record_confined a : effect (confined [APPROVAL]) (record a).
Proof. unfold record, record_statement. effects. Qed.

Lemma persist_confined a : effect (confined [APPROVAL]) (persist_consumed a).
Proof. unfold persist_consumed, consume_statement. effects. Qed.

(** ** An approval is executed once *)

(** What later transactions may do to the approvals: add decisions, and execute approved ones. *)
Definition approvals_progress (d d' : db) : Prop :=
  ∀ p r, entry d p = Some r → ∃ r', entry d' p = Some r' ∧
    (∀ c, c ≠ "state" → cell r' c = cell r c) ∧
    (cell r' "state" = cell r "state" ∨
     cell r "state" = SText (state_value APPROVED) ∧ cell r' "state" = SText (state_value EXECUTED)).

#[global] Instance approvals_progress_refl : Reflexive approvals_progress.
Proof. intros d p r Hr. exists r. auto. Qed.

#[global] Instance approvals_progress_trans : Transitive approvals_progress.
Proof.
  intros d1 d2 d3 H1 H2 p r Hr. destruct (H1 p r Hr) as (r1&Hr1&Hf1&Hs1).
  destruct (H2 p r1 Hr1) as (r2&Hr2&Hf2&Hs2). exists r2. split; [done|]. split.
  - intros c Hc. by rewrite Hf2, Hf1.
  - destruct Hs1 as [Hs1|[Hs1 Hs1']], Hs2 as [Hs2|[Hs2 Hs2']].
    + left. congruence.
    + right. split; congruence.
    + right. split; congruence.
    + rewrite Hs1' in Hs2. discriminate.
Qed.

Lemma record_progress a u d d' : record a d = Ok (u, d') → approvals_progress d d'.
Proof.
  intros (_&_&Hr)%record_Ok p r Hp. exists r. split; [|by auto].
  unfold entry in *. by rewrite (found_snoc _ _ _ _ _ Hr), Hp.
Qed.

Lemma persist_progress a u d d' :
  consistent d → persist_consumed a d = Ok (u, d') →
  approvals_progress d d' ∧
  ∃ r, entry d' (proposal_id a) = Some r ∧ cell r "state" = SText (state_value EXECUTED).
Proof.
  intros Hd Hp. apply persist_Ok in Hp as (_&(r0&Hr0&Hst)&Hr); [|done].
  assert (Hentry : ∀ p, entry d' p = (λ x, if selects (key_conds (proposal_id a)) x
                          then assign [("state", SText "executed")] x else x) <$> entry d p)
    by (intros p; by apply (found_update _ _ _ _ _ _ Hr)).
  split.
  - intros p r Hpr. rewrite Hentry, Hpr. eexists. split; [done|]. cbv beta.
    destruct (selects (key_conds (proposal_id a)) r) eqn:Hs; [|by auto].
    apply found_Some in Hpr as [Hin _].
    assert (Hrr : r = r0).
    { enough (Some r = Some r0) by congruence. rewrite <- Hr0. symmetry.
      eapply found_elem; [done|left|apply key_names|done..]. }
    subst r0. split.
    + intros c Hc. apply cell_assign_frame. cbn. by rewrite list_elem_of_singleton.
    + right. split; [done|]. unfold assign. cbn [foldl fst snd]. by rewrite cell_dict_set, decide_True.
  - rewrite Hentry, Hr0. apply found_Some in Hr0 as [_ Hs]. eexists. split; [done|].
    cbv beta. rewrite Hs. unfold assign. cbn [foldl fst snd]. by rewrite cell_dict_set, decide_True.
Qed.
End approvals.
