(* ===== verification/StoreAudit.v ===== *)
(** * The audit log

    [packages/store/src/aerial_rescue_store/audit.py]: a mission's records are numbered by a
    counter that one conditional upsert advances inside the caller's transaction.  [timeline]
    is the invariant: the mission's ordinals are one, two, and so on, and the counter is the
    last one issued.  Reading returns the records in that order. *)

From stdpp Require Import sorting.
From S2P Require Import Prelude PyStr PyVal Sql Schema.
Local Open Scope string_scope.
Local Open Scope Z_scope.

Definition FIRST_ORDINAL : Z := 1.
Definition ORDINAL_STEP : Z := 1.
Definition AUDIT_MEMBER_COUNT : nat := 8.

Inductive AuditRefusal : Set :=
| NO_ORDINAL_ISSUED | INVALID_READ_LIMIT | INVALID_AFTER_ORDINAL | READ_LIMIT_EXCEEDED
| UNREADABLE_ROW | ORDER_VIOLATION.

Record AuditRecord : Set := {
  mission_id : string; kind : string; occurred_at : string; payload : string;
  correlation_id : string; causation_id : option string; traceparent : string
}.

Record StoredAuditRecord : Set := { ordinal : Z; record : AuditRecord }.

Definition counter_columns : list string := ["mission_id"].
Definition mission_conds (m : string) : list cond := [Equals "mission_id" (SText m)].

Definition counter_values (m : string) : row :=
  [("mission_id", SText m); ("next_ordinal", SInt FIRST_ORDINAL)].

Definition next_ordinal_statement (m : string) : statement :=
  Insert AUDIT_SEQUENCE (counter_values m) (DoIncrement counter_columns "next_ordinal" ORDINAL_STEP)
         ["next_ordinal"].

Definition record_values (r : AuditRecord) (ordinal : sqlval) : row :=
  [("mission_id", SText (mission_id r)); ("ordinal", ordinal); ("kind", SText (kind r));
   ("occurred_at", SText (occurred_at r)); ("payload", SBytes (payload r));
   ("correlation_id", SText (correlation_id r)); ("causation_id", text_or_null (causation_id r));
   ("traceparent", SText (traceparent r))].

Definition record_statement (r : AuditRecord) (ordinal : sqlval) : statement :=
  Insert AUDIT_RECORD (record_values r ordinal) NoClause [].

Definition ordered_statement (m : string) (limit : Z) : statement :=
  Select AUDIT_RECORD (columns AUDIT_RECORD) (mission_conds m) ["ordinal"] (Some limit).

Definition ordered_after_statement (m : string) (after limit : Z) : statement :=
  Select AUDIT_RECORD (columns AUDIT_RECORD) (mission_conds m ++ [Above "ordinal" after])%list
         ["ordinal"] (Some limit).

(** [_stored_record] *)
Definition stored_record (m : string) (row : list sqlval)
    : result (store_failure AuditRefusal) StoredAuditRecord :=
  let unreadable := refuse UNREADABLE_ROW (PyStr m) in
  match row with
  | [SText mission; SInt n; SText k; SText at_; SBytes body; SText correlation; causation; SText trace] =>
      if negb (0 <? n) || negb (bool_decide (mission = m)) then unreadable else
      match causation with
      | SNull | SText _ =>
          Ok {| ordinal := n;
                record := {| mission_id := mission; kind := k; occurred_at := at_; payload := body;
                             correlation_id := correlation;
                             causation_id := match causation with SText c => Some c | _ => None end;
                             traceparent := trace |} |}
      | _ => unreadable
      end
  | _ => unreadable
  end.

(** [any(current.ordinal <= previous.ordinal for previous, current in pairwise(records))] *)
Fixpoint out_of_order (rs : list StoredAuditRecord) : bool :=
  match rs with
  | previous :: (current :: _) as rest => (ordinal current <=? ordinal previous) || out_of_order rest
  | _ => false
  end.

Section audit.
Context `{Database}.

Definition append (r : AuditRecord) : tx (store_failure AuditRefusal) sqlval :=
  issued ← sql (scalar (next_ordinal_statement (mission_id r)));
  n ← pure (or_raise issued (Refused NO_ORDINAL_ISSUED (PyStr (mission_id r))));
  sql (fetch_all (record_statement r n)) ;;
  mret n.

Definition read_ordered (m : string) (limit : Z)
    : tx (store_failure AuditRefusal) (list StoredAuditRecord) :=
  pure (raise_if (limit <=? 0) (Refused INVALID_READ_LIMIT (PyStr "redacted-limit"))) ;;
  rows ← sql (fetch_all (ordered_statement m limit));
  pure (raise_if (limit <? Z.of_nat (length rows)) (Refused READ_LIMIT_EXCEEDED (PyStr m))) ;;
  records ← pure (map_ok (stored_record m) rows);
  pure (raise_if (out_of_order records) (Refused ORDER_VIOLATION (PyStr m))) ;;
  mret records.

Definition read_ordered_after (m : string) (after limit : Z)
    : tx (store_failure AuditRefusal) (list StoredAuditRecord) :=
  pure (raise_if (after <? 0) (Refused INVALID_AFTER_ORDINAL (PyStr "redacted-ordinal"))) ;;
  pure (raise_if (limit <=? 0) (Refused INVALID_READ_LIMIT (PyStr "redacted-limit"))) ;;
  rows ← sql (fetch_all (ordered_after_statement m after limit));
  pure (raise_if (limit <? Z.of_nat (length rows)) (Refused READ_LIMIT_EXCEEDED (PyStr m))) ;;
  records ← pure (map_ok (stored_record m) rows);
  pure (raise_if (match records with r :: _ => ordinal r <=? after | [] => false end)
                 (Refused ORDER_VIOLATION (PyStr m))) ;;
  pure (raise_if (out_of_order records) (Refused ORDER_VIOLATION (PyStr m))) ;;
  mret records.

(** ** The timeline *)

Definition counter (d : db) (m : string) : option row := found d AUDIT_SEQUENCE (mission_conds m).

(** The mission's rows, in the order they were appended. *)
Definition mission_rows (d : db) (m : string) : list row := where_rows (mission_conds m) (rows d AUDIT_RECORD).

Definition new_row (r : AuditRecord) (n : sqlval) : row := make_row AUDIT_RECORD (record_values r n).

(** Record [n] of the mission is the [n]th of the list, and the counter stands at the last. *)
Definition timeline (d : db) (m : string) (rs : list AuditRecord) : Prop :=
  mission_rows d m = imap (λ i r, new_row r (SInt (Z.of_nat i + 1))) rs ∧
  Forall (λ r, mission_id r = m) rs ∧
  match counter d m with
  | None => rs = []
  | Some c => rs ≠ [] ∧ cell c "next_ordinal" = SInt (Z.of_nat (length rs))
  end.

Lemma counter_names m : names_key counter_columns (mission_conds m) (make_row AUDIT_SEQUENCE (counter_values m)).
Proof.
  intros x. cbn [selects mission_conds same_key counter_columns forallb holds]. cells.
  by rewrite (sql_eq_comm (cell x _)).
Qed.

Lemma new_row_mission r n m :
  selects (mission_conds m) (new_row r n) = bool_decide (mission_id r = m).
Proof.
  cbn [selects mission_conds forallb holds]. cells. rewrite andb_true_r.
  apply bool_decide_ext. naive_solver.
Qed.

Abbreviation first_row m := (make_row AUDIT_SEQUENCE (counter_values m)).
Abbreviation advanced m := (increment counter_columns "next_ordinal" ORDINAL_STEP (first_row m)).

Lemma first_row_key m : same_key counter_columns (first_row m) (first_row m) = true.
Proof. apply same_key_true. constructor; [|done]. by cells. Qed.

Lemma advanced_where m l :
  where_rows (mission_conds m) (advanced m <$> l) = advanced m <$> where_rows (mission_conds m) l.
Proof.
  induction l as [|x l IH]; [done|].
  rewrite fmap_cons, !where_rows_cons, !counter_names, same_key_increment, IH by by_decide.
  by destruct (same_key _ _ x).
Qed.

(** The counter issues one more than the last ordinal, and stands there. *)
Lemma counter_advances m k d o d' :
  consistent d →
  match counter d m with None => k = 0 | Some c => cell c "next_ordinal" = SInt k end →
  scalar (next_ordinal_statement m) d = Ok (Some o, d') →
  o = SInt (k + 1) ∧ rows d' AUDIT_RECORD = rows d AUDIT_RECORD ∧
  ∃ c, counter d' m = Some c ∧ cell c "next_ordinal" = o.
Proof.
  intros Hd Hk Hs.
  apply (upsert_found AUDIT_SEQUENCE d counter_columns (mission_conds m) _ _ 1) in Hs;
    [|done..|apply counter_names|by_decide|done].
  fold (counter d m) in Hs. unfold counter, found.
  destruct (counter d m) as [c|] eqn:Hc; destruct Hs as [Ho Hs];
    rewrite (replaces_target _ _ _ _ Hs);
    (split; [|split; [apply (replaces_frame _ _ _ _ _ Hs); by_decide|]]).
  - assert (Hsel := Hc). apply found_Some in Hsel as [_ Hsel]. rewrite counter_names in Hsel.
    unfold increment in Ho. rewrite Hsel, cell_dict_set, decide_True, Hk in Ho by done.
    by injection Ho as ->.
  - assert (Hsel := Hc). apply found_Some in Hsel as [_ Hsel]. rewrite counter_names in Hsel.
    rewrite advanced_where. unfold counter, found in Hc.
    destruct (where_rows _ (rows d AUDIT_SEQUENCE)) as [|x l]; [done|]. injection Hc as ->.
    exists (advanced m c). split; [done|]. unfold increment in *. rewrite Hsel in *.
    rewrite cell_dict_set, decide_True, Hk in * by done. by injection Ho as ->.
  - subst k. by injection Ho as ->.
  - injection Ho as ->. rewrite where_rows_app, (proj1 (found_None _ _ _) Hc), where_rows_cons.
    rewrite counter_names, first_row_key. eexists. split; [done|]. by cells.
Qed.

Lemma append_Ok r o d d' rs :
  consistent d → timeline d (mission_id r) rs → append r d = Ok (o, d') →
  o = SInt (Z.of_nat (length rs) + 1) ∧ timeline d' (mission_id r) (rs ++ [r])%list ∧
  ∀ m, m ≠ mission_id r → mission_rows d' m = mission_rows d m.
Proof.
  intros Hd (Hrows&Hall&Hc) Ha. unfold append in Ha. run_tx. subst.
  match goal with H : scalar _ _ = Ok (_, ?d1) |- _ => rename H into Hs; rename d1 into d1' end.
  match goal with H : fetch_all _ _ = _ |- _ =>
    apply (insert_plain_Ok AUDIT_RECORD ["mission_id"; "ordinal"] eq_refl) in H as (_&_&Hf) end.
  apply (counter_advances _ (Z.of_nat (length rs))) in Hs as (->&Hrec&c&Hc'&Hn); [|done|].
  2: { destruct (counter d (mission_id r)); [by destruct Hc | by subst]. }
  fold (new_row r (SInt (Z.of_nat (length rs) + 1))) in Hf.
  assert (Hm : ∀ m, mission_rows d' m = (mission_rows d m ++
            if bool_decide (mission_id r = m) then [new_row r (SInt (Z.of_nat (length rs) + 1))] else [])%list).
  { intros m. unfold mission_rows. rewrite (replaces_target _ _ _ _ Hf), where_rows_app, Hrec.
    by rewrite where_rows_cons, new_row_mission. }
  split; [done|]. split; [split; [|split]|].
  - rewrite Hm, Hrows, bool_decide_eq_true_2, imap_app by done. cbn. by rewrite Nat.add_0_r.
  - apply Forall_app. auto.
  - unfold counter, found in *.
    rewrite (replaces_frame _ _ _ _ AUDIT_SEQUENCE Hf) by by_decide. rewrite Hc', Hn, length_app. cbn.
    split; [by destruct rs|]. f_equal. lia.
  - intros m Hne. by rewrite Hm, bool_decide_eq_false_2, app_nil_r by congruence.
Qed.

(** One record is added, whatever its ordinal. *)
Lemma append_adds r o d d' :
  append r d = Ok (o, d') →
  rows d' AUDIT_RECORD = (rows d AUDIT_RECORD ++ [new_row r o])%list.
Proof.
  intros Ha. unfold append in Ha. run_tx. subst.
  match goal with H : scalar _ _ = Ok (_, ?d1) |- _ =>
    assert (Hs : rows d1 AUDIT_RECORD = rows d AUDIT_RECORD)
      by (eapply (scalar_effect (confined [AUDIT_SEQUENCE])); [|exact H|by_decide];
          by apply fetch_confined; [|left]) end.
  match goal with H : fetch_all _ _ = _ |- _ =>
    apply (insert_plain_Ok AUDIT_RECORD ["mission_id"; "ordinal"] eq_refl) in H as (_&_&Hf) end.
  by rewrite (replaces_target _ _ _ _ Hf), Hs.
Qed.

Lemma append_effect r : effect stays_consistent (append r).
Proof. unfold append, next_ordinal_statement, record_statement. effects. Qed.

Lemma append_confined r : effect (confined [AUDIT_SEQUENCE; AUDIT_RECORD]) (append r).
Proof. unfold append, next_ordinal_statement, record_statement. effects. Qed.

(** ** Reading a timeline back *)

Definition numbered (start : nat) (rs : list AuditRecord) : list StoredAuditRecord :=
  imap (λ i r, {| ordinal := Z.of_nat (start + i) + 1; record := r |}) rs.

Abbreviation timeline_rows start rs :=
  (imap (λ i r, new_row r (SInt (Z.of_nat (start + i) + 1))) rs).

Lemma timeline_rows_cons k r rs :
  timeline_rows k (r :: rs) = new_row r (SInt (Z.of_nat k + 1)) :: timeline_rows (S k) rs.
Proof.
  rewrite imap_cons, Nat.add_0_r. f_equal. apply imap_ext. intros i x _. cbn.
  by rewrite Nat.add_succ_r.
Qed.

Lemma numbered_cons k r rs :
  numbered k (r :: rs) = {| ordinal := Z.of_nat k + 1; record := r |} :: numbered (S k) rs.
Proof.
  unfold numbered. rewrite imap_cons, Nat.add_0_r. f_equal. apply imap_ext. intros i x _. cbn.
  by rewrite Nat.add_succ_r.
Qed.

(** The rows of a timeline are already in the order a query by ordinal gives them. *)
Lemma timeline_sorted k rs :
  merge_sort (row_le text_le ["ordinal"]) (timeline_rows k rs) = timeline_rows k rs.
Proof.
  apply sort_sorted. revert k. induction rs as [|r rs IH]; intros k; [constructor|].
  rewrite timeline_rows_cons. constructor; [apply IH|]. apply Forall_lookup_2. intros i x Hx.
  apply list_lookup_imap_Some in Hx as (r'&_&->). unfold row_le, project. cbn [fmap list_fmap]. cells.
  cbn [values_le]. rewrite decide_False by (intros [= He]; lia). cbn [value_le].
  rewrite Z.leb_le. lia.
Qed.

Lemma timeline_reads m k rs :
  Forall (λ r, mission_id r = m) rs →
  map_ok (stored_record m) (project (columns AUDIT_RECORD) <$> timeline_rows k rs) = Ok (numbered k rs).
Proof.
  revert k. induction rs as [|r rs IH]; intros k Hm; [done|]. apply Forall_cons in Hm as [Hr Hm].
  rewrite timeline_rows_cons, numbered_cons, fmap_cons. cbn [map_ok]. rewrite (IH _ Hm).
  unfold project. change (columns AUDIT_RECORD) with
    ["mission_id"; "ordinal"; "kind"; "occurred_at"; "payload"; "correlation_id"; "causation_id";
     "traceparent"]. cbn [fmap list_fmap]. cells. cbn [stored_record].
  rewrite (proj2 (Z.ltb_lt _ _)), bool_decide_eq_true_2 by (done || lia).
  by destruct r as [? ? ? ? ? [|] ?].
Qed.

Lemma numbered_in_order k rs : out_of_order (numbered k rs) = false.
Proof.
  revert k. induction rs as [|r [|r' rs] IH]; intros k; [done..|].
  specialize (IH (S k)). rewrite !numbered_cons in *. cbn [out_of_order ordinal] in *.
  rewrite IH, orb_false_r. apply Z.leb_gt. lia.
Qed.

Lemma take_numbered n k rs : take n (timeline_rows k rs) = timeline_rows k (take n rs).
Proof.
  revert n k. induction rs as [|r rs IH]; intros [|n] k; [done..|].
  rewrite firstn_cons, !timeline_rows_cons. cbn [firstn]. by rewrite IH.
Qed.

Lemma read_ordered_runs d m rs limit :
  timeline d m rs → permits (ordered_statement m limit) d = true → 0 < limit →
  ∃ d', d' ≡ d ∧ read_ordered m limit d = Ok (numbered 0 (take (Z.to_nat limit) rs), d').
Proof.
  intros (Hrows&Hm&_) Hp Hlimit.
  destruct (fetch_runs (ordered_statement m limit) d
    (project (columns AUDIT_RECORD) <$> timeline_rows 0 (take (Z.to_nat limit) rs)) (rows d AUDIT_RECORD))
    as (d'&Hf&Hr); [done|done| |].
  { cbn [ordered_statement target run]. fold (mission_rows d m). rewrite Hrows.
    change (imap _ rs) with (timeline_rows 0 rs). by rewrite timeline_sorted, take_numbered. }
  exists d'. split; [by apply (replaces_same _ AUDIT_RECORD)|]. unfold read_ordered, raise_if.
  rewrite (proj2 (Z.leb_gt _ _)) by done. rewrite (tx_bind_run _ _ _ tt d) by done.
  rewrite (tx_bind_run _ _ _ _ _ (lift_run Driver _ _ _ Hf)).
  rewrite length_fmap, length_imap, length_take, (proj2 (Z.ltb_ge _ _)) by lia.
  rewrite (tx_bind_run _ _ _ tt d') by done.
  rewrite (tx_bind_run _ _ _ (numbered 0 (take (Z.to_nat limit) rs)) d').
  2: { unfold pure. rewrite timeline_reads by by apply Forall_take. done. }
  by rewrite numbered_in_order, (tx_bind_run _ _ _ tt d').
Qed.

(** ** Histories: each append its own transaction *)

Definition appended (d : db) (r : AuditRecord) : db := (transaction (append r) d).2.

Lemma other_mission m m' x :
  m ≠ m' → same_key counter_columns (first_row m') x = true → selects (mission_conds m) x = false.
Proof.
  intros Hm Hx. apply same_key_true in Hx. apply Forall_cons in Hx as [[_ Hx] _]. cells.
  cbn [selects mission_conds forallb holds]. rewrite <- Hx, andb_true_r. apply bool_decide_eq_false.
  intros [_ [=]]. congruence.
Qed.

Lemma advanced_others m m' l :
  m ≠ m' → where_rows (mission_conds m) (advanced m' <$> l) = where_rows (mission_conds m) l.
Proof.
  intros Hm. induction l as [|x l IH]; [done|]. rewrite fmap_cons, !where_rows_cons, IH.
  destruct (same_key counter_columns (first_row m') x) eqn:Hk.
  - rewrite (other_mission m m' x Hm Hk). rewrite (other_mission m m' _ Hm); [done|].
    rewrite same_key_increment; [done|by_decide].
  - unfold increment. by rewrite Hk.
Qed.

Lemma counter_others m m' d o d' :
  consistent d → m ≠ m' → scalar (next_ordinal_statement m') d = Ok (o, d') →
  counter d' m = counter d m ∧ rows d' AUDIT_RECORD = rows d AUDIT_RECORD.
Proof.
  intros Hd Hm Hs.
  apply (upsert_found AUDIT_SEQUENCE d counter_columns (mission_conds m') _ _ 1) in Hs;
    [|done..|apply counter_names|by_decide|done].
  unfold counter. destruct (found d AUDIT_SEQUENCE (mission_conds m')); destruct Hs as [_ Hs];
    unfold found; rewrite (replaces_target _ _ _ _ Hs);
    (split; [|apply (replaces_frame _ _ _ _ _ Hs); by_decide]).
  - by rewrite advanced_others.
  - rewrite where_rows_app, where_rows_cons, (other_mission m m' _ Hm (first_row_key _)).
    by rewrite app_nil_r.
Qed.

Lemma append_others r d o d' m rs :
  consistent d → append r d = Ok (o, d') → m ≠ mission_id r → timeline d m rs → timeline d' m rs.
Proof.
  intros Hd Ha Hm (Hrows&Hall&Hc). unfold append in Ha. run_tx. subst.
  match goal with H : scalar _ _ = Ok _ |- _ =>
    apply (counter_others m) in H as [Hcnt Hrec]; [|done..] end.
  match goal with H : fetch_all _ _ = _ |- _ =>
    apply (insert_plain_Ok AUDIT_RECORD ["mission_id"; "ordinal"] eq_refl) in H as (_&_&Hf) end.
  split; [|split; [done|]].
  - unfold mission_rows in *. rewrite (replaces_target _ _ _ _ Hf), where_rows_app, Hrec, Hrows.
    rewrite where_rows_cons. fold (new_row r o). rewrite new_row_mission, bool_decide_eq_false_2 by done. apply app_nil_r.
  - unfold counter, found in *. by rewrite (replaces_frame _ _ _ _ AUDIT_SEQUENCE Hf), Hcnt by by_decide.
Qed.

(** The records of the calls that committed. *)
Fixpoint committed (d : db) (rs : list AuditRecord) : list AuditRecord :=
  match rs with
  | [] => []
  | r :: rs => match append r d with
               | Ok (_, d') => r :: committed d' rs
               | Err _ => committed d rs
               end
  end.

Definition of_mission (m : string) (rs : list AuditRecord) : list AuditRecord :=
  filter (λ r, mission_id r = m) rs.

Lemma appended_timeline m rs rs0 d :
  consistent d → timeline d m rs0 →
  timeline (foldl appended d rs) m (rs0 ++ of_mission m (committed d rs))%list.
Proof.
  revert d rs0. induction rs as [|r rs IH]; intros d rs0 Hd Ht; cbn [foldl committed].
  { cbn. by rewrite app_nil_r. }
  unfold appended at 2, transaction. destruct (append r d) as [[o d']|e] eqn:Ha; [|by apply IH].
  cbn [snd]. assert (Hd' : consistent d') by by eapply append_effect.
  unfold of_mission. rewrite filter_cons. destruct (decide (mission_id r = m)) as [<-|Hm].
  - rewrite cons_middle, app_assoc. apply IH; [done|]. by eapply append_Ok in Ha as (_&?&_).
  - apply IH; [done|]. exact (append_others r d o d' m rs0 Hd Ha (not_eq_sym Hm) Ht).
Qed.

(** C36: whatever appends are attempted, for whatever missions and however they fail, a mission
    starting with no records holds exactly its committed ones, and reading the log returns the
    first [limit] of them, in the order they were committed, numbered from one without a gap;
    reading changes nothing. *)
Theorem audit_log_gapless (m : string) (rs : list AuditRecord) (limit : Z) (d : db) :
  consistent d → timeline d m [] → 0 < limit →
  permits (ordered_statement m limit) (foldl appended d rs) = true →
  ∃ d', d' ≡ foldl appended d rs ∧
        read_ordered m limit (foldl appended d rs) =
          Ok (numbered 0 (take (Z.to_nat limit) (of_mission m (committed d rs))), d').
Proof.
  intros Hd Ht Hl Hp. apply (appended_timeline m rs) in Ht; [|done].
  by apply (read_ordered_runs _ _ _ _ Ht).
Qed.
End audit.

(** ** Witness *)

Definition sample_record (m k : string) : AuditRecord := {|
  mission_id := m; kind := k; occurred_at := "2026-01-01T00:00:00.000Z"; payload := "{}";
  correlation_id := "corr-1"; causation_id := None;
  traceparent := "00-0123456789abcdef0123456789abcdef-0123456789abcdef-01"
|}.

Definition sample_records : list AuditRecord :=
  [sample_record "m1" "command"; sample_record "m2" "command"; sample_record "m1" "refusal"].

(** Two of the three records are the mission's, numbered one and two. *)
Lemma audit_log_gapless_witness :
  (numbered 0 (of_mission "m1" (committed (H := memory) [] sample_records)) =
     [{| ordinal := 1; record := sample_record "m1" "command" |};
      {| ordinal := 2; record := sample_record "m1" "refusal" |}]) ∧
  ∃ d', d' ≡@{@db memory} foldl (appended (H := memory)) [] sample_records ∧
    read_ordered "m1" 10 (foldl (appended (H := memory)) [] sample_records) =
      Ok (numbered 0 (take 10 (of_mission "m1" (committed (H := memory) [] sample_records))), d').
Proof.
  split; [vm_compute; reflexivity|].
  apply (audit_log_gapless (H := memory)); [apply memory_empty | by repeat constructor | lia | done].
Defined.
