(* ===== verification/StoreTimeline.v ===== *)
(** * The recorder's part of the store

    [packages/store/src/aerial_rescue_store/processing/source_events.py], the linking half of
    [dashboard/events.py], and the mission row of [dashboard/runs.py]: a source event is stored
    once under its identity and never rewritten; a broker event advances its source's high-water
    and is linked to one audit ordinal; a mission's lifecycle moves by compare-and-set.  Reading
    pages and watermarks back joins two tables, and is not modelled. *)

From S2P Require Import Prelude PyStr PyVal Sql Schema Idempotency StoreAudit.
Local Open Scope string_scope.
Local Open Scope Z_scope.

(** ** Source events *)

Inductive SourceEventDecision : Set := STORED | DUPLICATE.
Inductive SourceEventRefusal : Set :=
| IDENTITY_VANISHED | IDENTITY_CONFLICT | NOT_FOUND | AMBIGUOUS_IDENTITY | UNREADABLE_ROW.

Record StoredSourceEvent : Set := {
  source : string; event_id : string; mission_id : string; topic : string;
  canonical_digest : string; canonical_payload : string; observed_at : string
}.

#[export] Instance StoredSourceEvent_eq_dec : EqDecision StoredSourceEvent.
Proof. solve_decision. Defined.

Definition source_values (e : StoredSourceEvent) : row :=
  [("source", SText (source e)); ("event_id", SText (event_id e)); ("mission_id", SText (mission_id e));
   ("topic", SText (topic e)); ("canonical_digest", SText (canonical_digest e));
   ("canonical_payload", SBytes (canonical_payload e)); ("observed_at", SText (observed_at e))].

Definition event_key : list string := ["source"; "event_id"].
Definition event_conds (s id : string) : list cond := [Equals "source" (SText s); Equals "event_id" (SText id)].
Definition event_identity (s id : string) : pyval := PyList [PyStr s; PyStr id].

Definition record_statement (e : StoredSourceEvent) : statement :=
  Insert SOURCE_EVENT (source_values e) (DoNothing (Some event_key)) ["event_id"].
Definition identity_statement (s id : string) : statement :=
  Select SOURCE_EVENT (columns SOURCE_EVENT) (event_conds s id) [] None.

(** [_stored] *)
Definition stored (id : string) (row : list sqlval) : result (store_failure SourceEventRefusal) StoredSourceEvent :=
  match row with
  | [SText s; SText e; SText m; SText t; SText dg; SBytes b; SText at_] =>
      Ok {| source := s; event_id := e; mission_id := m; topic := t; canonical_digest := dg;
            canonical_payload := b; observed_at := at_ |}
  | _ => refuse UNREADABLE_ROW (PyStr id)
  end.

(** ** Broker events *)

(** [KNOWN] is the member [DUPLICATE]. *)
Inductive BrokerEventOutcome : Set := ACCEPTED | KNOWN.

Inductive DashboardEventRefusal : Set :=
| SOURCE_VANISHED | SOURCE_MOVED | DIVERGENT_DUPLICATE | SEQUENCE_REUSED | STALE_SEQUENCE
| EVENT_WRITE_REJECTED | UNREADABLE_SOURCE | UNREADABLE_EVENT | INVALID_PAGE_SIZE.

#[export] Instance DashboardEventRefusal_eq_dec : EqDecision DashboardEventRefusal.
Proof. solve_decision. Defined.

Record BrokerEvent : Set := {
  broker_source : string; broker_event : string; source_sequence : Z; payload_digest : string
}.

Record BrokerEventReceipt : Set := {
  outcome : BrokerEventOutcome; audit_mission_id : string; audit_ordinal : Z
}.

Definition broker_source_values (s : string) : row := [("source", SText s); ("high_water_sequence", SNull)].
Definition source_key : list string := ["source"].
Definition source_conds (s : string) : list cond := [Equals "source" (SText s)].

Definition ensure_source_statement (s : string) : statement :=
  Insert DASHBOARD_BROKER_SOURCE (broker_source_values s) (DoNothing (Some source_key)) ["source"].
Definition locked_source_statement (s : string) : statement :=
  Select DASHBOARD_BROKER_SOURCE ["high_water_sequence"] (source_conds s) [] None.

Definition at_expected (expected : option Z) : list cond :=
  match expected with
  | None => [IsNull "high_water_sequence"]
  | Some n => [Equals "high_water_sequence" (SInt n)]
  end.

Definition source_advance_statement (s : string) (expected : option Z) (n : Z) : statement :=
  Update DASHBOARD_BROKER_SOURCE (source_conds s ++ at_expected expected)%list
         [("high_water_sequence", SInt n)] ["source"].

Definition known_broker_event_statement (s id : string) : statement :=
  Select DASHBOARD_BROKER_EVENT ["payload_digest"; "audit_mission_id"; "audit_ordinal"] (event_conds s id) [] None.

Definition broker_event_values (e : BrokerEvent) (mission : string) (n : Z) : row :=
  [("source", SText (broker_source e)); ("event_id", SText (broker_event e));
   ("source_sequence", SInt (source_sequence e)); ("payload_digest", SText (payload_digest e));
   ("audit_mission_id", SText mission); ("audit_ordinal", SInt n)].

Definition broker_event_statement (e : BrokerEvent) (mission : string) (n : Z) : statement :=
  Insert DASHBOARD_BROKER_EVENT (broker_event_values e mission n) NoClause ["event_id"].

Definition unreadable_event {A} (v : pyval) : result (store_failure DashboardEventRefusal) A :=
  refuse UNREADABLE_EVENT v.

(** [_ordinal] *)
Definition event_ordinal (v : sqlval) : result (store_failure DashboardEventRefusal) Z :=
  match v with SInt n => if 1 <=? n then Ok n else unreadable_event (PyInt n) | v => unreadable_event (py v) end.

(** [_known_receipt].  Both digests are hexadecimal, of which [hmac.compare_digest] is equality. *)
Definition known_receipt (e : BrokerEvent) (row : list sqlval)
    : result (store_failure DashboardEventRefusal) BrokerEventReceipt :=
  match row with
  | [SText digest; SText mission; n] =>
      linked ← event_ordinal n;
      raise_if (negb (bool_decide (digest = payload_digest e)))
               (Refused DIVERGENT_DUPLICATE (PyStr (broker_event e))) ;;
      Ok {| outcome := KNOWN; audit_mission_id := mission; audit_ordinal := linked |}
  | [_; _; _] => unreadable_event (PyStr (broker_event e))
  | r => unreadable_event (PyInt (Z.of_nat (length r)))
  end.

(** [_high_water] *)
Definition source_high_water (row : list sqlval) : result (store_failure DashboardEventRefusal) (option Z) :=
  match row with
  | [SNull] => Ok None
  | [SInt n] => if 0 <=? n then Ok (Some n) else refuse UNREADABLE_SOURCE (PyInt n)
  | [v] => refuse UNREADABLE_SOURCE (py v)
  | r => refuse UNREADABLE_SOURCE (PyInt (Z.of_nat (length r)))
  end.

(** ** Missions *)

Inductive DashboardRunRefusal : Set :=
| WRITE_REJECTED | POINTER_MOVED | MISSION_MOVED | UNKNOWN_MISSION | UNREADABLE_MISSION
| UNKNOWN_MODE | UNREADABLE_RUN.

Definition mission_key : list string := ["mission_id"].
Definition mission_conds (m : string) : list cond := [Equals "mission_id" (SText m)].

Definition mission_transition_statement (m expected lifecycle : string) : statement :=
  Update DASHBOARD_MISSION (mission_conds m ++ [Equals "lifecycle" (SText expected)])%list
         [("lifecycle", SText lifecycle)] ["mission_id"].
Definition mission_lifecycle_for_update_statement (m : string) : statement :=
  Select DASHBOARD_MISSION ["lifecycle"] (mission_conds m) [] None.

Section timeline.
Context `{Database}.

(** [record] *)
Definition record (e : StoredSourceEvent) : tx (store_failure SourceEventRefusal) SourceEventDecision :=
  inserted ← sql (scalar (record_statement e));
  match inserted with
  | Some _ => mret STORED
  | None =>
      found ← sql (one_or_none (identity_statement (source e) (event_id e)));
      row ← pure (or_raise found (Refused IDENTITY_VANISHED (event_identity (source e) (event_id e))));
      kept ← pure (stored (event_id e) row);
      pure (raise_if (negb (bool_decide (kept = e)))
                     (Refused IDENTITY_CONFLICT (event_identity (source e) (event_id e)))) ;;
      mret DUPLICATE
  end.

(** The lines [link_broker_event] and [append_broker_event] share: the receipt of a known event,
    or nothing once the source has advanced. *)
Definition advance_source (e : BrokerEvent)
    : tx (store_failure DashboardEventRefusal) (option BrokerEventReceipt) :=
  sql (fetch_all (ensure_source_statement (broker_source e))) ;;
  locked ← sql (one_or_none (locked_source_statement (broker_source e)));
  row ← pure (or_raise locked (Refused SOURCE_VANISHED (PyStr (broker_source e))));
  high ← pure (source_high_water row);
  known ← sql (one_or_none (known_broker_event_statement (broker_source e) (broker_event e)));
  match known with
  | Some row => r ← pure (known_receipt e row); mret (Some r)
  | None =>
      match verdict (receive {| last_accepted := high |} (source_sequence e)) with
      | Idempotency.DUPLICATE => pure (refuse SEQUENCE_REUSED (PyInt (source_sequence e)))
      | STALE => pure (refuse STALE_SEQUENCE (PyInt (source_sequence e)))
      | ADVANCES =>
          advanced ← sql (scalar (source_advance_statement (broker_source e) high (source_sequence e)));
          pure (raise_if (bool_decide (advanced = None)) (Refused SOURCE_MOVED (PyStr (broker_source e)))) ;;
          mret None
      end
  end.

Definition linked (e : BrokerEvent) (mission : string) (n : Z)
    : tx (store_failure DashboardEventRefusal) BrokerEventReceipt :=
  o ← sql (scalar (broker_event_statement e mission n));
  pure (raise_if (bool_decide (o = None)) (Refused EVENT_WRITE_REJECTED (PyStr (broker_event e)))) ;;
  mret {| outcome := ACCEPTED; audit_mission_id := mission; audit_ordinal := n |}.

Definition link_broker_event (e : BrokerEvent) (mission : string) (n : Z)
    : tx (store_failure DashboardEventRefusal) BrokerEventReceipt :=
  known ← advance_source e;
  match known with Some r => mret r | None => linked e mission n end.

Definition mission_lifecycle_for_update (m : string) : tx (store_failure DashboardRunRefusal) string :=
  found ← sql (one_or_none (mission_lifecycle_for_update_statement m));
  match found with
  | None => pure (refuse UNKNOWN_MISSION (PyStr m))
  | Some [SText s] => mret s
  | Some _ => pure (refuse UNREADABLE_MISSION (PyStr m))
  end.

Definition transition_mission (m expected lifecycle : string) : tx (store_failure DashboardRunRefusal) unit :=
  moved ← sql (scalar (mission_transition_statement m expected lifecycle));
  pure (raise_if (bool_decide (moved = None)) (Refused MISSION_MOVED (PyStr m))).

(** ** What the tables say *)

Definition source_entry (d : db) (s id : string) : option row := found d SOURCE_EVENT (event_conds s id).
Definition source_row (e : StoredSourceEvent) : row := make_row SOURCE_EVENT (source_values e).

Definition link_entry (d : db) (s id : string) : option row := found d DASHBOARD_BROKER_EVENT (event_conds s id).
Definition link_row (e : BrokerEvent) (m : string) (n : Z) : row :=
  make_row DASHBOARD_BROKER_EVENT (broker_event_values e m n).

(** The last sequence a source was advanced to. *)
Definition high_water (d : db) (s : string) : option Z :=
  found d DASHBOARD_BROKER_SOURCE (source_conds s) ≫= λ r,
    match cell r "high_water_sequence" with SInt n => Some n | _ => None end.

Definition mission_entry (d : db) (m : string) : option row := found d DASHBOARD_MISSION (mission_conds m).

Definition lifecycle_of (d : db) (m : string) : option string :=
  mission_entry d m ≫= λ r, match cell r "lifecycle" with SText s => Some s | _ => None end.

Lemma source_event_names e : names_key event_key (event_conds (source e) (event_id e)) (source_row e).
Proof.
  intros x. cbn [selects event_conds same_key event_key forallb holds]. cells.
  by rewrite (sql_eq_comm (cell x "source")), (sql_eq_comm (cell x "event_id")).
Qed.

Lemma link_names e m n : names_key event_key (event_conds (broker_source e) (broker_event e)) (link_row e m n).
Proof.
  intros x. cbn [selects event_conds same_key event_key forallb holds]. cells.
  by rewrite (sql_eq_comm (cell x "source")), (sql_eq_comm (cell x "event_id")).
Qed.

Lemma source_names s : names_key source_key (source_conds s) (make_row DASHBOARD_BROKER_SOURCE (broker_source_values s)).
Proof. intros x. cbn [selects source_conds same_key source_key forallb holds]. cells. by rewrite (sql_eq_comm (cell x _)). Qed.

Lemma mission_names r : ∀ m, cell r "mission_id" = SText m → names_key mission_key (mission_conds m) r.
Proof.
  intros m Hm x. cbn [selects mission_conds same_key mission_key forallb holds].
  by rewrite Hm, (sql_eq_comm (cell x _)).
Qed.
(** ** Source events are kept *)

Lemma source_reads_back e id : stored id (project (columns SOURCE_EVENT) (source_row e)) = Ok e.
Proof.
  unfold project. change (columns SOURCE_EVENT) with ((source_values e).*1).
  cbn [fmap list_fmap fst]. cells. by destruct e.
Qed.

Lemma record_source_Ok e o d d' :
  consistent d → record e d = Ok (o, d') →
  match source_entry d (source e) (event_id e) with
  | None => o = STORED ∧ replaces d SOURCE_EVENT (rows d SOURCE_EVENT ++ [source_row e])%list d'
  | Some r => o = DUPLICATE ∧ d' ≡ d ∧ stored (event_id e) (project (columns SOURCE_EVENT) r) = Ok e
  end.
Proof.
  intros Hd Hr. unfold record in Hr. apply tx_bind_Ok in Hr as (ins&d1&Hi%lift_Ok&Hr).
  apply (insert_found SOURCE_EVENT d event_key (event_conds (source e) (event_id e))) in Hi as [_ Hi];
    [|done|done|apply source_event_names|done].
  fold (source_entry d (source e) (event_id e)) in Hi.
  destruct (source_entry d (source e) (event_id e)) as [r|] eqn:He; destruct Hi as [-> Hi].
  - apply tx_bind_Ok in Hr as (found&d2&Hf%lift_Ok&Hr). apply select_found in Hf as [Hs ->].
    rewrite (found_proper _ _ _ _ Hi) in Hr. fold (source_entry d (source e) (event_id e)) in Hr. rewrite He in Hr.
    apply tx_bind_Ok in Hr as (row&d3&[[= <-] ->]%pure_Ok&Hr). apply tx_bind_Ok in Hr as (kept&d3&[Hk ->]%pure_Ok&Hr).
    apply tx_bind_Ok in Hr as ([]&d3&[Hb ->]%pure_Ok&Hr). apply tx_ret_Ok in Hr as [<- <-].
    apply raise_if_Ok in Hb. bools. subst kept. split; [done|]. split; [by rewrite Hs|done].
  - apply tx_ret_Ok in Hr as [<- <-]. done.
Qed.

(** ** The streams of the sources *)

Lemma fetch_scalar st d out d' :
  fetch_all st d = Ok (out, d') →
  scalar st d = Ok (match head out ≫= head with Some SNull | None => None | Some v => Some v end, d').
Proof. intros Hf. unfold scalar. by rewrite (tx_bind_run _ _ _ _ _ Hf). Qed.

(** Ensuring a source leaves every high-water where it was. *)
Lemma ensure_Ok s out d d' :
  consistent d → fetch_all (ensure_source_statement s) d = Ok (out, d') →
  (∀ s', high_water d' s' = high_water d s') ∧ confined [DASHBOARD_BROKER_SOURCE] d d'.
Proof.
  intros Hd Hf. split.
  2: { by apply (fetch_confined (ensure_source_statement s) [DASHBOARD_BROKER_SOURCE]) in Hf; [|by_decide..]. }
  apply fetch_scalar in Hf. apply (insert_found DASHBOARD_BROKER_SOURCE d source_key (source_conds s)) in Hf as [_ Hf];
    [|by_decide|done|apply source_names|done]. intros s'. unfold high_water.
  destruct (found d DASHBOARD_BROKER_SOURCE (source_conds s)) as [r|] eqn:He; destruct Hf as [_ Hf].
  - by rewrite (found_proper _ _ _ _ Hf).
  - rewrite (found_snoc _ _ _ _ _ Hf). destruct (found d DASHBOARD_BROKER_SOURCE (source_conds s')) as [x|]; [done|].
    by destruct (selects _ _).
Qed.

(** A source that can be locked has its row. *)
Lemma lock_Ok s o d d' :
  one_or_none (locked_source_statement s) d = Ok (o, d') →
  d' ≡ d ∧ match o with
           | None => found d DASHBOARD_BROKER_SOURCE (source_conds s) = None
           | Some row => ∃ r, found d DASHBOARD_BROKER_SOURCE (source_conds s) = Some r ∧ row = [cell r "high_water_sequence"]
           end.
Proof.
  intros [Hs ->]%select_found. split; [done|]. destruct (found _ _ _) as [r|]; [|done]. by exists r.
Qed.

Lemma source_high_water_Ok d s r h :
  found d DASHBOARD_BROKER_SOURCE (source_conds s) = Some r →
  source_high_water [cell r "high_water_sequence"] = Ok h → high_water d s = h.
Proof.
  unfold high_water. intros ->. cbn. destruct (cell r _) as [|t|n|b]; try done.
  - by intros [= <-].
  - destruct (0 <=? n); [by intros [= <-]|done].
Qed.

Lemma source_other s s' : s' ≠ s → selects (source_conds s') (make_row DASHBOARD_BROKER_SOURCE (broker_source_values s)) = false.
Proof.
  intros Hne. cbn [selects source_conds forallb holds]. cells. rewrite andb_true_r.
  apply not_true_iff_false. rewrite sql_eq_true. naive_solver.
Qed.

Lemma source_advance_Ok s h n o d d' :
  consistent d → scalar (source_advance_statement s h n) d = Ok (Some o, d') →
  high_water d' s = Some n ∧ (∀ s', s' ≠ s → high_water d' s' = high_water d s').
Proof.
  intros Hd Hu. unfold source_advance_statement in Hu.
  apply (update_found DASHBOARD_BROKER_SOURCE d source_key _ _
           (make_row DASHBOARD_BROKER_SOURCE (broker_source_values s)) _ _ (SText s)) in Hu;
    [|done|by_decide|apply source_names|destruct h; reflexivity|left|by_decide].
  unfold high_water. destruct (found d _ (source_conds s)) as [r|] eqn:Hr; [|by destruct Hu].
  destruct (selects (at_expected h) r); [|by destruct Hu]. destruct Hu as (_&_&Hu).
  assert (Hf : ∀ s', found d' DASHBOARD_BROKER_SOURCE (source_conds s') =
                     (λ x, if selects (source_conds s) x then assign [("high_water_sequence", SInt n)] x else x) <$>
                       found d DASHBOARD_BROKER_SOURCE (source_conds s')) by (intros s'; by apply found_update).
  split.
  - rewrite Hf, Hr. cbn [fmap option_fmap option_map mbind option_bind]. apply found_Some in Hr as [_ Hsel].
    rewrite Hsel. unfold assign. cbn [foldl fst snd]. by rewrite cell_dict_set.
  - intros s' Hne. rewrite Hf. destruct (found d _ (source_conds s')) as [x|] eqn:Hx; [|done].
    cbn [fmap option_fmap option_map mbind option_bind]. apply found_Some in Hx as [_ Hx]. destruct (selects (source_conds s) x) eqn:Hsel; [|done]. exfalso.
    cbn [selects source_conds forallb holds] in Hx, Hsel. rewrite andb_true_r, sql_eq_true in Hx, Hsel.
    destruct Hx as [_ Hx], Hsel as [_ Hsel]. congruence.
Qed.

Lemma event_advance_Ok e o d d' :
  consistent d → advance_source e d = Ok (o, d') →
  confined [DASHBOARD_BROKER_SOURCE] d d' ∧
  match link_entry d (broker_source e) (broker_event e) with
  | Some r => (∃ m n, o = Some {| outcome := KNOWN; audit_mission_id := m; audit_ordinal := n |}) ∧
              ∀ s, high_water d' s = high_water d s
  | None => o = None ∧
            match high_water d (broker_source e) with None => True | Some m => m < source_sequence e end ∧
            high_water d' (broker_source e) = Some (source_sequence e) ∧
            ∀ s, s ≠ broker_source e → high_water d' s = high_water d s
  end.
Proof.
  intros Hd Ha. unfold advance_source in Ha. apply tx_bind_Ok in Ha as (out&d1&He%lift_Ok&Ha).
  assert (Hd1 : consistent d1) by (eapply fetch_consistent in He; [done|by_decide|done]).
  apply ensure_Ok in He as [Hh1 Hf1]; [|done].
  apply tx_bind_Ok in Ha as (locked&d2&Hl%lift_Ok&Ha). apply lock_Ok in Hl as [Hs2 Hl].
  apply tx_bind_Ok in Ha as (row&d3&[Hrow%or_raise_Ok ->]%pure_Ok&Ha). subst locked.
  destruct Hl as (r&Hr&->). apply tx_bind_Ok in Ha as (high&d3&[Hhigh ->]%pure_Ok&Ha).
  apply (source_high_water_Ok _ _ _ _ Hr) in Hhigh. rewrite Hh1 in Hhigh.
  apply tx_bind_Ok in Ha as (known&d3&Hk%lift_Ok&Ha). apply select_found in Hk as [Hs3 ->].
  assert (Hd3 : consistent d3) by (intros t; rewrite (Hs3 t), (Hs2 t); apply Hd1).
  assert (Hh3 : ∀ s, high_water d3 s = high_water d s).
  { intros s. unfold high_water. rewrite (found_proper _ _ _ _ Hs3), (found_proper _ _ _ _ Hs2). apply Hh1. }
  assert (Hf3 : confined [DASHBOARD_BROKER_SOURCE] d d3).
  { intros t Ht. by rewrite (Hs3 t), (Hs2 t), (Hf1 t). }
  assert (Hlink : found d2 DASHBOARD_BROKER_EVENT (event_conds (broker_source e) (broker_event e)) =
                  link_entry d (broker_source e) (broker_event e)).
  { unfold link_entry, found. by rewrite (Hs2 DASHBOARD_BROKER_EVENT), (Hf1 DASHBOARD_BROKER_EVENT) by by_decide. }
  rewrite Hlink in Ha. destruct (link_entry d _ _) as [x|]; cbn [fmap option_fmap option_map] in Ha.
  - apply tx_bind_Ok in Ha as (rc&d4&[Hrc ->]%pure_Ok&Ha). apply tx_ret_Ok in Ha as [<- <-].
    split; [done|]. split; [|done]. unfold known_receipt, project in Hrc. cbn in Hrc.
    destruct (cell x "payload_digest"), (cell x "audit_mission_id"); try done. run_ok. subst. eauto.
  - destruct (verdict _) eqn:Hv; try by apply pure_Ok in Ha as [? _].
    apply tx_bind_Ok in Ha as (adv&d4&Hadv%lift_Ok&Ha). apply tx_bind_Ok in Ha as ([]&d5&[Hb ->]%pure_Ok&Ha).
    apply tx_ret_Ok in Ha as [<- <-]. apply raise_if_Ok in Hb. destruct adv as [v|]; [|done].
    assert (Hf4 := Hadv). apply source_advance_Ok in Hadv as [Hw Hothers]; [|done]. split; [|split; [done|split; [|split; [done|]]]].
    + transitivity d3; [done|]. refine (scalar_effect (confined [DASHBOARD_BROKER_SOURCE]) _ _ _ _ _ Hf4).
      apply fetch_confined; [by destruct high|by_decide].
    + unfold receive in Hv. cbn [last_accepted] in Hv. rewrite Hhigh. destruct high as [m|]; [|done].
      destruct (m <? source_sequence e) eqn:Hm; [by apply Z.ltb_lt|]. by destruct (source_sequence e =? m).
    + intros s Hne. by rewrite Hothers.
Qed.

Lemma linked_Ok e m n r d d' :
  consistent d → linked e m n d = Ok (r, d') →
  r = {| outcome := ACCEPTED; audit_mission_id := m; audit_ordinal := n |} ∧
  rows d' DASHBOARD_BROKER_EVENT = (rows d DASHBOARD_BROKER_EVENT ++ [link_row e m n])%list ∧
  confined [DASHBOARD_BROKER_EVENT] d d'.
Proof.
  intros Hd Hl. unfold linked in Hl. apply tx_bind_Ok in Hl as (o&d1&Hi%lift_Ok&Hl).
  apply tx_bind_Ok in Hl as ([]&d2&[_ ->]%pure_Ok&Hl). apply tx_ret_Ok in Hl as [<- <-]. split; [done|].
  apply scalar_Ok in Hi as (out&l&Hr&Hrep&_); [|done]. cbn [run target broker_event_statement] in Hr.
  unfold insert_row in Hr. destruct (admitted _ _); [|done]. cbn [negb] in Hr.
  destruct (existsb _ _); [done|]. injection Hr as _ <-. split; [by apply replaces_target in Hrep|].
  intros t Ht. apply (replaces_frame _ _ _ _ _ Hrep). intros ->. apply Ht. left.
Qed.

(** A link is new, and its sequence beyond every earlier one of its source; or the event was
    linked before. *)
Lemma link_Ok e m n r d d' :
  consistent d → link_broker_event e m n d = Ok (r, d') →
  confined [DASHBOARD_BROKER_SOURCE; DASHBOARD_BROKER_EVENT] d d' ∧
  match link_entry d (broker_source e) (broker_event e) with
  | Some _ => outcome r = KNOWN ∧ rows d' DASHBOARD_BROKER_EVENT = rows d DASHBOARD_BROKER_EVENT ∧
              ∀ s, high_water d' s = high_water d s
  | None => r = {| outcome := ACCEPTED; audit_mission_id := m; audit_ordinal := n |} ∧
            match high_water d (broker_source e) with None => True | Some k => k < source_sequence e end ∧
            high_water d' (broker_source e) = Some (source_sequence e) ∧
            (∀ s, s ≠ broker_source e → high_water d' s = high_water d s) ∧
            rows d' DASHBOARD_BROKER_EVENT = (rows d DASHBOARD_BROKER_EVENT ++ [link_row e m n])%list
  end.
Proof.
  intros Hd Hl. unfold link_broker_event in Hl. apply tx_bind_Ok in Hl as (o&d1&Ha&Hl).
  assert (Hd1 : consistent d1).
  { revert Ha Hd. apply (λ He, He : effect stays_consistent (advance_source e)). unfold advance_source. effects. }
  apply event_advance_Ok in Ha as [Hf Ha]; [|done]. assert (Hev := Hf DASHBOARD_BROKER_EVENT ltac:(by_decide)).
  destruct (link_entry d _ _) as [x|].
  - destruct Ha as [(m'&n'&->) Hh]. apply tx_ret_Ok in Hl as [<- <-].
    split; [by apply (confined_sub _ _ _ _ Hf)|done].
  - destruct Ha as (->&Hnew&Hw&Hothers). apply linked_Ok in Hl as (->&Hr&Hf'); [|done]. rewrite Hev in Hr.
    assert (Hsrc : ∀ s, high_water d' s = high_water d1 s)
      by (intros s; unfold high_water, found; by rewrite (Hf' DASHBOARD_BROKER_SOURCE) by by_decide).
    split; [|split; [done|split; [done|split; [by rewrite Hsrc|split; [intros s Hs; rewrite Hsrc; by apply Hothers|done]]]]].
    transitivity d1; (eapply confined_sub; [eassumption|reflexivity]).
Qed.

(** A new event that is not beyond its source's high-water is refused, by what its sequence is. *)
Lemma link_behind e m n k d :
  consistent d → (∀ st d', permits st d' = true) →
  link_entry d (broker_source e) (broker_event e) = None →
  high_water d (broker_source e) = Some k → 0 ≤ k → source_sequence e ≤ k →
  link_broker_event e m n d =
    Err (Refused (if source_sequence e =? k then SEQUENCE_REUSED else STALE_SEQUENCE) (PyInt (source_sequence e))).
Proof.
  intros Hd Hp Hnew Hk Hk0 Hle. unfold high_water in Hk.
  destruct (found d DASHBOARD_BROKER_SOURCE (source_conds (broker_source e))) as [r|] eqn:Hr; [|done]. cbn [mbind option_bind] in Hk.
  destruct (cell r "high_water_sequence") as [| |k'|] eqn:Hc; try done. injection Hk as ->.
  assert (Hkey : admitted DASHBOARD_BROKER_SOURCE (make_row DASHBOARD_BROKER_SOURCE (broker_source_values (broker_source e))) = true).
  { assert (Hrow := found_admitted _ _ _ _ Hd Hr). apply found_Some in Hr as [_ Hsel].
    cbn [selects source_conds forallb holds] in Hsel. rewrite andb_true_r, sql_eq_true in Hsel. destruct Hsel as [_ Hsel].
    apply (admitted_column _ _ (required "source" (Varchar DASHBOARD_SOURCE_LENGTH))) in Hrow; [|by_decide].
    unfold column_admits in Hrow. cbn [column_name column_type required] in Hrow. rewrite Hsel in Hrow.
    unfold admitted. cbn [forallb table_columns DASHBOARD_BROKER_SOURCE checks]. unfold column_admits.
    cbn [column_name column_type required optional nullable]. cells. cbv iota. by rewrite Hrow. }
  destruct (insert_runs DASHBOARD_BROKER_SOURCE source_key eq_refl (broker_source_values (broker_source e)) "source" d (Hp _ _) Hkey)
    as (o&d1&Hi). unfold scalar in Hi. apply tx_bind_Ok in Hi as (out&d1'&Hi&Hret). apply tx_ret_Ok in Hret as [_ ->].
  assert (Hs1 : d1 ≡ d).
  { apply fetch_scalar in Hi. apply (insert_found DASHBOARD_BROKER_SOURCE d source_key (source_conds (broker_source e))) in Hi as [_ Hi];
      [|by_decide|done|apply source_names|done]. rewrite Hr in Hi. by destruct Hi. }
  assert (Hd1 : consistent d1) by (intros t; rewrite (Hs1 t); apply Hd).
  destruct (select_found_runs DASHBOARD_BROKER_SOURCE d1 source_key
              (make_row DASHBOARD_BROKER_SOURCE (broker_source_values (broker_source e))) ["high_water_sequence"]
              (source_conds (broker_source e)) []) as (d2&Hl); [done|by_decide|apply source_names|apply Hp|].
  assert (Hs2 := Hl). apply select_found in Hs2 as [Hs2 _]. rewrite (found_proper _ _ _ _ Hs1), Hr in Hl.
  assert (Hd2 : consistent d2) by (intros t; rewrite (Hs2 t); apply Hd1).
  destruct (select_found_runs DASHBOARD_BROKER_EVENT d2 event_key (link_row e m n)
              ["payload_digest"; "audit_mission_id"; "audit_ordinal"] (event_conds (broker_source e) (broker_event e)) [])
    as (d3&Hq); [done|by_decide|apply link_names|apply Hp|].
  rewrite (found_proper _ _ _ _ Hs2), (found_proper _ _ _ _ Hs1) in Hq. fold (link_entry d (broker_source e) (broker_event e)) in Hq.
  rewrite Hnew in Hq.
  assert (Hrun : advance_source e d =
    Err (Refused (if source_sequence e =? k then SEQUENCE_REUSED else STALE_SEQUENCE) (PyInt (source_sequence e)))).
  { unfold advance_source. rewrite (tx_bind_run _ _ _ _ _ (lift_run Driver _ _ _ Hi)).
    rewrite (tx_bind_run _ _ _ _ _ (lift_run Driver _ _ _ Hl)). cbn [fmap option_fmap option_map].
    rewrite (tx_bind_run _ _ d2 (project ["high_water_sequence"] r) d2) by done.
    rewrite (tx_bind_run _ _ d2 (Some k) d2).
    2: { unfold project. cbn [fmap list_fmap]. rewrite Hc. unfold pure, source_high_water.
         by rewrite (proj2 (Z.leb_le 0 k) Hk0). }
    rewrite (tx_bind_run _ _ _ _ _ (lift_run Driver _ _ _ Hq)). cbn [fmap option_fmap option_map].
    unfold receive. cbn [last_accepted]. rewrite (proj2 (Z.ltb_ge k (source_sequence e))) by done.
    by destruct (source_sequence e =? k). }
  unfold link_broker_event. apply tx_bind_Err. by left.
Qed.

(** ** Lifecycles *)

Lemma lifecycle_Ok m s d d' :
  mission_lifecycle_for_update m d = Ok (s, d') → d' ≡ d ∧ lifecycle_of d m = Some s.
Proof.
  unfold mission_lifecycle_for_update. intros (o&d1&Hs%lift_Ok&Hr)%tx_bind_Ok. apply select_found in Hs as [Hs ->].
  unfold lifecycle_of, mission_entry. destruct (found d _ _) as [r|]; [|by apply pure_Ok in Hr as [? _]].
  cbn in Hr |- *. destruct (cell r "lifecycle"); try by apply pure_Ok in Hr as [? _].
  by apply tx_ret_Ok in Hr as [<- <-].
Qed.

Lemma mission_transition_Ok m expected target u d d' :
  consistent d → transition_mission m expected target d = Ok (u, d') →
  lifecycle_of d m = Some expected ∧ lifecycle_of d' m = Some target ∧
  (∀ x, x ≠ m → lifecycle_of d' x = lifecycle_of d x) ∧ confined [DASHBOARD_MISSION] d d'.
Proof.
  intros Hd Ht. unfold transition_mission in Ht. apply tx_bind_Ok in Ht as (o&d1&Hu%lift_Ok&Ht).
  apply pure_Ok in Ht as [Hb ->]. apply raise_if_Ok in Hb. destruct o as [v|]; [|done].
  assert (Hf : confined [DASHBOARD_MISSION] d d1).
  { refine (scalar_effect (confined [DASHBOARD_MISSION]) _ _ _ _ _ Hu). by apply fetch_confined; [|by_decide]. }
  unfold mission_transition_statement in Hu.
  apply (update_found DASHBOARD_MISSION d mission_key _ _ (make_row DASHBOARD_MISSION [("mission_id", SText m)]) _ _ (SText m)) in Hu;
    [|done|by_decide|by apply mission_names|by_decide|left|by_decide].
  unfold lifecycle_of, mission_entry. destruct (found d _ (mission_conds m)) as [r|] eqn:Hr; [|by destruct Hu].
  destruct (selects _ r) eqn:Hs; [|by destruct Hu]. destruct Hu as (_&_&Hu).
  cbn [selects forallb holds] in Hs. rewrite andb_true_r, sql_eq_true in Hs. destruct Hs as [_ Hs].
  assert (Hfound : ∀ x, found d1 DASHBOARD_MISSION (mission_conds x) =
                    (λ r, if selects (mission_conds m) r then assign [("lifecycle", SText target)] r else r) <$>
                      found d DASHBOARD_MISSION (mission_conds x)) by (intros x; by apply found_update).
  cbn [mbind option_bind]. rewrite Hs. split; [done|]. rewrite Hfound, Hr. assert (Hsel := Hr).
  apply found_Some in Hsel as [_ Hsel]. cbn [fmap option_fmap option_map mbind option_bind]. rewrite Hsel.
  unfold assign at 1. cbn [foldl fst snd]. rewrite cell_dict_set, decide_True by done. split; [done|]. split; [|done].
  intros x Hx. rewrite Hfound. destruct (found d _ (mission_conds x)) as [y|] eqn:Hy; [|done].
  cbn [fmap option_fmap option_map mbind option_bind]. apply found_Some in Hy as [_ Hy].
  destruct (selects (mission_conds m) y) eqn:Hym; [|done]. exfalso.
  cbn [selects mission_conds forallb holds] in Hy, Hym. rewrite andb_true_r, sql_eq_true in Hy, Hym.
  destruct Hy as [_ Hy], Hym as [_ Hym]. congruence.
Qed.

(** ** What each leaves alone *)

Lemma record_source_effect e : effect stays_consistent (record e).
Proof. unfold record, record_statement, identity_statement. effects. Qed.
Lemma record_source_confined e : effect (confined [SOURCE_EVENT]) (record e).
Proof. unfold record, record_statement, identity_statement. effects. Qed.
Lemma link_effect e m n : effect stays_consistent (link_broker_event e m n).
Proof. unfold link_broker_event, advance_source, linked. effects. Qed.
Lemma lifecycle_effect m : effect stays_consistent (mission_lifecycle_for_update m).
Proof. unfold mission_lifecycle_for_update, mission_lifecycle_for_update_statement. effects. Qed.
Lemma mission_transition_effect m a b : effect stays_consistent (transition_mission m a b).
Proof. unfold transition_mission, mission_transition_statement. effects. Qed.
End timeline.

#[export] Hint Resolve record_source_effect record_source_confined link_effect lifecycle_effect mission_transition_effect : effects.
