(* ===== verification/StoreReceipts.v ===== *)
(** * Command receipts

    [packages/store/src/aerial_rescue_store/receipts.py]: a drone claims a command's identity in
    the transaction that applies its effect, and completes it there with the exact result and
    the sequence that was applied.  A receipt is found by drone and command; it also binds the
    mission and the digest of the command's bytes. *)

From S2P Require Import Prelude PyStr PyVal Sql Schema.
Local Open Scope string_scope.
Local Open Scope Z_scope.

Inductive ReceiptDecision : Set := CLAIMED | DUPLICATE.

Inductive ReceiptRefusal : Set :=
| CLAIM_VANISHED | IDENTITY_CONFLICT | DIGEST_CONFLICT | INCOMPLETE | UNREADABLE_ROW | NOT_CLAIMED
| INVALID_SEQUENCE.

Record CommandReceiptIdentity : Set := {
  drone_id : string; command_id : string; mission_id : string; command_digest : string
}.

#[export] Instance CommandReceiptIdentity_eq_dec : EqDecision CommandReceiptIdentity.
Proof. solve_decision. Defined.

Record ReceiptOutcome : Set := {
  decision : ReceiptDecision; prior_result : option string; prior_sequence : option Z;
  prior_processed : option string
}.

Record CompletedReceipt : Set := {
  completed_identity : CommandReceiptIdentity; completed_result : string; completed_sequence : Z;
  completed_at : string
}.

Definition receipt_values (i : CommandReceiptIdentity) : row :=
  [("drone_id", SText (drone_id i)); ("command_id", SText (command_id i));
   ("mission_id", SText (mission_id i)); ("command_digest", SText (command_digest i));
   ("result", SNull); ("applied_sequence", SNull); ("processed_at", SNull)].

Definition receipt_key : list string := ["drone_id"; "command_id"].
Definition receipt_conds (i : CommandReceiptIdentity) : list cond :=
  [Equals "drone_id" (SText (drone_id i)); Equals "command_id" (SText (command_id i))].

Definition claim_statement (i : CommandReceiptIdentity) : statement :=
  Insert DRONE_COMMAND_RECEIPT (receipt_values i) (DoNothing (Some receipt_key)) ["command_id"].

Definition stored_statement (i : CommandReceiptIdentity) : statement :=
  Select DRONE_COMMAND_RECEIPT ["mission_id"; "command_digest"; "result"; "applied_sequence"; "processed_at"]
         (receipt_conds i) [] None.

(** The receipt is bound to these bytes, and still open. *)
Definition open_conds (i : CommandReceiptIdentity) : list cond :=
  [Equals "mission_id" (SText (mission_id i)); Equals "command_digest" (SText (command_digest i));
   IsNull "result"; IsNull "applied_sequence"; IsNull "processed_at"].

Definition completion_values (result : string) (applied_sequence : Z) (processed_at : string) : row :=
  [("result", SBytes result); ("applied_sequence", SInt applied_sequence); ("processed_at", SText processed_at)].

Definition completion_statement (i : CommandReceiptIdentity) (result : string) (applied_sequence : Z)
    (processed_at : string) : statement :=
  Update DRONE_COMMAND_RECEIPT (receipt_conds i ++ open_conds i)%list
         (completion_values result applied_sequence processed_at) ["command_id"].

(** [_duplicate] *)
Definition duplicate (i : CommandReceiptIdentity) (row : list sqlval)
    : result (store_failure ReceiptRefusal) ReceiptOutcome :=
  match row with
  | [SText mission; SText digest; stored; sequence; processed] =>
      raise_if (negb (bool_decide (mission = mission_id i))) (Refused IDENTITY_CONFLICT (PyStr (command_id i))) ;;
      raise_if (negb (bool_decide (digest = command_digest i))) (Refused DIGEST_CONFLICT (PyStr (command_id i))) ;;
      match stored, sequence, processed with
      | SNull, SNull, SNull => refuse INCOMPLETE (PyStr (command_id i))
      | SBytes r, SInt n, SText at_ =>
          raise_if (n <? 0) (Refused UNREADABLE_ROW (PyStr (command_id i))) ;;
          Ok {| decision := DUPLICATE; prior_result := Some r; prior_sequence := Some n;
                prior_processed := Some at_ |}
      | _, _, _ => refuse UNREADABLE_ROW (PyStr (command_id i))
      end
  | _ => refuse UNREADABLE_ROW (PyStr (command_id i))
  end.

Definition newly_claimed : ReceiptOutcome :=
  {| decision := CLAIMED; prior_result := None; prior_sequence := None; prior_processed := None |}.

Section receipts.
Context `{Database}.

Definition claim (i : CommandReceiptIdentity) : tx (store_failure ReceiptRefusal) ReceiptOutcome :=
  claimed ← sql (scalar (claim_statement i));
  match claimed with
  | Some _ => mret newly_claimed
  | None =>
      selected ← sql (one_or_none (stored_statement i));
      match selected with
      | None => pure (refuse CLAIM_VANISHED (PyStr (command_id i)))
      | Some row => pure (duplicate i row)
      end
  end.

Definition complete (i : CommandReceiptIdentity) (result : string) (applied_sequence : Z)
    (processed_at : string) : tx (store_failure ReceiptRefusal) CompletedReceipt :=
  pure (raise_if (applied_sequence <? 0) (Refused INVALID_SEQUENCE (PyInt applied_sequence))) ;;
  completed ← sql (scalar (completion_statement i result applied_sequence processed_at));
  pure (raise_if (bool_decide (completed = None)) (Refused NOT_CLAIMED (PyStr (command_id i)))) ;;
  mret {| completed_identity := i; completed_result := result; completed_sequence := applied_sequence;
          completed_at := processed_at |}.

(** ** What the table says of a command *)

Definition receipt_entry (d : db) (i : CommandReceiptIdentity) : option row :=
  found d DRONE_COMMAND_RECEIPT (receipt_conds i).

Definition receipt_row (i : CommandReceiptIdentity) : row := make_row DRONE_COMMAND_RECEIPT (receipt_values i).

(** These bytes were applied for this drone, with this result. *)
Definition received (d : db) (i : CommandReceiptIdentity) (result : string) (n : Z) (at_ : string) : Prop :=
  ∃ r, receipt_entry d i = Some r ∧ cell r "mission_id" = SText (mission_id i) ∧
       cell r "command_digest" = SText (command_digest i) ∧ cell r "result" = SBytes result ∧
       cell r "applied_sequence" = SInt n ∧ cell r "processed_at" = SText at_ ∧ 0 ≤ n.

Lemma receipt_names i : names_key receipt_key (receipt_conds i) (receipt_row i).
Proof.
  intros x. cbn [selects receipt_conds same_key receipt_key forallb holds]. cells.
  by rewrite (sql_eq_comm (cell x "drone_id")), (sql_eq_comm (cell x "command_id")).
Qed.

Lemma receipt_selected i j :
  selects (receipt_conds j) (receipt_row i) = true ↔ drone_id i = drone_id j ∧ command_id i = command_id j.
Proof.
  rewrite selects_true. unfold receipt_conds. rewrite !Forall_cons. cbn [holds].
  rewrite !sql_eq_true. cells. split; [naive_solver|]. by intros (->&->).
Qed.

Definition prior (result : string) (n : Z) (at_ : string) : ReceiptOutcome :=
  {| decision := DUPLICATE; prior_result := Some result; prior_sequence := Some n; prior_processed := Some at_ |}.

(** A claim sees a new command once; afterwards it answers with what was completed. *)
Lemma receipt_claim_Ok i d o d' :
  consistent d → claim i d = Ok (o, d') →
  match receipt_entry d i with
  | None => o = newly_claimed ∧
            replaces d DRONE_COMMAND_RECEIPT (rows d DRONE_COMMAND_RECEIPT ++ [receipt_row i])%list d'
  | Some _ => d' ≡ d ∧ ∃ result n at_, o = prior result n at_ ∧ received d i result n at_
  end.
Proof.
  intros Hd Hc. unfold claim in Hc. apply tx_bind_Ok in Hc as (claimed&d1&Hi&Hc). run_tx.
  apply (insert_found DRONE_COMMAND_RECEIPT d receipt_key (receipt_conds i)) in Hi as [_ Hi];
    [|done..|apply receipt_names|done]. fold (receipt_entry d i) in Hi. unfold received.
  destruct (receipt_entry d i) as [r|] eqn:He; destruct Hi as [-> Hi].
  - apply tx_bind_Ok in Hc as (stored&d2&Hs&Hc). run_tx. apply select_found in Hs as [Hs ->].
    rewrite (found_proper _ _ _ _ Hi) in Hc. fold (receipt_entry d i) in Hc. rewrite He in Hc. cbn in Hc.
    apply pure_Ok in Hc as [Hc ->]. split; [by rewrite Hs|]. unfold duplicate in Hc.
    destruct (cell r "mission_id") as [|mission| |] eqn:Hm; try done.
    destruct (cell r "command_digest") as [|digest| |] eqn:Hdig; try done. run_ok. bools.
    destruct (cell r "result") as [| | |b] eqn:Hb, (cell r "applied_sequence") as [| |sq|] eqn:Hn,
      (cell r "processed_at") as [|at_| |] eqn:Hat; try done.
    run_ok. bools. subst. exists b, sq, at_. split; [done|]. exists r. split_and!; try done; congruence.
  - apply tx_ret_Ok in Hc as [<- <-]. done.
Qed.

Lemma receipt_complete_Ok i result n at_ u d d' :
  consistent d → complete i result n at_ d = Ok (u, d') →
  0 ≤ n ∧ (∃ r, receipt_entry d i = Some r ∧ selects (open_conds i) r = true) ∧
  replaces d DRONE_COMMAND_RECEIPT
    (update_rows (receipt_conds i) (completion_values result n at_) (rows d DRONE_COMMAND_RECEIPT)) d'.
Proof.
  intros Hd Hc. unfold complete in Hc. run_tx. subst. bools. split; [lia|]. unfold completion_statement in *.
  match goal with H : scalar _ _ = _ |- _ =>
    apply (update_found DRONE_COMMAND_RECEIPT d receipt_key _ _ (receipt_row i) _ _ (SText (command_id i)))
      in H as Hu
  end; [|done|left|apply receipt_names|done|right; left|by_decide].
  fold (receipt_entry d i) in Hu. destruct (receipt_entry d i) as [r|]; [|naive_solver].
  destruct (selects _ r) eqn:Hs; [|naive_solver]. destruct Hu as (_&_&Hr). eauto.
Qed.

(** The completed receipt is the one every later claim of these bytes is answered with. *)
Lemma receipt_completed i result n at_ u d d' :
  consistent d → complete i result n at_ d = Ok (u, d') → received d' i result n at_.
Proof.
  intros Hd Hc. apply receipt_complete_Ok in Hc as (Hn&(r&Hr&Hopen)&Hu); [|done].
  exists (assign (completion_values result n at_) r). unfold receipt_entry in *.
  rewrite (found_update _ _ _ _ _ _ Hu) by done. rewrite Hr. cbn [fmap option_fmap option_map].
  apply found_Some in Hr as [_ ->]. split; [done|]. cbn in Hopen. bools.
  unfold completion_values, assign. cbn [foldl fst snd]. rewrite !cell_dict_set. cbn.
  rewrite !sql_eq_true in *. naive_solver.
Qed.

Lemma receipt_claim_effect i : effect stays_consistent (claim i).
Proof. unfold claim, claim_statement, stored_statement. effects. Qed.
Lemma receipt_complete_effect i result n at_ : effect stays_consistent (complete i result n at_).
Proof. unfold complete, completion_statement. effects. Qed.
Lemma receipt_claim_confined i : effect (confined [DRONE_COMMAND_RECEIPT]) (claim i).
Proof. unfold claim, claim_statement, stored_statement. effects. Qed.
Lemma receipt_complete_confined i result n at_ :
  effect (confined [DRONE_COMMAND_RECEIPT]) (complete i result n at_).
Proof. unfold complete, completion_statement. effects. Qed.

Lemma received_proper d d' i result n at_ : d ≡ d' → received d i result n at_ → received d' i result n at_.
Proof. intros Hd. unfold received, receipt_entry. by rewrite (found_proper _ _ _ _ Hd). Qed.

Lemma received_same d d' i result n at_ :
  rows d' DRONE_COMMAND_RECEIPT = rows d DRONE_COMMAND_RECEIPT →
  received d i result n at_ → received d' i result n at_.
Proof. intros Hr. unfold received, receipt_entry, found. by rewrite Hr. Qed.

(** A finished receipt is never reopened, replaced or lost. *)
Definition receipts_kept (d d' : db) : Prop :=
  consistent d → consistent d' ∧ ∀ i r n at_, received d i r n at_ → received d' i r n at_.

#[global] Instance receipts_kept_preorder : PreOrder receipts_kept.
Proof.
  split; [by intros d Hd|]. intros d1 d2 d3 H1 H2 Hd. destruct (H1 Hd) as [Hd2 H1'].
  destruct (H2 Hd2) as [Hd3 H2']. split; [done|]. eauto.
Qed.

Lemma receipt_claim_keeps i : effect receipts_kept (claim i).
Proof.
  intros d o d' Hc Hd. split; [by eapply receipt_claim_effect|]. intros j result n at_ Hj.
  apply receipt_claim_Ok in Hc; [|done]. destruct (receipt_entry d i) as [r|].
  - destruct Hc as [Hc _]. by eapply received_proper.
  - destruct Hc as [_ Hr]. destruct Hj as (x&Hx&Hj). exists x. split; [|done].
    unfold receipt_entry in *. by rewrite (found_snoc _ _ _ _ _ Hr), Hx.
Qed.

Lemma receipt_complete_keeps i result n at_ : effect receipts_kept (complete i result n at_).
Proof.
  intros d o d' Hc Hd. split; [by eapply receipt_complete_effect|]. intros j b m at' (x&Hx&Hj).
  apply receipt_complete_Ok in Hc as (_&(r&Hr&Hopen)&Hu); [|done]. exists x. split; [|done].
  unfold receipt_entry in *. rewrite (found_update _ _ _ _ _ _ Hu) by done. rewrite Hx. cbn [fmap option_fmap option_map].
  destruct (selects (receipt_conds i) x) eqn:Hs; [|done].
  apply found_Some in Hx as [Hx _].
  assert (Hxr : found d DRONE_COMMAND_RECEIPT (receipt_conds i) = Some x).
  { eapply found_elem; [done|left|apply receipt_names|done..]. }
  rewrite Hr in Hxr. injection Hxr as <-. destruct Hj as (_&_&Hb&_). cbn in Hopen. bools. congruence.
Qed.

(** A finished receipt answers these bytes again, and writes nothing. *)
Lemma receipt_claim_again i result n at_ d :
  consistent d → permits (claim_statement i) d = true → (∀ d', permits (stored_statement i) d' = true) →
  admitted DRONE_COMMAND_RECEIPT (receipt_row i) = true → received d i result n at_ →
  ∃ d', claim i d = Ok (prior result n at_, d') ∧ d' ≡ d.
Proof.
  intros Hd Hp Hp' Ha (r&He&Hm&Hdig&Hres&Hn&Hat&Hpos).
  destruct (insert_runs DRONE_COMMAND_RECEIPT receipt_key eq_refl (receipt_values i) "command_id" d Hp Ha) as (o&d1&Hi).
  assert (Hi' := Hi). apply (insert_found DRONE_COMMAND_RECEIPT d receipt_key (receipt_conds i)) in Hi'
    as [_ Hi']; [|done..|apply receipt_names|done]. fold (receipt_entry d i) in Hi'. rewrite He in Hi'. destruct Hi' as [-> Hd1].
  assert (Hc1 : consistent d1) by (intros t; rewrite (Hd1 t); apply Hd).
  destruct (select_found_runs DRONE_COMMAND_RECEIPT d1 receipt_key (receipt_row i)
              ["mission_id"; "command_digest"; "result"; "applied_sequence"; "processed_at"] (receipt_conds i) [])
    as (d2&Hs); [done | left | apply receipt_names | apply Hp' |].
  assert (Hd2 := Hs). apply select_found in Hd2 as [Hd2 _].
  rewrite (found_proper _ _ _ _ Hd1) in Hs. fold (receipt_entry d i) in Hs. rewrite He in Hs. exists d2. split; [|by rewrite Hd2].
  unfold claim. rewrite (tx_bind_run _ _ _ _ _ (lift_run Driver _ _ _ Hi)).
  rewrite (tx_bind_run _ _ _ _ _ (lift_run Driver _ _ _ Hs)). cbn. rewrite Hm, Hdig, Hres, Hn, Hat. unfold pure.
  rewrite !bool_decide_eq_true_2 by done. cbn. destruct (n <? 0) eqn:Hlt; [by apply Z.ltb_lt in Hlt; lia|done].
Qed.

(** Under a finished receipt no other bytes are claimed. *)
Lemma receipt_claim_other i j result n at_ d :
  consistent d → received d i result n at_ → drone_id j = drone_id i → command_id j = command_id i →
  (mission_id j, command_digest j) ≠ (mission_id i, command_digest i) → ∃ e, claim j d = Err e.
Proof.
  intros Hd (r&He&Hm&Hdig&_) Hdr Hc Hne. destruct (claim j d) as [[o d']|e] eqn:Hj; [|by eexists].
  apply receipt_claim_Ok in Hj; [|done].
  assert (Hje : receipt_entry d j = Some r) by (rewrite <- He; unfold receipt_entry, receipt_conds; by rewrite Hdr, Hc).
  rewrite Hje in Hj. destruct Hj as (_&res&m&at'&_&(r'&He'&Hm'&Hdig'&_)). exfalso. apply Hne. congruence.
Qed.

Lemma receipt_claim_admitted i o d d' :
  consistent d → claim i d = Ok (o, d') → admitted DRONE_COMMAND_RECEIPT (receipt_row i) = true.
Proof.
  intros Hd Hc. unfold claim in Hc. apply tx_bind_Ok in Hc as (claimed&d1&Hi%lift_Ok&_).
  by apply (insert_found DRONE_COMMAND_RECEIPT d receipt_key (receipt_conds i)) in Hi as [Ha _];
    [|done..|apply receipt_names|done].
Qed.

(** The server runs the statement a first claim needs. *)
Lemma receipt_claim_first i d :
  consistent d → permits (claim_statement i) d = true → admitted DRONE_COMMAND_RECEIPT (receipt_row i) = true →
  receipt_entry d i = None → ∃ d', claim i d = Ok (newly_claimed, d') ∧
    replaces d DRONE_COMMAND_RECEIPT (rows d DRONE_COMMAND_RECEIPT ++ [receipt_row i])%list d'.
Proof.
  intros Hd Hp Ha He.
  destruct (insert_runs DRONE_COMMAND_RECEIPT receipt_key eq_refl (receipt_values i) "command_id" d Hp Ha) as (o&d1&Hi).
  assert (Hc : claim i d = match o with Some _ => Ok (newly_claimed, d1) | None => claim i d end).
  { destruct o; [|done]. unfold claim. by rewrite (tx_bind_run _ _ _ _ _ (lift_run Driver _ _ _ Hi)). }
  apply (insert_found DRONE_COMMAND_RECEIPT d receipt_key (receipt_conds i)) in Hi
    as [_ Hi]; [|done..|apply receipt_names|done]. fold (receipt_entry d i) in Hi. rewrite He in Hi. destruct Hi as [-> Hr].
  by exists d1.
Qed.
End receipts.
