(* ===== verification/FleetStore.v ===== *)
(** * A drone's durable store

    [packages/store/src/aerial_rescue_store/processing/fleet.py]: the high-water of a drone's
    stream, its immutable command effects, and the bounded outbox of its critical publications,
    each admitted while the drone's row is locked.  [FleetTransaction] groups them over one
    transaction. *)

From S2P Require Import Prelude PyStr Regex PyVal Instant Idempotency Outbox Sql Schema StoreEvents StoreReceipts.
Local Open Scope string_scope.
Local Open Scope Z_scope.

Definition CRITICAL_OUTBOX_MAX_RECORDS : Z := 500.
Definition CRITICAL_OUTBOX_MAX_BYTES : Z := 2 * 1024 * 1024.
Definition MAXIMUM_PRODUCER_SEQUENCE : Z := 10 ^ 15 - 1.
Definition CRITICAL_FAMILIES : list string := ["drone-event"; "drone-command-result"; "sector-event"].
Definition UNCONFIRMED_STATES : OutboxState * OutboxState := (STAGED, RECONCILIATION_NEEDED).
Definition DIGEST_PATTERN : re := rep 64 (RChr is_lower_hex).

Inductive FleetStoreRefusal : Set :=
| INVALID_SEQUENCE | IDENTITY_CONFLICT | STREAM_CHANGED | UNREADABLE_USAGE | NONCRITICAL_FAMILY
| RECORD_CAPACITY | BYTE_CAPACITY | EVENT_CONFLICT | INVALID_EFFECT | EFFECT_CONFLICT | RESULT_BINDING.

#[export] Instance FleetStoreRefusal_eq_dec : EqDecision FleetStoreRefusal.
Proof. solve_decision. Defined.

(** [FleetStoreError], the receipt repository's error, the driver's, or the encoding of a topic
    with a lone surrogate. *)
Inductive fleet_store_failure : Type :=
| FleetStoreError (refusal : FleetStoreRefusal) (value : pyval)
| ReceiptFailure (e : store_failure ReceiptRefusal)
| FleetDriver (e : sql_failure)
| TopicEncoding.

Inductive CommandEffectOutcome : Set := SUCCEEDED | FAILED.
Definition outcome_value (o : CommandEffectOutcome) : string :=
  match o with SUCCEEDED => "succeeded" | FAILED => "failed" end.

Record DroneStreamIdentity : Set := { drone_id : string; producer : string }.

Record DurableCommandEffect : Set := {
  identity : CommandReceiptIdentity; outcome : CommandEffectOutcome; effect_payload : string;
  applied_sequence : Z; applied_at : string
}.

(** ** Statements *)

Definition stream_values (i : DroneStreamIdentity) : row :=
  [("drone_id", SText (drone_id i)); ("producer", SText (producer i)); ("high_water", SNull)].

Definition register_stream_statement (i : DroneStreamIdentity) : statement :=
  Insert DRONE_STREAM_STATE (stream_values i) (DoNothing None) ["drone_id"].

Definition stream_key : list string := ["drone_id"].
Definition stream_conds (i : DroneStreamIdentity) : list cond := [Equals "drone_id" (SText (drone_id i))].

(** [FOR UPDATE]: transactions are serial here. *)
Definition stream_lock_statement (i : DroneStreamIdentity) : statement :=
  Select DRONE_STREAM_STATE ["producer"; "high_water"] (stream_conds i) [] None.

Definition at_high_water (i : DroneStreamIdentity) (previous : option Z) : list cond :=
  [Equals "producer" (SText (producer i));
   match previous with None => IsNull "high_water" | Some n => Equals "high_water" (SInt n) end].

Definition advance_stream_statement (i : DroneStreamIdentity) (previous : option Z) (candidate : Z) : statement :=
  Update DRONE_STREAM_STATE (stream_conds i ++ at_high_water i previous)%list
         [("high_water", SInt candidate)] ["drone_id"].

Definition unconfirmed_conds (p : string) : list cond :=
  [Equals "producer" (SText p);
   Either (Equals "state" (SText (state_value UNCONFIRMED_STATES.1)))
          (Equals "state" (SText (state_value UNCONFIRMED_STATES.2)))].

Definition measured : list string := ["topic"; "headers"; "payload"].

Definition critical_usage_statement (i : DroneStreamIdentity) : statement :=
  SelectUsage APPLICATION_OUTBOX "event_id" measured (unconfirmed_conds (producer i)).

Definition effect_values (e : DurableCommandEffect) : row :=
  [("drone_id", SText (StoreReceipts.drone_id (identity e))); ("command_id", SText (command_id (identity e)));
   ("mission_id", SText (mission_id (identity e))); ("command_digest", SText (command_digest (identity e)));
   ("outcome", SText (outcome_value (outcome e))); ("effect_payload", SBytes (effect_payload e));
   ("applied_sequence", SInt (applied_sequence e)); ("applied_at", SText (applied_at e))].

Definition effect_statement (e : DurableCommandEffect) : statement :=
  Insert DRONE_COMMAND_EFFECT (effect_values e) (DoNothing None) ["command_id"].

(** ** What needs no store *)

(** [_valid_sequence] *)
Definition valid_sequence (n : Z) : bool := (0 <=? n) && (n <=? MAXIMUM_PRODUCER_SEQUENCE).

Definition critical_size (e : StagedApplicationEvent) : result fleet_store_failure Z :=
  raise_if (has_surrogate (topic e)) TopicEncoding ;;
  Ok (Z.of_nat (String.length (topic e)) + Z.of_nat (String.length (headers e)) +
      Z.of_nat (String.length (payload e))).

(** [_validate_critical] *)
Definition validate_critical (i : DroneStreamIdentity) (e : StagedApplicationEvent)
    : result fleet_store_failure Z :=
  raise_if (negb (bool_decide (family e ∈ CRITICAL_FAMILIES)))
           (FleetStoreError NONCRITICAL_FAMILY (PyStr (family e))) ;;
  raise_if (negb (bool_decide (StoreEvents.producer e = producer i)))
           (FleetStoreError IDENTITY_CONFLICT (PyStr (drone_id i))) ;;
  size ← critical_size e;
  raise_if (CRITICAL_OUTBOX_MAX_BYTES <? size) (FleetStoreError BYTE_CAPACITY (PyStr (event_id e))) ;;
  Ok size.

(** [_valid_effect] *)
Definition valid_effect (e : DurableCommandEffect) : bool :=
  negb (bool_decide (effect_payload e = "")) && (0 <=? applied_sequence e) &&
  fullmatch DIGEST_PATTERN (command_digest (identity e)) && is_ok (parse_instant (PyStr (applied_at e))).

(** A selected stream row. *)
Definition read_high_water (i : DroneStreamIdentity) (row : option (list sqlval))
    : result fleet_store_failure (option Z) :=
  let conflict := Err (FleetStoreError IDENTITY_CONFLICT (PyStr (drone_id i))) in
  match row with
  | Some [p; high] =>
      valid ← match high with
              | SNull => Ok None
              | SInt n => if valid_sequence n then Ok (Some n) else conflict
              | _ => conflict
              end;
      if bool_decide (p = SText (producer i)) then Ok valid else conflict
  | _ => conflict
  end.

Definition read_usage (i : DroneStreamIdentity) (row : option (list sqlval))
    : result fleet_store_failure (Z * Z) :=
  match row with
  | Some [SInt records; SInt used] =>
      raise_if ((records <? 0) || (used <? 0)) (FleetStoreError UNREADABLE_USAGE (PyStr (drone_id i))) ;;
      Ok (records, used)
  | _ => Err (FleetStoreError UNREADABLE_USAGE (PyStr (drone_id i)))
  end.

(** What [except ApplicationOutboxError] makes of a failed staging. *)
Definition staging_failed (e : StagedApplicationEvent) (f : store_failure ApplicationOutboxRefusal)
    : fleet_store_failure :=
  match f with
  | Driver x => FleetDriver x
  | _ => FleetStoreError EVENT_CONFLICT (PyStr (event_id e))
  end.

Section fleet.
Context `{Database}.

Abbreviation fleet_tx := (tx fleet_store_failure).
Abbreviation fsql m := (lift FleetDriver m).

(** [_locked_high_water] *)
Definition locked_high_water (i : DroneStreamIdentity) : fleet_tx (option Z) :=
  fsql (scalar (register_stream_statement i)) ;;
  row ← fsql (one_or_none (stream_lock_statement i));
  pure (read_high_water i row).

Definition admit_sequence (i : DroneStreamIdentity) (n : Z) : fleet_tx SequenceVerdict :=
  pure (raise_if (negb (valid_sequence n)) (FleetStoreError INVALID_SEQUENCE (PyInt n))) ;;
  previous ← locked_high_water i;
  let v := verdict (receive {| last_accepted := previous |} n) in
  if negb (bool_decide (v = ADVANCES)) then mret v else
  changed ← fsql (scalar (advance_stream_statement i previous n));
  pure (raise_if (bool_decide (changed = None)) (FleetStoreError STREAM_CHANGED (PyStr (drone_id i)))) ;;
  mret v.

(** [_critical_usage] *)
Definition critical_usage (i : DroneStreamIdentity) : fleet_tx (Z * Z) :=
  row ← fsql (one_or_none (critical_usage_statement i));
  pure (read_usage i row).

Definition stage_critical (i : DroneStreamIdentity) (e : StagedApplicationEvent) : fleet_tx unit :=
  size ← pure (validate_critical i e);
  locked_high_water i ;;
  usage ← critical_usage i;
  pure (raise_if (CRITICAL_OUTBOX_MAX_RECORDS <=? usage.1) (FleetStoreError RECORD_CAPACITY (PyStr (drone_id i)))) ;;
  pure (raise_if (CRITICAL_OUTBOX_MAX_BYTES <? usage.2 + size) (FleetStoreError BYTE_CAPACITY (PyStr (drone_id i)))) ;;
  lift (staging_failed e) (StoreEvents.stage e).

Definition record_effect (e : DurableCommandEffect) : fleet_tx DurableCommandEffect :=
  pure (raise_if (negb (valid_effect e)) (FleetStoreError INVALID_EFFECT (PyStr (command_id (identity e))))) ;;
  inserted ← fsql (scalar (effect_statement e));
  pure (raise_if (bool_decide (inserted = None)) (FleetStoreError EFFECT_CONFLICT (PyStr (command_id (identity e))))) ;;
  mret e.

(** [for publication in publications] *)
Fixpoint stage_all (i : DroneStreamIdentity) (es : list StagedApplicationEvent) : fleet_tx unit :=
  match es with [] => mret tt | e :: es => stage_critical i e ;; stage_all i es end.

Definition claim_receipt (i : CommandReceiptIdentity) : fleet_tx ReceiptOutcome := lift ReceiptFailure (claim i).

Definition persist_outcome (s : DroneStreamIdentity) (e : DurableCommandEffect)
    (publications : list StagedApplicationEvent) (final_result : string) : fleet_tx unit :=
  let bound := bool_decide (StoreReceipts.drone_id (identity e) = drone_id s) &&
               bool_decide (payload <$> last publications = Some final_result) in
  pure (raise_if (negb bound) (FleetStoreError RESULT_BINDING (PyStr (command_id (identity e))))) ;;
  record_effect e ;;
  stage_all s publications ;;
  lift ReceiptFailure (complete (identity e) final_result (applied_sequence e) (applied_at e)) ;;
  mret tt.
End fleet.

(** ** The tables *)

Section tables.
Context `{Database}.

Definition stream_entry (d : db) (drone : string) : option row :=
  found d DRONE_STREAM_STATE [Equals "drone_id" (SText drone)].

Definition stream_row (i : DroneStreamIdentity) : row := make_row DRONE_STREAM_STATE (stream_values i).

(** The last sequence the drone accepted. *)
Definition high_water (d : db) (drone : string) : option Z :=
  match stream_entry d drone with
  | Some r => match cell r "high_water" with SInt n => Some n | _ => None end
  | None => None
  end.

(** What a producer still has to publish. *)
Definition unconfirmed_rows (d : db) (p : string) : list row :=
  where_rows (unconfirmed_conds p) (rows d APPLICATION_OUTBOX).
Definition records (d : db) (p : string) : Z := Z.of_nat (length (unconfirmed_rows d p)).
Definition bytes (d : db) (p : string) : Z := total_octets measured (unconfirmed_rows d p).

(** The two bounds of a producer's outbox. *)
Definition bounded (p : string) (d : db) : Prop :=
  records d p ≤ CRITICAL_OUTBOX_MAX_RECORDS ∧ bytes d p ≤ CRITICAL_OUTBOX_MAX_BYTES.

Lemma stream_names i : names_key stream_key (stream_conds i) (stream_row i).
Proof.
  intros x. cbn [selects stream_conds same_key stream_key forallb holds]. cells.
  by rewrite (sql_eq_comm (cell x _)).
Qed.

Lemma stream_clash i r l :
  r ∈ l → selects (stream_conds i) r = true → existsb (clash (unique_keys DRONE_STREAM_STATE) (stream_row i)) l = true.
Proof.
  intros Hr Hs. apply existsb_true. exists r. split; [done|]. rewrite (stream_names i) in Hs.
  unfold clash. apply orb_true_iff. by left.
Qed.

(** The lock leaves the drone's row in the table, bound to this producer. *)
Lemma locked_Ok i o d d' :
  consistent d → locked_high_water i d = Ok (o, d') →
  o = high_water d (drone_id i) ∧ (∀ x, high_water d' x = high_water d x) ∧
  ∃ r, stream_entry d' (drone_id i) = Some r ∧ cell r "producer" = SText (producer i) ∧
       cell r "high_water" = from_option SInt SNull o.
Proof.
  intros Hd Hl. unfold locked_high_water in Hl. apply tx_bind_Ok in Hl as (c&d0&Hi%lift_Ok&Hl).
  apply tx_bind_Ok in Hl as (row&d1&Hs%lift_Ok&Hl). apply pure_Ok in Hl as [Hl ->].
  apply insert_any_Ok in Hi as [_ Hi]; [|done]. apply select_found in Hs as [Hs ->]. symmetry in Hl.
  fold (stream_row i) in Hi.
  assert (Hread : ∀ r, Ok o = read_high_water i (project ["producer"; "high_water"] <$> Some r) →
    o = match cell r "high_water" with SInt n => Some n | _ => None end ∧
    cell r "producer" = SText (producer i) ∧ cell r "high_water" = from_option SInt SNull o).
  { intros r Hr. symmetry in Hr. cbn in Hr. apply bind_Ok in Hr as (v&Hv&Hr). case_bool_decide as Hp; [|done]. injection Hr as ->.
    destruct (cell r "high_water") as [| |n|]; try done; [by injection Hv as <-|].
    destruct (valid_sequence n); [|done]. by injection Hv as <-. }
  change (found d0 DRONE_STREAM_STATE (stream_conds i)) with (stream_entry d0 (drone_id i)) in *.
  assert (Hsnoc : ∀ r x, replaces d DRONE_STREAM_STATE (rows d DRONE_STREAM_STATE ++ [r])%list d0 →
    stream_entry d0 x = match stream_entry d x with
                        | Some y => Some y
                        | None => if selects [Equals "drone_id" (SText x)] r then Some r else None
                        end) by (intros r x Hr; by apply found_snoc).
  assert (Hd' : ∀ x, stream_entry d1 x = stream_entry d0 x) by (intros x; by apply found_proper).
  unfold high_water. setoid_rewrite Hd'. clear Hd'.
  destruct (existsb _ _) eqn:Hc; destruct Hi as [-> Hi].
  - assert (Hd0 : ∀ x, stream_entry d0 x = stream_entry d x) by (intros x; by apply found_proper).
    setoid_rewrite Hd0. rewrite Hd0 in Hl. destruct (stream_entry d (drone_id i)) as [r|]; [|done].
    apply Hread in Hl as (->&Hp&Hh). split; [done|]. split; [done|]. by exists r.
  - rewrite (Hsnoc _ _ Hi) in Hl. destruct (stream_entry d (drone_id i)) as [r|] eqn:He.
    { apply found_Some in He as [Hr Hsel]. by rewrite (stream_clash i r) in Hc. }
    rewrite (stream_names i), (proj2 (same_key_true _ _ _)) in Hl by (repeat constructor; by cells).
    apply Hread in Hl as (->&Hp&Hh). split; [by cells|]. split.
    + intros x. rewrite (Hsnoc _ _ Hi). destruct (stream_entry d x); [done|]. by destruct (selects _ _).
    + exists (stream_row i). rewrite (Hsnoc _ _ Hi), He. split; [|done].
      by rewrite (stream_names i), (proj2 (same_key_true _ _ _)) by (repeat constructor; by cells).
Qed.

Lemma locked_effect i : effect stays_consistent (locked_high_water i).
Proof. unfold locked_high_water, register_stream_statement, stream_lock_statement. effects. Qed.
Lemma locked_confined i : effect (confined [DRONE_STREAM_STATE]) (locked_high_water i).
Proof. unfold locked_high_water, register_stream_statement, stream_lock_statement. effects. Qed.

(** The lock of a drone already bound to its producer. *)
Lemma locked_runs i r d :
  consistent d → (∀ st d', permits st d' = true) → admitted DRONE_STREAM_STATE (stream_row i) = true →
  stream_entry d (drone_id i) = Some r → cell r "producer" = SText (producer i) →
  match high_water d (drone_id i) with
  | Some m => valid_sequence m = true → ∃ d', locked_high_water i d = Ok (Some m, d') ∧ d' ≡ d
  | None => True
  end.
Proof.
  intros Hd Hs Ha Hr Hp. unfold high_water. rewrite Hr. destruct (cell r "high_water") as [| |m|] eqn:Hh; try done.
  intros Hv. assert (Hel := Hr). apply found_Some in Hel as [Hin Hsel].
  destruct (insert_any_clash_runs DRONE_STREAM_STATE (stream_values i) "drone_id" d (Hs _ _) Ha (stream_clash i r _ Hin Hsel)) as (d1&H1&Hd1).
  assert (Hc1 : consistent d1) by (intros t; rewrite (Hd1 t); apply Hd).
  destruct (select_found_runs DRONE_STREAM_STATE d1 stream_key (stream_row i) ["producer"; "high_water"] (stream_conds i) [])
    as (d2&H2); [done|left|apply stream_names|apply Hs|].
  assert (Hd2 := H2). apply select_found in Hd2 as [Hd2 _]. exists d2. split; [|by rewrite Hd2].
  unfold locked_high_water. rewrite (tx_bind_run _ _ _ _ _ (lift_run FleetDriver _ _ _ H1)).
  rewrite (tx_bind_run _ _ _ _ _ (lift_run FleetDriver _ _ _ H2)). rewrite (found_proper _ _ _ _ Hd1).
  change (found d DRONE_STREAM_STATE (stream_conds i)) with (stream_entry d (drone_id i)). rewrite Hr.
  unfold pure. cbn. rewrite Hh, Hv, Hp. cbn. by rewrite bool_decide_eq_true_2.
Qed.

(** A sequence that is not beyond the high-water is not admitted, and nothing is written. *)
Lemma admit_behind i n m r d :
  consistent d → (∀ st d', permits st d' = true) → admitted DRONE_STREAM_STATE (stream_row i) = true →
  stream_entry d (drone_id i) = Some r → cell r "producer" = SText (producer i) →
  high_water d (drone_id i) = Some m → valid_sequence m = true → 0 ≤ n ≤ m →
  ∃ v d', admit_sequence i n d = Ok (v, d') ∧ v ≠ ADVANCES.
Proof.
  intros Hd Hs Ha Hr Hp Hm Hv Hn. pose proof (locked_runs i r d Hd Hs Ha Hr Hp) as Hl. rewrite Hm in Hl.
  destruct (Hl Hv) as (d1&H1&_). set (v := verdict (receive {| last_accepted := Some m |} n)).
  assert (Hne : v ≠ ADVANCES).
  { subst v. unfold receive. cbn [last_accepted]. destruct (m <? n) eqn:Hmn; [bools; lia|]. by destruct (n =? m). }
  exists v, d1. split; [|done]. unfold admit_sequence.
  rewrite (tx_bind_run _ _ d tt d).
  2: { unfold valid_sequence in *. bools. unfold pure. assert ((0 <=? n) && (n <=? MAXIMUM_PRODUCER_SEQUENCE) = true) as -> by (apply andb_true_iff; rewrite !Z.leb_le; lia). done. }
  rewrite (tx_bind_run _ _ _ _ _ H1). fold v. by rewrite bool_decide_eq_false_2.
Qed.

(** [admit_sequence] is the domain's decision on the drone's stream, and keeps its result. *)
Lemma admit_Ok i n v d d' :
  consistent d → admit_sequence i n d = Ok (v, d') →
  0 ≤ n ≤ MAXIMUM_PRODUCER_SEQUENCE ∧
  let r := receive {| last_accepted := high_water d (drone_id i) |} n in
  v = verdict r ∧ high_water d' (drone_id i) = last_accepted (stream r) ∧
  ∀ x, x ≠ drone_id i → high_water d' x = high_water d x.
Proof.
  intros Hd Ha. unfold admit_sequence in Ha. apply tx_bind_Ok in Ha as ([]&d0&[Hn ->]%pure_Ok&Ha).
  apply tx_bind_Ok in Ha as (o&d1&Hl&Ha). pose proof (locked_effect i _ _ _ Hl Hd) as Hd1.
  apply locked_Ok in Hl as (->&Hw&r&Hr&Hp&Hh); [|done]. unfold valid_sequence in Hn. run_ok. bools. split; [done|].
  assert (Hsame : ∀ v, verdict (receive {| last_accepted := high_water d (drone_id i) |} n) = v → v ≠ ADVANCES →
    last_accepted (stream (receive {| last_accepted := high_water d (drone_id i) |} n)) = high_water d (drone_id i)).
  { intros v' <- Hv. unfold receive in *. cbn [last_accepted] in *. destruct (high_water d _) as [m|]; [|done].
    destruct (m <? n); [done|]. by destruct (n =? m). }
  destruct (bool_decide (verdict _ = ADVANCES)) eqn:Hv; cbn [negb] in Ha; bools.
  2: { apply tx_ret_Ok in Ha as [<- <-]. split; [done|]. split; [|intros x _; apply Hw]. rewrite Hw. by erewrite Hsame. }
  apply tx_bind_Ok in Ha as (changed&d2&Hu%lift_Ok&Ha). run_tx. subst. bools. split; [done|].
  unfold advance_stream_statement in Hu.
  apply (update_found DRONE_STREAM_STATE d1 stream_key _ _ (stream_row i) _ _ (SText (drone_id i))) in Hu;
    [|done|left|apply stream_names|done|left|by_decide].
  change (found d1 DRONE_STREAM_STATE (stream_conds i)) with (stream_entry d1 (drone_id i)) in Hu. rewrite Hr in Hu.
  destruct (selects (at_high_water _ _) r); [|naive_solver]. destruct Hu as (_&_&Hu).
  assert (He : ∀ x, stream_entry d' x = (λ y, if selects (stream_conds i) y then assign [("high_water", SInt n)] y else y)
                                          <$> stream_entry d1 x) by (intros x; by apply (found_update _ _ _ _ _ _ Hu)).
  unfold high_water at 1. rewrite He, Hr. apply found_Some in Hr as [_ Hsel]. split.
  - cbn [fmap option_fmap option_map]. fold (stream_conds i) in Hsel. rewrite Hsel. unfold assign. cbn [foldl fst snd].
    rewrite cell_dict_set, decide_True by done. unfold receive in *. cbn [last_accepted] in *.
    destruct (high_water d _) as [m|]; [|done]. destruct (m <? n); [done|]. by destruct (n =? m).
  - intros x Hx. rewrite <- Hw. unfold high_water. rewrite He. destruct (stream_entry d1 x) as [y|] eqn:Hy; [|done].
    cbn [fmap option_fmap option_map]. apply found_Some in Hy as [_ Hy]. destruct (selects (stream_conds i) y) eqn:Hs; [|done].
    apply selects_true in Hy, Hs. unfold stream_conds in Hs. rewrite Forall_singleton in Hy, Hs.
    apply sql_eq_true in Hy as [_ Hy], Hs as [_ Hs]. congruence.
Qed.

Lemma admit_effect i n : effect stays_consistent (admit_sequence i n).
Proof. pose proof locked_effect. unfold admit_sequence, advance_stream_statement. effects. Qed.
Lemma admit_confined i n : effect (confined [DRONE_STREAM_STATE]) (admit_sequence i n).
Proof. pose proof locked_confined. unfold admit_sequence, advance_stream_statement. effects. Qed.

(** ** The critical outbox *)

Lemma octets_event e : octets measured (event_row e) =
  Some (Z.of_nat (String.length (topic e)) + (Z.of_nat (String.length (headers e)) +
        (Z.of_nat (String.length (payload e)) + 0))).
Proof. unfold octets, measured. cbn [foldr]. cells. reflexivity. Qed.

Lemma event_row_unconfirmed e p : selects (unconfirmed_conds p) (event_row e) = bool_decide (StoreEvents.producer e = p).
Proof.
  cbn [selects unconfirmed_conds forallb holds UNCONFIRMED_STATES fst snd]. cells.
  apply eq_true_iff_eq. rewrite !andb_true_iff, orb_true_iff, !sql_eq_true, bool_decide_eq_true. naive_solver.
Qed.

Lemma critical_usage_Ok i u d d' :
  consistent d → critical_usage i d = Ok (u, d') → d' ≡ d ∧ u = (records d (producer i), bytes d (producer i)).
Proof.
  intros Hd Hu. unfold critical_usage in Hu. apply tx_bind_Ok in Hu as (row&d0&Hs%lift_Ok&[Hr ->]%pure_Ok).
  apply select_usage_Ok in Hs as [Hs ->]. split; [done|].
  change (where_rows (unconfirmed_conds (producer i)) (rows d APPLICATION_OUTBOX)) with (unconfirmed_rows d (producer i)) in Hr.
  assert (Hf : filter (λ r, cell r "event_id" ≠ SNull) (unconfirmed_rows d (producer i)) = unconfirmed_rows d (producer i)).
  { assert (Hall : ∀ r, r ∈ unconfirmed_rows d (producer i) → cell r "event_id" ≠ SNull).
    { intros r [Hx _]%where_rows_elem. destruct (Hd APPLICATION_OUTBOX) as [Ha _]. rewrite Forall_forall in Ha.
      destruct (admitted_text APPLICATION_OUTBOX r "event_id" IDENTIFIER_LENGTH (Ha r Hx)) as [s ->]; [by_decide|done]. }
    clear Hr. induction (unconfirmed_rows d (producer i)) as [|x l IH]; [done|]. rewrite filter_cons_True; [|apply Hall; left].
    apply (f_equal (cons x)), IH. intros r Hx. apply Hall. by right. }
  rewrite Hf in Hr. unfold read_usage in Hr. run_ok. by subst.
Qed.

(** A critical event is staged only within both bounds, and leaves them kept. *)
Lemma stage_critical_Ok i e u d d' :
  consistent d → stage_critical i e d = Ok (u, d') →
  family e ∈ CRITICAL_FAMILIES ∧ StoreEvents.producer e = producer i ∧ bounded (producer i) d' ∧
  event_entry d (producer i) (event_id e) = None ∧ rows d' APPLICATION_OUTBOX = (rows d APPLICATION_OUTBOX ++ [event_row e])%list ∧
  (∀ x, high_water d' x = high_water d x).
Proof.
  intros Hd Hs. unfold stage_critical in Hs. apply tx_bind_Ok in Hs as (size&d0&[Hv ->]%pure_Ok&Hs).
  apply tx_bind_Ok in Hs as (hw&d1&Hl&Hs). pose proof (locked_effect i _ _ _ Hl Hd) as Hd1.
  pose proof (locked_confined i _ _ _ Hl APPLICATION_OUTBOX ltac:(by_decide)) as Ho.
  apply locked_Ok in Hl as (_&Hw&_); [|done].
  apply tx_bind_Ok in Hs as (us&d2&Hus&Hs). apply critical_usage_Ok in Hus as [Hd2 ->]; [|done].
  apply tx_bind_Ok in Hs as ([]&d3&[Hrec ->]%pure_Ok&Hs). apply tx_bind_Ok in Hs as ([]&d3&[Hby ->]%pure_Ok&Hs%lift_Ok).
  assert (Hc2 : consistent d2) by (intros t; rewrite (Hd2 t); apply Hd1).
  apply stage_event_Ok in Hs as [Hnew Hr]; [|done]. cbn [fst snd] in *.
  unfold validate_critical in Hv. run_ok. bools. subst.
  assert (Ho' : rows d2 APPLICATION_OUTBOX = rows d APPLICATION_OUTBOX) by (by rewrite (Hd2 APPLICATION_OUTBOX)).
  assert (Hrows := replaces_target _ _ _ _ Hr). rewrite Ho' in Hrows.
  match goal with H : StoreEvents.producer e = _ |- _ => rename H into Hp end.
  split; [done|]. split; [done|]. split.
  - unfold bounded, records, bytes, unconfirmed_rows. rewrite Hrows, where_rows_app, length_app, total_octets_app.
    rewrite where_rows_cons, event_row_unconfirmed, bool_decide_eq_true_2 by done.
    unfold total_octets at 2. cbn [omap list_omap where_rows filter list_filter]. rewrite octets_event. cbn [foldr length].
    unfold records, bytes, unconfirmed_rows in Hrec, Hby. rewrite Ho in Hrec, Hby.
    match goal with H : critical_size e = Ok _ |- _ => unfold critical_size in H; run_ok; subst end. lia.
  - split; [by rewrite <- Hp; unfold event_entry, found in *; rewrite Ho' in Hnew|]. split; [done|].
    intros x. rewrite <- Hw. unfold high_water, stream_entry, found. rewrite (replaces_frame _ _ _ _ DRONE_STREAM_STATE Hr) by by_decide.
    by rewrite (Hd2 DRONE_STREAM_STATE).
Qed.
Lemma stage_critical_effect i e : effect stays_consistent (stage_critical i e).
Proof.
  pose proof locked_effect. assert (effect stays_consistent (critical_usage i)) by (unfold critical_usage, critical_usage_statement; effects).
  pose proof stage_event_effect. unfold stage_critical. effects.
Qed.
Lemma stage_critical_confined i e : effect (confined [DRONE_STREAM_STATE; APPLICATION_OUTBOX]) (stage_critical i e).
Proof.
  assert (effect (confined [DRONE_STREAM_STATE; APPLICATION_OUTBOX]) (locked_high_water i))
    by (eapply effect_confined_into; [apply locked_confined|reflexivity]).
  assert (effect (confined [DRONE_STREAM_STATE; APPLICATION_OUTBOX]) (critical_usage i))
    by (unfold critical_usage, critical_usage_statement; effects).
  assert (effect (confined [DRONE_STREAM_STATE; APPLICATION_OUTBOX]) (StoreEvents.stage e))
    by (eapply effect_confined_into; [apply stage_event_confined|reflexivity]).
  unfold stage_critical. effects.
Qed.

(** ** Effects *)

Definition effect_row (e : DurableCommandEffect) : row := make_row DRONE_COMMAND_EFFECT (effect_values e).

Lemma record_effect_Ok e x d d' :
  record_effect e d = Ok (x, d') →
  valid_effect e = true ∧ replaces d DRONE_COMMAND_EFFECT (rows d DRONE_COMMAND_EFFECT ++ [effect_row e])%list d' ∧
  existsb (clash (unique_keys DRONE_COMMAND_EFFECT) (effect_row e)) (rows d DRONE_COMMAND_EFFECT) = false.
Proof.
  intros Hr. unfold record_effect in Hr. apply tx_bind_Ok in Hr as ([]&d0&[Hv ->]%pure_Ok&Hr).
  apply tx_bind_Ok in Hr as (ins&d1&Hi%lift_Ok&Hr). run_tx. subst. bools.
  apply insert_any_Ok in Hi as [_ Hi]; [|done]. fold (effect_row x) in Hi. destruct (existsb _ _); [naive_solver|].
  split; [done|]. split; [by destruct Hi|done].
Qed.

Lemma record_effect_effect e : effect stays_consistent (record_effect e).
Proof. unfold record_effect, effect_statement. effects. Qed.
Lemma record_effect_confined e : effect (confined [DRONE_COMMAND_EFFECT]) (record_effect e).
Proof. unfold record_effect, effect_statement. effects. Qed.

(** The effects of one command. *)
Definition effect_conds (i : CommandReceiptIdentity) : list cond := receipt_conds i.

Lemma effect_names e : names_key receipt_key (effect_conds (identity e)) (effect_row e).
Proof.
  intros x. cbn [selects effect_conds receipt_conds same_key receipt_key forallb holds]. cells.
  by rewrite (sql_eq_comm (cell x "drone_id")), (sql_eq_comm (cell x "command_id")).
Qed.

(** In a consistent store a command has the one effect it was given. *)
Lemma effect_unique e d :
  consistent d → effect_row e ∈ rows d DRONE_COMMAND_EFFECT →
  where_rows (effect_conds (identity e)) (rows d DRONE_COMMAND_EFFECT) = [effect_row e].
Proof.
  intros Hd Hin.
  assert (Hs : selects (effect_conds (identity e)) (effect_row e) = true)
    by (rewrite (effect_names e); apply same_key_true; repeat constructor; by cells).
  assert (Hk : receipt_key ∈ unique_keys DRONE_COMMAND_EFFECT) by by_decide.
  destruct (found_key DRONE_COMMAND_EFFECT d receipt_key _ _ Hd Hk (effect_names e)) as [_ Hw].
  by rewrite (found_elem DRONE_COMMAND_EFFECT d receipt_key _ _ _ Hd Hk (effect_names e) Hin Hs) in Hw.
Qed.

(** ** What every transaction of the fleet keeps *)

(** The same event, but for how far its publication has come. *)
Definition same_event (r r' : row) : Prop := ∀ c, c ∉ ["state"; "confirmed_at"] → cell r' c = cell r c.

Record drone_keeps (d d' : db) : Prop := {
  kept_consistent : consistent d';
  kept_receipts i r n at_ : received d i r n at_ → received d' i r n at_;
  kept_effects : rows d DRONE_COMMAND_EFFECT `prefix_of` rows d' DRONE_COMMAND_EFFECT;
  kept_forward x : forward (high_water d x) (high_water d' x);
  kept_bounded p : bounded p d → bounded p d';
  kept_events p e r : event_entry d p e = Some r → ∃ r', event_entry d' p e = Some r' ∧ same_event r r'
}.

Definition keeps (d d' : db) : Prop := consistent d → drone_keeps d d'.

#[global] Instance keeps_preorder : PreOrder keeps.
Proof.
  split.
  - intros d Hd. split; [done|done|done| |done|]; [intros x; reflexivity|].
    intros p e r Hr. exists r. by split.
  - intros d1 d2 d3 H1 H2 Hd. destruct (H1 Hd) as [C1 R1 E1 F1 B1 V1]. destruct (H2 C1) as [C2 R2 E2 F2 B2 V2].
    split; [done|by eauto|by etransitivity| |by eauto|].
    + intros x. by transitivity (high_water d2 x).
    + intros p e r Hr. destruct (V1 p e r Hr) as (r1&Hr1&S1). destruct (V2 p e r1 Hr1) as (r2&Hr2&S2).
      exists r2. split; [done|]. intros c Hc. by rewrite S2, S1.
Qed.

(** The tables the relation speaks of. *)
Definition FLEET_TABLES : list Table :=
  [DRONE_COMMAND_RECEIPT; DRONE_COMMAND_EFFECT; DRONE_STREAM_STATE; APPLICATION_OUTBOX].

(** A step that leaves some of them alone need only answer for the others. *)
Lemma keeps_split d d' :
  consistent d → consistent d' →
  (rows d' DRONE_COMMAND_RECEIPT = rows d DRONE_COMMAND_RECEIPT ∨ ∀ i r n at_, received d i r n at_ → received d' i r n at_) →
  (rows d' DRONE_COMMAND_EFFECT = rows d DRONE_COMMAND_EFFECT ∨ rows d DRONE_COMMAND_EFFECT `prefix_of` rows d' DRONE_COMMAND_EFFECT) →
  (rows d' DRONE_STREAM_STATE = rows d DRONE_STREAM_STATE ∨ ∀ x, forward (high_water d x) (high_water d' x)) →
  (rows d' APPLICATION_OUTBOX = rows d APPLICATION_OUTBOX ∨
   (∀ p, bounded p d → bounded p d') ∧
   ∀ p e r, event_entry d p e = Some r → ∃ r', event_entry d' p e = Some r' ∧ same_event r r') →
  drone_keeps d d'.
Proof.
  intros Hd Hd' Hr He Hs Ho. split; [done| | | | |].
  - destruct Hr as [Hr|Hr]; [|done]. intros i r n at_. by apply received_same.
  - destruct He as [->|He]; done.
  - destruct Hs as [Hs|Hs]; [|done]. intros x. unfold high_water, stream_entry, found. rewrite Hs. reflexivity.
  - destruct Ho as [Ho|[Ho _]]; [|done]. intros p. unfold bounded, records, bytes, unconfirmed_rows. by rewrite Ho.
  - destruct Ho as [Ho|[_ Ho]]; [|done]. intros p e r. unfold event_entry, found. rewrite Ho. intros Hx. exists r. by split.
Qed.

Lemma effect_keeps_elsewhere {E A} ts (m : tx E A) :
  effect stays_consistent m → effect (confined ts) m → (∀ t, t ∈ FLEET_TABLES → t ∉ ts) → effect keeps m.
Proof.
  intros Hs Hc Ht d a d' Hm Hd. pose proof (Hc _ _ _ Hm) as Hf. apply keeps_split; [done|by eapply Hs|left..];
    apply Hf, Ht; by_decide.
Qed.

Lemma claim_keeps i : effect keeps (claim_receipt i).
Proof.
  intros d o d' Hm%lift_Ok Hd. destruct (receipt_claim_keeps i _ _ _ Hm Hd) as [Hd' Hk].
  pose proof (receipt_claim_confined i _ _ _ Hm) as Hf.
  apply keeps_split; [done|done|by right|left; apply Hf; by_decide..].
Qed.

Lemma complete_keeps i r n at_ : effect keeps (complete i r n at_).
Proof.
  intros d o d' Hm Hd. destruct (receipt_complete_keeps i r n at_ _ _ _ Hm Hd) as [Hd' Hk].
  pose proof (receipt_complete_confined i r n at_ _ _ _ Hm) as Hf.
  apply keeps_split; [done|done|by right|left; apply Hf; by_decide..].
Qed.

Lemma record_effect_keeps e : effect keeps (record_effect e).
Proof.
  intros d o d' Hm Hd. pose proof (record_effect_confined e _ _ _ Hm) as Hf.
  apply keeps_split; [done|by eapply record_effect_effect|left; apply Hf; by_decide| |left; apply Hf; by_decide..].
  right. apply record_effect_Ok in Hm as (_&Hr&_). rewrite (replaces_target _ _ _ _ Hr). by eexists.
Qed.

Lemma admit_keeps i n : effect keeps (admit_sequence i n).
Proof.
  intros d v d' Hm Hd. pose proof (admit_confined i n _ _ _ Hm) as Hf.
  apply keeps_split; [done|by eapply admit_effect|left; apply Hf; by_decide|left; apply Hf; by_decide| |left; apply Hf; by_decide].
  right. intros x. apply admit_Ok in Hm as (_&_&Hi&Hx); [|done]. destruct (decide (x = drone_id i)) as [->|Hne].
  - rewrite Hi. unfold receive. cbn [last_accepted]. destruct (high_water d (drone_id i)) as [m|]; [|done].
    destruct (m <? n) eqn:Hmn; [cbn; lia|]. destruct (n =? m); cbn; lia.
  - rewrite Hx by done. reflexivity.
Qed.

Lemma stage_critical_keeps i e : effect keeps (stage_critical i e).
Proof.
  intros d u d' Hm Hd. pose proof (stage_critical_confined i e _ _ _ Hm) as Hf.
  pose proof (stage_critical_effect i e _ _ _ Hm Hd) as Hd'.
  apply stage_critical_Ok in Hm as (_&Hp&Hb&_&Hrows&Hw); [|done].
  apply keeps_split; [done|done|left; apply Hf; by_decide|left; apply Hf; by_decide| |].
  - right. intros x. rewrite Hw. reflexivity.
  - right. split.
    + intros p. destruct (decide (p = producer i)) as [->|Hne]; [done|].
      unfold bounded, records, bytes, unconfirmed_rows. rewrite Hrows, where_rows_app, where_rows_cons, event_row_unconfirmed.
      rewrite bool_decide_eq_false_2 by congruence. cbn [where_rows filter list_filter]. by rewrite app_nil_r.
    + intros p x r Hr. exists r. split; [|done]. unfold event_entry, found in *. rewrite Hrows, where_rows_app.
      by destruct (where_rows (identity_conds p x) (rows d APPLICATION_OUTBOX)).
Qed.

(** Recording what the broker answered keeps both bounds: a publication never becomes
    unconfirmed. *)
Lemma publication_keeps i was event at_ : effect keeps (StoreEvents.record_publication i was event at_).
Proof.
  intros d became d' Hm Hd. pose proof (event_publication_confined i was event at_ _ _ _ Hm) as Hf.
  pose proof (event_publication_effect i was event at_ _ _ _ Hm Hd) as Hd'.
  pose proof (event_publication_rows i was event at_ _ _ _ Hm) as Hu. pose proof (replaces_target _ _ _ _ Hu) as Hr.
  apply keeps_split; [done|done|left; apply Hf; by_decide..|].
  assert (Hwas : was = UNCONFIRMED_STATES.1 ∨ was = UNCONFIRMED_STATES.2).
  { unfold StoreEvents.record_publication in Hm. apply tx_bind_Ok in Hm as (b&d1&[Ht%map_err_Ok _]%pure_Ok&_).
    destruct was, event; try done; (by left) || (by right). }
  right. split.
  - intros p. unfold bounded, records, bytes, unconfirmed_rows. rewrite Hr.
    assert (Hin : ∀ x, x ∈ rows d APPLICATION_OUTBOX →
      selects (identity_conds (of_producer i) (of_event i) ++ [Equals "state" (SText (state_value was))])%list x = true →
      selects (unconfirmed_conds p) (assign (moved_values became at_) x) = true → selects (unconfirmed_conds p) x = true).
    { intros x _ Hx Hq. apply selects_true in Hx. rewrite Forall_app, Forall_singleton in Hx. destruct Hx as [_ Hx].
      unfold unconfirmed_conds in *. cbn [selects forallb holds] in *. rewrite cell_assign_frame in Hq by by_decide.
      bools. rewrite !andb_true_iff, orb_true_iff. split; [done|]. split; [|done]. destruct Hwas as [<-|<-]; auto. }
    pose proof (count_update (unconfirmed_conds p) _ _ _ Hin) as Hc.
    pose proof (total_update measured (unconfirmed_conds p) _ (moved_values became at_) _ eq_refl Hin) as Ht. lia.
  - intros p e r Hx. unfold event_entry in *. rewrite (found_update _ _ _ _ _ _ Hu) by done. rewrite Hx.
    eexists. split; [done|]. intros c Hc. case_match; [|done]. apply cell_assign_frame. exact Hc.
Qed.

Lemma stage_all_keeps i es : effect keeps (stage_all i es).
Proof. induction es as [|e es IH]; cbn [stage_all]; [effects|]. apply effect_bind; [apply _|apply stage_critical_keeps|done]. Qed.

Lemma persist_keeps s e pubs r : effect keeps (persist_outcome s e pubs r).
Proof.
  pose proof record_effect_keeps. pose proof stage_all_keeps. pose proof complete_keeps. unfold persist_outcome. effects.
Qed.

Lemma stage_critical_all_Ok i es u d d' :
  consistent d → stage_all i es d = Ok (u, d') →
  rows d' APPLICATION_OUTBOX = (rows d APPLICATION_OUTBOX ++ (event_row <$> es))%list ∧
  (∀ x, high_water d' x = high_water d x) ∧ (es ≠ [] → bounded (producer i) d') ∧
  confined [DRONE_STREAM_STATE; APPLICATION_OUTBOX] d d'.
Proof.
  revert u d. induction es as [|e es IH]; intros u d Hd Hs; cbn [stage_all] in Hs.
  - apply tx_ret_Ok in Hs as [_ <-]. cbn. by rewrite app_nil_r.
  - apply tx_bind_Ok in Hs as ([]&d1&H1&Hs). pose proof (stage_critical_effect _ _ _ _ _ H1 Hd) as Hd1.
    pose proof (stage_critical_confined _ _ _ _ _ H1) as Hf1. apply stage_critical_Ok in H1 as (_&_&Hb&_&Hr1&Hw1); [|done].
    pose proof (stage_all_keeps i es _ _ _ Hs Hd1) as Hk.
    apply IH in Hs as (Hr&Hw&_&Hf); [|done]. rewrite Hr, Hr1, <- app_assoc. split; [done|].
    split; [intros x; by rewrite Hw|]. split; [|by etransitivity]. intros _. by apply (kept_bounded _ _ Hk).
Qed.

(** A persisted outcome is everything at once: the effect, its publications, and the receipt. *)
Lemma effect_persist_Ok s e pubs r u d d' :
  consistent d → persist_outcome s e pubs r d = Ok (u, d') →
  payload <$> last pubs = Some r ∧ valid_effect e = true ∧
  rows d' DRONE_COMMAND_EFFECT = (rows d DRONE_COMMAND_EFFECT ++ [effect_row e])%list ∧
  existsb (clash (unique_keys DRONE_COMMAND_EFFECT) (effect_row e)) (rows d DRONE_COMMAND_EFFECT) = false ∧
  rows d' APPLICATION_OUTBOX = (rows d APPLICATION_OUTBOX ++ (event_row <$> pubs))%list ∧ bounded (producer s) d' ∧
  (∀ x, high_water d' x = high_water d x) ∧ received d' (identity e) r (applied_sequence e) (applied_at e) ∧
  confined FLEET_TABLES d d'.
Proof.
  intros Hd Hp. unfold persist_outcome in Hp. apply tx_bind_Ok in Hp as ([]&d0&[Hb ->]%pure_Ok&Hp).
  apply tx_bind_Ok in Hp as (x&d1&H1&Hp). apply tx_bind_Ok in Hp as ([]&d2&H2&Hp).
  apply tx_bind_Ok in Hp as (c&d3&H3%lift_Ok&Hp). apply tx_ret_Ok in Hp as [_ <-].
  pose proof (record_effect_effect _ _ _ _ H1 Hd) as Hd1. pose proof (kept_consistent _ _ (stage_all_keeps _ _ _ _ _ H2 Hd1)) as Hd2.
  pose proof (record_effect_confined _ _ _ _ H1) as F1. pose proof (receipt_complete_confined _ _ _ _ _ _ _ H3) as F3.
  apply record_effect_Ok in H1 as (Hv&Hr1&Hnew). apply stage_critical_all_Ok in H2 as (Hr2&Hw&Hbd&F2); [|done].
  apply receipt_completed in H3; [|done]. run_ok. bools.
  assert (Hne : pubs ≠ []) by (by intros ->). split; [done|]. split; [done|].
  assert (Ho3 : rows d3 APPLICATION_OUTBOX = rows d2 APPLICATION_OUTBOX) by (apply F3; by_decide).
  assert (Hw3 : ∀ x, high_water d3 x = high_water d2 x)
    by (intros y; unfold high_water, stream_entry, found; by rewrite (F3 DRONE_STREAM_STATE) by by_decide).
  assert (Hw1 : ∀ x, high_water d1 x = high_water d x)
    by (intros y; unfold high_water, stream_entry, found; by rewrite (F1 DRONE_STREAM_STATE) by by_decide).
  split; [by rewrite (F3 DRONE_COMMAND_EFFECT), (F2 DRONE_COMMAND_EFFECT), (replaces_target _ _ _ _ Hr1) by by_decide|].
  split; [done|]. split; [by rewrite Ho3, Hr2, (F1 APPLICATION_OUTBOX) by by_decide|]. split.
  { specialize (Hbd Hne). unfold bounded, records, bytes, unconfirmed_rows in *. by rewrite Ho3. }
  split; [intros y; by rewrite Hw3, Hw, Hw1|]. split; [done|].
  transitivity d2; [transitivity d1|]; (eapply confined_sub; [eassumption|reflexivity]).
Qed.
End tables.

#[export] Hint Resolve claim_keeps admit_keeps record_effect_keeps stage_critical_keeps persist_keeps publication_keeps : effects.
