(* ===== verification/Authority.v ===== *)
(** * Command authority and gateway operations

    [packages/domain/src/aerial_rescue_domain/authority.py] and [operations.py]: two
    deny-by-default tables looked up by exact spelling.  The theorem connects the authority
    table to the approval protocol: a rescue escalation is authorized for exactly the records
    a consumption executed. *)

From S2P Require Import Prelude PyStr PyVal Canonical Digest Approvals.
Local Open Scope string_scope.

Inductive CommandType : Set := ASSIGN_SECTOR | ESCALATE_RESCUE.
Inductive Authority : Set := GATEWAY_POLICY | OPERATOR_APPROVAL.
Inductive AuthorityRefusal : Set := UNKNOWN_COMMAND_TYPE | APPROVAL_REQUIRED.

#[export] Instance CommandType_eq_dec : EqDecision CommandType.
Proof. solve_decision. Defined.
#[export] Instance Authority_eq_dec : EqDecision Authority.
Proof. solve_decision. Defined.

Definition command_value (c : CommandType) : string :=
  match c with ASSIGN_SECTOR => "assign-sector" | ESCALATE_RESCUE => "escalate-rescue" end.

Record AuthorityError : Set := { refusal : AuthorityRefusal; value : pyval }.

Definition AUTHORITY : list (CommandType * Authority) :=
  [(ASSIGN_SECTOR, GATEWAY_POLICY); (ESCALATE_RESCUE, OPERATOR_APPROVAL)].

Definition BY_KIND : list (string * CommandType) :=
  (λ c, (command_value c, c)) <$> [ASSIGN_SECTOR; ESCALATE_RESCUE].

Definition command_type (text : pyval) : result AuthorityError CommandType :=
  or_raise (by_value BY_KIND text) {| refusal := UNKNOWN_COMMAND_TYPE; value := text |}.

(** [_AUTHORITY[command]]: the table is total, so the [KeyError] has no case here. *)
Definition authority_for (c : CommandType) : option Authority := dict_get AUTHORITY c.

Definition authorize (text : pyval) (approval : option ApprovalState) : result AuthorityError CommandType :=
  command ← command_type text;
  raise_if (bool_decide (authority_for command = Some OPERATOR_APPROVAL) &&
            negb (bool_decide (approval = Some EXECUTED)))
           {| refusal := APPROVAL_REQUIRED; value := text |} ;;
  Ok command.

(** ** Gateway operations *)

Inductive Operation : Set := COMMAND_AUTHORITY.
Inductive OperationRefusal : Set := UNKNOWN_OPERATION.

#[export] Instance Operation_eq_dec : EqDecision Operation.
Proof. solve_decision. Defined.

Record OperationError : Set := { operation_refusal : OperationRefusal; operation_value : pyval }.

Definition ACTUATES : list (Operation * bool) := [(COMMAND_AUTHORITY, false)].

Definition operation_kind (o : Operation) : string :=
  match o with COMMAND_AUTHORITY => "command-authority" end.

Definition OPERATION_BY_KIND : list (string * Operation) := 
  (λ o, (operation_kind o, o)) <$> [COMMAND_AUTHORITY].

Definition operation (text : pyval) : result OperationError Operation :=
  or_raise (by_value OPERATION_BY_KIND text)
           {| operation_refusal := UNKNOWN_OPERATION; operation_value := text |}.

Definition actuates (requested : Operation) : option bool := dict_get ACTUATES requested.

(** ** What is authorized *)

Lemma command_type_Ok text c : command_type text = Ok c ↔ text = PyStr (command_value c).
Proof.
  unfold command_type. rewrite or_raise_Ok, by_value_Some. split.
  - intros (s&->&Hs%dict_get_elem). f_equal. revert Hs. unfold BY_KIND. cbn [fmap list_fmap].
    rewrite !elem_of_cons, elem_of_nil. intros [[= -> ->]|[[= -> ->]|[]]]; done.
  - intros ->. by exists (command_value c); destruct c.
Qed.

Lemma authorize_Ok text approval c :
  authorize text approval = Ok c ↔
  text = PyStr (command_value c) ∧ (c = ESCALATE_RESCUE → approval = Some EXECUTED).
Proof.
  unfold authorize. split.
  - intros Ha. run_ok. subst. split; [by apply command_type_Ok|]. intros ->.
    match goal with H : _ && _ = false |- _ => apply andb_false_iff in H as [H|H] end;
      bools; done.
  - intros [Ht Hc]. rewrite (proj2 (command_type_Ok text c) Ht). cbn [mbind result_bind].
    destruct c; [done|]. by rewrite (bool_decide_true _ (Hc eq_refl)).
Qed.

(** A rescue escalation is authorized by a consumption and by nothing else.  After any
    calls on any approved record, the record authorizes the command exactly when one of the
    calls consumed it; with no record, or a record in any other state, it is refused; an
    unknown spelling is refused whatever record is presented; and no gateway operation
    actuates. *)
Lemma rescue_needs_consumption `{Normalization} p who at_ ttl a ks :
  approve REQUESTED p who at_ ttl = Ok a →
  let kind := PyStr "escalate-rescue" in
  (authorize kind (Some (state (attempts a ks))) = Ok ESCALATE_RESCUE ↔
     ∃ c now, (c, now) ∈ consumptions a ks) ∧
  (∀ approval, approval ≠ Some EXECUTED →
     authorize kind approval = Err {| refusal := APPROVAL_REQUIRED; value := kind |}) ∧
  (∀ text approval, (∀ c, text ≠ PyStr (command_value c)) →
     authorize text approval = Err {| refusal := UNKNOWN_COMMAND_TYPE; value := text |}) ∧
  (∀ text o, operation text = Ok o → actuates o = Some false).
Proof.
  intros (_&_&d&_&->)%approve_Ok kind.
  match goal with |- context [consumptions ?r ks] => pose proof (consumptions_once r ks eq_refl) as Hk end.
  split; [|split; [|split]].
  - rewrite authorize_Ok. destruct Hk as [[-> Hs]|(c&now&->&->&_)].
    + split; [|by intros (?&?&?%elem_of_nil)]. intros [_ Hc]. specialize (Hc eq_refl). congruence.
    + split; [intros _; exists c, now; by apply list_elem_of_singleton | done].
  - intros approval Ha. unfold authorize. cbn. by rewrite (bool_decide_false _ Ha).
  - intros text approval Hn. unfold authorize, command_type.
    destruct (by_value BY_KIND text) as [c|] eqn:Hc; [|done].
    exfalso. apply (Hn c), command_type_Ok. unfold command_type. by rewrite Hc.
  - by intros text [].
Qed.

Lemma rescue_needs_consumption_witness :
  ∃ a, authorize (PyStr "escalate-rescue")
         (Some (state (attempts (H := ascii_normalization) a sample_calls))) = Ok ESCALATE_RESCUE.
Proof.
  eexists. apply (rescue_needs_consumption (H := ascii_normalization) sample_action "operator-1"
                    (sample_clock 1000 0) 60 _ sample_calls).
  - vm_compute; reflexivity.
  - exists sample_action, (sample_clock 1005 5). vm_compute. apply list_elem_of_here.
Defined.
