(* ===== verification/Principals.v ===== *)
(** * Broker authorization

    [packages/domain/src/aerial_rescue_domain/principals.py]: nine roles and the topic
    families each may publish and subscribe to.  The theorem gives the separation the tables
    enforce: a single role commands drones, no role hears what it says, and every family that
    is published is heard, apart from the replies that travel on the reply channel. *)

From S2P Require Import Prelude PyStr PyVal Lifecycle Topics.
Local Open Scope string_scope.

Inductive Principal : Set :=
| FLEET_SIMULATOR | COMMAND_GATEWAY | DASHBOARD_API | EVIDENCE_SERVICE | RECORDER
| EVENT_MESH_GATEWAY | EVENT_MESH_TOOL | AGENT_MESH_AGENT | DISCOVERY.

Inductive Access : Set := PUBLISH | SUBSCRIBE.
Inductive PrincipalRefusal : Set := UNKNOWN_PRINCIPAL | DENIED.

#[export] Instance Principal_eq_dec : EqDecision Principal.
Proof. solve_decision. Defined.
#[export] Instance Access_eq_dec : EqDecision Access.
Proof. solve_decision. Defined.

Definition PRINCIPALS : list Principal :=
  [FLEET_SIMULATOR; COMMAND_GATEWAY; DASHBOARD_API; EVIDENCE_SERVICE; RECORDER;
   EVENT_MESH_GATEWAY; EVENT_MESH_TOOL; AGENT_MESH_AGENT; DISCOVERY].

#[export] Program Instance Principal_finite : Finite Principal := {| enum := PRINCIPALS |}.
Solve All Obligations with (unfold PRINCIPALS, FAMILIES; solve_finite).
#[export] Program Instance Access_finite : Finite Access := {| enum := [PUBLISH; SUBSCRIBE] |}.
Solve All Obligations with (unfold PRINCIPALS, FAMILIES; solve_finite).
#[export] Program Instance Family_finite : Finite Family := {| enum := FAMILIES |}.
Solve All Obligations with (unfold PRINCIPALS, FAMILIES; solve_finite).

Definition principal_value (p : Principal) : string :=
  match p with
  | FLEET_SIMULATOR => "fleet-simulator" | COMMAND_GATEWAY => "command-gateway"
  | DASHBOARD_API => "dashboard-api" | EVIDENCE_SERVICE => "evidence-service"
  | RECORDER => "recorder" | EVENT_MESH_GATEWAY => "event-mesh-gateway"
  | EVENT_MESH_TOOL => "event-mesh-tool" | AGENT_MESH_AGENT => "agent-mesh-agent"
  | DISCOVERY => "discovery"
  end.

Definition access_value (a : Access) : string :=
  match a with PUBLISH => "publish" | SUBSCRIBE => "subscribe" end.

Inductive principal_evidence : Set :=
| Presented (v : pyval)
| Combination (role access family : string).

Record PrincipalError : Set := { refusal : PrincipalRefusal; value : principal_evidence }.

(** [_PUBLISH]: total over the roles, a frozenset as the list of its members. *)
Definition PUBLISH_GRANTS (p : Principal) : list Family :=
  match p with
  | FLEET_SIMULATOR => [DRONE_TELEMETRY; DRONE_EVENT; DRONE_COMMAND_RESULT; SECTOR_EVENT]
  | COMMAND_GATEWAY => [DRONE_COMMAND; GATEWAY_RESPONSE; GATEWAY_RECORD; AGENT_PROPOSAL; AUDIT]
  | DASHBOARD_API => [OPERATOR_COMMAND; OPERATOR_APPROVAL; MISSION_EVENT]
  | EVIDENCE_SERVICE => [EVIDENCE_DECISION; AUDIT]
  | RECORDER => []
  | EVENT_MESH_GATEWAY => [AGENT_RESPONSE]
  | EVENT_MESH_TOOL => [GATEWAY_REQUEST]
  | AGENT_MESH_AGENT => []
  | DISCOVERY => []
  end.

(** [_SUBSCRIBE] *)
Definition SUBSCRIBE_GRANTS (p : Principal) : list Family :=
  match p with
  | FLEET_SIMULATOR => [DRONE_COMMAND]
  | COMMAND_GATEWAY =>
      [OPERATOR_COMMAND; OPERATOR_APPROVAL; GATEWAY_REQUEST; AGENT_RESPONSE; DRONE_COMMAND_RESULT]
  | DASHBOARD_API =>
      [DRONE_TELEMETRY; DRONE_EVENT; DRONE_COMMAND; DRONE_COMMAND_RESULT; GATEWAY_RECORD;
       AGENT_PROPOSAL; AGENT_RESPONSE; EVIDENCE_DECISION; AUDIT]
  | EVIDENCE_SERVICE => [DRONE_EVENT; AGENT_PROPOSAL]
  | RECORDER => filter (λ f, f ∉ [GATEWAY_REQUEST; GATEWAY_RESPONSE]) FAMILIES
  | EVENT_MESH_GATEWAY => [DRONE_EVENT]
  | EVENT_MESH_TOOL => []
  | AGENT_MESH_AGENT => []
  | DISCOVERY => []
  end.

Definition GRANTS (a : Access) : Principal → list Family :=
  match a with PUBLISH => PUBLISH_GRANTS | SUBSCRIBE => SUBSCRIBE_GRANTS end.

Definition A2A : list Principal := [AGENT_MESH_AGENT; EVENT_MESH_GATEWAY; EVENT_MESH_TOOL].
Definition REPLY_CHANNEL : list Principal := [EVENT_MESH_TOOL].

Definition BY_NAME : list (string * Principal) := (λ p, (principal_value p, p)) <$> PRINCIPALS.

Definition principal (text : pyval) : result PrincipalError Principal :=
  or_raise (by_value BY_NAME text) {| refusal := UNKNOWN_PRINCIPAL; value := Presented text |}.

Definition grants (role : Principal) (access : Access) : list Family := GRANTS access role.

Definition may_use (role : Principal) (access : Access) (family : Family) : bool :=
  bool_decide (family ∈ grants role access).

Definition may_use_a2a (role : Principal) : bool := bool_decide (role ∈ A2A).

Definition may_use_reply_channel (role : Principal) : bool := bool_decide (role ∈ REPLY_CHANNEL).

Definition authorize (role : Principal) (access : Access) (family : Family)
    : result PrincipalError Family :=
  raise_if (negb (may_use role access family))
    {| refusal := DENIED;
       value := Combination (principal_value role) (access_value access) (template family) |} ;;
  Ok family.

Lemma role_authorize_Ok role access f g : authorize role access f = Ok g ↔ g = f ∧ may_use role access f = true.
Proof. unfold authorize. destruct (may_use _ _ _); cbn; naive_solver. Qed.

Lemma principal_Ok text p : principal text = Ok p ↔ text = PyStr (principal_value p).
Proof.
  unfold principal. rewrite or_raise_Ok, by_value_Some. split.
  - intros (s&->&Hs%dict_get_elem). f_equal. unfold BY_NAME in Hs.
    by apply list_elem_of_fmap in Hs as (?&[= -> ->]&_).
  - intros ->. by exists (principal_value p); destruct p.
Qed.

(** Check a closed statement over the roles and families by evaluation. *)
Ltac by_tables := refine (bool_decide_unpack _ _); vm_compute; exact I.

(** The broker tables separate the roles.  Only the command gateway may publish a drone
    command and only the operator dashboard an operator decision; agents and observers
    publish nothing on application topics; no role subscribes to a family it publishes; every
    published family but the gateway responses, which the tool reads on its reply channel, has
    a subscriber other than the recorder, or is a lifecycle event kept for the record; and
    every combination outside the tables is refused with its own names. *)
Lemma broker_separation :
  (∀ role, is_ok (authorize role PUBLISH DRONE_COMMAND) = true ↔ role = COMMAND_GATEWAY) ∧
  (∀ role f, f ∈ [OPERATOR_COMMAND; OPERATOR_APPROVAL] →
     is_ok (authorize role PUBLISH f) = true ↔ role = DASHBOARD_API) ∧
  (∀ role f, role ∈ [RECORDER; DISCOVERY; AGENT_MESH_AGENT] → may_use role PUBLISH f = false) ∧
  (∀ role f, may_use role PUBLISH f = true → may_use role SUBSCRIBE f = false) ∧
  (∀ f, f ∉ [GATEWAY_RESPONSE; MISSION_EVENT; SECTOR_EVENT] →
     ∃ speaker listener, listener ≠ RECORDER ∧
       may_use speaker PUBLISH f = true ∧ may_use listener SUBSCRIBE f = true) ∧
  (∀ role, may_use_reply_channel role = true → may_use_a2a role = true ∧ grants role SUBSCRIBE = []) ∧
  (∀ role access f, may_use role access f = false →
     authorize role access f =
       Err {| refusal := DENIED;
              value := Combination (principal_value role) (access_value access) (template f) |}).
Proof.
  split; [|split; [|split; [|split; [|split; [|split]]]]].
  - by_tables.
  - intros role f Hf. rewrite !elem_of_cons, elem_of_nil in Hf.
    destruct Hf as [->|[->|[]]]; revert role; by_tables.
  - intros role f Hr. rewrite !elem_of_cons, elem_of_nil in Hr.
    destruct Hr as [->|[->|[->|[]]]]; revert f; by_tables.
  - by_tables.
  - by_tables.
  - by_tables.
  - intros role access f Hm. unfold authorize. by rewrite Hm.
Qed.
