(* ===== verification/Subscriptions.v ===== *)
(** * Subscription patterns

    [packages/broker/src/aerial_rescue_broker/subscriptions.py]: the wildcard strings that are
    both a consumer's subscription and its role's topic exception.  How a pattern covers a
    topic is the broker's documented rule, which [SubscriptionMatching] states level by level;
    the theorem says each pattern reaches exactly the application topics it is named for. *)

From S2P Require Import Prelude PyStr Regex PyVal Topics.
Local Open Scope string_scope.

Definition LEVEL_SEPARATOR : string := "/".
Definition SINGLE_LEVEL_WILDCARD : string := "*".
Definition MULTI_LEVEL_WILDCARD : string := ">".
Definition CONNECTIVITY_EVENT_TYPE : string := "connectivity-changed".
Definition SALIENT_EVENT_TYPE : string := "salient".

Inductive SubscriptionRefusal : Set :=
| UNSUPPORTED_TYPE | WILDCARD | EMPTY_LEVEL | NAMESPACE_COLLISION | LENGTH.

Record SubscriptionError : Set := { refusal : SubscriptionRefusal; value : pyval }.

(** [text.encode()] refuses a lone surrogate before its length is known. *)
Inductive subscription_failure : Set :=
| Refused (e : SubscriptionError)
| UnicodeEncodeError.

Definition refuse {A} (r : SubscriptionRefusal) (v : pyval) : result subscription_failure A :=
  Err (Refused {| refusal := r; value := v |}).

Fixpoint ends_with_brace (s : string) : bool :=
  match s with "" => false | String c "" => bool_decide (c = "}"%char) | String _ s => ends_with_brace s end.

Definition wildcarded (level : string) : string :=
  if starts_with "{" level && ends_with_brace level then SINGLE_LEVEL_WILDCARD else level.

Definition subscription_for (f : Family) : string :=
  let mission_level :=
    if bool_decide (f = GATEWAY_RESPONSE) then RESERVED_REPLY_MISSION else SINGLE_LEVEL_WILDCARD in
  join LEVEL_SEPARATOR (namespace_prefix :: mission_level :: (wildcarded <$> levels f)).

(** The drone-event pattern with its event type fixed. *)
Definition event_subscription (event_type : string) : string :=
  join LEVEL_SEPARATOR
    (namespace_prefix :: SINGLE_LEVEL_WILDCARD ::
       ((λ level, if bool_decide (level = "{eventType}") then event_type else wildcarded level)
          <$> levels DRONE_EVENT)).

Definition connectivity_subscription : string := event_subscription CONNECTIVITY_EVENT_TYPE.
Definition salient_subscription : string := event_subscription SALIENT_EVENT_TYPE.

Definition drone_command_subscription (drone_id : string) : result topic_failure string :=
  ls ← map_ok (λ level, if bool_decide (level = "{" ++ DRONE_PARAMETER ++ "}")
                        then validated_level DRONE_PARAMETER drone_id
                        else Ok (wildcarded level)) (levels DRONE_COMMAND);
  Ok (join LEVEL_SEPARATOR (namespace_prefix :: SINGLE_LEVEL_WILDCARD :: ls)).

Definition reply_subscription : string :=
  join LEVEL_SEPARATOR
    (namespace_prefix :: RESERVED_REPLY_MISSION ::
       (removelast (levels GATEWAY_RESPONSE) ++ [MULTI_LEVEL_WILDCARD]))%list.

Definition a2a_subscription (namespace : pyval) : result subscription_failure string :=
  match namespace with
  | PyStr ns =>
      if existsb (λ c, has_char c ns) WILDCARD_CHARACTERS then refuse WILDCARD namespace
      else
        let ls := split_on "/" ns in
        if negb (forallb (λ l, negb (bool_decide (l = ""))) ls) then refuse EMPTY_LEVEL namespace
        else if bool_decide (default "" (head ls) = TOPIC_NAMESPACE_ROOT)
        then refuse NAMESPACE_COLLISION namespace
        else
          let text := join LEVEL_SEPARATOR [ns; MULTI_LEVEL_WILDCARD] in
          encoded ← or_raise (encode_utf8 text) UnicodeEncodeError;
          if (MAX_TOPIC_BYTES <? String.length encoded)%nat then refuse LENGTH namespace else Ok text
  | v => refuse UNSUPPORTED_TYPE v
  end.

(** ** How the broker matches *)

(** A whole-level [*] covers one level, a last [>] one or more, any other level itself. *)
Fixpoint levels_cover (pattern topic : list string) : bool :=
  match pattern, topic with
  | [], [] => true
  | [p], _ :: _ :: _ => bool_decide (p = MULTI_LEVEL_WILDCARD)
  | [p], [l] => bool_decide (p = MULTI_LEVEL_WILDCARD) || bool_decide (p = SINGLE_LEVEL_WILDCARD) || bool_decide (p = l)
  | p :: ps, l :: ls => (bool_decide (p = SINGLE_LEVEL_WILDCARD) || bool_decide (p = l)) && levels_cover ps ls
  | _, _ => false
  end.

Definition has_wildcard (s : string) : bool := existsb (λ c, has_char c s) WILDCARD_CHARACTERS.

(** A level of a pattern that holds a wildcard is nothing else. *)
Definition whole_wildcard (l : string) : bool :=
  bool_decide (l = SINGLE_LEVEL_WILDCARD) || bool_decide (l = MULTI_LEVEL_WILDCARD) || negb (has_wildcard l).

(** The broker's rule, on patterns of whole-level wildcards and topics without wildcards. *)
Class SubscriptionMatching := {
  covers : string → string → bool;
  covers_levels : ∀ pattern topic,
    forallb whole_wildcard (split_on "/" pattern) = true →
    has_wildcard topic = false → forallb (λ l, negb (bool_decide (l = ""))) (split_on "/" topic) = true →
    covers pattern topic = levels_cover (split_on "/" pattern) (split_on "/" topic)
}.

Definition level_matching : SubscriptionMatching :=
  {| covers p t := levels_cover (split_on "/" p) (split_on "/" t); covers_levels _ _ _ _ _ := eq_refl |}.

(** ** Patterns level by level *)

Definition mission_pattern (f : Family) : string :=
  if bool_decide (f = GATEWAY_RESPONSE) then RESERVED_REPLY_MISSION else SINGLE_LEVEL_WILDCARD.

(** A template level as a pattern level, where a placeholder is whole. *)
Definition open_level (l : string) : string := if is_placeholder l then SINGLE_LEVEL_WILDCARD else l.

Lemma subscription_levels f :
  split_on "/" (subscription_for f) =
    "aerial-rescue" :: "v1" :: mission_pattern f :: (open_level <$> levels f).
Proof. destruct f; by vm_compute. Qed.

Lemma subscription_whole f : forallb whole_wildcard (split_on "/" (subscription_for f)) = true.
Proof. destruct f; by vm_compute. Qed.

(** The literal levels of the templates are not wildcards. *)
Lemma levels_literal f :
  Forall (λ l, is_placeholder l = true ∨ (l ≠ SINGLE_LEVEL_WILDCARD ∧ l ≠ MULTI_LEVEL_WILDCARD)) (levels f).
Proof. destruct f; by apply (bool_decide_unpack _). Qed.

Lemma levels_cover_cons p ps l ls :
  p ≠ MULTI_LEVEL_WILDCARD →
  levels_cover (p :: ps) (l :: ls) =
    (bool_decide (p = SINGLE_LEVEL_WILDCARD) || bool_decide (p = l)) && levels_cover ps ls.
Proof.
  intros Hp. destruct ps as [|q ps]; [|done]. destruct ls as [|m ls]; cbn [levels_cover].
  - rewrite (bool_decide_false _ Hp). by rewrite andb_true_r.
  - rewrite (bool_decide_false _ Hp). by rewrite andb_false_r.
Qed.

Lemma open_level_cover e l ps ls :
  is_placeholder e = true ∨ (e ≠ SINGLE_LEVEL_WILDCARD ∧ e ≠ MULTI_LEVEL_WILDCARD) →
  levels_cover (open_level e :: ps) (l :: ls) = level_matches e l && levels_cover ps ls.
Proof.
  unfold open_level, level_matches. intros He. destruct (is_placeholder e) eqn:Hp; cbn [orb].
  - by rewrite levels_cover_cons.
  - destruct He as [?|[H1 H2]]; [done|]. rewrite levels_cover_cons by done. by rewrite (bool_decide_false _ H1).
Qed.

Lemma levels_cover_template tpl ls :
  Forall (λ l, is_placeholder l = true ∨ (l ≠ SINGLE_LEVEL_WILDCARD ∧ l ≠ MULTI_LEVEL_WILDCARD)) tpl →
  levels_cover (open_level <$> tpl) ls = matches_template tpl ls.
Proof.
  unfold matches_template. intros Ht. revert ls. induction Ht as [|e tpl He _ IH]; intros [|l ls].
  - done.
  - done.
  - cbn. by destruct (open_level <$> tpl).
  - cbn [fmap list_fmap]. rewrite open_level_cover by done. unfold fmap in IH. rewrite IH.
    cbn [length zip zip_with forallb fst snd Nat.eqb].
    destruct (level_matches e l), (length tpl =? length ls)%nat; done.
Qed.

(** Two templates that fit one topic's levels are one family's. *)
Lemma template_family f g ls :
  matches_template (levels f) ls = true → matches_template (levels g) ls = true → f = g.
Proof.
  intros Hf%(first_family_spec _ _ _ levels_distinct) Hg%(first_family_spec _ _ _ levels_distinct). congruence.
Qed.

Lemma level_chars_wildcards l : str_all level_char l = true → has_wildcard l = false.
Proof.
  intros Hl. unfold has_wildcard, WILDCARD_CHARACTERS. cbn [existsb].
  by rewrite !level_chars_no.
Qed.

(** *** Patterns with one placeholder fixed *)

Definition pinned (hole v l : string) : string := if bool_decide (l = hole) then v else open_level l.

(** The fixed placeholder's level holds the value. *)
Definition holds_value (hole v : string) (p : string * string) : bool :=
  negb (bool_decide (p.1 = hole)) || bool_decide (v = p.2).

Lemma pinned_cover hole v tpl ls :
  is_placeholder hole = true → v ≠ SINGLE_LEVEL_WILDCARD → v ≠ MULTI_LEVEL_WILDCARD →
  Forall (λ l, is_placeholder l = true ∨ (l ≠ SINGLE_LEVEL_WILDCARD ∧ l ≠ MULTI_LEVEL_WILDCARD)) tpl →
  levels_cover (pinned hole v <$> tpl) ls =
    matches_template tpl ls && forallb (holds_value hole v) (zip tpl ls).
Proof.
  unfold matches_template. intros Hh H1 H2 Ht. revert ls. induction Ht as [|e tpl He _ IH]; intros [|l ls].
  - done.
  - done.
  - cbn. by destruct (pinned hole v <$> tpl).
  - cbn [fmap list_fmap]. unfold fmap in IH.
    cbn [length zip zip_with forallb fst snd Nat.eqb]. unfold pinned at 1, holds_value at 1. cbn [fst snd].
    destruct (decide (e = hole)) as [->|Hne].
    + rewrite (bool_decide_true (hole = hole)) by done. rewrite levels_cover_cons, IH by done.
      rewrite (bool_decide_false _ H1). unfold level_matches. rewrite Hh. cbn [orb negb].
      destruct (bool_decide (v = l)), (length tpl =? length ls)%nat; cbn [andb]; try done. by rewrite andb_false_r.
    + rewrite (bool_decide_false _ Hne). rewrite open_level_cover, IH by done. cbn [orb negb andb].
      destruct (level_matches e l), (length tpl =? length ls)%nat; done.
Qed.

Lemma pattern_split (ls : list string) :
  Forall (λ l, has_char "/" l = false) ls →
  split_on "/" (join "/" (namespace_prefix :: "*" :: ls)) = "aerial-rescue" :: "v1" :: "*" :: ls.
Proof. intros Hl. rewrite join_prefix. apply split_join; [done|]. by repeat constructor. Qed.

Lemma zip_hole (hole : string) (tpl ls : list string) :
  length tpl = length ls → hole ∈ tpl → ∃ l, (hole, l) ∈ zip tpl ls.
Proof.
  revert ls; induction tpl as [|e tpl IH]; intros [|l ls] Hl Hin; try done.
  - by apply elem_of_nil in Hin.
  - injection Hl as Hl. apply elem_of_cons in Hin as [->|Hin]; [exists l; left|].
    destruct (IH ls Hl Hin) as [x Hx]. exists x. by right.
Qed.

Section covering.
Context `{SubscriptionMatching} (t : Topic) (text : string).
Hypothesis Hbuilt : format_topic t = Ok text.

Lemma built_covers pattern :
  forallb whole_wildcard (split_on "/" pattern) = true →
  covers pattern text = levels_cover (split_on "/" pattern) (split_on "/" text).
Proof.
  intros Hp. apply covers_levels; [done| |].
  - pose proof (built_chars _ _ Hbuilt) as Hc. unfold has_wildcard, WILDCARD_CHARACTERS. cbn [existsb].
    by rewrite !(str_all_has_char (λ c, level_char c || bool_decide (c = "/"%char))).
  - destruct (built_split _ _ Hbuilt) as (rest&Hr&Hm&->&_). apply forallb_Forall. repeat constructor.
    + apply negb_true_iff, bool_decide_eq_false. apply conforms_length in Hm. intros He. rewrite He in Hm. cbn in Hm. lia.
    + eapply Forall_impl; [eapply filled_nonempty, Hr; apply levels_nonempty|].
      intros l Hl. cbv beta. by rewrite (bool_decide_false _ Hl).
Qed.

Lemma subscription_covers f :
  covers (subscription_for f) text = true ↔
  family t = f ∧ (f = GATEWAY_RESPONSE → mission_id t = RESERVED_REPLY_MISSION).
Proof.
  rewrite built_covers by apply subscription_whole. rewrite subscription_levels.
  destruct (built_split _ _ Hbuilt) as (rest&Hr&Hm&->&_). apply fill_bind in Hr as (Hr&_&_).
  rewrite !levels_cover_cons by (unfold mission_pattern; try case_bool_decide; done).
  rewrite levels_cover_template by apply levels_literal.
  cbn [andb orb bool_decide]. rewrite !andb_true_iff. unfold mission_pattern.
  split.
  - intros (_&_&Hmis&Hf). rewrite (template_family _ _ _ Hr Hf). split; [done|]. intros ->.
    rewrite (bool_decide_true (GATEWAY_RESPONSE = GATEWAY_RESPONSE)) in Hmis by done.
    apply orb_true_iff in Hmis as [Hmis|Hmis]; [discriminate Hmis | by bools].
  - intros [<- Hmis]. split; [done|]. split; [done|]. split; [|done].
    destruct (decide (family t = GATEWAY_RESPONSE)) as [He|He].
    + rewrite (bool_decide_true (family t = GATEWAY_RESPONSE)) by done. rewrite Hmis by done. done.
    + by rewrite (bool_decide_false _ He).
Qed.

(** The levels of a built topic after its mission. *)
Lemma built_rest : ∃ rest,
  split_on "/" text = "aerial-rescue" :: "v1" :: mission_id t :: rest ∧
  matches_template (levels (family t)) rest = true ∧
  Forall (λ p, dict_get (parameters t) (placeholder p.1) = Some p.2)
         (filter (λ p, is_placeholder p.1 = true) (zip (levels (family t)) rest)).
Proof.
  destruct (built_split _ _ Hbuilt) as (rest&Hr&_&Hs&_). exists rest. split; [done|].
  apply fill_bind in Hr as (Hr&Hb&_). split; [done|]. unfold Topics.bound in Hb. rewrite Forall_fmap in Hb.
  eapply Forall_impl; [exact Hb|]. intros p. by intros [].
Qed.

(** A family's pattern with one placeholder fixed covers the family's topics with that value. *)
Lemma pinned_covers f hole v :
  is_placeholder hole = true → hole ∈ levels f → has_char "/" v = false → has_wildcard v = false →
  forallb whole_wildcard (pinned hole v <$> levels f) = true →
  Forall (λ l, has_char "/" l = false) (pinned hole v <$> levels f) →
  covers (join "/" (namespace_prefix :: "*" :: (pinned hole v <$> levels f))) text = true ↔
  family t = f ∧ dict_get (parameters t) (placeholder hole) = Some v.
Proof.
  intros Hh Hin Hv Hw Hwhole Hsep. rewrite built_covers, !pattern_split by (done || by rewrite pattern_split).
  destruct built_rest as (rest&->&Hr&Hp).
  rewrite !levels_cover_cons by done. cbn [andb orb].
  change (bool_decide ("*" = SINGLE_LEVEL_WILDCARD)) with true. cbn [andb orb].
  rewrite pinned_cover; [|done|by intros ->|by intros ->|apply levels_literal].
  change (bool_decide ("aerial-rescue" = SINGLE_LEVEL_WILDCARD) || bool_decide ("aerial-rescue" = "aerial-rescue")) with true.
  change (bool_decide ("v1" = SINGLE_LEVEL_WILDCARD) || bool_decide ("v1" = "v1")) with true. cbn [andb].
  rewrite andb_true_iff, forallb_Forall, Forall_forall.
  assert (Hget : ∀ l, (hole, l) ∈ zip (levels (family t)) rest → dict_get (parameters t) (placeholder hole) = Some l).
  { intros l Hl. rewrite Forall_forall in Hp. apply (Hp (hole, l)). by apply list_elem_of_filter. }
  split.
  - intros [Hf Hall]. pose proof (template_family _ _ _ Hr Hf) as Heq. split; [done|]. subst f.
    destruct (zip_hole hole (levels (family t)) rest) as [l Hl]; [|done|].
    + unfold matches_template in Hr. apply andb_true_iff in Hr as [Hr _]. by apply Nat.eqb_eq.
    + specialize (Hall _ Hl). unfold holds_value in Hall. cbn [fst snd] in Hall.
      rewrite (bool_decide_true (hole = hole)) in Hall by done. cbn in Hall. bools. subst v. by apply Hget.
  - intros [<- Hd]. split; [done|]. intros [e l] Hl. unfold holds_value. cbn [fst snd].
    destruct (decide (e = hole)) as [->|Hne]; [|by rewrite (bool_decide_false _ Hne)].
    rewrite (Hget l Hl) in Hd. injection Hd as ->. rewrite !bool_decide_true by done. done.
Qed.

Lemma reply_covers :
  covers reply_subscription text = true ↔ family t = GATEWAY_RESPONSE ∧ mission_id t = RESERVED_REPLY_MISSION.
Proof.
  rewrite built_covers by by vm_compute.
  change (split_on "/" reply_subscription) with (split_on "/" "aerial-rescue/v1/reply/gateway/response/>").
  destruct built_rest as (rest&->&Hr&_).
  change (split_on "/" "aerial-rescue/v1/reply/gateway/response/>") with
    ["aerial-rescue"; "v1"; "reply"; "gateway"; "response"; ">"].
  rewrite !levels_cover_cons by done.
  change (bool_decide ("aerial-rescue" = SINGLE_LEVEL_WILDCARD) || bool_decide ("aerial-rescue" = "aerial-rescue")) with true.
  change (bool_decide ("v1" = SINGLE_LEVEL_WILDCARD) || bool_decide ("v1" = "v1")) with true. cbn [andb].
  change (bool_decide ("reply" = SINGLE_LEVEL_WILDCARD)) with false. cbn [orb].
  rewrite andb_true_iff, bool_decide_eq_true. split.
  - intros [Hm Hc]. split; [|done].
    destruct rest as [|x1 [|x2 rest]]; [done| |].
    { rewrite levels_cover_cons in Hc by done. apply andb_true_iff in Hc as [_ Hc]. discriminate Hc. }
    rewrite !levels_cover_cons in Hc by done. apply andb_true_iff in Hc as [H1 Hc]. apply andb_true_iff in Hc as [H2 _].
    change (bool_decide ("gateway" = SINGLE_LEVEL_WILDCARD)) with false in H1.
    change (bool_decide ("response" = SINGLE_LEVEL_WILDCARD)) with false in H2. cbn [orb] in *. bools. subst.
    destruct (family t); try done; destruct rest as [|? [|? [|? ?]]]; done.
  - intros [Hf Hm]. rewrite Hf in Hr. split; [done|].
    change (levels GATEWAY_RESPONSE) with ["gateway"; "response"; "{requestorId}"] in Hr.
    unfold matches_template in Hr. apply andb_true_iff in Hr as [Hl Hr].
    destruct rest as [|x1 [|x2 [|x3 [|x4 rest]]]]; try discriminate Hl.
    cbn [zip zip_with forallb fst snd] in Hr. unfold level_matches in Hr.
    apply andb_true_iff in Hr as [H1 Hr]. apply andb_true_iff in Hr as [H2 _].
    change (is_placeholder "gateway") with false in H1. change (is_placeholder "response") with false in H2.
    cbn [orb] in *. bools. subst. by rewrite (levels_cover_cons "gateway"), (levels_cover_cons "response") by done.
Qed.

Lemma event_covers e :
  e ∈ [CONNECTIVITY_EVENT_TYPE; SALIENT_EVENT_TYPE] →
  covers (event_subscription e) text = true ↔
  family t = DRONE_EVENT ∧ dict_get (parameters t) "eventType" = Some e.
Proof.
  intros He. rewrite !elem_of_cons, elem_of_nil in He.
  assert (event_subscription e = join "/" (namespace_prefix :: "*" :: (pinned "{eventType}" e <$> levels DRONE_EVENT)))
    as -> by (destruct He as [->|[->|[]]]; by vm_compute).
  apply (pinned_covers DRONE_EVENT "{eventType}" e); try done.
  - by apply (bool_decide_unpack _).
  - by destruct He as [->|[->|[]]].
  - by destruct He as [->|[->|[]]].
  - by destruct He as [->|[->|[]]].
  - by destruct He as [->|[->|[]]]; apply (bool_decide_unpack _).
Qed.

Lemma drone_command_covers d pattern :
  drone_command_subscription d = Ok pattern →
  covers pattern text = true ↔ family t = DRONE_COMMAND ∧ dict_get (parameters t) DRONE_PARAMETER = Some d.
Proof.
  unfold drone_command_subscription. change (levels DRONE_COMMAND) with ["drone"; "{droneId}"; "command"; "{commandType}"].
  cbn [map_ok]. change (bool_decide ("drone" = "{" ++ DRONE_PARAMETER ++ "}")) with false.
  change (bool_decide ("{droneId}" = "{" ++ DRONE_PARAMETER ++ "}")) with true.
  change (bool_decide ("command" = "{" ++ DRONE_PARAMETER ++ "}")) with false.
  change (bool_decide ("{commandType}" = "{" ++ DRONE_PARAMETER ++ "}")) with false.
  cbv iota. intros Hp. run_ok. subst. match goal with H : validated_level _ _ = _ |- _ => apply validated_level_Ok in H as [-> Hc] end.
  pose proof (conforms_chars _ _ Hc) as Hl. pose proof (level_chars_wildcards _ Hl) as Hw.
  apply (pinned_covers DRONE_COMMAND "{droneId}" d); try done.
  - by apply (bool_decide_unpack _).
  - by apply level_chars_no.
  - change (pinned "{droneId}" d <$> levels DRONE_COMMAND) with ["drone"; d; "command"; "*"].
    cbn [forallb]. unfold whole_wildcard at 2. by rewrite Hw, orb_true_r.
  - change (pinned "{droneId}" d <$> levels DRONE_COMMAND) with ["drone"; d; "command"; "*"].
    repeat constructor; try done. by apply level_chars_no.
Qed.

(** No application topic lies under an accepted A2A namespace. *)
Lemma a2a_covers ns pattern : a2a_subscription ns = Ok pattern → covers pattern text = false.
Proof.
  destruct ns as [| | |ns| | |]; try done. cbn [a2a_subscription].
  destruct (existsb _ _) eqn:Hwild; [done|]. destruct (forallb _ _) eqn:Hempty; [|done]. cbn [negb].
  case_bool_decide as Hroot; [done|]. intros (enc&_&Hp)%bind_Ok. destruct (_ <? _)%nat; [done|]. injection Hp as <-.
  assert (Hns : ∀ c l, c ∈ WILDCARD_CHARACTERS → l ∈ split_on "/" ns → has_char c l = false).
  { intros c l Hc Hl. eapply split_has_char; [exact Hl|]. cbn [existsb WILDCARD_CHARACTERS] in Hwild.
    repeat match goal with H : _ || _ = false |- _ => apply orb_false_iff in H as [? H] end.
    unfold WILDCARD_CHARACTERS in Hc. rewrite !elem_of_cons, elem_of_nil in Hc. by destruct Hc as [->|[->|[]]]. }
  pose proof (split_on_snoc "/" ns MULTI_LEVEL_WILDCARD eq_refl) as Hsplit.
  destruct built_rest as (rest&Hs&_&_). change (join LEVEL_SEPARATOR [ns; MULTI_LEVEL_WILDCARD]) with (join "/" [ns; ">"]).
  rewrite built_covers, ?Hsplit, ?Hs.
  - pose proof (split_on_nonempty "/" ns) as Hne.
    destruct (split_on "/" ns) as [|l ls] eqn:Hls; [done|]. cbn [head default] in Hroot.
    cbn [app].
    assert (l ∈ l :: ls) as Hl by left.
    rewrite levels_cover_cons by (intros ->; by specialize (Hns ">"%char _ ltac:(right; left) Hl)).
    rewrite (bool_decide_false (l = "aerial-rescue")) by done. rewrite orb_false_r.
    rewrite bool_decide_false; [done|]. intros ->. by specialize (Hns "*"%char _ ltac:(left) Hl).
  - rewrite Hsplit, forallb_app. apply andb_true_iff. split; [|done].
    apply forallb_Forall, Forall_forall. intros l Hl. unfold whole_wildcard.
    assert (has_wildcard l = false) as ->; [|by rewrite orb_true_r].
    unfold has_wildcard. cbn [existsb WILDCARD_CHARACTERS].
    rewrite (Hns "*"%char l), (Hns ">"%char l); try done; [right; left | left].
Qed.
End covering.

(** A subscription, which is also its role's topic exception, reaches exactly what it is
    named for.  Among the topics the grammar can build: a family's pattern covers that family
    and no other, and for the raw gateway response only the reserved reply channel; the two
    event patterns cover their event type; a drone's pattern covers that drone's commands; the
    reply pattern covers the reply channel only; and no accepted A2A namespace covers any. *)
Lemma subscriptions_exact `{SubscriptionMatching} t text :
  format_topic t = Ok text →
  (∀ f, covers (subscription_for f) text = true ↔
     family t = f ∧ (f = GATEWAY_RESPONSE → mission_id t = RESERVED_REPLY_MISSION)) ∧
  (covers connectivity_subscription text = true ↔
     family t = DRONE_EVENT ∧ dict_get (parameters t) "eventType" = Some CONNECTIVITY_EVENT_TYPE) ∧
  (covers salient_subscription text = true ↔
     family t = DRONE_EVENT ∧ dict_get (parameters t) "eventType" = Some SALIENT_EVENT_TYPE) ∧
  (∀ d pattern, drone_command_subscription d = Ok pattern →
     covers pattern text = true ↔
     family t = DRONE_COMMAND ∧ dict_get (parameters t) DRONE_PARAMETER = Some d) ∧
  (covers reply_subscription text = true ↔
     family t = GATEWAY_RESPONSE ∧ mission_id t = RESERVED_REPLY_MISSION) ∧
  (∀ ns pattern, a2a_subscription ns = Ok pattern → covers pattern text = false).
Proof.
  intros Ht. split; [intros f; by apply subscription_covers|].
  split; [apply (event_covers t); [done | left]|].
  split; [apply (event_covers t); [done | right; left]|].
  split; [intros d p; by apply (drone_command_covers t)|]. split; [by apply (reply_covers t)|].
  intros ns p. by apply (a2a_covers t).
Qed.

Definition sample_command : Topic :=
  {| family := DRONE_COMMAND; mission_id := "mission-1";
     parameters := [("droneId", "drone-1"); ("commandType", "assign-sector")] |}.

Lemma subscriptions_exact_witness :
  covers (SubscriptionMatching := level_matching) (subscription_for DRONE_COMMAND)
    "aerial-rescue/v1/mission-1/drone/drone-1/command/assign-sector" = true.
Proof.
  apply (proj1 (subscriptions_exact (H := level_matching) sample_command
                  "aerial-rescue/v1/mission-1/drone/drone-1/command/assign-sector" ltac:(vm_compute; reflexivity))).
  split; [reflexivity | discriminate].
Defined.
