(* ===== verification/Scenario.v ===== *)
(** * The fleet scenario

    [services/fleet_simulator/src/aerial_rescue_fleet_simulator/bounds.py] and [scenario.py]:
    the committed bounds, the frozen scenario value and the refusals of its constructors, and
    the ascending roster order every fold uses. *)

From S2P Require Import Prelude PyStr Regex Topics Connectivity.
Local Open Scope string_scope.
Local Open Scope Z_scope.

(** ** Bounds *)

Record Bound : Set := { low : Z; high : Z }.

Definition holds (b : Bound) (v : Z) : bool := (low b <=? v) && (v <=? high b).

Definition LATITUDE_MICRODEGREES : Bound := {| low := -90000000; high := 90000000 |}.
Definition LONGITUDE_MICRODEGREES : Bound := {| low := -180000000; high := 180000000 |}.
Definition ALTITUDE_METRES : Bound := {| low := -500; high := 20000 |}.
Definition HEADING_DEGREES : Bound := {| low := 0; high := 359 |}.
Definition GROUND_SPEED_CENTIMETRES_PER_SECOND : Bound := {| low := 0; high := 10000 |}.
Definition PERCENT : Bound := {| low := 0; high := 100 |}.

Definition SCHEMA_DEFINITIONS : list (string * Bound) :=
  [ ("latitudeMicrodegrees", LATITUDE_MICRODEGREES);
    ("longitudeMicrodegrees", LONGITUDE_MICRODEGREES);
    ("altitudeMetres", ALTITUDE_METRES);
    ("headingDegrees", HEADING_DEGREES);
    ("groundSpeedCentimetresPerSecond", GROUND_SPEED_CENTIMETRES_PER_SECOND);
    ("percent", PERCENT) ].

Definition PERMILLE_PER_PERCENT : Z := 10.

Definition BATTERY_PERMILLE : Bound :=
  {| low := low PERCENT * PERMILLE_PER_PERCENT; high := high PERCENT * PERMILLE_PER_PERCENT |}.
Definition NORTH_MICRODEGREES_PER_TICK : Bound :=
  {| low := - high LATITUDE_MICRODEGREES; high := high LATITUDE_MICRODEGREES |}.
Definition EAST_MICRODEGREES_PER_TICK : Bound :=
  {| low := - high LONGITUDE_MICRODEGREES; high := high LONGITUDE_MICRODEGREES |}.

(** ** The scenario *)

Definition MINIMUM_COUNT : Z := 1.
Definition FIRST_TICK : Z := 0.

Inductive ScenarioRefusal : Set :=
| EMPTY_ROSTER | DUPLICATE_DRONE | DUPLICATE_SECTOR | IDENTIFIER_FORM | OUT_OF_RANGE
| NON_POSITIVE | MOTION_DISAGREEMENT | UNKNOWN_DRONE | NEGATIVE_TICK.

Inductive scenario_value : Set := Nothing | Name (s : string) | TickOrdinal (t : Z).

Record ScenarioError : Set := { refusal : ScenarioRefusal; value : scenario_value }.

Definition refuse {A} (r : ScenarioRefusal) (v : scenario_value) : result ScenarioError A :=
  Err {| refusal := r; value := v |}.

Record DroneStart : Set := {
  drone_id : string; sector_id : string;
  latitude_microdegrees : Z; longitude_microdegrees : Z;
  altitude_metres : Z; heading_degrees : Z; ground_speed_centimetres_per_second : Z;
  battery_permille : Z;
  north_microdegrees_per_tick : Z; east_microdegrees_per_tick : Z;
  battery_drain_permille_per_tick : Z
}.

#[export] Instance DroneStart_eq_dec : EqDecision DroneStart.
Proof. solve_decision. Defined.

(** The schedule keeps its mapping's order, which selects the first refusal. *)
Record FleetScenario : Set := {
  mission_id : string;
  drones : list DroneStart;
  tick_interval_milliseconds : Z;
  thresholds : ConnectivityThresholds;
  ticks_to_sweep : Z;
  absent_heartbeats : list (string * list Z)
}.

Definition displaces (d : DroneStart) : bool :=
  negb (bool_decide ((north_microdegrees_per_tick d, east_microdegrees_per_tick d) = (0, 0))).

Definition check_identifier (v member : string) : result ScenarioError unit :=
  raise_if (negb (fullmatch IDENTIFIER_PATTERN v)) {| refusal := IDENTIFIER_FORM; value := Name member |}.

Definition check_bounded (v : Z) (b : Bound) (member : string) : result ScenarioError unit :=
  raise_if (negb (holds b v)) {| refusal := OUT_OF_RANGE; value := Name member |}.

Definition check_positive (v : Z) (member : string) : result ScenarioError unit :=
  raise_if (v <? MINIMUM_COUNT) {| refusal := NON_POSITIVE; value := Name member |}.

Definition bounded_members (d : DroneStart) : list (string * Z * Bound) :=
  [ ("latitude_microdegrees", latitude_microdegrees d, LATITUDE_MICRODEGREES);
    ("longitude_microdegrees", longitude_microdegrees d, LONGITUDE_MICRODEGREES);
    ("altitude_metres", altitude_metres d, ALTITUDE_METRES);
    ("heading_degrees", heading_degrees d, HEADING_DEGREES);
    ("ground_speed_centimetres_per_second", ground_speed_centimetres_per_second d,
      GROUND_SPEED_CENTIMETRES_PER_SECOND);
    ("battery_permille", battery_permille d, BATTERY_PERMILLE);
    ("battery_drain_permille_per_tick", battery_drain_permille_per_tick d, BATTERY_PERMILLE);
    ("north_microdegrees_per_tick", north_microdegrees_per_tick d, NORTH_MICRODEGREES_PER_TICK);
    ("east_microdegrees_per_tick", east_microdegrees_per_tick d, EAST_MICRODEGREES_PER_TICK) ].

(** [_check_drone], run by [DroneStart.__post_init__] *)
Definition check_drone (d : DroneStart) : result ScenarioError unit :=
  check_identifier (drone_id d) "drone_id" ;;
  check_identifier (sector_id d) "sector_id" ;;
  fold_ok (λ _ m, check_bounded m.1.2 m.2 m.1.1) tt (bounded_members d) ;;
  raise_if (negb (Bool.eqb (displaces d) (0 <? ground_speed_centimetres_per_second d)))
    {| refusal := MOTION_DISAGREEMENT; value := Name (drone_id d) |}.

(** [_check_roster]: the two sets as the lists of their members. *)
Definition check_roster (ds : list DroneStart) : result ScenarioError (list string) :=
  raise_if (bool_decide (ds = [])) {| refusal := EMPTY_ROSTER; value := Nothing |} ;;
  sets ← fold_ok (λ (sets : list string * list string) d,
      raise_if (bool_decide (drone_id d ∈ sets.1))
        {| refusal := DUPLICATE_DRONE; value := Name (drone_id d) |} ;;
      raise_if (bool_decide (sector_id d ∈ sets.2))
        {| refusal := DUPLICATE_SECTOR; value := Name (sector_id d) |} ;;
      Ok (drone_id d :: sets.1, sector_id d :: sets.2)) ([], []) ds;
  Ok sets.1.

Definition check_schedule (schedule : list (string * list Z)) (known : list string)
    : result ScenarioError unit :=
  fold_ok (λ _ entry,
    raise_if (bool_decide (entry.1 ∉ known)) {| refusal := UNKNOWN_DRONE; value := Name entry.1 |} ;;
    fold_ok (λ _ tick, raise_if (tick <? FIRST_TICK)
                         {| refusal := NEGATIVE_TICK; value := TickOrdinal tick |})
            tt (merge_sort Z.le entry.2)) tt schedule.

(** [_check_scenario], run by [FleetScenario.__post_init__] *)
Definition check_scenario (s : FleetScenario) : result ScenarioError unit :=
  check_identifier (mission_id s) "mission_id" ;;
  known ← check_roster (drones s);
  check_positive (tick_interval_milliseconds s) "tick_interval_milliseconds" ;;
  check_positive (ticks_to_sweep s) "ticks_to_sweep" ;;
  check_schedule (absent_heartbeats s) known.

Definition drone_le (d e : DroneStart) : Prop := String.le (drone_id d) (drone_id e).

Definition ordered_drones (s : FleetScenario) : list DroneStart := merge_sort drone_le (drones s).

(** [sorted({...})]: a set has each member once. *)
Definition sectors (s : FleetScenario) : list string :=
  merge_sort String.le (remove_dups (sector_id <$> drones s)).

(** ** Accepted values *)

(** A scenario whose constructor, and whose drones' constructors, returned. *)
Definition accepted (s : FleetScenario) : Prop :=
  Forall (λ d, check_drone d = Ok tt) (drones s) ∧ check_scenario s = Ok tt.

Lemma holds_spec b v : holds b v = true ↔ low b ≤ v ≤ high b.
Proof. unfold holds. rewrite andb_true_iff, !Z.leb_le. lia. Qed.

Lemma fold_unit_Ok {E A} (f : A → result E unit) l :
  fold_ok (λ _ a, f a) tt l = Ok tt ↔ Forall (λ a, f a = Ok tt) l.
Proof.
  induction l as [|a l IH]; cbn [fold_ok]; [by split|].
  rewrite Forall_cons, <- IH. destruct (f a) as [[]|e]; cbn; [tauto|].
  split; [done | by intros []].
Qed.

Lemma fold_seen_Ok ds ids secs r :
  fold_ok (λ (sets : list string * list string) d,
      raise_if (bool_decide (drone_id d ∈ sets.1))
        {| refusal := DUPLICATE_DRONE; value := Name (drone_id d) |} ;;
      raise_if (bool_decide (sector_id d ∈ sets.2))
        {| refusal := DUPLICATE_SECTOR; value := Name (sector_id d) |} ;;
      Ok (drone_id d :: sets.1, sector_id d :: sets.2)) (ids, secs) ds = Ok r →
  NoDup ids → NoDup secs →
  r = (reverse (drone_id <$> ds) ++ ids, reverse (sector_id <$> ds) ++ secs)%list ∧
  NoDup r.1 ∧ NoDup r.2.
Proof.
  revert ids secs. induction ds as [|d ds IH]; intros ids secs Hr Hi Hs; cbn [fold_ok] in Hr.
  - injection Hr as <-. done.
  - apply bind_Ok in Hr as (sets&Hsets&Hr). run_ok. bools. subst. cbn [fst snd] in *.
    apply IH in Hr as (->&H1&H2); [|by constructor..]. split; [|done].
    cbn [fmap list_fmap]. by rewrite !reverse_cons, <- !app_assoc.
Qed.

Lemma check_roster_Ok ds known :
  check_roster ds = Ok known →
  ds ≠ [] ∧ NoDup (drone_id <$> ds) ∧ NoDup (sector_id <$> ds) ∧
  ∀ id, id ∈ known ↔ id ∈ drone_id <$> ds.
Proof.
  unfold check_roster. intros Hr. run_ok. subst.
  match goal with H : fold_ok _ _ _ = _ |- _ => apply fold_seen_Ok in H as (->&H1&H2) end;
    [|constructor..]. cbn [fst snd] in *. rewrite app_nil_r in *.
  rewrite reverse_Permutation in H1, H2. bools. repeat (split; [done|]).
  intros id. by rewrite elem_of_reverse.
Qed.

Section accepted.
Context (s : FleetScenario) (Hs : accepted s).

Lemma accepted_roster :
  drones s ≠ [] ∧ NoDup (drone_id <$> drones s) ∧ NoDup (sector_id <$> drones s).
Proof.
  destruct Hs as [_ Hc]. unfold check_scenario in Hc. run_ok.
  match goal with H : check_roster _ = _ |- _ => apply check_roster_Ok in H as (?&?&?&_) end. done.
Qed.

Lemma accepted_counts : 1 ≤ tick_interval_milliseconds s ∧ 1 ≤ ticks_to_sweep s.
Proof.
  destruct Hs as [_ Hc]. unfold check_scenario, check_positive, MINIMUM_COUNT in Hc. run_ok. bools. lia.
Qed.

Lemma accepted_schedule id ticks :
  (id, ticks) ∈ absent_heartbeats s → id ∈ drone_id <$> drones s ∧ Forall (λ t, 0 ≤ t) ticks.
Proof.
  destruct Hs as [_ Hc]. unfold check_scenario in Hc. intros Hin. run_ok.
  match goal with H : check_roster _ = _ |- _ => apply check_roster_Ok in H as (_&_&_&Hk) end.
  unfold check_schedule in *. repeat match goal with u : unit |- _ => destruct u end.
  match goal with H : fold_ok _ _ _ = _ |- _ => rewrite fold_unit_Ok, Forall_forall in H; specialize (H _ Hin) end.
  run_ok. bools. repeat match goal with u : unit |- _ => destruct u end.
  match goal with H : fold_ok _ _ _ = _ |- _ => rewrite fold_unit_Ok, merge_sort_Permutation in H; rename H into Ht end.
  split; [apply Hk; cbn in *; by apply dec_stable|].
  eapply Forall_impl; [apply Ht|]. cbn. intros t Hraise. run_ok. bools. unfold FIRST_TICK in *. lia.
Qed.

Lemma accepted_bounds d m : d ∈ drones s → m ∈ bounded_members d → low m.2 ≤ m.1.2 ≤ high m.2.
Proof.
  intros Hd Hm. destruct Hs as [Hc _]. rewrite Forall_forall in Hc. specialize (Hc d Hd).
  unfold check_drone in Hc. run_ok. repeat match goal with u : unit |- _ => destruct u end.
  match goal with H : fold_ok _ _ _ = _ |- _ => rewrite fold_unit_Ok, Forall_forall in H; specialize (H _ Hm) end.
  unfold check_bounded in *. run_ok. bools. by apply holds_spec.
Qed.
End accepted.

(** ** The roster order *)

#[export] Instance drone_le_trans : Transitive drone_le.
Proof. intros a b c. unfold drone_le. by transitivity (drone_id b). Qed.
#[export] Instance drone_le_total : Total drone_le.
Proof. intros a b. unfold drone_le. apply (total String.le). Qed.

Lemma ordered_Permutation s : ordered_drones s ≡ₚ drones s.
Proof. apply merge_sort_Permutation. Qed.

Lemma elem_of_ordered s d : d ∈ ordered_drones s ↔ d ∈ drones s.
Proof. by rewrite ordered_Permutation. Qed.

(** An identifier, or a sector, names one entry. *)
Lemma same_key {A B} (f : A → B) (l : list A) x y : NoDup (f <$> l) → x ∈ l → y ∈ l → f x = f y → x = y.
Proof.
  induction l as [|z l IH]; [by intros _ ?%elem_of_nil|]. cbn. rewrite NoDup_cons, !elem_of_cons.
  intros [Hz Hl] [->|Hx] [->|Hy] He; [done | | | by apply IH].
  - exfalso. apply Hz. rewrite He. by apply list_elem_of_fmap_2.
  - exfalso. apply Hz. rewrite <- He. by apply list_elem_of_fmap_2.
Qed.

Lemma sorted_unique ds ds' :
  NoDup (drone_id <$> ds) → ds ≡ₚ ds' → merge_sort drone_le ds = merge_sort drone_le ds'.
Proof.
  intros Hn Hp. apply (StronglySorted_unique_strong drone_le).
  - intros d e Hd He H1 H2. unfold drone_le in *.
    apply (same_key drone_id ds); [done | by rewrite merge_sort_Permutation in Hd | |
                                   by apply (anti_symm String.le)].
    by rewrite merge_sort_Permutation, <- Hp in He.
  - apply StronglySorted_merge_sort; apply _.
  - apply StronglySorted_merge_sort; apply _.
  - by rewrite !merge_sort_Permutation.
Qed.

Lemma ordered_unique s s' :
  NoDup (drone_id <$> drones s) → drones s ≡ₚ drones s' → ordered_drones s = ordered_drones s'.
Proof. apply sorted_unique. Qed.

Lemma ordered_ids s : accepted s → NoDup (drone_id <$> ordered_drones s).
Proof. intros (_&Hn&_)%accepted_roster. by rewrite ordered_Permutation. Qed.

Lemma ordered_sectors s : accepted s → NoDup (sector_id <$> ordered_drones s).
Proof. intros (_&_&Hn)%accepted_roster. by rewrite ordered_Permutation. Qed.
