(* ===== verification/Flight.v ===== *)
(** * The point-mass advance

    [services/fleet_simulator/src/aerial_rescue_fleet_simulator/flight.py]: integer addition,
    a refusal when a step would leave the coordinate range, and a battery floored at empty. *)

From S2P Require Import Prelude PyStr Regex Topics Scenario.
Local Open Scope Z_scope.

Inductive FlightRefusal : Set := OUT_OF_RANGE.

Record FlightError : Set := { refusal : FlightRefusal; value : string }.

Record DroneState : Set := {
  latitude : Z; longitude : Z; battery : Z
}.

#[export] Instance DroneState_eq_dec : EqDecision DroneState.
Proof. solve_decision. Defined.

Definition initial_state (d : DroneStart) : DroneState :=
  {| latitude := latitude_microdegrees d; longitude := longitude_microdegrees d;
     battery := battery_permille d |}.

Definition advance (s : DroneState) (d : DroneStart) : result FlightError DroneState :=
  let lat := latitude s + north_microdegrees_per_tick d in
  let lon := longitude s + east_microdegrees_per_tick d in
  raise_if (negb (holds LATITUDE_MICRODEGREES lat && holds LONGITUDE_MICRODEGREES lon))
    {| refusal := OUT_OF_RANGE; value := drone_id d |} ;;
  let drained := battery s - battery_drain_permille_per_tick d in
  Ok {| latitude := lat; longitude := lon; battery := low BATTERY_PERMILLE `max` drained |}.

Definition battery_percent (s : DroneState) : Z := battery s / PERMILLE_PER_PERCENT.

(** ** Where a drone is after [n] ticks of its leg *)

Definition flown (d : DroneStart) (n : nat) : DroneState :=
  {| latitude := latitude_microdegrees d + Z.of_nat n * north_microdegrees_per_tick d;
     longitude := longitude_microdegrees d + Z.of_nat n * east_microdegrees_per_tick d;
     battery := 0 `max` (battery_permille d - Z.of_nat n * battery_drain_permille_per_tick d) |}.

(** The coordinate range the telemetry payload can carry. *)
Definition in_range (s : DroneState) : bool :=
  holds LATITUDE_MICRODEGREES (latitude s) && holds LONGITUDE_MICRODEGREES (longitude s).

Lemma flown_0 d : 0 ≤ battery_permille d → flown d 0 = initial_state d.
Proof. intros Hb. unfold flown, initial_state. f_equal; lia. Qed.

Lemma advance_flown d n :
  0 ≤ battery_drain_permille_per_tick d →
  advance (flown d n) d =
    if in_range (flown d (S n)) then Ok (flown d (S n))
    else Err {| refusal := OUT_OF_RANGE; value := drone_id d |}.
Proof.
  intros Hd. unfold advance, in_range, flown. cbn [latitude longitude battery].
  replace (latitude_microdegrees d + Z.of_nat n * _ + _)
    with (latitude_microdegrees d + Z.of_nat (S n) * north_microdegrees_per_tick d) by lia.
  replace (longitude_microdegrees d + Z.of_nat n * _ + _)
    with (longitude_microdegrees d + Z.of_nat (S n) * east_microdegrees_per_tick d) by lia.
  destruct (holds _ _ && holds _ _); cbn [negb raise_if mbind result_bind]; [|done].
  do 2 f_equal. change (low BATTERY_PERMILLE) with 0. lia.
Qed.

(** The reading the payload carries is a percentage. *)
Lemma battery_percent_bound d n :
  0 ≤ battery_permille d ≤ 1000 → 0 ≤ battery_drain_permille_per_tick d →
  0 ≤ battery_percent (flown d n) ≤ 100.
Proof.
  intros Hb Hd. unfold battery_percent, flown, PERMILLE_PER_PERCENT. cbn [battery].
  pose proof (Z.div_mod (0 `max` (battery_permille d - Z.of_nat n * battery_drain_permille_per_tick d)) 10).
  pose proof (Z.mod_pos_bound (0 `max` (battery_permille d - Z.of_nat n * battery_drain_permille_per_tick d)) 10).
  nia.
Qed.
