(* ===== verification/Fleet.v ===== *)
(** * One tick of the fleet

    [services/fleet_simulator/src/aerial_rescue_fleet_simulator/fleet.py]: one observation
    per drone in ascending order, folded through the connectivity, sector and mission
    machines.  [fleet_at] is the abstract specification, a closed form of the state after [n]
    ticks; the refinement theorem says [advance_tick] computes it, or refuses exactly when
    the mission has ended or a drone would leave the map. *)

From S2P Require Import Prelude PyStr Regex Topics Lifecycle.
From S2P Require Import Mission Sectors Connectivity Scenario Flight.
Local Open Scope Z_scope.

Definition NO_SWEPT_TICKS : Z := 0.

Record Reading : Set := {
  reading_drone : string; reading_latitude : Z; reading_longitude : Z;
  reading_altitude : Z; reading_heading : Z; reading_speed : Z; reading_battery : Z
}.

Record DroneRuntime : Set := { physical : DroneState; connectivity : ConnectivityStatus }.
Record SectorRuntime : Set := { sector_state : Sectors.SectorState; swept_ticks : Z }.

(** The two mappings in insertion order. *)
Record FleetState : Set := {
  tick : Z; mission : Mission.MissionState;
  fleet_drones : list (string * DroneRuntime); fleet_sectors : list (string * SectorRuntime)
}.

Record Tick : Set := { reached : FleetState; readings : list Reading }.

Record Stepped : Set := {
  stepped_drones : list (string * DroneRuntime); stepped_readings : list Reading;
  stepped_events : list (string * Sectors.SectorEvent)
}.

Inductive FleetRefusal : Set := MISSION_ENDED.
Record FleetError : Set := { refusal : FleetRefusal; value : Mission.MissionState }.

(** What [advance_tick] raises: its own refusal, those of the machines it drives, and the
    [KeyError] of a state that lacks a roster entry. *)
Inductive fleet_failure : Set :=
| Refused (e : FleetError)
| FlightRefused (e : FlightError)
| SectorRefused (e : Sectors.SectorError)
| MissionRefused (e : Mission.MissionError)
| KeyError (key : string).

Definition lookup_key {A} (m : list (string * A)) (k : string) : result fleet_failure A :=
  or_raise (dict_get m k) (KeyError k).

Definition initial_fleet (s : FleetScenario) : FleetState :=
  {| tick := FIRST_TICK; mission := Mission.PLANNED;
     fleet_drones := dict_of_pairs
       ((λ d, (drone_id d, {| physical := initial_state d; connectivity := INITIAL_STATUS |})) <$> drones s);
     fleet_sectors := dict_of_pairs
       ((λ d, (sector_id d, {| sector_state := Sectors.INITIAL_STATE; swept_ticks := NO_SWEPT_TICKS |}))
          <$> drones s) |}.

Definition reading (d : DroneStart) (st : DroneState) : Reading :=
  {| reading_drone := drone_id d; reading_latitude := latitude st; reading_longitude := longitude st;
     reading_altitude := altitude_metres d; reading_heading := heading_degrees d;
     reading_speed := ground_speed_centimetres_per_second d; reading_battery := battery_percent st |}.

(** [_observe] *)
Definition observe_tick (status : ConnectivityStatus) (s : FleetScenario) (d : DroneStart) (t : Z)
    : ConnectivityStatus :=
  let absent := bool_decide (t ∈ default [] (dict_get (absent_heartbeats s) (drone_id d))) in
  (if absent then heartbeat_missed else heartbeat_received) status (thresholds s).

Definition sector_event (before after : ConnectivityState) (sector : Sectors.SectorState)
    : option Sectors.SectorEvent :=
  if Sectors.is_terminal sector then None
  else if bool_decide (after = OFFLINE) && negb (bool_decide (before = OFFLINE)) then Some Sectors.IMPERIL
  else if bool_decide (before = OFFLINE) && negb (bool_decide (after = OFFLINE)) then Some Sectors.RECOVER
  else None.

Definition move_sector (r : SectorRuntime) (e : Sectors.SectorEvent) : result fleet_failure SectorRuntime :=
  st ← map_err SectorRefused (Sectors.transition (sector_state r) e);
  Ok {| sector_state := st; swept_ticks := swept_ticks r |}.

Definition open_the_search (st : FleetState)
    : result fleet_failure (Mission.MissionState * list (string * SectorRuntime)) :=
  if bool_decide (mission st = Mission.PLANNED) then
    assigned ← map_ok (λ entry, r ← move_sector entry.2 Sectors.ASSIGN; Ok (entry.1, r)) (fleet_sectors st);
    m ← map_err MissionRefused (Mission.transition (mission st) Mission.START);
    Ok (m, assigned)
  else Ok (mission st, fleet_sectors st).

(** The body of the loop of [_step_drones]: the drone's entry, its reading and its edge. *)
Definition step_drone (s : FleetScenario) (st : FleetState) (sectors : list (string * SectorRuntime))
    (d : DroneStart) : result fleet_failure (DroneRuntime * Reading * option Sectors.SectorEvent) :=
  was ← lookup_key (fleet_drones st) (drone_id d);
  let observed := observe_tick (connectivity was) s d (tick st) in
  flown ← map_err FlightRefused (advance (physical was) d);
  held ← lookup_key sectors (sector_id d);
  Ok ({| physical := flown; connectivity := observed |}, reading d flown,
      sector_event (state (connectivity was)) (state observed) (sector_state held)).

Definition step_drones (s : FleetScenario) (st : FleetState) (sectors : list (string * SectorRuntime))
    : result fleet_failure Stepped :=
  steps ← map_ok (λ d, r ← step_drone s st sectors d; Ok (d, r)) (ordered_drones s);
  Ok {| stepped_drones := dict_of_pairs ((λ p, (drone_id p.1, p.2.1.1)) <$> steps);
        stepped_readings := (λ p, p.2.1.2) <$> steps;
        stepped_events := dict_of_pairs
          (omap (λ p, (λ e, (sector_id p.1, e)) <$> p.2.2) steps) |}.

Definition apply_events (sectors : list (string * SectorRuntime)) (events : list (string * Sectors.SectorEvent))
    : result fleet_failure (list (string * SectorRuntime)) :=
  fold_ok (λ updated entry,
    r ← lookup_key updated entry.1;
    moved ← move_sector r entry.2;
    Ok (dict_set updated entry.1 moved)) sectors events.

Definition sweep (s : FleetScenario) (sectors : list (string * SectorRuntime)) (ds : list (string * DroneRuntime))
    : result fleet_failure (list (string * SectorRuntime)) :=
  fold_ok (λ updated d,
    r ← lookup_key updated (sector_id d);
    run ← lookup_key ds (drone_id d);
    let offline := bool_decide (state (connectivity run) = OFFLINE) in
    if negb (bool_decide (sector_state r = Sectors.ASSIGNED)) || offline then Ok updated
    else
      let swept := swept_ticks r + 1 in
      let finished := ticks_to_sweep s <=? swept in
      reached ← (if finished then map_err SectorRefused (Sectors.transition (sector_state r) Sectors.SWEEP)
                 else Ok (sector_state r));
      Ok (dict_set updated (sector_id d) {| sector_state := reached; swept_ticks := swept |}))
    sectors (ordered_drones s).

Definition mission_after (m : Mission.MissionState) (sectors : list (string * SectorRuntime))
    : result fleet_failure Mission.MissionState :=
  let searched := forallb (λ entry, Sectors.is_terminal (sector_state entry.2)) sectors in
  if bool_decide (m = Mission.SEARCHING) && searched
  then map_err MissionRefused (Mission.transition m Mission.EXHAUST)
  else Ok m.

Definition advance_tick (s : FleetScenario) (st : FleetState) : result fleet_failure Tick :=
  raise_if (Mission.is_terminal (mission st))
    (Refused {| refusal := MISSION_ENDED; value := mission st |}) ;;
  opened ← open_the_search st;
  stepped ← step_drones s st opened.2;
  applied ← apply_events opened.2 (stepped_events stepped);
  swept ← sweep s applied (stepped_drones stepped);
  m ← mission_after opened.1 swept;
  Ok {| reached := {| tick := tick st + 1; mission := m;
                      fleet_drones := stepped_drones stepped; fleet_sectors := swept |};
        readings := stepped_readings stepped |}.

(** ** The specification: the fleet after [n] ticks *)

Section fleet.
Context (s : FleetScenario).

Definition absent (d : DroneStart) (t : nat) : bool :=
  bool_decide (Z.of_nat t ∈ default [] (dict_get (absent_heartbeats s) (drone_id d))).

(** The link the connectivity counter reaches over the scheduled observations. *)
Definition link (d : DroneStart) (n : nat) : ConnectivityStatus :=
  observe_all (thresholds s) INITIAL_STATUS ((λ t, negb (absent d t)) <$> seq 0 n).

Definition offline (d : DroneStart) (n : nat) : bool := bool_decide (state (link d n) = OFFLINE).

(** The ticks up to [n] after which the drone's link was not lost. *)
Fixpoint online (d : DroneStart) (n : nat) : Z :=
  match n with
  | O => 0
  | S m => online d m + (if offline d n then 0 else 1)
  end.

Definition searched (d : DroneStart) (n : nat) : bool := ticks_to_sweep s <=? online d n.

Definition sector_at (d : DroneStart) (n : nat) : SectorRuntime :=
  match n with
  | O => {| sector_state := Sectors.UNASSIGNED; swept_ticks := 0 |}
  | S _ =>
      if searched d n
      then {| sector_state := Sectors.SEARCHED; swept_ticks := ticks_to_sweep s |}
      else {| sector_state := if offline d n then Sectors.AT_RISK else Sectors.ASSIGNED;
              swept_ticks := online d n |}
  end.

Definition drone_at (d : DroneStart) (n : nat) : DroneRuntime :=
  {| physical := flown d n; connectivity := link d n |}.

Definition all_searched (n : nat) : bool := forallb (λ d, searched d n) (drones s).

Definition mission_at (n : nat) : Mission.MissionState :=
  match n with
  | O => Mission.PLANNED
  | S _ => if all_searched n then Mission.EXHAUSTED else Mission.SEARCHING
  end.

(** The drones' mapping is rebuilt in fold order by the first tick; the sectors' keeps the
    roster's. *)
Definition fleet_at (n : nat) : FleetState :=
  {| tick := Z.of_nat n; mission := mission_at n;
     fleet_drones := tabulate drone_id (λ d, drone_at d n)
                       (match n with O => drones s | S _ => ordered_drones s end);
     fleet_sectors := tabulate sector_id (λ d, sector_at d n) (drones s) |}.

Definition readings_at (n : nat) : list Reading := (λ d, reading d (flown d n)) <$> ordered_drones s.

(** ** The machines over one tick *)

Lemma link_S d n : link d (S n) = observe_tick (link d n) s d (Z.of_nat n).
Proof.
  unfold link. rewrite seq_S, fmap_app, Nat.add_0_l. cbn [fmap list_fmap].
  rewrite observe_all_snoc. unfold observe, observe_tick, absent. by destruct (bool_decide _).
Qed.

Lemma online_bound d n : 0 ≤ online d n ≤ Z.of_nat n.
Proof. induction n as [|n IH]; cbn [online]; [lia|]. destruct (offline d (S n)); lia. Qed.

Lemma searched_S d n : searched d n = true → searched d (S n) = true.
Proof. unfold searched. rewrite !Z.leb_le. cbn [online]. destruct (offline d (S n)); lia. Qed.

Hypothesis Hs : accepted s.

Lemma not_searched_0 d : searched d 0 = false.
Proof. pose proof (accepted_counts s Hs). apply Z.leb_gt. cbn. lia. Qed.

Lemma searched_exact d n : searched d n = false → searched d (S n) = true → online d (S n) = ticks_to_sweep s.
Proof.
  unfold searched. rewrite Z.leb_gt, Z.leb_le. cbn [online]. destruct (offline d (S n)); lia.
Qed.

(** A sector after the first tick's assignment. *)
Definition opened (d : DroneStart) (n : nat) : SectorRuntime :=
  if searched d n then {| sector_state := Sectors.SEARCHED; swept_ticks := ticks_to_sweep s |}
  else {| sector_state := if offline d n then Sectors.AT_RISK else Sectors.ASSIGNED;
          swept_ticks := online d n |}.

(** A sector after the edge this tick's observation implies. *)
Definition edged (d : DroneStart) (n : nat) : SectorRuntime :=
  if searched d n then {| sector_state := Sectors.SEARCHED; swept_ticks := ticks_to_sweep s |}
  else {| sector_state := if offline d (S n) then Sectors.AT_RISK else Sectors.ASSIGNED;
          swept_ticks := online d n |}.

Definition edge (d : DroneStart) (n : nat) : option Sectors.SectorEvent :=
  sector_event (state (link d n)) (state (link d (S n))) (sector_state (opened d n)).

Lemma edge_None d n : edge d n = None → edged d n = opened d n.
Proof.
  unfold edge, edged, opened, sector_event, offline.
  destruct (searched d n); [done|]. cbn [sector_state].
  destruct (bool_decide (state (link d n) = OFFLINE)), (bool_decide (state (link d (S n)) = OFFLINE));
    vm_compute; done.
Qed.

Lemma edge_Some d n e : edge d n = Some e → move_sector (opened d n) e = Ok (edged d n).
Proof.
  unfold edge, edged, opened, sector_event, offline.
  destruct (searched d n); [done|]. cbn [sector_state].
  destruct (bool_decide (state (link d n) = OFFLINE)), (bool_decide (state (link d (S n)) = OFFLINE));
    cbn; intros [= <-]; done.
Qed.

(** The sweep's accounting of one sector. *)
Definition swept_entry (d : DroneStart) (n : nat) : result fleet_failure (option SectorRuntime) :=
  let r := edged d n in
  if negb (bool_decide (sector_state r = Sectors.ASSIGNED)) || offline d (S n) then Ok None
  else
    let swept := swept_ticks r + 1 in
    reached ← (if ticks_to_sweep s <=? swept
               then map_err SectorRefused (Sectors.transition (sector_state r) Sectors.SWEEP)
               else Ok (sector_state r));
    Ok (Some {| sector_state := reached; swept_ticks := swept |}).

Lemma swept_entry_spec d n :
  swept_entry d n = Ok None ∧ edged d n = sector_at d (S n) ∨
  swept_entry d n = Ok (Some (sector_at d (S n))).
Proof.
  unfold swept_entry, edged, sector_at. destruct (searched d n) eqn:Hn.
  - left. rewrite (searched_S d n Hn). done.
  - cbn [sector_state swept_ticks]. destruct (offline d (S n)) eqn:Ho.
    + left. assert (searched d (S n) = false) as ->; [|by cbn [online]; rewrite Ho, Z.add_0_r].
      revert Hn. unfold searched. cbn [online]. by rewrite Ho, Z.add_0_r.
    + right. cbn [bool_decide negb orb]. rewrite bool_decide_true by done. cbn [negb orb].
      destruct (searched d (S n)) eqn:Hn'.
      * pose proof (searched_exact d n Hn Hn') as He. cbn [online] in He. rewrite Ho in He.
        rewrite He, Z.leb_refl. done.
      * unfold searched in Hn'. cbn [online] in *. rewrite Ho in *. by rewrite Hn'.
Qed.
End fleet.

(** ** [advance_tick] on the specification *)

Section refinement.
Context (s : FleetScenario) (Hs : accepted s).

Lemma roster_ids : NoDup (drone_id <$> drones s).
Proof. by destruct (accepted_roster s Hs) as (_&?&_). Qed.
Lemma roster_sectors : NoDup (sector_id <$> drones s).
Proof. by destruct (accepted_roster s Hs) as (_&_&?). Qed.
Lemma ordered_nodup : NoDup (ordered_drones s).
Proof. eapply NoDup_fmap_1, ordered_ids, Hs. Qed.

Lemma roster_bounds d : d ∈ drones s →
  0 ≤ battery_permille d ≤ 1000 ∧ 0 ≤ battery_drain_permille_per_tick d.
Proof.
  intros Hd.
  pose proof (accepted_bounds s Hs d ("battery_permille", battery_permille d, BATTERY_PERMILLE)%string Hd
                ltac:(do 5 apply list_elem_of_further; apply list_elem_of_here)) as H1.
  pose proof (accepted_bounds s Hs d
                ("battery_drain_permille_per_tick", battery_drain_permille_per_tick d, BATTERY_PERMILLE)%string Hd
                ltac:(do 6 apply list_elem_of_further; apply list_elem_of_here)) as H2.
  cbn [fst snd] in *. change (low BATTERY_PERMILLE) with 0 in *.
  change (high BATTERY_PERMILLE) with 1000 in *. lia.
Qed.

Lemma initial_fleet_at : initial_fleet s = fleet_at s 0.
Proof.
  unfold initial_fleet, fleet_at. f_equal.
  - rewrite <- (tabulate_of_pairs drone_id) by apply roster_ids. f_equal. unfold tabulate.
    apply list_fmap_ext. intros i d Hd%list_elem_of_lookup_2. cbn. f_equal. unfold drone_at. f_equal.
    symmetry. apply flown_0. pose proof (roster_bounds d Hd). lia.
  - by rewrite <- (tabulate_of_pairs sector_id) by apply roster_sectors.
Qed.

Lemma opened_0 d : opened s d 0 = {| sector_state := Sectors.ASSIGNED; swept_ticks := 0 |}.
Proof. unfold opened. by rewrite (not_searched_0 s Hs). Qed.

Lemma open_at n : mission_at s n ≠ Mission.EXHAUSTED →
  open_the_search (fleet_at s n) = Ok (Mission.SEARCHING, tabulate sector_id (λ d, opened s d n) (drones s)).
Proof.
  intros Hn. unfold open_the_search. destruct n as [|n]; cbn [fleet_at mission fleet_sectors].
  - rewrite bool_decide_true by done.
    rewrite (map_ok_pure _ (λ entry, (entry.1, {| sector_state := Sectors.ASSIGNED; swept_ticks := 0 |}))).
    + cbn [mbind result_bind].
      change (Mission.transition (mission_at s 0) Mission.START) with (Ok (E := Mission.MissionError) Mission.SEARCHING).
      cbn [map_err mbind result_bind]. do 2 f_equal. unfold tabulate. rewrite <- list_fmap_compose.
      apply list_fmap_ext. intros i d _. cbn. by rewrite opened_0.
    + by intros entry (d&->&_)%list_elem_of_fmap.
  - unfold mission_at in *. destruct (all_searched s (S n)); [done|]. by rewrite bool_decide_false.
Qed.

Lemma drone_lookup n d : d ∈ drones s →
  lookup_key (fleet_drones (fleet_at s n)) (drone_id d) = Ok (drone_at s d n).
Proof.
  intros Hd. unfold lookup_key, fleet_at. cbn [fleet_drones].
  destruct n as [|n]; rewrite (tabulate_get drone_id (λ d, drone_at s d _)); try done.
  - apply roster_ids.
  - by apply ordered_ids.
  - by apply elem_of_ordered.
Qed.

Lemma sector_lookup (f : DroneStart → SectorRuntime) d : d ∈ drones s →
  lookup_key (tabulate sector_id f (drones s)) (sector_id d) = Ok (f d).
Proof.
  intros Hd. unfold lookup_key. by rewrite (tabulate_get sector_id f) by (done || apply roster_sectors).
Qed.

Lemma step_drone_at n d : d ∈ drones s →
  step_drone s (fleet_at s n) (tabulate sector_id (λ d, opened s d n) (drones s)) d =
  if in_range (flown d (S n)) then Ok (drone_at s d (S n), reading d (flown d (S n)), edge s d n)
  else Err (FlightRefused {| Flight.refusal := Flight.OUT_OF_RANGE; Flight.value := drone_id d |}).
Proof.
  intros Hd. unfold step_drone. rewrite drone_lookup by done. cbn [mbind result_bind drone_at physical connectivity].
  rewrite advance_flown by (by destruct (roster_bounds d Hd)). rewrite <- link_S.
  destruct (in_range (flown d (S n))); cbn [map_err mbind result_bind]; [|done].
  by rewrite sector_lookup.
Qed.

Definition events_at (n : nat) : list (string * Sectors.SectorEvent) :=
  omap (λ d, (λ e, (sector_id d, e)) <$> edge s d n) (ordered_drones s).

Lemma events_keys n : dict_wf (events_at n).
Proof.
  unfold dict_wf, dict_keys, events_at. pose proof (ordered_sectors s Hs) as Hn.
  induction (ordered_drones s) as [|d l IH]; [constructor|]. cbn in *.
  apply NoDup_cons in Hn as [Hd Hn]. destruct (edge s d n) as [e|]; cbn; [|by apply IH].
  apply NoDup_cons. split; [|by apply IH]. contradict Hd.
  apply list_elem_of_fmap in Hd as ([k e']&->&(d'&Hd'&He)%list_elem_of_omap).
  destruct (edge s d' n); [|done]. injection He as <- <-. cbn [fst]. by apply list_elem_of_fmap_2.
Qed.

Lemma step_drones_at n : (∀ d, d ∈ drones s → in_range (flown d (S n)) = true) →
  step_drones s (fleet_at s n) (tabulate sector_id (λ d, opened s d n) (drones s)) =
  Ok {| stepped_drones := tabulate drone_id (λ d, drone_at s d (S n)) (ordered_drones s);
        stepped_readings := readings_at s (S n); stepped_events := events_at n |}.
Proof.
  intros Hr. unfold step_drones.
  rewrite (map_ok_pure _ (λ d, (d, (drone_at s d (S n), reading d (flown d (S n)), edge s d n)))).
  - cbn [mbind result_bind]. do 2 f_equal.
    + rewrite <- (tabulate_of_pairs drone_id _ _ (ordered_ids s Hs)). f_equal. unfold tabulate.
      by rewrite <- list_fmap_compose.
    + unfold readings_at. by rewrite <- list_fmap_compose.
    + rewrite <- (dict_of_pairs_id _ (events_keys n)). f_equal. unfold events_at.
      clear. induction (ordered_drones s) as [|d l IH]; cbn; [done|].
      destruct (edge s d n); cbn; by rewrite IH.
  - intros d Hd%elem_of_ordered. rewrite step_drone_at by done. by rewrite Hr.
Qed.

Lemma all_rows (f g : DroneStart → SectorRuntime) :
  tabulate sector_id (λ d, if decide (d ∈ ordered_drones s) then g d else f d) (drones s) =
  tabulate sector_id g (drones s).
Proof. apply tabulate_ext. intros d Hd. by rewrite decide_True by (by apply elem_of_ordered). Qed.

Lemma apply_events_at n :
  apply_events (tabulate sector_id (λ d, opened s d n) (drones s)) (events_at n) =
  Ok (tabulate sector_id (λ d, edged s d n) (drones s)).
Proof.
  unfold apply_events, events_at. rewrite fold_ok_omap.
  rewrite (fold_tabulate sector_id _ _ (λ d, edged s d n)); [by rewrite all_rows| | | |].
  - apply roster_sectors.
  - apply ordered_nodup.
  - intros d. apply elem_of_ordered.
  - intros h d Hd%elem_of_ordered Hh. destruct (edge s d n) as [e|] eqn:He; cbn [fmap option_fmap option_map].
    + cbn [fst snd]. rewrite sector_lookup by done. cbn [mbind result_bind].
      rewrite Hh, (edge_Some s d n e He). cbn [mbind result_bind].
      by rewrite (tabulate_set sector_id) by (done || apply roster_sectors).
    + f_equal. apply tabulate_ext. intros b _. case_decide as Hb; [subst b|done].
      by rewrite (edge_None s d n He).
Qed.

Lemma sweep_at n :
  sweep s (tabulate sector_id (λ d, edged s d n) (drones s))
    (tabulate drone_id (λ d, drone_at s d (S n)) (ordered_drones s)) =
  Ok (tabulate sector_id (λ d, sector_at s d (S n)) (drones s)).
Proof.
  unfold sweep.
  rewrite (fold_tabulate sector_id _ _ (λ d, sector_at s d (S n))); [by rewrite all_rows| | | |].
  - apply roster_sectors.
  - apply ordered_nodup.
  - intros d. apply elem_of_ordered.
  - intros h d Hd Hh. rewrite sector_lookup by (by apply elem_of_ordered). cbn [mbind result_bind].
    unfold lookup_key. rewrite (tabulate_get drone_id (λ d, drone_at s d (S n))) by (done || by apply ordered_ids).
    cbn [or_raise mbind result_bind drone_at connectivity]. rewrite Hh.
    change (bool_decide (state (link s d (S n)) = OFFLINE)) with (offline s d (S n)).
    destruct (swept_entry_spec s d n) as [[Hw He]|Hw]; unfold swept_entry in Hw;
      destruct (negb _ || _); try discriminate Hw.
    + f_equal. apply tabulate_ext. intros b _. case_decide as Hb; [subst b|done]. by rewrite Hh.
    + by apply bind_Ok in Hw as (?&_&?).
    + apply bind_Ok in Hw as (st&Hst&[= Hst']). rewrite Hst. cbn [mbind result_bind]. rewrite Hst'.
      by rewrite (tabulate_set sector_id) by (by apply elem_of_ordered || apply roster_sectors).
Qed.

Lemma sector_searched d n :
  Sectors.is_terminal (sector_state (sector_at s d (S n))) = searched s d (S n).
Proof.
  cbn [sector_at]. destruct (searched s d (S n)); [done|]. by destruct (offline s d (S n)).
Qed.

Lemma mission_after_at n :
  mission_after Mission.SEARCHING (tabulate sector_id (λ d, sector_at s d (S n)) (drones s)) =
  Ok (mission_at s (S n)).
Proof.
  unfold mission_after, mission_at. rewrite bool_decide_true by done. cbn [andb].
  assert (forallb (λ entry, Sectors.is_terminal (sector_state entry.2))
            (tabulate sector_id (λ d, sector_at s d (S n)) (drones s)) = all_searched s (S n)) as ->.
  { unfold all_searched, tabulate. induction (drones s) as [|d l IH]; cbn -[sector_at]; [done|].
    by rewrite sector_searched, IH. }
  by destruct (all_searched s (S n)).
Qed.

(** The first drone, in fold order, whose next step would leave the map. *)
Definition stray (n : nat) : option DroneStart :=
  snd <$> list_find (λ d, in_range (flown d (S n)) = false) (ordered_drones s).

Lemma advance_at n :
  advance_tick s (fleet_at s n) =
  if bool_decide (mission_at s n = Mission.EXHAUSTED)
  then Err (Refused {| refusal := MISSION_ENDED; value := Mission.EXHAUSTED |})
  else match stray n with
  | Some d => Err (FlightRefused {| Flight.refusal := Flight.OUT_OF_RANGE; Flight.value := drone_id d |})
  | None => Ok {| reached := fleet_at s (S n); readings := readings_at s (S n) |}
  end.
Proof.
  unfold advance_tick. cbn [fleet_at mission].
  destruct (decide (mission_at s n = Mission.EXHAUSTED)) as [He|He].
  { rewrite bool_decide_true by done. by rewrite He. }
  rewrite bool_decide_false by done.
  assert (Mission.is_terminal (mission_at s n) = false) as ->
    by (destruct n; [done|]; cbn in *; by destruct (all_searched _ _)).
  cbn [raise_if mbind result_bind]. fold (fleet_at s n). rewrite open_at by done. cbn [mbind result_bind fst snd].
  unfold stray. destruct (list_find _ _) as [[i d]|] eqn:Hf; cbn [fmap option_fmap option_map snd].
  - apply list_find_Some in Hf as (Hi&Hd&Hbefore).
    unfold step_drones. rewrite <- (take_drop_middle _ _ _ Hi).
    rewrite (map_ok_first_Err _ (λ d, (d, (drone_at s d (S n), reading d (flown d (S n)), edge s d n)))
               _ _ _ (FlightRefused {| Flight.refusal := Flight.OUT_OF_RANGE; Flight.value := drone_id d |})); [done| |].
    + intros b Hb. apply list_elem_of_lookup in Hb as [j Hj]. apply lookup_take_Some in Hj as [Hj Hlt].
      rewrite step_drone_at by (apply elem_of_ordered; by eapply list_elem_of_lookup_2).
      destruct (in_range (flown b (S n))) eqn:Hb; [done|]. by destruct (Hbefore j b Hj Hlt).
    + rewrite step_drone_at by (apply elem_of_ordered; by eapply list_elem_of_lookup_2). by rewrite Hd.
  - apply list_find_None in Hf. rewrite step_drones_at.
    + cbn [mbind result_bind stepped_events stepped_drones stepped_readings].
      rewrite apply_events_at. cbn [mbind result_bind]. rewrite sweep_at. cbn [mbind result_bind].
      rewrite mission_after_at. cbn [mbind result_bind]. unfold fleet_at at 1. cbn [tick].
      unfold fleet_at. do 3 f_equal. lia.
    + intros d Hd%elem_of_ordered. rewrite Forall_forall in Hf. specialize (Hf d Hd). cbn in Hf.
      by destruct (in_range _).
Qed.
End refinement.

(** ** Runs *)

(** Fold ticks until one is refused: the readings of each tick, the last state and the
    refusal; [None] when the fuel runs out first. *)
Fixpoint run (s : FleetScenario) (fuel : nat) (st : FleetState)
    : option (list (list Reading) * FleetState * fleet_failure) :=
  match fuel with
  | O => None
  | S fuel =>
      match advance_tick s st with
      | Ok t => r ← run s fuel (reached t); Some (readings t :: r.1.1, r.1.2, r.2)
      | Err e => Some ([], st, e)
      end
  end.

(** One past the last scheduled absence. *)
Definition horizon (s : FleetScenario) : nat :=
  foldr max 0%nat ((λ t, S (Z.to_nat t)) <$> mjoin (snd <$> absent_heartbeats s)).

(** Enough ticks: the absences, the recovery of every link, and an uninterrupted sweep. *)
Definition longest_run (s : FleetScenario) : nat :=
  (horizon s + Z.to_nat (1 `max` heartbeats_to_recover (thresholds s)) + Z.to_nat (ticks_to_sweep s))%nat.

Lemma foldr_max_ge l x : x ∈ l → (x ≤ foldr max 0%nat l)%nat.
Proof. induction l as [|y l IH]; [by intros ?%elem_of_nil|]. cbn. intros [->|Hx%IH]%elem_of_cons; lia. Qed.

Section liveness.
Context (s : FleetScenario).

Lemma present_after d t : (horizon s ≤ t)%nat → absent s d t = false.
Proof.
  intros Ht. apply bool_decide_eq_false. intros Hin.
  destruct (dict_get (absent_heartbeats s) (drone_id d)) as [ts|] eqn:Hd; [|by apply elem_of_nil in Hin].
  apply dict_get_elem in Hd. cbn in Hin.
  assert (S (Z.to_nat (Z.of_nat t)) ≤ horizon s)%nat as Hh; [|lia].
  apply foldr_max_ge, (list_elem_of_fmap_2 (λ t, S (Z.to_nat t))), list_elem_of_join.
  exists ts. split; [done|]. by apply (list_elem_of_fmap_2 snd _ (drone_id d, ts)).
Qed.

Lemma heartbeats_after d k :
  Z.of_nat k ≤ consecutive_heartbeats (link s d (horizon s + k)) ∧
  ((1 ≤ k)%nat → heartbeats_to_recover (thresholds s) ≤ Z.of_nat k →
     state (link s d (horizon s + k)) = CONNECTED).
Proof.
  induction k as [|k [IH _]].
  - split; [|lia]. rewrite Nat.add_0_r. unfold link.
    pose proof (observe_streaks (thresholds s) ((λ t, negb (absent s d t)) <$> seq 0 (horizon s))) as [_ H2].
    rewrite H2. apply streak_nonneg.
  - rewrite Nat.add_succ_r, link_S. unfold observe_tick.
    pose proof (present_after d (horizon s + k) ltac:(lia)) as Ha. unfold absent in Ha. rewrite Ha.
    unfold heartbeat_received. cbn [consecutive_heartbeats state]. split; [lia|]. intros _ Hr.
    by rewrite (proj2 (Z.leb_le _ _)) by lia.
Qed.

Lemma online_after d k :
  Z.of_nat k ≤ online s d (horizon s + Z.to_nat (1 `max` heartbeats_to_recover (thresholds s)) + k).
Proof.
  induction k as [|k IH]; [apply online_bound|]. rewrite Nat.add_succ_r. cbn [online].
  match goal with |- context [offline s d ?m] => assert (offline s d m = false) as -> end; [|lia].
  unfold offline. match goal with |- context [link s d ?m] => replace m with (horizon s +
    (Z.to_nat (1 `max` heartbeats_to_recover (thresholds s)) + S k))%nat by lia end.
  by rewrite (proj2 (heartbeats_after d _)) by lia.
Qed.

Lemma longest_run_exhausts : accepted s → mission_at s (longest_run s) = Mission.EXHAUSTED.
Proof.
  intros Hs. pose proof (accepted_counts s Hs) as [_ Ht]. unfold mission_at.
  destruct (longest_run s) as [|n] eqn:Hn; [unfold longest_run in Hn; lia|].
  assert (all_searched s (S n) = true) as ->; [|done]. unfold all_searched.
  apply forallb_Forall, Forall_forall. intros d _. rewrite <- Hn. unfold searched, longest_run.
  apply Z.leb_le. pose proof (online_after d (Z.to_nat (ticks_to_sweep s))). lia.
Qed.

Lemma run_from fuel n : accepted s → (n ≤ longest_run s)%nat → (longest_run s - n < fuel)%nat →
  ∃ k e, run s fuel (fleet_at s n) =
      Some (readings_at s <$> seq (S n) k, fleet_at s (n + k), e) ∧ (n + k ≤ longest_run s)%nat ∧
    ((e = Refused {| refusal := MISSION_ENDED; value := Mission.EXHAUSTED |} ∧
      mission_at s (n + k) = Mission.EXHAUSTED) ∨
     ∃ d, stray s (n + k) = Some d ∧
          e = FlightRefused {| Flight.refusal := Flight.OUT_OF_RANGE; Flight.value := drone_id d |}).
Proof.
  intros Hs. revert n. induction fuel as [|fuel IH]; intros n Hn Hf; [lia|]. cbn [run].
  rewrite advance_at by done. destruct (decide (mission_at s n = Mission.EXHAUSTED)) as [He|He].
  { rewrite bool_decide_true by done. exists 0%nat. rewrite Nat.add_0_r. eexists.
    split; [done|]. split; [lia|]. by left. }
  rewrite bool_decide_false by done. destruct (stray s n) as [d|] eqn:Hd.
  - exists 0%nat. rewrite Nat.add_0_r. eexists. split; [done|]. split; [lia|]. right. by exists d.
  - cbn [reached readings]. assert (n ≠ longest_run s) by (intros ->; by apply He, longest_run_exhausts).
    destruct (IH (S n)) as (k&e&Hr&Hm&Hend); [lia|lia|]. exists (S k), e.
    rewrite Nat.add_succ_r. rewrite Hr. cbn [mbind option_bind fst snd]. split; [done|]. split; [lia | done].
Qed.
End liveness.

Lemma stray_leaves s n d : stray s n = Some d → d ∈ drones s ∧ in_range (flown d (S n)) = false.
Proof.
  unfold stray. destruct (list_find _ _) as [[i d']|] eqn:Hd; [|done]. intros [= ->].
  apply list_find_Some in Hd as (Hi&Hd&_). split; [|done].
  apply elem_of_ordered. by eapply list_elem_of_lookup_2.
Qed.

(** C2: [advance_tick] refines the specification.  The initial state is the fleet at tick 0;
    from the fleet at tick [n] a tick yields exactly the fleet at tick [n + 1], with one
    reading per drone in ascending order, unless the mission is exhausted or a drone would
    leave the map, and then the refusal names the first such drone; no machine it drives ever
    refuses, and no lookup fails. *)
Theorem fleet_tick_refines s n :
  accepted s →
  initial_fleet s = fleet_at s 0 ∧
  advance_tick s (fleet_at s n) =
    if bool_decide (mission_at s n = Mission.EXHAUSTED)
    then Err (Refused {| refusal := MISSION_ENDED; value := Mission.EXHAUSTED |})
    else match stray s n with
    | Some d => Err (FlightRefused {| Flight.refusal := Flight.OUT_OF_RANGE; Flight.value := drone_id d |})
    | None => Ok {| reached := fleet_at s (S n); readings := readings_at s (S n) |}
    end.
Proof. intros Hs. split; [by apply initial_fleet_at | by apply advance_at]. Qed.

(** Every run ends.  An accepted scenario folds at most [longest_run] ticks (its last
    scheduled absence, the recovery of the links and one sweep): with more fuel than that the
    run stops, either with every sector searched and the mission exhausted, or at a drone
    whose next step leaves the map. *)
Lemma fleet_run_ends s fuel :
  accepted s → (longest_run s < fuel)%nat →
  ∃ k e, run s fuel (initial_fleet s) = Some (readings_at s <$> seq 1 k, fleet_at s k, e) ∧
    (k ≤ longest_run s)%nat ∧
    ((e = Refused {| refusal := MISSION_ENDED; value := Mission.EXHAUSTED |} ∧
      mission (fleet_at s k) = Mission.EXHAUSTED ∧ all_searched s k = true) ∨
     ∃ d, d ∈ drones s ∧ in_range (flown d (S k)) = false ∧
          e = FlightRefused {| Flight.refusal := Flight.OUT_OF_RANGE; Flight.value := drone_id d |}).
Proof.
  intros Hs Hf. rewrite initial_fleet_at by done.
  destruct (run_from s fuel 0 Hs) as (k&e&Hr&Hk&Hend); [lia|lia|]. exists k, e.
  split; [done|]. split; [done|]. cbn [Nat.add] in Hend.
  destruct Hend as [[-> He]|(d&[Hd Hr']%stray_leaves&->)]; [left | right; by exists d].
  split; [done|]. split; [done|]. destruct k; [done|]. cbn in He. by destruct (all_searched _ _).
Qed.

(** ** What every reachable state keeps *)

Definition folds (s : FleetScenario) (st st' : FleetState) : Prop :=
  ∃ t, advance_tick s st = Ok t ∧ reached t = st'.

(** The bounds the committed schema sets for each member of the telemetry payload. *)
Definition within_payload (r : Reading) : bool :=
  holds LATITUDE_MICRODEGREES (reading_latitude r) && holds LONGITUDE_MICRODEGREES (reading_longitude r) &&
  holds ALTITUDE_METRES (reading_altitude r) && holds HEADING_DEGREES (reading_heading r) &&
  holds GROUND_SPEED_CENTIMETRES_PER_SECOND (reading_speed r) && holds PERCENT (reading_battery r).

Section invariant.
Context (s : FleetScenario) (Hs : accepted s).

Lemma advance_Ok n t : advance_tick s (fleet_at s n) = Ok t →
  t = {| reached := fleet_at s (S n); readings := readings_at s (S n) |} ∧ stray s n = None.
Proof.
  rewrite advance_at by done. case_bool_decide; [done|]. destruct (stray s n); [done|]. by intros [= <-].
Qed.

Lemma reachable_at st : reaches (folds s) (initial_fleet s) st → ∃ n, st = fleet_at s n.
Proof.
  intros Hr. eapply (reaches_invariant (folds s) (λ st, ∃ n, st = fleet_at s n)); [|exact Hr|].
  - intros ? ? [n ->] (t&Ht&<-). apply advance_Ok in Ht as [-> _]. by exists (S n).
  - exists 0%nat. by apply initial_fleet_at.
Qed.

Lemma reading_bounds n d : d ∈ drones s → stray s n = None →
  within_payload (reading d (flown d (S n))) = true.
Proof.
  intros Hd Hn. unfold stray in Hn. destruct (list_find _ _) eqn:Hf; [done|].
  apply list_find_None in Hf. rewrite Forall_forall in Hf.
  specialize (Hf d (proj2 (elem_of_ordered s d) Hd)). cbv beta in Hf.
  assert (in_range (flown d (S n)) = true) as Hr by (by destruct (in_range _)).
  unfold within_payload, reading. cbn [reading_latitude reading_longitude reading_altitude reading_heading reading_speed reading_battery].
  unfold in_range in Hr. rewrite Hr. cbn [andb]. rewrite !andb_true_iff, !holds_spec.
  pose proof (accepted_bounds s Hs d ("altitude_metres", altitude_metres d, ALTITUDE_METRES)%string Hd
    ltac:(do 2 apply list_elem_of_further; apply list_elem_of_here)).
  pose proof (accepted_bounds s Hs d ("heading_degrees", heading_degrees d, HEADING_DEGREES)%string Hd
    ltac:(do 3 apply list_elem_of_further; apply list_elem_of_here)).
  pose proof (accepted_bounds s Hs d ("ground_speed_centimetres_per_second",
      ground_speed_centimetres_per_second d, GROUND_SPEED_CENTIMETRES_PER_SECOND)%string Hd
    ltac:(do 4 apply list_elem_of_further; apply list_elem_of_here)).
  repeat split; try tauto; apply battery_percent_bound; by destruct (roster_bounds s Hs d Hd).
Qed.

Lemma mission_sectors n :
  mission_at s n = Mission.EXHAUSTED ↔
  Forall (λ e, sector_state e.2 = Sectors.SEARCHED) (fleet_sectors (fleet_at s n)).
Proof.
  cbn [fleet_at fleet_sectors]. unfold tabulate. rewrite Forall_fmap. destruct n as [|n].
  - split; [done|]. intros Hf. destruct (accepted_roster s Hs) as [Hne _].
    destruct (drones s); [done|]. apply Forall_cons in Hf as [Hf _]. done.
  - unfold mission_at, all_searched.
    transitivity (Forall (λ d, searched s d (S n) = true) (drones s)).
    + rewrite <- forallb_Forall. by destruct (forallb _ _).
    + apply Forall_iff. intros d. cbn [sector_at compose snd].
      destruct (searched s d (S n)); [done|]. by destruct (offline s d (S n)).
Qed.

Lemma sector_facts n d :
  let h := sector_at s d n in
  0 ≤ swept_ticks h ≤ ticks_to_sweep s ∧
  (sector_state h = Sectors.SEARCHED ↔ swept_ticks h = ticks_to_sweep s) ∧
  (sector_state h = Sectors.AT_RISK ↔
     state (link s d n) = OFFLINE ∧ sector_state h ≠ Sectors.SEARCHED) ∧
  (sector_state h = Sectors.UNASSIGNED ↔ mission_at s n = Mission.PLANNED).
Proof.
  pose proof (accepted_counts s Hs) as [_ Ht]. pose proof (online_bound s d n) as Ho.
  destruct n as [|n]; cbn [sector_at mission_at].
  - cbn. repeat split; intros; try done; try lia. by destruct_and?.
  - unfold searched, offline. destruct (Z.leb_spec (ticks_to_sweep s) (online s d (S n)));
      cbn [sector_state swept_ticks].
    + split; [lia|]. split; [done|]. split; [by split; [|intros []]|]. by destruct (all_searched _ _).
    + case_bool_decide; cbn [sector_state]; (split; [lia|]); (split; [split; [done|lia]|]);
        (split; [|by destruct (all_searched _ _)]); [by split|]. by split; [|intros []].
Qed.
End invariant.

(** C39: every reachable fleet state keeps the fleet's invariants.  The mission is exhausted
    exactly when every sector is searched; a sector is searched exactly when it has been
    swept for the declared ticks, at risk exactly when its holder's link is lost before that,
    and unassigned exactly before the first tick; and each tick publishes one reading per
    drone in ascending order, every member inside the bound of the telemetry payload. *)
Theorem fleet_invariant s st :
  accepted s → reaches (folds s) (initial_fleet s) st →
  (mission st = Mission.EXHAUSTED ↔
     Forall (λ e, sector_state e.2 = Sectors.SEARCHED) (fleet_sectors st)) ∧
  (∀ d, d ∈ drones s → ∃ r h,
     dict_get (fleet_drones st) (drone_id d) = Some r ∧
     dict_get (fleet_sectors st) (sector_id d) = Some h ∧
     0 ≤ swept_ticks h ≤ ticks_to_sweep s ∧
     (sector_state h = Sectors.SEARCHED ↔ swept_ticks h = ticks_to_sweep s) ∧
     (sector_state h = Sectors.AT_RISK ↔
        state (connectivity r) = OFFLINE ∧ sector_state h ≠ Sectors.SEARCHED) ∧
     (sector_state h = Sectors.UNASSIGNED ↔ mission st = Mission.PLANNED)) ∧
  (∀ t, advance_tick s st = Ok t →
     reading_drone <$> readings t = drone_id <$> ordered_drones s ∧
     Forall (λ r, within_payload r = true) (readings t)).
Proof.
  intros Hs [n ->]%(reachable_at s Hs). split; [by apply (mission_sectors s Hs)|]. split.
  - intros d Hd. exists (drone_at s d n), (sector_at s d n).
    split; [by apply (or_raise_Ok _ (KeyError (drone_id d))), drone_lookup|].
    split; [by apply (tabulate_get sector_id (λ d, sector_at s d n)); [apply roster_sectors|]|].
    by apply (sector_facts s Hs).
  - intros t [-> Hn]%(advance_Ok s Hs). cbn [readings]. unfold readings_at. split.
    + rewrite <- list_fmap_compose. by apply list_fmap_ext.
    + rewrite Forall_fmap, Forall_forall. intros d Hd%elem_of_ordered. by apply (reading_bounds s Hs).
Qed.

(** ** The roster's own order carries nothing *)

(** Two scenarios that differ in the order of their rosters only. *)
Definition reordered (s s' : FleetScenario) : Prop :=
  drones s ≡ₚ drones s' ∧ Scenario.mission_id s = Scenario.mission_id s' ∧
  tick_interval_milliseconds s = tick_interval_milliseconds s' ∧ thresholds s = thresholds s' ∧
  ticks_to_sweep s = ticks_to_sweep s' ∧ absent_heartbeats s = absent_heartbeats s'.

(** Equality of states as Python compares them: mappings without their order. *)
Definition same_state (st st' : FleetState) : Prop :=
  tick st = tick st' ∧ mission st = mission st' ∧
  dict_equiv (fleet_drones st) (fleet_drones st') ∧ dict_equiv (fleet_sectors st) (fleet_sectors st').

Section reordered.
Context (s s' : FleetScenario) (Hs : accepted s) (Hs' : accepted s') (Hr : reordered s s').

Lemma reordered_ordered : ordered_drones s = ordered_drones s'.
Proof. destruct Hr as [Hp _]. apply ordered_unique; [by apply roster_ids | done]. Qed.

Lemma reordered_link d n : link s d n = link s' d n.
Proof. destruct Hr as (_&_&_&Ht&_&Ha). unfold link, absent. by rewrite Ht, Ha. Qed.

Lemma reordered_online d n : online s d n = online s' d n.
Proof. induction n as [|n IH]; cbn; [done|]. unfold offline. by rewrite IH, reordered_link. Qed.

Lemma reordered_searched d n : searched s d n = searched s' d n.
Proof. destruct Hr as (_&_&_&_&Ht&_). unfold searched. by rewrite Ht, reordered_online. Qed.

Lemma reordered_sector d n : sector_at s d n = sector_at s' d n.
Proof.
  destruct n as [|n]; [done|]. cbn [sector_at]. unfold offline.
  rewrite reordered_searched, reordered_link, reordered_online. by destruct Hr as (_&_&_&_&->&_).
Qed.

Lemma reordered_mission n : mission_at s n = mission_at s' n.
Proof.
  destruct n as [|n]; [done|]. unfold mission_at.
  assert (all_searched s (S n) = all_searched s' (S n)) as ->; [|done].
  apply Bool.eq_iff_eq_true. unfold all_searched. rewrite !forallb_Forall.
  destruct Hr as [Hp _]. rewrite Hp. apply Forall_iff. intros d. by rewrite reordered_searched.
Qed.

Lemma tabulate_reordered {V} (key : DroneStart → string) (f : DroneStart → V) l l' :
  NoDup (key <$> l) → l ≡ₚ l' → dict_equiv (tabulate key f l) (tabulate key f l').
Proof.
  intros Hn Hp. apply dict_equiv_Permutation; [unfold dict_wf; by rewrite tabulate_keys|].
  unfold tabulate. by rewrite Hp.
Qed.

Lemma reordered_fleet n : same_state (fleet_at s n) (fleet_at s' n).
Proof.
  pose proof Hr as [Hp _]. split; [done|]. split; [apply reordered_mission|]. cbn [fleet_at fleet_drones fleet_sectors]. split.
  - rewrite (tabulate_ext drone_id (λ d, drone_at s d n) (λ d, drone_at s' d n))
      by (intros d _; unfold drone_at; by rewrite reordered_link).
    apply tabulate_reordered; destruct n; try done.
    + by apply roster_ids.
    + by apply ordered_ids.
    + by rewrite reordered_ordered.
  - rewrite (tabulate_ext sector_id (λ d, sector_at s d n) (λ d, sector_at s' d n))
      by (intros d _; apply reordered_sector).
    apply tabulate_reordered; [by apply roster_sectors | done].
Qed.

Lemma reordered_run fuel n :
  match run s fuel (fleet_at s n), run s' fuel (fleet_at s' n) with
  | Some (rs, st, e), Some (rs', st', e') => rs = rs' ∧ same_state st st' ∧ e = e'
  | None, None => True
  | _, _ => False
  end.
Proof.
  revert n. induction fuel as [|fuel IH]; intros n; [done|]. cbn [run].
  rewrite !advance_at by done. rewrite <- reordered_mission.
  case_bool_decide; [split; [done|]; split; [apply reordered_fleet | done]|].
  assert (stray s' n = stray s n) as -> by (unfold stray; by rewrite reordered_ordered).
  destruct (stray s n); [split; [done|]; split; [apply reordered_fleet | done]|].
  cbn [reached readings]. specialize (IH (S n)).
  destruct (run s fuel _) as [[[rs st] e]|], (run s' fuel _) as [[[rs' st'] e']|]; try done.
  cbn. destruct IH as (->&Hst&->). unfold readings_at. rewrite reordered_ordered. done.
Qed.
End reordered.

(** The roster's order carries nothing.  Two accepted scenarios that differ only in it
    fold, with any fuel, to the same readings tick by tick, the same last state as Python
    compares mappings, and the same ending or refusal. *)
Lemma fleet_order_free s s' fuel :
  accepted s → accepted s' → reordered s s' →
  match run s fuel (initial_fleet s), run s' fuel (initial_fleet s') with
  | Some (rs, st, e), Some (rs', st', e') => rs = rs' ∧ same_state st st' ∧ e = e'
  | None, None => True
  | _, _ => False
  end.
Proof. intros. rewrite !initial_fleet_at by done. by apply reordered_run. Qed.

(** ** A run *)

Definition sample_drone (id sector : string) (north : Z) : DroneStart :=
  {| drone_id := id; sector_id := sector; latitude_microdegrees := 46000000; longitude_microdegrees := 7000000;
     altitude_metres := 1500; heading_degrees := 0; ground_speed_centimetres_per_second := 1200;
     battery_permille := 1000; north_microdegrees_per_tick := north; east_microdegrees_per_tick := 0;
     battery_drain_permille_per_tick := 15 |}.

Definition sample_scenario (ds : list DroneStart) : FleetScenario :=
  {| Scenario.mission_id := "mission-1"; drones := ds; tick_interval_milliseconds := 1000;
     thresholds := {| misses_to_degraded := 1; misses_to_offline := 2; heartbeats_to_recover := 1 |};
     ticks_to_sweep := 3; absent_heartbeats := [("drone-b", [1; 2; 3])]%string |}.

Definition roster_ab : list DroneStart :=
  [sample_drone "drone-a" "sector-1" 900; sample_drone "drone-b" "sector-2" 800].
Definition roster_ba : list DroneStart :=
  [sample_drone "drone-b" "sector-2" 800; sample_drone "drone-a" "sector-1" 900].

Lemma sample_accepted ds : ds = roster_ab ∨ ds = roster_ba → accepted (sample_scenario ds).
Proof.
  intros [-> | ->]; (split; [|vm_compute; reflexivity]);
    unfold roster_ab, roster_ba; cbn [drones sample_scenario]; rewrite !Forall_cons; rewrite Forall_nil; repeat split; vm_compute; reflexivity.
Qed.

Lemma fleet_tick_refines_witness :
  advance_tick (sample_scenario roster_ab) (fleet_at (sample_scenario roster_ab) 2) =
  Ok {| reached := fleet_at (sample_scenario roster_ab) 3; readings := readings_at (sample_scenario roster_ab) 3 |}.
Proof. exact (proj2 (fleet_tick_refines (sample_scenario roster_ab) 2 (sample_accepted _ (or_introl eq_refl)))). Defined.

Lemma fleet_run_ends_witness : ∃ k e,
  run (sample_scenario roster_ab) 10 (initial_fleet (sample_scenario roster_ab)) =
    Some (readings_at (sample_scenario roster_ab) <$> seq 1 k, fleet_at (sample_scenario roster_ab) k, e).
Proof.
  destruct (fleet_run_ends (sample_scenario roster_ab) 10 (sample_accepted _ (or_introl eq_refl))
              ltac:(vm_compute; lia)) as (k&e&Hr&_).
  by exists k, e.
Defined.

Lemma fleet_invariant_witness : ∃ st,
  advance_tick (sample_scenario roster_ab) (initial_fleet (sample_scenario roster_ab)) = Ok st ∧
  (mission (reached st) = Mission.EXHAUSTED ↔
     Forall (λ e, sector_state e.2 = Sectors.SEARCHED) (fleet_sectors (reached st))).
Proof.
  destruct (advance_tick (sample_scenario roster_ab) (initial_fleet (sample_scenario roster_ab))) as [t|e] eqn:Ht.
  - exists t. split; [done|].
    apply (fleet_invariant (sample_scenario roster_ab) (reached t) (sample_accepted _ (or_introl eq_refl))).
    eapply reaches_step; [by exists t | constructor].
  - exfalso. vm_compute in Ht. discriminate Ht.
Defined.

Lemma fleet_order_free_witness :
  match run (sample_scenario roster_ab) 10 (initial_fleet (sample_scenario roster_ab)),
        run (sample_scenario roster_ba) 10 (initial_fleet (sample_scenario roster_ba)) with
  | Some (rs, st, e), Some (rs', st', e') => rs = rs' ∧ same_state st st' ∧ e = e'
  | None, None => True
  | _, _ => False
  end.
Proof.
  apply fleet_order_free; [apply sample_accepted; by left | apply sample_accepted; by right|].
  split; [apply perm_swap | done].
Defined.
