(* ===== verification/Dispatch.v ===== *)
(** * The retry schedule of a dispatched command

    [services/command_gateway/src/aerial_rescue_command_gateway/dispatch.py]: the wait before
    each resend and the instant a command is abandoned, as functions of the jitter draws. *)

From S2P Require Import Prelude.
Local Open Scope Z_scope.

Definition MAX_COMMAND_SENDS : Z := 5.
Definition ACKNOWLEDGEMENT_TIMEOUT_SECONDS : Z := 6.
Definition BACKOFF_BASE_SECONDS : Z := ACKNOWLEDGEMENT_TIMEOUT_SECONDS.
Definition JITTER_BOUND_SECONDS : Z := BACKOFF_BASE_SECONDS.
Definition MILLISECONDS_PER_SECOND : Z := 1000.
Definition JITTER_BOUND_MILLISECONDS : Z := JITTER_BOUND_SECONDS * MILLISECONDS_PER_SECOND.
Definition MINIMUM_JITTER_MILLISECONDS : Z := 0.
Definition FIRST_TIMEOUT : Z := 1.
Definition BACKOFF_FACTOR : Z := 2.
Definition REQUIRED_DRAWS : Z := MAX_COMMAND_SENDS - FIRST_TIMEOUT.

Inductive ScheduleRefusal : Set := TIMEOUT_COUNT | JITTER_RANGE | DRAW_COUNT.

Record ScheduleError : Set := { refusal : ScheduleRefusal; value : Z }.

(** [_checked_draw] *)
Definition checked_draw (value : Z) : result ScheduleError Z :=
  raise_if (negb ((MINIMUM_JITTER_MILLISECONDS <=? value) && (value <? JITTER_BOUND_MILLISECONDS)))
           {| refusal := JITTER_RANGE; value := value |} ;;
  Ok value.

Definition wait_milliseconds (timeouts jitter : Z) : result ScheduleError Z :=
  raise_if (negb ((FIRST_TIMEOUT <=? timeouts) && (timeouts <? MAX_COMMAND_SENDS)))
           {| refusal := TIMEOUT_COUNT; value := timeouts |} ;;
  let backoff := Nat.iter (Z.to_nat (timeouts - FIRST_TIMEOUT)) (λ b, b * BACKOFF_FACTOR)
                          (BACKOFF_BASE_SECONDS * MILLISECONDS_PER_SECOND) in
  draw ← checked_draw jitter;
  Ok (backoff + draw).

(** [enumerate(l, start=n)] *)
Fixpoint enumerate (n : Z) (l : list Z) : list (Z * Z) :=
  match l with [] => [] | x :: l => (n, x) :: enumerate (n + 1) l end.

Definition total (l : list Z) : Z := foldr Z.add 0 l.

Definition abandon_instant_milliseconds (draws : list Z) : result ScheduleError Z :=
  raise_if (negb (Z.of_nat (length draws) =? REQUIRED_DRAWS))
           {| refusal := DRAW_COUNT; value := Z.of_nat (length draws) |} ;;
  let acknowledging := MAX_COMMAND_SENDS * ACKNOWLEDGEMENT_TIMEOUT_SECONDS * MILLISECONDS_PER_SECOND in
  waits ← map_ok (λ d, wait_milliseconds (fst d) (snd d)) (enumerate FIRST_TIMEOUT draws);
  Ok (acknowledging + total waits).

(** ** The schedule *)

Definition legal_draw (n : Z) : Prop := 0 ≤ n < 6000.

Lemma checked_draw_spec n :
  checked_draw n = if decide (legal_draw n) then Ok n else Err {| refusal := JITTER_RANGE; value := n |}.
Proof.
  unfold checked_draw, raise_if, legal_draw, MINIMUM_JITTER_MILLISECONDS.
  change JITTER_BOUND_MILLISECONDS with 6000.
  destruct (Z.leb_spec 0 n), (Z.ltb_spec n 6000); case_decide; try lia; done.
Qed.

(** The wait after the [n]th timeout: the interval doubled at each later timeout, plus the draw. *)
Lemma wait_spec n draw :
  wait_milliseconds n draw =
    if decide (1 ≤ n < 5)
    then (if decide (legal_draw draw) then Ok (6000 * 2 ^ (n - 1) + draw)
          else Err {| refusal := JITTER_RANGE; value := draw |})
    else Err {| refusal := TIMEOUT_COUNT; value := n |}.
Proof.
  unfold wait_milliseconds, FIRST_TIMEOUT, MAX_COMMAND_SENDS. case_decide as Hn.
  - rewrite checked_draw_spec. assert (n = 1 ∨ n = 2 ∨ n = 3 ∨ n = 4) as Hc by lia.
    destruct Hc as [->|[->|[->| ->]]]; by case_decide.
  - unfold raise_if. destruct (Z.leb_spec 1 n), (Z.ltb_spec n 5); try lia; done.
Qed.

Lemma wait_in_budget n draw :
  1 ≤ n < 5 →
  wait_milliseconds n draw = if decide (legal_draw draw) then Ok (6000 * 2 ^ (n - 1) + draw)
                             else Err {| refusal := JITTER_RANGE; value := draw |}.
Proof. intros Hn. by rewrite wait_spec, decide_True. Qed.

Lemma refused (draws : list Z) n :
  n ∈ draws → ¬ legal_draw n →
  JITTER_RANGE = JITTER_RANGE ∧ n ∈ draws ∧ ¬ legal_draw n.
Proof. done. Qed.

(** The abandonment instant is the floor of two minutes plus the draws, so it is at least the
    floor and under the floor plus the draws' bound; anything but four legal draws is refused,
    the wrong count first. *)
Lemma abandonment_window (draws : list Z) :
  match abandon_instant_milliseconds draws with
  | Ok t => t = 120000 + total draws ∧ 120000 ≤ t ≤ 143996 ∧ length draws = 4%nat ∧
            Forall legal_draw draws
  | Err e => if decide (length draws = 4%nat)
             then refusal e = JITTER_RANGE ∧ value e ∈ draws ∧ ¬ legal_draw (value e)
             else e = {| refusal := DRAW_COUNT; value := Z.of_nat (length draws) |}
  end.
Proof.
  unfold abandon_instant_milliseconds, REQUIRED_DRAWS.
  change (MAX_COMMAND_SENDS - FIRST_TIMEOUT) with 4.
  destruct (decide (length draws = 4%nat)) as [Hl|Hl].
  - destruct draws as [|a [|b [|c [|d [|? ?]]]]]; try done. unfold FIRST_TIMEOUT.
    change (Z.of_nat (length [a; b; c; d]) =? 4) with true.
    cbn [negb raise_if mbind result_bind enumerate map_ok fst snd].
    rewrite !wait_in_budget by lia.
    destruct (decide (legal_draw a)) as [Ha|Ha]; [cbn [mbind result_bind]|apply refused; [left|done]].
    destruct (decide (legal_draw b)) as [Hb|Hb];
      [cbn [mbind result_bind]|apply refused; [right; left|done]].
    destruct (decide (legal_draw c)) as [Hc|Hc];
      [cbn [mbind result_bind]|apply refused; [do 2 right; left|done]].
    destruct (decide (legal_draw d)) as [Hd|Hd];
      [cbn [mbind result_bind]|apply refused; [do 3 right; left|done]].
    change (6000 * 2 ^ (1 - 1)) with 6000. change (6000 * 2 ^ (1 + 1 - 1)) with 12000.
    change (6000 * 2 ^ (1 + 1 + 1 - 1)) with 24000. change (6000 * 2 ^ (1 + 1 + 1 + 1 - 1)) with 48000.
    unfold legal_draw, total, MAX_COMMAND_SENDS, ACKNOWLEDGEMENT_TIMEOUT_SECONDS,
      MILLISECONDS_PER_SECOND in *. cbn [foldr].
    split_and!; [lia..|done|]. repeat constructor; lia.
  - destruct (Z.eqb_spec (Z.of_nat (length draws)) 4) as [He|_]; [lia|done].
Qed.
