(* ===== verification/Policy.v ===== *)
(** * The gateway's policy answer

    [services/command_gateway/src/aerial_rescue_command_gateway/policy.py]: one validated request
    is answered from the operation table and the authority table, or refused by name.  The
    answer is always a document the requestor's own parser takes. *)

From S2P Require Import Prelude PyStr Regex PyVal Topics Rpc Authority.
Local Open Scope string_scope.

Definition AUTHORITY_NAMES : list (Authority * string) :=
  [(GATEWAY_POLICY, "gateway-policy"); (OPERATOR_APPROVAL, "operator-approval")].

(** [PolicyRefusal.UNKNOWN_OPERATION] and [UNKNOWN_COMMAND_TYPE]. *)
Inductive PolicyRefusal : Set := REFUSED_OPERATION | REFUSED_COMMAND_TYPE.

Definition policy_value (r : PolicyRefusal) : string :=
  match r with
  | REFUSED_OPERATION => "unknown-operation"
  | REFUSED_COMMAND_TYPE => "unknown-command-type"
  end.

(** [_refused] *)
Definition refused (r : GatewayRequest) (id : string) (why : PolicyRefusal) : GatewayResponse := {|
  Rpc.mission_id := request_mission_id r; Rpc.request_id := id;
  Rpc.operation := request_operation r; Rpc.command_type := request_command_type r;
  Rpc.outcome := REFUSED; Rpc.actuated := false; Rpc.authority := None;
  Rpc.refusal := Some (policy_value why)
|}.

(** [None] is the [KeyError] of a table without the entry. *)
Definition answer (r : GatewayRequest) (id : string) : option GatewayResponse :=
  match operation (PyStr (request_operation r)) with
  | Err _ => Some (refused r id REFUSED_OPERATION)
  | Ok requested =>
      match command_type (PyStr (request_command_type r)) with
      | Err _ => Some (refused r id REFUSED_COMMAND_TYPE)
      | Ok commanded =>
          acted ← actuates requested;
          owner ← authority_for commanded;
          name ← dict_get AUTHORITY_NAMES owner;
          Some {| Rpc.mission_id := request_mission_id r; Rpc.request_id := id;
                  Rpc.operation := request_operation r; Rpc.command_type := request_command_type r;
                  Rpc.outcome := ANSWERED; Rpc.actuated := acted; Rpc.authority := Some name;
                  Rpc.refusal := None |}
      end
  end.

(** ** The answer parses *)

Definition of_form (rule : re * nat) (s : string) : Prop :=
  (char_len s ≤ rule.2)%nat ∧ fullmatch rule.1 s = true.

Lemma rpc_text_form d name rule s :
  get d name = PyStr s → of_form rule s → rpc_text d name rule = Ok s.
Proof.
  unfold rpc_text. intros -> [Hl Hm]. rewrite Hm. by destruct (Nat.ltb_spec rule.2 (char_len s)); [lia|].
Qed.

Lemma rpc_text_inv d name rule s : rpc_text d name rule = Ok s → of_form rule s.
Proof.
  unfold rpc_text. destruct (get d name); try done. case_match eqn:E; [done|].
  intros [= <-]. apply orb_false_iff in E as [E1 E2]. apply negb_false_iff in E2.
  split; [by apply Nat.ltb_ge in E1|done].
Qed.

(** A request of the closed form. *)
Definition request_formed (r : GatewayRequest) : Prop :=
  of_form IDENTIFIER_RULE (request_mission_id r) ∧ of_form KIND_RULE (request_operation r) ∧
  of_form KIND_RULE (request_command_type r).

Lemma parsed_request_formed v r : parse_gateway_request v = Ok r → request_formed r.
Proof.
  unfold parse_gateway_request, rpc_texts. intros Hp. run_ok.
  cbn [map_ok REQUEST_TEXT_RULES] in *. unfold named_text in *. run_ok. subst. cbn [fst snd] in *.
  repeat match goal with H : rpc_text _ _ _ = Ok _ |- _ => apply rpc_text_inv in H end.
  split; [done|split; done].
Qed.

(** The outcome binds exactly one of the two optional members. *)
Definition response_formed (r : GatewayResponse) : Prop :=
  of_form IDENTIFIER_RULE (Rpc.mission_id r) ∧ of_form IDENTIFIER_RULE (Rpc.request_id r) ∧
  of_form KIND_RULE (Rpc.operation r) ∧ of_form KIND_RULE (Rpc.command_type r) ∧
  match Rpc.outcome r with
  | ANSWERED => (∃ a, Rpc.authority r = Some a ∧ of_form KIND_RULE a) ∧ Rpc.refusal r = None
  | REFUSED => (∃ a, Rpc.refusal r = Some a ∧ of_form KIND_RULE a) ∧ Rpc.authority r = None
  end.

Lemma named_text_form d name rule s :
  get d name = PyStr s → of_form rule s → named_text d (name, rule) = Ok (name, s).
Proof. intros Hg Hs. unfold named_text. cbn [fst snd]. by rewrite (rpc_text_form _ _ _ _ Hg Hs). Qed.

Lemma formed_response_parses r :
  response_formed r → parse_gateway_response (PyDict (gateway_response_document r)) = Ok r.
Proof.
  destruct r as [m i o c out acted a f]. intros (Hm&Hi&Ho&Hc&Hb). cbn in Hm, Hi, Ho, Hc, Hb.
  set (d := gateway_response_document _).
  assert (Ht : rpc_texts d RESPONSE_TEXT_RULES =
    Ok [("missionId", m); ("requestId", i); ("operation", o); ("commandType", c)]).
  { unfold rpc_texts. change (check_version d) with (Ok (E := rpc_failure) tt). cbn [mbind result_bind].
    apply map_ok_Forall2. repeat constructor; by apply named_text_form. }
  unfold parse_gateway_response. replace (closed_members _ _ _ _) with (Ok (E := rpc_failure) d)
    by (subst d; by destruct out; destruct Hb as ((x&->&_)&->)).
  cbn [mbind result_bind]. rewrite Ht. cbn [mbind result_bind].
  destruct out; destruct Hb as ((x&->&Hx)&->).
  - assert (rpc_optionals d = Ok [("authority", x)]) as ->
      by (apply map_ok_Forall2; repeat constructor; by apply named_text_form). reflexivity.
  - assert (rpc_optionals d = Ok [("refusal", x)]) as ->
      by (apply map_ok_Forall2; repeat constructor; by apply named_text_form). reflexivity.
Qed.

(** The answers. *)
Inductive policy_answer (r : GatewayRequest) (id : string) : GatewayResponse → Prop :=
| Answered c name :
    request_operation r = operation_kind COMMAND_AUTHORITY →
    request_command_type r = command_value c →
    (authority_for c ≫= dict_get AUTHORITY_NAMES) = Some name →
    policy_answer r id {|
      Rpc.mission_id := request_mission_id r; Rpc.request_id := id;
      Rpc.operation := request_operation r; Rpc.command_type := request_command_type r;
      Rpc.outcome := ANSWERED; Rpc.actuated := false; Rpc.authority := Some name; Rpc.refusal := None |}
| UnknownOperation :
    request_operation r ≠ operation_kind COMMAND_AUTHORITY →
    policy_answer r id (refused r id REFUSED_OPERATION)
| UnknownCommandType :
    request_operation r = operation_kind COMMAND_AUTHORITY →
    (∀ c, request_command_type r ≠ command_value c) →
    policy_answer r id (refused r id REFUSED_COMMAND_TYPE).

Lemma answer_total r id : ∃ a, answer r id = Some a ∧ policy_answer r id a.
Proof.
  unfold answer.
  destruct (operation (PyStr (request_operation r))) as [o|e] eqn:Ho.
  - assert (request_operation r = operation_kind COMMAND_AUTHORITY) as Hk.
    { unfold operation in Ho. cbn in Ho. case_decide; [done|discriminate Ho]. }
    destruct (command_type (PyStr (request_command_type r))) as [c|e] eqn:Hc.
    + apply command_type_Ok in Hc. injection Hc as Hc. destruct o.
      destruct c; (eexists; split; [reflexivity|]); by eapply Answered.
    + eexists. split; [reflexivity|]. apply UnknownCommandType; [done|].
      intros c Hv. rewrite Hv in Hc. by rewrite (proj2 (command_type_Ok _ c) eq_refl) in Hc.
  - eexists. split; [reflexivity|]. apply UnknownOperation. intros Hk. by rewrite Hk in Ho.
Qed.

Lemma policy_value_form why : of_form KIND_RULE (policy_value why).
Proof. destruct why; (split; [by apply Nat.leb_le|by vm_compute]). Qed.

Lemma authority_name_form c name :
  (authority_for c ≫= dict_get AUTHORITY_NAMES) = Some name → of_form KIND_RULE name.
Proof. destruct c; intros [= <-]; (split; [by apply Nat.leb_le|by vm_compute]). Qed.

(** Every request the gateway's parser takes is answered: the answer echoes the request, never
    actuates, names the authority of the command type or the one name it does not know, and is
    itself a document the requestor's parser takes and reads back. *)
Lemma policy_answers (v : pyval) (r : GatewayRequest) (id : string)
    (Hr : parse_gateway_request v = Ok r) (Hid : of_form IDENTIFIER_RULE id) :
  ∃ a, answer r id = Some a ∧ policy_answer r id a ∧ Rpc.actuated a = false ∧
       parse_gateway_response (PyDict (gateway_response_document a)) = Ok a.
Proof.
  destruct (answer_total r id) as (a&Ha&Hp). exists a. split; [done|]. split; [done|].
  apply parsed_request_formed in Hr as (Hm&Ho&Hc).
  split; [by destruct Hp|]. apply formed_response_parses.
  destruct Hp as [c name _ _ Hn| |]; (split; [done|]); (split; [done|]); (split; [done|]);
    (split; [done|]); (split; [|done]); eexists; (split; [reflexivity|]);
    eauto using authority_name_form, policy_value_form.
Qed.

Lemma policy_answers_witness :
  ∃ a, answer {| request_mission_id := "mission-1"; request_operation := "command-authority";
                 request_command_type := "escalate-rescue" |} "request-1" = Some a ∧
       Rpc.authority a = Some "operator-approval" ∧ Rpc.actuated a = false.
Proof.
  edestruct (policy_answers (PyDict (gateway_request_document
    {| request_mission_id := "mission-1"; request_operation := "command-authority";
       request_command_type := "escalate-rescue" |})) _ "request-1" ltac:(vm_compute; reflexivity))
    as (a&Ha&_&Hf&_).
  - split; [vm_compute; lia|vm_compute; reflexivity].
  - exists a. split; [exact Ha|]. split; [|exact Hf]. vm_compute in Ha. by injection Ha as <-.
Defined.
