(* ===== verification/Ingress.v ===== *)
(** * Command-gateway ingress

    [services/command_gateway/src/aerial_rescue_command_gateway/ingress.py]: a delivery becomes
    one of five authorized documents or a closed refusal.  The payload models are declared with
    pydantic; [PayloadModels] is that library's validator of each model, and [strict_models] the
    closed strict reading of the declared fields. *)

From S2P Require Import Prelude PyStr Regex PyVal Canonical JsonBytes Topics Envelope Rpc Integration.
Local Open Scope string_scope.
Local Open Scope Z_scope.

(** ** The payload models *)

Record AssignSectorAction : Set := { assigned_drone : string; sector_id : string }.

Record EscalateRescueAction : Set := {
  drone_id : string; proposal_id : string; proposal_digest : string; proposal_version : Z;
  evidence_decision_id : string; evidence_decision_digest : string; evidence_decision_version : Z;
  latitude_microdegrees : Z; longitude_microdegrees : Z
}.

Inductive OperatorAction : Set :=
| AssignSector (a : AssignSectorAction)
| EscalateRescue (a : EscalateRescueAction).

(** The [command_type] literal of each action model. *)
Definition command_type_of (a : OperatorAction) : string :=
  match a with AssignSector _ => "assign-sector" | EscalateRescue _ => "escalate-rescue" end.

Definition drone_of (a : OperatorAction) : string :=
  match a with AssignSector a => assigned_drone a | EscalateRescue a => drone_id a end.

Record OperatorCommandPayload : Set := {
  mission_id : string; command_id : string; operator_id : string; action : OperatorAction
}.

Record ApprovalAction : Set := {
  rescue_drone : string; rescue_latitude : Z; rescue_longitude : Z
}.

Record OperatorApprovalPayload : Set := {
  approval_mission : string; approval_id : string; approval_operator : string; decision : string;
  issued_at : string; expires_at : option string; approved_proposal : string;
  approved_digest : string; approved_version : Z; approved_evidence : string;
  approved_evidence_digest : string; approved_evidence_version : Z; approved_action : ApprovalAction
}.

Record CommandResultPayload : Set := {
  result_mission : string; result_drone : string; result_command : string; outcome : string
}.

#[export] Instance ApprovalAction_eq_dec : EqDecision ApprovalAction.
Proof. solve_decision. Defined.

(** [model_validate(..., strict=True)] of each model; [None] is a [ValidationError]. *)
Class PayloadModels := {
  operator_command : members → option OperatorCommandPayload;
  operator_approval : members → option OperatorApprovalPayload;
  command_result : members → option CommandResultPayload;
  approval_action : pyval → option ApprovalAction
}.

(** ** The declared fields, read strictly *)

Definition field_text (d : members) (name : string) (p : re) (bound : nat) : option string :=
  match member d name with
  | Some (PyStr s) => if fullmatch p s && (char_len s <=? bound)%nat then Some s else None
  | _ => None
  end.

Definition field_int (d : members) (name : string) (lo hi : Z) : option Z :=
  match member d name with
  | Some (PyInt n) => if (lo <=? n) && (n <=? hi) then Some n else None
  | _ => None
  end.

Definition field_literal (d : members) (name : string) (values : list string) : option string :=
  match member d name with
  | Some (PyStr s) => if bool_decide (s ∈ values) then Some s else None
  | _ => None
  end.

(** [extra="forbid"] *)
Definition only (names : list string) (d : members) : option unit :=
  if forallb (key_in names) d.*1 then Some tt else None.

Definition DIGEST_FORM : re := rep 64 (RChr is_lower_hex).
Definition identifier (d : members) (name : string) : option string :=
  field_text d name IDENTIFIER_PATTERN 64.
Definition digest_text (d : members) (name : string) : option string := field_text d name DIGEST_FORM 64.
Definition one (d : members) (name : string) : option Z := field_int d name 1 1.
Definition latitude (d : members) : option Z :=
  field_int d "latitudeMicrodegrees" (-90000000) 90000000.
Definition longitude (d : members) : option Z :=
  field_int d "longitudeMicrodegrees" (-180000000) 180000000.

Definition read_assign (d : members) : option AssignSectorAction :=
  only ["commandType"; "droneId"; "sectorId"] d ≫= λ _,
  field_literal d "commandType" ["assign-sector"] ≫= λ _,
  drone ← identifier d "droneId"; sector ← identifier d "sectorId";
  Some {| assigned_drone := drone; sector_id := sector |}.

Definition read_escalate (d : members) : option EscalateRescueAction :=
  only ["commandType"; "droneId"; "proposalId"; "proposalDigest"; "proposalVersion";
        "evidenceDecisionId"; "evidenceDecisionDigest"; "evidenceDecisionVersion";
        "latitudeMicrodegrees"; "longitudeMicrodegrees"] d ≫= λ _,
  field_literal d "commandType" ["escalate-rescue"] ≫= λ _,
  drone ← identifier d "droneId"; p ← identifier d "proposalId";
  pd ← digest_text d "proposalDigest"; pv ← one d "proposalVersion";
  e ← identifier d "evidenceDecisionId"; ed ← digest_text d "evidenceDecisionDigest";
  ev ← one d "evidenceDecisionVersion"; lat ← latitude d; lon ← longitude d;
  Some {| drone_id := drone; proposal_id := p; proposal_digest := pd; proposal_version := pv;
          evidence_decision_id := e; evidence_decision_digest := ed;
          evidence_decision_version := ev; latitude_microdegrees := lat;
          longitude_microdegrees := lon |}.

Definition read_action (v : option pyval) : option OperatorAction :=
  match v with
  | Some (PyDict d) =>
      match read_assign d with
      | Some a => Some (AssignSector a)
      | None => EscalateRescue <$> read_escalate d
      end
  | _ => None
  end.

Definition read_command (d : members) : option OperatorCommandPayload :=
  only ["operatorCommandVersion"; "missionId"; "commandId"; "operatorId"; "action"] d ≫= λ _,
  one d "operatorCommandVersion" ≫= λ _,
  m ← identifier d "missionId"; c ← identifier d "commandId"; o ← identifier d "operatorId";
  a ← read_action (member d "action");
  Some {| mission_id := m; command_id := c; operator_id := o; action := a |}.

Definition read_approval_action (v : pyval) : option ApprovalAction :=
  match v with
  | PyDict d =>
      only ["commandType"; "droneId"; "latitudeMicrodegrees"; "longitudeMicrodegrees"] d ≫= λ _,
      field_literal d "commandType" ["escalate-rescue"] ≫= λ _,
      drone ← identifier d "droneId"; lat ← latitude d; lon ← longitude d;
      Some {| rescue_drone := drone; rescue_latitude := lat; rescue_longitude := lon |}
  | _ => None
  end.

(** The instant pattern of the models, which accepts the year 0000. *)
Definition INSTANT_FORM : re :=
  seqs [rep 4 (RChr is_digit); lit "-"; Instant.MONTH; lit "-"; Instant.DAY; lit "T"; Instant.HOUR;
        lit ":"; Instant.SIXTY; lit ":"; Instant.SIXTY; lit "."; rep 3 (RChr is_digit); lit "Z"].

Definition read_expiry (d : members) : option (option string) :=
  match member d "expiresAt" with
  | None | Some PyNone => Some None
  | Some _ => Some <$> field_text d "expiresAt" INSTANT_FORM 24
  end.

(** [_bind_expiry_to_decision] *)
Definition bind_expiry_to_decision (decision : string) (expiry : option string) : option unit :=
  if Bool.eqb (bool_decide (decision = "approve")) (bool_decide (expiry ≠ None)) then Some tt else None.

Definition read_approval (d : members) : option OperatorApprovalPayload :=
  only ["operatorApprovalVersion"; "missionId"; "approvalId"; "operatorId"; "decision"; "issuedAt";
        "expiresAt"; "proposalId"; "proposalDigest"; "proposalVersion"; "evidenceDecisionId";
        "evidenceDecisionDigest"; "evidenceDecisionVersion"; "action"] d ≫= λ _,
  one d "operatorApprovalVersion" ≫= λ _,
  m ← identifier d "missionId"; i ← identifier d "approvalId"; o ← identifier d "operatorId";
  dec_ ← field_literal d "decision" ["approve"; "reject"];
  issued ← field_text d "issuedAt" INSTANT_FORM 24; expiry ← read_expiry d;
  p ← identifier d "proposalId"; pd ← digest_text d "proposalDigest"; pv ← one d "proposalVersion";
  e ← identifier d "evidenceDecisionId"; ed ← digest_text d "evidenceDecisionDigest";
  ev ← one d "evidenceDecisionVersion";
  a ← member d "action" ≫= read_approval_action;
  bind_expiry_to_decision dec_ expiry ≫= λ _,
  Some {| approval_mission := m; approval_id := i; approval_operator := o; decision := dec_;
          issued_at := issued; expires_at := expiry; approved_proposal := p; approved_digest := pd;
          approved_version := pv; approved_evidence := e; approved_evidence_digest := ed;
          approved_evidence_version := ev; approved_action := a |}.

Definition read_result (d : members) : option CommandResultPayload :=
  only ["missionId"; "droneId"; "commandId"; "outcome"] d ≫= λ _,
  m ← identifier d "missionId"; drone ← identifier d "droneId"; c ← identifier d "commandId";
  o ← field_literal d "outcome" ["acknowledged"; "succeeded"; "failed"];
  Some {| result_mission := m; result_drone := drone; result_command := c; outcome := o |}.

Definition strict_models : PayloadModels := {|
  operator_command := read_command; operator_approval := read_approval;
  command_result := read_result; approval_action := read_approval_action
|}.

(** A validated field matches its declared pattern: what later code relies on of a result. *)
Class LawfulModels `{PayloadModels} := {
  declared_command_id d p :
    command_result d = Some p → fullmatch IDENTIFIER_PATTERN (result_command p) = true;
  declared_proposal_id d p a :
    operator_command d = Some p → action p = EscalateRescue a → fullmatch IDENTIFIER_PATTERN (proposal_id a) = true
}.

(** What [identifier] reads matches its pattern. *)
Lemma identifier_matches d name s : identifier d name = Some s → fullmatch IDENTIFIER_PATTERN s = true.
Proof.
  unfold identifier, field_text. destruct (member d name) as [[]|]; try done.
  destruct (fullmatch _ _ && _) eqn:Hb; [|done]. intros [= <-]. by apply andb_true_iff in Hb as [Hb _].
Qed.

#[export] Instance strict_models_lawful : LawfulModels (H := strict_models).
Proof.
  constructor.
  - intros d p Hp. cbn [command_result strict_models] in Hp. unfold read_result in Hp.
    repeat (apply bind_Some in Hp as (?&?&Hp)). injection Hp as <-. cbn [result_command].
    by eapply identifier_matches.
  - intros d p a Hp Ha. cbn [operator_command strict_models] in Hp. unfold read_command in Hp.
    repeat (apply bind_Some in Hp as (?&?&Hp)). injection Hp as <-. cbn [action] in Ha. subst.
    match goal with H : read_action _ = Some _ |- _ => rename H into Hr end. unfold read_action in Hr.
    destruct (member d "action") as [[]|]; try done. destruct (read_assign _); [done|].
    apply fmap_Some in Hr as (e&He&[= <-]). unfold read_escalate in He.
    repeat (apply bind_Some in He as (?&?&He)). injection He as <-. cbn [proposal_id].
    by eapply identifier_matches.
Qed.

(** ** Accepted documents *)

Record OperatorCommandIngress : Set := {
  command_topic : Topic; command_envelope : Envelope; command_payload : OperatorCommandPayload
}.
Record OperatorApprovalIngress : Set := {
  approval_topic : Topic; approval_envelope : Envelope; approval_payload : OperatorApprovalPayload
}.
Record CommandResultIngress : Set := {
  result_topic : Topic; result_envelope : Envelope; result_payload : CommandResultPayload
}.
Record GatewayRequestIngress : Set := { request_topic : Topic; request : GatewayRequest }.
Record AgentResponseIngress : Set := { response_topic : Topic; response : AgentResponse }.

Inductive AcceptedIngress : Set :=
| AcceptedCommand (i : OperatorCommandIngress)
| AcceptedApproval (i : OperatorApprovalIngress)
| AcceptedResult (i : CommandResultIngress)
| AcceptedRequest (i : GatewayRequestIngress)
| AcceptedResponse (i : AgentResponseIngress).

Inductive IngressRefusal : Set := TOPIC | UNAUTHORIZED_FAMILY | ENVELOPE | PAYLOAD | BINDING.

(** A closed refusal, or the [KeyError] of a lookup, which is no [ValueError]. *)
Inductive ingress_failure : Set :=
| IngressError (refusal : IngressRefusal)
| KeyError (name : string).

Definition refuse {A} (r : IngressRefusal) : result ingress_failure A := Err (IngressError r).

(** What [except ValueError] leaves of each failure. *)
Definition topic_lookup (e : topic_failure) : option string :=
  match e with Topics.KeyError n => Some n | _ => None end.
Definition envelope_lookup (e : envelope_failure) : option string :=
  match e with
  | Envelope.KeyError n => Some n
  | TopicFailure e => topic_lookup e
  | _ => None
  end.
Definition rpc_lookup (e : rpc_failure) : option string :=
  match e with Rpc.KeyError n => Some n | _ => None end.

Definition caught (r : IngressRefusal) (escaped : option string) : ingress_failure :=
  match escaped with Some n => KeyError n | None => IngressError r end.

Section ingress.
Context `{Normalization} `{PayloadModels} (limit : nat).

(** [_topic] *)
Definition ingress_topic (text : pyval) : result ingress_failure Topic :=
  map_err (λ e, caught TOPIC (topic_lookup e)) (parse_topic text).

(** [decode_envelope] of the delivered bytes *)
Definition decode_delivered (raw : string) : result envelope_failure Envelope :=
  v ← map_err Envelope.Undecodable (decode_bytes limit raw); parse_envelope v.

(** [_envelope] *)
Definition ingress_envelope (raw : string) (t : Topic) : result ingress_failure Envelope :=
  map_err (λ e, caught ENVELOPE (envelope_lookup e))
    (e ← decode_delivered raw; check_topic_binding e t ;; Ok e).

(** [_payload] *)
Definition ingress_payload {P} (model : members → option P) (e : Envelope) : result ingress_failure P :=
  or_raise (model (data e)) (IngressError PAYLOAD).

Definition accept_operator_command (raw : string) (t : Topic) : result ingress_failure AcceptedIngress :=
  e ← ingress_envelope raw t;
  p ← ingress_payload operator_command e;
  Ok (AcceptedCommand {| command_topic := t; command_envelope := e; command_payload := p |}).

Definition accept_operator_approval (raw : string) (t : Topic) : result ingress_failure AcceptedIngress :=
  e ← ingress_envelope raw t;
  p ← ingress_payload operator_approval e;
  Ok (AcceptedApproval {| approval_topic := t; approval_envelope := e; approval_payload := p |}).

Definition accept_command_result (raw : string) (t : Topic) : result ingress_failure AcceptedIngress :=
  e ← ingress_envelope raw t;
  p ← ingress_payload command_result e;
  Ok (AcceptedResult {| result_topic := t; result_envelope := e; result_payload := p |}).

(** [topic.parameters["operation"]]: a gateway-request topic always has it. *)
Definition accept_gateway_request (raw : string) (t : Topic) : result ingress_failure AcceptedIngress :=
  r ← map_err (λ e, caught PAYLOAD (rpc_lookup e))
        (v ← map_err Rpc.Undecodable (decode_bytes limit raw); parse_gateway_request v);
  if negb (bool_decide (request_mission_id r = Topics.mission_id t)) then refuse BINDING else
  operation ← or_raise (dict_get (parameters t) "operation") (KeyError "operation");
  raise_if (negb (bool_decide (request_operation r = operation))) (IngressError BINDING) ;;
  Ok (AcceptedRequest {| request_topic := t; request := r |}).

Definition accept_agent_response (raw : string) (t : Topic) : result ingress_failure AcceptedIngress :=
  r ← map_err (λ _, IngressError PAYLOAD)
        (v ← map_err Integration.Undecodable (decode_bytes limit raw); parse_agent_response v);
  map_err (λ _, IngressError BINDING) (check_agent_response_topic r t) ;;
  Ok (AcceptedResponse {| response_topic := t; response := r |}).

(** The families this service may receive. *)
Definition handlers : list (Family * (string → Topic → result ingress_failure AcceptedIngress)) :=
  [(OPERATOR_COMMAND, accept_operator_command); (OPERATOR_APPROVAL, accept_operator_approval);
   (DRONE_COMMAND_RESULT, accept_command_result); (GATEWAY_REQUEST, accept_gateway_request);
   (AGENT_RESPONSE, accept_agent_response)].

Definition accept_ingress (raw : string) (topic_text : pyval) : result ingress_failure AcceptedIngress :=
  t ← ingress_topic topic_text;
  match dict_get handlers (family t) with
  | None => refuse UNAUTHORIZED_FAMILY
  | Some handler => handler raw t
  end.
End ingress.

(** ** What an accepted document is *)

Section authority.
Context `{Normalization} `{PayloadModels} (limit : nat).

(** The envelope the bytes decode to, belonging on the topic, with its payload. *)
Definition carries {P} (raw : string) (t : Topic) (e : Envelope) (model : members → option P) (p : P)
    : Prop :=
  decode_delivered limit raw = Ok e ∧ check_topic_binding e t = Ok tt ∧ model (data e) = Some p.

Definition accepted_from (raw : string) (t : Topic) (i : AcceptedIngress) : Prop :=
  match i with
  | AcceptedCommand i =>
      family t = OPERATOR_COMMAND ∧ command_topic i = t ∧
      carries raw t (command_envelope i) operator_command (command_payload i)
  | AcceptedApproval i =>
      family t = OPERATOR_APPROVAL ∧ approval_topic i = t ∧
      carries raw t (approval_envelope i) operator_approval (approval_payload i)
  | AcceptedResult i =>
      family t = DRONE_COMMAND_RESULT ∧ result_topic i = t ∧
      carries raw t (result_envelope i) command_result (result_payload i)
  | AcceptedRequest i =>
      family t = GATEWAY_REQUEST ∧ request_topic i = t ∧
      (∃ v, decode_bytes limit raw = Ok v ∧ parse_gateway_request v = Ok (request i)) ∧
      request_mission_id (request i) = Topics.mission_id t ∧
      dict_get (parameters t) "operation" = Some (request_operation (request i))
  | AcceptedResponse i =>
      family t = AGENT_RESPONSE ∧ response_topic i = t ∧
      (∃ v, decode_bytes limit raw = Ok v ∧ parse_agent_response v = Ok (response i)) ∧
      check_agent_response_topic (response i) t = Ok tt
  end.

Lemma carries_Ok {P} raw t e (model : members → option P) p :
  ingress_envelope limit raw t = Ok e → ingress_payload model e = Ok p → carries raw t e model p.
Proof.
  unfold ingress_envelope, ingress_payload. rewrite map_err_Ok, or_raise_Ok. intros He Hp.
  run_ok. subst. unfold carries. by split_and!.
Qed.

Lemma operator_command_from raw t i :
  family t = OPERATOR_COMMAND → accept_operator_command limit raw t = Ok i → accepted_from raw t i.
Proof. intros Hf Hi. unfold accept_operator_command in Hi. run_ok. subst. split_and!; [done..|]. by apply carries_Ok. Qed.

Lemma operator_approval_from raw t i :
  family t = OPERATOR_APPROVAL → accept_operator_approval limit raw t = Ok i → accepted_from raw t i.
Proof. intros Hf Hi. unfold accept_operator_approval in Hi. run_ok. subst. split_and!; [done..|]. by apply carries_Ok. Qed.

Lemma command_result_from raw t i :
  family t = DRONE_COMMAND_RESULT → accept_command_result limit raw t = Ok i → accepted_from raw t i.
Proof. intros Hf Hi. unfold accept_command_result in Hi. run_ok. subst. split_and!; [done..|]. by apply carries_Ok. Qed.

Lemma gateway_request_from raw t i :
  family t = GATEWAY_REQUEST → accept_gateway_request limit raw t = Ok i → accepted_from raw t i.
Proof.
  intros Hf Hi. unfold accept_gateway_request in Hi. run_ok.
  destruct (negb _) eqn:Em in *; [done|]. run_ok. subst. bools. subst.
  split_and!; [done|done| |done|done]. eauto.
Qed.

Lemma agent_response_from raw t i :
  family t = AGENT_RESPONSE → accept_agent_response limit raw t = Ok i → accepted_from raw t i.
Proof.
  intros Hf Hi. unfold accept_agent_response in Hi. run_ok. subst. split_and!; [done|done|eauto|done].
Qed.

(** Every accepted document comes from the one handler of its topic's family. *)
Lemma accepted_topic raw t handler i :
  dict_get (handlers limit) (family t) = Some handler → handler raw t = Ok i → accepted_from raw t i.
Proof.
  unfold handlers. cbn [dict_get]. intros Hh.
  repeat case_decide; try done; injection Hh as <-;
    eauto using operator_command_from, operator_approval_from, command_result_from,
      gateway_request_from, agent_response_from.
Qed.

Lemma accept_ingress_from raw text i :
  accept_ingress limit raw text = Ok i → ∃ t, parse_topic text = Ok t ∧ accepted_from raw t i.
Proof.
  unfold accept_ingress, ingress_topic. intros (t&Ht&Hi)%bind_Ok. apply map_err_Ok in Ht.
  exists t. split; [done|]. destruct (dict_get (handlers limit) (family t)) as [handler|] eqn:Hh; [|done].
  by eapply accepted_topic.
Qed.

(** Broker input crosses the gateway's boundary only as a document of its topic's family that
    decodes, validates and belongs on that topic, and a topic of any other family is refused
    whatever its bytes: the agent proposals this service itself publishes among them. *)
Lemma ingress_authority (raw : string) (text : pyval) (t : Topic) (Ht : parse_topic text = Ok t) :
  (∀ i, accept_ingress limit raw text = Ok i → accepted_from raw t i) ∧
  (family t ∉ dict_keys (handlers limit) →
   accept_ingress limit raw text = Err (IngressError UNAUTHORIZED_FAMILY)) ∧
  AGENT_PROPOSAL ∉ dict_keys (handlers limit).
Proof.
  unfold accept_ingress, ingress_topic. rewrite Ht. cbn [map_err mbind result_bind].
  split_and!.
  - intros i. destruct (dict_get (handlers limit) (family t)) as [handler|] eqn:Hh; [|done].
    by apply accepted_topic.
  - by intros ->%dict_get_None.
  - by apply dict_get_None.
Qed.
End authority.

(** A delivered command, and a document on a topic of its own. *)
Definition sample_action : members :=
  [(KStr "commandType", PyStr "assign-sector"); (KStr "droneId", PyStr "drone-1");
   (KStr "sectorId", PyStr "sector-1")].

Definition sample_command : members :=
  [(KStr "operatorCommandVersion", PyInt 1); (KStr "missionId", PyStr "mission-1");
   (KStr "commandId", PyStr "command-1"); (KStr "operatorId", PyStr "operator-1");
   (KStr "action", PyDict sample_action)].

Definition sample_notification : Envelope :=
  {| Envelope.id := "event-1"; Envelope.source := "urn:aerial-rescue:dashboard-api:api-1";
     Envelope.type := "aerial-rescue.v1.operator.command.assign-sector"; Envelope.subject := "mission-1";
     Envelope.time := "2026-07-28T09:00:00.000Z";
     Envelope.dataschema := "https://aerial-rescue.invalid/schemas/v1/payload/operator-command.schema.json";
     Envelope.sequence := "000000000000007"; Envelope.correlation_id := "trace-1";
     Envelope.traceparent := "00-0af7651916cd43dd8448eb211c80319c-b7ad6b7169203331-01";
     Envelope.data := sample_command; Envelope.causation_id := None; Envelope.tracestate := None |}.

Definition sample_destination : pyval :=
  PyStr "aerial-rescue/v1/mission-1/operator/command/assign-sector".

Definition sample_bytes : string :=
  default "" (ok_value (canonical_bytes (H := ascii_normalization) (PyDict (envelope_document sample_notification)))).

Definition sample_topic : Topic :=
  {| family := OPERATOR_COMMAND; Topics.mission_id := "mission-1"; parameters := [("commandType", "assign-sector")] |}.

Lemma ingress_authority_witness :
  ∃ i, accept_ingress (H := ascii_normalization) (H0 := strict_models) 4300 sample_bytes sample_destination = Ok i ∧
       accepted_from (H := ascii_normalization) (H0 := strict_models) 4300 sample_bytes sample_topic i.
Proof.
  eexists. match goal with |- ?P ∧ _ => assert (Hi : P) by (vm_compute; reflexivity) end.
  split; [exact Hi|].
  exact (proj1 (ingress_authority (H := ascii_normalization) (H0 := strict_models) 4300 sample_bytes
    sample_destination sample_topic eq_refl) _ Hi).
Defined.
