(* ===== verification/DroneCommand.v ===== *)
(** * A drone's commands and its answers

    [services/fleet_simulator/src/aerial_rescue_fleet_simulator]: what a drone accepts off its
    own queue ([intake.py]), the half of the dispatch protocol it may move ([protocol.py]), and
    the result event it answers with ([results.py]).  The payload models are declared with
    pydantic: [CommandModels] is that library's validator of the two branches, and
    [strict_branches] the closed strict reading of their declared fields. *)

From S2P Require Import Prelude PyStr Regex PyVal Canonical JsonBytes Commands Topics Envelope Authority Ingress.
Local Open Scope string_scope.
Local Open Scope Z_scope.

(** The CloudEvents source of one simulated drone. *)
Definition event_source (drone : string) : string := join ":" ["urn"; TOPIC_NAMESPACE_ROOT; "drone"; drone].

(** ** Intake *)

Record AssignSectorPayload : Set := {
  assign_mission : string; assign_drone : string; assign_command : string; assign_sector : string
}.

Record EscalateRescuePayload : Set := {
  escalate_mission : string; escalate_drone : string; escalate_command : string;
  escalate_approval : string; escalate_proposal : string; escalate_digest : string;
  escalate_version : Z; escalate_evidence : string; escalate_evidence_digest : string;
  escalate_evidence_version : Z; escalate_latitude : Z; escalate_longitude : Z
}.

(** [model_validate] of each branch; [None] is a [ValidationError]. *)
Class CommandModels := {
  assign_branch : members → option AssignSectorPayload;
  escalate_branch : members → option EscalateRescuePayload
}.

(** ** The declared fields, read strictly *)

Definition read_assign_payload (d : members) : option AssignSectorPayload :=
  only ["missionId"; "droneId"; "commandId"; "sectorId"] d ≫= λ _,
  m ← identifier d "missionId"; x ← identifier d "droneId"; c ← identifier d "commandId";
  s ← identifier d "sectorId";
  Some {| assign_mission := m; assign_drone := x; assign_command := c; assign_sector := s |}.

Definition read_escalate_payload (d : members) : option EscalateRescuePayload :=
  only ["missionId"; "droneId"; "commandId"; "approvalId"; "proposalId"; "proposalDigest";
        "proposalVersion"; "evidenceDecisionId"; "evidenceDecisionDigest";
        "evidenceDecisionVersion"; "latitudeMicrodegrees"; "longitudeMicrodegrees"] d ≫= λ _,
  m ← identifier d "missionId"; x ← identifier d "droneId"; c ← identifier d "commandId";
  a ← identifier d "approvalId"; p ← identifier d "proposalId"; pd ← digest_text d "proposalDigest";
  pv ← one d "proposalVersion"; e ← identifier d "evidenceDecisionId";
  ed ← digest_text d "evidenceDecisionDigest"; ev ← one d "evidenceDecisionVersion";
  lat ← latitude d; lon ← longitude d;
  Some {| escalate_mission := m; escalate_drone := x; escalate_command := c; escalate_approval := a;
          escalate_proposal := p; escalate_digest := pd; escalate_version := pv;
          escalate_evidence := e; escalate_evidence_digest := ed; escalate_evidence_version := ev;
          escalate_latitude := lat; escalate_longitude := lon |}.

Definition strict_branches : CommandModels :=
  {| assign_branch := read_assign_payload; escalate_branch := read_escalate_payload |}.

(** What later code relies on of a validated payload. *)
Class LawfulBranches `{CommandModels} := {
  declared_assign_command d p :
    assign_branch d = Some p → fullmatch IDENTIFIER_PATTERN (assign_command p) = true;
  declared_escalate_command d p :
    escalate_branch d = Some p → fullmatch IDENTIFIER_PATTERN (escalate_command p) = true
}.

#[export] Instance strict_branches_lawful : LawfulBranches (H := strict_branches).
Proof.
  constructor; intros d p Hp; cbn in Hp; [unfold read_assign_payload in Hp|unfold read_escalate_payload in Hp];
    repeat (apply bind_Some in Hp as (?&?&Hp)); injection Hp as <-; by eapply identifier_matches.
Qed.

Inductive IntakeRefusal : Set :=
| NO_PAYLOAD | UNROUTED | UNKNOWN_COMMAND_TYPE | UNREADABLE | UNBOUND_COMMAND_TYPE | TOPIC_DISAGREEMENT
| MALFORMED_COMMAND.

(** [IntakeError], or what its [except] clauses leave.  The value an error carries for its reader
    is not kept: nothing here reads it. *)
Inductive intake_failure : Set :=
| IntakeError (refusal : IntakeRefusal)
| TopicEscape (e : topic_failure)
| EnvelopeEscape (e : envelope_failure)
| LookupEscape (name : string).

Definition refuse {A} (r : IntakeRefusal) : result intake_failure A := Err (IntakeError r).

Record AssignSectorCommand : Set := { sector_id : string }.

Record EscalateRescueCommand : Set := {
  approval_id : string; proposal_id : string; proposal_digest : string; proposal_version : Z;
  evidence_decision_id : string; evidence_decision_digest : string; evidence_decision_version : Z;
  latitude_microdegrees : Z; longitude_microdegrees : Z
}.

Inductive CommandBody : Set :=
| ASSIGN (c : AssignSectorCommand)
| ESCALATE (c : EscalateRescueCommand).

(** [IncomingCommand]: the members both branches have, and the branch. *)
Record IncomingCommand : Set := {
  command_id : string; event_id : string; correlation_id : string; sequence : Z; body : CommandBody
}.

(** The class variable [command_type]. *)
Definition incoming_type (c : IncomingCommand) : CommandType :=
  match body c with ASSIGN _ => ASSIGN_SECTOR | ESCALATE _ => ESCALATE_RESCUE end.

(** What [except TopicError] and [except EnvelopeError] make of each failure. *)
Definition topic_refused (e : topic_failure) : intake_failure :=
  match e with Topics.Refused _ => IntakeError UNROUTED | e => TopicEscape e end.

(** [_unreadable], with the decoder's refusals. *)
Definition unreadable (e : envelope_failure) : intake_failure :=
  match e with
  | Undecodable (Canonical.Refused _) => IntakeError UNREADABLE
  | Envelope.Refused {| Envelope.refusal := UNKNOWN_TYPE |} => IntakeError UNBOUND_COMMAND_TYPE
  | Envelope.Refused _ => IntakeError UNREADABLE
  | e => EnvelopeEscape e
  end.

Definition disagreement (e : envelope_failure) : intake_failure :=
  match e with Envelope.Refused _ => IntakeError TOPIC_DISAGREEMENT | e => EnvelopeEscape e end.

Section intake.
Context `{N : Normalization} `{M : CommandModels} (limit : nat).

(** [_routed] *)
Definition routed (topic drone mission : string) : result intake_failure Topic :=
  t ← map_err topic_refused (parse_topic (PyStr topic));
  raise_if (negb (bool_decide (family t = DRONE_COMMAND) && bool_decide (Topics.mission_id t = mission) &&
                  bool_decide (dict_get (parameters t) DRONE_PARAMETER = Some drone)))
           (IntakeError UNROUTED) ;;
  Ok t.

(** [_validate_payload], and the command built of its payload. *)
Definition incoming (requested : CommandType) (e : Envelope) : result intake_failure IncomingCommand :=
  let command id b := {| command_id := id; event_id := Envelope.id e; correlation_id := Envelope.correlation_id e;
                         sequence := digits_value 0 (Envelope.sequence e); body := b |} in
  match requested with
  | ASSIGN_SECTOR =>
      p ← or_raise (assign_branch (data e)) (IntakeError MALFORMED_COMMAND);
      Ok (command (assign_command p) (ASSIGN {| sector_id := assign_sector p |}))
  | ESCALATE_RESCUE =>
      p ← or_raise (escalate_branch (data e)) (IntakeError MALFORMED_COMMAND);
      Ok (command (escalate_command p) (ESCALATE {|
        approval_id := escalate_approval p; proposal_id := escalate_proposal p;
        proposal_digest := escalate_digest p; proposal_version := escalate_version p;
        evidence_decision_id := escalate_evidence p; evidence_decision_digest := escalate_evidence_digest p;
        evidence_decision_version := escalate_evidence_version p;
        latitude_microdegrees := escalate_latitude p; longitude_microdegrees := escalate_longitude p |}))
  end.

Definition accept (payload : option string) (topic drone mission : string) : result intake_failure IncomingCommand :=
  raw ← or_raise payload (IntakeError NO_PAYLOAD);
  t ← routed topic drone mission;
  kind ← or_raise (dict_get (parameters t) "commandType") (LookupEscape "commandType");
  requested ← map_err (λ _, IntakeError UNKNOWN_COMMAND_TYPE) (command_type (PyStr kind));
  e ← map_err unreadable (decode_delivered limit raw);
  map_err disagreement (check_topic_binding e t) ;;
  incoming requested e.
End intake.

(** ** The drone's half of the protocol *)

Definition DRONE_EVENTS : list CommandEvent := [ACKNOWLEDGE; SUCCEED; FAIL].

Inductive protocol_failure : Set :=
| NOT_A_DRONE_EVENT (event : CommandEvent)
| Machine (e : CommandError).

Definition received (b : SendBudget) : result protocol_failure CommandProgress :=
  map_err Machine (advance INITIAL_PROGRESS SEND b).

(** [apply] *)
Definition apply_event (p : CommandProgress) (e : CommandEvent) (b : SendBudget)
    : result protocol_failure CommandProgress :=
  raise_if (negb (bool_decide (e ∈ DRONE_EVENTS))) (NOT_A_DRONE_EVENT e) ;;
  map_err Machine (advance p e b).

(** ** Results *)

Definition OUTCOMES : list (CommandState * string) :=
  [(ACKNOWLEDGED, "acknowledged"); (SUCCEEDED, "succeeded"); (FAILED, "failed")].

Inductive ResultRefusal : Set := UNREPORTABLE_STATE | SEQUENCE_RANGE | UNPUBLISHABLE.

(** [ResultError], or what the contracts raise outside its [try]. *)
Inductive result_failure : Set :=
| ResultError (refusal : ResultRefusal)
| BadTopic (e : topic_failure)
| BadEnvelope (e : envelope_failure).

Record ResultStamp : Set := {
  stamp_event : string; occurred_at : string; stamp_sequence : Z; stamp_correlation : string;
  stamp_causation : string; stamp_traceparent : string
}.

Definition result_topic (mission drone command : string) : Topic := {|
  family := DRONE_COMMAND_RESULT; Topics.mission_id := mission;
  parameters := [("droneId", drone); ("commandId", command)]
|}.

Definition result_payload (mission drone command word : string) : members :=
  document [("missionId", PyStr mission); ("droneId", PyStr drone); ("commandId", PyStr command); ("outcome", PyStr word)].

Definition result_envelope (mission drone command word : string) (s : ResultStamp)
    (declared schema sequence : string) : Envelope := {|
  Envelope.id := stamp_event s; Envelope.source := event_source drone; Envelope.type := declared;
  Envelope.subject := mission; Envelope.time := occurred_at s; Envelope.dataschema := schema;
  Envelope.sequence := sequence; Envelope.correlation_id := stamp_correlation s;
  Envelope.traceparent := stamp_traceparent s; Envelope.data := result_payload mission drone command word;
  Envelope.causation_id := Some (stamp_causation s); Envelope.tracestate := None
|}.

(** What [except ValueError] makes of the check of a built record. *)
Definition unpublishable (e : envelope_failure) : result_failure :=
  match envelope_lookup e with Some _ => BadEnvelope e | None => ResultError UNPUBLISHABLE end.

Definition result_record `{Normalization} (mission drone command : string) (state : CommandState) (s : ResultStamp)
    : result result_failure (string * members) :=
  word ← or_raise (dict_get OUTCOMES state) (ResultError UNREPORTABLE_STATE);
  rendered ← or_raise (sequence_text (stamp_sequence s)) (ResultError SEQUENCE_RANGE);
  let t := result_topic mission drone command in
  declared ← map_err BadTopic (event_type t);
  b ← map_err BadEnvelope (binding_for declared);
  let d := envelope_document (result_envelope mission drone command word s declared (bound_schema b) rendered) in
  map_err unpublishable (x ← parse_envelope (PyDict d); check_topic_binding x t) ;;
  text ← map_err BadTopic (format_topic t);
  Ok (text, d).
