(* ===== verification/Routing.v ===== *)
(** * Typed publication routing

    [packages/broker/src/aerial_rescue_broker/routing.py] over the ports of [messaging.py]: a
    caller gives a topic, a payload and properties, and the router parses, authorizes and binds
    them before the one operation the delivery table selects.  What the client library answers to
    a publication is the class [Broker], a function of everything handed to it before. *)

From S2P Require Import Prelude PyStr PyVal Canonical JsonBytes Topics Envelope Rpc Integration Principals Ingress.
Local Open Scope string_scope.
Local Open Scope Z_scope.

(** ** What a publication reaches *)

Inductive MessagingRefusal : Set :=
| INSECURE_TRANSPORT | PUBLISH_REFUSED | PUBLISH_AMBIGUOUS | SETTLE_REFUSED | SETTLEMENT_ALREADY_DECIDED
| BIND_REFUSED | RECEIVER_NOT_FOUND | METRICS_REFUSED | TRACE_REFUSED | SHUTDOWN_REFUSED.

#[export] Instance MessagingRefusal_eq_dec : EqDecision MessagingRefusal.
Proof. solve_decision. Defined.

(** [inbound_payload], [get_destination_name] and [get_properties] of one message. *)
Record InboundMessage : Set := {
  inbound_payload : option string; destination_name : option string; user_properties : pyval
}.

(** One call of a port: [publish_unacknowledged], [publish] or [publish_reply]. *)
Inductive Port : Set := DIRECT_PORT | GUARANTEED_PORT | RESPONDER_PORT | REQUESTER_PORT.

Record Publication : Set := { port : Port; destination : string; body : string; carried : members }.

(** Everything handed to the client library, oldest first. *)
Definition wire : Type := list Publication.

(** [None] is a call that returns; a request that returns gives the correlated response. *)
Class Broker := {
  answered : wire → Publication → option MessagingRefusal;
  correlated : wire → Publication → Z → InboundMessage
}.

(** A call over some state: what it did stays done when it raises. *)
Definition acting (S E A : Type) : Type := S → result E A * S.

#[export] Instance acting_ret S E : MRet (acting S E) := λ A a w, (Ok a, w).
#[export] Instance acting_bind S E : MBind (acting S E) := λ A B f m w,
  match m w with (Ok a, w) => f a w | (Err e, w) => (Err e, w) end.

Definition calm {S E A} (m : result E A) : acting S E A := λ w, (m, w).
Definition rewire {S E E' A} (h : E → E') (m : acting S E A) : acting S E' A := λ w,
  let (r, w) := m w in (map_err h r, w).

(** A call that may publish. *)
Abbreviation wired := (acting wire).

(** ** The router *)

Record PublicationPorts : Set := { direct : bool; guaranteed : bool; requester : bool; responder : bool }.

Inductive RoutingRefusal : Set :=
| CAPABILITY_MISMATCH | INVALID_TOPIC | NOT_AUTHORIZED | INVALID_PAYLOAD | INVALID_TIMEOUT | OPERATION_MISMATCH.

(** [RoutingError], [MessagingError] of a port, or the [KeyError] of a lookup. *)
Inductive routing_failure : Set :=
| RoutingError (refusal : RoutingRefusal)
| MessagingError (refusal : MessagingRefusal)
| KeyError (name : string).

Definition refuse {A} (r : RoutingRefusal) : result routing_failure A := Err (RoutingError r).

Definition required_deliveries (role : Principal) : list Delivery := delivery_for <$> grants role PUBLISH.

(** [_present_deliveries] *)
Definition present_deliveries (p : PublicationPorts) : list Delivery :=
  ((if direct p then [DIRECT] else []) ++ (if guaranteed p then [GUARANTEED] else [])
   ++ (if requester p || responder p then [REQUEST_REPLY] else []))%list.

(** Equality of two frozensets. *)
Definition same_set {A} `{EqDecision A} (l l' : list A) : bool :=
  forallb (λ a, bool_decide (a ∈ l')) l && forallb (λ a, bool_decide (a ∈ l)) l'.

(** [_request_reply_direction_matches] *)
Definition request_reply_direction_matches (role : Principal) (p : PublicationPorts) : bool :=
  Bool.eqb (requester p) (bool_decide (GATEWAY_REQUEST ∈ grants role PUBLISH)) &&
  Bool.eqb (responder p) (bool_decide (GATEWAY_RESPONSE ∈ grants role PUBLISH)).

Record DeliveryRouter : Set := { role : Principal; ports : PublicationPorts }.

(** [DeliveryRouter.__init__] *)
Definition delivery_router (r : Principal) (p : PublicationPorts) : result routing_failure DeliveryRouter :=
  raise_if (negb (same_set (present_deliveries p) (required_deliveries r)) ||
            negb (request_reply_direction_matches r p)) (RoutingError CAPABILITY_MISMATCH) ;;
  Ok {| role := r; ports := p |}.

(** What [except (TypeError, ValueError)] leaves of a failure. *)
Definition invalid (escaped : option string) : routing_failure :=
  match escaped with Some n => KeyError n | None => RoutingError INVALID_PAYLOAD end.

Section router.
Context `{N : Normalization} `{B : Broker} (limit : nat).

(** [_validate_gateway_request] *)
Definition validate_gateway_request (t : Topic) (payload : string) : result routing_failure unit :=
  r ← map_err (λ e, invalid (rpc_lookup e))
        (v ← map_err Rpc.Undecodable (decode_bytes limit payload); parse_gateway_request v);
  raise_if (negb (bool_decide (request_mission_id r = Topics.mission_id t))) (RoutingError INVALID_PAYLOAD) ;;
  operation ← or_raise (dict_get (parameters t) "operation") (KeyError "operation");
  raise_if (negb (bool_decide (request_operation r = operation))) (RoutingError INVALID_PAYLOAD).

(** [_validate_payload] *)
Definition validate_payload (t : Topic) (payload : string) : result routing_failure unit :=
  match family t with
  | GATEWAY_REQUEST => validate_gateway_request t payload
  | GATEWAY_RESPONSE =>
      map_err (λ e, invalid (rpc_lookup e))
        (v ← map_err Rpc.Undecodable (decode_bytes limit payload); parse_gateway_response v) ;;
      Ok tt
  | AGENT_RESPONSE =>
      r ← map_err (λ _, invalid None)
            (v ← map_err Integration.Undecodable (decode_bytes limit payload); parse_agent_response v);
      map_err (λ _, invalid None) (check_agent_response_topic r t)
  | _ =>
      map_err (λ e, invalid (envelope_lookup e))
        (e ← decode_delivered limit payload; check_topic_binding e t)
  end.

(** [_prepare] *)
Definition prepare (r : DeliveryRouter) (text payload : string) : result routing_failure Topic :=
  t ← map_err (λ e, match topic_lookup e with Some n => KeyError n | None => RoutingError INVALID_TOPIC end)
        (parse_topic (PyStr text));
  map_err (λ _, RoutingError NOT_AUTHORIZED) (Principals.authorize (role r) PUBLISH (family t)) ;;
  validate_payload t payload ;;
  Ok t.

(** A port's call: the publication is handed over, then the library answers. *)
Definition hand_over (p : Publication) : wired routing_failure unit := λ w,
  (match answered w p with None => Ok tt | Some refusal => Err (MessagingError refusal) end, (w ++ [p])%list).

(** The port a delivery selects, if the router holds it. *)
Definition selected_port (p : PublicationPorts) (d : Delivery) : option Port :=
  match d with
  | DIRECT => if direct p then Some DIRECT_PORT else None
  | GUARANTEED => if guaranteed p then Some GUARANTEED_PORT else None
  | REQUEST_REPLY => if responder p then Some RESPONDER_PORT else None
  end.

(** [_dispatch] *)
Definition dispatch (r : DeliveryRouter) (t : Topic) (text payload : string) (properties : members)
    : wired routing_failure unit :=
  match selected_port (ports r) (delivery_for (family t)) with
  | Some p => hand_over {| port := p; destination := text; body := payload; carried := properties |}
  | None => calm (refuse CAPABILITY_MISMATCH)
  end.

Definition publish (r : DeliveryRouter) (text payload : string) (properties : members)
    : wired routing_failure unit :=
  t ← calm (prepare r text payload);
  if bool_decide (family t = GATEWAY_REQUEST) then calm (refuse OPERATION_MISMATCH)
  else dispatch r t text payload properties.

Definition request (r : DeliveryRouter) (text payload : string) (properties : members) (timeout : pyval)
    : wired routing_failure InboundMessage :=
  match timeout with
  | PyInt milliseconds =>
      calm (raise_if (milliseconds <=? 0) (RoutingError INVALID_TIMEOUT)) ;;
      t ← calm (prepare r text payload);
      if negb (bool_decide (family t = GATEWAY_REQUEST)) || negb (requester (ports r))
      then calm (refuse OPERATION_MISMATCH)
      else
        let p := {| port := REQUESTER_PORT; destination := text; body := payload; carried := properties |} in
        λ w, (match answered w p with
              | None => Ok (correlated w p milliseconds)
              | Some refusal => Err (MessagingError refusal)
              end, (w ++ [p])%list)
  | _ => calm (refuse INVALID_TIMEOUT)
  end.
End router.

(** ** What reaches the broker *)

(** The body is one its family admits, bound to the topic. *)
Definition bound_body `{Normalization} (limit : nat) (t : Topic) (payload : string) : Prop :=
  match family t with
  | GATEWAY_REQUEST => ∃ v r, decode_bytes limit payload = Ok v ∧ parse_gateway_request v = Ok r ∧
      request_mission_id r = Topics.mission_id t ∧ dict_get (parameters t) "operation" = Some (request_operation r)
  | GATEWAY_RESPONSE => ∃ v r, decode_bytes limit payload = Ok v ∧ parse_gateway_response v = Ok r
  | AGENT_RESPONSE => ∃ v r, decode_bytes limit payload = Ok v ∧ parse_agent_response v = Ok r ∧
      check_agent_response_topic r t = Ok tt
  | _ => ∃ e, decode_delivered limit payload = Ok e ∧ check_topic_binding e t = Ok tt
  end.

(** The port each delivery takes for a publication that is no request. *)
Definition port_of (d : Delivery) : Port :=
  match d with DIRECT => DIRECT_PORT | GUARANTEED => GUARANTEED_PORT | REQUEST_REPLY => RESPONDER_PORT end.

Section theorems.
Context `{N : Normalization} `{B : Broker} (limit : nat).

Lemma validate_payload_Ok t payload : validate_payload limit t payload = Ok tt ↔ bound_body limit t payload.
Proof.
  unfold validate_payload, validate_gateway_request, bound_body. split.
  - intros Hv. destruct (family t); run_ok; bools; subst; eauto 8.
  - destruct (family t); intros Hv; decompose [ex and] Hv;
      repeat (match goal with H : ?l = _ |- context [?l] => rewrite H end; cbn [map_err mbind result_bind or_raise]);
      by rewrite ?bool_decide_true by done.
Qed.

Lemma prepare_Ok r text payload t :
  prepare limit r text payload = Ok t ↔
  parse_topic (PyStr text) = Ok t ∧ may_use (role r) PUBLISH (family t) = true ∧ bound_body limit t payload.
Proof.
  rewrite <- validate_payload_Ok. unfold prepare. split.
  - intros Hp. apply bind_Ok in Hp as (t'&Ht&Hp). apply map_err_Ok in Ht.
    apply bind_Ok in Hp as (f&Hf&Hp). apply map_err_Ok, role_authorize_Ok in Hf as [-> Hf].
    by apply bind_Ok in Hp as ([]&Hb&[= <-]).
  - intros (Ht&Hf&Hp). rewrite Ht. cbn [map_err mbind result_bind].
    rewrite (proj2 (role_authorize_Ok (role r) PUBLISH (family t) (family t))) by done.
    cbn [map_err mbind result_bind]. by rewrite Hp.
Qed.

(** Enumerates the roles and the capabilities. *)
Lemma delivery_router_ports q p r :
  delivery_router q p = Ok r → role r = q ∧ ports r = p ∧
  ∀ f, may_use q PUBLISH f = true → f ≠ GATEWAY_REQUEST → selected_port p (delivery_for f) = Some (port_of (delivery_for f)).
Proof.
  unfold delivery_router. intros ([]&Hr&[= <-])%bind_Ok. split; [done|]. split; [done|].
  apply raise_if_Ok in Hr. intros f Hf Hn. destruct p as [[] [] [] []], q; vm_compute in Hr; try done;
    destruct f; vm_compute in Hf; done.
Qed.

(** The role may publish this body on this topic, one way. *)
Definition admitted (q : Principal) (text payload : string) (t : Topic) : Prop :=
  parse_topic (PyStr text) = Ok t ∧ may_use q PUBLISH (family t) = true ∧ family t ≠ GATEWAY_REQUEST ∧
  bound_body limit t payload.

Lemma publish_admitted q p r text payload properties t w :
  delivery_router q p = Ok r → admitted q text payload t →
  publish limit r text payload properties w =
  hand_over {| port := port_of (delivery_for (family t)); destination := text; body := payload;
               carried := properties |} w.
Proof.
  intros Hr (Ht&Hm&Hn&Hb). apply delivery_router_ports in Hr as (Hq&<-&Hp). subst q. unfold publish, mbind, acting_bind, calm.
  rewrite (proj2 (prepare_Ok r text payload t)) by done. rewrite bool_decide_false by done.
  unfold dispatch. by rewrite Hp.
Qed.

Lemma publish_refused q p r text payload properties w o w' :
  delivery_router q p = Ok r → publish limit r text payload properties w = (o, w') →
  (∃ t, admitted q text payload t) ∨
  w' = w ∧ ((∃ refusal, o = Err (RoutingError refusal) ∧ refusal ≠ CAPABILITY_MISMATCH) ∨ ∃ n, o = Err (KeyError n)).
Proof.
  intros Hr Hp. pose proof (delivery_router_ports _ _ _ Hr) as (Hq&_&_). unfold publish, mbind, acting_bind, calm in Hp.
  destruct (prepare limit r text payload) as [t|e] eqn:Hprep.
  - apply prepare_Ok in Hprep as (Ht&Hm&Hb). rewrite Hq in Hm. case_bool_decide as Hf.
    + right. injection Hp as <- <-. eauto 6.
    + left. by exists t.
  - right. injection Hp as <- <-. split; [done|]. unfold prepare, validate_payload, validate_gateway_request, invalid in Hprep.
    repeat (apply bind_Err in Hprep as [Hprep|(?&_&Hprep)] || (apply map_err_Err in Hprep as (?&?&?); subst e) ||
      case_match || (apply raise_if_Err in Hprep as [_ ?]; subst e) || (apply or_raise_Err in Hprep as [_ ?]; subst e)); eauto; try done.
Qed.

(** A router of a role publishes exactly what the role's grants admit.  A body that decodes,
    validates and belongs on a topic of a family the role may publish, and is no request, is
    handed once to the one port the delivery table names for the family, unchanged, whatever the
    client library then answers; anything else is refused with nothing handed over, and never for
    want of a capability: an accepted router holds every port its role's families need. *)
Lemma router_exact (q : Principal) (p : PublicationPorts) (r : DeliveryRouter) (text payload : string)
    (properties : members) (w : wire) (Hr : delivery_router q p = Ok r) :
  (∀ t, admitted q text payload t →
     ∃ o, publish limit r text payload properties w =
       (o, (w ++ [{| port := port_of (delivery_for (family t)); destination := text; body := payload;
                     carried := properties |}])%list) ∧
       (o = Ok tt ∨ ∃ refusal, o = Err (MessagingError refusal))) ∧
  ((¬ ∃ t, admitted q text payload t) →
     ∃ o, publish limit r text payload properties w = (o, w) ∧
       ((∃ refusal, o = Err (RoutingError refusal) ∧ refusal ≠ CAPABILITY_MISMATCH) ∨ ∃ n, o = Err (KeyError n))).
Proof.
  split.
  - intros t Ht. rewrite (publish_admitted _ _ _ _ _ _ _ _ Hr Ht). unfold hand_over.
    destruct (answered _ _); eexists; split; [done|eauto|done|eauto].
  - intros Hn. destruct (publish limit r text payload properties w) as [o w'] eqn:Hp.
    destruct (publish_refused _ _ _ _ _ _ _ _ _ Hr Hp) as [|[-> Ho]]; [done|]. eauto.
Qed.
End theorems.

(** ** A reply of the command gateway *)

(** A broker that confirms everything. *)
Definition confirming : Broker := {|
  answered := λ _ _, None;
  correlated := λ _ _ _, {| inbound_payload := None; destination_name := None; user_properties := PyNone |}
|}.
#[local] Existing Instance confirming.
#[local] Existing Instance ascii_normalization.

Definition gateway_ports : PublicationPorts :=
  {| direct := true; guaranteed := true; requester := false; responder := true |}.
Definition gateway_router : DeliveryRouter := {| role := COMMAND_GATEWAY; ports := gateway_ports |}.
Definition reply_text : string := "aerial-rescue/v1/reply/gateway/response/request-1".
Definition reply_body : string := Eval vm_compute in
  default "" (ok_value (canonical_bytes (PyDict (gateway_response_document Rpc.sample_response)))).

Definition reply_topic : Topic :=
  {| family := GATEWAY_RESPONSE; Topics.mission_id := "reply"; parameters := [("requestorId", "request-1")] |}.

Lemma router_exact_witness :
  delivery_router COMMAND_GATEWAY gateway_ports = Ok gateway_router ∧
  ∃ o, publish 4300 gateway_router reply_text reply_body [] [] =
    (o, [{| port := RESPONDER_PORT; destination := reply_text; body := reply_body; carried := [] |}]).
Proof.
  assert (Hr : delivery_router COMMAND_GATEWAY gateway_ports = Ok gateway_router) by (vm_compute; reflexivity).
  split; [exact Hr|].
  assert (Ha : admitted 4300 COMMAND_GATEWAY reply_text reply_body reply_topic).
  { split; [vm_compute; reflexivity|]. split; [vm_compute; reflexivity|]. split; [discriminate|].
    eexists. eexists. split; vm_compute; reflexivity. }
  destruct (proj1 (router_exact 4300 COMMAND_GATEWAY gateway_ports gateway_router reply_text reply_body [] [] Hr)
    reply_topic Ha) as (o&Ho&_).
  exists o. exact Ho.
Defined.
