(* ===== verification/Queues.v ===== *)
(** * Durable queues

    [packages/broker/src/aerial_rescue_broker/queues.py]: the queues the grant tables imply.
    A role's guaranteed families decide its queues, its endpoint kind how they are cut, and
    every application queue carries its own dead-message queue.  The theorems say that a
    guaranteed topic a role may hear reaches exactly one of its queues, that no queue hears
    more than its owner's grants, and that the names are distinct and within the broker's
    bound. *)

From S2P Require Import Prelude PyStr Regex PyVal Topics Envelope Principals Subscriptions Routing.
Local Open Scope string_scope.
Local Open Scope Z_scope.

Definition QUEUE_NAME_ROOT : string := "aerial-rescue/v1".
Definition DMQ_SUFFIX : string := "_dmq".
Definition RECORDER_LIFECYCLE_QUEUE : string := "aerial-rescue/v1/recorder/dashboard.lifecycle".
Definition MAX_QUEUE_NAME_LENGTH : nat := 200.
Definition APPLICATION_MAX_MESSAGE_BYTES : Z := 262144.
Definition APPLICATION_MAX_DELIVERED_UNACKED : Z := 1.
Definition UPSTREAM_MAX_MESSAGE_BYTES : Z := 10000000.
Definition UPSTREAM_MAX_DELIVERED_UNACKED : Z := 10000.
Definition UNOWNED : string := "".

Inductive Endpoint : Set := FAMILY | COMBINED_LIFECYCLE | PER_DRONE | UPSTREAM | NONE.

#[export] Instance Endpoint_eq_dec : EqDecision Endpoint.
Proof. solve_decision. Defined.

(** [_ENDPOINTS] *)
Definition endpoint_for (role : Principal) : Endpoint :=
  match role with
  | FLEET_SIMULATOR => PER_DRONE
  | COMMAND_GATEWAY | DASHBOARD_API | EVIDENCE_SERVICE => FAMILY
  | RECORDER => COMBINED_LIFECYCLE
  | EVENT_MESH_GATEWAY => UPSTREAM
  | EVENT_MESH_TOOL | AGENT_MESH_AGENT | DISCOVERY => NONE
  end.

Inductive QueueRefusal : Set := UNGUARANTEED_FAMILY | NOT_A_FAMILY_CONSUMER.

(** What naming a queue can raise: the domain's refusal, its own, or the topic grammar's. *)
Inductive queue_failure : Set :=
| Denied (e : PrincipalError)
| QueueError (refusal : QueueRefusal) (value : string)
| BadLevel (e : topic_failure).

Record QueueSpec : Set := {
  name : string; owner : string; subscriptions : list string; dead_message_queue : option string;
  max_message_bytes : Z; max_delivered_unacked : Z
}.

Record QueueTemplateSpec : Set := {
  template_role : Principal; template_name : string; template_dmq : string; durability : string;
  name_filter : string; template_bytes : Z; template_unacked : Z
}.

Definition upstream_template (role : Principal) (title : string) : QueueTemplateSpec := {|
  template_role := role; template_name := title; template_dmq := title ++ "_dmq";
  durability := "non-durable"; name_filter := "";
  template_bytes := UPSTREAM_MAX_MESSAGE_BYTES; template_unacked := UPSTREAM_MAX_DELIVERED_UNACKED
|}.

(** [_QUEUE_TEMPLATES] *)
Definition queue_templates : list QueueTemplateSpec := [
  upstream_template AGENT_MESH_AGENT "aerial-rescue-agent-mesh-temp";
  upstream_template EVENT_MESH_GATEWAY "aerial-rescue-event-mesh-gateway-temp";
  upstream_template EVENT_MESH_TOOL "aerial-rescue-event-mesh-tool-temp"
].

Definition guaranteed_grants (role : Principal) : list Family :=
  filter (λ f, delivery_for f = GUARANTEED) (grants role SUBSCRIBE).

Definition dead_message_queue_name (queue : string) : string := queue ++ DMQ_SUFFIX.

(** [_application_queue] *)
Definition application_queue (n o : string) (s : list string) : QueueSpec := {|
  name := n; owner := o; subscriptions := s; dead_message_queue := Some (dead_message_queue_name n);
  max_message_bytes := APPLICATION_MAX_MESSAGE_BYTES; max_delivered_unacked := APPLICATION_MAX_DELIVERED_UNACKED
|}.

(** [_dead_message_queue] *)
Definition dead_message (n : string) (bytes unacked : Z) : QueueSpec := {|
  name := n; owner := UNOWNED; subscriptions := []; dead_message_queue := None;
  max_message_bytes := bytes; max_delivered_unacked := unacked
|}.

Definition role_queue_name (role : Principal) (f : Family) : string :=
  join LEVEL_SEPARATOR [QUEUE_NAME_ROOT; principal_value role; literal_suffix f].

Definition family_queue_name (role : Principal) (f : Family) : result queue_failure string :=
  map_err Denied (authorize role SUBSCRIBE f) ;;
  raise_if (negb (bool_decide (delivery_for f = GUARANTEED))) (QueueError UNGUARANTEED_FAMILY (template f)) ;;
  raise_if (negb (bool_decide (endpoint_for role = FAMILY)))
           (QueueError NOT_A_FAMILY_CONSUMER (principal_value role)) ;;
  Ok (role_queue_name role f).

Definition drone_queue_name (drone : string) : result queue_failure string :=
  level ← map_err BadLevel (validated_level DRONE_PARAMETER drone);
  Ok (join LEVEL_SEPARATOR
        [QUEUE_NAME_ROOT; principal_value FLEET_SIMULATOR; literal_suffix DRONE_COMMAND; level]).

(** [_family_queues]: in the order of [Family]. *)
Definition family_queues (role : Principal) : result queue_failure (list QueueSpec) :=
  map_ok (λ f, n ← family_queue_name role f; Ok (application_queue n (principal_value role) [subscription_for f]))
         (filter (λ f, f ∈ guaranteed_grants role) FAMILIES).

(** [_drone_queues] *)
Definition drone_queue (drone : string) : result queue_failure QueueSpec :=
  n ← drone_queue_name drone;
  s ← map_err BadLevel (drone_command_subscription drone);
  Ok (application_queue n (principal_value FLEET_SIMULATOR) [s]).

Definition drone_queues (drones : list string) : result queue_failure (list QueueSpec) :=
  map_ok drone_queue drones.

(** [_recorder_lifecycle_queue] *)
Definition LIFECYCLE_FAMILIES : list Family := [DRONE_EVENT; MISSION_EVENT; SECTOR_EVENT].

Definition recorder_lifecycle_queue : QueueSpec :=
  application_queue RECORDER_LIFECYCLE_QUEUE (principal_value RECORDER)
    ((λ f, if bool_decide (f = DRONE_EVENT) then connectivity_subscription else subscription_for f)
       <$> LIFECYCLE_FAMILIES).

(** [_recorder_queues] *)
Definition recorder_queues : list QueueSpec :=
  let remaining := filter (λ f, f ∉ LIFECYCLE_FAMILIES) (guaranteed_grants RECORDER) in
  recorder_lifecycle_queue ::
  application_queue (role_queue_name RECORDER DRONE_EVENT) (principal_value RECORDER) [salient_subscription] ::
  ((λ f, application_queue (role_queue_name RECORDER f) (principal_value RECORDER) [subscription_for f])
     <$> filter (λ f, f ∈ remaining) FAMILIES).

Definition queues_for (role : Principal) (drones : list string) : result queue_failure (list QueueSpec) :=
  match endpoint_for role with
  | FAMILY => family_queues role
  | COMBINED_LIFECYCLE => Ok recorder_queues
  | PER_DRONE => drone_queues drones
  | UPSTREAM | NONE => Ok []
  end.

Definition primary_queues (drones : list string) : result queue_failure (list QueueSpec) :=
  qs ← map_ok (λ role, queues_for role drones) PRINCIPALS;
  Ok (concat qs).

(** The dead-message queue of a primary, and the primary. *)
Definition with_dead_message (q : QueueSpec) : list QueueSpec :=
  [dead_message (dead_message_queue_name (name q)) (max_message_bytes q) (max_delivered_unacked q); q].

(** The dead-message queues of the upstream templates. *)
Definition upstream_dead_messages : list QueueSpec :=
  (λ t, dead_message (template_dmq t) (template_bytes t) (template_unacked t)) <$> queue_templates.

Definition desired_queues (drones : list string) : result queue_failure (list QueueSpec) :=
  qs ← primary_queues drones;
  Ok (upstream_dead_messages ++ (qs ≫= with_dead_message))%list.

(** ** Who hears a topic *)

Definition attracts `{SubscriptionMatching} (text : string) (q : QueueSpec) : Prop :=
  Exists (λ s, covers s text = true) (subscriptions q).

#[export] Instance attracts_dec `{SubscriptionMatching} text q : Decision (attracts text q).
Proof. unfold attracts. apply _. Defined.

(** A role's own endpoints reach a guaranteed topic it may hear: one queue per family, the
    recorder's split of drone events, or the drone's own queue. *)
Definition hears (drones : list string) (role : Principal) (t : Topic) : bool :=
  may_use role SUBSCRIBE (family t) && bool_decide (delivery_for (family t) = GUARANTEED) &&
  match endpoint_for role with
  | FAMILY => true
  | COMBINED_LIFECYCLE =>
      negb (bool_decide (family t = DRONE_EVENT)) ||
      bool_decide (dict_get (parameters t) "eventType" ∈ [Some CONNECTIVITY_EVENT_TYPE; Some SALIENT_EVENT_TYPE])
  | PER_DRONE => existsb (λ d, bool_decide (dict_get (parameters t) DRONE_PARAMETER = Some d)) drones
  | UPSTREAM | NONE => false
  end.

(** One element of a duplicate-free list is counted once. *)
Lemma filter_one {A} `{EqDecision A} (P : A → Prop) `{!∀ a, Decision (P a)} (x : A) (l : list A) :
  NoDup l → (∀ a, a ∈ l → P a ↔ a = x) → length (filter P l) = if decide (x ∈ l) then 1%nat else 0%nat.
Proof.
  induction l as [|a l IH]; intros Hnd HP; [by rewrite decide_False by apply not_elem_of_nil|].
  apply NoDup_cons in Hnd as [Ha Hnd]. rewrite filter_cons.
  specialize (IH Hnd (λ b Hb, HP b (list_elem_of_further _ _ _ Hb))).
  destruct (decide (P a)) as [Hp|Hp].
  - apply HP in Hp as ->; [|left]. rewrite length_cons, IH. rewrite decide_False by done.
    by rewrite decide_True by left.
  - rewrite IH. destruct (decide (x ∈ l)) as [Hx|Hx]; [by rewrite decide_True by by right|].
    rewrite decide_False; [done|]. intros [->|]%elem_of_cons; [|done]. apply Hp, HP; [left|done].
Qed.

Lemma filter_fmap_length {A B} (f : A → B) (P : B → Prop) `{!∀ b, Decision (P b)} (l : list A) :
  length (filter P (f <$> l)) = length (filter (P ∘ f) l).
Proof.
  induction l as [|a l IH]; [done|]. rewrite fmap_cons, !filter_cons. unfold compose at 1.
  destruct (decide (P (f a))); cbn; by rewrite ?IH.
Qed.

Lemma principal_value_inj p q : principal_value p = principal_value q → p = q.
Proof. by destruct p, q. Qed.

Lemma drone_queue_Ok d q : drone_queue d = Ok q →
  ∃ s, drone_command_subscription d = Ok s ∧ conforms IDENTIFIER d = true ∧
    q = application_queue (join "/" [QUEUE_NAME_ROOT; "fleet-simulator"; "drone.command"; d]) "fleet-simulator" [s].
Proof.
  unfold drone_queue, drone_queue_name. intros (n&Hn&Hq)%bind_Ok. apply bind_Ok in Hn as (v&Hv&[= <-]).
  apply map_err_Ok in Hv. unfold validated_level in Hv. change (rule_for DRONE_PARAMETER) with IDENTIFIER in Hv.
  destruct (conforms IDENTIFIER d) eqn:Hc; [|done]. injection Hv as <-.
  apply bind_Ok in Hq as (s&Hs%map_err_Ok&[= <-]). eauto.
Qed.

Lemma family_queues_Ok role :
  endpoint_for role = FAMILY →
  family_queues role = Ok ((λ f, application_queue (role_queue_name role f) (principal_value role) [subscription_for f])
                             <$> filter (λ f, f ∈ guaranteed_grants role) FAMILIES).
Proof. by destruct role. Qed.

Lemma queues_for_owner role drones qs q : queues_for role drones = Ok qs → q ∈ qs → owner q = principal_value role.
Proof.
  unfold queues_for. destruct (endpoint_for role) eqn:He; intros Hqs Hq.
  - rewrite family_queues_Ok in Hqs by done. injection Hqs as <-. by apply list_elem_of_fmap in Hq as (f&->&_).
  - injection Hqs as <-. destruct role; try done. revert q Hq. apply Forall_forall.
    by repeat (apply Forall_cons; split; [done|]); apply Forall_nil.
  - destruct role; try done. apply map_ok_Forall2 in Hqs. apply list_elem_of_lookup in Hq as [i Hi].
    destruct (Forall2_lookup_r _ _ _ _ _ Hqs Hi) as (d&_&Hd). by apply drone_queue_Ok in Hd as (?&?&?&->).
  - injection Hqs as <-. by apply not_elem_of_nil in Hq.
  - injection Hqs as <-. by apply not_elem_of_nil in Hq.
Qed.

Lemma filter_all {A} (P : A → Prop) `{!∀ a, Decision (P a)} (l : list A) : (∀ a, a ∈ l → P a) → filter P l = l.
Proof.
  induction l as [|a l IH]; intros Hall; [done|]. rewrite filter_cons_True by (apply Hall; left).
  f_equal. apply IH. intros. apply Hall. by right.
Qed.

Lemma filter_none {A} (P : A → Prop) `{!∀ a, Decision (P a)} (l : list A) : (∀ a, a ∈ l → ¬ P a) → filter P l = [].
Proof.
  induction l as [|a l IH]; intros Hall; [done|]. rewrite filter_cons_False by (apply Hall; left).
  apply IH. intros. apply Hall. by right.
Qed.

Lemma concat_owned drones role rs ls :
  NoDup rs → Forall2 (λ r l, queues_for r drones = Ok l) rs ls →
  (role ∉ rs → filter (λ q, owner q = principal_value role) (concat ls) = []) ∧
  (role ∈ rs → queues_for role drones = Ok (filter (λ q, owner q = principal_value role) (concat ls))).
Proof.
  intros Hnd Hls. induction Hls as [|r l rs ls Hl Hls IH]; [by split; [|intros ?%not_elem_of_nil]|].
  apply NoDup_cons in Hnd as [Hr Hnd]. destruct (IH Hnd) as [IH1 IH2]. cbn [concat]. rewrite filter_app.
  pose proof (λ q, queues_for_owner r drones l q Hl) as Ho. split.
  - intros [Hne Hni]%not_elem_of_cons. rewrite IH1, app_nil_r by done. apply filter_none.
    intros q ->%Ho Hv. by apply Hne, principal_value_inj.
  - intros [->|Hin]%elem_of_cons.
    + rewrite IH1, app_nil_r by done. by rewrite filter_all.
    + rewrite filter_none; [by apply IH2|]. intros q ->%Ho ->%principal_value_inj. done.
Qed.

(** Of the whole set, a role's queues are those it owns. *)
Lemma owned_queues drones qs role :
  desired_queues drones = Ok qs →
  queues_for role drones = Ok (filter (λ q, owner q = principal_value role) qs).
Proof.
  unfold desired_queues, primary_queues. intros (ps&(ls&Hls&[= <-])%bind_Ok&[= <-])%bind_Ok.
  apply map_ok_Forall2 in Hls.
  rewrite !filter_cons_False by by destruct role.
  assert (Hdm : ∀ l, filter (λ q, owner q = principal_value role) (l ≫= with_dead_message) =
                     filter (λ q, owner q = principal_value role) l).
  { induction l as [|q l IH]; [done|]. cbn [mbind list_bind with_dead_message app].
    rewrite filter_cons_False by (by destruct role). rewrite !filter_cons. by rewrite IH. }
  rewrite Hdm. apply (concat_owned drones role PRINCIPALS ls); [by_tables|done|].
  change PRINCIPALS with (enum Principal). apply elem_of_enum.
Qed.

(** ** Each topic reaches each listener once *)

Section distribution.
Context `{SubscriptionMatching} (t : Topic) (text : string) (Hbuilt : format_topic t = Ok text).

Lemma attracts_one n o s : attracts text (application_queue n o [s]) ↔ covers s text = true.
Proof. unfold attracts. cbn. rewrite Exists_cons, Exists_nil. naive_solver. Qed.

Lemma attracts_family n o f : delivery_for f = GUARANTEED →
  attracts text (application_queue n o [subscription_for f]) ↔ f = family t.
Proof.
  intros Hf. rewrite attracts_one, (subscription_covers t text Hbuilt). split; [by intros [-> _]|].
  intros ->. split; [done|]. by destruct (family t).
Qed.

(** One queue per family: exactly the topic's own, if the role has it. *)
Lemma families_once (name_of : Family → string) o fs :
  NoDup fs → Forall (λ f, delivery_for f = GUARANTEED) fs →
  length (filter (attracts text) ((λ f, application_queue (name_of f) o [subscription_for f]) <$> fs)) =
    if decide (family t ∈ fs) then 1%nat else 0%nat.
Proof.
  intros Hnd Hg. rewrite filter_fmap_length. apply filter_one; [done|]. intros f Hf.
  apply attracts_family. by eapply Forall_forall in Hg.
Qed.

Lemma drones_once drones qs :
  NoDup drones → drone_queues drones = Ok qs →
  length (filter (attracts text) qs) =
    if bool_decide (family t = DRONE_COMMAND) &&
       existsb (λ d, bool_decide (dict_get (parameters t) DRONE_PARAMETER = Some d)) drones then 1%nat else 0%nat.
Proof.
  intros Hnd Hqs%map_ok_Forall2.
  assert (Hq : ∀ d q, drone_queue d = Ok q →
    attracts text q ↔ family t = DRONE_COMMAND ∧ dict_get (parameters t) DRONE_PARAMETER = Some d).
  { intros d q (s&Hs&_&->)%drone_queue_Ok. rewrite attracts_one. by apply (drone_command_covers t text Hbuilt). }
  induction Hqs as [|d q drones qs Hd Hqs IH]; [by rewrite andb_false_r|].
  apply NoDup_cons in Hnd as [Hni Hnd]. specialize (IH Hnd). rewrite filter_cons. cbn [existsb].
  destruct (decide (attracts text q)) as [Ha|Ha].
  - rewrite length_cons, IH. apply (Hq d) in Ha as [-> Hp]; [|done]. rewrite Hp, (bool_decide_eq_true_2 (Some d = Some d)) by done.
    cbn. assert (Hno : existsb (λ e, bool_decide (Some d = Some e)) drones = false).
    { apply not_true_iff_false. intros (e&He&Hde)%existsb_exists. apply bool_decide_eq_true in Hde as [= <-].
      by apply Hni, list_elem_of_In. }
    by rewrite Hno.
  - rewrite IH. apply (not_iff_compat (Hq d q Hd)) in Ha. case_bool_decide as Hf; cbn; [|done].
    by rewrite bool_decide_eq_false_2 by naive_solver.
Qed.

Lemma recorder_once :
  length (filter (attracts text) recorder_queues) =
    if may_use RECORDER SUBSCRIBE (family t) && bool_decide (delivery_for (family t) = GUARANTEED) &&
       (negb (bool_decide (family t = DRONE_EVENT)) ||
        bool_decide (dict_get (parameters t) "eventType" ∈ [Some CONNECTIVITY_EVENT_TYPE; Some SALIENT_EVENT_TYPE]))
    then 1%nat else 0%nat.
Proof.
  assert (Hlife : attracts text recorder_lifecycle_queue ↔
    family t = DRONE_EVENT ∧ dict_get (parameters t) "eventType" = Some CONNECTIVITY_EVENT_TYPE ∨
    family t = MISSION_EVENT ∨ family t = SECTOR_EVENT).
  { unfold attracts, recorder_lifecycle_queue, LIFECYCLE_FAMILIES. cbn -[covers connectivity_subscription subscription_for].
    change (bool_decide (DRONE_EVENT = DRONE_EVENT)) with true.
    change (bool_decide (MISSION_EVENT = DRONE_EVENT)) with false.
    change (bool_decide (SECTOR_EVENT = DRONE_EVENT)) with false.
    rewrite !Exists_cons, Exists_nil, !(subscription_covers t text Hbuilt).
    unfold connectivity_subscription. rewrite (event_covers t text Hbuilt) by left. naive_solver. }
  assert (Hsal : ∀ n o, attracts text (application_queue n o [salient_subscription]) ↔
    family t = DRONE_EVENT ∧ dict_get (parameters t) "eventType" = Some SALIENT_EVENT_TYPE).
  { intros n o. rewrite attracts_one. apply (event_covers t text Hbuilt). right. left. }
  unfold recorder_queues. rewrite filter_cons, filter_cons.
  set (fs := filter _ FAMILIES). assert (Hnd : NoDup fs) by by_tables.
  assert (Hg : Forall (λ f, delivery_for f = GUARANTEED) fs) by by_tables.
  pose proof (families_once (role_queue_name RECORDER) (principal_value RECORDER) fs Hnd Hg) as Hrest.
  destruct (decide (family t = DRONE_EVENT)) as [Hde|Hde].
  - rewrite Hde in *. rewrite (decide_False (P := DRONE_EVENT ∈ fs)) in Hrest by by_tables.
    set (e := dict_get (parameters t) "eventType") in *. change (_ && _ && _) with
      (bool_decide (e ∈ [Some CONNECTIVITY_EVENT_TYPE; Some SALIENT_EVENT_TYPE])).
    destruct (decide (e = Some CONNECTIVITY_EVENT_TYPE)) as [->|Hc].
    { rewrite decide_True by (apply Hlife; by left). rewrite decide_False by (by rewrite Hsal; intros []).
      by rewrite length_cons, Hrest. }
    rewrite decide_False by (rewrite Hlife; naive_solver).
    destruct (decide (e = Some SALIENT_EVENT_TYPE)) as [->|Hs].
    { rewrite decide_True by by apply Hsal. by rewrite length_cons, Hrest. }
    rewrite decide_False by (rewrite Hsal; naive_solver). rewrite Hrest, bool_decide_eq_false_2; [done|].
    rewrite !elem_of_cons, elem_of_nil. naive_solver.
  - rewrite (decide_False (P := attracts text (application_queue _ _ [salient_subscription])))
      by (rewrite Hsal; naive_solver). rewrite (bool_decide_eq_false_2 _ Hde). cbn [negb orb]. rewrite andb_true_r.
    destruct (decide (family t = MISSION_EVENT ∨ family t = SECTOR_EVENT)) as [Hm|Hm].
    + rewrite decide_True by (apply Hlife; by right). rewrite length_cons, Hrest.
      destruct Hm as [-> | ->]; by vm_compute.
    + rewrite decide_False by (rewrite Hlife; naive_solver). rewrite Hrest. revert Hde Hm. clear.
      destruct (family t); try (by vm_compute); naive_solver.
Qed.
End distribution.

(** In the provisioned set, a role whose grants cover the topic's family owns exactly one queue
    that attracts it, whether its queues are one per family, the recorder's split of drone events
    or one per drone; and a role without that grant, or whose family is not guaranteed, owns none. *)
Lemma queues_once `{SubscriptionMatching} drones qs t text role :
  NoDup drones → desired_queues drones = Ok qs → format_topic t = Ok text →
  length (filter (λ q, owner q = principal_value role ∧ attracts text q) qs) =
    if hears drones role t then 1%nat else 0%nat.
Proof.
  intros Hnd Hqs Ht. pose proof (owned_queues drones qs role Hqs) as Hown.
  assert (Hf : filter (λ q, owner q = principal_value role ∧ attracts text q) qs =
               filter (attracts text) (filter (λ q, owner q = principal_value role) qs)).
  { rewrite list_filter_filter. apply list_filter_iff. naive_solver. }
  rewrite Hf. clear Hf. set (own := filter _ qs) in *. unfold hears, queues_for in *.
  destruct (endpoint_for role) eqn:He.
  - rewrite family_queues_Ok in Hown by done. injection Hown as <-.
    rewrite (families_once t text Ht) by (done || (destruct role; by_tables)).
    rewrite andb_true_r. destruct role; try done; destruct (family t); by vm_compute.
  - injection Hown as <-. destruct role; try done. by apply (recorder_once t text Ht).
  - destruct role; try done. rewrite (drones_once t text Ht drones) by done.
    case_bool_decide as Hc; [by rewrite Hc|]. destruct (family t); done.
  - injection Hown as <-. by rewrite andb_false_r.
  - injection Hown as <-. by rewrite andb_false_r.
Qed.

(** ** Names *)

(** The queues no drone adds to. *)
Definition fixed_queues : list QueueSpec := match primary_queues [] with Ok qs => qs | Err _ => [] end.

Lemma primary_queues_split drones ps :
  primary_queues drones = Ok ps → ∃ dq, drone_queues drones = Ok dq ∧ ps = (dq ++ fixed_queues)%list.
Proof.
  unfold primary_queues, PRINCIPALS. cbn [map_ok]. intros (ls&(dq&Hdq&(rest&Hrest&[= <-])%bind_Ok)%bind_Ok&[= <-])%bind_Ok.
  exists dq. split; [done|]. cbn [concat]. f_equal. revert Hrest. vm_compute. by intros [= <-].
Qed.

(** A primary's name: below the owned prefix, without the character that begins the suffix, and
    short enough for the suffix. *)
Definition primary_name (n : string) : Prop :=
  starts_with "aerial-rescue/" n = true ∧ has_char "_" n = false ∧ (String.length n + 4 ≤ MAX_QUEUE_NAME_LENGTH)%nat.

#[export] Instance primary_name_dec n : Decision (primary_name n).
Proof. unfold primary_name. apply _. Defined.

Definition FLEET_PREFIX : string := "aerial-rescue/v1/fleet-simulator/drone.command/".

Lemma fixed_names : NoDup (name <$> fixed_queues) ∧ Forall primary_name (name <$> fixed_queues) ∧
  Forall (λ n, starts_with FLEET_PREFIX n = false) (name <$> fixed_queues).
Proof. by_tables. Qed.

Lemma drone_name d n : drone_queue_name d = Ok n → n = FLEET_PREFIX ++ d ∧ primary_name n.
Proof.
  unfold drone_queue_name. intros (v&Hv%map_err_Ok&Hn)%bind_Ok. unfold validated_level in Hv.
  change (rule_for DRONE_PARAMETER) with IDENTIFIER in Hv.
  destruct (conforms IDENTIFIER d) eqn:Hc; [|done]. injection Hv as <-.
  assert (n = FLEET_PREFIX ++ d) as -> by (by injection Hn as <-). split; [done|]. repeat split.
  - rewrite has_char_app. change (has_char "_" FLEET_PREFIX) with false.
    by apply (fullmatch_no_char IDENTIFIER_PATTERN).
  - apply conforms_length in Hc. cbn [rule_bound] in Hc. rewrite str_length_app.
    unfold MAX_QUEUE_NAME_LENGTH. cbn [FLEET_PREFIX String.length]. lia.
Qed.

Lemma drone_names drones dq :
  drone_queues drones = Ok dq →
  name <$> dq = String.append FLEET_PREFIX <$> drones ∧ Forall primary_name (name <$> dq).
Proof.
  intros Hdq%map_ok_Forall2. induction Hdq as [|d q drones dq Hq Hdq [IH1 IH2]]; [by split|].
  unfold drone_queue in Hq. apply bind_Ok in Hq as (n&Hn&Hq). apply bind_Ok in Hq as (s&_&Hq).
  assert (name q = n) as Hnq by (by injection Hq as <-). apply drone_name in Hn as [-> Hp]. rewrite <- Hnq in Hp. rewrite !fmap_cons.
  split; [by rewrite Hnq, IH1|]. by apply Forall_cons.
Qed.

Lemma primary_names drones ps :
  NoDup drones → primary_queues drones = Ok ps → NoDup (name <$> ps) ∧ Forall primary_name (name <$> ps).
Proof.
  intros Hnd (dq&Hdq&->)%primary_queues_split. destruct (drone_names drones dq Hdq) as [Hn Hp].
  destruct fixed_names as (Hnf&Hpf&Hno). rewrite fmap_app. split; [|by apply Forall_app].
  apply NoDup_app. rewrite Hn. split; [|split; [|done]].
  - apply NoDup_fmap_2; [|done]. intros a b. apply str_app_inv_head.
  - intros n (d&->&_)%list_elem_of_fmap Hin. eapply Forall_forall in Hno; [|exact Hin].
    by rewrite (proj2 (starts_with_spec _ _)) in Hno by by eexists.
Qed.

Lemma dead_message_marked n : has_char "_" (dead_message_queue_name n) = true.
Proof. unfold dead_message_queue_name. rewrite has_char_app. apply orb_true_r. Qed.

(** Each primary next to its dead-message queue, over distinct unmarked primaries. *)
Lemma paired_names (ps : list QueueSpec) :
  NoDup (name <$> ps) → Forall primary_name (name <$> ps) → NoDup (name <$> (ps ≫= with_dead_message)).
Proof.
  assert (Hin : ∀ ps n, n ∈ name <$> (ps ≫= with_dead_message) →
    ∃ m, m ∈ name <$> ps ∧ (n = m ∨ n = dead_message_queue_name m)).
  { clear. intros ps n (q&->&(p&Hq&Hp)%list_elem_of_bind)%list_elem_of_fmap.
    exists (name p). split; [by apply list_elem_of_fmap_2|]. unfold with_dead_message in Hq.
    rewrite !elem_of_cons, elem_of_nil in Hq. destruct Hq as [->|[->|[]]]; [by right|by left]. }
  induction ps as [|p ps IH]; [constructor|]. rewrite fmap_cons, NoDup_cons, Forall_cons.
  intros [Hp Hnd] [(_&Hu&_) Hps]. rewrite bind_cons, fmap_app.
  change (name <$> with_dead_message p) with [dead_message_queue_name (name p); name p].
  assert (Hm : ∀ m, m ∈ name <$> ps → has_char "_" m = false)
    by (intros m Hm; eapply Forall_forall in Hps; [|exact Hm]; apply Hps).
  repeat (apply NoDup_cons; split); [| |by apply IH].
  - intros [Heq|(m&Hm'&[Heq|Heq])%Hin]%elem_of_cons.
    + by rewrite <- Heq, dead_message_marked in Hu.
    + specialize (Hm m Hm'). by rewrite <- Heq, dead_message_marked in Hm.
    + apply str_app_inv_tail in Heq. by rewrite Heq in Hp.
  - intros (m&Hm'&[Heq|Heq])%Hin; [by rewrite Heq in Hp|]. by rewrite Heq, dead_message_marked in Hu.
Qed.

(** Every name of the set: an upstream dead-message queue's, or of a primary with its own. *)
Lemma desired_names drones qs n :
  NoDup drones → desired_queues drones = Ok qs → n ∈ name <$> qs →
  starts_with "aerial-rescue/" n = false ∨
  ∃ m, m ∈ name <$> qs ∧ primary_name m ∧ (n = m ∨ n = dead_message_queue_name m).
Proof.
  intros Hnd (ps&Hps&Hqs)%bind_Ok. destruct (primary_names drones ps Hnd Hps) as [_ Hp].
  assert (qs = upstream_dead_messages ++ (ps ≫= with_dead_message))%list as -> by congruence. clear Hqs.
  rewrite fmap_app. intros [Hu|(q&->&(p&Hq&Hpin)%list_elem_of_bind)%list_elem_of_fmap]%elem_of_app.
  - left. revert n Hu. apply Forall_forall. by_tables.
  - right. exists (name p). split; [|split].
    + apply elem_of_app. right. apply list_elem_of_fmap_2, list_elem_of_bind. exists p. split; [|done]. right. by left.
    + eapply Forall_forall in Hp; [exact Hp|]. by apply list_elem_of_fmap_2.
    + unfold with_dead_message in Hq. rewrite !elem_of_cons, elem_of_nil in Hq. destruct Hq as [->|[->|[]]]; auto.
Qed.

Lemma primary_dead_message drones ps q :
  primary_queues drones = Ok ps → q ∈ ps → dead_message_queue q = Some (dead_message_queue_name (name q)).
Proof.
  intros (dq&Hdq&->)%primary_queues_split [Hq|Hq]%elem_of_app.
  - apply map_ok_Forall2 in Hdq. apply list_elem_of_lookup in Hq as [i Hi].
    destruct (Forall2_lookup_r _ _ _ _ _ Hdq Hi) as (d&_&Hd). by apply drone_queue_Ok in Hd as (?&?&?&->).
  - revert q Hq. apply Forall_forall. by_tables.
Qed.

(** The names of a provisioned set are safe.  No two queues share one, drone queues and
    dead-message queues included, every name is within the broker's bound with its suffix, and
    every queue that names a dead-message queue comes right after it: unowned, subscribed to
    nothing and forwarding to no third queue. *)
Lemma queue_names_safe drones qs :
  NoDup drones → desired_queues drones = Ok qs →
  NoDup (name <$> qs) ∧ Forall (λ q, (String.length (name q) ≤ MAX_QUEUE_NAME_LENGTH)%nat) qs ∧
  ∀ q dmq, q ∈ qs → dead_message_queue q = Some dmq →
    ∃ before d after, qs = (before ++ d :: q :: after)%list ∧
      name d = dmq ∧ owner d = UNOWNED ∧ subscriptions d = [] ∧ dead_message_queue d = None.
Proof.
  intros Hnd (ps&Hps&Hqs)%bind_Ok. destruct (primary_names drones ps Hnd Hps) as [Hn Hp].
  assert (qs = upstream_dead_messages ++ (ps ≫= with_dead_message))%list as -> by congruence. clear Hqs.
  assert (Hup : Forall (λ q, starts_with "aerial-rescue/" (name q) = false ∧
    (String.length (name q) ≤ MAX_QUEUE_NAME_LENGTH)%nat ∧ dead_message_queue q = None) upstream_dead_messages) by by_tables.
  assert (Hin : ∀ q, q ∈ ps ≫= with_dead_message → ∃ p, p ∈ ps ∧ primary_name (name p) ∧ q ∈ with_dead_message p).
  { intros q (p&Hq&Hpin)%list_elem_of_bind. exists p. split; [done|]. split; [|done].
    eapply Forall_forall in Hp; [exact Hp|]. by apply list_elem_of_fmap_2. }
  split; [|split].
  - rewrite fmap_app. apply NoDup_app. split; [by_tables|]. split; [|by apply paired_names].
    intros n (u&->&Hu)%list_elem_of_fmap (q&Heq&(p&_&(Hpre&_)&Hq)%Hin)%list_elem_of_fmap.
    eapply Forall_forall in Hup as (Hno&_); [|exact Hu]. rewrite Heq in Hno.
    unfold with_dead_message in Hq. rewrite !elem_of_cons, elem_of_nil in Hq.
    apply starts_with_spec in Hpre as [r Hr].
    destruct Hq as [->|[->|[]]]; cbn [name dead_message] in Hno; unfold dead_message_queue_name in Hno;
      by rewrite Hr, (proj2 (starts_with_spec _ _)) in Hno by (rewrite <- ?str_app_assoc; by eexists).
  - apply Forall_app. split; [eapply Forall_impl; [exact Hup|]; naive_solver|]. apply Forall_forall.
    intros q (p&_&(_&_&Hlen)&Hq)%Hin. unfold with_dead_message in Hq. rewrite !elem_of_cons, elem_of_nil in Hq.
    destruct Hq as [->|[->|[]]]; [|lia]. cbn [name dead_message]. unfold dead_message_queue_name.
    rewrite str_length_app. exact Hlen.
  - intros q dmq [Hq|(l&Hq&Hl)%list_elem_of_bind]%elem_of_app Hd.
    { eapply Forall_forall in Hup as (_&_&Hx); [|exact Hq]. congruence. }
    unfold with_dead_message in Hq. rewrite !elem_of_cons, elem_of_nil in Hq. destruct Hq as [->|[->|[]]]; [done|].
    pose proof (primary_dead_message drones ps l Hps Hl) as Hdm. rewrite Hdm in Hd. injection Hd as <-.
    apply list_elem_of_split in Hl as (l1&l2&->). rewrite bind_app, bind_cons.
    exists (upstream_dead_messages ++ (l1 ≫= with_dead_message))%list. eexists _, (l2 ≫= with_dead_message).
    split; [by rewrite <- app_assoc|done].
Qed.

(** A fleet of two. *)
Definition two_drones : list string := ["drone-1"; "drone-2"].
Definition two_drone_queues : list QueueSpec :=
  Eval vm_compute in match desired_queues two_drones with Ok qs => qs | Err _ => [] end.

Lemma queue_names_safe_witness : length two_drone_queues = 47%nat ∧ NoDup (name <$> two_drone_queues).
Proof.
  split; [by vm_compute|]. by apply (queue_names_safe two_drones two_drone_queues); [by_tables|vm_compute].
Defined.
