(* ===== verification/Provisioning.v ===== *)
(** * Broker provisioning

    [packages/broker/src/aerial_rescue_broker/provisioning.py], up to the retirement of stale
    queues: the objects the authorization matrix implies, the management requests that write
    them, and the apply that writes each once and reads it back.  The management interface is
    the class [Semp]: what it answers is its own, what is asked of it is logged. *)

From S2P Require Import Prelude PyStr PyVal Topics Principals Subscriptions Routing Queues.
Local Open Scope string_scope.
Local Open Scope Z_scope.

Definition FACTORY_CLIENT_USERNAME : string := "default".
Definition RETIRED_SCENARIO_IDENTITY : string := "scenario-service".
Definition TOPIC_SYNTAX : string := "smf".
Definition SECRET_MEMBERS : list string := ["password"].
Definition UPSTREAM_ASSURED_DELIVERY_WINDOW_MESSAGES : Z := 255.
Definition QUEUE_SUBSCRIPTION_MEMBER : string := "subscriptionTopic".
Definition DEAD_MESSAGE_REFUSED_MEMBERS : list string := ["maxRedeliveryCount"; "maxTtl"].
Definition REPLY_INBOX_SUBSCRIPTIONS : Z := 1.
Definition MAX_SPOOL_MEGABYTES : Z := 10.
Definition MAX_REDELIVERY_COUNT : Z := 3.
Definition MAX_TTL_SECONDS : Z := 300.
Definition MAX_BIND_COUNT : Z := 1.
Definition QUEUE_ACCESS_TYPE : string := "exclusive".
Definition QUEUE_PERMISSION : string := "no-access".
Definition DISCARD_NOTIFICATION : string := "always".

Definition off (names : list string) : members := document ((λ n, (n, PyBool false)) <$> names).

(** [_BROKER_PROTOCOL_STATE], [_VPN_PROTOCOL_STATE] *)
Definition BROKER_PROTOCOL_STATE : members :=
  (off ["serviceAmqpEnabled"; "serviceMqttEnabled"; "serviceRestIncomingEnabled"; "serviceRestOutgoingEnabled"]
   ++ document [("serviceSmfEnabled", PyBool true)] ++ off ["serviceWebTransportEnabled"])%list.

Definition VPN_PROTOCOL_STATE : members :=
  (off ["serviceAmqpPlainTextEnabled"; "serviceAmqpTlsEnabled"; "serviceMqttPlainTextEnabled";
        "serviceMqttTlsEnabled"; "serviceMqttTlsWebSocketEnabled"; "serviceMqttWebSocketEnabled";
        "serviceRestIncomingPlainTextEnabled"; "serviceRestIncomingTlsEnabled"; "serviceSmfPlainTextEnabled"]
   ++ document [("serviceSmfTlsEnabled", PyBool true)]
   ++ off ["serviceWebPlainTextEnabled"; "serviceWebTlsEnabled"])%list.

Inductive Method : Set := GET | POST | PUT | PATCH | DELETE.

#[export] Instance Method_eq_dec : EqDecision Method.
Proof. solve_decision. Defined.

Inductive ProvisioningRefusal : Set :=
| MISSING_CREDENTIAL | MALFORMED_READBACK | READBACK_MISMATCH | QUEUE_MONITOR_MISSING
| RETIRED_IDENTITY_PRESENT | UNSAFE_RETIREMENT.

Record Request : Set := { method : Method; path : string; request_body : members }.

Record ProfileState : Set := { profile_name : string; profile_publish : list string; profile_subscribe : list string }.

Record ClientProfileState : Set := {
  profile_role : Principal; allow_guaranteed_send : bool; allow_guaranteed_receive : bool;
  allow_endpoint_create : bool; max_connections : Z; max_egress_flows : Z; max_ingress_flows : Z;
  max_endpoints : Z; max_subscriptions : Z; reject_no_subscription : bool; queue_template : option string
}.

Record UsernameState : Set := { username : string; username_profile : string; password : string; enabled : bool }.

Record DesiredState : Set := {
  vpn : string; profiles : list ProfileState; client_profiles : list ClientProfileState;
  usernames : list UsernameState; templates : list QueueTemplateSpec; queues : list QueueSpec
}.

(** [_Collection] *)
Record Collection : Set := {
  collection_path : string; collection_member : string; extra : list (string * string); key_prefix : string
}.

(** What building a desired state or applying it can raise. *)
Inductive provisioning_failure {S : Type} : Type :=
| ProvisioningError (refusal : ProvisioningRefusal) (value : list string)
| BadNamespace (e : subscription_failure)
| BadQueue (e : queue_failure)
| Transport (e : S).
Arguments provisioning_failure S : clear implicits.

(** [urllib.parse.quote] with no safe characters: every other byte of the text as [%XX]. *)
Definition unreserved (c : ascii) : bool :=
  is_upper c || is_lower c || is_digit c || bool_decide (c ∈ ["_"%char; "."%char; "-"%char; "~"%char]).
Definition hex_upper (n : nat) : ascii := ascii_of_nat (if (n <? 10)%nat then 48 + n else 55 + n)%nat.
Fixpoint quote (s : string) : string :=
  match s with
  | "" => ""
  | String c s =>
      if unreserved c then String c (quote s)
      else let n := nat_of_ascii c in
           String "%" (String (hex_upper (n / 16)) (String (hex_upper (n mod 16)) (quote s)))
  end.

(** ** The desired state *)

(** [_CLIENT_PROFILE_VALUES]: the role's row, total over the roles. *)
Definition client_profile (role : Principal) : ClientProfileState :=
  let row send receive create connections egress ingress endpoints subscriptions reject template := {|
    profile_role := role; allow_guaranteed_send := send; allow_guaranteed_receive := receive;
    allow_endpoint_create := create; max_connections := connections; max_egress_flows := egress;
    max_ingress_flows := ingress; max_endpoints := endpoints; max_subscriptions := subscriptions;
    reject_no_subscription := reject; queue_template := template |} in
  match role with
  | FLEET_SIMULATOR => row true true false 1 23 1 23 0 true None
  | COMMAND_GATEWAY => row true true false 1 3 1 3 2 true None
  | DASHBOARD_API => row true true false 1 6 1 6 3 true None
  | EVIDENCE_SERVICE => row true true false 1 2 1 2 0 true None
  | RECORDER => row false true false 1 10 0 10 3 false None
  | EVENT_MESH_GATEWAY => row true true true 4 1 1 2 0 false (Some "aerial-rescue-event-mesh-gateway-temp")
  | EVENT_MESH_TOOL => row true true true 1 1 1 1 0 false (Some "aerial-rescue-event-mesh-tool-temp")
  | AGENT_MESH_AGENT => row true true true 16 1 1 9 0 false (Some "aerial-rescue-agent-mesh-temp")
  | DISCOVERY => row false false false 0 0 0 0 0 false None
  end.

(** [_exceptions_for]: a set of patterns. *)
Definition exceptions_for (role : Principal) (access : Access) (namespace : option pyval)
    : result subscription_failure (list string) :=
  let granted := subscription_for <$> grants role access in
  let topics :=
    if bool_decide (role = RECORDER) && bool_decide (access = SUBSCRIBE)
    then connectivity_subscription :: salient_subscription :: filter (λ s, s ≠ subscription_for DRONE_EVENT) granted
    else granted in
  a2a ← match namespace with
        | Some ns => if may_use_a2a role then s ← a2a_subscription ns; Ok [s] else Ok []
        | None => Ok []
        end;
  Ok (topics ++ a2a ++
      if bool_decide (access = SUBSCRIBE) && may_use_reply_channel role then [reply_subscription] else [])%list.

Section building.
Context {S : Type}.

(** [_credential] *)
Definition credential (credentials : list (Principal * string)) (role : Principal)
    : result (provisioning_failure S) string :=
  let p := default "" (dict_get credentials role) in
  raise_if (bool_decide (p = "")) (ProvisioningError MISSING_CREDENTIAL [principal_value role]) ;;
  Ok p.

Definition profile_state (namespace : option pyval) (role : Principal) : result (provisioning_failure S) ProfileState :=
  publish ← map_err BadNamespace (exceptions_for role PUBLISH namespace);
  subscribe ← map_err BadNamespace (exceptions_for role SUBSCRIBE namespace);
  Ok {| profile_name := principal_value role; profile_publish := publish; profile_subscribe := subscribe |}.

Definition username_state (credentials : list (Principal * string)) (role : Principal)
    : result (provisioning_failure S) UsernameState :=
  p ← credential credentials role;
  Ok {| username := principal_value role; username_profile := principal_value role; password := p; enabled := true |}.

Definition desired_state (v : string) (credentials : list (Principal * string)) (namespace : option pyval)
    (drones : list string) : result (provisioning_failure S) DesiredState :=
  ps ← map_ok (profile_state namespace) PRINCIPALS;
  us ← map_ok (username_state credentials) (filter (λ role, role ≠ DISCOVERY) PRINCIPALS);
  qs ← map_err BadQueue (desired_queues drones);
  Ok {| vpn := v; profiles := ps; client_profiles := client_profile <$> PRINCIPALS; usernames := us;
        templates := queue_templates; queues := qs |}.
End building.

(** ** The requests *)

Definition below (v : string) (rest : list string) : string := join "/" ("msgVpns" :: v :: rest).

Definition threshold (clear set_ : Z) : pyval :=
  PyDict (document [("clearPercent", PyInt clear); ("setPercent", PyInt set_)]).
Definition BIND_THRESHOLD : pyval := threshold 60 80.
Definition SPOOL_THRESHOLD : pyval := threshold 18 25.
Definition REJECT_THRESHOLD : pyval := threshold 60 80.

Definition profile_request (v : string) (p : ProfileState) : Request := {|
  method := PUT; path := below v ["aclProfiles"; profile_name p];
  request_body := document [
    ("aclProfileName", PyStr (profile_name p)); ("msgVpnName", PyStr v);
    ("clientConnectDefaultAction", PyStr "allow"); ("publishTopicDefaultAction", PyStr "disallow");
    ("subscribeTopicDefaultAction", PyStr "disallow"); ("subscribeShareNameDefaultAction", PyStr "disallow")] |}.

Definition username_request (v : string) (u : UsernameState) : Request := {|
  method := PUT; path := below v ["clientUsernames"; username u];
  request_body := document [
    ("clientUsername", PyStr (username u)); ("msgVpnName", PyStr v);
    ("aclProfileName", PyStr (username_profile u)); ("clientProfileName", PyStr (username_profile u));
    ("enabled", PyBool (enabled u)); ("guaranteedEndpointPermissionOverrideEnabled", PyBool false);
    ("subscriptionManagerEnabled", PyBool false); ("password", PyStr (password u))] |}.

Definition client_profile_request (v : string) (p : ClientProfileState) : Request := {|
  method := PUT; path := below v ["clientProfiles"; principal_value (profile_role p)];
  request_body := document [
    ("clientProfileName", PyStr (principal_value (profile_role p))); ("msgVpnName", PyStr v);
    ("allowGuaranteedMsgSendEnabled", PyBool (allow_guaranteed_send p));
    ("allowGuaranteedMsgReceiveEnabled", PyBool (allow_guaranteed_receive p));
    ("allowGuaranteedEndpointCreateEnabled", PyBool (allow_endpoint_create p));
    ("allowGuaranteedEndpointCreateDurability", PyStr "non-durable");
    ("allowTransactedSessionsEnabled", PyBool false); ("allowBridgeConnectionsEnabled", PyBool false);
    ("allowSharedSubscriptionsEnabled", PyBool false); ("compressionEnabled", PyBool false);
    ("elidingEnabled", PyBool false);
    ("apiQueueManagementCopyFromOnCreateTemplateName", PyStr (default "" (queue_template p)));
    ("rejectMsgToSenderOnNoSubscriptionMatchEnabled", PyBool (reject_no_subscription p));
    ("maxConnectionCountPerClientUsername", PyInt (max_connections p));
    ("serviceSmfMaxConnectionCountPerClientUsername", PyInt (max_connections p));
    ("serviceWebMaxConnectionCountPerClientUsername", PyInt 0);
    ("maxEgressFlowCount", PyInt (max_egress_flows p));
    ("queueGuaranteed1MinMsgBurst", PyInt (max_egress_flows p *
       match queue_template p with
       | Some _ => UPSTREAM_ASSURED_DELIVERY_WINDOW_MESSAGES
       | None => APPLICATION_MAX_DELIVERED_UNACKED
       end));
    ("maxIngressFlowCount", PyInt (max_ingress_flows p));
    ("maxEndpointCountPerClientUsername", PyInt (max_endpoints p));
    ("maxSubscriptionCount", PyInt (max_subscriptions p +
       if bool_decide (max_connections p = 0) then 0 else REPLY_INBOX_SUBSCRIPTIONS));
    ("maxTransactedSessionCount", PyInt 0); ("maxTransactionCount", PyInt 0);
    ("serviceSmfMinKeepaliveEnabled", PyBool true); ("serviceMinKeepaliveTimeout", PyInt 30);
    ("tcpKeepaliveCount", PyInt 5); ("tcpKeepaliveIdleTime", PyInt 3); ("tcpKeepaliveInterval", PyInt 1);
    ("tlsAllowDowngradeToPlainTextEnabled", PyBool false)] |}.

Definition queue_template_request (v : string) (t : QueueTemplateSpec) : Request := {|
  method := PUT; path := below v ["queueTemplates"; template_name t];
  request_body := document [
    ("queueTemplateName", PyStr (template_name t)); ("msgVpnName", PyStr v);
    ("queueNameFilter", PyStr (name_filter t)); ("accessType", PyStr QUEUE_ACCESS_TYPE);
    ("durabilityOverride", PyStr (durability t)); ("maxBindCount", PyInt MAX_BIND_COUNT);
    ("maxDeliveredUnackedMsgsPerFlow", PyInt (template_unacked t)); ("maxMsgSize", PyInt (template_bytes t));
    ("maxMsgSpoolUsage", PyInt MAX_SPOOL_MEGABYTES); ("redeliveryEnabled", PyBool true);
    ("maxRedeliveryCount", PyInt MAX_REDELIVERY_COUNT); ("maxTtl", PyInt MAX_TTL_SECONDS);
    ("respectTtlEnabled", PyBool true); ("deadMsgQueue", PyStr (template_dmq t));
    ("permission", PyStr QUEUE_PERMISSION);
    ("rejectMsgToSenderOnDiscardBehavior", PyStr DISCARD_NOTIFICATION);
    ("respectDmqEligibleEnabled", PyBool true); ("eventBindCountThreshold", BIND_THRESHOLD);
    ("eventMsgSpoolUsageThreshold", SPOOL_THRESHOLD);
    ("eventRejectLowPriorityMsgLimitThreshold", REJECT_THRESHOLD)] |}.

Definition disable_factory_request (v : string) : Request := {|
  method := PATCH; path := below v ["clientUsernames"; FACTORY_CLIENT_USERNAME];
  request_body := document [("enabled", PyBool false)] |}.

Definition broker_protocol_request : Request :=
  {| method := PATCH; path := ""; request_body := BROKER_PROTOCOL_STATE |}.

Definition vpn_protocol_request (v : string) : Request :=
  {| method := PATCH; path := below v []; request_body := VPN_PROTOCOL_STATE |}.

Definition queue_request (v : string) (q : QueueSpec) : Request :=
  let dead := bool_decide (dead_message_queue q = None) in
  let body := [
    ("queueName", PyStr (name q)); ("msgVpnName", PyStr v); ("owner", PyStr (owner q));
    ("permission", PyStr QUEUE_PERMISSION); ("accessType", PyStr QUEUE_ACCESS_TYPE);
    ("maxBindCount", PyInt MAX_BIND_COUNT);
    ("maxDeliveredUnackedMsgsPerFlow", PyInt (max_delivered_unacked q));
    ("maxMsgSize", PyInt (max_message_bytes q)); ("maxMsgSpoolUsage", PyInt MAX_SPOOL_MEGABYTES);
    ("maxRedeliveryCount", PyInt MAX_REDELIVERY_COUNT); ("maxTtl", PyInt MAX_TTL_SECONDS);
    ("respectTtlEnabled", PyBool (negb dead));
    ("deadMsgQueue", match dead_message_queue q with Some n => PyStr n | None => PyNone end);
    ("respectDmqEligibleEnabled", PyBool false); ("redeliveryEnabled", PyBool (negb dead));
    ("rejectMsgToSenderOnDiscardBehavior", PyStr DISCARD_NOTIFICATION);
    ("eventBindCountThreshold", BIND_THRESHOLD); ("eventMsgSpoolUsageThreshold", SPOOL_THRESHOLD);
    ("eventRejectLowPriorityMsgLimitThreshold", REJECT_THRESHOLD);
    ("ingressEnabled", PyBool true); ("egressEnabled", PyBool true)] in
  let refused := if dead then "deadMsgQueue" :: DEAD_MESSAGE_REFUSED_MEMBERS else [] in
  {| method := PUT; path := below v ["queues"; quote (name q)];
     request_body := document (filter (λ m, m.1 ∉ refused) body) |}.

(** [_EXCEPTION_COLLECTION], [_EXCEPTION_MEMBER], [_SYNTAX_MEMBER] *)
Definition EXCEPTION_COLLECTION (a : Access) : string :=
  match a with PUBLISH => "publishTopicExceptions" | SUBSCRIBE => "subscribeTopicExceptions" end.
Definition EXCEPTION_MEMBER (a : Access) : string :=
  match a with PUBLISH => "publishTopicException" | SUBSCRIBE => "subscribeTopicException" end.
Definition SYNTAX_MEMBER (a : Access) : string :=
  match a with PUBLISH => "publishTopicExceptionSyntax" | SUBSCRIBE => "subscribeTopicExceptionSyntax" end.

Definition exception_collection (v profile : string) (a : Access) : Collection := {|
  collection_path := below v ["aclProfiles"; profile; EXCEPTION_COLLECTION a];
  collection_member := EXCEPTION_MEMBER a; extra := [(SYNTAX_MEMBER a, TOPIC_SYNTAX)];
  key_prefix := TOPIC_SYNTAX ++ "," |}.

Definition subscription_collection (v queue : string) : Collection := {|
  collection_path := below v ["queues"; quote queue; "subscriptions"];
  collection_member := QUEUE_SUBSCRIPTION_MEMBER; extra := []; key_prefix := "" |}.

(** ** Applying a state *)

Definition get_request (p : string) : Request := {| method := GET; path := p; request_body := [] |}.
Definition delete_request (p : string) : Request := {| method := DELETE; path := p; request_body := [] |}.

(** One monitor row and the counts of its child collections. *)
Record MonitorRow : Set := { data : members; collections : members }.

(** The management interface: every call answers or fails, and may change the broker. *)
Class Semp := {
  semp : Type;
  semp_error : Type;
  sends : Request → semp → result semp_error (list members) * semp;
  reads_all : string → semp → result semp_error (list members) * semp;
  requires_fields : list (string * list string) → semp → result semp_error unit * semp;
  reads_monitor_rows : string → semp → result semp_error (list MonitorRow) * semp;
  reads_monitor_count : string → semp → result semp_error pyval * semp
}.

(** One call and its answer, if it had one. *)
Inductive exchange : Set :=
| Asked (r : Request) (answer : option (list members))
| Monitored (p : string) (answer : option (list MonitorRow))
| Counted (p : string) (answer : option pyval).

(** The names of a document's members. *)
Definition names_of (d : members) : list string := key_text <$> d.*1.

Section applying.
Context `{M : Semp}.

(** The interface, and what passed between it and the apply, oldest first. *)
Record session : Type := { remote : semp; passed : list exchange }.

Abbreviation configuring := (acting session (provisioning_failure semp_error)).

Definition refused {A} (r : ProvisioningRefusal) (v : list string) : configuring A := calm (Err (ProvisioningError r v)).

Definition send (r : Request) : configuring (list members) := λ w,
  let (o, s) := sends r (remote w) in
  (map_err Transport o, {| remote := s; passed := passed w ++ [Asked r (ok_value o)] |}%list).

Definition read_all (p : string) : configuring (list members) := λ w,
  let (o, s) := reads_all p (remote w) in
  (map_err Transport o, {| remote := s; passed := passed w ++ [Asked (get_request p) (ok_value o)] |}%list).

Definition require_config_fields (fields : list (string * list string)) : configuring unit := λ w,
  let (o, s) := requires_fields fields (remote w) in (map_err Transport o, {| remote := s; passed := passed w |}).

(** [for item in items]: the calls in order. *)
Fixpoint for_each {A} (f : A → configuring unit) (l : list A) : configuring unit :=
  match l with [] => mret tt | a :: l => f a ;; for_each f l end.

(** [_verify_readback] *)
Definition readable (d : members) : members := filter (λ m, key_in SECRET_MEMBERS m.1 = false) d.

Definition matches_readback (written row : members) : bool :=
  forallb (λ m : pykey * pyval, py_eq (default PyNone (dict_get row m.1)) m.2) written.

Definition verify_readback (r : Request) : configuring unit :=
  rows ← send (get_request (path r));
  match rows with
  | [row] =>
      if matches_readback (readable (request_body r)) row then mret tt else refused READBACK_MISMATCH [path r]
  | _ => refused MALFORMED_READBACK [path r]
  end.

Definition write_verified (r : Request) : configuring unit := send r ;; verify_readback r.

(** The texts of one member over the rows, each there and no two equal. *)
Definition distinct_texts (member : string) (rows : list members) : option (list string) :=
  match mapM (λ row, as_text (get row member)) rows with
  | Some texts => if decide (NoDup texts) then Some texts else None
  | None => None
  end.

(** [_present] and [_inventory] read one collection the same way. *)
Definition inventory (p member : string) : configuring (list string) :=
  rows ← read_all p;
  match distinct_texts member rows with
  | Some texts => mret texts
  | None => refused MALFORMED_READBACK [p]
  end.

Definition present (c : Collection) : configuring (list string) := inventory (collection_path c) (collection_member c).

Definition client_username_inventory (v : string) : configuring (list string) :=
  inventory (below v ["clientUsernames"]) "clientUsername".

(** [_remove_discovery_username] *)
Definition remove_discovery_username (v : string) : configuring unit :=
  let discovery := principal_value DISCOVERY in
  let p := below v ["clientUsernames"; discovery] in
  here ← client_username_inventory v;
  if bool_decide (discovery ∈ here) then
    write_verified {| method := PATCH; path := p; request_body := document [("enabled", PyBool false)] |} ;;
    send (delete_request p) ;;
    still ← client_username_inventory v;
    if bool_decide (discovery ∈ still) then refused READBACK_MISMATCH [p] else mret tt
  else mret tt.

(** [_refuse_retired_scenario_identity]: whether one object of the retired identity is there. *)
Definition retired_object (collection member : string) (expected : members) : configuring (list string) :=
  here ← inventory collection member;
  if bool_decide (RETIRED_SCENARIO_IDENTITY ∈ here) then
    let p := join "/" [collection; RETIRED_SCENARIO_IDENTITY] in
    rows ← send (get_request p);
    match rows with
    | [row] => if matches_readback expected row then mret [p] else refused MALFORMED_READBACK [p]
    | _ => refused MALFORMED_READBACK [p]
    end
  else mret [].

Definition refuse_retired_scenario_identity (v : string) : configuring unit :=
  let n := PyStr RETIRED_SCENARIO_IDENTITY in
  a ← retired_object (below v ["clientUsernames"]) "clientUsername"
        (document [("clientUsername", n); ("aclProfileName", n); ("clientProfileName", n)]);
  b ← retired_object (below v ["aclProfiles"]) "aclProfileName" (document [("aclProfileName", n)]);
  c ← retired_object (below v ["clientProfiles"]) "clientProfileName" (document [("clientProfileName", n)]);
  match (a ++ b ++ c)%list with [] => mret tt | found => refused RETIRED_IDENTITY_PRESENT found end.

(** [_reconcile] *)
Definition post_request (c : Collection) (topic : string) : Request := {|
  method := POST; path := collection_path c;
  request_body := document ((collection_member c, PyStr topic) ::
                            ((λ m : string * string, (m.1, PyStr m.2)) <$> extra c)) |}.

Definition removal_request (c : Collection) (topic : string) : Request :=
  delete_request (join "/" [collection_path c; key_prefix c ++ quote topic]).

Definition same_topics (a b : list string) : bool :=
  bool_decide (a ⊆ b) && bool_decide (b ⊆ a).

Definition reconcile (c : Collection) (wanted : list string) : configuring unit :=
  here ← present c;
  for_each (λ t, send (post_request c t) ;; mret tt) (merge_sort String.le (filter (λ t, t ∉ here) wanted)) ;;
  for_each (λ t, send (removal_request c t) ;; mret tt) (merge_sort String.le (filter (λ t, t ∉ wanted) here)) ;;
  now ← present c;
  if same_topics now wanted then mret tt else refused READBACK_MISMATCH [collection_path c].

Definition apply_queue (v : string) (q : QueueSpec) : configuring unit :=
  write_verified (queue_request v q) ;;
  reconcile (subscription_collection v (name q)) (subscriptions q).

(** [_apply_queue_partition] *)
Definition apply_queue_partition (d : DesiredState) (template_dmqs : list string) (apply_template_dmqs : bool)
    : configuring unit :=
  for_each (λ q, if Bool.eqb (bool_decide (name q ∈ template_dmqs)) apply_template_dmqs
                 then apply_queue (vpn d) q else mret tt) (queues d).

(** [_apply_acl_profiles] *)
Definition apply_acl_profile (v : string) (p : ProfileState) : configuring unit :=
  write_verified (profile_request v p) ;;
  for_each (λ a, reconcile (exception_collection v (profile_name p) a)
                   (match a with PUBLISH => profile_publish p | SUBSCRIBE => profile_subscribe p end))
           [PUBLISH; SUBSCRIBE].

(** [_config_spec_requirements] *)
Definition config_spec_requirements (d : DesiredState) : list (string * list string) := [
  ("Broker", names_of (request_body broker_protocol_request));
  ("MsgVpn", names_of (request_body (vpn_protocol_request (vpn d))));
  ("MsgVpnClientProfile", client_profiles d ≫= λ p, names_of (request_body (client_profile_request (vpn d) p)));
  ("MsgVpnClientUsername", usernames d ≫= λ u, names_of (request_body (username_request (vpn d) u)));
  ("MsgVpnQueue", queues d ≫= λ q, names_of (request_body (queue_request (vpn d) q)));
  ("MsgVpnQueueTemplate", templates d ≫= λ t, names_of (request_body (queue_template_request (vpn d) t)))
].

Definition apply (d : DesiredState) : configuring unit :=
  let template_dmqs := template_dmq <$> templates d in
  require_config_fields (config_spec_requirements d) ;;
  write_verified (disable_factory_request (vpn d)) ;;
  write_verified broker_protocol_request ;;
  write_verified (vpn_protocol_request (vpn d)) ;;
  remove_discovery_username (vpn d) ;;
  refuse_retired_scenario_identity (vpn d) ;;
  apply_queue_partition d template_dmqs true ;;
  for_each (λ t, write_verified (queue_template_request (vpn d) t)) (templates d) ;;
  for_each (apply_acl_profile (vpn d)) (profiles d) ;;
  for_each (λ p, write_verified (client_profile_request (vpn d) p)) (client_profiles d) ;;
  for_each (λ u, write_verified (username_request (vpn d) u)) (usernames d) ;;
  apply_queue_partition d template_dmqs false.
End applying.
