(* ===== verification/Provisioned.v ===== *)
(** * What provisioning grants and touches

    Over [Provisioning.v]: the access lists and queues of a desired state against the grant
    tables; every request an apply can send, whatever the management interface answers; and
    the reconciliation of one collection over an interface that keeps its documented word. *)

From stdpp Require Import gmap sets strings.
From S2P Require Import Prelude PyStr PyVal Topics Principals Subscriptions Routing Queues Provisioning.
Local Open Scope string_scope.
Local Open Scope Z_scope.

(** ** Access lists *)

(** What the access list of a role must let through in one direction. *)
Definition permitted (role : Principal) (access : Access) (t : Topic) : Prop :=
  may_use role access (family t) = true ∧
  (family t = GATEWAY_RESPONSE → Topics.mission_id t = RESERVED_REPLY_MISSION) ∧
  (role = RECORDER → access = SUBSCRIBE → family t = DRONE_EVENT →
     dict_get (parameters t) "eventType" ∈ [Some CONNECTIVITY_EVENT_TYPE; Some SALIENT_EVENT_TYPE]) ∨
  access = SUBSCRIBE ∧ may_use_reply_channel role = true ∧ family t = GATEWAY_RESPONSE ∧
  Topics.mission_id t = RESERVED_REPLY_MISSION.

Section access.
Context `{SubscriptionMatching} (t : Topic) (text : string) (Hbuilt : format_topic t = Ok text).

Lemma granted_covers role access :
  Exists (λ s, covers s text = true) (subscription_for <$> grants role access) ↔
  may_use role access (family t) = true ∧
  (family t = GATEWAY_RESPONSE → Topics.mission_id t = RESERVED_REPLY_MISSION).
Proof.
  unfold may_use. rewrite bool_decide_eq_true, Exists_exists. split.
  - intros (s&(f&->&Hf)%list_elem_of_fmap&(<-&Hm)%(subscription_covers t text Hbuilt)). done.
  - intros [Hf Hm]. exists (subscription_for (family t)). split; [by apply list_elem_of_fmap_2|].
    by apply (subscription_covers t text Hbuilt).
Qed.

(** The recorder's drone events are cut to the two types it keeps. *)
Lemma recorder_covers :
  Exists (λ s, covers s text = true)
    (connectivity_subscription :: salient_subscription ::
     filter (λ s, s ≠ subscription_for DRONE_EVENT) (subscription_for <$> grants RECORDER SUBSCRIBE)) ↔
  permitted RECORDER SUBSCRIBE t.
Proof.
  rewrite !Exists_cons. unfold connectivity_subscription, salient_subscription.
  rewrite !(event_covers t text Hbuilt) by (rewrite !elem_of_cons; tauto).
  assert (Hrest : Exists (λ s, covers s text = true)
      (filter (λ s, s ≠ subscription_for DRONE_EVENT) (subscription_for <$> grants RECORDER SUBSCRIBE)) ↔
    may_use RECORDER SUBSCRIBE (family t) = true ∧ family t ≠ DRONE_EVENT ∧
    (family t = GATEWAY_RESPONSE → Topics.mission_id t = RESERVED_REPLY_MISSION)).
  { rewrite Exists_exists. split.
    - intros (s&[Hne (f&->&Hf)%list_elem_of_fmap]%list_elem_of_filter&(<-&Hm)%(subscription_covers t text Hbuilt)).
      split; [by apply bool_decide_eq_true|]. split; [by intros He; rewrite He in Hne|done].
    - intros (Hf&Hne&Hm). unfold may_use in Hf. apply bool_decide_eq_true in Hf.
      exists (subscription_for (family t)). split; [|by apply (subscription_covers t text Hbuilt)].
      apply list_elem_of_filter. split; [|by apply list_elem_of_fmap_2].
      revert Hne. clear. destruct (family t); intros Hne Heq; try done; vm_compute in Heq; discriminate. }
  rewrite Hrest. unfold permitted. rewrite !elem_of_cons, elem_of_nil.
  destruct (decide (family t = DRONE_EVENT)) as [He|He]; [rewrite He|]; naive_solver.
Qed.

Lemma exceptions_cover role access ns patterns :
  exceptions_for role access ns = Ok patterns →
  Exists (λ s, covers s text = true) patterns ↔ permitted role access t.
Proof.
  unfold exceptions_for. intros (a2a&Ha&[= <-])%bind_Ok. rewrite !Exists_app.
  assert (Hno : ¬ Exists (λ s, covers s text = true) a2a).
  { destruct ns as [ns|]; [|injection Ha as <-; by intros ?%Exists_nil].
    destruct (may_use_a2a role); [|injection Ha as <-; by intros ?%Exists_nil].
    apply bind_Ok in Ha as (s&Hs&[= <-]). intros [Hc|?%Exists_nil]%Exists_cons; [|done]. by rewrite (a2a_covers t text Hbuilt ns s Hs) in Hc. }
  assert (Hreply : Exists (λ s, covers s text = true)
      (if bool_decide (access = SUBSCRIBE) && may_use_reply_channel role then [reply_subscription] else []) ↔
    access = SUBSCRIBE ∧ may_use_reply_channel role = true ∧ family t = GATEWAY_RESPONSE ∧
    Topics.mission_id t = RESERVED_REPLY_MISSION).
  { destruct (bool_decide _ && _) eqn:Hc.
    - apply andb_true_iff in Hc as [Ha'%bool_decide_eq_true Hr].
      rewrite Exists_cons, Exists_nil, (reply_covers t text Hbuilt). naive_solver.
    - rewrite Exists_nil. split; [done|]. intros (->&Hr&_). by rewrite Hr in Hc. }
  rewrite Hreply. destruct (bool_decide (role = RECORDER) && bool_decide (access = SUBSCRIBE)) eqn:Hrec.
  - apply andb_true_iff in Hrec as [->%bool_decide_eq_true ->%bool_decide_eq_true].
    rewrite recorder_covers. unfold permitted. naive_solver.
  - rewrite granted_covers. unfold permitted.
    assert (role = RECORDER → access = SUBSCRIBE → False) by (intros -> ->; done). naive_solver.
Qed.
End access.

(** ** The desired state *)

Section desired.
Context {S : Type} (v : string) (credentials : list (Principal * string)) (ns : option pyval)
  (drones : list string) (d : DesiredState)
  (Hd : desired_state (S := S) v credentials ns drones = Ok d).

Lemma desired_queues_of : desired_queues drones = Ok (queues d).
Proof.
  pose proof Hd as H. unfold desired_state in H. apply bind_Ok in H as (ps&_&H). apply bind_Ok in H as (us&_&H).
  by apply bind_Ok in H as (qs&Hqs%map_err_Ok&[= <-]).
Qed.

Lemma desired_profile role :
  ∃ p, p ∈ profiles d ∧ profile_name p = principal_value role ∧
    exceptions_for role PUBLISH ns = Ok (profile_publish p) ∧
    exceptions_for role SUBSCRIBE ns = Ok (profile_subscribe p).
Proof.
  pose proof Hd as H. unfold desired_state in H. apply bind_Ok in H as (ps&Hps&H). apply bind_Ok in H as (us&_&H).
  apply bind_Ok in H as (qs&_&[= <-]). apply map_ok_Forall2 in Hps.
  assert (Hin : role ∈ PRINCIPALS) by (change PRINCIPALS with (enum Principal); apply elem_of_enum).
  apply list_elem_of_lookup in Hin as [i Hi]. destruct (Forall2_lookup_l _ _ _ _ _ Hps Hi) as (p&Hp&Hr).
  exists p. split; [by eapply list_elem_of_lookup_2|]. unfold profile_state in Hr.
  apply bind_Ok in Hr as (a&Ha%map_err_Ok&Hr). by apply bind_Ok in Hr as (b&Hb%map_err_Ok&[= <-]).
Qed.

Lemma desired_client_profile role : client_profile role ∈ client_profiles d.
Proof.
  pose proof Hd as H. unfold desired_state in H. apply bind_Ok in H as (ps&_&H). apply bind_Ok in H as (us&_&H).
  apply bind_Ok in H as (qs&_&H). assert (client_profiles d = client_profile <$> PRINCIPALS) as -> by by inversion H.
  apply list_elem_of_fmap_2.
  change PRINCIPALS with (enum Principal). apply elem_of_enum.
Qed.

(** The flows a role's client profile allows are as many as it owns queues, up to the fleet's. *)
Lemma queues_within_flows role :
  Z.of_nat (length drones) ≤ max_egress_flows (client_profile FLEET_SIMULATOR) →
  Z.of_nat (length (filter (λ q, owner q = principal_value role) (queues d))) ≤ max_egress_flows (client_profile role).
Proof.
  intros Hn. pose proof (owned_queues drones (queues d) role desired_queues_of) as Hown.
  set (own := filter _ (queues d)) in *. unfold queues_for in Hown. destruct (endpoint_for role) eqn:He.
  - rewrite family_queues_Ok in Hown by done. injection Hown as <-. rewrite length_fmap. by destruct role.
  - injection Hown as <-. by destruct role.
  - apply map_ok_Forall2, Forall2_length in Hown. rewrite <- Hown. by destruct role.
  - injection Hown as <-. by destruct role.
  - injection Hown as <-. by destruct role.
Qed.
End desired.

(** What a role's own queues attract, its access list lets it subscribe to. *)
Lemma hears_permitted drones role t : hears drones role t = true → permitted role SUBSCRIBE t.
Proof.
  unfold hears. intros [[Hu Hg%bool_decide_eq_true]%andb_true_iff He]%andb_true_iff. left. split; [done|].
  split; [intros Hf; by rewrite Hf in Hg|]. intros -> _ Hf. cbn in He.
  rewrite Hf, bool_decide_eq_true_2 in He by done. by apply bool_decide_eq_true in He.
Qed.

(** C37: provisioning gives each role exactly its share of the topic space.  On every topic the
    grammar builds, a role's access list lets it publish, or subscribe, exactly when the grant
    tables do: drone events reach the recorder in the two types it keeps, gateway responses
    travel under the reserved reply mission, and the command gateway's reply channel is all the
    tool gains.  Of the provisioned queues, exactly one of the role's own attracts the topic when
    its endpoints are to hear it and none otherwise, never past its access list; and its client
    profile allows a flow for each of them. *)
Theorem provisioned_authority `{SubscriptionMatching} {S} v credentials ns drones d t text role :
  NoDup drones → Z.of_nat (length drones) ≤ max_egress_flows (client_profile FLEET_SIMULATOR) →
  desired_state (S := S) v credentials ns drones = Ok d → format_topic t = Ok text →
  (∃ p, p ∈ profiles d ∧ profile_name p = principal_value role ∧
     (Exists (λ s, covers s text = true) (profile_publish p) ↔ permitted role PUBLISH t) ∧
     (Exists (λ s, covers s text = true) (profile_subscribe p) ↔ permitted role SUBSCRIBE t)) ∧
  length (filter (λ q, owner q = principal_value role ∧ attracts text q) (queues d)) =
    (if hears drones role t then 1%nat else 0%nat) ∧
  (hears drones role t = true → permitted role SUBSCRIBE t) ∧
  ∃ c, c ∈ client_profiles d ∧ profile_role c = role ∧
    Z.of_nat (length (filter (λ q, owner q = principal_value role) (queues d))) ≤ max_egress_flows c.
Proof.
  intros Hnd Hn Hd Ht. split; [|split; [|split]].
  - destruct (desired_profile v credentials ns drones d Hd role) as (p&Hp&Hname&Hpub&Hsub).
    exists p. split; [done|]. split; [done|]. by split; eapply exceptions_cover.
  - eapply queues_once; [done|by eapply desired_queues_of|done].
  - apply hears_permitted.
  - exists (client_profile role). split; [by eapply desired_client_profile|]. split; [by destruct role|].
    by eapply queues_within_flows.
Qed.

(** A fleet of two, and a command for the second. *)
Definition sample_credentials : list (Principal * string) := (λ role, (role, principal_value role)) <$> PRINCIPALS.
Definition sample_namespace : option pyval := Some (PyStr "rescue/a2a").
Definition sample_state : option DesiredState := Eval vm_compute in
  match desired_state (S := unit) "rescue" sample_credentials sample_namespace two_drones with
  | Ok d => Some d | Err _ => None
  end.
Definition second_command : Topic := {|
  family := DRONE_COMMAND; Topics.mission_id := "mission-1";
  parameters := [("droneId", "drone-2"); ("commandType", "assign-sector")]
|}.
Definition second_command_text : string := "aerial-rescue/v1/mission-1/drone/drone-2/command/assign-sector".

Lemma provisioned_authority_witness :
  match sample_state with
  | Some d => length (filter (λ q, owner q = principal_value FLEET_SIMULATOR ∧
                attracts (H := level_matching) second_command_text q) (queues d)) = 1%nat
  | None => False
  end.
Proof.
  unfold sample_state.
  eapply (provisioned_authority (H := level_matching) (S := unit) "rescue" sample_credentials sample_namespace
    two_drones _ second_command second_command_text FLEET_SIMULATOR); [by_tables|done|by vm_compute..].
Defined.

(** ** What an apply asks of the interface *)

(** The objects a state owns, each written once. *)
Definition owned_writes (d : DesiredState) : list Request :=
  [disable_factory_request (vpn d); broker_protocol_request; vpn_protocol_request (vpn d)] ++
  (queue_request (vpn d) <$> queues d) ++ (queue_template_request (vpn d) <$> templates d) ++
  (profile_request (vpn d) <$> profiles d) ++ (client_profile_request (vpn d) <$> client_profiles d) ++
  (username_request (vpn d) <$> usernames d).

(** The collections it owns, with the topics each is to hold. *)
Definition owned_collections (d : DesiredState) : list (Collection * list string) :=
  ((λ q, (subscription_collection (vpn d) (name q), subscriptions q)) <$> queues d) ++
  (profiles d ≫= λ p, [(exception_collection (vpn d) (profile_name p) PUBLISH, profile_publish p);
                       (exception_collection (vpn d) (profile_name p) SUBSCRIBE, profile_subscribe p)]).

Inductive may_send (d : DesiredState) : Request → Prop :=
| reads_only p : may_send d (get_request p)
| writes_owned r : r ∈ owned_writes d → may_send d r
| adds_wanted c wanted t : (c, wanted) ∈ owned_collections d → t ∈ wanted → may_send d (post_request c t)
| drops_unwanted c wanted t : (c, wanted) ∈ owned_collections d → t ∉ wanted → may_send d (removal_request c t)
| disables_discovery p : p = below (vpn d) ["clientUsernames"; principal_value DISCOVERY] →
    may_send d {| method := PATCH; path := p; request_body := document [("enabled", PyBool false)] |}
| deletes_discovery p : p = below (vpn d) ["clientUsernames"; principal_value DISCOVERY] →
    may_send d (delete_request p).

(** An apply calls nothing but the configuration interface. *)
Definition may_ask (d : DesiredState) (e : exchange) : Prop :=
  match e with Asked r _ => may_send d r | Monitored _ _ | Counted _ _ => False end.

Section asking.
Context `{M : Semp}.

Abbreviation configuring := (acting session (provisioning_failure semp_error)).

(** Everything a call passes is admissible, however it ends. *)
Definition asks {A} (P : exchange → Prop) (m : configuring A) : Prop :=
  ∀ w o w', m w = (o, w') → ∃ rs, passed w' = (passed w ++ rs)%list ∧ Forall P rs.

(** [r] written, read back at once, and found there, secrets apart. *)
Definition verified (r : Request) (es : list exchange) : Prop :=
  ∃ before answer row after,
    es = (before ++ [Asked r (Some answer); Asked (get_request (path r)) (Some [row])] ++ after)%list ∧
    matches_readback (readable (request_body r)) row = true.

(** A call that returns has written and verified [r]. *)
Definition performs {A} (r : Request) (m : configuring A) : Prop :=
  ∀ w a w', m w = (Ok a, w') → ∃ rs, passed w' = (passed w ++ rs)%list ∧ verified r rs.

Context (P : exchange → Prop).

Lemma asks_ret {A} (a : A) : asks P (mret a : configuring A).
Proof. intros w o w' [= <- <-]. exists []. by rewrite app_nil_r. Qed.

Lemma asks_calm {A} (o : result _ A) : asks P (calm o : configuring A).
Proof. intros w o' w' [= <- <-]. exists []. by rewrite app_nil_r. Qed.

Lemma asks_bind {A B} (m : configuring A) (f : A → configuring B) :
  asks P m → (∀ a, asks P (f a)) → asks P (m ≫= f).
Proof.
  intros Hm Hf w o w' H. unfold mbind, acting_bind in H. destruct (m w) as [[a|e] w1] eqn:E.
  - destruct (Hm _ _ _ E) as (r1&H1&F1). destruct (Hf a _ _ _ H) as (r2&H2&F2).
    exists (r1 ++ r2)%list. rewrite H2, H1, app_assoc. split; [done|by apply Forall_app].
  - injection H as <- <-. by eapply Hm.
Qed.

Lemma asks_send r : (∀ a, P (Asked r a)) → asks P (send r).
Proof.
  intros Hr w o w' H. unfold send in H. destruct (sends r (remote w)) as [x s]. injection H as <- <-.
  eexists. split; [done|]. by constructor.
Qed.

Lemma asks_read_all p : (∀ a, P (Asked (get_request p) a)) → asks P (read_all p).
Proof.
  intros Hr w o w' H. unfold read_all in H. destruct (reads_all p (remote w)) as [x s]. injection H as <- <-.
  eexists. split; [done|]. by constructor.
Qed.

Lemma asks_fields fields : asks P (require_config_fields fields).
Proof.
  intros w o w' H. unfold require_config_fields in H. destruct (requires_fields fields (remote w)) as [x s].
  injection H as <- <-. exists []. by rewrite app_nil_r.
Qed.

Lemma asks_each {A} (f : A → configuring unit) l : (∀ a, a ∈ l → asks P (f a)) → asks P (for_each f l).
Proof.
  induction l as [|a l IH]; intros Hf; [apply asks_ret|]. apply asks_bind; [apply Hf; left|].
  intros _. apply IH. intros. apply Hf. by right.
Qed.

Lemma verified_app r es before after : verified r es → verified r (before ++ es ++ after)%list.
Proof.
  intros (l1&x&row&l2&->&Hm). exists (before ++ l1)%list, x, row, (l2 ++ after)%list.
  split; [by rewrite <- !app_assoc|done].
Qed.

Lemma performs_first {A B} r (m : configuring A) (f : A → configuring B) :
  performs r m → (∀ a, asks P (f a)) → performs r (m ≫= f).
Proof.
  intros Hm Hf w b w' H. unfold mbind, acting_bind in H. destruct (m w) as [[a|e] w1] eqn:E; [|done].
  destruct (Hm _ _ _ E) as (r1&H1&Hv). destruct (Hf a _ _ _ H) as (r2&H2&_).
  exists (r1 ++ r2)%list. split; [by rewrite H2, H1, app_assoc|by apply (verified_app r r1 [] r2)].
Qed.

Lemma performs_then {A B} r (m : configuring A) (f : A → configuring B) :
  asks P m → (∀ a, performs r (f a)) → performs r (m ≫= f).
Proof.
  intros Hm Hf w b w' H. unfold mbind, acting_bind in H. destruct (m w) as [[a|e] w1] eqn:E; [|done].
  destruct (Hm _ _ _ E) as (r1&H1&_). destruct (Hf a _ _ _ H) as (r2&H2&Hv).
  exists (r1 ++ r2)%list. split; [by rewrite H2, H1, app_assoc|].
  rewrite <- (app_nil_r r2). by apply verified_app.
Qed.

Lemma performs_each {A} r (f : A → configuring unit) l a :
  a ∈ l → performs r (f a) → (∀ b, b ∈ l → asks P (f b)) → performs r (for_each f l).
Proof.
  induction l as [|b l IH]; intros Hin Ha Hf; [by apply not_elem_of_nil in Hin|].
  apply elem_of_cons in Hin as [->|Hin].
  - apply performs_first; [done|]. intros _. apply asks_each. intros. apply Hf. by right.
  - apply performs_then; [apply Hf; left|]. intros _. apply IH; [done..|]. intros. apply Hf. by right.
Qed.

Lemma performs_verified r : performs r (write_verified r).
Proof.
  intros w a w' H. unfold write_verified, verify_readback, mbind, acting_bind, send in H.
  destruct (sends r (remote w)) as [[x|e] s]; [|done]. cbn [remote passed map_err ok_value] in H.
  destruct (sends (get_request (path r)) s) as [[rows|e] s'] eqn:E; [|done]. cbn [map_err ok_value] in H.
  destruct rows as [|row [|? ?]]; [done| |done]. destruct (matches_readback _ _) eqn:Hm; [|done].
  injection H as <- <-. eexists. split; [cbn [passed]; by rewrite <- app_assoc|]. by exists [], x, row, [].
Qed.
End asking.

Create HintDb asking.
#[export] Hint Resolve asks_ret asks_calm asks_bind asks_send asks_read_all asks_fields asks_each : asking.

Section applied.
Context `{M : Semp} (d : DesiredState).

Abbreviation configuring := (acting session (provisioning_failure semp_error)).

Lemma asks_verified r : may_send d r → asks (may_ask d) (write_verified r).
Proof.
  intros Hr. apply asks_bind; [by apply asks_send|]. intros _. unfold verify_readback.
  apply asks_bind; [apply asks_send; intros; apply reads_only|]. intros rows. unfold refused.
  destruct rows as [|row [|? ?]]; [auto with asking| |auto with asking]. destruct (matches_readback _ _); auto with asking.
Qed.

Lemma asks_inventory p m : asks (may_ask d) (inventory p m).
Proof.
  apply asks_bind; [apply asks_read_all; intros; apply reads_only|]. intros rows. destruct (distinct_texts m rows); unfold refused;
    auto with asking.
Qed.

Lemma asks_reconcile c wanted : (c, wanted) ∈ owned_collections d → asks (may_ask d) (reconcile c wanted).
Proof.
  intros Hc. apply asks_bind; [apply asks_inventory|]. intros here.
  apply asks_bind; [|intros _; apply asks_bind].
  - apply asks_each. intros t Ht. rewrite merge_sort_Permutation in Ht. apply list_elem_of_filter in Ht as [_ Ht].
    apply asks_bind; [|auto with asking]. apply asks_send. intros x. by eapply adds_wanted.
  - apply asks_each. intros t Ht. rewrite merge_sort_Permutation in Ht. apply list_elem_of_filter in Ht as [Ht _].
    apply asks_bind; [|auto with asking]. apply asks_send. intros x. by eapply drops_unwanted.
  - intros _. apply asks_bind; [apply asks_inventory|]. intros now. destruct (same_topics _ _); unfold refused; auto with asking.
Qed.

(** The owned writes, stage by stage. *)
Lemma owned_factory : disable_factory_request (vpn d) ∈ owned_writes d.
Proof. by left. Qed.
Lemma owned_broker : broker_protocol_request ∈ owned_writes d.
Proof. right. by left. Qed.
Lemma owned_vpn : vpn_protocol_request (vpn d) ∈ owned_writes d.
Proof. right. right. by left. Qed.
Lemma owned_queue q : q ∈ queues d → queue_request (vpn d) q ∈ owned_writes d.
Proof. intros H. unfold owned_writes. rewrite !elem_of_app. right. left. by apply list_elem_of_fmap_2. Qed.
Lemma owned_template t : t ∈ templates d → queue_template_request (vpn d) t ∈ owned_writes d.
Proof. intros H. unfold owned_writes. rewrite !elem_of_app. do 2 right. left. by apply list_elem_of_fmap_2. Qed.
Lemma owned_profile p : p ∈ profiles d → profile_request (vpn d) p ∈ owned_writes d.
Proof. intros H. unfold owned_writes. rewrite !elem_of_app. do 3 right. left. by apply list_elem_of_fmap_2. Qed.
Lemma owned_client c : c ∈ client_profiles d → client_profile_request (vpn d) c ∈ owned_writes d.
Proof. intros H. unfold owned_writes. rewrite !elem_of_app. do 4 right. left. by apply list_elem_of_fmap_2. Qed.
Lemma owned_username u : u ∈ usernames d → username_request (vpn d) u ∈ owned_writes d.
Proof. intros H. unfold owned_writes. rewrite !elem_of_app. do 5 right. by apply list_elem_of_fmap_2. Qed.

Lemma asks_owned r : r ∈ owned_writes d → asks (may_ask d) (write_verified r).
Proof. intros. by apply asks_verified, writes_owned. Qed.

Hint Resolve owned_factory owned_broker owned_vpn owned_queue owned_template owned_profile owned_client
  owned_username asks_owned : asking.

Lemma asks_queue q : q ∈ queues d → asks (may_ask d) (apply_queue (vpn d) q).
Proof.
  intros Hq. apply asks_bind; [auto with asking|intros _; apply asks_reconcile].
  unfold owned_collections. apply elem_of_app. left. apply list_elem_of_fmap. by exists q.
Qed.

Lemma asks_partition dmqs b : asks (may_ask d) (apply_queue_partition d dmqs b).
Proof. apply asks_each. intros q Hq. destruct (Bool.eqb _ _); [by apply asks_queue|apply asks_ret]. Qed.

Lemma asks_acl p : p ∈ profiles d → asks (may_ask d) (apply_acl_profile (vpn d) p).
Proof.
  intros Hp. apply asks_bind; [auto with asking|intros _; apply asks_each; intros a Ha].
  apply asks_reconcile. unfold owned_collections. apply elem_of_app. right. apply list_elem_of_bind.
  exists p. split; [|done]. destruct a; [left|right; left].
Qed.

Lemma asks_discovery : asks (may_ask d) (remove_discovery_username (vpn d)).
Proof.
  apply asks_bind; [apply asks_inventory|]. intros here. case_bool_decide; [|apply asks_ret].
  apply asks_bind; [by apply asks_verified, disables_discovery|]. intros _.
  apply asks_bind; [apply asks_send; intros x; by apply deletes_discovery|]. intros _.
  apply asks_bind; [apply asks_inventory|]. intros still. case_bool_decide; unfold refused; auto with asking.
Qed.

Lemma asks_retired : asks (may_ask d) (refuse_retired_scenario_identity (vpn d)).
Proof.
  assert (Ho : ∀ c m x, asks (may_ask d) (retired_object c m x)).
  { intros c m x. apply asks_bind; [apply asks_inventory|]. intros here. case_bool_decide; [|apply asks_ret].
    apply asks_bind; [apply asks_send; intros; apply reads_only|]. intros [|row [|? ?]]; unfold refused; auto with asking.
    destruct (matches_readback _ _); auto with asking. }
  do 3 (apply asks_bind; [apply Ho|intros ?]). destruct (_ ++ _)%list; unfold refused; auto with asking.
Qed.

Hint Resolve asks_partition asks_acl asks_discovery asks_retired : asking.

(** Stage after stage. *)
Ltac asking := repeat (solve [auto with asking] || (apply asks_bind; [|intros _])).

Lemma asks_apply : asks (may_ask d) (apply d).
Proof. unfold apply. asking. Qed.

(** The stage that writes [r], between stages that only ask. *)
Ltac stage_later := apply performs_then with (P := may_ask d); [auto with asking|intros _].
Ltac stage_here := apply performs_first with (P := may_ask d); [|intros _; asking].

Lemma performs_partition dmqs b q :
  q ∈ queues d → bool_decide (name q ∈ dmqs) = b → performs (queue_request (vpn d) q) (apply_queue_partition d dmqs b).
Proof.
  intros Hq Hb. apply performs_each with (P := may_ask d) (a := q); [done| |].
  - rewrite Hb, Bool.eqb_reflx. apply performs_first with (P := may_ask d); [apply performs_verified|].
    intros _. apply asks_reconcile. unfold owned_collections. apply elem_of_app. left. apply list_elem_of_fmap. by exists q.
  - intros p Hp. destruct (Bool.eqb _ _); [by apply asks_queue|apply asks_ret].
Qed.

(** Every owned object is written by one of the stages. *)
Lemma performs_apply r : r ∈ owned_writes d → performs r (apply d).
Proof.
  unfold owned_writes. rewrite !elem_of_app, !elem_of_cons, elem_of_nil, !list_elem_of_fmap. unfold apply.
  intros [[->|[->|[->|[]]]]|[(q&->&Hq)|[(t&->&Ht)|[(p&->&Hp)|[(c&->&Hc)|(u&->&Hu)]]]]]; stage_later.
  - stage_here. apply performs_verified.
  - stage_later. stage_here. apply performs_verified.
  - do 2 stage_later. stage_here. apply performs_verified.
  - do 5 stage_later. destruct (bool_decide (name q ∈ template_dmq <$> templates d)) eqn:Hb.
    + stage_here. by apply performs_partition.
    + do 5 stage_later. by apply performs_partition.
  - do 6 stage_later. stage_here. apply performs_each with (P := may_ask d) (a := t);
      [done|apply performs_verified|auto with asking].
  - do 7 stage_later. stage_here. apply performs_each with (P := may_ask d) (a := p); [done| |auto with asking].
    apply performs_first with (P := may_ask d); [apply performs_verified|intros _]. apply asks_each. intros a Ha.
    apply asks_reconcile. unfold owned_collections. apply elem_of_app. right. apply list_elem_of_bind.
    exists p. split; [|done]. destruct a; [left|right; left].
  - do 8 stage_later. stage_here. apply performs_each with (P := may_ask d) (a := c);
      [done|apply performs_verified|auto with asking].
  - do 9 stage_later. stage_here. apply performs_each with (P := may_ask d) (a := u);
      [done|apply performs_verified|auto with asking].
Qed.
End applied.

(** An apply touches only what it owns, whatever the management interface answers.  However it
    ends, everything it passed is a reading, the write of one object of the desired state, the
    addition of a wanted topic to a collection it owns, the removal from one of a topic that is
    not wanted, or the disabling and deletion of the discovery user name.  And an apply that
    returns has written every object of the state, read each back at once, and found there what
    it wrote, the password apart, which is never compared. *)
Lemma apply_owned `{M : Semp} d w o w' (Ha : apply d w = (o, w')) :
  ∃ es, passed w' = (passed w ++ es)%list ∧ Forall (may_ask d) es ∧
    (o = Ok tt → ∀ r, r ∈ owned_writes d → verified r es).
Proof.
  destruct (asks_apply d _ _ _ Ha) as (es&Hes&Hf). exists es. split; [done|]. split; [done|].
  intros -> r Hr. destruct (performs_apply d r Hr _ _ _ Ha) as (es'&Hes'&Hv).
  rewrite Hes in Hes'. by apply app_inv_head in Hes' as <-.
Qed.

(** ** Reconciling a collection *)

Lemma hex_upper_inj m n : (m < 16)%nat → (n < 16)%nat → hex_upper m = hex_upper n → m = n.
Proof.
  intros Hm Hn. do 16 (destruct m as [|m]; [do 16 (destruct n as [|n]; [done|]); lia|]). lia.
Qed.

Lemma three_inj (p a b a' b' : ascii) x y : String p (String a (String b x)) = String p (String a' (String b' y)) →
  a = a' ∧ b = b' ∧ x = y.
Proof. by intros [= -> -> ->]. Qed.

(** Percent-encoding loses nothing, so a removal names one topic. *)
Lemma quote_inj s t : quote s = quote t → s = t.
Proof.
  revert t. induction s as [|c s IH]; intros [|e t] H; cbn [quote] in H; try done.
  - by destruct (unreserved e).
  - by destruct (unreserved c).
  - destruct (unreserved c) eqn:Hc, (unreserved e) eqn:He.
    + injection H as -> H. f_equal. auto.
    + injection H as -> H. by vm_compute in Hc.
    + injection H as <- H. by vm_compute in He.
    + apply three_inj in H as (Hq&Hr&H). f_equal; [|auto].
      pose proof (nat_ascii_bounded c). pose proof (nat_ascii_bounded e).
      apply hex_upper_inj in Hq; [|apply Nat.Div0.div_lt_upper_bound; lia..].
      apply hex_upper_inj in Hr; [|apply Nat.mod_upper_bound; lia..].
      rewrite <- (ascii_nat_embedding c), <- (ascii_nat_embedding e). f_equal.
      rewrite (Nat.div_mod_eq (nat_of_ascii c) 16), (Nat.div_mod_eq (nat_of_ascii e) 16). congruence.
Qed.

(** The interface keeps the documented word of one collection: a listing is its topics, an
    addition adds one that is missing, a removal drops the ones its path names. *)
Record keeps_collection `{M : Semp} (c : Collection) (holds : semp → list string) : Prop := {
  collection_listed s : ∃ rows, reads_all (collection_path c) s = (Ok rows, s) ∧
    mapM (λ row, as_text (get row (collection_member c))) rows = Some (holds s) ∧ NoDup (holds s);
  collection_grows s t : t ∉ holds s →
    ∃ rows s', sends (post_request c t) s = (Ok rows, s') ∧ holds s' ≡ₚ t :: holds s;
  collection_shrinks s t :
    ∃ rows s', sends (removal_request c t) s = (Ok rows, s') ∧
      holds s' ≡ₚ filter (λ t', path (removal_request c t') ≠ path (removal_request c t)) (holds s)
}.

Lemma removal_names c t t' : path (removal_request c t) = path (removal_request c t') → t = t'.
Proof.
  unfold removal_request, delete_request. cbn [path join]. intros H.
  rewrite !join_cons in H. cbn [join String.concat] in H. apply str_app_inv_head, str_app_inv_head in H.
  by apply str_app_inv_head, quote_inj in H.
Qed.

(** What was asked of the configuration interface. *)
Definition request_of (e : exchange) : option Request := match e with Asked r _ => Some r | _ => None end.
Definition requests `{M : Semp} (w : session) : list Request := omap request_of (passed w).

Section reconciling.
Context `{M : Semp} (c : Collection) (holds : semp → list string) (Hk : keeps_collection c holds).

Lemma requests_later w s e :
  requests {| remote := s; passed := (passed w ++ [e])%list |} = (requests w ++ omap request_of [e])%list.
Proof. unfold requests. cbn [passed]. by rewrite omap_app. Qed.

Lemma present_runs w :
  ∃ w', present c w = (Ok (holds (remote w)), w') ∧ remote w' = remote w ∧
    requests w' = (requests w ++ [get_request (collection_path c)])%list.
Proof.
  destruct (collection_listed _ _ Hk (remote w)) as (rows&Hr&Ht&Hnd).
  unfold present, inventory, mbind, acting_bind, read_all. rewrite Hr. cbn [map_err].
  unfold distinct_texts. rewrite Ht, decide_True by done. eexists. split; [done|]. split; [done|apply requests_later].
Qed.

Lemma adds_run l w :
  NoDup l → (∀ t, t ∈ l → t ∉ holds (remote w)) →
  ∃ w', for_each (λ t, send (post_request c t) ;; mret tt) l w = (Ok tt, w') ∧
    requests w' = (requests w ++ (post_request c <$> l))%list ∧
    ∀ t, t ∈ holds (remote w') ↔ t ∈ l ∨ t ∈ holds (remote w).
Proof.
  revert w. induction l as [|t l IH]; intros w Hnd Hl.
  - exists w. split; [done|]. split; [by rewrite app_nil_r|]. intros t. rewrite elem_of_nil. tauto.
  - apply NoDup_cons in Hnd as [Ht Hnd].
    destruct (collection_grows _ _ Hk (remote w) t) as (rows&s1&Hs&Hp); [apply Hl; left|].
    destruct (IH {| remote := s1; passed := passed w ++ [Asked (post_request c t) (Some rows)] |})
      as (w'&Hrun&Hreq&Hin); [done| |].
    { intros u Hu. cbn [remote]. rewrite Hp. intros [->|Hh]%elem_of_cons; [done|]. by apply (Hl u); [right|]. }
    exists w'. split; [|split].
    + cbn [for_each]. unfold mbind, acting_bind in *. unfold send at 1. rewrite Hs. exact Hrun.
    + rewrite Hreq, requests_later, <- app_assoc. done.
    + intros u. rewrite Hin. cbn [remote]. rewrite Hp, !elem_of_cons. tauto.
Qed.

Lemma drops_run l w :
  ∃ w', for_each (λ t, send (removal_request c t) ;; mret tt) l w = (Ok tt, w') ∧
    requests w' = (requests w ++ (removal_request c <$> l))%list ∧
    ∀ t, t ∈ holds (remote w') ↔ (t ∉ l) ∧ t ∈ holds (remote w).
Proof.
  revert w. induction l as [|t l IH]; intros w.
  - exists w. split; [done|]. split; [by rewrite app_nil_r|].
    intros t. pose proof (not_elem_of_nil t). tauto.
  - destruct (collection_shrinks _ _ Hk (remote w) t) as (rows&s1&Hs&Hp).
    destruct (IH {| remote := s1; passed := passed w ++ [Asked (removal_request c t) (Some rows)] |})
      as (w'&Hrun&Hreq&Hin).
    exists w'. split; [|split].
    + cbn [for_each]. unfold mbind, acting_bind in *. unfold send at 1. rewrite Hs. exact Hrun.
    + rewrite Hreq, requests_later, <- app_assoc. done.
    + intros u. rewrite Hin. cbn [remote]. rewrite Hp, list_elem_of_filter, not_elem_of_cons.
      split; [intros (?&Hne&?); repeat split; try done; by intros ->|].
      intros [[Hne ?] ?]. repeat split; try done. by intros Heq%removal_names.
Qed.
End reconciling.

(** One reconciliation makes a collection exactly what is wanted, and says no more than it
    has to.  Over an interface that keeps its documented word of the collection, it returns; the
    collection then holds the wanted topics and no others; and between two listings it asked one
    addition for each wanted topic that was missing and one removal for each topic that was not
    wanted, in order.  So a second reconciliation asks nothing but the listings. *)
Lemma reconcile_converges `{M : Semp} c holds wanted w
    (Hk : keeps_collection c holds) (Hw : NoDup wanted) :
  ∃ w', reconcile c wanted w = (Ok tt, w') ∧
    (∀ t, t ∈ holds (remote w') ↔ t ∈ wanted) ∧
    requests w' = (requests w ++ [get_request (collection_path c)] ++
      (post_request c <$> merge_sort String.le (filter (λ t, t ∉ holds (remote w)) wanted)) ++
      (removal_request c <$> merge_sort String.le (filter (λ t, t ∉ wanted) (holds (remote w)))) ++
      [get_request (collection_path c)])%list.
Proof.
  set (adds := merge_sort String.le _). set (drops := merge_sort String.le _).
  destruct (present_runs c holds Hk w) as (w1&H1&Hr1&Hq1).
  destruct (adds_run c holds Hk adds w1) as (w2&H2&Hq2&Hin2).
  { unfold adds. rewrite merge_sort_Permutation. by apply NoDup_filter. }
  { intros t Ht. rewrite Hr1. unfold adds in Ht. rewrite merge_sort_Permutation in Ht. by apply list_elem_of_filter in Ht as [? _]. }
  destruct (drops_run c holds Hk drops w2) as (w3&H3&Hq3&Hin3).
  destruct (present_runs c holds Hk w3) as (w4&H4&Hr4&Hq4).
  assert (Hend : ∀ t, t ∈ holds (remote w3) ↔ t ∈ wanted).
  { intros t. rewrite Hin3, Hin2, Hr1. unfold adds, drops.
    rewrite !merge_sort_Permutation, !list_elem_of_filter. destruct (decide (t ∈ wanted)), (decide (t ∈ holds (remote w))); tauto. }
  exists w4. split; [|split; [by rewrite Hr4|]].
  - unfold reconcile, mbind, acting_bind in *. rewrite H1. fold adds. fold drops. rewrite H2, H3, H4.
    unfold same_topics. rewrite !bool_decide_eq_true_2 by (intros t; apply Hend). done.
  - rewrite Hq4, Hq3, Hq2, Hq1. by rewrite <- !app_assoc.
Qed.

(** ** Examples *)

(** An interface that answers a reading with the last write to its path, and a listing with the
    additions to its collection. *)
Definition recording : Semp := {|
  semp := list Request;
  semp_error := unit;
  sends r s :=
    match method r with
    | GET => (Ok (match filter (λ x : Request, path x = path r) s with x :: _ => [request_body x] | [] => [] end), s)
    | _ => (Ok [], r :: s)
    end;
  reads_all p s := (Ok (request_body <$> filter (λ x, method x = POST ∧ path x = p) s), s);
  requires_fields _ s := (Ok tt, s);
  reads_monitor_rows _ s := (Ok [], s);
  reads_monitor_count _ s := (Ok (PyInt 0), s)
|}.

Definition fresh : session (M := recording) := @Build_session recording (@nil Request) [].
Definition applied_state : DesiredState :=
  match sample_state with Some d => d
  | None => {| vpn := ""; profiles := []; client_profiles := []; usernames := []; templates := []; queues := [] |} end.

Lemma apply_owned_witness :
  (apply (M := recording) applied_state fresh).1 = Ok tt ∧
  Forall (may_ask applied_state) (passed (apply (M := recording) applied_state fresh).2) ∧
  verified (disable_factory_request (vpn applied_state)) (passed (apply (M := recording) applied_state fresh).2).
Proof.
  assert (Hok : (apply (M := recording) applied_state fresh).1 = Ok tt) by by vm_compute.
  destruct (apply_owned (M := recording) applied_state fresh _ _ (surjective_pairing _)) as (es&Hes&Hf&Hall).
  split; [exact Hok|]. rewrite Hes. split; [exact Hf|]. apply Hall; [exact Hok|]. by left.
Defined.

(** An interface of one collection, kept as a set. *)
Definition inbox_subscriptions : Collection := subscription_collection "rescue" "aerial-rescue/v1/inbox".

Definition collecting : Semp := {|
  semp := gset string;
  semp_error := unit;
  sends r s :=
    match method r with
    | POST => (Ok [], match get (request_body r) QUEUE_SUBSCRIPTION_MEMBER with PyStr t => {[t]} ∪ s | _ => s end)
    | DELETE => (Ok [], filter (λ t, path (removal_request inbox_subscriptions t) ≠ path r) s)
    | _ => (Ok [], s)
    end;
  reads_all p s := (Ok ((λ t, document [(QUEUE_SUBSCRIPTION_MEMBER, PyStr t)]) <$> elements s), s);
  requires_fields _ s := (Ok tt, s);
  reads_monitor_rows _ s := (Ok [], s);
  reads_monitor_count _ s := (Ok (PyInt 0), s)
|}.

Lemma texts_listed (l : list string) :
  mapM (λ row, as_text (get row QUEUE_SUBSCRIPTION_MEMBER))
    ((λ t, document [(QUEUE_SUBSCRIPTION_MEMBER, PyStr t)]) <$> l) = Some l.
Proof. induction l as [|t l IH]; [done|]. rewrite fmap_cons. cbn [mapM]. by rewrite IH. Qed.

Lemma collecting_keeps : keeps_collection (M := collecting) inbox_subscriptions elements.
Proof.
  split.
  - intros s. eexists. split; [done|]. split; [|apply NoDup_elements].
    apply texts_listed.
  - intros s t Ht. eexists _, _. split; [done|]. cbn. apply elements_union_singleton. by rewrite <- elem_of_elements.
  - intros s t. eexists _, _. split; [done|]. apply NoDup_Permutation; [apply NoDup_elements| |].
    { apply NoDup_filter, NoDup_elements. }
    intros x. etransitivity; [apply (elem_of_elements (C := gset string))|]. rewrite list_elem_of_filter. etransitivity; [apply (elem_of_filter (C := gset string))|]. apply and_iff_compat_l. symmetry. apply (elem_of_elements (C := gset string)).
Qed.

Definition one_topic : session (M := collecting) := @Build_session collecting ({["old/topic"]} : gset string) [].

Lemma reconcile_converges_witness :
  ∃ w', reconcile (M := collecting) inbox_subscriptions ["new/topic"] one_topic = (Ok tt, w') ∧
    length (requests w') = 4%nat.
Proof.
  destruct (reconcile_converges (M := collecting) inbox_subscriptions elements ["new/topic"] one_topic collecting_keeps)
    as (w'&Hr&_&Ha); [apply NoDup_singleton|].
  exists w'. split; [exact Hr|]. rewrite Ha. by vm_compute.
Defined.
