(* ===== verification/Retirement.v ===== *)
(** * Retiring stale queues

    The monitor half of [packages/broker/src/aerial_rescue_broker/provisioning.py]: depths and
    bindings read back without coercion, the inventory, and the two-step retirement of queue
    pairs that are no longer desired.  A plan deletes nothing; carrying it out deletes a queue
    only when the broker has just shown it empty and unbound. *)

From stdpp Require Import gmap sets strings.
From S2P Require Import Prelude PyStr PyVal Topics Principals Subscriptions Routing Queues Provisioning.
Local Open Scope string_scope.
Local Open Scope Z_scope.

Record QueueDepthState : Set := { depth_name : string; depth_count : Z }.
Record QueueRuntimeState : Set := { queue_name : string; message_count : Z; bind_count : Z }.
Record QueueRetirementPair : Set := { primary : string; dead_message : string }.
Record QueueRetirementPlan : Set := { plan_vpn : string; pairs : list QueueRetirementPair }.

Definition queue_monitor_collection_path (v : string) : string :=
  "msgVpns/" ++ quote v ++ "/queues?select=queueName,msgs.count".
Definition queue_monitor_path (v queue : string) : string :=
  queue_monitor_collection_path v ++ "&where=" ++ quote ("queueName==" ++ queue).
Definition queue_tx_flow_monitor_path (v queue : string) : string :=
  "msgVpns/" ++ quote v ++ "/queues/" ++ quote queue ++ "/txFlows".

(** [_nonnegative_integer]: a bool is no integer here. *)
Definition nonnegative_integer (v : pyval) : option Z :=
  match v with PyInt n => if n <? 0 then None else Some n | _ => None end.

(** [name[:-len(suffix)]] when [name.endswith(suffix)]. *)
Fixpoint strip_suffix (suffix s : string) : option string :=
  if bool_decide (s = suffix) then Some "" else
  match s with "" => None | String c s => String c <$> strip_suffix suffix s end.

Lemma strip_suffix_Some suffix s t : strip_suffix suffix s = Some t ↔ s = t ++ suffix.
Proof.
  revert t. induction s as [|c s IH]; intros t; cbn [strip_suffix]; case_bool_decide as He.
  - subst. split; [by intros [= <-]|]. by destruct t.
  - split; [done|]. intros H. exfalso. apply He. by destruct t.
  - split; [intros [= <-]; exact He|]. intros H. f_equal. rewrite He in H.
    apply (f_equal String.length) in H. rewrite str_length_app in H. destruct t; [done|cbn in H; lia].
  - rewrite fmap_Some. split.
    + intros (u&Hu%IH&->). by rewrite Hu.
    + destruct t as [|e t]; [by intros H|]. intros [= <- Hs]. exists t. split; [by apply IH|done].
Qed.

Section monitoring.
Context `{M : Semp}.

Abbreviation configuring := (acting session (provisioning_failure semp_error)).

Definition malformed {A} (queue : string) : result (provisioning_failure semp_error) A :=
  Err (ProvisioningError MALFORMED_READBACK [queue]).

(** [_depth_from_monitor_row] *)
Definition depth_from_monitor_row (row : MonitorRow) (queue : string)
    : result (provisioning_failure semp_error) QueueDepthState :=
  let count := match get (collections row) "msgs" with
               | PyDict d => nonnegative_integer (get d "count")
               | _ => None
               end in
  match count with
  | Some n => if py_eq (get (data row) "queueName") (PyStr queue)
              then Ok {| depth_name := queue; depth_count := n |} else malformed queue
  | None => malformed queue
  end.

(** [_runtime_from_monitor_row] *)
Definition runtime_from_monitor_row (row : MonitorRow) (queue : string) (bound : pyval)
    : result (provisioning_failure semp_error) QueueRuntimeState :=
  n ← or_raise (nonnegative_integer bound) (ProvisioningError MALFORMED_READBACK [queue]);
  depth ← depth_from_monitor_row row queue;
  Ok {| queue_name := queue; message_count := depth_count depth; bind_count := n |}.

Definition read_monitor_rows (p : string) : configuring (list MonitorRow) := λ w,
  let (o, s) := reads_monitor_rows p (remote w) in
  (map_err Transport o, {| remote := s; passed := passed w ++ [Monitored p (ok_value o)] |}%list).

Definition read_monitor_count (p : string) : configuring pyval := λ w,
  let (o, s) := reads_monitor_count p (remote w) in
  (map_err Transport o, {| remote := s; passed := passed w ++ [Counted p (ok_value o)] |}%list).

(** [_optional_queue_monitor_row] *)
Definition optional_queue_monitor_row (v queue : string) : configuring (option MonitorRow) :=
  rows ← read_monitor_rows (queue_monitor_path v queue);
  match rows with
  | [] => mret None
  | [row] => mret (Some row)
  | _ => calm (malformed queue)
  end.

(** [_optional_queue_runtime_state] *)
Definition optional_queue_runtime_state (v queue : string) : configuring (option QueueRuntimeState) :=
  row ← optional_queue_monitor_row v queue;
  match row with
  | None => mret None
  | Some row =>
      bound ← read_monitor_count (queue_tx_flow_monitor_path v queue);
      state ← calm (runtime_from_monitor_row row queue bound);
      mret (Some state)
  end.

Definition queue_runtime_state (v queue : string) : configuring QueueRuntimeState :=
  state ← optional_queue_runtime_state v queue;
  calm (or_raise state (ProvisioningError QUEUE_MONITOR_MISSING [queue])).

Definition queue_message_count (v queue : string) : configuring Z :=
  row ← optional_queue_monitor_row v queue;
  row ← calm (or_raise row (ProvisioningError QUEUE_MONITOR_MISSING [queue]));
  depth ← calm (depth_from_monitor_row row queue);
  mret (depth_count depth).

(** [_queue_monitor_rows] *)
Definition queue_monitor_rows (v : string) : configuring (list (MonitorRow * string)) :=
  rows ← read_monitor_rows (queue_monitor_collection_path v);
  match distinct_texts "queueName" (data <$> rows) with
  | Some names => mret (zip rows names)
  | None => calm (malformed (queue_monitor_collection_path v))
  end.

Definition queue_depth_states (v : string) (maximum_queues : option Z) : configuring (list QueueDepthState) :=
  rows ← queue_monitor_rows v;
  calm (raise_if (match maximum_queues with Some n => n <? Z.of_nat (length rows) | None => false end)
                 (ProvisioningError MALFORMED_READBACK [queue_monitor_collection_path v])) ;;
  calm (map_ok (λ r : MonitorRow * string, depth_from_monitor_row r.1 r.2) rows).

(** [_queue_monitor_inventory] *)
Definition queue_monitor_inventory (v : string) : configuring (list string) :=
  rows ← queue_monitor_rows v; mret (rows.*2).

(** [_is_application_primary]: a fixed primary, or a drone's by its own name. *)
Definition drone_prefix : string :=
  match drone_queue_name "x" with Ok n => substring 0 (String.length n - 1) n | Err _ => "" end.

Definition is_application_primary (n : string) : bool :=
  bool_decide (n ∈ name <$> fixed_queues) ||
  match remove_prefix_opt drone_prefix n with
  | Some drone => match drone_queue_name drone with Ok n' => bool_decide (n' = n) | Err _ => false end
  | None => false
  end.

(** [_primary_of_owned_name] *)
Definition primary_of_owned_name (n : string) : option string :=
  let p := default n (strip_suffix DMQ_SUFFIX n) in
  if is_application_primary p then Some p else None.

Definition pair_of (p : string) : QueueRetirementPair := {| primary := p; dead_message := dead_message_queue_name p |}.

(** The primaries of the names that are there and not desired. *)
Definition stale_primaries (d : DesiredState) (here : list string) : list string :=
  let desired := name <$> queues d in
  remove_dups (filter (λ p, p ∉ desired) (omap primary_of_owned_name (filter (λ n, n ∉ desired) here))).

Definition plan_queue_retirement (d : DesiredState) : configuring QueueRetirementPlan :=
  here ← queue_monitor_inventory (vpn d);
  mret {| plan_vpn := vpn d; pairs := pair_of <$> merge_sort String.le (stale_primaries d here) |}.

(** [_require_retirement_candidate] *)
Definition retirement_candidate (d : DesiredState) (plan : QueueRetirementPlan) (p : QueueRetirementPair) : bool :=
  let desired := name <$> queues d in
  bool_decide (plan_vpn plan = vpn d) && is_application_primary (primary p) &&
  bool_decide (dead_message p = dead_message_queue_name (primary p)) &&
  bool_decide (primary p ∉ desired) && bool_decide (dead_message p ∉ desired).

Definition unsafe {A} (value : list string) : configuring A := refused UNSAFE_RETIREMENT value.

(** [_delete_and_verify] *)
Definition queue_path (v queue : string) : string := below v ["queues"; quote queue].

Definition delete_and_verify (v queue : string) : configuring unit :=
  send (delete_request (queue_path v queue)) ;;
  left_ ← optional_queue_runtime_state v queue;
  match left_ with
  | Some _ => refused READBACK_MISMATCH [queue_path v queue]
  | None => mret tt
  end.

(** Delete a queue that is there, if it is empty and unbound. *)
Definition delete_idle (v queue : string) : configuring unit :=
  state ← optional_queue_runtime_state v queue;
  match state with
  | None => mret tt
  | Some s =>
      if negb (bool_decide (message_count s = 0)) || negb (bool_decide (bind_count s = 0))
      then unsafe [queue] else delete_and_verify v queue
  end.

Definition retire_pair (d : DesiredState) (plan : QueueRetirementPlan) (p : QueueRetirementPair) : configuring unit :=
  (if retirement_candidate d plan p then mret tt else unsafe [primary p; dead_message p]) ;;
  delete_idle (vpn d) (primary p) ;;
  still ← optional_queue_runtime_state (vpn d) (primary p);
  match still with
  | Some _ => unsafe [primary p]
  | None => delete_idle (vpn d) (dead_message p)
  end.

Definition retire_stale_queues (d : DesiredState) (plan : QueueRetirementPlan) : configuring unit :=
  for_each (retire_pair d plan) (pairs plan).
End monitoring.

(** ** What a plan holds *)

Lemma application_primary_name n : is_application_primary n = true → primary_name n.
Proof.
  unfold is_application_primary. intros [Hf%bool_decide_eq_true|Hd]%orb_true_iff.
  - destruct fixed_names as (_&Hp&_). by eapply Forall_forall in Hp.
  - destruct (remove_prefix_opt drone_prefix n) as [d|]; [|done].
    destruct (drone_queue_name d) as [n'|] eqn:Hn; [|done]. apply bool_decide_eq_true in Hd as <-.
    by apply drone_name in Hn as [_ ?].
Qed.

Lemma planned_candidate drones d here p :
  NoDup drones → desired_queues drones = Ok (queues d) → p ∈ stale_primaries d here →
  retirement_candidate d {| plan_vpn := vpn d; pairs := pair_of <$> merge_sort String.le (stale_primaries d here) |}
    (pair_of p) = true.
Proof.
  intros Hnd Hq Hp. unfold stale_primaries in Hp. rewrite elem_of_remove_dups in Hp.
  apply list_elem_of_filter in Hp as [Hno Hp]. apply list_elem_of_omap in Hp as (n&_&Hn).
  unfold primary_of_owned_name in Hn. destruct (is_application_primary _) eqn:Ha; [|done]. injection Hn as <-.
  set (p := default n _) in *. clearbody p. unfold retirement_candidate. cbn [primary dead_message pair_of plan_vpn].
  rewrite Ha, !bool_decide_eq_true_2; [done| |done|done|done].
  pose proof (application_primary_name p Ha) as (Hpre&_).
  intros Hin. destruct (desired_names drones (queues d) _ Hnd Hq Hin) as [Hs|(m&Hm&(_&Hu&_)&[He|He])].
  - apply starts_with_spec in Hpre as [r Hr]. unfold dead_message_queue_name in Hs.
    by rewrite Hr, (proj2 (starts_with_spec _ _)) in Hs by (rewrite <- str_app_assoc; by eexists).
  - by rewrite <- He, dead_message_marked in Hu.
  - unfold dead_message_queue_name in He. apply str_app_inv_tail in He as ->. done.
Qed.

(** The primary of a listed name: its own, or the one its suffix is attached to. *)
Lemma primary_of_owned n p :
  primary_of_owned_name n = Some p ↔
  is_application_primary p = true ∧ (n = p ∨ n = dead_message_queue_name p).
Proof.
  unfold primary_of_owned_name, dead_message_queue_name. split.
  - destruct (is_application_primary _) eqn:Ha; [|done]. intros [= <-]. split; [done|].
    destruct (strip_suffix DMQ_SUFFIX n) as [t|] eqn:Hs; [right; by apply strip_suffix_Some|by left].
  - intros [Ha [->| ->]].
    + destruct (strip_suffix DMQ_SUFFIX p) as [t|] eqn:Hs; [|by cbn; rewrite Ha].
      apply strip_suffix_Some in Hs as ->. apply application_primary_name in Ha as (_&Hu&_).
      rewrite has_char_app in Hu. by rewrite orb_true_r in Hu.
    + assert (strip_suffix DMQ_SUFFIX (p ++ DMQ_SUFFIX) = Some p) as -> by by apply strip_suffix_Some.
      cbn. by rewrite Ha.
Qed.

Lemma stale_exact d here p :
  p ∈ stale_primaries d here ↔
  is_application_primary p = true ∧ (p ∉ name <$> queues d) ∧
  ∃ n, n ∈ here ∧ (n ∉ name <$> queues d) ∧ (n = p ∨ n = dead_message_queue_name p).
Proof.
  unfold stale_primaries. rewrite elem_of_remove_dups, list_elem_of_filter, list_elem_of_omap.
  setoid_rewrite list_elem_of_filter. setoid_rewrite primary_of_owned. naive_solver.
Qed.

(** ** What carrying it out deletes *)

(** Every request of [es], made after [pre], is justified by what came before it. *)
Fixpoint guarded (Q : list exchange → Request → Prop) (pre es : list exchange) : Prop :=
  match es with
  | [] => True
  | e :: es => match e with Asked r _ => Q pre r | _ => True end ∧ guarded Q (pre ++ [e]) es
  end.

Lemma guarded_app Q pre es es' : guarded Q pre (es ++ es') ↔ guarded Q pre es ∧ guarded Q (pre ++ es) es'.
Proof.
  revert pre. induction es as [|e es IH]; intros pre; [by rewrite app_nil_r; cbn; tauto|].
  cbn [app guarded]. rewrite IH, <- app_assoc. cbn [app]. tauto.
Qed.

Lemma guarded_at Q pre before r answer after : guarded Q pre (before ++ Asked r answer :: after) → Q (pre ++ before)%list r.
Proof. intros [_ [H _]]%guarded_app. exact H. Qed.

Section retiring.
Context `{M : Semp}.

Abbreviation configuring := (acting session (provisioning_failure semp_error)).

Definition guards {A} (Q : list exchange → Request → Prop) (m : configuring A) : Prop :=
  ∀ w o w', m w = (o, w') → ∃ es, passed w' = (passed w ++ es)%list ∧ guarded Q (passed w) es.

Lemma guards_calm {A} Q (o : result _ A) : guards Q (calm o : configuring A).
Proof. intros w o' w' [= <- <-]. exists []. by rewrite app_nil_r. Qed.

Lemma guards_bind {A B} Q (m : configuring A) (f : A → configuring B) :
  guards Q m → (∀ a, guards Q (f a)) → guards Q (m ≫= f).
Proof.
  intros Hm Hf w o w' H. unfold mbind, acting_bind in H. destruct (m w) as [[a|e] w1] eqn:E.
  - destruct (Hm _ _ _ E) as (r1&H1&F1). destruct (Hf a _ _ _ H) as (r2&H2&F2).
    exists (r1 ++ r2)%list. rewrite H2, H1, app_assoc. split; [done|]. apply guarded_app.
    by rewrite <- H1.
  - injection H as <- <-. by eapply Hm.
Qed.

Lemma guards_each {A} Q (f : A → configuring unit) l : (∀ a, a ∈ l → guards Q (f a)) → guards Q (for_each f l).
Proof.
  induction l as [|a l IH]; intros Hf; [apply (guards_calm Q (Ok tt))|]. apply guards_bind; [apply Hf; left|].
  intros _. apply IH. intros. apply Hf. by right.
Qed.

(** What a reading of one queue leaves in the record. *)
Definition shown (v queue : string) (s : option QueueRuntimeState) (es : list exchange) : Prop :=
  match s with
  | None => es = [Monitored (queue_monitor_path v queue) (Some [])]
  | Some s => ∃ row bound,
      es = [Monitored (queue_monitor_path v queue) (Some [row]); Counted (queue_tx_flow_monitor_path v queue) (Some bound)] ∧
      runtime_from_monitor_row row queue bound = Ok s
  end.

Lemma runtime_state_shown v queue w o w' :
  optional_queue_runtime_state v queue w = (o, w') →
  ∃ es, passed w' = (passed w ++ es)%list ∧ (∀ Q pre, guarded Q pre es) ∧ ∀ s, o = Ok s → shown v queue s es.
Proof.
  unfold optional_queue_runtime_state, optional_queue_monitor_row, read_monitor_rows, mbind, acting_bind.
  destruct (reads_monitor_rows _ _) as [[rows|e] s1] eqn:E1; cbn [map_err].
  2:{ intros [= <- <-]. eexists. split; [done|]. by split. }
  destruct rows as [|row [|row' rows]].
  - intros [= <- <-]. eexists. split; [done|]. split; [done|]. by intros s [= <-].
  - cbn [mret acting_ret]. unfold read_monitor_count. cbn [remote].
    destruct (reads_monitor_count (queue_tx_flow_monitor_path v queue) s1) as [[bound|e] s2] eqn:E2; cbn [map_err calm].
    + unfold calm, mret, acting_ret. destruct (runtime_from_monitor_row row queue bound) as [st|e] eqn:Hr.
      * intros [= <- <-]. eexists. split; [cbn; by rewrite <- app_assoc|]. split; [done|].
        intros s [= <-]. by exists row, bound.
      * intros [= <- <-]. eexists. split; [cbn; by rewrite <- app_assoc|]. by split.
    + intros [= <- <-]. eexists. split; [cbn; by rewrite <- app_assoc|]. by split.
  - intros [= <- <-]. eexists. split; [done|]. by split.
Qed.

Lemma guards_runtime Q v queue : guards Q (optional_queue_runtime_state v queue).
Proof. intros w o w' H. destruct (runtime_state_shown _ _ _ _ _ H) as (es&?&?&_). eauto. Qed.

(** A queue shown empty and unbound by the last two answers. *)
Definition just_idle (v queue : string) (pre : list exchange) : Prop :=
  ∃ earlier es s, pre = (earlier ++ es)%list ∧ shown v queue (Some s) es ∧ message_count s = 0 ∧ bind_count s = 0.

(** Deleting an idle queue: the one request is justified by the reading before it. *)
Lemma guards_delete_idle (Q : list exchange → Request → Prop) v queue w o w' :
  (∀ es, just_idle v queue es → (∃ es', es = passed w ++ es' ∧ length es' = 2%nat)%list → Q es (delete_request (queue_path v queue))) →
  delete_idle v queue w = (o, w') →
  ∃ es, passed w' = (passed w ++ es)%list ∧ guarded Q (passed w) es.
Proof.
  intros HQ H. unfold delete_idle, mbind, acting_bind in H.
  destruct (optional_queue_runtime_state v queue w) as [[s|e] w1] eqn:E;
    destruct (runtime_state_shown _ _ _ _ _ E) as (es&H1&Hg&Hs).
  2:{ injection H as <- <-. eauto. }
  specialize (Hs s eq_refl). destruct s as [s|]; [|injection H as <- <-; eauto].
  destruct (negb _ || negb _) eqn:Hidle; [injection H as <- <-; eauto|].
  apply orb_false_iff in Hidle as [Hm%negb_false_iff%bool_decide_eq_true Hb%negb_false_iff%bool_decide_eq_true].
  assert (Hreq : Q (passed w ++ es)%list (delete_request (queue_path v queue))).
  { apply HQ; [by exists (passed w), es, s|]. destruct Hs as (row&bound&->&_). eauto. }
  unfold delete_and_verify, mbind, acting_bind, send in H.
  destruct (sends _ (remote w1)) as [a s2]. set (e := Asked _ _) in H.
  assert (He : guarded Q (passed w) (es ++ [e])) by (apply guarded_app; split; [apply Hg|by split]).
  destruct a as [rows|a]; cbn [map_err] in H.
  2:{ injection H as <- <-. exists (es ++ [e])%list. cbn [passed]. by rewrite H1, app_assoc. }
  destruct (optional_queue_runtime_state v queue {| remote := s2; passed := passed w1 ++ [e] |}) as [o2 w2] eqn:E2.
  destruct (runtime_state_shown _ _ _ _ _ E2) as (es2&H2&Hg2&_). cbn [passed] in H2.
  assert (w' = w2) as -> by (destruct o2 as [[?|]|?]; unfold refused, calm, mret, acting_ret in H; congruence).
  exists ((es ++ [e]) ++ es2)%list. rewrite H2, H1, !app_assoc. split; [done|]. by apply guarded_app.
Qed.

(** Why a deletion is justified: a pair of the plan that is a candidate, its primary or, once the
    primary is gone, its dead-message queue, just shown idle. *)
Definition justified (d : DesiredState) (plan : QueueRetirementPlan) (pre : list exchange) (r : Request) : Prop :=
  ∃ p, p ∈ pairs plan ∧ retirement_candidate d plan p = true ∧
    (r = delete_request (queue_path (vpn d) (primary p)) ∧ just_idle (vpn d) (primary p) pre ∨
     r = delete_request (queue_path (vpn d) (dead_message p)) ∧ just_idle (vpn d) (dead_message p) pre ∧
       ∃ earlier es, pre = (earlier ++ [Monitored (queue_monitor_path (vpn d) (primary p)) (Some [])] ++ es)%list ∧
         length es = 2%nat).

Lemma guards_retire d plan : guards (justified d plan) (retire_stale_queues d plan).
Proof.
  apply guards_each. intros p Hp. destruct (retirement_candidate d plan p) eqn:Hc.
  2:{ intros w o w' H. unfold retire_pair in H. rewrite Hc in H. injection H as <- <-. exists []. by rewrite app_nil_r. }
  apply guards_bind; [rewrite Hc; apply guards_calm|intros _]. apply guards_bind.
  { intros w o w' H. eapply guards_delete_idle; [|exact H]. intros es Hi _. exists p. auto. }
  intros _ w o w' H. unfold mbind, acting_bind in H.
  destruct (optional_queue_runtime_state (vpn d) (primary p) w) as [[s|e] w1] eqn:E;
    destruct (runtime_state_shown _ _ _ _ _ E) as (es&H1&Hg&Hs).
  2:{ injection H as <- <-. eauto. }
  specialize (Hs s eq_refl). destruct s as [s|]; [injection H as <- <-; eauto|]. cbn [shown] in Hs.
  eapply (guards_delete_idle (justified d plan)) in H as (es2&H2&Hg2).
  - exists (es ++ es2)%list. rewrite H2, H1, app_assoc. split; [done|]. apply guarded_app. split; [done|]. by rewrite <- H1.
  - intros l Hi (l2&->&Hl). exists p. split; [done|]. split; [done|]. right. split; [done|]. split; [done|].
    exists (passed w), l2. rewrite H1, Hs. by rewrite <- app_assoc.
Qed.
End retiring.

(** Retirement deletes only stale queues that are shown idle.  A plan is made by one monitor
    reading: its pairs are exactly the owned primary names, not desired, that were listed by
    themselves or by their dead-message queue, each once, and each pair passes the check made
    before anything is deleted.  Carrying out any plan, whatever the broker answers and however it
    ends, everything it asks of the configuration interface is the deletion of a queue of one
    candidate pair: the primary, which the last two answers showed holding no message and bound by
    no one, or its dead-message queue, shown idle the same way right after the primary was gone. *)
Lemma retirement_safe `{M : Semp} drones d (plan : QueueRetirementPlan) w w'
    (Hnd : NoDup drones) (Hd : desired_queues drones = Ok (queues d))
    (Hp : plan_queue_retirement d w = (Ok plan, w')) :
  (∃ rows here, passed w' = (passed w ++ [Monitored (queue_monitor_collection_path (vpn d)) (Some rows)])%list ∧
     distinct_texts "queueName" (data <$> rows) = Some here ∧ NoDup (primary <$> pairs plan) ∧
     ∀ p, p ∈ primary <$> pairs plan ↔
       is_application_primary p = true ∧ (p ∉ name <$> queues d) ∧
       ∃ n, n ∈ here ∧ (n ∉ name <$> queues d) ∧ (n = p ∨ n = dead_message_queue_name p)) ∧
  Forall (λ p, retirement_candidate d plan p = true) (pairs plan) ∧
  ∀ plan' w1 o w2, retire_stale_queues d plan' w1 = (o, w2) →
    ∃ es, passed w2 = (passed w1 ++ es)%list ∧
      ∀ before r answer after, es = (before ++ Asked r answer :: after)%list →
        justified d plan' (passed w1 ++ before) r.
Proof.
  unfold plan_queue_retirement, queue_monitor_inventory, queue_monitor_rows, read_monitor_rows, mbind, acting_bind in Hp.
  destruct (reads_monitor_rows _ _) as [[rows|e] s1]; cbn [map_err ok_value] in Hp; [|done].
  destruct (distinct_texts "queueName" (data <$> rows)) as [here|] eqn:Hh; [|done].
  assert (Hlen : length rows = length here).
  { unfold distinct_texts in Hh. destruct (mapM _ _) as [texts|] eqn:Ht; [|done]. case_decide; [|done].
    injection Hh as <-. apply mapM_Some_1, Forall2_length in Ht. by rewrite length_fmap in Ht. }
  unfold mret, acting_ret in Hp. rewrite snd_zip in Hp by lia. injection Hp as <- <-. split; [|split].
  - exists rows, here. split; [done|]. split; [done|]. cbn [pairs].
    assert (Hpr : primary <$> (pair_of <$> merge_sort String.le (stale_primaries d here)) ≡ₚ stale_primaries d here).
    { rewrite <- list_fmap_compose, list_fmap_id. apply merge_sort_Permutation. }
    rewrite Hpr. split; [apply NoDup_remove_dups|]. intros p. rewrite Hpr. apply stale_exact.
  - apply Forall_forall. intros p (q&->&Hq)%list_elem_of_fmap. rewrite merge_sort_Permutation in Hq.
    by eapply planned_candidate.
  - intros plan' w1 o w2 H. destruct (guards_retire d plan' _ _ _ H) as (es&Hes&Hg). exists es. split; [done|].
    intros before r answer after ->. by eapply guarded_at.
Qed.

(** A broker of empty, unbound queues, one of them of a drone the fleet no longer has. *)
Definition empty_queue (n : string) : MonitorRow := {|
  data := document [("queueName", PyStr n)];
  collections := document [("msgs", PyDict (document [("count", PyInt 0)]))]
|}.

Definition idle_broker : Semp := {|
  semp := list string;
  semp_error := unit;
  sends r s := (Ok [], filter (λ n, queue_path "rescue" n ≠ path r) s);
  reads_all _ s := (Ok [], s);
  requires_fields _ s := (Ok tt, s);
  reads_monitor_rows p s :=
    (Ok (empty_queue <$> filter (λ n, p = queue_monitor_collection_path "rescue" ∨ p = queue_monitor_path "rescue" n) s), s);
  reads_monitor_count _ s := (Ok (PyInt 0), s)
|}.

Definition retired_drone : string := FLEET_PREFIX ++ "drone-9".
Definition fleet_state : DesiredState := {|
  vpn := "rescue"; profiles := []; client_profiles := []; usernames := []; templates := [];
  queues := two_drone_queues
|}.
Definition before_retirement : session (M := idle_broker) :=
  @Build_session idle_broker (retired_drone :: dead_message_queue_name retired_drone :: (name <$> two_drone_queues)) [].
Definition stale_plan : QueueRetirementPlan := {| plan_vpn := "rescue"; pairs := [pair_of retired_drone] |}.
Definition planned : session (M := idle_broker) :=
  (plan_queue_retirement (M := idle_broker) fleet_state before_retirement).2.

Lemma retirement_safe_witness :
  Forall (λ p, retirement_candidate fleet_state stale_plan p = true) (pairs stale_plan) ∧
  (retire_stale_queues (M := idle_broker) fleet_state stale_plan planned).1 = Ok tt.
Proof.
  split; [|by vm_compute].
  assert (Hplan : (plan_queue_retirement (M := idle_broker) fleet_state before_retirement).1 = Ok stale_plan)
    by by vm_compute.
  apply (retirement_safe (M := idle_broker) two_drones fleet_state stale_plan before_retirement planned);
    [by_tables|by vm_compute|by rewrite <- Hplan; apply surjective_pairing].
Defined.
