(* ===== verification/BrokerLink.v ===== *)
(** * The broker link and its readiness

    [BrokerLifecycle] and [MessageSettlement] of
    [packages/broker/src/aerial_rescue_broker/messaging.py].  The client library calls the
    lifecycle from its own threads; every method holds one lock, so a run is a list of
    [callback]s in the order the lock was taken.  The theorems say what readiness stands on. *)

From stdpp Require Import gmap sets strings.
From S2P Require Import Prelude PyStr Routing.
Local Open Scope string_scope.
Local Open Scope Z_scope.

Inductive BrokerLifecycleState : Set :=
| STARTING | CONNECTED | RECOVERING | RECOVERY_PENDING | EXHAUSTED | CLOSED.

#[export] Instance BrokerLifecycleState_eq_dec : EqDecision BrokerLifecycleState.
Proof. solve_decision. Defined.

(** A publisher's identity; [None] is the anonymous one. *)
Definition publisher_id : Type := option positive.

Record BrokerLifecycle : Type := {
  state : BrokerLifecycleState;
  application_ready : bool;
  blocked_publishers : gset publisher_id;
  registered_receivers : gset string;
  active_receivers : gset string;
  receiver_event_times : gmap string Z;
  transport_event_time : option Z;
  reconnect_cutoff : option Z
}.

Definition initial : BrokerLifecycle := {|
  state := STARTING; application_ready := false; blocked_publishers := ∅; registered_receivers := ∅;
  active_receivers := ∅; receiver_event_times := ∅; transport_event_time := None; reconnect_cutoff := None
|}.

(** [_all_receivers_active_unlocked] *)
Definition all_receivers_active (l : BrokerLifecycle) : bool :=
  bool_decide (registered_receivers l ⊆ active_receivers l).

Definition is_ready (l : BrokerLifecycle) : bool :=
  bool_decide (state l = CONNECTED) && application_ready l && bool_decide (blocked_publishers l = ∅) &&
  all_receivers_active l.

Definition is_terminal (l : BrokerLifecycle) : bool :=
  bool_decide (state l = EXHAUSTED) || bool_decide (state l = CLOSED).

(** The methods' assignments. *)
Definition with_state (s : BrokerLifecycleState) (l : BrokerLifecycle) : BrokerLifecycle := {|
  state := s; application_ready := application_ready l; blocked_publishers := blocked_publishers l;
  registered_receivers := registered_receivers l; active_receivers := active_receivers l;
  receiver_event_times := receiver_event_times l; transport_event_time := transport_event_time l;
  reconnect_cutoff := reconnect_cutoff l |}.
Definition with_ready (b : bool) (l : BrokerLifecycle) : BrokerLifecycle := {|
  state := state l; application_ready := b; blocked_publishers := blocked_publishers l;
  registered_receivers := registered_receivers l; active_receivers := active_receivers l;
  receiver_event_times := receiver_event_times l; transport_event_time := transport_event_time l;
  reconnect_cutoff := reconnect_cutoff l |}.
Definition with_blocked (s : gset publisher_id) (l : BrokerLifecycle) : BrokerLifecycle := {|
  state := state l; application_ready := application_ready l; blocked_publishers := s;
  registered_receivers := registered_receivers l; active_receivers := active_receivers l;
  receiver_event_times := receiver_event_times l; transport_event_time := transport_event_time l;
  reconnect_cutoff := reconnect_cutoff l |}.
Definition with_receivers (registered active : gset string) (times : gmap string Z) (l : BrokerLifecycle)
    : BrokerLifecycle := {|
  state := state l; application_ready := application_ready l; blocked_publishers := blocked_publishers l;
  registered_receivers := registered; active_receivers := active; receiver_event_times := times;
  transport_event_time := transport_event_time l; reconnect_cutoff := reconnect_cutoff l |}.
Definition with_transport (at_ cutoff : option Z) (l : BrokerLifecycle) : BrokerLifecycle := {|
  state := state l; application_ready := application_ready l; blocked_publishers := blocked_publishers l;
  registered_receivers := registered_receivers l; active_receivers := active_receivers l;
  receiver_event_times := receiver_event_times l; transport_event_time := at_; reconnect_cutoff := cutoff |}.

Definition active_set (active : gset string) (l : BrokerLifecycle) : BrokerLifecycle :=
  with_receivers (registered_receivers l) active (receiver_event_times l) l.

(** ** The methods *)

Definition connected (l : BrokerLifecycle) : BrokerLifecycle :=
  if is_terminal l then l else
  with_transport None None (with_receivers (registered_receivers l) ∅ ∅ (with_ready false (with_state CONNECTED l))).

Definition mark_ready (l : BrokerLifecycle) : BrokerLifecycle :=
  if bool_decide (state l = CONNECTED) || bool_decide (state l = RECOVERY_PENDING) then
    let l := with_ready true l in
    if all_receivers_active l then with_state CONNECTED l else l
  else l.

Definition receiver_registered (r : string) (l : BrokerLifecycle) : BrokerLifecycle :=
  if is_terminal l then l else
  with_ready false
    (with_receivers ({[r]} ∪ registered_receivers l) (active_receivers l ∖ {[r]}) (delete r (receiver_event_times l)) l).

(** [_accept_receiver_event_unlocked], which records the newest instant it accepts. *)
Definition accept_receiver_event (r : string) (at_ : option Z) (l : BrokerLifecycle) : option BrokerLifecycle :=
  match at_ with
  | None => Some l
  | Some t =>
      match receiver_event_times l !! r with
      | Some previous => if t <? previous then None else
          Some (with_receivers (registered_receivers l) (active_receivers l) (<[r := t]> (receiver_event_times l)) l)
      | None => Some (with_receivers (registered_receivers l) (active_receivers l) (<[r := t]> (receiver_event_times l)) l)
      end
  end.

(** [_event_is_in_recovery_epoch_unlocked] *)
Definition in_recovery_epoch (at_ : option Z) (l : BrokerLifecycle) : bool :=
  match at_, reconnect_cutoff l with
  | Some t, Some cutoff => cutoff <=? t
  | _, _ => true
  end.

(** [_accept_transport_event_unlocked] *)
Definition accept_transport_event (at_ : option Z) (l : BrokerLifecycle) : option BrokerLifecycle :=
  match at_, transport_event_time l with
  | Some t, Some previous => if t <? previous then None else Some (with_transport (Some t) (reconnect_cutoff l) l)
  | at_, _ => Some (with_transport at_ (reconnect_cutoff l) l)
  end.

(** The guard the two flow callbacks share; the instant is kept even when the epoch is over. *)
Definition flow_event (r : string) (at_ : option Z) (f : BrokerLifecycle → BrokerLifecycle) (l : BrokerLifecycle)
    : BrokerLifecycle :=
  if is_terminal l || negb (bool_decide (r ∈ registered_receivers l)) then l else
  match accept_receiver_event r at_ l with
  | None => l
  | Some l => if in_recovery_epoch at_ l then f l else l
  end.

Definition receiver_active (r : string) (at_ : option Z) : BrokerLifecycle → BrokerLifecycle :=
  flow_event r at_ (λ l,
    let l := active_set ({[r]} ∪ active_receivers l) l in
    if bool_decide (state l = RECOVERY_PENDING) && application_ready l && all_receivers_active l
    then with_state CONNECTED l else l).

Definition receiver_passive (r : string) (at_ : option Z) : BrokerLifecycle → BrokerLifecycle :=
  flow_event r at_ (λ l,
    let l := with_ready false (active_set (active_receivers l ∖ {[r]}) l) in
    if bool_decide (state l = CONNECTED) then with_state RECOVERY_PENDING l else l).

Definition publisher_blocked (p : publisher_id) (l : BrokerLifecycle) : BrokerLifecycle :=
  if is_terminal l then l else with_ready false (with_blocked ({[p]} ∪ blocked_publishers l) l).

Definition recovery_required (l : BrokerLifecycle) : BrokerLifecycle :=
  if is_terminal l then l else with_ready false l.

Definition publisher_available (p : publisher_id) (l : BrokerLifecycle) : BrokerLifecycle :=
  if is_terminal l then l else with_blocked (blocked_publishers l ∖ {[p]}) l.

(** A receiver keeps its flow through a reconnect only when its own event is not older. *)
Definition survives (at_ : option Z) (l : BrokerLifecycle) (r : string) : Prop :=
  match at_, receiver_event_times l !! r with
  | Some t, Some seen => t ≤ seen
  | _, _ => False
  end.
#[export] Instance survives_dec at_ l r : Decision (survives at_ l r).
Proof. unfold survives. destruct at_; [destruct (receiver_event_times l !! r)|]; apply _. Defined.

Definition reconnecting (at_ : option Z) (l : BrokerLifecycle) : BrokerLifecycle :=
  if is_terminal l then l else
  match accept_transport_event at_ l with
  | None => l
  | Some l =>
      active_set (filter (survives at_ l) (active_receivers l))
        (with_transport (transport_event_time l) at_ (with_ready false (with_state RECOVERING l)))
  end.

Definition reconnected (at_ : option Z) (l : BrokerLifecycle) : BrokerLifecycle :=
  if is_terminal l then l else
  match accept_transport_event at_ l with
  | None => l
  | Some l => with_ready false (with_state RECOVERY_PENDING l)
  end.

Definition exhausted (l : BrokerLifecycle) : BrokerLifecycle :=
  active_set ∅ (with_ready false (with_state EXHAUSTED l)).

Definition closed (l : BrokerLifecycle) : BrokerLifecycle :=
  active_set ∅ (with_ready false (with_state CLOSED l)).

(** ** Runs *)

Inductive callback : Type :=
| Connected | MarkReady | ReceiverRegistered (r : string) | ReceiverActive (r : string) (at_ : option Z)
| ReceiverPassive (r : string) (at_ : option Z) | PublisherBlocked (p : publisher_id) | RecoveryRequired
| PublisherAvailable (p : publisher_id) | Reconnecting (at_ : option Z) | Reconnected (at_ : option Z)
| Exhausted | Closed.

Definition step (l : BrokerLifecycle) (c : callback) : BrokerLifecycle :=
  match c with
  | Connected => connected l | MarkReady => mark_ready l | ReceiverRegistered r => receiver_registered r l
  | ReceiverActive r at_ => receiver_active r at_ l | ReceiverPassive r at_ => receiver_passive r at_ l
  | PublisherBlocked p => publisher_blocked p l | RecoveryRequired => recovery_required l
  | PublisherAvailable p => publisher_available p l | Reconnecting at_ => reconnecting at_ l
  | Reconnected at_ => reconnected at_ l | Exhausted => exhausted l | Closed => closed l
  end.

Definition lifecycle (cs : list callback) : BrokerLifecycle := foldl step initial cs.

(** What a callback costs: whether it takes readiness away, stale flow and transport events
    being ignored. *)
Definition newer (previous at_ : option Z) : bool :=
  match at_, previous with Some t, Some p => p <=? t | _, _ => true end.

Definition lost (l : BrokerLifecycle) (c : callback) : bool :=
  match c with
  | ReceiverPassive r at_ =>
      bool_decide (r ∈ registered_receivers l) && newer (receiver_event_times l !! r) at_ &&
      newer (reconnect_cutoff l) at_
  | Reconnecting at_ | Reconnected at_ => newer (transport_event_time l) at_
  | MarkReady | ReceiverActive _ _ | PublisherAvailable _ => false
  | _ => true
  end.

(** What must follow it before the service is ready again. *)
Definition flows (after : list callback) (r : string) : Prop := ∃ at_, ReceiverActive r at_ ∈ after.

Definition restored (l : BrokerLifecycle) (c : callback) (after : list callback) : Prop :=
  MarkReady ∈ after ∧
  match c with
  | Exhausted | Closed => False
  | PublisherBlocked p => PublisherAvailable p ∈ after
  | ReceiverRegistered r | ReceiverPassive r _ => flows after r
  | Connected => ∀ r, r ∈ registered_receivers l → flows after r
  | Reconnecting at_ =>
      (Connected ∈ after ∨ ∃ at', Reconnected at' ∈ after) ∧
      ∀ r, r ∈ registered_receivers l → ¬ survives at_ l r → flows after r
  | _ => True
  end.

(** ** What a run of callbacks can gain *)

Ltac by_callback :=
  unfold step, connected, mark_ready, receiver_registered, receiver_active, receiver_passive, flow_event,
    accept_receiver_event, publisher_blocked, recovery_required, publisher_available,
    reconnecting, reconnected, exhausted, closed, active_set, accept_transport_event, is_terminal, all_receivers_active;
  cbn; repeat (case_match; simplify_eq; cbn);
  repeat match goal with H : _ || _ = true |- _ => apply orb_true_iff in H as [H|H] end.

Lemma gained (P : BrokerLifecycle → Prop) (cause : callback → Prop) cs l :
  (∀ l c, P (step l c) → P l ∨ cause c) → P (foldl step l cs) → P l ∨ ∃ c, c ∈ cs ∧ cause c.
Proof.
  intros Hstep. revert l. induction cs as [|c cs IH]; intros l H; [by left|].
  destruct (IH _ H) as [HP|(c'&?&?)]; [|right; exists c'; split; [by right|done]].
  destruct (Hstep _ _ HP) as [|]; [by left|right; exists c; split; [by left|done]].
Qed.

Lemma gained_ready cs l :
  application_ready (foldl step l cs) = true → application_ready l = true ∨ MarkReady ∈ cs.
Proof.
  intros H. destruct (gained (λ l, application_ready l = true) (λ c, c = MarkReady) cs l) as [|(c&Hc&->)]; auto.
  intros ? []; by_callback; by auto.
Qed.

Lemma gained_flow r cs l :
  r ∈ active_receivers (foldl step l cs) → r ∈ active_receivers l ∨ flows cs r.
Proof.
  intros H. destruct (gained (λ l, r ∈ active_receivers l) (λ c, ∃ at_, c = ReceiverActive r at_) cs l)
    as [|(c&Hc&?&->)]; [|done|by left|by right; eexists].
  intros ? []; by_callback; try (by auto); set_solver.
Qed.

Lemma gained_publisher p cs l :
  p ∉ blocked_publishers (foldl step l cs) → p ∉ blocked_publishers l ∨ PublisherAvailable p ∈ cs.
Proof.
  intros H. destruct (gained (λ l, p ∉ blocked_publishers l) (λ c, c = PublisherAvailable p) cs l)
    as [|(c&Hc&->)]; auto.
  intros ? []; by_callback; try (by auto); rewrite ?not_elem_of_union, ?not_elem_of_difference, ?elem_of_singleton.
  - by intros []; left.
  - intros [|<-]; [by left|by right].
Qed.

(** A terminal lifecycle stays terminal, and a receiver once registered stays required. *)
Definition live (l : BrokerLifecycle) : Prop := state l ≠ EXHAUSTED ∧ state l ≠ CLOSED.

Lemma is_terminal_live l : is_terminal l = false ↔ live l.
Proof. unfold is_terminal, live. by rewrite orb_false_iff, !bool_decide_eq_false. Qed.

Lemma gained_live cs l : live (foldl step l cs) → live l.
Proof.
  intros H. destruct (gained live (λ _, False) cs l) as [|(?&?&[])]; auto. clear.
  unfold live. intros ? []; by_callback; intros []; left; bools; split; congruence.
Qed.

Lemma kept_registered r cs l : r ∈ registered_receivers l → r ∈ registered_receivers (foldl step l cs).
Proof.
  intros Hr. destruct (decide (r ∈ registered_receivers (foldl step l cs))) as [|Hn]; [done|exfalso].
  destruct (gained (λ l, r ∉ registered_receivers l) (λ _, False) cs l) as [|(?&?&[])]; auto. clear.
  intros ? []; by_callback; try (by auto); rewrite ?not_elem_of_union; naive_solver.
Qed.

(** A lost connection comes back through a reconnection. *)
Lemma gained_connection cs l :
  state (foldl step l cs) = CONNECTED → state l ≠ RECOVERING ∨ Connected ∈ cs ∨ ∃ at_, Reconnected at_ ∈ cs.
Proof.
  intros H. destruct (gained (λ l, live l ∧ state l ≠ RECOVERING) (λ c, c = Connected ∨ ∃ at_, c = Reconnected at_) cs l)
    as [[]|(c&Hc&[->|[? ->]])]; eauto; [|by unfold live; rewrite H]. clear. unfold live.
  intros ? []; by_callback; intros [[] ?]; bools; eauto; left; repeat split; congruence.
Qed.

(** The state of a service the application has declared ready. *)
Definition coherent (l : BrokerLifecycle) : Prop :=
  application_ready l = true →
  state l = CONNECTED ∨ state l = RECOVERY_PENDING ∧ ¬ registered_receivers l ⊆ active_receivers l.

Lemma coherent_lifecycle cs : coherent (lifecycle cs).
Proof.
  unfold lifecycle. assert (H : coherent initial) by done. revert H. generalize initial.
  induction cs as [|c cs IH]; intros l H; [done|]. apply IH. clear IH. unfold coherent in *.
  destruct c; by_callback; bools; try done; eauto.
  all: intros Hr; destruct (H Hr) as [|[Hs _]]; [by left|right; split; [done|intros Hsub]].
  all: match goal with Hf : _ && _ && _ = false |- _ => revert Hf end.
  all: by rewrite Hs, Hr, !bool_decide_eq_true_2.
Qed.

Lemma ready_facts l : is_ready l = true →
  state l = CONNECTED ∧ application_ready l = true ∧ blocked_publishers l = ∅ ∧
  registered_receivers l ⊆ active_receivers l.
Proof. unfold is_ready, all_receivers_active. intros. by bools. Qed.

(** A receiver that is required and not active now is active only after its flow says so. *)
Lemma flow_restored r after l :
  is_ready (foldl step l after) = true → r ∈ registered_receivers l → r ∉ active_receivers l → flows after r.
Proof.
  intros (_&_&_&Hsub)%ready_facts Hr Hn. destruct (gained_flow r after l); [|done|done].
  by apply Hsub, kept_registered.
Qed.

Lemma lost_restored l c after :
  is_ready (foldl step (step l c) after) = true → lost l c = true → restored l c after.
Proof.
  intros Hready Hlost. pose proof (flow_restored) as Hflow.
  pose proof (ready_facts _ Hready) as (Hst&Happ&Hbl&_).
  assert (Hl' : live (step l c)) by (apply (gained_live after); unfold live; by rewrite Hst).
  assert (Hl : is_terminal l = false) by (by apply is_terminal_live, (gained_live [c])). split.
  - destruct (gained_ready after (step l c) Happ) as [Hx|]; [exfalso|done]. revert Hx Hl Hlost. clear.
    destruct c; by_callback; intros; bools; first [done|lia|congruence].
  - assert (Hgone : ∀ r, r ∈ registered_receivers (step l c) → r ∉ active_receivers (step l c) → flows after r)
      by (intros; by eapply flow_restored).
    destruct c as [| |r|r at_|r at_|p| |p|at_|at_| |]; cbn in Hlost; try done.
    + intros r Hr. apply Hgone; revert Hl Hr; clear; by_callback; done.
    + apply Hgone; revert Hl; clear; by_callback; set_solver.
    + apply Hgone; revert Hl Hlost; clear; by_callback; intros; bools; first [done|lia|set_solver].
    + destruct (gained_publisher p after (step l (PublisherBlocked p))) as [Hx|]; [rewrite Hbl; set_solver| |done].
      exfalso. revert Hl Hx. clear. by_callback; set_solver.
    + assert (Hrec : state (step l (Reconnecting at_)) = RECOVERING)
        by (revert Hl Hlost; clear; by_callback; intros; bools; first [done|lia]).
      split; [by destruct (gained_connection _ _ Hst) as [|Hx]|].
      intros r Hr Hcut. apply Hgone; revert Hl Hlost Hr Hcut; clear; by_callback; intros; bools;
        first [done|lia|intros [Hs _]%elem_of_filter; revert Hs; unfold survives; cbn; repeat case_match; simplify_eq; first [done|lia]].
    + by destruct Hl'.
    + by destruct Hl'.
Qed.

(** ** Readiness is earned *)

(** A service is ready exactly when the application has declared it so, no publisher is
    blocked and every registered receiver is active; the transport's state adds nothing.  And
    whatever costs readiness has to be made good before the service is ready again: whichever
    callback of the run took readiness away, the application's own decision comes after it; a
    blocked publisher has become available; a receiver registered, turned passive or cut off by a
    new connection or a reconnection has reported its flow active since (and not with a stale
    event); the transport, once lost, has reconnected; and no service that was exhausted or closed
    is ever ready. *)
Lemma readiness_earned cs :
  is_ready (lifecycle cs) = application_ready (lifecycle cs) &&
    bool_decide (blocked_publishers (lifecycle cs) = ∅) && all_receivers_active (lifecycle cs) ∧
  (is_ready (lifecycle cs) = true → ∀ before c after,
     cs = (before ++ c :: after)%list → lost (lifecycle before) c = true →
     restored (lifecycle before) c after).
Proof.
  split.
  - unfold is_ready, all_receivers_active. pose proof (coherent_lifecycle cs) as Hc.
    destruct (application_ready (lifecycle cs)) eqn:Hr; [|by rewrite !andb_false_r].
    destruct (Hc Hr) as [->|[-> Hn]]; [done|]. by rewrite (bool_decide_eq_false_2 _ Hn), !andb_false_r.
  - intros Hready before c after -> Hlost. unfold lifecycle in Hready |- *.
    rewrite foldl_app in Hready. by apply lost_restored.
Qed.

(** A gateway that binds its inbox, drains, loses its connection and comes back; its flow reports
    passive with the instant of the lost connection and active with a later one. *)
Definition recovered_before : list callback := [
  Connected; ReceiverRegistered "command-inbox"; ReceiverActive "command-inbox" (Some 10); MarkReady
].
Definition recovered_after : list callback := [
  ReceiverPassive "command-inbox" (Some 15); Reconnected (Some 25); ReceiverActive "command-inbox" (Some 26);
  MarkReady
].
Definition recovered_run : list callback := (recovered_before ++ Reconnecting (Some 20) :: recovered_after)%list.

Lemma readiness_earned_witness :
  is_ready (lifecycle recovered_before) = true ∧ is_ready (lifecycle recovered_run) = true ∧
  restored (lifecycle recovered_before) (Reconnecting (Some 20)) recovered_after.
Proof.
  split; [by vm_compute|]. split; [by vm_compute|].
  by apply (readiness_earned recovered_run) with (before := recovered_before) (after := recovered_after); vm_compute.
Defined.
