(* ===== verification/Reply.v ===== *)
(** * Where an answer may be sent

    [services/command_gateway/src/aerial_rescue_command_gateway/reply.py]: the reply topic and the
    correlation stack both come from whoever sent the request, and the component reading them is
    the one that may command drones.  The theorem is the guard: nothing but a response topic on
    the reserved reply identifier is ever a target. *)

From S2P Require Import Prelude PyStr Regex PyVal Topics.
Local Open Scope string_scope.
Local Open Scope Z_scope.

Definition REPLY_TOPIC_KEY : string := "__solace_ai_connector_broker_request_response_topic__".
Definition REPLY_METADATA_KEY : string := "__solace_ai_connector_broker_request_reply_metadata__".
Definition MAX_REPLY_METADATA_BYTES : Z := 4096.
Definition REQUEST_ID_KEY : string := "request_id".

Inductive ReplyRefusal : Set :=
| NOT_A_MAPPING | MISSING_TOPIC | TOPIC_FORM | TOPIC_FAMILY | TOPIC_MISSION | MISSING_METADATA
| METADATA_LENGTH | METADATA_FORM | METADATA_EMPTY | REQUEST_ID.

(** [ReplyError], or what is no [ReplyError]: the encoding of a lone surrogate and the scanner's
    own limits, an over-long integer and over-deep nesting. *)
Inductive reply_failure : Set :=
| ReplyError (refusal : ReplyRefusal)
| TopicEscape (e : topic_failure)
| EncodeEscape
| IntegerEscape
| RecursionEscape.

Definition refuse {A} (r : ReplyRefusal) : result reply_failure A := Err (ReplyError r).

Record ReplyTarget : Set := { topic : string; request_id : string; metadata : string }.

(** [_properties] *)
Definition properties (v : pyval) : result reply_failure members :=
  match v with PyDict d => Ok d | _ => refuse NOT_A_MAPPING end.

(** [except TopicError] *)
Definition topic_refused (e : topic_failure) : reply_failure :=
  match e with Topics.Refused _ => ReplyError TOPIC_FORM | e => TopicEscape e end.

(** [_topic] *)
Definition reply_topic (d : members) : result reply_failure string :=
  match get d REPLY_TOPIC_KEY with
  | PyStr text =>
      t ← map_err topic_refused (parse_topic (PyStr text));
      raise_if (negb (bool_decide (family t = GATEWAY_RESPONSE))) (ReplyError TOPIC_FAMILY) ;;
      raise_if (negb (bool_decide (mission_id t = RESERVED_REPLY_MISSION))) (ReplyError TOPIC_MISSION) ;;
      Ok text
  | _ => refuse MISSING_TOPIC
  end.

(** The dictionary [json.loads] builds without a hook: a repeated name keeps its first place and
    takes its last value. *)
Definition plain_object (ps : list (string * pyval)) : result Empty_set pyval :=
  Ok (PyDict (foldl (λ d p, dict_set d (KStr p.1) p.2) [] ps)).

(** What [except json.JSONDecodeError] leaves. *)
Definition not_json (e : json_error Empty_set) : reply_failure :=
  match e with
  | JSONDecodeError => ReplyError METADATA_FORM
  | RecursionError => RecursionEscape
  | IntegerLimit => IntegerEscape
  | Hook e => match e with end
  end.

Section target.
Context (limit : nat).

(** [_stack] *)
Definition stack (d : members) : result reply_failure (string * list pyval) :=
  match get d REPLY_METADATA_KEY with
  | PyStr text =>
      raise_if (has_surrogate text) EncodeEscape ;;
      raise_if (MAX_REPLY_METADATA_BYTES <? Z.of_nat (String.length text)) (ReplyError METADATA_LENGTH) ;;
      v ← map_err not_json (loads plain_object limit text);
      match v with
      | PyList [] => refuse METADATA_EMPTY
      | PyList l => Ok (text, l)
      | _ => refuse METADATA_FORM
      end
  | _ => refuse MISSING_METADATA
  end.

(** [_request_id] *)
Definition named_request (l : list pyval) : result reply_failure string :=
  match last l with
  | Some (PyDict entry) =>
      match get entry REQUEST_ID_KEY with
      | PyStr named => if fullmatch IDENTIFIER_PATTERN named then Ok named else refuse REQUEST_ID
      | _ => refuse REQUEST_ID
      end
  | _ => refuse REQUEST_ID
  end.

Definition reply_target (v : pyval) : result reply_failure ReplyTarget :=
  d ← properties v;
  topic ← reply_topic d;
  '(metadata, l) ← stack d;
  id ← named_request l;
  Ok {| topic := topic; request_id := id; metadata := metadata |}.

(** ** The guard *)

(** The reserved reply channel, the requestor's own metadata and an identifier. *)
Definition safe_target (v : pyval) (t : ReplyTarget) : Prop :=
  ∃ d reply, v = PyDict d ∧ get d REPLY_TOPIC_KEY = PyStr (topic t) ∧ get d REPLY_METADATA_KEY = PyStr (metadata t) ∧
    parse_topic (PyStr (topic t)) = Ok reply ∧ family reply = GATEWAY_RESPONSE ∧
    mission_id reply = RESERVED_REPLY_MISSION ∧
    fullmatch IDENTIFIER_PATTERN (request_id t) = true ∧
    Z.of_nat (String.length (metadata t)) ≤ MAX_REPLY_METADATA_BYTES.

Lemma reply_topic_Ok d text :
  reply_topic d = Ok text →
  get d REPLY_TOPIC_KEY = PyStr text ∧ ∃ t, parse_topic (PyStr text) = Ok t ∧
    family t = GATEWAY_RESPONSE ∧ mission_id t = RESERVED_REPLY_MISSION.
Proof.
  unfold reply_topic. destruct (get d REPLY_TOPIC_KEY); try done. intros Ht. run_ok. bools. subst. eauto.
Qed.

Lemma stack_Ok d text l :
  stack d = Ok (text, l) →
  get d REPLY_METADATA_KEY = PyStr text ∧ Z.of_nat (String.length text) ≤ MAX_REPLY_METADATA_BYTES.
Proof.
  unfold stack. destruct (get d REPLY_METADATA_KEY); try done. intros Ht. run_ok. bools.
  match goal with H : match ?v with _ => _ end = Ok _ |- _ => destruct v as [| | | |[|]| |]; try done; injection H as <- <- end.
  done.
Qed.

Lemma named_request_Ok l id : named_request l = Ok id → fullmatch IDENTIFIER_PATTERN id = true.
Proof.
  unfold named_request. destruct (last l) as [[| | | | |entry|]|]; try done.
  destruct (get entry REQUEST_ID_KEY); try done. case_match eqn:Hm; [|done]. by intros [= <-].
Qed.

Lemma reply_target_Ok v t : reply_target v = Ok t → safe_target v t.
Proof.
  unfold reply_target. intros (d&Hd&Ht)%bind_Ok. apply bind_Ok in Ht as (text&Htext&Ht).
  apply bind_Ok in Ht as ([metadata l]&Hstack&Ht). apply bind_Ok in Ht as (id&Hid&[= <-]).
  destruct v; try done. injection Hd as ->. apply reply_topic_Ok in Htext as (Hk&reply&Hp&Hf&Hm).
  apply stack_Ok in Hstack as [Hmeta Hlen]. apply named_request_Ok in Hid.
  exists d, reply. by split_and!.
Qed.
End target.
