(* ===== verification/Exchange.v ===== *)
(** * One request in, one reply and one record out

    [services/command_gateway/src/aerial_rescue_command_gateway/exchange.py] and the record it
    publishes, [record.py].  The publisher is an argument; the process passes the router of its
    own role, and the theorem composes the two: whatever the requestor sends, the gateway says
    at most one thing on the reserved reply channel and then one thing about it. *)

From S2P Require Import Prelude PyStr Regex PyVal Canonical JsonBytes Topics Envelope Rpc Principals Policy Ingress Routing Reply.
Local Open Scope string_scope.
Local Open Scope Z_scope.

(** ** The record *)

Inductive RecordRefusal : Set := SEQUENCE_RANGE | UNPUBLISHABLE.

(** [RecordError], or what the contracts raise outside its [try]. *)
Inductive record_failure : Set :=
| RecordError (refusal : RecordRefusal)
| BadTopic (e : topic_failure)
| BadEnvelope (e : envelope_failure).

Record RecordStamp : Set := {
  event_id : string; occurred_at : string; stamp_sequence : Z; stamp_traceparent : string
}.

Definition event_source : string :=
  join ":" ["urn"; TOPIC_NAMESPACE_ROOT; principal_value COMMAND_GATEWAY; principal_value COMMAND_GATEWAY].

Definition record_topic (r : GatewayResponse) : Topic := {|
  family := GATEWAY_RECORD; Topics.mission_id := Rpc.mission_id r; parameters := [("requestId", Rpc.request_id r)]
|}.

Definition record_envelope (r : GatewayResponse) (s : RecordStamp) (declared schema sequence : string) : Envelope := {|
  Envelope.id := event_id s; Envelope.source := event_source; Envelope.type := declared;
  Envelope.subject := Rpc.mission_id r; Envelope.time := occurred_at s; Envelope.dataschema := schema;
  Envelope.sequence := sequence; Envelope.correlation_id := Rpc.request_id r;
  Envelope.traceparent := stamp_traceparent s; Envelope.data := gateway_response_document r;
  Envelope.causation_id := None; Envelope.tracestate := None
|}.

(** What [except ValueError] leaves of reading the record back. *)
Definition unpublishable (e : envelope_failure) : record_failure :=
  match envelope_lookup e with
  | Some n => BadEnvelope (Envelope.KeyError n)
  | None => RecordError UNPUBLISHABLE
  end.

Definition response_record `{Normalization} (r : GatewayResponse) (s : RecordStamp) : result record_failure (string * members) :=
  declared ← map_err BadTopic (event_type (record_topic r));
  binding ← map_err BadEnvelope (binding_for declared);
  sequence ← or_raise (sequence_text (stamp_sequence s)) (RecordError SEQUENCE_RANGE);
  let document := envelope_document (record_envelope r s declared (bound_schema binding) sequence) in
  map_err unpublishable (e ← parse_envelope (PyDict document); check_topic_binding e (record_topic r)) ;;
  text ← map_err BadTopic (format_topic (record_topic r));
  Ok (text, document).

(** ** The exchange *)

Inductive ExchangeOutcome : Set := REPLIED | RECORD_FAILED | UNDELIVERABLE | UNREADABLE.

#[export] Instance ExchangeOutcome_eq_dec : EqDecision ExchangeOutcome.
Proof. solve_decision. Defined.

(** The refusal whose text [detail] carries. *)
Inductive ExchangeDetail : Set :=
| NoTarget (refusal : ReplyRefusal)
| NoRecord (refusal : RecordRefusal)
| RecordRefused (refusal : MessagingRefusal).

Record Exchange : Set := {
  outcome : ExchangeOutcome; exchange_topic : option string; exchange_request : option string;
  detail : option ExchangeDetail
}.

(** Everything that leaves [handle_message] as an exception. *)
Inductive exchange_failure : Set :=
| ReplyEscape (e : reply_failure)
| RequestEscape (e : rpc_failure)
| TopicEscape (e : topic_failure)
| LookupEscape
| Uncanonical (e : CanonicalizationError)
| RecordEscape (e : record_failure)
| PublishEscape (e : routing_failure).

Section exchange.
Context `{N : Normalization} (limit : nat).

(** [_agrees]: of a topic only [TopicError] is caught. *)
Definition agrees (topic : option string) (r : GatewayRequest) : result exchange_failure bool :=
  match parse_topic (match topic with Some text => PyStr text | None => PyNone end) with
  | Err (Topics.Refused _) => Ok false
  | Err e => Err (TopicEscape e)
  | Ok t =>
      if bool_decide (family t = GATEWAY_REQUEST) && bool_decide (Topics.mission_id t = request_mission_id r)
      then operation ← or_raise (dict_get (parameters t) "operation") LookupEscape;
           Ok (bool_decide (operation = request_operation r))
      else Ok false
  end.

(** [except canonical.CanonicalizationError, RpcError]: the [ValueError] of an over-long integer
    and the [KeyError] of a lookup are neither. *)
Definition unreadable (e : rpc_failure) : option exchange_failure :=
  match e with
  | Rpc.Refused _ | Rpc.Undecodable (Canonical.Refused _) => None
  | e => Some (RequestEscape e)
  end.

(** [_request_of] *)
Definition request_of (m : InboundMessage) : result exchange_failure (option GatewayRequest) :=
  match inbound_payload m with
  | None => Ok None
  | Some payload =>
      match (v ← map_err Rpc.Undecodable (decode_bytes limit payload); parse_gateway_request v) with
      | Err e => match unreadable e with Some e => Err e | None => Ok None end
      | Ok r => same ← agrees (destination_name m) r; Ok (if (same : bool) then Some r else None)
      end
  end.

Context (publish : string → string → members → wired routing_failure unit).

(** [_reply] *)
Definition reply (t : ReplyTarget) (r : GatewayResponse) : wired exchange_failure unit :=
  bytes ← calm (map_err Uncanonical (canonical_bytes (PyDict (gateway_response_document r))));
  rewire PublishEscape (publish (Reply.topic t) bytes (document [(REPLY_METADATA_KEY, PyStr (metadata t))])).

(** A call whose [MessagingError] is caught. *)
Definition unless_refused (m : wired routing_failure unit) : wired exchange_failure (option ExchangeDetail) := λ w,
  match m w with
  | (Ok _, w) => (Ok None, w)
  | (Err (MessagingError refusal), w) => (Ok (Some (RecordRefused refusal)), w)
  | (Err e, w) => (Err (PublishEscape e), w)
  end.

(** [_record] *)
Definition record (r : GatewayResponse) (s : RecordStamp) : wired exchange_failure (option ExchangeDetail) :=
  match response_record r s with
  | Err (RecordError refusal) => mret (Some (NoRecord refusal))
  | Err e => calm (Err (RecordEscape e))
  | Ok (text, d) =>
      bytes ← calm (map_err Uncanonical (canonical_bytes (PyDict d)));
      unless_refused (publish text bytes [])
  end.

Definition exchanged (o : ExchangeOutcome) (t : ReplyTarget) (d : option ExchangeDetail) : Exchange :=
  {| outcome := o; exchange_topic := Some (Reply.topic t); exchange_request := Some (request_id t); detail := d |}.

Definition handle_message (m : InboundMessage) (s : RecordStamp) : wired exchange_failure Exchange :=
  match reply_target limit (user_properties m) with
  | Err (ReplyError refusal) =>
      mret {| outcome := UNDELIVERABLE; exchange_topic := None; exchange_request := None;
              detail := Some (NoTarget refusal) |}
  | Err e => calm (Err (ReplyEscape e))
  | Ok target =>
      request ← calm (request_of m);
      match request with
      | None => mret (exchanged UNREADABLE target None)
      | Some r =>
          response ← calm (or_raise (answer r (request_id target)) LookupEscape);
          reply target response ;;
          why ← record response s;
          mret (exchanged (match why with None => REPLIED | Some _ => RECORD_FAILED end) target why)
      end
  end.
End exchange.

(** ** What the gateway says *)

(** The answer on the requestor's own channel, and the event that records it. *)
Definition is_reply `{Normalization} (t : ReplyTarget) (r : GatewayResponse) (p : Publication) : Prop :=
  port p = RESPONDER_PORT ∧ destination p = Reply.topic t ∧
  canonical_bytes (PyDict (gateway_response_document r)) = Ok (body p) ∧
  carried p = document [(REPLY_METADATA_KEY, PyStr (metadata t))].

Definition is_record `{Normalization} (r : GatewayResponse) (s : RecordStamp) (p : Publication) : Prop :=
  port p = DIRECT_PORT ∧ carried p = [] ∧
  ∃ d, response_record r s = Ok (destination p, d) ∧ canonical_bytes (PyDict d) = Ok (body p).

Section said.
Context `{N : Normalization} `{B : Broker} (limit : nat) (p : PublicationPorts) (r : DeliveryRouter).
Context (Hr : delivery_router COMMAND_GATEWAY p = Ok r).

(** A publication through the router either hands over exactly itself or nothing; only in the first
    case does it return, or raise what a client library raises. *)
Lemma publish_wire text payload properties w o w' :
  publish limit r text payload properties w = (o, w') →
  (∃ t, parse_topic (PyStr text) = Ok t ∧
     w' = (w ++ [{| port := port_of (delivery_for (family t)); destination := text; body := payload;
                    carried := properties |}])%list) ∨
  (w' = w ∧ o ≠ Ok tt ∧ ∀ refusal, o ≠ Err (MessagingError refusal)).
Proof.
  intros Hp. destruct (publish_refused limit _ _ _ _ _ _ _ _ _ Hr Hp) as [[t Ht]|[-> Ho]].
  - left. exists t. split; [apply Ht|]. rewrite (publish_admitted limit _ _ _ _ _ _ _ _ Hr Ht) in Hp.
    by injection Hp as _ <-.
  - right. split; [done|]. by destruct Ho as [(?&->&_)|(?&->)].
Qed.

Lemma record_destination a s text d :
  response_record a s = Ok (text, d) → ∃ t, parse_topic (PyStr text) = Ok t ∧ family t = GATEWAY_RECORD.
Proof.
  unfold response_record. intros Hd. do 4 (apply bind_Ok in Hd as (?&_&Hd)).
  apply bind_Ok in Hd as (text'&Hf&Hd). apply map_err_Ok in Hf. injection Hd as <- _.
  destruct (format_topic_parses (record_topic a) text') as (ps&Hps&_); [apply NoDup_singleton|done|]. eauto.
Qed.
(** Nothing, or the reply and then at most the record. *)
Definition said (m : InboundMessage) (s : RecordStamp) (ps : wire) : Prop :=
  match ps with
  | [] => True
  | first :: rest => ∃ target request response,
      safe_target (user_properties m) target ∧ request_of limit m = Ok (Some request) ∧
      policy_answer request (request_id target) response ∧ is_reply target response first ∧
      (rest = [] ∨ ∃ second, rest = [second] ∧ is_record response s second)
  end.

Lemma reply_wire target a w o w' :
  (∃ v, safe_target v target) →
  reply (publish limit r) target a w = (o, w') →
  (w' = w ∧ o ≠ Ok tt) ∨ ∃ first, w' = (w ++ [first])%list ∧ is_reply target a first.
Proof.
  intros (v&d&t'&_&_&_&Ht'&Hf'&_) Hw. unfold reply, mbind, acting_bind, calm in Hw.
  destruct (canonical_bytes _) as [bytes|e] eqn:Hb; cbn [map_err] in Hw; [|injection Hw as <- <-; by left].
  unfold rewire in Hw. destruct (publish limit r _ _ _ w) as [o1 w1] eqn:Hp. injection Hw as <- <-.
  apply publish_wire in Hp as [(t&Ht&->)|(->&Hn&_)].
  - right. eexists. split; [done|]. rewrite Ht' in Ht. injection Ht as <-. rewrite Hf'. done.
  - left. split; [done|]. by destruct o1 as [[]|].
Qed.

Lemma record_wire a s w o w' :
  record (publish limit r) a s w = (o, w') →
  (w' = w ∧ o ≠ Ok None) ∨ ∃ second, w' = (w ++ [second])%list ∧ is_record a s second.
Proof.
  unfold record. destruct (response_record a s) as [[text d]|e] eqn:Hd; intros Hw.
  - pose proof (record_destination _ _ _ _ Hd) as (t'&Ht'&Hf'). unfold mbind, acting_bind, calm in Hw.
    destruct (canonical_bytes _) as [bytes|e] eqn:Hb; cbn [map_err] in Hw; [|injection Hw as <- <-; by left].
    unfold unless_refused in Hw. destruct (publish limit r _ _ _ w) as [o1 w1] eqn:Hp.
    apply publish_wire in Hp as [(t&Ht&->)|(->&Hn&Hm)].
    + right. rewrite Ht' in Ht. injection Ht as <-. eexists.
      split; [by destruct o1 as [|[]]; injection Hw as _ <-|]. rewrite Hf'. split; [done|]. split; [done|]. by exists d.
    + left. by destruct o1 as [[]|[]]; injection Hw as <- <-.
  - left. by destruct e; injection Hw as <- <-.
Qed.

(** How many publications each outcome stands for. *)
Definition counted (o : result exchange_failure Exchange) (ps : wire) : Prop :=
  match o with
  | Ok x => match outcome x with
            | REPLIED => length ps = 2%nat
            | RECORD_FAILED => (1 ≤ length ps)%nat
            | UNDELIVERABLE | UNREADABLE => ps = []
            end
  | Err _ => True
  end.

Lemma handle_message_said m s w o w' :
  handle_message limit (publish limit r) m s w = (o, w') →
  ∃ ps, w' = (w ++ ps)%list ∧ said m s ps ∧ counted o ps.
Proof.
  intros Hm.
  unfold handle_message in Hm.
  assert (Hnone : w' = w → ∃ ps, w' = (w ++ ps)%list ∧ said m s ps ∧ ps = []).
  { intros ->. exists []. by rewrite app_nil_r. }
  destruct (reply_target limit (user_properties m)) as [target|e] eqn:Ht.
  2: { destruct e; injection Hm as <- <-; destruct (Hnone eq_refl) as (ps&?&?&?); by exists ps. }
  pose proof (reply_target_Ok _ _ _ Ht) as Hs. unfold mbind at 1, acting_bind, calm at 1 in Hm.
  destruct (request_of limit m) as [[request|]|e] eqn:Hq.
  2,3: injection Hm as <- <-; destruct (Hnone eq_refl) as (ps&?&?&?); by exists ps.
  destruct (answer_total request (request_id target)) as (a&Ha&Hp). rewrite Ha in Hm.
  cbn [or_raise calm mbind acting_bind] in Hm. unfold mbind, acting_bind, calm in Hm.
  destruct (reply (publish limit r) target a w) as [o1 w1] eqn:Hrep.
  apply reply_wire in Hrep as [[-> Hn]|(first&->&Hfirst)]; [| |by eexists].
  { destruct o1 as [[]|e]; [done|]. injection Hm as <- <-. destruct (Hnone eq_refl) as (ps&?&?&?). by exists ps. }
  destruct o1 as [[]|e].
  2: { injection Hm as <- <-. exists [first]. split; [done|]. split; [|done]. exists target, request, a. eauto 10. }
  destruct (record (publish limit r) a s _) as [o2 w2] eqn:Hrec.
  apply record_wire in Hrec as [[-> Hn]|(second&->&Hsecond)].
  - exists [first]. destruct o2 as [[why|]|e]; try done; injection Hm as <- <-;
      (split; [done|]); (split; [exists target, request, a; eauto 10|]); cbn; lia || done.
  - exists [first; second]. destruct o2 as [[why|]|e]; injection Hm as <- <-;
      (split; [by rewrite <- app_assoc|]); (split; [exists target, request, a; eauto 12|]); cbn; lia || done.
Qed.

(** The requestor decides only where its own answer goes.  Handling one gateway message, the
    gateway hands its broker session nothing, or one reply and then at most one record: the reply
    is the policy's answer to the request the message carries, on a response topic of the reserved
    reply identifier and with the requestor's metadata unchanged; the record is that answer's own
    event on the mission's record topic.  A message without a safe target or a readable request
    is answered nowhere, and an exchange counted as replied has sent both. *)
Lemma exchange_guarded (m : InboundMessage) (s : RecordStamp) (w w' : wire)
    (o : result exchange_failure Exchange)
    (Hm : handle_message limit (publish limit r) m s w = (o, w')) :
  ∃ ps, w' = (w ++ ps)%list ∧ said m s ps ∧
    match o with
    | Ok x => match outcome x with
              | REPLIED => length ps = 2%nat
              | RECORD_FAILED => (1 ≤ length ps)%nat
              | UNDELIVERABLE | UNREADABLE => ps = []
              end
    | Err _ => True
    end.
Proof.
  apply handle_message_said in Hm as (ps&Hw&Hs&Hc). exists ps. split; [done|]. split; [done|].
  unfold counted in Hc. by destruct o as [x|e]; [destruct (outcome x)|].
Qed.
End said.

(** ** A request of the mesh's tool *)

#[local] Existing Instance confirming.
#[local] Existing Instance ascii_normalization.

Definition quote : string := String PyVal.QUOTE "".
Definition stack_text : string :=
  "[{" ++ quote ++ "request_id" ++ quote ++ ":" ++ quote ++ "request-1" ++ quote ++ "}]".

Definition sample_request : GatewayRequest := {|
  request_mission_id := "mission-1"; request_operation := "command-authority"; request_command_type := "escalate-rescue"
|}.

Definition sample_message : InboundMessage := Eval vm_compute in {|
  inbound_payload := ok_value (canonical_bytes (PyDict (gateway_request_document sample_request)));
  destination_name := Some "aerial-rescue/v1/mission-1/gateway/request/command-authority";
  user_properties := PyDict (document [(REPLY_TOPIC_KEY, PyStr reply_text); (REPLY_METADATA_KEY, PyStr stack_text)])
|}.

Definition sample_stamp : RecordStamp := {|
  event_id := "event-1"; occurred_at := "2026-07-28T09:00:00.000Z"; stamp_sequence := 7;
  stamp_traceparent := "00-0af7651916cd43dd8448eb211c80319c-b7ad6b7169203331-01"
|}.

Abbreviation sample_exchange :=
  (handle_message 4300 (publish 4300 gateway_router) sample_message sample_stamp []).

Definition sample_wire : wire := Eval vm_compute in sample_exchange.2.
Definition sample_outcome : result exchange_failure Exchange := Eval vm_compute in sample_exchange.1.

Lemma exchange_guarded_witness :
  (∃ x, sample_outcome = Ok x ∧ outcome x = REPLIED) ∧ length sample_wire = 2%nat ∧
  said 4300 sample_message sample_stamp sample_wire.
Proof.
  assert (Hr : delivery_router COMMAND_GATEWAY gateway_ports = Ok gateway_router) by (vm_compute; reflexivity).
  assert (Hm : sample_exchange = (sample_outcome, sample_wire)) by (vm_compute; reflexivity).
  destruct (exchange_guarded 4300 gateway_ports gateway_router Hr sample_message sample_stamp [] sample_wire
    sample_outcome Hm) as (ps&Hw&Hs&_).
  cbn [app] in Hw. subst ps. split; [eexists; split; reflexivity|]. split; [reflexivity|exact Hs].
Defined.
