(* ===== verification/Artifacts.v ===== *)
(** * The effects of one authorization decision

    [services/command_gateway/src/aerial_rescue_command_gateway/command_artifacts.py]: from a
    validated command and the decision about it, the audit fact every decision owes and, for an
    authorized one only, the command the drone receives and the identity of its progress.  Every
    event built here re-enters the envelope's own boundary before its bytes are kept. *)

From S2P Require Import Prelude PyStr PyVal Canonical JsonBytes Topics Envelope StoreEvents StoreAudit StoreOutbox StoreProgress Ingress.
Local Open Scope string_scope.
Local Open Scope Z_scope.

Definition PRODUCER : string := "command-gateway".
Definition AUDIT_RECORD_TYPE : string := "command-authorization".

Inductive ArtifactRefusal : Set := SEQUENCE | REFUSAL_REASON | APPROVAL_IDENTITY.

(** [ArtifactError], or what the contracts refuse of a document built from the stamp. *)
Inductive artifact_failure : Set :=
| ArtifactError (refusal : ArtifactRefusal)
| BadTopic (e : topic_failure)
| BadEnvelope (e : envelope_failure)
| Uncanonical (e : CanonicalizationError).

Record AuthorizationStamp : Set := {
  producer_id : string; command_event_id : string; audit_record_id : string;
  audit_event_id : string; occurred_at : string; command_sequence : Z; audit_sequence : Z;
  stamp_traceparent : string; stamp_tracestate : option string
}.

Record AuthorizationArtifacts : Set := {
  audit_record : AuditRecord; audit_event : StagedApplicationEvent;
  command_ : option StagedCommand; progress_ : option CommandIdentity; result_ : string
}.

(** [_EventSpec] *)
Record EventSpec : Set := {
  spec_topic : Topic; spec_event : string; spec_sequence : Z; spec_payload : members
}.

Section artifacts.
Context `{Normalization} (limit : nat).

Definition encoded (v : pyval) : result artifact_failure string := map_err Uncanonical (canonical_bytes v).

(** The bytes of [canonical_bytes({})]. *)
Definition EMPTY_HEADERS : string := default "" (ok_value (canonical_bytes (PyDict []))).

Definition event_source (s : AuthorizationStamp) : string :=
  "urn:aerial-rescue:command-gateway:" ++ producer_id s.

(** The envelope document of one output event. *)
Definition event_document (i : OperatorCommandIngress) (s : AuthorizationStamp) (spec : EventSpec)
    (kind schema sequence : string) : members :=
  document (
    [("specversion", PyStr "1.0"); ("id", PyStr (spec_event spec)); ("source", PyStr (event_source s));
     ("type", PyStr kind); ("subject", PyStr (mission_id (command_payload i)));
     ("time", PyStr (occurred_at s)); ("datacontenttype", PyStr "application/json");
     ("dataschema", PyStr schema); ("data", PyDict (spec_payload spec)); ("sequence", PyStr sequence);
     ("correlationid", PyStr (Envelope.correlation_id (command_envelope i)));
     ("causationid", PyStr (Envelope.id (command_envelope i)));
     ("traceparent", PyStr (stamp_traceparent s))]
    ++ match stamp_tracestate s with Some t => [("tracestate", PyStr t)] | None => [] end)%list.

(** [_event] *)
Definition event (i : OperatorCommandIngress) (s : AuthorizationStamp) (spec : EventSpec)
    : result artifact_failure string :=
  sequence ← or_raise (sequence_text (spec_sequence spec)) (ArtifactError SEQUENCE);
  text ← map_err BadTopic (format_topic (spec_topic spec));
  topic ← map_err BadTopic (parse_topic (PyStr text));
  kind ← map_err BadTopic (event_type topic);
  binding ← map_err BadEnvelope (binding_for kind);
  let d := event_document i s spec kind (bound_schema binding) sequence in
  e ← map_err BadEnvelope (parse_envelope (PyDict d));
  map_err BadEnvelope (check_topic_binding e topic) ;;
  encoded (PyDict d).

(** [model_dump] of an action, by alias in declaration order. *)
Definition action_document (a : OperatorAction) : members :=
  match a with
  | AssignSector a =>
      document [("commandType", PyStr "assign-sector"); ("droneId", PyStr (assigned_drone a));
                ("sectorId", PyStr (sector_id a))]
  | EscalateRescue a =>
      document [("commandType", PyStr "escalate-rescue"); ("droneId", PyStr (drone_id a));
                ("proposalId", PyStr (proposal_id a)); ("proposalDigest", PyStr (proposal_digest a));
                ("proposalVersion", PyInt (proposal_version a));
                ("evidenceDecisionId", PyStr (evidence_decision_id a));
                ("evidenceDecisionDigest", PyStr (evidence_decision_digest a));
                ("evidenceDecisionVersion", PyInt (evidence_decision_version a));
                ("latitudeMicrodegrees", PyInt (latitude_microdegrees a));
                ("longitudeMicrodegrees", PyInt (longitude_microdegrees a))]
  end.

Definition outcome_text (authorized : bool) : string := if authorized then "authorized" else "refused".

(** [_audit_payload] *)
Definition audit_payload (i : OperatorCommandIngress) (s : AuthorizationStamp) (authorized : bool)
    (approval reason : option string) : result artifact_failure members :=
  let p := command_payload i in
  let common :=
    [("auditVersion", PyInt 1); ("missionId", PyStr (mission_id p));
     ("recordId", PyStr (audit_record_id s)); ("recordType", PyStr AUDIT_RECORD_TYPE);
     ("commandId", PyStr (command_id p)); ("operatorId", PyStr (operator_id p));
     ("action", PyDict (action_document (action p))); ("outcome", PyStr (outcome_text authorized))] in
  if authorized then
    Ok (document (common ++ match approval with Some a => [("approvalId", PyStr a)] | None => [] end)%list)
  else
    why ← or_raise reason (ArtifactError REFUSAL_REASON);
    Ok (document (common ++ [("reason", PyStr why)])%list).

(** [_command_payload] *)
Definition drone_payload (i : OperatorCommandIngress) (approval : option string)
    : result artifact_failure members :=
  let p := command_payload i in
  let common :=
    [("missionId", PyStr (mission_id p)); ("droneId", PyStr (drone_of (action p)));
     ("commandId", PyStr (command_id p))] in
  match action p with
  | AssignSector a => Ok (document (common ++ [("sectorId", PyStr (sector_id a))])%list)
  | EscalateRescue a =>
      approved ← or_raise approval (ArtifactError APPROVAL_IDENTITY);
      Ok (document (common ++
        [("approvalId", PyStr approved); ("proposalId", PyStr (proposal_id a));
         ("proposalDigest", PyStr (proposal_digest a)); ("proposalVersion", PyInt (proposal_version a));
         ("evidenceDecisionId", PyStr (evidence_decision_id a));
         ("evidenceDecisionDigest", PyStr (evidence_decision_digest a));
         ("evidenceDecisionVersion", PyInt (evidence_decision_version a));
         ("latitudeMicrodegrees", PyInt (latitude_microdegrees a));
         ("longitudeMicrodegrees", PyInt (longitude_microdegrees a))])%list)
  end.

Definition audit_topic (i : OperatorCommandIngress) : Topic := {|
  Topics.family := AUDIT; Topics.mission_id := mission_id (command_payload i);
  Topics.parameters := [("recordType", AUDIT_RECORD_TYPE)]
|}.

Definition drone_topic (i : OperatorCommandIngress) : Topic := {|
  Topics.family := DRONE_COMMAND; Topics.mission_id := mission_id (command_payload i);
  Topics.parameters := [("droneId", drone_of (action (command_payload i)));
                        ("commandType", command_type_of (action (command_payload i)))]
|}.

Definition build_authorization_artifacts (i : OperatorCommandIngress) (s : AuthorizationStamp)
    (authorized : bool) (approval reason : option string)
    : result artifact_failure AuthorizationArtifacts :=
  let p := command_payload i in
  let e := command_envelope i in
  body ← audit_payload i s authorized approval reason;
  audit_bytes ← event i s {| spec_topic := audit_topic i; spec_event := audit_event_id s;
                             spec_sequence := audit_sequence s; spec_payload := body |};
  text ← map_err BadTopic (format_topic (audit_topic i));
  let audit_event := {|
    StoreEvents.producer := PRODUCER; StoreEvents.event_id := audit_event_id s;
    StoreEvents.family := "audit"; StoreEvents.topic := text; StoreEvents.headers := EMPTY_HEADERS;
    StoreEvents.payload := audit_bytes; StoreEvents.traceparent := stamp_traceparent s;
    StoreEvents.tracestate := stamp_tracestate s;
    StoreEvents.correlation_id := Envelope.correlation_id e;
    StoreEvents.causation_id := Some (Envelope.id e); StoreEvents.staged_at := occurred_at s |} in
  recorded ← map_err BadEnvelope (decode_delivered limit audit_bytes);
  let audit_record := {|
    StoreAudit.mission_id := mission_id p; StoreAudit.kind := Envelope.type recorded;
    StoreAudit.occurred_at := occurred_at s; StoreAudit.payload := audit_bytes;
    StoreAudit.correlation_id := Envelope.correlation_id e;
    StoreAudit.causation_id := Some (Envelope.id e); StoreAudit.traceparent := stamp_traceparent s |} in
  result ← encoded (PyDict (document (
    [("authorization", PyStr (outcome_text authorized)); ("commandId", PyStr (command_id p))]
    ++ match reason with Some why => [("reason", PyStr why)] | None => [] end)%list));
  if negb authorized then
    Ok {| audit_record := audit_record; audit_event := audit_event; command_ := None;
          progress_ := None; result_ := result |}
  else
    body ← drone_payload i approval;
    command_bytes ← event i s {| spec_topic := drone_topic i; spec_event := command_event_id s;
                                 spec_sequence := command_sequence s; spec_payload := body |};
    let drone := drone_of (action p) in
    Ok {| audit_record := audit_record; audit_event := audit_event;
          command_ := Some {|
            StoreOutbox.command_id := command_id p; StoreOutbox.mission_id := mission_id p;
            StoreOutbox.drone_id := drone; StoreOutbox.payload := command_bytes;
            StoreOutbox.correlation_id := Envelope.correlation_id e;
            StoreOutbox.causation_id := Some (Envelope.id e);
            StoreOutbox.traceparent := stamp_traceparent s; StoreOutbox.staged_at := occurred_at s |};
          progress_ := Some {|
            StoreProgress.command_id := command_id p; StoreProgress.mission_id := mission_id p;
            StoreProgress.drone_id := drone |};
          result_ := result |}.
End artifacts.
