(* ===== verification/Adapter.v ===== *)
(** * From durable rows to the gateway's domain

    [services/command_gateway/src/aerial_rescue_command_gateway/store_adapter.py]: the approval
    row and its immutable binding are cross-checked into one domain approval, and a consumed
    approval is mapped back to exactly the row it was read from.  The instants cross twice,
    as text in the store and as datetimes in the domain. *)

From S2P Require Import Prelude PyStr PyVal Canonical JsonBytes Instant Ingress StoreApprovals StoreBindings Approvals.
Local Open Scope string_scope.
Local Open Scope Z_scope.

Inductive StoreAdapterRefusal : Set := ACTION | EXPIRY | IDENTITY | DECISION | CONFIRMATION.

(** [StoreAdapterError], the [OverflowError] of an instant or a duration outside the calendar,
    the [ValueError] of a number JSON cannot read, and that of a blank approval identity. *)
Inductive adapter_failure : Set :=
| StoreAdapterError (refusal : StoreAdapterRefusal)
| OutOfRange
| UncaughtValueError
| BadInstant
| BlankApproval.

(** [StoredAuthorizationApproval] *)
Record StoredAuthorizationApproval : Set := {
  stored_approval : StoredApproval; stored_binding : StoredApprovalBinding
}.

(** [ports.BoundApproval] *)
Record BoundApproval : Set := {
  bound_id : string; bound_approval : Approval; durable_approval : StoredApproval;
  bound_evidence : string; bound_evidence_digest : string; bound_evidence_version : Z;
  bound_action : ApprovalAction; bound_epoch : option string
}.

(** [ports.StoredApprovalBinding] *)
Record ApprovalBinding : Set := {
  binding_id : string; binding_mission : string; binding_operator : string;
  binding_decision : string; binding_issued : string; binding_expires : option string;
  binding_proposal : string; binding_digest : string; binding_version : Z;
  binding_evidence : string; binding_evidence_digest : string; binding_evidence_version : Z;
  binding_action : ApprovalAction; binding_runtime : string; binding_window : Z
}.

Definition MILLISECOND : Z := 1000.

(** [timedelta(milliseconds=m)], in microseconds: under a thousand million days. *)
Definition timedelta (m : Z) : result adapter_failure Z :=
  let t := m * MILLISECOND in
  if (- 999999999 * DAY_MICROSECONDS <=? t) && (t <? 1000000000 * DAY_MICROSECONDS)
  then Ok t else Err OutOfRange.

(** [format_instant] of the UTC datetime at that microsecond. *)
Definition instant_text (t : Z) : result adapter_failure string :=
  map_err (λ _, BadInstant) (format_instant (of_micros t)).

(** [_milliseconds] with neither zero nor a negative duration allowed. *)
Definition milliseconds (duration : Z) : result adapter_failure Z :=
  let m := duration / MILLISECOND in
  raise_if (negb (duration mod MILLISECOND =? 0)) (StoreAdapterError EXPIRY) ;;
  raise_if (m <? 0) (StoreAdapterError EXPIRY) ;;
  raise_if (m =? 0) (StoreAdapterError EXPIRY) ;;
  Ok m.

Definition APPROVING_STATES : list ApprovalState := [APPROVED; EXECUTED; EXPIRED; SUPERSEDED].

(** [valid_authority] of [_approval] *)
Definition authority_pair_valid (b : StoredApprovalBinding) : bool :=
  match authority_runtime_epoch b, authority_issued_monotonic_milliseconds b with
  | None, None => true
  | Some epoch, Some _ => negb (bool_decide (epoch = ""))
  | _, _ => false
  end.

Section adapter.
Context `{Normalization} `{PayloadModels} (limit : nat).

(** [_action] *)
Definition approval_action_of (payload : string) : result adapter_failure ApprovalAction :=
  v ← map_err (λ e, match e with
                    | Canonical.Refused _ => StoreAdapterError ACTION
                    | Canonical.UncaughtValueError => UncaughtValueError
                    end) (decode_bytes limit payload);
  or_raise (approval_action v) (StoreAdapterError ACTION).

(** [_approval] *)
Definition approval_of (x : StoredAuthorizationApproval) : result adapter_failure Approval :=
  let a := stored_approval x in
  let b := stored_binding x in
  raise_if (negb (bool_decide (StoreApprovals.proposal_id a = StoreBindings.proposal_id b)))
           (StoreAdapterError IDENTITY) ;;
  raise_if (negb (StoreBindings.proposal_version b =? 1) || negb (StoreBindings.evidence_decision_version b =? 1))
           (StoreAdapterError DECISION) ;;
  raise_if (negb (Bool.eqb (bool_decide (StoreBindings.decision b = "approve"))
                           (bool_decide (StoreApprovals.state a ∈ APPROVING_STATES))))
           (StoreAdapterError DECISION) ;;
  raise_if (negb ((0 <=? StoreApprovals.issued_monotonic_milliseconds a) &&
                  (0 <? time_to_live_milliseconds a) && authority_pair_valid b))
           (StoreAdapterError EXPIRY) ;;
  issued_wall ← map_err (λ _, StoreAdapterError EXPIRY) (parse_instant (PyStr (issued_wall a)));
  window ← timedelta (time_to_live_milliseconds a);
  started ← timedelta (default 0 (authority_issued_monotonic_milliseconds b));
  let mapped := {|
    Approvals.state := StoreApprovals.state a; operator_identity := StoreApprovals.operator_identity a;
    issued := {| wall := micros issued_wall; monotonic := started |}; time_to_live := window;
    approved_mission := StoreApprovals.mission_id a; approved_proposal := StoreApprovals.proposal_id a;
    approved_digest := StoreApprovals.proposal_digest a |} in
  expected ← (if bool_decide (StoreBindings.decision b = "approve")
              then t ← map_err (λ _, OutOfRange) (Approvals.expires_at mapped);
                   text ← instant_text t; Ok (Some text)
              else Ok None);
  raise_if (negb (bool_decide (StoreBindings.expires_at b = expected))) (StoreAdapterError EXPIRY) ;;
  Ok mapped.

Definition map_authorization_approval (x : StoredAuthorizationApproval) : result adapter_failure BoundApproval :=
  let b := stored_binding x in
  a ← approval_of x;
  act ← approval_action_of (action_payload b);
  raise_if (bool_decide (approval_id b = "")) BlankApproval ;;
  Ok {| bound_id := approval_id b; bound_approval := a; durable_approval := stored_approval x;
        bound_evidence := StoreBindings.evidence_decision_id b;
        bound_evidence_digest := StoreBindings.evidence_decision_digest b;
        bound_evidence_version := StoreBindings.evidence_decision_version b;
        bound_action := act; bound_epoch := authority_runtime_epoch b |}.

Definition map_approval_binding (x : StoredAuthorizationApproval) : result adapter_failure ApprovalBinding :=
  let b := stored_binding x in
  a ← approval_of x;
  issued_at ← instant_text (wall (issued a));
  act ← approval_action_of (action_payload b);
  Ok {| binding_id := approval_id b; binding_mission := approved_mission a;
        binding_operator := Approvals.operator_identity a; binding_decision := StoreBindings.decision b;
        binding_issued := issued_at; binding_expires := StoreBindings.expires_at b;
        binding_proposal := approved_proposal a; binding_digest := approved_digest a;
        binding_version := StoreBindings.proposal_version b;
        binding_evidence := StoreBindings.evidence_decision_id b;
        binding_evidence_digest := StoreBindings.evidence_decision_digest b;
        binding_evidence_version := StoreBindings.evidence_decision_version b;
        binding_action := act; binding_runtime := decision_runtime_id b;
        binding_window := time_to_live_milliseconds (stored_approval x) |}.
End adapter.

Definition with_stored_state (a : StoredApproval) (s : ApprovalState) : StoredApproval := {|
  StoreApprovals.mission_id := StoreApprovals.mission_id a;
  StoreApprovals.proposal_id := StoreApprovals.proposal_id a; StoreApprovals.state := s;
  StoreApprovals.operator_identity := StoreApprovals.operator_identity a;
  StoreApprovals.issued_wall := issued_wall a;
  StoreApprovals.issued_monotonic_milliseconds := StoreApprovals.issued_monotonic_milliseconds a;
  StoreApprovals.time_to_live_milliseconds := time_to_live_milliseconds a;
  StoreApprovals.proposal_digest := StoreApprovals.proposal_digest a
|}.

(** [_stored_approval] *)
Definition executed_row (x : BoundApproval) : result adapter_failure StoredApproval :=
  let a := bound_approval x in
  let durable := durable_approval x in
  raise_if (negb (bool_decide (Approvals.state a = EXECUTED))) (StoreAdapterError DECISION) ;;
  raise_if (negb (bool_decide (StoreApprovals.state durable = APPROVED))) (StoreAdapterError DECISION) ;;
  raise_if (negb (bool_decide (
    (StoreApprovals.mission_id durable, StoreApprovals.proposal_id durable,
     StoreApprovals.operator_identity durable, StoreApprovals.proposal_digest durable) =
    (approved_mission a, approved_proposal a, Approvals.operator_identity a, approved_digest a))))
    (StoreAdapterError IDENTITY) ;;
  text ← instant_text (wall (issued a));
  window ← milliseconds (time_to_live a);
  raise_if (negb (bool_decide ((issued_wall durable, time_to_live_milliseconds durable) = (text, window))))
           (StoreAdapterError EXPIRY) ;;
  Ok (with_stored_state durable EXECUTED).

(** ** A consumed approval goes back to its row *)

Definition with_approval (x : BoundApproval) (a : Approval) : BoundApproval := {|
  bound_id := bound_id x; bound_approval := a; durable_approval := durable_approval x;
  bound_evidence := bound_evidence x; bound_evidence_digest := bound_evidence_digest x;
  bound_evidence_version := bound_evidence_version x; bound_action := bound_action x;
  bound_epoch := bound_epoch x
|}.

Lemma instant_text_parsed text d :
  parse_instant (PyStr text) = Ok d → instant_text (micros d) = Ok text.
Proof.
  intros (Hf&Hd&Ho&_)%parsed_instant. unfold instant_text. by rewrite of_micros_micros, Hf.
Qed.

Lemma milliseconds_timedelta m t : timedelta m = Ok t → 0 < m → milliseconds t = Ok m.
Proof.
  unfold timedelta. case_match; [|done]. intros [= <-] Hm. unfold milliseconds, MILLISECOND.
  rewrite Z.mod_mul, Z.div_mul by lia. cbn [negb raise_if mbind result_bind].
  destruct (Z.ltb_spec m 0); [lia|]. destruct (Z.eqb_spec m 0); [lia|]. done.
Qed.

(** The approval of a row, with its instants read. *)
Definition approval_at (r : StoredApproval) (d : datetime) (window started : Z) : Approval := {|
  Approvals.state := StoreApprovals.state r; operator_identity := StoreApprovals.operator_identity r;
  issued := {| wall := micros d; monotonic := started |}; time_to_live := window;
  approved_mission := StoreApprovals.mission_id r; approved_proposal := StoreApprovals.proposal_id r;
  approved_digest := StoreApprovals.proposal_digest r
|}.

Lemma approval_of_Ok x a :
  approval_of x = Ok a →
  let r := stored_approval x in
  let b := stored_binding x in
  StoreApprovals.proposal_id r = StoreBindings.proposal_id b ∧
  StoreBindings.proposal_version b = 1 ∧ StoreBindings.evidence_decision_version b = 1 ∧
  (StoreBindings.decision b = "approve" ↔ StoreApprovals.state r ∈ APPROVING_STATES) ∧
  ∃ d window started,
    parse_instant (PyStr (issued_wall r)) = Ok d ∧
    timedelta (time_to_live_milliseconds r) = Ok window ∧ 0 < time_to_live_milliseconds r ∧
    timedelta (default 0 (authority_issued_monotonic_milliseconds b)) = Ok started ∧
    a = approval_at r d window started.
Proof.
  unfold approval_of. intros Ha. run_ok. bools. subst.
  repeat match goal with H : Bool.eqb _ _ = true |- _ => apply Bool.eqb_prop in H end.
  split; [assumption|]. split; [assumption|]. split; [assumption|]. split.
  - rewrite <- (bool_decide_eq_true (_ ∈ _)), <- (bool_decide_eq_true (_ = "approve")%string).
    match goal with H : bool_decide _ = bool_decide _ |- _ => rewrite H end. reflexivity.
  - do 3 eexists. split; [eassumption|]. split; [eassumption|]. split; [assumption|].
    split; [eassumption|reflexivity].
Qed.

Lemma approving_approval_of `{Normalization} `{PayloadModels} limit x b :
  map_authorization_approval limit x = Ok b →
  approval_of x = Ok (bound_approval b) ∧ durable_approval b = stored_approval x.
Proof. unfold map_authorization_approval. intros Hb. run_ok. by subst. Qed.

(** A consumed approval is written back to exactly the row it was read from.  Whatever durable
    pair the adapter accepts, if the domain consumes the approval it was mapped to then the
    mapping back succeeds and gives that row with its state executed and nothing else changed:
    the issue instant and the window cross into datetimes and back without loss. *)
Lemma consumed_row_roundtrip `{Normalization} `{PayloadModels} (limit : nat)
    (x : StoredAuthorizationApproval) (b : BoundApproval) (c : Proposal) (now : ClockReading)
    (executed : Approval)
    (Hb : map_authorization_approval limit x = Ok b)
    (Hc : consume (bound_approval b) c now = Ok executed) :
  executed_row (with_approval b executed) = Ok (with_stored_state (stored_approval x) EXECUTED).
Proof.
  apply approving_approval_of in Hb as [Ha Hd].
  apply consume_Ok in Hc as (Hs&_&_&->).
  destruct (approval_of_Ok _ _ Ha) as (_&_&_&_&d&w&m&Hp&Hw&Hpos&_&Hr). rewrite Hr in *. cbn in Hs.
  unfold executed_row. cbn [bound_approval durable_approval with_approval with_state approval_at
    Approvals.state issued wall time_to_live approved_mission approved_proposal
    Approvals.operator_identity approved_digest].
  rewrite Hd, Hs, (instant_text_parsed _ _ Hp), (milliseconds_timedelta _ _ Hw Hpos).
  do 3 rewrite (bool_decide_true _ eq_refl). cbn [negb raise_if mbind result_bind].
  by rewrite (bool_decide_true _ eq_refl).
Qed.

(** A rescue approval as the dashboard stored it, bound to the gateway's epoch. *)
Definition sample_row : StoredApproval := {|
  StoreApprovals.mission_id := "mission-1"; StoreApprovals.proposal_id := "p-1";
  StoreApprovals.state := APPROVED; StoreApprovals.operator_identity := "operator-1";
  StoreApprovals.issued_wall := "2026-07-28T09:00:00.000Z";
  StoreApprovals.issued_monotonic_milliseconds := 0;
  StoreApprovals.time_to_live_milliseconds := 60000;
  StoreApprovals.proposal_digest :=
    default "" (ok_value (Digest.proposal_digest (H := ascii_normalization) (parameters sample_action)))
|}.

Definition sample_binding : StoredApprovalBinding := {|
  approval_id := "approval-1"; StoreBindings.proposal_id := "p-1"; proposal_version := 1;
  evidence_decision_id := "decision-1"; evidence_decision_digest := ""; evidence_decision_version := 1;
  StoreBindings.decision := "approve";
  action_payload := default "" (ok_value (canonical_bytes (H := ascii_normalization) (PyDict (document
    [("commandType", PyStr "escalate-rescue"); ("droneId", PyStr "drone-1");
     ("latitudeMicrodegrees", PyInt 1); ("longitudeMicrodegrees", PyInt 2)]))));
  decision_runtime_id := "api-1"; authority_runtime_epoch := Some "epoch-1";
  authority_issued_monotonic_milliseconds := Some 5000;
  StoreBindings.expires_at := Some "2026-07-28T09:01:00.000Z"
|}.

Definition sample_pair : StoredAuthorizationApproval :=
  {| stored_approval := sample_row; stored_binding := sample_binding |}.

Definition sample_now : ClockReading := {|
  wall := micros {| year := 2026; month := 7; day := 28; hour := 9; minute := 0; second := 30;
                    microsecond := 0; offset := Some 0 |};
  monotonic := 35000000
|}.

Lemma consumed_row_roundtrip_witness :
  ∃ b executed,
    map_authorization_approval (H := ascii_normalization) (H0 := strict_models) 4300 sample_pair = Ok b ∧
    executed_row (with_approval b executed) = Ok (with_stored_state sample_row EXECUTED).
Proof.
  eexists _, _. split; [vm_compute; reflexivity|].
  eapply (consumed_row_roundtrip (H := ascii_normalization) (H0 := strict_models) 4300 sample_pair
    _ sample_action sample_now); vm_compute; reflexivity.
Defined.
