(* ===== verification/Delivery.v ===== *)
(** * Guaranteed deliveries

    [services/command_gateway/src/aerial_rescue_command_gateway/refusal.py] and the settlement
    port of [ports.py].  A guaranteed delivery is settled only after something about it is
    durable: the commit of its transaction, or of the refusal of bytes no handler takes.
    [guaranteed] is the shape the three guaranteed handlers share, and [handle] their common
    run: what is returned or raised, the store it leaves, and the settlements it asked for.  The second half is what every
    such transaction keeps. *)

From S2P Require Import Prelude PyStr JsonBytes Digest Topics PyVal Canonical Envelope Commands Sql Schema StoreClaims StoreProposals StoreEvidence StoreBindings StoreAudit StoreEvents StoreOutbox StoreProgress StoreRefusals StoreApprovals StoreInbox Ingress.
Local Open Scope string_scope.
Local Open Scope Z_scope.

Record GuaranteedDelivery : Set := { topic : string; payload : string }.

(** The calls on the settlement port, which may raise. *)
Inductive settlement : Set := Accept (event_id : string) | Reject.

Class SettlementPort := { port_error : Type; settle : settlement → option port_error }.

Definition CONSUMER : string := "command-gateway".

(** [error.refusal.name.lower().replace("_", "-")] *)
Definition refusal_code_of (r : IngressRefusal) : string :=
  match r with
  | TOPIC => "topic" | UNAUTHORIZED_FAMILY => "unauthorized-family" | ENVELOPE => "envelope"
  | PAYLOAD => "payload" | BINDING => "binding"
  end.

(** What a guaranteed handler can raise: its own errors, a closed ingress refusal or the lookup
    that escapes it, and what the refusal's store or the settlement port raises. *)
Inductive delivery_failure `{SettlementPort} (E : Type) : Type :=
| Raised (e : E)
| Refusal (e : ingress_failure)
| RefusalStore (e : store_failure BrokerRefusalRefusal)
| Settlement (e : port_error).
Arguments Raised {_ _} e.
Arguments Refusal {_ _} e.
Arguments RefusalStore {_ _} e.
Arguments Settlement {_ _} e.

Section delivery.
Context `{N : Normalization} `{M : PayloadModels} `{D : Database} `{P : SettlementPort} (limit : nat).

(** [with suppress(ValueError)] around a reading: a lookup error is not suppressed. *)
Definition suppressed {X A} (escaped : X → option string) (m : result X A) : result string (option A) :=
  match m with
  | Ok a => Ok (Some a)
  | Err e => match escaped e with Some n => Err n | None => Ok None end
  end.

Definition candidate (dl : GuaranteedDelivery) (channel code : string)
    : result string BrokerRefusalCandidate :=
  family ← suppressed topic_lookup (parse_topic (PyStr (topic dl)));
  envelope ← suppressed envelope_lookup (decode_delivered limit (payload dl));
  Ok {| cand_consumer := CONSUMER; cand_source := Envelope.source <$> envelope;
        cand_family := (λ t, literal_suffix (Topics.family t)) <$> family; cand_channel := channel;
        cand_refusal_code := code; cand_raw_digest := sha256_hex (payload dl) |}.

(** What a handler leaves: its value or exception, the store, and the settlement calls. *)
Record outcome (E A : Type) : Type := {
  returned : result (delivery_failure E) A; store : db; settlements : list settlement
}.
Arguments returned {E A} _.
Arguments store {E A} _.
Arguments settlements {E A} _.

(** Ask the port, then continue with what it leaves. *)
Definition settling {E A} (s : settlement) (value : result (delivery_failure E) A) (d : db)
    : outcome E A := {|
  returned := match settle s with Some e => Err (Settlement e) | None => value end;
  store := d; settlements := [s]
|}.

Definition raising {E A} (e : delivery_failure E) (d : db) : outcome E A :=
  {| returned := Err e; store := d; settlements := [] |}.

(** [reject_after_refusal], and then the handler's [raise]. *)
Definition reject_after_refusal {E A} (dl : GuaranteedDelivery) (channel code observed : string)
    (raised : delivery_failure E) (d : db) : outcome E A :=
  match candidate dl channel code with
  | Err n => raising (Refusal (Ingress.KeyError n)) d
  | Ok c =>
      match record_candidate observed c d with
      | (Err e, d') => raising (RefusalStore e) d'
      | (Ok _, d') => settling Reject (Err raised) d'
      end
  end.

(** A guaranteed handler of documents [I] giving results [R]. *)
Record guaranteed (I E R : Type) : Type := {
  channel : string;
  selected : AcceptedIngress → option I;
  wrong_kind : E;
  envelope_of : I → Envelope;
  identity : I → result E InboxIdentity;
  body : InboxIdentity → I → tx E R
}.
Arguments channel {I E R} _.
Arguments selected {I E R} _.
Arguments wrong_kind {I E R} _.
Arguments envelope_of {I E R} _.
Arguments identity {I E R} _.
Arguments body {I E R} _.

Definition handle {I E R} (h : guaranteed I E R) (dl : GuaranteedDelivery) (observed : string) (d : db)
    : outcome E R :=
  match accept_ingress limit (payload dl) (PyStr (topic dl)) with
  | Err (IngressError r) =>
      reject_after_refusal dl (channel h) (refusal_code_of r) observed (Refusal (IngressError r)) d
  | Err e => raising (Refusal e) d
  | Ok accepted =>
      match selected h accepted with
      | None => reject_after_refusal dl (channel h) "unexpected-family" observed (Raised (wrong_kind h)) d
      | Some i =>
          match identity h i with
          | Err e => raising (Raised e) d
          | Ok id =>
              match transaction (body h id i) d with
              | (Err e, d') => raising (Raised e) d'
              | (Ok r, d') => settling (Accept (Envelope.id (envelope_of h i))) (Ok r) d'
              end
          end
      end
  end.

(** [_identity] of the three handlers. *)
Definition inbox_identity (e : Envelope) (mission : string) : result CanonicalizationError InboxIdentity :=
  encoded ← canonical_bytes (PyDict (envelope_document e));
  Ok {| StoreInbox.consumer := CONSUMER; StoreInbox.source := Envelope.source e;
        StoreInbox.event_id := Envelope.id e; StoreInbox.mission_id := mission;
        StoreInbox.canonical_digest := sha256_hex encoded |}.

(** ** Settlement follows durability *)

(** The refusal of these bytes on a channel is durable. *)
Definition refusal_recorded (ch : string) (dl : GuaranteedDelivery) (d : db) : Prop :=
  is_Some (refusal_entry d CONSUMER ch (sha256_hex (payload dl))).

Lemma candidate_identity dl ch code c :
  candidate dl ch code = Ok c →
  cand_consumer c = CONSUMER ∧ cand_channel c = ch ∧ cand_raw_digest c = sha256_hex (payload dl).
Proof. unfold candidate. intros Hc. run_ok. by subst. Qed.

(** A run that asks for nothing, or for the rejection of a delivery whose refusal is durable. *)
Definition refused_safely {E A} (ch : string) (dl : GuaranteedDelivery) (d : db) (o : outcome E A) : Prop :=
  (∃ e, returned o = Err e) ∧
  ((settlements o = [] ∧ store o = d) ∨
   (settlements o = [Reject] ∧ refusal_recorded ch dl (store o) ∧ confined [BROKER_REFUSAL] d (store o))).

Lemma settling_raises {E A} s (e : delivery_failure E) d :
  ∃ e', returned (settling (A := A) s (Err e) d) = Err e'.
Proof. unfold settling. destruct (settle s); eauto. Qed.

Lemma reject_after_refusal_safe {E A} dl ch code observed (raised : delivery_failure E) d :
  consistent d → refused_safely ch dl d (reject_after_refusal (A := A) dl ch code observed raised d).
Proof.
  intros Hd. unfold reject_after_refusal.
  destruct (candidate dl ch code) as [c|n] eqn:Hc; [|by split; [eexists|left]].
  apply candidate_identity in Hc as (Hco&Hch&Hdig). unfold record_candidate.
  destruct (transaction _ d) as [[f|e] d'] eqn:Hr.
  - apply transaction_Ok in Hr as Hrec. split; [apply settling_raises|]. right. split; [done|]. split.
    + apply record_refusal_held in Hrec; [|done]. cbn in Hrec. by rewrite Hco, Hch, Hdig in Hrec.
    + by eapply record_refusal_confined.
  - apply transaction_Err in Hr as [_ ->]. split; [by eexists|by left].
Qed.

(** A value is returned by a committed run only. *)
Lemma handle_returned {I E R} (h : guaranteed I E R) dl observed d r :
  returned (handle h dl observed d) = Ok r →
  ∃ a i id,
    accept_ingress limit (payload dl) (PyStr (topic dl)) = Ok a ∧ selected h a = Some i ∧
    identity h i = Ok id ∧ body h id i d = Ok (r, store (handle h dl observed d)).
Proof.
  assert (Hrej : ∀ ch code (e : delivery_failure E),
    returned (reject_after_refusal dl ch code observed e d) ≠ Ok r).
  { intros ch code e. unfold reject_after_refusal. destruct (candidate _ _ _); [|done].
    destruct (record_candidate _ _ _) as [[f|?] d']; [|done].
    by destruct (settling_raises (A := R) Reject e d') as [? ->]. }
  unfold handle. destruct (accept_ingress _ _ _) as [a|[c|n]] eqn:Ha; [|by intros ?%Hrej|done].
  destruct (selected h a) as [i|] eqn:Hs; [|by intros ?%Hrej].
  destruct (identity h i) as [id|e] eqn:Hi; [|done].
  destruct (transaction _ d) as [[x|e] d'] eqn:Ht; [|done]. apply transaction_Ok in Ht.
  unfold settling. cbn. destruct (settle _); intros [= ->]. by exists a, i, id.
Qed.

(** A run whose transaction committed, and then asked for the delivery's acceptance. *)
Definition committed_first {I E R} (h : guaranteed I E R) (dl : GuaranteedDelivery) (d : db) (o : outcome E R) : Prop :=
  ∃ a i id r,
    accept_ingress limit (payload dl) (PyStr (topic dl)) = Ok a ∧ selected h a = Some i ∧
    identity h i = Ok id ∧ body h id i d = Ok (r, store o) ∧
    settlements o = [Accept (Envelope.id (envelope_of h i))] ∧
    match settle (Accept (Envelope.id (envelope_of h i))) with
    | None => returned o = Ok r
    | Some e => returned o = Err (Settlement e)
    end.

Lemma handle_settles {I E R} (h : guaranteed I E R) dl observed d :
  consistent d →
  refused_safely (channel h) dl d (handle h dl observed d) ∨ committed_first h dl d (handle h dl observed d).
Proof.
  intros Hd. unfold handle.
  destruct (accept_ingress _ _ _) as [a|[r|n]] eqn:Ha;
    [|left; by apply reject_after_refusal_safe|left; split; [by eexists|by left]].
  destruct (selected h a) as [i|] eqn:Hs; [|left; by apply reject_after_refusal_safe].
  destruct (identity h i) as [id|e] eqn:Hi; [|left; split; [by eexists|by left]].
  destruct (transaction _ d) as [[r|e] d'] eqn:Ht.
  - apply transaction_Ok in Ht. right. exists a, i, id, r. split_and!; try done.
    cbn. by destruct (settle _).
  - apply transaction_Err in Ht as [_ ->]. left. split; [by eexists|by left].
Qed.

(** C11: a delivery is settled only after what it caused is durable.  A run that raises before its
    transaction commits leaves the store as it was and asks for no settlement, so the broker
    redelivers; a delivery is rejected only when the refusal of its exact bytes is in the ledger
    and nothing else changed; and it is accepted, with its own event id, only when the handler's
    whole transaction committed, whatever the port then answers. *)
Theorem settled_after_commit {I E R} (h : guaranteed I E R) (dl : GuaranteedDelivery)
    (observed : string) (d : db) (Hd : consistent d) :
  let o := handle h dl observed d in
  refused_safely (channel h) dl d o ∨
  ∃ a i id r,
    accept_ingress limit (payload dl) (PyStr (topic dl)) = Ok a ∧ selected h a = Some i ∧
    identity h i = Ok id ∧ body h id i d = Ok (r, store o) ∧
    settlements o = [Accept (Envelope.id (envelope_of h i))] ∧
    match settle (Accept (Envelope.id (envelope_of h i))) with
    | None => returned o = Ok r
    | Some e => returned o = Err (Settlement e)
    end.
Proof.
  intros o. unfold o. destruct (handle_settles h dl observed d Hd) as [Hr|Hc]; [by left|right].
  destruct Hc as (a&i&id&r&Ha&Hs&Hi&Hb&Hsettled&Hret). by exists a, i, id, r.
Qed.
End delivery.

Arguments returned {D P E A} _.
Arguments store {D P E A} _.
Arguments settlements {D P E A} _.
Arguments channel {D I E R} _.
Arguments selected {D I E R} _.
Arguments wrong_kind {D I E R} _.
Arguments envelope_of {D I E R} _.
Arguments identity {D I E R} _.
Arguments body {D I E R} _.

Definition settling_port : SettlementPort := {| port_error := Empty_set; settle := λ _, None |}.

(** A command handler that does nothing, and bytes that are no document. *)
Definition idle : guaranteed (D := memory) OperatorCommandIngress unit unit := {|
  channel := "command-gateway-operator-command";
  selected := λ a, match a with AcceptedCommand i => Some i | _ => None end;
  wrong_kind := tt; envelope_of := command_envelope;
  identity := λ i, Err tt; body := λ _ _, mret tt
|}.

Definition garbled : GuaranteedDelivery :=
  {| topic := "aerial-rescue/v1/mission-1/operator/command/assign-sector"; payload := "{}" |}.

Lemma settled_after_commit_witness :
  let o := handle (N := ascii_normalization) (M := strict_models) (D := memory) (P := settling_port)
             4300 idle garbled "2026-07-28T09:00:00.000Z" [] in
  settlements o = [Reject] ∧ refusal_recorded (D := memory) (channel idle) garbled (store o).
Proof.
  intros o.
  destruct (settled_after_commit (N := ascii_normalization) (M := strict_models) (D := memory)
    (P := settling_port) 4300 idle garbled "2026-07-28T09:00:00.000Z" [] memory_empty)
    as [[_ [[Hs _]|(Hs&Hr&_)]]|(a&i&id&r&Ha&_)].
  - vm_compute in Hs. discriminate Hs.
  - exact (conj Hs Hr).
  - vm_compute in Ha. discriminate Ha.
Defined.

(** ** What the gateway's transactions keep

    Every transaction of the command gateway moves the store along [durable]: the tables stay
    consistent, a completed inbox identity keeps its result, and an approval only ever goes from
    approved to executed.  [ReplaySafe] is the interface a guaranteed handler offers on top of
    it, from which the theorem about redelivered messages follows for each handler at once. *)

Section durable.
Context `{D : Database}.

Definition durable (d d' : db) : Prop :=
  consistent d →
  consistent d' ∧ (∀ i r, completed d i r → completed d' i r) ∧ approvals_progress d d'.

#[global] Instance durable_preorder : PreOrder durable.
Proof.
  split; [by intros d Hd|]. intros d1 d2 d3 H1 H2 Hd. destruct (H1 Hd) as (Hd2&Hc1&Ha1).
  destruct (H2 Hd2) as (Hd3&Hc2&Ha2). split; [done|]. split; [eauto|by etransitivity].
Qed.

(** The tables the relation speaks of. *)
Definition WATCHED : list Table := [BROKER_INBOX; APPROVAL].

Lemma completed_same d d' i r :
  rows d' BROKER_INBOX = rows d BROKER_INBOX → completed d i r → completed d' i r.
Proof. intros Hr. unfold completed, StoreInbox.entry, found. by rewrite Hr. Qed.

Lemma approvals_same d d' : rows d' APPROVAL = rows d APPROVAL → approvals_progress d d'.
Proof. intros Hr p r. unfold StoreApprovals.entry, found. rewrite Hr. eauto. Qed.

Lemma confined_durable ts d d' :
  stays_consistent d d' → confined ts d d' → BROKER_INBOX ∉ ts → APPROVAL ∉ ts → durable d d'.
Proof.
  intros Hs Hc Hi Ha Hd. split; [auto|].
  split; [intros i r; apply completed_same, Hc, Hi | by apply approvals_same, Hc].
Qed.

Lemma unchanged_durable d d' : unchanged d d' → durable d d'.
Proof.
  intros Hs. apply (confined_durable []); [|by intros t _; apply Hs|by apply not_elem_of_nil..].
  intros Hd t. rewrite (Hs t). apply Hd.
Qed.

Lemma effect_durable {E A} ts (m : tx E A) :
  effect stays_consistent m → effect (confined ts) m → BROKER_INBOX ∉ ts → APPROVAL ∉ ts →
  effect durable m.
Proof. intros Hs Hc Hi Ha d a d' Hm. eapply confined_durable; eauto. Qed.

Lemma effect_unchanged_durable {E A} (m : tx E A) : effect unchanged m → effect durable m.
Proof. intros Hu d a d' Hm. apply unchanged_durable. by eapply Hu. Qed.

Lemma claim_durable i : effect durable (claim i).
Proof.
  intros d o d' Hc Hd. destruct (claim_remembers i d o d' Hc Hd) as [Hd' Hk]. split; [done|].
  split; [done|]. apply approvals_same. eapply claim_confined; [exact Hc|by_decide].
Qed.

Lemma complete_durable i r at_ : effect durable (complete i r at_).
Proof.
  intros d o d' Hc Hd. destruct (complete_remembers i r at_ d o d' Hc Hd) as [Hd' Hk]. split; [done|].
  split; [done|]. apply approvals_same. eapply complete_confined; [exact Hc|by_decide].
Qed.

Lemma persist_durable a : effect durable (persist_consumed a).
Proof.
  intros d u d' Hp Hd. split; [by eapply persist_effect|]. split.
  - intros i r. apply completed_same. eapply persist_confined; [exact Hp|by_decide].
  - by eapply persist_progress.
Qed.

(** A refusal recorded on the side. *)
Lemma record_candidate_durable observed c d : durable d (record_candidate observed c d).2.
Proof.
  unfold record_candidate. destruct (transaction _ d) as [[o|e] d'] eqn:Ht.
  - apply transaction_Ok in Ht. apply (confined_durable [BROKER_REFUSAL]); [| |by_decide..].
    + by eapply record_refusal_effect.
    + by eapply record_refusal_confined.
  - by apply transaction_Err in Ht as [_ ->].
Qed.
End durable.

#[export] Hint Resolve claim_durable complete_durable persist_durable : effects.

(** ** The repositories' operations *)

Section operations.
Context `{D : Database}.

Lemma command_claim_durable c : effect durable (StoreClaims.claim c).
Proof. eapply effect_durable; [apply command_claim_effect|apply command_claim_confined|by_decide..]. Qed.

Lemma record_result_durable key r : effect durable (record_result key r).
Proof. eapply effect_durable; [apply record_result_effect|apply record_result_confined|by_decide..]. Qed.

Lemma proposal_load_durable p : effect durable (StoreProposals.load p).
Proof. apply effect_unchanged_durable, proposal_load_effect. Qed.

Lemma decision_load_durable p : effect durable (load_decision p).
Proof. apply effect_unchanged_durable, load_decision_unchanged. Qed.

Lemma load_for_update_unchanged p : effect unchanged (load_for_update p).
Proof. unfold load_for_update, lock_statement. effects. Qed.

Lemma load_for_update_durable p : effect durable (load_for_update p).
Proof. apply effect_unchanged_durable, load_for_update_unchanged. Qed.

Lemma load_by_proposal_durable p : effect durable (load_by_proposal p).
Proof. apply effect_unchanged_durable, by_proposal_unchanged. Qed.

Lemma append_durable r : effect durable (append r).
Proof. eapply effect_durable; [apply append_effect|apply append_confined|by_decide..]. Qed.

Lemma stage_event_durable e : effect durable (StoreEvents.stage e).
Proof. eapply effect_durable; [apply stage_event_effect|apply stage_event_confined|by_decide..]. Qed.

Lemma stage_command_durable c : effect durable (StoreOutbox.stage c).
Proof. eapply effect_durable; [apply stage_effect|apply stage_confined|by_decide..]. Qed.

Lemma initialize_durable i at_ : effect durable (initialize i at_).
Proof. eapply effect_durable; [apply initialize_effect|apply initialize_confined|by_decide..]. Qed.
Lemma bind_authority_durable id a : effect durable (bind_authority id a).
Proof. eapply effect_durable; [apply bind_effect|apply bind_confined|by_decide..]. Qed.

Lemma load_by_approval_durable id : effect durable (load_by_approval id).
Proof. apply effect_unchanged_durable, by_approval_unchanged. Qed.

Lemma progress_load_durable id : effect durable (StoreProgress.load id).
Proof. apply effect_unchanged_durable, progress_load_effect. Qed.

Lemma transition_durable c e b f : effect durable (record_transition c e b f).
Proof. eapply effect_durable; [apply transition_effect|apply transition_confined|by_decide..]. Qed.
End operations.

#[export] Hint Resolve command_claim_durable record_result_durable proposal_load_durable
  decision_load_durable load_for_update_durable load_by_proposal_durable append_durable
  stage_event_durable stage_command_durable initialize_durable bind_authority_durable
  load_by_approval_durable progress_load_durable transition_durable : effects.

(** ** Handlers *)

(** The server runs the statements a claim needs. *)
Definition serves `{Database} (id : InboxIdentity) (d : db) : Prop :=
  permits (claim_statement id) d = true ∧ ∀ d', permits (stored_statement id) d' = true.

(** A completed identity claimed again gets its result and writes nothing. *)
Lemma claim_replays `{Database} id d result :
  consistent d → admitted BROKER_INBOX (StoreInbox.new_row id) = true → serves id d →
  completed d id result →
  ∃ d', claim id d = Ok ({| StoreInbox.decision := StoreInbox.DUPLICATE; prior := Some result |}, d') ∧ d' ≡ d.
Proof.
  intros Hd Ha [Hp Hp'] Hc.
  pose proof (claim_completed_runs id id result d Hd Hp Hp' Ha (conj eq_refl (conj eq_refl eq_refl)) Hc) as Hr.
  by rewrite decide_True in Hr.
Qed.

(** ** Claim, then work

    The shape of the three guaranteed transactions: an identity already completed is answered
    with its stored result, a new one is worked on. *)

Section deduplicated.
Context `{D : Database} {E R : Type} (failed : store_failure InboxRefusal → E) (lost : E)
  (again : string → result E R) (bytes_of : R → string) (replay : R → R).

Definition deduplicated (id : InboxIdentity) (work : tx E R) : tx E R :=
  inbox ← lift failed (claim id);
  match StoreInbox.decision inbox with
  | StoreInbox.DUPLICATE => pure (prior ← or_raise (StoreInbox.prior inbox) lost; again prior)
  | StoreInbox.CLAIMED => work
  end.

Lemma deduplicated_durable id work : effect durable work → effect durable (deduplicated id work).
Proof.
  intros Hw. unfold deduplicated. apply effect_bind; [apply _|apply effect_lift, claim_durable|].
  intros o. destruct (StoreInbox.decision o); [done|]. apply effect_pure, _.
Qed.

(** What the first run of an identity leaves behind for the later ones. *)
Definition remembered (id : InboxIdentity) (r : R) (d : db) : Prop :=
  completed d id (bytes_of r) ∧ again (bytes_of r) = Ok (replay r).

Lemma deduplicated_remembers id work d r d' :
  (∀ d0 r d1, consistent d0 → work d0 = Ok (r, d1) → remembered id r d1) →
  (∀ p r, again p = Ok r → bytes_of r = p ∧ replay r = r) →
  consistent d → deduplicated id work d = Ok (r, d') →
  remembered id r d' ∧ admitted BROKER_INBOX (StoreInbox.new_row id) = true.
Proof.
  intros Hw Hb Hd Hr. unfold deduplicated in Hr. apply tx_bind_Ok in Hr as (o&d1&Hc&Hr).
  apply lift_Ok in Hc. split; [|by eapply claim_admitted].
  pose proof (claim_durable _ _ _ _ Hc Hd) as (Hd1&_&_). apply claim_Ok in Hc; [|done].
  destruct (StoreInbox.entry d id) as [x|].
  - destruct Hc as (Hs&res&->&Hres). cbn [StoreInbox.decision StoreInbox.prior or_raise mbind result_bind] in Hr.
    apply pure_Ok in Hr as [Hr ->]. destruct (Hb _ _ Hr) as [Hp Hrep]. unfold remembered. rewrite Hp, Hrep.
    split; [|done]. eapply completed_proper; [symmetry; exact Hs|exact Hres].
  - destruct Hc as [-> _]. cbn [StoreInbox.decision] in Hr. by apply (Hw d1).
Qed.

Lemma deduplicated_replays id work r d :
  consistent d → admitted BROKER_INBOX (StoreInbox.new_row id) = true → serves id d →
  remembered id r d →
  ∃ d', deduplicated id work d = Ok (replay r, d') ∧ d' ≡ d.
Proof.
  intros Hd Ha Hs [Hc Hr]. destruct (claim_replays id d _ Hd Ha Hs Hc) as (d'&Hcl&Hd').
  exists d'. split; [|done]. unfold deduplicated. rewrite (tx_bind_run _ _ _ _ _ (lift_run failed _ _ _ Hcl)).
  cbn [StoreInbox.decision StoreInbox.prior or_raise mbind result_bind]. by rewrite Hr.
Qed.

(** Both together: a completed run is replayed at every later store. *)
Lemma deduplicated_again id work work' d r d1 d2 :
  (∀ d0 r d1, consistent d0 → work d0 = Ok (r, d1) → remembered id r d1) →
  (∀ p r, again p = Ok r → bytes_of r = p ∧ replay r = r) → effect durable work →
  consistent d → deduplicated id work d = Ok (r, d1) → durable d1 d2 → serves id d2 →
  ∃ d3, deduplicated id work' d2 = Ok (replay r, d3) ∧ d3 ≡ d2.
Proof.
  intros Hw Hb Hdur Hd Hr Hl Hs. destruct (deduplicated_remembers id work d r d1 Hw Hb Hd Hr) as [[Hc Hag] Ha].
  pose proof (deduplicated_durable id work Hdur _ _ _ Hr Hd) as [Hd1 _]. destruct (Hl Hd1) as (Hd2&Hk&_).
  apply deduplicated_replays; [done..|]. split; [by apply Hk|done].
Qed.
End deduplicated.

(** A document the handler takes from some delivery. *)
Definition taken `{Normalization} `{PayloadModels} `{Database} (limit : nat) {I E R}
    (h : guaranteed I E R) (i : I) : Prop :=
  ∃ raw topic a, accept_ingress limit raw topic = Ok a ∧ selected h a = Some i.

(** A family of handlers of one kind of document, one for each instant it runs at. *)
Class ReplaySafe `{Normalization} `{PayloadModels} `{Database} (limit : nat) {A I E R}
    (h : A → guaranteed I E R) (replay : R → R) := {
  replay_selected a b : selected (h a) = selected (h b);
  replay_identity a b : identity (h a) = identity (h b);
  replay_envelope a b : envelope_of (h a) = envelope_of (h b);
  body_durable a id i : effect durable (body (h a) id i);
  body_replays a b id i d r d1 d2 :
    taken limit (h a) i → consistent d → body (h a) id i d = Ok (r, d1) → durable d1 d2 → serves id d2 →
    ∃ d3, body (h b) id i d2 = Ok (replay r, d3) ∧ d3 ≡ d2
}.

Section handlers.
Context `{N : Normalization} `{M : PayloadModels} `{D : Database} `{P : SettlementPort} (limit : nat).

Lemma reject_after_refusal_durable {E A} dl ch code observed (raised : delivery_failure E) d :
  durable d (store (reject_after_refusal (A := A) limit dl ch code observed raised d)).
Proof.
  unfold reject_after_refusal. destruct (candidate limit dl ch code) as [c|n]; [|done].
  pose proof (record_candidate_durable observed c d) as Hr.
  by destruct (record_candidate observed c d) as [[f|e] d'].
Qed.

Lemma handled_durable {I E R} (h : guaranteed I E R) dl observed d :
  (∀ id i, effect durable (body h id i)) → durable d (store (handle limit h dl observed d)).
Proof.
  intros Hb. unfold handle. destruct (accept_ingress _ _ _) as [x|[r|n]]; [|apply reject_after_refusal_durable|done].
  destruct (selected h x) as [i|]; [|apply reject_after_refusal_durable].
  destruct (identity h i) as [id|e]; [|done].
  destruct (transaction _ d) as [[r|e] d'] eqn:Ht.
  - apply transaction_Ok in Ht. by eapply Hb.
  - by apply transaction_Err in Ht as [_ ->].
Qed.

Context {A I E R : Type} (h : A → guaranteed I E R) (replay : R → R) `{!ReplaySafe limit h replay}.

Lemma handle_durable a dl observed d : durable d (store (handle limit (h a) dl observed d)).
Proof. apply handled_durable. intros id i. apply body_durable. Qed.
End handlers.

(** Follow a run's stores: each step is durable, and leaves a consistent store. *)
Ltac follow :=
  repeat match goal with
  | Hd : consistent ?d, H : ?m ?d = Ok (_, ?d1) |- _ =>
      lazymatch goal with
      | _ : durable d d1 |- _ => fail
      | _ => let He := fresh in let Hs := fresh in
             assert (He : effect durable m) by effects;
             pose proof (He _ _ _ H : durable d d1) as Hs; clear He;
             pose proof (proj1 (Hs Hd))
      end
  end.
