(* ===== verification/DroneEdge.v ===== *)
(** * A drone's command edge

    [services/fleet_simulator/src/aerial_rescue_fleet_simulator/durable_processing.py] over the
    store adapter of [store_adapter.py]: a delivered command is refused durably, or claimed,
    admitted, applied and answered in one transaction, and settled only afterwards.  The
    simulated effect of a command is an argument, of which [effect_for] of [runtime.py] is the
    one the process passes. *)

From S2P Require Import Prelude PyStr Regex PyVal Canonical JsonBytes Digest Instant Idempotency Commands Topics Envelope Authority Ingress.
From S2P Require Import Sql Schema StoreRefusals StoreEvents StoreReceipts FleetStore Delivery DroneCommand.
Local Open Scope string_scope.
Local Open Scope Z_scope.

Inductive ProcessingRefusal : Set :=
| INVALID_COMMAND | UNKNOWN_DRONE | INVALID_OUTCOME | CRITICAL_OUTBOX_CAPACITY | DUPLICATE_RESULT.

#[export] Instance ProcessingRefusal_eq_dec : EqDecision ProcessingRefusal.
Proof. solve_decision. Defined.

(** [error.refusal.name.lower().replace("_", "-")]; [INVALID_OUTCOME] is the member
    [INVALID_EFFECT]. *)
Definition processing_code (r : ProcessingRefusal) : string :=
  match r with
  | INVALID_COMMAND => "invalid-command" | UNKNOWN_DRONE => "unknown-drone"
  | INVALID_OUTCOME => "invalid-effect" | CRITICAL_OUTBOX_CAPACITY => "critical-outbox-capacity"
  | DUPLICATE_RESULT => "duplicate-result"
  end.

Inductive CommandProcessingOutcome : Set := APPLIED | ANSWERED_AGAIN | SUPERSEDED | OUTBOX_FULL.

(** [ANSWERED_AGAIN] is the member [DUPLICATE]. *)
Record CommandProcessingResult : Set := { processed : CommandProcessingOutcome; result_bytes : option string }.

(** The calls on the settlement port, which may raise. *)
Inductive edge_settlement : Set := Accepts | Fails | Rejects.

Class EdgePort := { edge_error : Type; settle_edge : edge_settlement → option edge_error }.

(** Everything that leaves [handle_command] as an exception; [Outdated] is the private one that
    rolls a claim back, and never does. *)
Inductive edge_failure `{EdgePort} : Type :=
| ProcessingError (refusal : ProcessingRefusal)
| Outdated
| StoreFailure (e : fleet_store_failure)
| IntakeEscape (e : intake_failure)
| TopicLookup (name : string)
| ProtocolFailure (e : protocol_failure)
| ResultFailure (e : result_failure)
| Uncanonical (e : CanonicalizationError)
| EnvelopeFailure (e : envelope_failure)
| RefusalLedger (e : store_failure BrokerRefusalRefusal)
| SettlementFailed (e : edge_error).

Record CommandDelivery : Set := { topic : string; payload : string }.

Record EffectResult : Set := { effect_event : CommandEvent; effect_sequence : Z; effect_bytes : string }.

(** What one run of the handler reads of its stamps: a stamp for each of its two answers, and the
    instant of the receipt. *)
Record ResultStamps : Type := {
  acknowledgement_stamp : string → string → string → ResultStamp;
  final_stamp : string → string → string → ResultStamp;
  processed_at : string
}.

Record CommandContext : Type := {
  mission_id : string; roster : list string; budget : SendBudget; stamps : ResultStamps
}.

Definition EMPTY_HEADERS : string := "{}".
Definition RESULT_FAMILY : string := "drone-command-result".

(** [_stream] *)
Definition stream_of (drone : string) : DroneStreamIdentity :=
  {| FleetStore.drone_id := drone; FleetStore.producer := event_source drone |}.

(** [_identity] *)
Definition receipt_identity (drone mission : string) (c : IncomingCommand) (raw : string) : CommandReceiptIdentity := {|
  StoreReceipts.drone_id := drone; StoreReceipts.command_id := command_id c;
  StoreReceipts.mission_id := mission; StoreReceipts.command_digest := sha256_hex raw
|}.

(** [_STORE_OUTCOME] *)
Definition STORE_OUTCOME : list (CommandEvent * CommandEffectOutcome) :=
  [(SUCCEED, FleetStore.SUCCEEDED); (FAIL, FleetStore.FAILED)].

(** ** The adapter of one transaction *)

Record StoreCommandTransaction : Set := {
  claimed : option CommandReceiptIdentity; applied : option EffectResult;
  publications : list StagedApplicationEvent
}.

Definition opened : StoreCommandTransaction := {| claimed := None; applied := None; publications := [] |}.

Section edge.
Context `{N : Normalization} `{M : CommandModels} `{D : Database} `{P : EdgePort} (limit : nat).
Context (effect_callback : string → IncomingCommand → result CanonicalizationError EffectResult).

Abbreviation command_tx := (tx edge_failure).

(** [_require_claimed] *)
Definition require_claimed (a : StoreCommandTransaction) : result edge_failure CommandReceiptIdentity :=
  or_raise (claimed a) (ProcessingError INVALID_OUTCOME).

(** [_require_claimed_drone] *)
Definition require_claimed_drone (a : StoreCommandTransaction) (drone : string) : result edge_failure unit :=
  i ← require_claimed a;
  raise_if (negb (bool_decide (StoreReceipts.drone_id i = drone))) (ProcessingError INVALID_OUTCOME).

Definition adapter_claim (a : StoreCommandTransaction) (i : CommandReceiptIdentity)
    : command_tx (ReceiptOutcome * StoreCommandTransaction) :=
  r ← lift StoreFailure (claim_receipt i);
  mret (r, match decision r with
           | CLAIMED => {| claimed := Some i; applied := applied a; publications := publications a |}
           | DUPLICATE => a
           end).

Definition adapter_admit (a : StoreCommandTransaction) (drone : string) (n : Z) : command_tx SequenceVerdict :=
  pure (require_claimed_drone a drone) ;;
  lift StoreFailure (admit_sequence (stream_of drone) n).

Definition adapter_apply (a : StoreCommandTransaction) (c : IncomingCommand)
    : result edge_failure (EffectResult * StoreCommandTransaction) :=
  i ← require_claimed a;
  raise_if (negb (bool_decide (command_id c = StoreReceipts.command_id i))) (ProcessingError INVALID_OUTCOME) ;;
  e ← map_err Uncanonical (effect_callback (StoreReceipts.drone_id i) c);
  Ok (e, {| claimed := claimed a; applied := Some e; publications := publications a |}).

Definition adapter_stage (a : StoreCommandTransaction) (drone : string) (e : StagedApplicationEvent)
    : result edge_failure StoreCommandTransaction :=
  require_claimed_drone a drone ;;
  Ok {| claimed := claimed a; applied := applied a; publications := (publications a ++ [e])%list |}.

(** Only the two capacity refusals become the use case's transient one. *)
Definition capacity (e : fleet_store_failure) : edge_failure :=
  match e with
  | FleetStoreError RECORD_CAPACITY _ | FleetStoreError BYTE_CAPACITY _ => ProcessingError CRITICAL_OUTBOX_CAPACITY
  | e => StoreFailure e
  end.

Definition adapter_complete (a : StoreCommandTransaction) (i : CommandReceiptIdentity) (bytes : string)
    (n : Z) (at_ : string) : command_tx unit :=
  own ← pure (require_claimed a);
  e ← pure (or_raise (applied a) (ProcessingError INVALID_OUTCOME));
  pure (raise_if (negb (bool_decide (own = i) && bool_decide (effect_sequence e = n))) (ProcessingError INVALID_OUTCOME)) ;;
  o ← pure (or_raise (dict_get STORE_OUTCOME (effect_event e)) (ProcessingError INVALID_OUTCOME));
  lift capacity (persist_outcome (stream_of (StoreReceipts.drone_id i)) {|
    FleetStore.identity := i; FleetStore.outcome := o; FleetStore.effect_payload := effect_bytes e;
    FleetStore.applied_sequence := effect_sequence e; FleetStore.applied_at := at_ |} (publications a) bytes).

(** ** The use case *)

(** [_staged] *)
Definition staged (text raw drone : string) : result edge_failure StagedApplicationEvent :=
  e ← map_err EnvelopeFailure (decode_delivered limit raw);
  Ok {| StoreEvents.producer := event_source drone; StoreEvents.event_id := Envelope.id e;
        StoreEvents.family := RESULT_FAMILY; StoreEvents.topic := text; StoreEvents.headers := EMPTY_HEADERS;
        StoreEvents.payload := raw; StoreEvents.traceparent := Envelope.traceparent e;
        StoreEvents.tracestate := Envelope.tracestate e; StoreEvents.correlation_id := Envelope.correlation_id e;
        StoreEvents.causation_id := Envelope.causation_id e; StoreEvents.staged_at := Envelope.time e |}.

(** [_result]: the protocol is folded, and the stamp minted, for each answer. *)
Definition answer (b : SendBudget) (i : CommandReceiptIdentity) (c : IncomingCommand)
    (stamp : string → string → string → ResultStamp) (event : CommandEvent) : result edge_failure (string * string) :=
  progress ← map_err ProtocolFailure (DroneCommand.received b);
  acknowledged ← map_err ProtocolFailure (apply_event progress ACKNOWLEDGE b);
  selected ← (if decide (event = ACKNOWLEDGE) then Ok acknowledged
              else map_err ProtocolFailure (apply_event acknowledged event b));
  record ← map_err ResultFailure
             (result_record (StoreReceipts.mission_id i) (StoreReceipts.drone_id i) (command_id c) (state selected)
                (stamp (StoreReceipts.drone_id i) (correlation_id c) (DroneCommand.event_id c)));
  raw ← map_err Uncanonical (canonical_bytes (PyDict record.2));
  Ok (raw, record.1).

(** [_apply_new] *)
Definition apply_new (a : StoreCommandTransaction) (i : CommandReceiptIdentity) (c : IncomingCommand)
    (b : SendBudget) (s : ResultStamps) : command_tx string :=
  '(e, a) ← pure (adapter_apply a c);
  pure (raise_if (negb (bool_decide (effect_event e ∈ [SUCCEED; FAIL]))) (ProcessingError INVALID_OUTCOME)) ;;
  '(raw, text) ← pure (answer b i c (acknowledgement_stamp s) ACKNOWLEDGE);
  x ← pure (staged text raw (StoreReceipts.drone_id i));
  a ← pure (adapter_stage a (StoreReceipts.drone_id i) x);
  '(raw, text) ← pure (answer b i c (final_stamp s) (effect_event e));
  x ← pure (staged text raw (StoreReceipts.drone_id i));
  a ← pure (adapter_stage a (StoreReceipts.drone_id i) x);
  adapter_complete a i raw (effect_sequence e) (processed_at s) ;;
  mret raw.

(** [_inside_transaction] *)
Definition inside_transaction (i : CommandReceiptIdentity) (c : IncomingCommand) (b : SendBudget) (s : ResultStamps)
    : command_tx CommandProcessingResult :=
  '(r, a) ← adapter_claim opened i;
  match decision r with
  | DUPLICATE =>
      bytes ← pure (or_raise (prior_result r) (ProcessingError DUPLICATE_RESULT));
      mret {| processed := ANSWERED_AGAIN; result_bytes := Some bytes |}
  | CLAIMED =>
      v ← adapter_admit a (StoreReceipts.drone_id i) (sequence c);
      if negb (bool_decide (v = ADVANCES)) then pure (Err Outdated) else
      bytes ← apply_new a i c b s;
      mret {| processed := APPLIED; result_bytes := Some bytes |}
  end.

(** What [except ValueError] leaves of reading a topic. *)
Definition topic_unreadable (e : topic_failure) : edge_failure :=
  match topic_lookup e with Some n => TopicLookup n | None => ProcessingError INVALID_COMMAND end.

(** [_known_drone], with [_drone]. *)
Definition known_drone (dl : CommandDelivery) (known : list string) : result edge_failure string :=
  t ← map_err topic_unreadable (parse_topic (PyStr (topic dl)));
  raise_if (negb (bool_decide (Topics.family t = DRONE_COMMAND))) (ProcessingError INVALID_COMMAND) ;;
  drone ← or_raise (dict_get (parameters t) DRONE_PARAMETER) (TopicLookup DRONE_PARAMETER);
  raise_if (negb (bool_decide (drone ∈ known))) (ProcessingError UNKNOWN_DRONE) ;;
  Ok drone.

Definition refusal_candidate (dl : CommandDelivery) (code : string) : result string BrokerRefusalCandidate :=
  t ← suppressed topic_lookup (parse_topic (PyStr (topic dl)));
  e ← suppressed envelope_lookup (decode_delivered limit (payload dl));
  Ok {| cand_consumer := "fleet-simulator"; cand_source := Envelope.source <$> e;
        cand_family := (λ t, literal_suffix (Topics.family t)) <$> t;
        cand_channel := match t ≫= λ t, dict_get (parameters t) DRONE_PARAMETER with
                        | Some drone => "fleet-simulator-drone-command-" ++ drone
                        | None => "fleet-simulator-drone-command-unrouted"
                        end;
        cand_refusal_code := code; cand_raw_digest := sha256_hex (payload dl) |}.

(** What the handler leaves: its value or exception, the store, and the settlements it asked for. *)
Record handled : Type := {
  returned : result edge_failure CommandProcessingResult; store : db; asked : list edge_settlement
}.

Definition raising (e : edge_failure) (d : db) : handled := {| returned := Err e; store := d; asked := [] |}.

Definition settling (s : edge_settlement) (value : result edge_failure CommandProcessingResult) (d : db) : handled := {|
  returned := match settle_edge s with Some e => Err (SettlementFailed e) | None => value end;
  store := d; asked := [s]
|}.

(** The refusal of a delivery no drone can take: recorded, rejected, and raised. *)
Definition refuse_delivery (dl : CommandDelivery) (observed : string) (r : ProcessingRefusal) (d : db) : handled :=
  match refusal_candidate dl (processing_code r) with
  | Err n => raising (TopicLookup n) d
  | Ok c =>
      match record_candidate observed c d with
      | (Err e, d') => raising (RefusalLedger e) d'
      | (Ok _, d') => settling Rejects (Err (ProcessingError r)) d'
      end
  end.

Definition handle_command (dl : CommandDelivery) (x : CommandContext) (observed : string) (d : db) : handled :=
  match known_drone dl (roster x) with
  | Err (ProcessingError r) => refuse_delivery dl observed r d
  | Err e => raising e d
  | Ok drone =>
      match accept limit (Some (payload dl)) (topic dl) drone (mission_id x) with
      | Err (IntakeError _) => refuse_delivery dl observed INVALID_COMMAND d
      | Err e => raising (IntakeEscape e) d
      | Ok c =>
          let i := receipt_identity drone (mission_id x) c (payload dl) in
          match transaction (inside_transaction i c (budget x) (stamps x)) d with
          | (Ok r, d') => settling Accepts (Ok r) d'
          | (Err Outdated, d') => settling Accepts (Ok {| processed := SUPERSEDED; result_bytes := None |}) d'
          | (Err (ProcessingError CRITICAL_OUTBOX_CAPACITY), d') =>
              settling Fails (Ok {| processed := OUTBOX_FULL; result_bytes := None |}) d'
          | (Err e, d') => raising e d'
          end
      end
  end.
End edge.

Arguments returned {D P} _.
Arguments store {D P} _.
Arguments asked {D P} _.

(** ** The effect of a run *)

Definition assign_document (c : IncomingCommand) (a : AssignSectorCommand) (drone : string) (succeeded : bool) : members :=
  document [("commandId", PyStr (command_id c)); ("droneId", PyStr drone); ("sectorId", PyStr (sector_id a));
            ("state", PyStr (if succeeded then "assigned" else "refused"))].

Definition escalate_document (c : IncomingCommand) (a : EscalateRescueCommand) (drone : string) : members :=
  document [("approvalId", PyStr (approval_id a)); ("commandId", PyStr (command_id c)); ("droneId", PyStr drone);
            ("evidenceDecisionDigest", PyStr (evidence_decision_digest a));
            ("evidenceDecisionId", PyStr (evidence_decision_id a));
            ("evidenceDecisionVersion", PyInt (evidence_decision_version a));
            ("latitudeMicrodegrees", PyInt (latitude_microdegrees a));
            ("longitudeMicrodegrees", PyInt (longitude_microdegrees a));
            ("proposalDigest", PyStr (proposal_digest a)); ("proposalId", PyStr (proposal_id a));
            ("proposalVersion", PyInt (proposal_version a)); ("state", PyStr "rescue-escalated")].

(** [_effect_for], over the sectors of the accepted scenario. *)
Definition effect_for `{Normalization} (known_sectors : list string) (drone : string) (c : IncomingCommand)
    : result CanonicalizationError EffectResult :=
  let succeeded := match body c with
                   | ASSIGN a => bool_decide (sector_id a ∈ known_sectors)
                   | ESCALATE _ => true
                   end in
  let d := match body c with
           | ASSIGN a => assign_document c a drone succeeded
           | ESCALATE a => escalate_document c a drone
           end in
  bytes ← canonical_bytes (PyDict d);
  Ok {| effect_event := if succeeded then SUCCEED else FAIL; effect_sequence := sequence c; effect_bytes := bytes |}.

(** ** What one delivery may do *)

Section theorems.
Context `{N : Normalization} `{M : CommandModels} `{D : Database} `{P : EdgePort} (limit : nat).
Context (effect_callback : string → IncomingCommand → result CanonicalizationError EffectResult).

Abbreviation inside := (inside_transaction limit effect_callback).
Abbreviation handle x := (handle_command limit effect_callback x).

(** The delivery is this command, for this drone of the run. *)
Definition commanded (dl : CommandDelivery) (x : CommandContext) (drone : string) (c : IncomingCommand) : Prop :=
  known_drone dl (roster x) = Ok drone ∧
  accept limit (Some (payload dl)) (topic dl) drone (mission_id x) = Ok c.

(** The effect of a command, as the store keeps it. *)
Definition durable_effect (i : CommandReceiptIdentity) (e : EffectResult) (o : CommandEffectOutcome) (at_ : string)
    : DurableCommandEffect := {|
  FleetStore.identity := i; FleetStore.outcome := o; FleetStore.effect_payload := effect_bytes e;
  FleetStore.applied_sequence := effect_sequence e; FleetStore.applied_at := at_
|}.

(** The sequence is beyond everything this drone has admitted. *)
Definition newer (d : db) (drone : string) (n : Z) : Prop :=
  match high_water d drone with None => True | Some m => m < n end.

(** One application of a command: the effect and its outcome, both answers in order, and the
    finished receipt, with nothing else changed. *)
Definition applied_exactly (i : CommandReceiptIdentity) (c : IncomingCommand) (x : CommandContext) (raw : string)
    (d d' : db) : Prop :=
  let drone := StoreReceipts.drone_id i in
  receipt_entry d i = None ∧ newer d drone (sequence c) ∧ high_water d' drone = Some (sequence c) ∧
  (∀ y, y ≠ drone → high_water d' y = high_water d y) ∧
  ∃ e o acknowledged text final text',
    effect_callback drone c = Ok e ∧ dict_get STORE_OUTCOME (effect_event e) = Some o ∧
    answer (budget x) i c (acknowledgement_stamp (stamps x)) ACKNOWLEDGE = Ok (StoreEvents.payload acknowledged, text) ∧
    answer (budget x) i c (final_stamp (stamps x)) (effect_event e) = Ok (raw, text') ∧
    staged limit text (StoreEvents.payload acknowledged) drone = Ok acknowledged ∧ staged limit text' raw drone = Ok final ∧
    rows d' DRONE_COMMAND_EFFECT =
      (rows d DRONE_COMMAND_EFFECT ++ [effect_row (durable_effect i e o (processed_at (stamps x)))])%list ∧
    rows d' APPLICATION_OUTBOX = (rows d APPLICATION_OUTBOX ++ [event_row acknowledged; event_row final])%list ∧
    bounded (event_source drone) d' ∧ StoreReceipts.received d' i raw (effect_sequence e) (processed_at (stamps x)) ∧
    confined FLEET_TABLES d d'.

Lemma newer_advances d drone n :
  verdict (receive {| last_accepted := high_water d drone |} n) = ADVANCES ↔ newer d drone n.
Proof.
  unfold newer, receive. cbn [last_accepted]. destruct (high_water d drone) as [m|]; [|done].
  destruct (m <? n) eqn:Hm; bools; [done|]. destruct (n =? m); split; (done || lia).
Qed.

Lemma adapter_claim_Ok a i r a' d d' :
  adapter_claim a i d = Ok ((r, a'), d') →
  claim i d = Ok (r, d') ∧ a' = match decision r with
    | CLAIMED => {| claimed := Some i; applied := applied a; publications := publications a |}
    | DUPLICATE => a
    end.
Proof.
  unfold adapter_claim. intros Hc. apply tx_bind_Ok in Hc as (r0&d1&Hc%lift_Ok&Hr). apply tx_ret_Ok in Hr as [[= <- <-] <-].
  split; [by apply lift_Ok in Hc|done].
Qed.

(** The adapter's own checks hold throughout a run: each answer is staged, and the outcome
    persisted, for the claim it opened with. *)
Lemma apply_new_Ok i c x raw d d' :
  consistent d →
  apply_new limit effect_callback {| claimed := Some i; applied := None; publications := [] |} i c (budget x) (stamps x) d
    = Ok (raw, d') →
  ∃ e o acknowledged text final text',
    effect_callback (StoreReceipts.drone_id i) c = Ok e ∧ dict_get STORE_OUTCOME (effect_event e) = Some o ∧
    answer (budget x) i c (acknowledgement_stamp (stamps x)) ACKNOWLEDGE = Ok (StoreEvents.payload acknowledged, text) ∧
    answer (budget x) i c (final_stamp (stamps x)) (effect_event e) = Ok (raw, text') ∧
    staged limit text (StoreEvents.payload acknowledged) (StoreReceipts.drone_id i) = Ok acknowledged ∧
    staged limit text' raw (StoreReceipts.drone_id i) = Ok final ∧
    persist_outcome (stream_of (StoreReceipts.drone_id i)) (durable_effect i e o (processed_at (stamps x)))
      [acknowledged; final] raw d = Ok (tt, d').
Proof.
  intros Hd Ha. unfold apply_new in Ha. apply tx_bind_Ok in Ha as ([e a]&d1&[He ->]%pure_Ok&Ha).
  unfold adapter_apply in He. cbn [require_claimed claimed or_raise mbind result_bind] in He. run_ok.
  apply tx_bind_Ok in Ha as ([]&d1&[_ ->]%pure_Ok&Ha).
  apply tx_bind_Ok in Ha as ([raw1 text]&d1&[R1 ->]%pure_Ok&Ha). apply tx_bind_Ok in Ha as (s1&d1&[S1 ->]%pure_Ok&Ha).
  apply tx_bind_Ok in Ha as (a1&d1&[A1 ->]%pure_Ok&Ha).
  apply tx_bind_Ok in Ha as ([raw2 text']&d1&[R2 ->]%pure_Ok&Ha). apply tx_bind_Ok in Ha as (s2&d1&[S2 ->]%pure_Ok&Ha).
  apply tx_bind_Ok in Ha as (a2&d1&[A2 ->]%pure_Ok&Ha). apply tx_bind_Ok in Ha as ([]&d1&Hc&Hr).
  apply tx_ret_Ok in Hr as [<- <-].
  assert (Hp1 : StoreEvents.payload s1 = raw1) by (unfold staged in S1; run_ok; by subst).
  unfold adapter_stage in A1, A2. run_ok. subst.
  unfold adapter_complete in Hc. cbn [claimed applied publications] in Hc.
  apply tx_bind_Ok in Hc as (own&d2&[Ho ->]%pure_Ok&Hc). apply tx_bind_Ok in Hc as (e'&d2&[He' ->]%pure_Ok&Hc).
  apply tx_bind_Ok in Hc as ([]&d2&[_ ->]%pure_Ok&Hc). apply tx_bind_Ok in Hc as (o&d2&[Hout%or_raise_Ok ->]%pure_Ok&Hc).
  apply lift_Ok in Hc. injection He' as <-. exists e, o, s1, text, s2, text'. by split_and!.
Qed.

(** A transaction that commits answered an old command from its receipt, or applied a new one. *)
Lemma inside_Ok i c x d r d' :
  consistent d → inside i c (budget x) (stamps x) d = Ok (r, d') →
  (∃ bytes n at_, r = {| processed := ANSWERED_AGAIN; result_bytes := Some bytes |} ∧
                  StoreReceipts.received d i bytes n at_ ∧ d' ≡ d) ∨
  (∃ raw, r = {| processed := APPLIED; result_bytes := Some raw |} ∧ applied_exactly i c x raw d d').
Proof.
  intros Hd Hi. unfold inside_transaction in Hi. apply tx_bind_Ok in Hi as ([o a]&d1&Hc&Hi).
  apply adapter_claim_Ok in Hc as [Hc ->]. pose proof (receipt_claim_effect _ _ _ _ Hc Hd) as Hd1.
  pose proof (receipt_claim_confined _ _ _ _ Hc) as Hf1. apply receipt_claim_Ok in Hc; [|done].
  destruct (receipt_entry d i) as [row|] eqn:He.
  { destruct Hc as (Hs&bytes&n&at_&->&Hrec). cbn [decision prior] in Hi. run_tx. subst. left.
    cbn [prior_result prior] in *. simplify_eq. by exists x0, n, at_. }
  destruct Hc as [-> _]. cbn [decision newly_claimed] in Hi. right.
  apply tx_bind_Ok in Hi as (v&d2&Ha&Hi). unfold adapter_admit in Ha.
  apply tx_bind_Ok in Ha as ([]&d3&[_ ->]%pure_Ok&Ha%lift_Ok). pose proof (admit_effect _ _ _ _ _ Ha Hd1) as Hd2.
  pose proof (admit_confined _ _ _ _ _ Ha) as Hf2. apply admit_Ok in Ha as (_&Hv&Hw&Hother); [|done].
  cbn [FleetStore.drone_id stream_of] in *.
  destruct (bool_decide (v = ADVANCES)) eqn:Hadv; cbn [negb] in Hi; [|by apply pure_Ok in Hi as [? _]].
  apply bool_decide_eq_true in Hadv. apply tx_bind_Ok in Hi as (raw&d3&Hi&Hr). apply tx_ret_Ok in Hr as [<- <-].
  apply apply_new_Ok in Hi as (e&out&ack&text&fin&text'&He'&Hout&H1&H2&S1&S2&Hp); [|done].
  apply effect_persist_Ok in Hp as (_&_&Heff&_&Hout'&Hb&Hhw&Hrec&Hf3); [|done].
  assert (Hw1 : ∀ y, high_water d1 y = high_water d y)
    by (intros y; unfold high_water, stream_entry, found; by rewrite (Hf1 DRONE_STREAM_STATE) by by_decide).
  rewrite Hw1 in Hv, Hw. exists raw. split; [done|].
  split; [done|]. split; [apply newer_advances; congruence|]. split; [|split].
  - rewrite Hhw, Hw. unfold receive in *. cbn [last_accepted] in *. destruct (high_water d _) as [m|]; [|done].
    destruct (m <? sequence c); [done|]. destruct (sequence c =? m); cbn in Hv; congruence.
  - intros y Hy. by rewrite Hhw, Hother, Hw1.
  - exists e, out, ack, text, fin, text'. split_and!; try done.
    + rewrite Heff. by rewrite (Hf2 DRONE_COMMAND_EFFECT), (Hf1 DRONE_COMMAND_EFFECT) by by_decide.
    + rewrite Hout'. by rewrite (Hf2 APPLICATION_OUTBOX), (Hf1 APPLICATION_OUTBOX) by by_decide.
    + transitivity d2; [transitivity d1|]; [..|exact Hf3]; (eapply confined_sub; [eassumption|reflexivity]).
Qed.

(** The private exception is raised in one place only. *)
Definition never_outdated {A} (m : tx edge_failure A) : Prop := ∀ d, m d ≠ Err Outdated.

Lemma never_bind {A B} (m : tx edge_failure A) (f : A → tx edge_failure B) :
  never_outdated m → (∀ a, never_outdated (f a)) → never_outdated (m ≫= f).
Proof. intros Hm Hf d [He|(a&d1&_&He)]%tx_bind_Err; [by apply Hm in He|by apply Hf in He]. Qed.

Lemma never_pure {A} (m : result edge_failure A) : m ≠ Err Outdated → never_outdated (pure m).
Proof. intros Hm d He%pure_Err. done. Qed.

Lemma never_map {A X} (h : X → edge_failure) (m : result X A) : (∀ e, h e ≠ Outdated) → map_err h m ≠ Err Outdated.
Proof. intros Hh (e&_&He)%map_err_Err. by apply Hh in He. Qed.

Lemma staged_never text raw drone : staged limit text raw drone ≠ Err Outdated.
Proof. unfold staged. intros [He|(e&_&[=])]%bind_Err. by apply map_err_Err in He as (?&_&[=]). Qed.

Lemma answer_never b i c stamp event : answer b i c stamp event ≠ Err Outdated.
Proof.
  unfold answer. intros H. repeat (apply bind_Err in H as [H|(?&_&H)]); try done;
    try (by apply map_err_Err in H as (?&_&[=])).
  case_decide; [done|]. by apply map_err_Err in H as (?&_&[=]).
Qed.

Lemma apply_new_never a i c b s : never_outdated (apply_new limit effect_callback a i c b s).
Proof.
  unfold apply_new. apply never_bind; [apply never_pure|intros [e a1]].
  { unfold adapter_apply. intros H. repeat (apply bind_Err in H as [H|(?&_&H)]); try done;
      [by apply or_raise_Err in H as [_ [=]]|by apply raise_if_Err in H as [_ [=]]|by apply map_err_Err in H as (?&_&[=])]. }
  apply never_bind; [apply never_pure; by case_bool_decide|intros _].
  assert (Hstage : ∀ a x, never_outdated (pure (adapter_stage a (StoreReceipts.drone_id i) x))).
  { intros a0 x. apply never_pure. unfold adapter_stage, require_claimed_drone, require_claimed. destruct (claimed a0); cbn; [|done].
    by case_bool_decide. }
  apply never_bind; [apply never_pure, answer_never|intros [raw text]].
  apply never_bind; [apply never_pure, staged_never|intros x]. apply never_bind; [apply Hstage|intros a2].
  apply never_bind; [apply never_pure, answer_never|intros [raw' text']].
  apply never_bind; [apply never_pure, staged_never|intros x']. apply never_bind; [apply Hstage|intros a3].
  apply never_bind; [|intros _ d; done]. unfold adapter_complete, require_claimed.
  apply never_bind; [apply never_pure; by destruct (claimed a3)|intros own].
  apply never_bind; [apply never_pure; by destruct (applied a3)|intros e'].
  apply never_bind; [apply never_pure; by destruct (_ && _)|intros _].
  apply never_bind; [apply never_pure; by destruct (dict_get _ _)|intros o].
  intros d (f&_&Hf)%lift_Err. destruct f as [r v| | |]; try done. by destruct r.
Qed.

(** The rollback of a claim is the answer to a command behind the drone's high-water. *)
Lemma inside_outdated i c x d :
  consistent d → inside i c (budget x) (stamps x) d = Err Outdated →
  receipt_entry d i = None ∧ ∃ m, high_water d (StoreReceipts.drone_id i) = Some m ∧ sequence c ≤ m.
Proof.
  intros Hd Hi. unfold inside_transaction in Hi. apply tx_bind_Err in Hi as [Hc|([o a]&d1&Hc&Hi)].
  { unfold adapter_claim in Hc. apply tx_bind_Err in Hc as [(e&_&[=])%lift_Err|(?&?&_&[=])]. }
  apply adapter_claim_Ok in Hc as [Hc ->]. pose proof (receipt_claim_effect _ _ _ _ Hc Hd) as Hd1.
  pose proof (receipt_claim_confined _ _ _ _ Hc) as Hf1. apply receipt_claim_Ok in Hc; [|done].
  destruct (receipt_entry d i) as [row|].
  { destruct Hc as (_&bytes&n&at_&->&_). by cbn in Hi. }
  destruct Hc as [-> _]. split; [done|]. cbn [decision newly_claimed] in Hi.
  apply tx_bind_Err in Hi as [Ha|(v&d2&Ha&Hi)].
  { unfold adapter_admit in Ha. apply tx_bind_Err in Ha as [Ha|([]&d2&_&(e&_&[=])%lift_Err)].
    cbn in Ha. unfold require_claimed_drone in Ha. cbn in Ha. by case_bool_decide. }
  unfold adapter_admit in Ha. apply tx_bind_Ok in Ha as ([]&d3&[_ ->]%pure_Ok&Ha%lift_Ok).
  apply admit_Ok in Ha as (_&Hv&_&_); [|done]. cbn [FleetStore.drone_id stream_of] in *.
  assert (Hw1 : high_water d1 (StoreReceipts.drone_id i) = high_water d (StoreReceipts.drone_id i))
    by (unfold high_water, stream_entry, found; by rewrite (Hf1 DRONE_STREAM_STATE) by by_decide).
  rewrite Hw1 in Hv.
  assert (Hn : v ≠ ADVANCES).
  { intros ->. rewrite bool_decide_eq_true_2 in Hi by done. cbn [negb] in Hi.
    apply tx_bind_Err in Hi as [Hi|(?&?&_&Hi)]; [|done]. by apply apply_new_never in Hi. }
  unfold receive in Hv. cbn [last_accepted] in Hv. destruct (high_water d _) as [m|]; [|done]. exists m. split; [done|].
  destruct (m <? sequence c) eqn:Hm; [done|]. by bools.
Qed.

(** The refusal of these bytes is in the ledger, on the channel their topic names. *)
Definition drone_refused (dl : CommandDelivery) (d : db) : Prop :=
  ∃ code c, refusal_candidate limit dl code = Ok c ∧
            is_Some (refusal_entry d (cand_consumer c) (cand_channel c) (cand_raw_digest c)).

(** The delivery was settled so, and this is what the handler returned unless the port raised. *)
Definition settled_as (s : edge_settlement) (r : CommandProcessingResult) (o : handled) : Prop :=
  asked o = [s] ∧ returned o = match settle_edge s with Some e => Err (SettlementFailed e) | None => Ok r end.

Definition of_outcome (p : CommandProcessingOutcome) (bytes : option string) : CommandProcessingResult :=
  {| processed := p; result_bytes := bytes |}.

(** A delivery left for the broker to redeliver, or rejected once its refusal is durable. *)
Definition turned_away (dl : CommandDelivery) (d : db) (o : handled) : Prop :=
  (∃ e, returned o = Err e) ∧
  ((asked o = [] ∧ store o = d) ∨
   (asked o = [Rejects] ∧ drone_refused dl (store o) ∧ confined [BROKER_REFUSAL] d (store o))).

Lemma refuse_delivery_away dl observed r d :
  consistent d → turned_away dl d (refuse_delivery limit dl observed r d).
Proof.
  intros Hd. unfold refuse_delivery. destruct (refusal_candidate limit dl _) as [c|n] eqn:Hc; [|split; [by eexists|by left]].
  unfold record_candidate. destruct (transaction _ d) as [[f|e] d'] eqn:Hr.
  - apply transaction_Ok in Hr. split; [cbn; destruct (settle_edge _); by eexists|]. right. split; [done|]. split.
    + exists (processing_code r), c. split; [done|]. by apply record_refusal_held in Hr.
    + by eapply record_refusal_confined.
  - apply transaction_Err in Hr as [_ ->]. split; [by eexists|by left].
Qed.

(** A handled command: answered from its receipt, left behind the high-water, refused for lack of
    room, or applied; in each case settled after what it did to the store. *)
Definition command_settled (dl : CommandDelivery) (x : CommandContext) (d : db) (o : handled) : Prop :=
  ∃ drone c, commanded dl x drone c ∧
  let i := receipt_identity drone (mission_id x) c (payload dl) in
  (∃ bytes n at_, settled_as Accepts (of_outcome ANSWERED_AGAIN (Some bytes)) o ∧
                  StoreReceipts.received d i bytes n at_ ∧ store o ≡ d) ∨
  (∃ m, settled_as Accepts (of_outcome SUPERSEDED None) o ∧ receipt_entry d i = None ∧
        high_water d drone = Some m ∧ sequence c ≤ m ∧ store o = d) ∨
  (inside i c (budget x) (stamps x) d = Err (ProcessingError CRITICAL_OUTBOX_CAPACITY) ∧
   settled_as Fails (of_outcome OUTBOX_FULL None) o ∧ store o = d) ∨
  (∃ raw, settled_as Accepts (of_outcome APPLIED (Some raw)) o ∧ applied_exactly i c x raw d (store o)).

Lemma handle_cases dl x observed d :
  consistent d → turned_away dl d (handle dl x observed d) ∨ command_settled dl x d (handle dl x observed d).
Proof.
  intros Hd. unfold handle_command. destruct (known_drone dl (roster x)) as [drone|e] eqn:Hk.
  2: { left. destruct e; try (by split; [by eexists|by left]). by apply refuse_delivery_away. }
  destruct (accept limit _ _ _ _) as [c|e] eqn:Ha.
  2: { left. destruct e; try (by split; [by eexists|by left]). by apply refuse_delivery_away. }
  set (i := receipt_identity drone (mission_id x) c (payload dl)).
  assert (Hcmd : commanded dl x drone c) by done.
  destruct (transaction _ d) as [[r|e] d'] eqn:Ht.
  - apply transaction_Ok, inside_Ok in Ht; [|done]. right. exists drone, c. split; [done|]. cbn zeta.
    destruct Ht as [(bytes&n&at_&->&Hrec&Hs)|(raw&->&Hx)]; [left|right; right; right].
    + by exists bytes, n, at_.
    + by exists raw.
  - apply transaction_Err in Ht as [Ht ->].
    destruct e as [r| | | | | | | | | |]; try (by left; split; [by eexists|by left]).
    + destruct r; try (by left; split; [by eexists|by left]). right. exists drone, c. split; [done|].
      right; right; left. done.
    + apply inside_outdated in Ht as (He&m&Hm&Hle); [|done]. right. exists drone, c. split; [done|].
      right; left. exists m. done.
Qed.

(** C14: a drone's delivery is settled only after what it caused is durable, and what it caused is
    one of five things.  It is turned away, its refusal recorded before it is rejected, or left
    unsettled with the store untouched; or its receipt answers it and nothing is written; or its
    sequence is not beyond the drone's high-water and nothing is written; or there is no room
    for its answers within the drone's bounds, nothing is written, not even the continuity-breach
    audit outcome CONTRACTS.md asks for, and it is returned to the broker; or it is applied: one
    effect, both answers in order, the finished receipt and the moved high-water committed
    together, within the outbox's bounds. *)
Theorem command_handled (dl : CommandDelivery) (x : CommandContext) (observed : string) (d : db) (Hd : consistent d) :
  let o := handle dl x observed d in
  turned_away dl d o ∨
  ∃ drone c, commanded dl x drone c ∧
  let i := receipt_identity drone (mission_id x) c (payload dl) in
  (∃ bytes n at_, settled_as Accepts (of_outcome ANSWERED_AGAIN (Some bytes)) o ∧
                  StoreReceipts.received d i bytes n at_ ∧ store o ≡ d) ∨
  (∃ m, settled_as Accepts (of_outcome SUPERSEDED None) o ∧ receipt_entry d i = None ∧
        high_water d drone = Some m ∧ sequence c ≤ m ∧ store o = d) ∨
  (inside i c (budget x) (stamps x) d = Err (ProcessingError CRITICAL_OUTBOX_CAPACITY) ∧
   settled_as Fails (of_outcome OUTBOX_FULL None) o ∧ store o = d) ∨
  (∃ raw, settled_as Accepts (of_outcome APPLIED (Some raw)) o ∧ applied_exactly i c x raw d (store o)).
Proof. exact (handle_cases dl x observed d Hd). Qed.

(** ** Histories *)

Lemma inside_keeps i c x : effect keeps (inside i c (budget x) (stamps x)).
Proof.
  assert (Hc : effect keeps (adapter_claim opened i)) by (unfold adapter_claim; effects).
  assert (Ha : ∀ a n, effect keeps (adapter_admit a (StoreReceipts.drone_id i) n)) by (intros; unfold adapter_admit; effects).
  assert (Hp : ∀ a j b n at_, effect keeps (adapter_complete a j b n at_)) by (intros; unfold adapter_complete; effects).
  unfold inside_transaction, apply_new. effects.
Qed.

Lemma refuse_delivery_keeps dl observed r d : keeps d (store (refuse_delivery limit dl observed r d)).
Proof.
  intros Hd. unfold refuse_delivery. destruct (refusal_candidate _ _ _) as [c|n]; [|by apply keeps_preorder].
  unfold record_candidate. destruct (transaction _ d) as [[f|e] d'] eqn:Hr.
  - apply transaction_Ok in Hr. cbn [store settling].
    refine (effect_keeps_elsewhere [BROKER_REFUSAL] _ _ _ _ _ _ _ Hr Hd);
      [apply record_refusal_effect|apply record_refusal_confined|].
    intros t Ht ->%list_elem_of_singleton. revert Ht. apply (bool_decide_unpack (BROKER_REFUSAL ∉ FLEET_TABLES)). by vm_compute.
  - apply transaction_Err in Hr as [_ ->]. by apply keeps_preorder.
Qed.

Lemma handle_keeps dl x observed d : keeps d (store (handle dl x observed d)).
Proof.
  intros Hd. unfold handle_command. destruct (known_drone _ _) as [drone|e].
  2: { destruct e; first [by apply keeps_preorder | by apply refuse_delivery_keeps]. }
  destruct (accept _ _ _ _ _) as [c|e].
  2: { destruct e; first [by apply keeps_preorder | by apply refuse_delivery_keeps]. }
  destruct (transaction _ d) as [[r|e] d'] eqn:Ht.
  - apply transaction_Ok in Ht. by eapply inside_keeps.
  - apply transaction_Err in Ht as [_ ->]. destruct e as [r| | | | | | | | | |]; try destruct r; by apply keeps_preorder.
Qed.

(** What happens to the fleet's store: deliveries, and the outcomes of publications recorded by
    [StoreCriticalOutbox.record], each in a transaction of its own. *)
Inductive fleet_step : Type :=
| Deliver (dl : CommandDelivery) (x : CommandContext) (observed : string)
| Record_ (i : ApplicationEventIdentity) (event : Outbox.OutboxEvent) (confirmed_at : option string).

Definition fleet_step_run (d : db) (s : fleet_step) : db :=
  match s with
  | Deliver dl x observed => store (handle dl x observed d)
  | Record_ i event at_ => (transaction (StoreEvents.record_publication i Outbox.STAGED event at_) d).2
  end.

Definition fleet_run (d : db) (l : list fleet_step) : db := foldl fleet_step_run d l.

Lemma fleet_run_keeps l : ∀ d, keeps d (fleet_run d l).
Proof.
  induction l as [|s l IH]; intros d; [by intros Hd; apply keeps_preorder|]. etransitivity; [|apply IH].
  destruct s as [dl x observed|i event at_]; [apply handle_keeps|]. intros Hd. cbn.
  destruct (transaction _ d) as [[b|e] d'] eqn:Ht.
  - apply transaction_Ok in Ht. by eapply publication_keeps.
  - apply transaction_Err in Ht as [_ ->]. by apply keeps_preorder.
Qed.

(** C22: the critical outbox of a drone is bounded and loses nothing.  Whatever is delivered, in
    whatever order, and whatever the broker says of the publications, a producer's unconfirmed
    rows never exceed five hundred nor their topics, headers and bodies two mebibytes; every
    event once staged stays staged unchanged but for its publication state; every finished
    receipt stays finished with its result; no effect is rewritten; and no drone's high-water
    moves back. *)
Theorem critical_outbox_bounded (l : list fleet_step) (d : db) (Hd : consistent d) :
  let d' := fleet_run d l in
  (∀ p, records d p ≤ CRITICAL_OUTBOX_MAX_RECORDS ∧ bytes d p ≤ CRITICAL_OUTBOX_MAX_BYTES →
        records d' p ≤ CRITICAL_OUTBOX_MAX_RECORDS ∧ bytes d' p ≤ CRITICAL_OUTBOX_MAX_BYTES) ∧
  (∀ p e r, event_entry d p e = Some r → ∃ r', event_entry d' p e = Some r' ∧ same_event r r') ∧
  (∀ i r n at_, StoreReceipts.received d i r n at_ → StoreReceipts.received d' i r n at_) ∧
  rows d DRONE_COMMAND_EFFECT `prefix_of` rows d' DRONE_COMMAND_EFFECT ∧
  (∀ x, forward (high_water d x) (high_water d' x)).
Proof. destruct (fleet_run_keeps l d Hd) as [_ Hr He Hf Hb Hv]. by split_and!. Qed.

(** ** Once *)

Lemma refuse_delivery_fails dl observed r d v : returned (refuse_delivery limit dl observed r d) ≠ Ok v.
Proof.
  unfold refuse_delivery. destruct (refusal_candidate _ _ _); [|done]. destruct (record_candidate _ _ _) as [[f|e] d']; [|done].
  cbn. by destruct (settle_edge _).
Qed.

(** An applied command ran its transaction. *)
Lemma handle_applied dl x observed d raw :
  returned (handle dl x observed d) = Ok (of_outcome APPLIED (Some raw)) →
  ∃ drone c, commanded dl x drone c ∧
    inside (receipt_identity drone (mission_id x) c (payload dl)) c (budget x) (stamps x) d
      = Ok (of_outcome APPLIED (Some raw), store (handle dl x observed d)).
Proof.
  unfold commanded, handle_command. destruct (known_drone dl (roster x)) as [drone|e].
  2: { destruct e; try done. by intros ?%refuse_delivery_fails. }
  destruct (accept limit _ _ _ _) as [c|e] eqn:Ha.
  2: { destruct e; try done. by intros ?%refuse_delivery_fails. }
  destruct (transaction _ d) as [[r|e] d'] eqn:Ht.
  - apply transaction_Ok in Ht. cbn. destruct (settle_edge _); intros [= ->]. by exists drone, c.
  - destruct e as [r| | | | | | | | | |]; try done; [destruct r; try done|]; cbn; by destruct (settle_edge _).
Qed.

(** The server runs the two statements a repeated claim needs. *)
Definition serves_claim (i : CommandReceiptIdentity) (d : db) : Prop :=
  permits (claim_statement i) d = true ∧ ∀ d', permits (stored_statement i) d' = true.

Lemma handle_again dl x observed d drone c bytes n at_ :
  let i := receipt_identity drone (mission_id x) c (payload dl) in
  consistent d → commanded dl x drone c → StoreReceipts.received d i bytes n at_ →
  admitted DRONE_COMMAND_RECEIPT (receipt_row i) = true → serves_claim i d →
  settled_as Accepts (of_outcome ANSWERED_AGAIN (Some bytes)) (handle dl x observed d) ∧ store (handle dl x observed d) ≡ d.
Proof.
  intros i Hd [Hk Ha] Hr Had [Hp Hp']. destruct (receipt_claim_again i bytes n at_ d Hd Hp Hp' Had Hr) as (d'&Hc&Hs).
  assert (Hin : inside i c (budget x) (stamps x) d = Ok (of_outcome ANSWERED_AGAIN (Some bytes), d')).
  { unfold inside_transaction, adapter_claim.
    rewrite (tx_bind_run _ _ d (prior bytes n at_, opened) d'); [reflexivity|].
    by rewrite (tx_bind_run _ _ _ _ _ (lift_run StoreFailure _ _ _ (lift_run ReceiptFailure _ _ _ Hc))). }
  unfold handle_command. rewrite Hk, Ha. fold i. unfold transaction. rewrite Hin. done.
Qed.

Lemma handle_other dl x observed d drone c j bytes n at_ :
  let i := receipt_identity drone (mission_id x) c (payload dl) in
  consistent d → commanded dl x drone c → StoreReceipts.received d j bytes n at_ →
  StoreReceipts.drone_id j = drone → StoreReceipts.command_id j = command_id c →
  (mission_id x, sha256_hex (payload dl)) ≠ (StoreReceipts.mission_id j, command_digest j) →
  (∃ e, returned (handle dl x observed d) = Err e) ∧ asked (handle dl x observed d) = [] ∧ store (handle dl x observed d) = d.
Proof.
  intros i Hd [Hk Ha] Hr Hdr Hc Hne.
  destruct (receipt_claim_other j i bytes n at_ d Hd Hr) as [e He]; [by rewrite Hdr|by rewrite Hc|done|].
  assert (Hin : inside i c (budget x) (stamps x) d = Err (StoreFailure (ReceiptFailure e))).
  { unfold inside_transaction. apply tx_bind_Err. left. unfold adapter_claim. apply tx_bind_Err. left.
    unfold lift, claim_receipt, lift. by rewrite He. }
  unfold handle_command. rewrite Hk, Ha. fold i. unfold transaction. rewrite Hin. split; [by eexists|]. by split.
Qed.

(** C7: a command is applied once.  After a command was applied, and whatever was delivered and
    recorded since, the store holds exactly one effect for it; every redelivery of its bytes in
    the same mission, with any stamps and by a handler of any later process, is accepted with
    the very result bytes that were committed and writes nothing; and other bytes delivered
    under its name, or in another mission, raise without a settlement and write nothing. *)
Theorem effect_once (dl : CommandDelivery) (x : CommandContext) (observed : string) (raw : string) (d : db)
    (l : list fleet_step) (Hd : consistent d)
    (Happlied : returned (handle dl x observed d) = Ok (of_outcome APPLIED (Some raw))) :
  let d' := fleet_run (store (handle dl x observed d)) l in
  ∃ drone c e o, commanded dl x drone c ∧
  let i := receipt_identity drone (mission_id x) c (payload dl) in
  where_rows (effect_conds i) (rows d' DRONE_COMMAND_EFFECT) = [effect_row (durable_effect i e o (processed_at (stamps x)))] ∧
  (∀ x' observed', commanded dl x' drone c → mission_id x' = mission_id x → serves_claim i d' →
     settled_as Accepts (of_outcome ANSWERED_AGAIN (Some raw)) (handle dl x' observed' d') ∧
     store (handle dl x' observed' d') ≡ d') ∧
  (∀ dl' x' observed' c', commanded dl' x' drone c' → command_id c' = command_id c →
     (mission_id x', sha256_hex (payload dl')) ≠ (mission_id x, sha256_hex (payload dl)) →
     (∃ e, returned (handle dl' x' observed' d') = Err e) ∧ asked (handle dl' x' observed' d') = [] ∧
     store (handle dl' x' observed' d') = d').
Proof.
  intros d'. destruct (handle_applied _ _ _ _ _ Happlied) as (drone&c&Hc&Hin).
  set (d1 := store (handle dl x observed d)) in *. set (i := receipt_identity drone (mission_id x) c (payload dl)) in *.
  pose proof (kept_consistent _ _ (inside_keeps i c x _ _ _ Hin Hd)) as Hd1.
  pose proof (fleet_run_keeps l d1 Hd1) as [Hd' Hrec Heff _ _ _].
  assert (Had : admitted DRONE_COMMAND_RECEIPT (receipt_row i) = true).
  { unfold inside_transaction in Hin. apply tx_bind_Ok in Hin as ([o a]&d0&Hcl&_). apply adapter_claim_Ok in Hcl as [Hcl _].
    exact (receipt_claim_admitted i _ _ _ Hd Hcl). }
  apply inside_Ok in Hin as [(b&n&at_&[=]&_)|(r&[= <-]&Hx)]; [|done].
  destruct Hx as (_&_&_&_&e&o&a&t&f&t'&He&Ho&_&_&_&_&Hrows&_&_&Hr&_).
  exists drone, c, e, o. split; [done|]. split; [|split].
  - apply (effect_unique (durable_effect i e o (processed_at (stamps x)))); [done|]. destruct Heff as [k Hk]. fold d' in Hk. rewrite Hk, Hrows. apply elem_of_app. left.
    apply elem_of_app. right. left.
  - intros x' observed' Hc' Hm Hs. apply Hrec in Hr.
    assert (Hi : receipt_identity drone (mission_id x') c (payload dl) = i) by (unfold i; by rewrite Hm).
    refine (handle_again dl x' observed' d' drone c raw _ _ Hd' Hc' _ _ _); rewrite ?Hi; [exact Hr|done..].
  - intros dl' x' observed' c' Hc' Hid Hne. apply Hrec in Hr. by eapply handle_other.
Qed.

(** ** Behind the high-water *)

(** C24: the drone's high-water is kept for the drone, whichever producer a command comes from.  A
    new command whose sequence is not beyond it is accepted and dropped: its receipt is rolled
    back, no effect is applied, no answer is staged, and the broker is told it was consumed.  A
    gateway numbers its commands from zero in each process under a producer of its own, so every
    command a restarted gateway sends is lost until its own numbering passes its predecessor's. *)
Theorem restarted_gateway_unheard (dl : CommandDelivery) (x : CommandContext) (observed : string) (d : db)
    (drone : string) (c : IncomingCommand) (r : row) (m : Z)
    (Hd : consistent d) (Hserver : ∀ st d', permits st d' = true) (Hc : commanded dl x drone c)
    (Hreceipt : admitted DRONE_COMMAND_RECEIPT (receipt_row (receipt_identity drone (mission_id x) c (payload dl))) = true)
    (Hnew : receipt_entry d (receipt_identity drone (mission_id x) c (payload dl)) = None)
    (Hstream : admitted DRONE_STREAM_STATE (stream_row (stream_of drone)) = true)
    (Hr : stream_entry d drone = Some r) (Hbound : cell r "producer" = SText (event_source drone))
    (Hm : high_water d drone = Some m) (Hvalid : valid_sequence m = true) (Hn : 0 ≤ sequence c ≤ m) :
  settled_as Accepts (of_outcome SUPERSEDED None) (handle dl x observed d) ∧ store (handle dl x observed d) = d.
Proof.
  set (i := receipt_identity drone (mission_id x) c (payload dl)) in *.
  destruct (receipt_claim_first i d Hd (Hserver _ _) Hreceipt Hnew) as (d1&Hcl&Hrep).
  pose proof (receipt_claim_effect _ _ _ _ Hcl Hd) as Hd1.
  assert (Hsame : rows d1 DRONE_STREAM_STATE = rows d DRONE_STREAM_STATE) by (apply (replaces_frame _ _ _ _ _ Hrep); by_decide).
  destruct (admit_behind (stream_of drone) (sequence c) m r d1) as (v&d2&Ha&Hv); try done.
  { unfold stream_entry, found in *. by rewrite Hsame. }
  { unfold high_water, stream_entry, found in *. by rewrite Hsame. }
  assert (Hin : inside i c (budget x) (stamps x) d = Err Outdated).
  { unfold inside_transaction, adapter_claim.
    rewrite (tx_bind_run _ _ d (newly_claimed, {| claimed := Some i; applied := None; publications := [] |}) d1).
    2: { by rewrite (tx_bind_run _ _ _ _ _ (lift_run StoreFailure _ _ _ (lift_run ReceiptFailure _ _ _ Hcl))). }
    cbn [decision newly_claimed]. rewrite (tx_bind_run _ _ d1 v d2).
    2: { unfold adapter_admit, require_claimed_drone. cbn [require_claimed claimed or_raise mbind result_bind].
         rewrite bool_decide_eq_true_2 by done. by rewrite (tx_bind_run _ _ d1 tt d1), (lift_run StoreFailure _ _ _ Ha). }
    by rewrite bool_decide_eq_false_2. }
  destruct Hc as [Hk Hacc]. unfold handle_command. rewrite Hk, Hacc. fold i. unfold transaction. by rewrite Hin.
Qed.

(** ** A drone with a long name *)

Lemma char_len_app s t : char_len (s ++ t) = (char_len s + char_len t)%nat.
Proof. induction s as [|c s IH]; [done|]. cbn. rewrite IH. lia. Qed.

Lemma outbox_producer_fits e : admitted APPLICATION_OUTBOX (event_row e) = true → (char_len (StoreEvents.producer e) <= 64)%nat.
Proof.
  intros Ha. pose proof (admitted_column _ _ (required "producer" (Varchar IDENTIFIER_LENGTH)) Ha ltac:(by_decide)) as Hc.
  unfold column_admits in Hc. cbn [column_name required column_type] in Hc.
  change (cell (event_row e) "producer") with (SText (StoreEvents.producer e)) in Hc. by apply Nat.leb_le in Hc.
Qed.

Lemma applied_fits i c x raw d d' :
  consistent d' → applied_exactly i c x raw d d' → (char_len (StoreReceipts.drone_id i) <= 40)%nat.
Proof.
  intros Hd' (_&_&_&_&e&o&a&t&f&t'&_&_&_&_&Ha&_&_&Hr&_). destruct (Hd' APPLICATION_OUTBOX) as [Hall _].
  rewrite Hr, !Forall_app in Hall. destruct Hall as [_ Hall]. apply Forall_cons in Hall as [Hall _].
  apply outbox_producer_fits in Hall. unfold staged in Ha. apply bind_Ok in Ha as (env&_&Ha).
  injection Ha as Ha. rewrite <- Ha in Hall. cbn [StoreEvents.producer] in Hall.
  change (event_source ?y) with ("urn:aerial-rescue:drone:" ++ y) in Hall. rewrite char_len_app in Hall.
  change (char_len "urn:aerial-rescue:drone:") with 24%nat in Hall. lia.
Qed.

(** C38: an answer is staged under the drone's CloudEvents source in a column of sixty-four
    characters, of which the prefix takes twenty-four.  A drone whose name is longer than forty,
    which the identifier pattern and every other column admit up to sixty-four, never applies a
    command: whatever it is sent, no effect is recorded, no answer is staged and no receipt is
    finished. *)
Theorem long_identity_unserved (dl : CommandDelivery) (x : CommandContext) (observed : string) (d : db)
    (drone : string) (c : IncomingCommand)
    (Hd : consistent d) (Hc : commanded dl x drone c) (Hlong : (40 < char_len drone)%nat) :
  let o := handle dl x observed d in
  (∀ raw, returned o ≠ Ok (of_outcome APPLIED (Some raw))) ∧
  rows (store o) DRONE_COMMAND_EFFECT = rows d DRONE_COMMAND_EFFECT ∧
  rows (store o) APPLICATION_OUTBOX = rows d APPLICATION_OUTBOX ∧
  rows (store o) DRONE_COMMAND_RECEIPT = rows d DRONE_COMMAND_RECEIPT.
Proof.
  intros o. assert (Hnot : ∀ raw i y, StoreReceipts.drone_id i = drone → ¬ applied_exactly i y x raw d (store o)).
  { intros raw i y Hi Hx. apply applied_fits in Hx; [rewrite Hi in Hx; lia|]. apply (handle_keeps dl x observed d Hd). }
  split.
  - intros raw Hr. destruct (handle_applied _ _ _ _ _ Hr) as (drone'&c'&[Hk' _]&Hin). destruct Hc as [Hk _].
    assert (drone' = drone) as -> by congruence.
    apply inside_Ok in Hin as [(b&n&at_&[=]&_)|(r&_&Hx)]; [|done]. by eapply Hnot in Hx.
  - destruct (handle_cases dl x observed d Hd) as [[_ [[_ Hs]|(_&_&Hs)]]|(drone'&c'&[Hk' _]&Hcases)].
    + unfold o. by rewrite Hs.
    + unfold o. rewrite !Hs by by_decide. done.
    + destruct Hc as [Hk _]. assert (drone' = drone) as -> by congruence.
      destruct Hcases as [(b&n&at_&_&_&Hs)|[(m&_&_&_&_&Hs)|[(_&_&Hs)|(raw&_&Hx)]]].
      * unfold o. split_and!; apply Hs.
      * unfold o. by rewrite Hs.
      * unfold o. by rewrite Hs.
      * by eapply Hnot in Hx.
Qed.
End theorems.

(** ** A sample run *)

#[local] Existing Instances ascii_normalization strict_branches memory.

#[local] Instance quiet_port : EdgePort := {| edge_error := Empty_set; settle_edge := λ _, None |}.

(** A gateway process [epoch]'s assignment, its [n]th event. *)
Definition order (epoch drone command : string) (n : Z) : CommandDelivery := {|
  topic := "aerial-rescue/v1/mission-1/drone/" ++ drone ++ "/command/assign-sector";
  payload := default "" (ok_value (canonical_bytes (PyDict (envelope_document
    {| Envelope.id := "event-" ++ command; Envelope.source := "urn:aerial-rescue:command-gateway:" ++ epoch;
       Envelope.type := "aerial-rescue.v1.drone.command.assign-sector"; Envelope.subject := "mission-1";
       Envelope.time := "2026-07-28T09:00:00.000Z";
       Envelope.dataschema := "https://aerial-rescue.invalid/schemas/v1/payload/drone-command-assign-sector.schema.json";
       Envelope.sequence := zero_padded 15 n; Envelope.correlation_id := "trace-1";
       Envelope.traceparent := "00-0af7651916cd43dd8448eb211c80319c-b7ad6b7169203331-01";
       Envelope.data := document [("missionId", PyStr "mission-1"); ("droneId", PyStr drone);
                                  ("commandId", PyStr command); ("sectorId", PyStr "sector-1")];
       Envelope.causation_id := None; Envelope.tracestate := None |}))))
|}.

Definition first_order : CommandDelivery := Eval vm_compute in order "gateway-1" "drone-1" "command-1" 7.
(** The gateway has restarted, and counts from zero again. *)
Definition second_order : CommandDelivery := Eval vm_compute in order "gateway-2" "drone-1" "command-2" 0.
(** A name of forty-one characters. *)
Definition long_name : string := "drone-of-the-northern-valley-search-party".
Definition long_order : CommandDelivery := Eval vm_compute in order "gateway-1" long_name "command-1" 7.

Definition sample_stamp (n : Z) (drone correlation causation : string) : ResultStamp := {|
  stamp_event := "result-" ++ dec n; occurred_at := "2026-07-28T09:00:01.000Z"; stamp_sequence := n;
  stamp_correlation := correlation; stamp_causation := causation;
  stamp_traceparent := "00-0af7651916cd43dd8448eb211c80319c-b7ad6b7169203331-01"
|}.

Definition sample_context (n : Z) : CommandContext := {|
  mission_id := "mission-1"; roster := ["drone-1"; "drone-2"; long_name]; budget := {| max_sends := 3 |};
  stamps := {| acknowledgement_stamp := sample_stamp n; final_stamp := sample_stamp (n + 1);
               processed_at := "2026-07-28T09:00:01.000Z" |}
|}.

Abbreviation sample_handle n dl d :=
  (handle_command 4300 (effect_for ["sector-1"]) dl (sample_context n) "2026-07-28T09:00:02.000Z" d).

(** A store with no rows. *)
Definition fresh : @db memory := [].

Definition after_first : @db memory := Eval vm_compute in store (sample_handle 0 first_order fresh).
Definition first_raw : string := Eval vm_compute in
  default "" (match returned (sample_handle 0 first_order fresh) with Ok r => result_bytes r | Err _ => None end).
Definition first_stream : row := Eval vm_compute in default [] (stream_entry after_first "drone-1").

Lemma first_handled : sample_handle 0 first_order fresh =
  {| returned := Ok (of_outcome APPLIED (Some first_raw)); store := after_first; asked := [Accepts] |}.
Proof. vm_cast_no_check (eq_refl (sample_handle 0 first_order fresh)). Qed.

Lemma after_first_consistent : consistent after_first.
Proof.
  pose proof (handle_keeps 4300 (effect_for ["sector-1"]) first_order (sample_context 0) "2026-07-28T09:00:02.000Z" fresh memory_empty) as [Hk _].
  by rewrite first_handled in Hk.
Qed.

Definition sample_command (command : string) (n : Z) : IncomingCommand :=
  {| command_id := command; event_id := "event-" ++ command; correlation_id := "trace-1"; sequence := n;
     body := ASSIGN {| sector_id := "sector-1" |} |}.

Lemma first_commanded n : commanded 4300 first_order (sample_context n) "drone-1" (sample_command "command-1" 7).
Proof. split; vm_compute; reflexivity. Qed.

Lemma second_commanded n : commanded 4300 second_order (sample_context n) "drone-1" (sample_command "command-2" 0).
Proof. split; vm_compute; reflexivity. Qed.

Lemma long_commanded n : commanded 4300 long_order (sample_context n) long_name (sample_command "command-1" 7).
Proof. split; vm_compute; reflexivity. Qed.

Lemma commanded_unique dl x drone c drone' c' :
  commanded 4300 dl x drone c → commanded 4300 dl x drone' c' → drone' = drone ∧ c' = c.
Proof. intros [Hk Ha] [Hk' Ha']. rewrite Hk in Hk'. injection Hk' as <-. rewrite Ha in Ha'. by injection Ha' as <-. Qed.

Lemma command_handled_witness :
  applied_exactly 4300 (effect_for ["sector-1"])
    (receipt_identity "drone-1" (mission_id (sample_context 0)) (sample_command "command-1" 7) (payload first_order))
    (sample_command "command-1" 7) (sample_context 0) first_raw fresh after_first.
Proof.
  destruct (command_handled 4300 (effect_for ["sector-1"]) first_order (sample_context 0) "2026-07-28T09:00:02.000Z" fresh memory_empty)
    as [[[e He] _]|(drone&c&Hc&Hcases)]; rewrite first_handled in *; [discriminate He|].
  destruct (commanded_unique _ _ _ _ _ _ (first_commanded 0) Hc) as [-> ->].
  destruct Hcases as [(b&n&at_&[_ Hr]&_)|[(m&[_ Hr]&_)|[(_&[_ Hr]&_)|(raw&[_ Hr]&Hx)]]]; try discriminate Hr.
  injection Hr as <-. exact Hx.
Defined.

Definition sample_steps : list fleet_step :=
  [Deliver first_order (sample_context 0) "2026-07-28T09:00:02.000Z";
   Record_ {| of_producer := "urn:aerial-rescue:drone:drone-1"; of_event := "result-0" |} Outbox.CONFIRM (Some "2026-07-28T09:00:03.000Z")].

Lemma critical_outbox_bounded_witness :
  records (fleet_run 4300 (effect_for ["sector-1"]) fresh sample_steps) "urn:aerial-rescue:drone:drone-1"
    ≤ CRITICAL_OUTBOX_MAX_RECORDS.
Proof.
  destruct (critical_outbox_bounded 4300 (effect_for ["sector-1"]) sample_steps fresh memory_empty) as [Hb _].
  assert (H0 : records fresh "urn:aerial-rescue:drone:drone-1" ≤ CRITICAL_OUTBOX_MAX_RECORDS ∧
               bytes fresh "urn:aerial-rescue:drone:drone-1" ≤ CRITICAL_OUTBOX_MAX_BYTES) by (split; vm_compute; discriminate).
  exact (proj1 (Hb _ H0)).
Defined.

Lemma effect_once_witness :
  settled_as Accepts (of_outcome ANSWERED_AGAIN (Some first_raw)) (sample_handle 4 first_order after_first).
Proof.
  assert (Happlied : returned (sample_handle 0 first_order fresh) = Ok (of_outcome APPLIED (Some first_raw))) by (by rewrite first_handled).
  destruct (effect_once 4300 (effect_for ["sector-1"]) first_order (sample_context 0) "2026-07-28T09:00:02.000Z" first_raw
    fresh [] memory_empty Happlied) as (drone&c&e&o&Hc&_&Hagain&_).
  rewrite first_handled in Hagain. cbn [fleet_run foldl store] in Hagain.
  destruct (commanded_unique _ _ _ _ _ _ (first_commanded 0) Hc) as [-> ->].
  exact (proj1 (Hagain (sample_context 4) "2026-07-28T09:00:02.000Z" (first_commanded 4) eq_refl (conj eq_refl (λ _, eq_refl)))).
Defined.

Lemma restarted_gateway_unheard_witness :
  settled_as Accepts (of_outcome SUPERSEDED None) (sample_handle 2 second_order after_first) ∧
  store (sample_handle 2 second_order after_first) = after_first.
Proof.
  refine (restarted_gateway_unheard 4300 (effect_for ["sector-1"]) second_order (sample_context 2) "2026-07-28T09:00:02.000Z"
    after_first "drone-1" (sample_command "command-2" 0) first_stream 7 after_first_consistent (λ _ _, eq_refl)
    (second_commanded 2) _ _ _ _ _ _ _ _); first [vm_compute; reflexivity | cbn; lia].
Defined.

Lemma long_identity_unserved_witness :
  rows (store (sample_handle 0 long_order fresh)) APPLICATION_OUTBOX = [].
Proof.
  assert (Hlong : (40 < char_len long_name)%nat) by (apply Nat.ltb_lt; reflexivity).
  exact (proj1 (proj2 (proj2 (long_identity_unserved 4300 (effect_for ["sector-1"]) long_order (sample_context 0)
    "2026-07-28T09:00:02.000Z" fresh long_name (sample_command "command-1" 7) memory_empty (long_commanded 0) Hlong)))).
Defined.
