(* ===== verification/FleetRecords.v ===== *)
(** * What the simulated fleet tells the world

    [telemetry.py], [lifecycle.py] and the stamps of [service.py] of
    [services/fleet_simulator/src/aerial_rescue_fleet_simulator]: a reading or a lifecycle edge
    becomes one envelope, read back before it is published; one tick's edges are published in
    the order of the drones, then of the sectors.  The lifecycle port is an interface;
    [broker_lifecycle] implements it over a publisher and a supply of instants and identifiers. *)

From S2P Require Import Prelude PyStr Sectors PyVal Canonical Digest Connectivity Topics Envelope Ingress DroneCommand Scenario Flight Fleet.
Local Open Scope string_scope.
Local Open Scope Z_scope.

(** [str.encode("ascii")] *)
Definition encode_ascii (s : string) : option string := if str_all is_ascii s then Some s else None.

Definition RUN_PRODUCER_KIND : string := "drone-run".

(** [run_event_source]; nothing when a name is not ASCII, which raises. *)
Definition run_event_source (drone mission : string) : option string :=
  m ← encode_ascii mission; d ← encode_ascii drone;
  Some (join ":" ["urn"; TOPIC_NAMESPACE_ROOT; RUN_PRODUCER_KIND;
                  sha256_hex ("aerial-rescue:drone-run:v1" ++ String "000" m ++ String "000" d)]).

(** ** Stamps *)

Record TelemetryStamp : Set := {
  event_id : string; occurred_at : string; stamp_sequence : Z; stamp_correlation : string; stamp_traceparent : string
}.

(** The injected clock, read through [format_instant], and identifier source. *)
Class Supply := { supply : Type; identifiers : supply → string * supply; clock : supply → string * supply }.

Definition TRACE_SAMPLED : string := "01".
Definition TRACE_VERSION : string := "00".
Definition TRACE_PARENT_DIGITS : nat := 16.
Definition FIRST_SEQUENCE : Z := 0.

Section stamps.
Context `{Supply}.

(** [CountingStamps], with the state of its two sources. *)
Record CountingStamps : Type := { run_correlation : string; sequences : list (string * Z); source_of : supply }.

Definition begin_run (correlation : string) (c : CountingStamps) : CountingStamps :=
  {| run_correlation := correlation; sequences := sequences c; source_of := source_of c |}.

(** [_next_sequence] *)
Definition next_sequence (producer : string) (c : CountingStamps) : Z * CountingStamps :=
  let n := default FIRST_SEQUENCE (dict_get (sequences c) producer) in
  (n, {| run_correlation := run_correlation c; sequences := dict_set (sequences c) producer (n + 1);
         source_of := source_of c |}).

(** An identifier, an instant and a trace parent, as the two stamps ask for them. *)
Definition minted (s : supply) : string * string * string * supply :=
  let '(event, s) := identifiers s in
  let '(now, s) := clock s in
  let '(trace, s) := identifiers s in
  let '(parent, s) := identifiers s in
  (event, now, join "-" [TRACE_VERSION; trace; substring 0 TRACE_PARENT_DIGITS parent; TRACE_SAMPLED], s).

Definition with_source (s : supply) (c : CountingStamps) : CountingStamps :=
  {| run_correlation := run_correlation c; sequences := sequences c; source_of := s |}.

Definition next_stamp (producer : string) (c : CountingStamps) : TelemetryStamp * CountingStamps :=
  let '(n, c) := next_sequence producer c in
  let '(event, now, trace, s) := minted (source_of c) in
  ({| event_id := event; occurred_at := now; stamp_sequence := n; stamp_correlation := run_correlation c;
      stamp_traceparent := trace |}, with_source s c).

Definition next_result_stamp (producer correlation causation : string) (c : CountingStamps) : ResultStamp * CountingStamps :=
  let '(n, c) := next_sequence producer c in
  let '(event, now, trace, s) := minted (source_of c) in
  ({| stamp_event := event; DroneCommand.occurred_at := now; DroneCommand.stamp_sequence := n;
      DroneCommand.stamp_correlation := correlation; stamp_causation := causation;
      DroneCommand.stamp_traceparent := trace |}, with_source s c).
End stamps.

(** ** Records *)

(** [TelemetryRefusal] and [LifecycleRefusal], which have the same two members. *)
Inductive RecordRefusal : Set := SEQUENCE_RANGE | UNPUBLISHABLE.

(** [TelemetryError] or [LifecycleError], or what the contracts raise outside the [try]. *)
Inductive record_failure : Set :=
| RecordError (refusal : RecordRefusal)
| BadTopic (e : topic_failure)
| BadEnvelope (e : envelope_failure)
| Uncanonical (e : CanonicalizationError)
| Undigestible (e : digest_failure).

Definition unpublishable (e : envelope_failure) : record_failure :=
  match envelope_lookup e with Some _ => BadEnvelope e | None => RecordError UNPUBLISHABLE end.

Definition stamped (s : TelemetryStamp) (source mission declared schema sequence : string) (payload : members) : Envelope := {|
  Envelope.id := event_id s; Envelope.source := source; Envelope.type := declared; Envelope.subject := mission;
  Envelope.time := occurred_at s; Envelope.dataschema := schema; Envelope.sequence := sequence;
  Envelope.correlation_id := stamp_correlation s; Envelope.traceparent := stamp_traceparent s;
  Envelope.data := payload; Envelope.causation_id := None; Envelope.tracestate := None
|}.

(** The part [telemetry_record] and [_record] share: the document, and the envelope it parses to
    and binds its topic. *)
Definition built `{Normalization} (t : Topic) (source : string) (s : TelemetryStamp) (payload : members)
    : result record_failure (members * Envelope) :=
  rendered ← or_raise (sequence_text (stamp_sequence s)) (RecordError SEQUENCE_RANGE);
  declared ← map_err BadTopic (event_type t);
  b ← map_err BadEnvelope (binding_for declared);
  let d := envelope_document (stamped s source (Topics.mission_id t) declared (bound_schema b) rendered payload) in
  e ← map_err unpublishable (x ← parse_envelope (PyDict d); check_topic_binding x t ;; Ok x);
  Ok (d, e).

Definition telemetry_topic (mission : string) (r : Reading) : Topic :=
  {| family := DRONE_TELEMETRY; Topics.mission_id := mission; parameters := [("droneId", reading_drone r)] |}.

(** [_payload] *)
Definition telemetry_payload (mission : string) (r : Reading) : members := document
  [("missionId", PyStr mission); ("droneId", PyStr (reading_drone r));
   ("latitudeMicrodegrees", PyInt (reading_latitude r)); ("longitudeMicrodegrees", PyInt (reading_longitude r));
   ("batteryPercent", PyInt (reading_battery r)); ("altitudeMetres", PyInt (reading_altitude r));
   ("headingDegrees", PyInt (reading_heading r)); ("groundSpeedCentimetresPerSecond", PyInt (reading_speed r))].

(** An empty source is as good as none. *)
Definition telemetry_record `{Normalization} (mission : string) (r : Reading) (s : TelemetryStamp) (producer_source : option string)
    : result record_failure (string * members) :=
  let source := match producer_source with
                | Some p => if bool_decide (p = "") then event_source (reading_drone r) else p
                | None => event_source (reading_drone r)
                end in
  '(d, _) ← built (telemetry_topic mission r) source s (telemetry_payload mission r);
  text ← map_err BadTopic (format_topic (telemetry_topic mission r));
  Ok (text, d).

(** ** Lifecycle edges *)

Record SalientObservation : Set := {
  observation : string; latitude_microdegrees : Z; longitude_microdegrees : Z; detail : string
}.

Definition CONNECTIVITY_PRODUCER : string := "connectivity-lifecycle".
Definition SECTOR_PRODUCER : string := "sector-lifecycle".
Definition SALIENT_PRODUCER : string := "salient".
Definition SOURCE_DIGEST_PROPERTY : string := "aerial-rescue-source-event-digest".
Definition SALIENT_OBSERVATION : string := "artifact-sighting".

(** The three calls of [FleetLifecyclePort]. *)
Inductive announcement : Set :=
| ConnectivityChanged (mission drone : string) (s : ConnectivityState)
| SectorChanged (mission sector member : string) (s : Sectors.SectorState)
| SalientObserved (mission drone : string) (o : SalientObservation).

(** [state.name] *)
Definition connectivity_name (s : ConnectivityState) : string :=
  match s with CONNECTED => "CONNECTED" | DEGRADED => "DEGRADED" | OFFLINE => "OFFLINE" end.
Definition sector_name (s : Sectors.SectorState) : string :=
  match s with
  | Sectors.UNASSIGNED => "UNASSIGNED" | Sectors.ASSIGNED => "ASSIGNED" | Sectors.AT_RISK => "AT_RISK"
  | Sectors.SEARCHED => "SEARCHED"
  end.

(** [_source] *)
Definition lifecycle_source (producer id : string) : string := "urn:aerial-rescue:" ++ producer ++ ":" ++ id.

Definition announced_topic (a : announcement) : Topic :=
  match a with
  | ConnectivityChanged m d _ =>
      {| family := DRONE_EVENT; Topics.mission_id := m; parameters := [("droneId", d); ("eventType", "connectivity-changed")] |}
  | SectorChanged m x _ _ =>
      {| family := SECTOR_EVENT; Topics.mission_id := m; parameters := [("sectorId", x); ("eventType", "lifecycle")] |}
  | SalientObserved m d _ =>
      {| family := DRONE_EVENT; Topics.mission_id := m; parameters := [("droneId", d); ("eventType", "salient")] |}
  end.

Definition announced_source (run : string) (a : announcement) : string :=
  match a with
  | ConnectivityChanged _ _ _ => lifecycle_source CONNECTIVITY_PRODUCER run
  | SectorChanged _ _ _ _ => lifecycle_source SECTOR_PRODUCER run
  | SalientObserved _ d _ => event_source d
  end.

(** The key of the counter the stamp is drawn from. *)
Definition announced_producer (a : announcement) : string :=
  match a with
  | ConnectivityChanged _ _ _ => CONNECTIVITY_PRODUCER
  | SectorChanged _ _ _ _ => SECTOR_PRODUCER
  | SalientObserved _ d _ => SALIENT_PRODUCER ++ "-" ++ d
  end.

Definition announced_payload (a : announcement) : members :=
  match a with
  | ConnectivityChanged m d s =>
      document [("missionId", PyStr m); ("droneId", PyStr d); ("connectivity", PyStr (connectivity_name s))]
  | SectorChanged m x member s =>
      document [("missionId", PyStr m); ("sectorId", PyStr x); ("state", PyStr (sector_name s)); ("assignedMemberId", PyStr member)]
  | SalientObserved m d o =>
      document [("missionId", PyStr m); ("droneId", PyStr d); ("observation", PyStr (observation o));
                ("latitudeMicrodegrees", PyInt (latitude_microdegrees o));
                ("longitudeMicrodegrees", PyInt (longitude_microdegrees o)); ("detail", PyStr (detail o))]
  end.

(** [_record] *)
Definition lifecycle_record `{Normalization} (t : Topic) (source : string) (s : TelemetryStamp) (payload : members)
    : result record_failure (string * string * Envelope) :=
  '(d, e) ← built t source s payload;
  text ← map_err BadTopic (format_topic t);
  bytes ← map_err Uncanonical (canonical_bytes (PyDict d));
  Ok (text, bytes, e).

(** What one call publishes: the topic, the bytes and the user properties. *)
Definition announced_record `{Normalization} (run : string) (s : TelemetryStamp) (a : announcement)
    : result record_failure (string * string * members) :=
  '(text, bytes, e) ← lifecycle_record (announced_topic a) (announced_source run a) s (announced_payload a);
  match a with
  | SalientObserved _ _ _ =>
      dg ← map_err Undigestible (source_event_digest e);
      Ok (text, bytes, document [(SOURCE_DIGEST_PROPERTY, PyStr dg)])
  | _ => Ok (text, bytes, [])
  end.

(** ** The port *)

Class LifecyclePort := {
  port_state : Type; port_error : Type;
  announce : announcement → port_state → option port_error * port_state
}.

(** [MessagePublisher.publish] *)
Class MessagePublisher := {
  outside : Type; messaging_error : Type;
  publish : string → string → members → outside → option messaging_error * outside
}.

(** [BrokerFleetLifecycle]: a stamp is drawn, the record built, and published; a record that
    cannot be built is the [inl] of its failure, and has used its stamp. *)
Definition broker_lifecycle `{Normalization} `{Supply} `{MessagePublisher} (run : string) : LifecyclePort := {|
  port_state := CountingStamps * outside;
  port_error := record_failure + messaging_error;
  announce := λ a st,
    let '(s, c) := next_stamp (announced_producer a) st.1 in
    match announced_record run s a with
    | Err e => (Some (inl e), (c, st.2))
    | Ok (text, bytes, properties) =>
        let '(o, w) := publish text bytes properties st.2 in (option_map inr o, (c, w))
    end
|}.

(** ** One tick's edges *)

Inductive transition_failure `{LifecyclePort} : Type :=
| Missing (e : fleet_failure)
| NoDrones
| PortFailed (e : port_error).

(** [_salient_observer] *)
Definition sector_least (d : DroneStart) (l : list DroneStart) : DroneStart :=
  foldl (λ m d, if decide (String.le (sector_id m) (sector_id d)) then m else d) d l.

Definition salient_observer (s : FleetScenario) : option string :=
  match merge_sort String.le (dict_keys (absent_heartbeats s)) with
  | d :: _ => Some d
  | [] => match drones s with [] => None | d :: l => Some (drone_id (sector_least d l)) end
  end.

(** ** Effects that survive an exception *)

Definition act (W E A : Type) : Type := W → result E A * W.

#[export] Instance act_ret {W E} : MRet (act W E) := λ A a w, (Ok a, w).
#[export] Instance act_bind {W E} : MBind (act W E) := λ A B f m w,
  match m w with (Ok a, w') => f a w' | (Err e, w') => (Err e, w') end.

Definition plainly {W E A} (m : result E A) : act W E A := λ w, (m, w).

(** A [for] loop over [l]. *)
Fixpoint each {W E A} (f : A → act W E unit) (l : list A) : act W E unit :=
  match l with [] => mret tt | a :: l => f a ;; each f l end.

Section act.
Context {W E : Type}.

Lemma act_run {A B} (m : act W E A) (f : A → act W E B) w :
  (m ≫= f) w = match m w with (Ok a, w') => f a w' | (Err e, w') => (Err e, w') end.
Proof. done. Qed.

Lemma each_app {A} (f : A → act W E unit) l k w : each f (l ++ k) w = (each f l ;; each f k) w.
Proof.
  revert w. induction l as [|a l IH]; intros w; [done|]. cbn [app each].
  rewrite !act_run. destruct (f a w) as [[[]|e] w']; [apply IH | done].
Qed.

(** A loop whose body does a computed list of things does the concatenation. *)
Lemma each_bind {A B} (f : A → act W E unit) (g : B → act W E unit) (h : A → list B) l w :
  (∀ a w, a ∈ l → f a w = each g (h a) w) → each f l w = each g (l ≫= h) w.
Proof.
  revert w. induction l as [|a l IH]; intros w Hf; [done|]. cbn [each mbind list_bind].
  rewrite each_app. rewrite !act_run. rewrite Hf by apply list_elem_of_here.
  destruct (each g (h a) w) as [[[]|e] w']; [|done]. apply IH. intros b v Hb. apply Hf. by apply list_elem_of_further.
Qed.
End act.

Section transitions.
Context `{LifecyclePort}.

(** What one call does to the port, and how it ends. *)
Abbreviation effectful := (act port_state transition_failure).

Definition tell (a : announcement) : effectful unit := λ w,
  let '(o, w') := announce a w in (match o with Some e => Err (PortFailed e) | None => Ok tt end, w').

Definition found_at {A} (m : list (string * A)) (k : string) : effectful A := plainly (map_err Missing (lookup_key m k)).

Definition sighting (sector : string) (p : DroneState) : SalientObservation := {|
  observation := SALIENT_OBSERVATION; latitude_microdegrees := latitude p;
  longitude_microdegrees := longitude p;
  detail := "A high-visibility artifact held across the sweep of " ++ sector ++ "."
|}.

Definition drone_edge (s : FleetScenario) (before after : FleetState) (d : DroneStart) : effectful unit :=
  previous ← found_at (fleet_drones before) (drone_id d);
  now ← found_at (fleet_drones after) (drone_id d);
  if decide (state (connectivity now) = state (connectivity previous)) then mret tt
  else tell (ConnectivityChanged (Scenario.mission_id s) (drone_id d) (state (connectivity now))).

Definition sector_edge (s : FleetScenario) (holders : list (string * string)) (observer : string)
    (before after : FleetState) (x : string) : effectful unit :=
  previous ← found_at (fleet_sectors before) x;
  now ← found_at (fleet_sectors after) x;
  if decide (sector_state now = sector_state previous) then mret tt else
  holder ← found_at holders x;
  tell (SectorChanged (Scenario.mission_id s) x holder (sector_state now)) ;;
  if decide (sector_state now = Sectors.SEARCHED ∧ holder = observer) then
    r ← found_at (fleet_drones after) observer;
    tell (SalientObserved (Scenario.mission_id s) observer (sighting x (physical r)))
  else mret tt.

(** With no lifecycle port there is nothing to publish to. *)
Definition publish_transitions (listening : bool) (s : FleetScenario) (before after : FleetState) : effectful unit :=
  if negb listening then mret tt else
  each (drone_edge s before after) (ordered_drones s) ;;
  let holders := dict_of_pairs ((λ d, (sector_id d, drone_id d)) <$> drones s) in
  observer ← plainly (or_raise (salient_observer s) NoDrones);
  each (sector_edge s holders observer before after) (merge_sort String.le (dict_keys (fleet_sectors after))).
End transitions.

(** ** The specification: the edges of the [n]th tick *)

Section edges.
Context (s : FleetScenario).

Definition connectivity_at (d : DroneStart) (n : nat) : ConnectivityState := state (link s d n).
Definition region_at (d : DroneStart) (n : nat) : Sectors.SectorState := sector_state (sector_at s d n).

Definition connectivity_edge (n : nat) (d : DroneStart) : list announcement :=
  if decide (connectivity_at d (S n) = connectivity_at d n) then []
  else [ConnectivityChanged (Scenario.mission_id s) (drone_id d) (connectivity_at d (S n))].

(** What the drone [d] reports of its own finished sector. *)
Definition reported (d : DroneStart) (n : nat) : announcement :=
  SalientObserved (Scenario.mission_id s) (drone_id d) (sighting (sector_id d) (flown d n)).

Definition region_edge (observer : string) (n : nat) (d : DroneStart) : list announcement :=
  if decide (region_at d (S n) = region_at d n) then [] else
  SectorChanged (Scenario.mission_id s) (sector_id d) (drone_id d) (region_at d (S n)) ::
  if decide (region_at d (S n) = Sectors.SEARCHED ∧ drone_id d = observer) then [reported d (S n)] else [].

Definition sector_le (d e : DroneStart) : Prop := String.le (sector_id d) (sector_id e).
Definition by_sector : list DroneStart := merge_sort sector_le (drones s).

Definition edges (observer : string) (n : nat) : list announcement :=
  (ordered_drones s ≫= connectivity_edge n) ++ (by_sector ≫= region_edge observer n).

(** Everything the first [n] ticks announce. *)
Definition announced (observer : string) (n : nat) : list announcement := seq 0 n ≫= edges observer.
End edges.

#[export] Instance sector_le_trans : Transitive sector_le.
Proof. intros a b c. unfold sector_le. by transitivity (sector_id b). Qed.
#[export] Instance sector_le_total : Total sector_le.
Proof. intros a b. unfold sector_le. apply (total String.le). Qed.

Lemma elem_of_by_sector s d : d ∈ by_sector s ↔ d ∈ drones s.
Proof. unfold by_sector. by rewrite merge_sort_Permutation. Qed.

(** Sorting the sectors' names is sorting their holders by them. *)
Lemma sorted_sectors (l : list DroneStart) :
  merge_sort String.le (sector_id <$> l) = sector_id <$> merge_sort sector_le l.
Proof.
  apply (StronglySorted_unique String.le).
  - apply StronglySorted_merge_sort; apply _.
  - assert (StronglySorted sector_le (merge_sort sector_le l)) as Hl by (apply StronglySorted_merge_sort; apply _).
    induction Hl as [|d k Hk IH Hd]; cbn; constructor; [done|]. by apply Forall_fmap.
  - by rewrite !merge_sort_Permutation.
Qed.

(** ** One tick announces exactly its edges *)

Section runs.
Context `{LifecyclePort}.

Lemma found_bind {A B} (m : list (string * A)) k a (f : A → act port_state transition_failure B) w :
  lookup_key m k = Ok a → (x ← found_at m k; f x) w = f a w.
Proof. intros Hm. rewrite act_run. unfold found_at, plainly. by rewrite Hm. Qed.

Section tick.
Context (s : FleetScenario) (Hs : accepted s).

Lemma observer_named : ∃ d, d ∈ drones s ∧ salient_observer s = Some (drone_id d).
Proof.
  unfold salient_observer. destruct (merge_sort String.le _) as [|k l] eqn:Hk.
  - destruct (accepted_roster s Hs) as [Hn _]. destruct (drones s) as [|d ds]; [done|].
    exists (sector_least d ds). split; [|done]. clear Hn Hk. unfold sector_least. revert d.
    induction ds as [|e ds IH]; intros d; cbn [foldl]; [apply list_elem_of_here|].
    case_decide; [specialize (IH d) | specialize (IH e)];
      apply elem_of_cons in IH as [->|IH]; rewrite !elem_of_cons; tauto.
  - assert (k ∈ dict_keys (absent_heartbeats s)) as Hin
      by (rewrite <- (merge_sort_Permutation String.le), Hk; apply list_elem_of_here).
    apply list_elem_of_fmap in Hin as ([id ticks]&->&Hin).
    apply (accepted_schedule s Hs) in Hin as [(d&->&Hd)%list_elem_of_fmap _]. by exists d.
Qed.

Lemma drone_edge_at n d w : d ∈ drones s →
  drone_edge s (fleet_at s n) (fleet_at s (S n)) d w = each tell (connectivity_edge s n d) w.
Proof.
  intros Hd. unfold drone_edge, connectivity_edge, connectivity_at.
  erewrite found_bind by by apply drone_lookup. erewrite found_bind by by apply drone_lookup.
  cbn [connectivity drone_at]. case_decide; [done|]. cbn [each]. rewrite act_run.
  by destruct (tell _ w) as [[[]|e] w'].
Qed.

Lemma holder_lookup d : d ∈ drones s →
  lookup_key (dict_of_pairs ((λ d, (sector_id d, drone_id d)) <$> drones s)) (sector_id d) = Ok (drone_id d).
Proof.
  intros Hd. unfold lookup_key. change ((λ d, (sector_id d, drone_id d)) <$> drones s) with (tabulate sector_id drone_id (drones s)).
  rewrite tabulate_of_pairs by by apply roster_sectors.
  by rewrite (tabulate_get sector_id drone_id) by (done || by apply roster_sectors).
Qed.

Lemma sector_edge_at n o d w : d ∈ drones s →
  sector_edge s (dict_of_pairs ((λ d, (sector_id d, drone_id d)) <$> drones s)) o (fleet_at s n) (fleet_at s (S n)) (sector_id d) w =
  each tell (region_edge s o n d) w.
Proof.
  intros Hd. unfold sector_edge, region_edge, region_at. cbn [fleet_at fleet_sectors].
  erewrite found_bind by by apply sector_lookup. erewrite found_bind by by apply sector_lookup.
  case_decide; [done|]. erewrite found_bind by by apply holder_lookup.
  cbn [each]. rewrite !act_run. destruct (tell _ w) as [[[]|e] w']; [|done].
  case_decide as Ho; [|done]. destruct Ho as [_ <-].
  erewrite (found_bind (fleet_drones (fleet_at s (S n))) (drone_id d)) by by apply drone_lookup.
  unfold reported. cbn [physical drone_at each]. rewrite act_run.
  by destruct (tell _ w') as [[[]|e] v].
Qed.

Lemma tick_edges o n w : salient_observer s = Some o →
  publish_transitions true s (fleet_at s n) (fleet_at s (S n)) w = each tell (edges s o n) w.
Proof.
  intros Ho. unfold publish_transitions, edges. cbn [negb]. rewrite each_app, Ho, !act_run.
  rewrite (each_bind _ tell (connectivity_edge s n)) by (intros d v Hd%elem_of_ordered; by apply drone_edge_at).
  destruct (each tell _ w) as [[[]|e] w']; [|done]. rewrite act_run.
  cbn [or_raise plainly fleet_at fleet_sectors].
  assert (dict_keys (tabulate sector_id (λ d, sector_at s d (S n)) (drones s)) = sector_id <$> drones s) as ->
    by apply tabulate_keys.
  rewrite sorted_sectors. fold (by_sector s).
  transitivity (each (λ d, sector_edge s (dict_of_pairs ((λ d, (sector_id d, drone_id d)) <$> drones s)) o
                             (fleet_at s n) (fleet_at s (S n)) (sector_id d)) (by_sector s) w').
  - generalize (by_sector s). intros l. revert w'. induction l as [|d l IH]; intros w'; [done|]. cbn [fmap list_fmap each].
    rewrite !act_run. destruct (sector_edge _ _ _ _ _ _ w') as [[[]|e] v]; [apply IH | done].
  - apply each_bind. intros d v Hd%elem_of_by_sector. by apply sector_edge_at.
Qed.
End tick.
End runs.

(** ** What was said of a drone, of a sector, and of the sighting *)

Definition connectivity_said (d : string) (a : announcement) : option ConnectivityState :=
  match a with ConnectivityChanged _ x c => if decide (x = d) then Some c else None | _ => None end.
Definition region_said (x : string) (a : announcement) : option Sectors.SectorState :=
  match a with SectorChanged _ y _ c => if decide (y = x) then Some c else None | _ => None end.
Definition sighted (a : announcement) : option (string * SalientObservation) :=
  match a with SalientObserved _ d o => Some (d, o) | _ => None end.

Lemma omap_bind {A B C} (f : B → option C) (g : A → list B) l : omap f (l ≫= g) = l ≫= λ a, omap f (g a).
Proof. induction l as [|a l IH]; [done|]. cbn [mbind list_bind]. by rewrite omap_app, IH. Qed.

Lemma bind_nothing {A B} (h : A → list B) l : (∀ a, a ∈ l → h a = []) → l ≫= h = [].
Proof.
  induction l as [|a l IH]; intros Hl; [done|]. cbn [mbind list_bind]. rewrite Hl by apply list_elem_of_here.
  apply IH. intros b Hb. apply Hl. by apply list_elem_of_further.
Qed.

(** Of a roster with distinct keys, one entry alone answers for its key. *)
Lemma bind_single {A B} (key : A → string) (h : A → list B) l a :
  NoDup (key <$> l) → a ∈ l → (∀ b, b ∈ l → key b ≠ key a → h b = []) → l ≫= h = h a.
Proof.
  induction l as [|b l IH]; [by intros _ ?%elem_of_nil|]. cbn [fmap list_fmap mbind list_bind].
  rewrite NoDup_cons. intros [Hb Hl] [->|Ha]%elem_of_cons Hn.
  - rewrite bind_nothing; [apply app_nil_r|]. intros c Hc. apply Hn; [by apply list_elem_of_further|].
    intros He. apply Hb. rewrite <- He. by apply list_elem_of_fmap_2.
  - rewrite Hn; [|apply list_elem_of_here|intros He; apply Hb; rewrite He; by apply list_elem_of_fmap_2].
    apply IH; [done..|]. intros c Hc. apply Hn. by apply list_elem_of_further.
Qed.

(** A list that gains its new value exactly when it changed ends in the current one. *)
Lemma last_follows {A B} `{EqDecision A} (f : nat → A) (initial : A) (log : nat → list B) (g : B → option A) n :
  f 0%nat = initial → omap g (log 0%nat) = [] →
  (∀ k, omap g (log (S k)) = (omap g (log k) ++ (if decide (f (S k) = f k) then [] else [f (S k)]))%list) →
  default initial (last (omap g (log n))) = f n.
Proof.
  intros H0 Hlog HS. induction n as [|n IH]; [by rewrite Hlog|]. rewrite HS. case_decide as Hk.
  - by rewrite app_nil_r, IH.
  - by rewrite last_snoc.
Qed.

Section history.
Context (s : FleetScenario) (Hs : accepted s) (o : string).

Lemma announced_S n : announced s o (S n) = (announced s o n ++ edges s o n)%list.
Proof. unfold announced. rewrite seq_S, bind_app. cbn. by rewrite app_nil_r. Qed.

Lemma by_sector_ids : NoDup (sector_id <$> by_sector s).
Proof. unfold by_sector. rewrite merge_sort_Permutation. by apply roster_sectors. Qed.

Lemma connectivity_said_edges d n : d ∈ drones s →
  omap (connectivity_said (drone_id d)) (edges s o n) =
  if decide (connectivity_at s d (S n) = connectivity_at s d n) then [] else [connectivity_at s d (S n)].
Proof.
  intros Hd. unfold edges. rewrite omap_app, !omap_bind.
  rewrite (bind_single drone_id _ (ordered_drones s) d); [|by apply ordered_ids|by apply elem_of_ordered|].
  - rewrite (bind_nothing _ (by_sector s)).
    + rewrite app_nil_r. unfold connectivity_edge. case_decide; [done|]. cbn. by rewrite decide_True.
    + intros e _. unfold region_edge. case_decide; [done|]. by case_decide.
  - intros e _ He. unfold connectivity_edge. case_decide; [done|]. cbn. by rewrite decide_False.
Qed.

Lemma region_said_edges d n : d ∈ drones s →
  omap (region_said (sector_id d)) (edges s o n) =
  if decide (region_at s d (S n) = region_at s d n) then [] else [region_at s d (S n)].
Proof.
  intros Hd. unfold edges. rewrite omap_app, !omap_bind. rewrite (bind_nothing _ (ordered_drones s)).
  - cbn [app]. rewrite (bind_single sector_id _ (by_sector s) d); [|apply by_sector_ids|by apply elem_of_by_sector|].
    + unfold region_edge. case_decide; [done|]. cbn. rewrite decide_True by done. by case_decide.
    + intros e _ He. unfold region_edge. case_decide; [done|]. cbn. rewrite decide_False by done. by case_decide.
  - intros e _. unfold connectivity_edge. by case_decide.
Qed.

Lemma sighted_edges d n : d ∈ drones s → o = drone_id d →
  omap sighted (edges s o n) =
  if decide (region_at s d (S n) ≠ region_at s d n ∧ region_at s d (S n) = Sectors.SEARCHED)
  then [(drone_id d, sighting (sector_id d) (flown d (S n)))] else [].
Proof.
  intros Hd ->. unfold edges. rewrite omap_app, !omap_bind. rewrite (bind_nothing _ (ordered_drones s)).
  - cbn [app]. rewrite (bind_single drone_id _ (by_sector s) d).
    + unfold region_edge. case_decide as Hc; [rewrite decide_False; [done|tauto]|]. cbn.
      case_decide as Hx; [rewrite decide_True; [done|tauto]|]. rewrite decide_False; [done|tauto].
    + unfold by_sector. rewrite merge_sort_Permutation. by apply roster_ids.
    + by apply elem_of_by_sector.
    + intros e _ He. unfold region_edge. case_decide; [done|]. cbn. rewrite decide_False; [done|tauto].
  - intros e _. unfold connectivity_edge. by case_decide.
Qed.

Lemma region_searched d n : region_at s d n = Sectors.SEARCHED ↔ searched s d n = true.
Proof.
  unfold region_at. destruct n as [|n]; cbn [sector_at].
  - by rewrite not_searched_0.
  - destruct (searched s d (S n)); [done|]. cbn. by destruct (offline s d (S n)).
Qed.

Lemma connectivity_follows d n : d ∈ drones s →
  default CONNECTED (last (omap (connectivity_said (drone_id d)) (announced s o n))) = connectivity_at s d n.
Proof.
  intros Hd. apply (last_follows (connectivity_at s d) CONNECTED (announced s o)); [done..|].
  intros k. by rewrite announced_S, omap_app, connectivity_said_edges.
Qed.

Lemma region_follows d n : d ∈ drones s →
  default Sectors.UNASSIGNED (last (omap (region_said (sector_id d)) (announced s o n))) = region_at s d n.
Proof.
  intros Hd. apply (last_follows (region_at s d) Sectors.UNASSIGNED (announced s o)); [done..|].
  intros k. by rewrite announced_S, omap_app, region_said_edges.
Qed.

(** The sighting is reported once, by the tick that finished the observer's sector. *)
Lemma sighted_once d n : d ∈ drones s → o = drone_id d →
  if searched s d n
  then ∃ k, (k < n)%nat ∧ searched s d k = false ∧ searched s d (S k) = true ∧
            omap sighted (announced s o n) = [(drone_id d, sighting (sector_id d) (flown d (S k)))]
  else omap sighted (announced s o n) = [].
Proof.
  intros Hd Ho. induction n as [|n IH]; [by rewrite not_searched_0|].
  rewrite announced_S, omap_app, (sighted_edges d n Hd Ho). destruct (searched s d n) eqn:Hn.
  - rewrite (searched_S s d n Hn). destruct IH as (k&Hk&H1&H2&->). exists k. split; [lia|]. split; [done|]. split; [done|].
    rewrite decide_False; [done|]. intros [Hne _]. apply Hne. transitivity Sectors.SEARCHED;
      [|symmetry]; apply region_searched; [by apply searched_S|done].
  - rewrite IH. destruct (searched s d (S n)) eqn:Hn'.
    + exists n. split; [lia|]. rewrite decide_True; [done|]. apply region_searched in Hn'. split; [|done].
      intros He. rewrite Hn' in He. symmetry in He. apply region_searched in He. congruence.
    + rewrite decide_False; [done|]. intros [_ He%region_searched]. congruence.
Qed.
End history.

(** ** Theorems *)

(** C29: one tick publishes exactly its edges.  Between the states before and after the [n]th
    tick of an accepted scenario no lookup fails: the port hears, in the drones' order, each
    link that changed, and then, in the sectors' order, each sector that changed, with its
    holder; the tick that finishes the observer's sector adds the sighting at the place the
    observer reached.  The first call the port refuses is the last one made. *)
Theorem transitions_announced `{LifecyclePort} (s : FleetScenario) (n : nat) (w : port_state) (Hs : accepted s) :
  ∃ d, d ∈ drones s ∧ salient_observer s = Some (drone_id d) ∧
    publish_transitions true s (fleet_at s n) (fleet_at s (S n)) w = each tell (edges s (drone_id d) n) w.
Proof.
  destruct (observer_named s Hs) as (d&Hd&Ho). exists d. split; [done|]. split; [done|]. by apply tick_edges.
Qed.

(** A port that takes every announcement down. *)
Definition listening : LifecyclePort :=
  {| port_state := list announcement; port_error := Empty_set; announce := λ a l, (None, (l ++ [a])%list) |}.

Lemma listening_hears l log : each (tell (H := listening)) l log = (Ok tt, (log ++ l)%list).
Proof.
  revert log. induction l as [|a l IH]; intros log; [by rewrite app_nil_r|]. cbn [each]. rewrite act_run.
  cbn. rewrite IH, <- app_assoc. done.
Qed.

Definition heard (s : FleetScenario) (n : nat) : result (transition_failure (H := listening)) unit * list announcement :=
  each (λ k, publish_transitions (H := listening) true s (fleet_at s k) (fleet_at s (S k))) (seq 0 n) [].

Lemma heard_announced s n o : accepted s → salient_observer s = Some o → heard s n = (Ok tt, announced s o n).
Proof.
  intros Hs Ho. unfold heard. rewrite (each_bind _ (tell (H := listening)) (edges s o));
    [apply listening_hears|]. intros k w _. by apply tick_edges.
Qed.

(** C16: who only listens knows the fleet.  After [n] ticks of an accepted scenario, the last
    connectivity heard of a drone is its link's, and the last state heard of a sector is the
    sector's, where nothing heard yet means the initial one; and the one sighting has been
    heard once if the observer's sector has been searched, by the tick that finished it and at
    the place it was finished from, and otherwise not at all. *)
Theorem fleet_announced (s : FleetScenario) (n : nat) (Hs : accepted s) :
  ∃ log, heard s n = (Ok tt, log) ∧
    (∀ d, d ∈ drones s →
       default CONNECTED (last (omap (connectivity_said (drone_id d)) log)) = state (link s d n) ∧
       default Sectors.UNASSIGNED (last (omap (region_said (sector_id d)) log)) = sector_state (sector_at s d n)) ∧
    ∃ d, d ∈ drones s ∧ salient_observer s = Some (drone_id d) ∧
      if searched s d n
      then ∃ k, (k < n)%nat ∧ searched s d k = false ∧ searched s d (S k) = true ∧
                omap sighted log = [(drone_id d, sighting (sector_id d) (flown d (S k)))]
      else omap sighted log = [].
Proof.
  destruct (observer_named s Hs) as (d&Hd&Ho). exists (announced s (drone_id d) n).
  split; [by apply heard_announced|]. split.
  - intros e He. split; [by apply connectivity_follows | by apply region_follows].
  - exists d. split; [done|]. split; [done|]. by apply sighted_once.
Qed.

(** ** Two drones, one of which falls silent *)

Lemma transitions_announced_witness : ∃ d, d ∈ roster_ab ∧
  publish_transitions (H := listening) true (sample_scenario roster_ab)
    (fleet_at (sample_scenario roster_ab) 3) (fleet_at (sample_scenario roster_ab) 4) [] =
  each (tell (H := listening)) (edges (sample_scenario roster_ab) (drone_id d) 3) [].
Proof.
  destruct (transitions_announced (H := listening) (sample_scenario roster_ab) 3 [] (sample_accepted _ (or_introl eq_refl)))
    as (d&Hd&_&He). by exists d.
Defined.

Lemma fleet_announced_witness : ∃ log,
  heard (sample_scenario roster_ab) 7 = (Ok tt, log) ∧ length (omap sighted log) = 1%nat ∧ length log = 9%nat.
Proof.
  destruct (fleet_announced (sample_scenario roster_ab) 7 (sample_accepted _ (or_introl eq_refl))) as (log&He&_).
  exists log. split; [done|]. assert (log = (heard (sample_scenario roster_ab) 7).2) as -> by by rewrite He.
  vm_compute. split; reflexivity.
Defined.
