(* ===== verification/FleetServe.v ===== *)
(** * The injected fleet runner

    [services/fleet_simulator/src/aerial_rescue_fleet_simulator/service.py]: [serve] folds ticks,
    publishes their readings and edges, drains each drone's queue and keeps time, until the run
    is stopped or the mission ends.  Everything outside the process (the broker session, the
    stamps, the clocks, the lifecycle port and the decision to go on) is [FleetSession], over
    one state; what leaves [serve] is a value of [serve_failure].  [serve_loop] takes fuel, and
    [serve_ends] says how much is enough. *)

From S2P Require Import Prelude PyStr PyVal Canonical Lifecycle Mission Sectors Idempotency Connectivity Commands Topics Envelope Ingress.
From S2P Require Import DroneCommand Scenario Flight Fleet FleetRecords.
From stdpp Require Import gmap.
Local Open Scope string_scope.
Local Open Scope Z_scope.

Inductive PublishOutcome : Set := PUBLISHED | UNRECORDABLE | REFUSED.
Inductive IntakeOutcome : Set :=
| HANDLED | REPLAYED | SUPERSEDED | UNREADABLE | UNANSWERABLE | RESULT_REFUSED | SETTLEMENT_REFUSED.
Inductive PaceOutcome : Set := ON_TIME | OVERRAN.

#[export] Instance PublishOutcome_eq_dec : EqDecision PublishOutcome.
Proof. solve_decision. Defined.
#[export] Instance IntakeOutcome_eq_dec : EqDecision IntakeOutcome.
Proof. solve_decision. Defined.
#[export] Instance PaceOutcome_eq_dec : EqDecision PaceOutcome.
Proof. solve_decision. Defined.

(** The broker's three settlements. *)
Inductive Settlement : Set := Settled | Returned | Discarded.

(** What the code reads of one delivery. *)
Record FleetMessage : Set := { message_body : option string; destination_name : option string }.

(** What one poll of a queue does. *)
Inductive polled (error : Type) : Type :=
| NoMessage
| Arrived (m : FleetMessage)
| Unsettled
| PollFailed (e : error).
Arguments NoMessage {error}.
Arguments Arrived {error} m.
Arguments Unsettled {error}.
Arguments PollFailed {error} e.

(** [FleetSessionPort], [StampSource], [Pacer] and [Runtime.running], over the state of the
    lifecycle port; every call may change it, also one that raises. *)
Class FleetSession `{LifecyclePort} := {
  transport_error : Type;
  draw_stamp : string → port_state → TelemetryStamp * port_state;
  draw_result_stamp : string → string → string → port_state → ResultStamp * port_state;
  send_telemetry : string → string → port_state → option transport_error * port_state;
  send_result : string → string → port_state → option transport_error * port_state;
  has_receiver : string → bool;
  poll : string → port_state → polled transport_error * port_state;
  settle : string → FleetMessage → Settlement → port_state → option transport_error * port_state;
  reject_unread : string → port_state → option transport_error * port_state;
  running : port_state → bool * port_state;
  now_milliseconds : port_state → Z * port_state;
  wait : Z → port_state → port_state
}.

Record Runtime : Set := {
  scenario : FleetScenario; send_budget : SendBudget; commands_per_drone_per_tick : Z;
  lifecycle_given : bool; command_intake_enabled : bool
}.

Record DroneInbox : Set := { stream : Stream; answered : gset string }.
Definition new_inbox : DroneInbox := {| stream := {| last_accepted := None |}; answered := ∅ |}.

(** [counted[outcome] = counted.get(outcome, 0) + 1] *)
Definition count {A} `{EqDecision A} (o : A) (l : list (A * Z)) : list (A * Z) :=
  dict_set l o (default 0 (dict_get l o) + 1).

(** Everything that leaves [serve] as an exception. *)
Inductive serve_failure `{FleetSession} : Type :=
| TickFailed (e : fleet_failure)
| TransitionsFailed (e : transition_failure)
| NotAscii
| RecordFailed (e : record_failure)
| ResultFailed (e : result_failure)
| IntakeFailed (e : intake_failure)
| ProtocolFailed (e : protocol_failure)
| CommandUncanonical (e : CanonicalizationError)
| NoReceiver (drone : string)
| Transport (e : transport_error).

(** The locals of [serve], and the world. *)
Record serving `{FleetSession} : Type := {
  fleet : FleetState; published : list (PublishOutcome * Z); intake : list (IntakeOutcome * Z);
  inboxes : list (string * DroneInbox); paced : list (PaceOutcome * Z); outside : port_state
}.

(** An action on a part of the state. *)
Definition zoom {V W E A} (get : W → V) (set : V → W → W) (m : act V E A) : act W E A :=
  λ w, let '(r, v) := m (get w) in (r, set v w).

Definition world {W E A} (f : W → A * W) : act W E A := λ w, let '(a, w) := f w in (Ok a, w).
Definition modify {W E} (f : W → W) : act W E unit := λ w, (Ok tt, f w).

Section serve.
Context `{N : Normalization} `{M : CommandModels} `{F : FleetSession} (limit : nat) (r : Runtime).
Let mission_id := Scenario.mission_id (scenario r).

(** ** Readings *)

(** [_publish] *)
Definition publish_reading (x : Reading) : act port_state serve_failure PublishOutcome :=
  s ← world (draw_stamp (reading_drone x));
  source ← plainly (or_raise (run_event_source (reading_drone x) mission_id) NotAscii);
  match telemetry_record mission_id x s (Some source) with
  | Err (RecordError _) => mret UNRECORDABLE
  | Err e => plainly (Err (RecordFailed e))
  | Ok (topic, d) =>
      bytes ← plainly (map_err (λ e, RecordFailed (Uncanonical e)) (canonical_bytes (PyDict d)));
      o ← world (send_telemetry topic bytes);
      mret match o with Some _ => REFUSED | None => PUBLISHED end
  end.

(** ** Commands *)

(** [_resolution] *)
Definition resolution (c : IncomingCommand) : CommandEvent :=
  match body c with
  | ASSIGN a => if decide (DroneCommand.sector_id a ∈ sectors (scenario r)) then SUCCEED else FAIL
  | ESCALATE _ => SUCCEED
  end.

(** [_report] *)
Definition report (drone : string) (c : IncomingCommand) (p : CommandProgress) : act port_state serve_failure unit :=
  stamp ← world (draw_result_stamp drone (DroneCommand.correlation_id c) (DroneCommand.event_id c));
  '(topic, d) ← plainly (map_err ResultFailed (result_record mission_id drone (DroneCommand.command_id c) (Commands.state p) stamp));
  bytes ← plainly (map_err CommandUncanonical (canonical_bytes (PyDict d)));
  o ← world (send_result topic bytes);
  plainly (match o with Some e => Err (Transport e) | None => Ok tt end).

(** [_answer] *)
Definition answer (drone : string) (c : IncomingCommand) : act port_state serve_failure unit :=
  let b := send_budget r in
  start ← plainly (map_err ProtocolFailed (received b));
  acknowledged ← plainly (map_err ProtocolFailed (apply_event start ACKNOWLEDGE b));
  report drone c acknowledged ;;
  resolved ← plainly (map_err ProtocolFailed (apply_event acknowledged (resolution c) b));
  report drone c resolved.

(** [_admit]: an outcome that needs no work, and the inbox it leaves. *)
Definition admit_command (i : DroneInbox) (c : IncomingCommand) : option IntakeOutcome * DroneInbox :=
  let reception := receive (stream i) (DroneCommand.sequence c) in
  if negb (bool_decide (verdict reception = ADVANCES)) then (Some SUPERSEDED, i) else
  let i := {| stream := Idempotency.stream reception; answered := answered i |} in
  match idempotency_decision COMMAND (bool_decide (DroneCommand.command_id c ∈ answered i)) with
  | EXECUTE => (None, i)
  | _ => (Some REPLAYED, i)
  end.

Abbreviation at_queue := (act (DroneInbox * port_state) serve_failure).

Definition in_world {A} (m : act port_state serve_failure A) : at_queue A := zoom snd (λ w s, (s.1, w)) m.

(** The [except] clauses of [_handle], over what [_answer] raises. *)
Definition answering (drone : string) (c : IncomingCommand) : at_queue (IntakeOutcome * Settlement) := λ s,
  match in_world (answer drone c) s with
  | (Ok _, (i, w)) => (Ok (HANDLED, Settled), ({| stream := stream i; answered := {[DroneCommand.command_id c]} ∪ answered i |}, w))
  | (Err (Transport _), s) => (Ok (RESULT_REFUSED, Returned), s)
  | (Err (ResultFailed (ResultError _) | ProtocolFailed (NOT_A_DRONE_EVENT _)), s) => (Ok (UNANSWERABLE, Discarded), s)
  | (Err e, s) => (Err e, s)
  end.

(** [_handle] *)
Definition handle (drone : string) (m : FleetMessage) : at_queue (IntakeOutcome * Settlement) := λ s,
  match accept limit (message_body m) (default "" (destination_name m)) drone mission_id with
  | Err (IntakeError _) => (Ok (UNREADABLE, Discarded), s)
  | Err e => (Err (IntakeFailed e), s)
  | Ok c =>
      match admit_command s.1 c with
      | (Some o, i) => (Ok (o, Settled), (i, s.2))
      | (None, i) => answering drone c (i, s.2)
      end
  end.

(** What one round of the drain's loop counts, or nothing when the queue is empty: a delivery
    the transport refused is rejected ([_refuse_delivery]), and an answered one settled ([_settle]). *)
Definition drain_once (drone : string) : at_queue (option IntakeOutcome) :=
  p ← in_world (world (poll drone));
  match p with
  | NoMessage => mret None
  | PollFailed e => plainly (Err (Transport e))
  | Unsettled =>
      o ← in_world (world (reject_unread drone));
      mret (Some match o with Some _ => SETTLEMENT_REFUSED | None => UNREADABLE end)
  | Arrived m =>
      '(outcome, settlement) ← handle drone m;
      o ← in_world (world (settle drone m settlement));
      mret (Some match o with Some _ => SETTLEMENT_REFUSED | None => outcome end)
  end.

Abbreviation at_drone := (act (DroneInbox * port_state * list (IntakeOutcome * Z)) serve_failure).

(** [_drain_drone]; [n] counts the rest of [range]. *)
Fixpoint drain (n : nat) (drone : string) : at_drone unit :=
  match n with
  | O => mret tt
  | S n =>
      o ← zoom fst (λ v s, (v, s.2)) (drain_once drone);
      match o with
      | None => mret tt
      | Some o => modify (λ s, (s.1, count o s.2)) ;; drain n drone
      end
  end.

Definition drain_drone (drone : string) : at_drone unit :=
  plainly (if has_receiver drone then Ok tt else Err (NoReceiver drone)) ;;
  drain (Z.to_nat (commands_per_drone_per_tick r)) drone.

(** ** The loop *)

Definition with_outside {A} (m : act port_state serve_failure A) : act serving serve_failure A :=
  zoom outside (λ w s, {| fleet := fleet s; published := published s; intake := intake s; inboxes := inboxes s;
                          paced := paced s; outside := w |}) m.

(** One drone of [_drain_fleet]: its inbox is the mapping's own object. *)
Definition drain_of (drone : string) : act serving serve_failure unit :=
  zoom (λ s, (default new_inbox (dict_get (inboxes s) drone), outside s, intake s))
    (λ v s, {| fleet := fleet s; published := published s; intake := v.2; inboxes := dict_set (inboxes s) drone v.1.1;
               paced := paced s; outside := v.1.2 |})
    (drain_drone drone).

(** [_drain_fleet] *)
Definition drain_fleet : act serving serve_failure unit := λ s, each drain_of (dict_keys (inboxes s)) s.

(** [_pace] *)
Definition pace (started : Z) : act port_state serve_failure PaceOutcome :=
  now ← world now_milliseconds;
  let remaining := tick_interval_milliseconds (scenario r) - (now - started) in
  if remaining <=? 0 then mret OVERRAN else modify (wait remaining) ;; mret ON_TIME.

Definition publish_one (x : Reading) : act serving serve_failure unit :=
  o ← with_outside (publish_reading x);
  modify (λ s, {| fleet := fleet s; published := count o (published s); intake := intake s; inboxes := inboxes s;
                  paced := paced s; outside := outside s |}).

(** The edges of the tick, through the lifecycle port. *)
Definition publish_lifecycle (before after : FleetState) : act port_state serve_failure unit := λ w,
  let '(o, w) := publish_transitions (lifecycle_given r) (scenario r) before after w in (map_err TransitionsFailed o, w).

(** The body of the [while]. *)
Definition serve_tick : act serving serve_failure unit :=
  started ← with_outside (world now_milliseconds);
  before ← (λ s, (Ok (fleet s), s));
  t ← plainly (map_err TickFailed (advance_tick (scenario r) before));
  modify (λ s, {| fleet := reached t; published := published s; intake := intake s; inboxes := inboxes s;
                  paced := paced s; outside := outside s |}) ;;
  each publish_one (readings t) ;;
  with_outside (publish_lifecycle before (reached t)) ;;
  (if command_intake_enabled r then drain_fleet else mret tt) ;;
  kept ← with_outside (pace started);
  modify (λ s, {| fleet := fleet s; published := published s; intake := intake s; inboxes := inboxes s;
                  paced := count kept (paced s); outside := outside s |}).

(** [serve]'s loop: nothing when the fuel runs out. *)
Fixpoint serve_loop (fuel : nat) (s : serving) : option (result serve_failure unit * serving) :=
  match fuel with
  | O => None
  | S fuel =>
      let '(go, w) := running (outside s) in
      let s := {| fleet := fleet s; published := published s; intake := intake s; inboxes := inboxes s;
                  paced := paced s; outside := w |} in
      if negb go || Mission.is_terminal (mission (fleet s)) then Some (Ok tt, s) else
      match serve_tick s with
      | (Ok _, s) => serve_loop fuel s
      | (Err e, s) => Some (Err e, s)
      end
  end.

Definition serving_from (w : port_state) : serving := {|
  fleet := initial_fleet (scenario r); published := []; intake := [];
  inboxes := if command_intake_enabled r
             then dict_of_pairs ((λ d, (drone_id d, new_inbox)) <$> ordered_drones (scenario r)) else [];
  paced := []; outside := w
|}.

(** [serve]: what [ServeReport] is built of is left in [serving]. *)
Definition serve (fuel : nat) (w : port_state) : option (result serve_failure unit * serving) :=
  serve_loop fuel (serving_from w).
End serve.

(** ** Reasoning about actions *)

Section act.
Context {W E : Type}.

(** Every exception of [m] is one of [P]. *)
Definition raises {A} (m : act W E A) (P : E → Prop) : Prop := ∀ w e w', m w = (Err e, w') → P e.

(** What [m] leaves when it returns. *)
Definition leaves {A} (m : act W E A) (R : W → W → Prop) : Prop := ∀ w a w', m w = (Ok a, w') → R w w'.

Lemma raises_bind {A B} (m : act W E A) (f : A → act W E B) P :
  raises m P → (∀ a, raises (f a) P) → raises (m ≫= f) P.
Proof.
  intros Hm Hf w e w'. rewrite act_run. destruct (m w) as [[a|x] v] eqn:Hw; [apply Hf|].
  intros [= <- <-]. by eapply Hm.
Qed.

Lemma leaves_bind {A B} (m : act W E A) (f : A → act W E B) R `{!Transitive R} :
  leaves m R → (∀ a, leaves (f a) R) → leaves (m ≫= f) R.
Proof.
  intros Hm Hf w b w'. rewrite act_run. destruct (m w) as [[a|x] v] eqn:Hw; [|done].
  intros Hb. transitivity v; [by eapply Hm|by eapply Hf].
Qed.

Lemma raises_ret {A} (a : A) P : raises (mret a : act W E A) P.
Proof. by intros w e w' [=]. Qed.
Lemma raises_world {A} (f : W → A * W) P : raises (world f : act W E A) P.
Proof. intros w e w'. unfold world. destruct (f w). by intros [=]. Qed.
Lemma raises_modify (f : W → W) P : raises (modify f : act W E unit) P.
Proof. by intros w e w' [=]. Qed.
Lemma raises_plainly {A} (m : result E A) (P : E → Prop) : (∀ e, m = Err e → P e) → raises (plainly m : act W E A) P.
Proof. intros Hm w e w' [= H1 H2]. by apply Hm. Qed.
Lemma raises_each {A} (f : A → act W E unit) l P : (∀ a, raises (f a) P) → raises (each f l) P.
Proof. intros Hf. induction l as [|a l IH]; [apply raises_ret|]. by apply raises_bind. Qed.
Lemma act_Ok {A B} (m : act W E A) (f : A → act W E B) w b w' :
  (m ≫= f) w = (Ok b, w') → ∃ a v, m w = (Ok a, v) ∧ f a v = (Ok b, w').
Proof. rewrite act_run. destruct (m w) as [[a|x] v]; [|done]. intros Hb. by exists a, v. Qed.
End act.

Lemma raises_zoom {V W E A} (get : W → V) set (m : act V E A) P : raises m P → raises (zoom get set m) P.
Proof. intros Hm w e w'. unfold zoom. destruct (m (get w)) as [x v] eqn:Hw. intros [= -> _]. by eapply Hm. Qed.
Lemma zoom_Ok {V W E A} (get : W → V) set (m : act V E A) w a w' :
  zoom get set m w = (Ok a, w') → ∃ v, m (get w) = (Ok a, v) ∧ w' = set v w.
Proof. unfold zoom. destruct (m (get w)) as [x v]. intros [= -> <-]. by exists v. Qed.

#[export] Hint Resolve raises_bind raises_ret raises_world raises_modify raises_each raises_zoom : rescue.

(** ** What is counted *)

Definition counted {A} (l : list (A * Z)) : Z := foldr Z.add 0 l.*2.

Lemma counted_count {A} `{EqDecision A} (o : A) l : counted (count o l) = counted l + 1.
Proof.
  unfold counted, count. induction l as [|[k n] l IH]; [done|]. cbn [dict_get dict_set]. case_decide; cbn; [lia|].
  cbn in IH. lia.
Qed.

Section queue.
Context `{N : Normalization} `{M : CommandModels} `{F : FleetSession} (limit : nat) (r : Runtime) (drone : string).

(** ** One message *)

(** The message carries this command for this drone. *)
Definition carries (m : FleetMessage) (c : IncomingCommand) : Prop :=
  accept limit (message_body m) (default "" (destination_name m)) drone (Scenario.mission_id (scenario r)) = Ok c.

(** Some message left the inbox so, whatever the world was. *)
Definition inbox_step (i i' : DroneInbox) : Prop :=
  ∃ m w o w', handle limit r drone m (i, w) = (o, (i', w')).

Definition inbox_kept (i i' : DroneInbox) : Prop :=
  forward (last_accepted (stream i)) (last_accepted (stream i')) ∧ answered i ⊆ answered i'.

Lemma inbox_kept_refl i : inbox_kept i i.
Proof. split; [by destruct (last_accepted _); cbn; [lia|]|done]. Qed.
Lemma inbox_kept_trans i j k : inbox_kept i j → inbox_kept j k → inbox_kept i k.
Proof. intros [H1 H2] [H3 H4]. split; [by etransitivity|set_solver]. Qed.

Lemma receive_forward st n : forward (last_accepted st) (last_accepted (Idempotency.stream (receive st n))).
Proof.
  unfold receive. destruct (last_accepted st) as [k|] eqn:Hk; [|done]. destruct (k <? n) eqn:Hn; bools; cbn; [lia|].
  destruct (n =? k); cbn; rewrite Hk; cbn; lia.
Qed.

(** What an answered command leaves: a result only its own report decides. *)
Lemma answering_inbox c i w o i' w' :
  answering r drone c (i, w) = (o, (i', w')) →
  stream i' = stream i ∧ answered i ⊆ answered i' ∧
  (∀ x, o = Ok x → x.1 = HANDLED →
     x.2 = Settled ∧ answer r drone c w = (Ok tt, w') ∧ answered i' = {[DroneCommand.command_id c]} ∪ answered i).
Proof.
  unfold answering, in_world, zoom. cbn [snd fst]. destruct (answer r drone c w) as [[[]|e] v].
  - intros [= <- <- <-]. cbn. split; [done|]. split; [set_solver|]. by intros x [= <-].
  - assert (∀ y, (y, (i, v)) = (o, (i', w')) → (∀ x, y = Ok x → x.1 ≠ HANDLED) →
      stream i' = stream i ∧ answered i ⊆ answered i' ∧ (∀ x, o = Ok x → x.1 = HANDLED →
        x.2 = Settled ∧ (Err e, v) = (Ok tt, w') ∧ answered i' = {[DroneCommand.command_id c]} ∪ answered i)) as Hy.
    { intros y [= <- <- <-] Hne. split; [done|]. split; [done|]. intros x Hx Hh. by destruct (Hne x Hx). }
    destruct e as [| | | |[]| |[]| | |]; intros Hr; (eapply Hy; [exact Hr|]); first [by intros ? [= <-] | by intros ? [=]].
Qed.

Lemma admit_kept i c : inbox_kept i (admit_command i c).2.
Proof.
  unfold admit_command. destruct (negb _); [apply inbox_kept_refl|].
  destruct (idempotency_decision _ _); (split; [apply receive_forward|done]).
Qed.

Lemma handle_kept i i' : inbox_step i i' → inbox_kept i i'.
Proof.
  intros (m&w&o&w'&Hh). revert Hh. unfold handle. cbn [fst snd].
  destruct (accept _ _ _ _ _) as [c|[]]; try (by intros [= _ <- _]; apply inbox_kept_refl).
  pose proof (admit_kept i c) as Hk. destruct (admit_command i c) as [[x|] j]; cbn [snd] in Hk.
  - by intros [= _ <- _].
  - intros (Hs&Ha&_)%answering_inbox. eapply inbox_kept_trans; [exact Hk|]. split; [|done]. rewrite Hs.
    by destruct (last_accepted _); cbn; [lia|].
Qed.

Lemma reaches_kept i i' : reaches inbox_step i i' → inbox_kept i i'.
Proof.
  induction 1 as [i|i j k Hij _ IH]; [apply inbox_kept_refl|].
  eapply inbox_kept_trans; [by apply handle_kept|done].
Qed.

(** The command got past the admission. *)
Lemma admit_executes i c j :
  admit_command i c = (None, j) →
  last_accepted (stream j) = Some (DroneCommand.sequence c) ∧ (DroneCommand.command_id c ∉ answered i) ∧ answered j = answered i.
Proof.
  unfold admit_command. case_bool_decide as Hv; [|done]. cbn [negb].
  assert (last_accepted (Idempotency.stream (receive (stream i) (DroneCommand.sequence c))) = Some (DroneCommand.sequence c)) as Hl.
  { revert Hv. unfold receive. destruct (last_accepted _); [|done]. destruct (_ <? _); [done|]. by destruct (_ =? _). }
  unfold idempotency_decision. cbn [answered]. case_bool_decide as Hin; [done|]. by intros [= <-].
Qed.

(** A sequence the queue has seen is superseded, and a known command replayed. *)
Lemma superseded i c w m :
  carries m c → forward (Some (DroneCommand.sequence c)) (last_accepted (stream i)) →
  handle limit r drone m (i, w) = (Ok (SUPERSEDED, Settled), (i, w)).
Proof.
  unfold carries, handle. intros -> Hf. unfold admit_command, receive. cbn [fst snd].
  destruct (last_accepted (stream i)) as [k|]; [|done]. cbn in Hf.
  destruct (Z.ltb_spec k (DroneCommand.sequence c)); [lia|]. by destruct (_ =? _).
Qed.

Lemma known_command i c w m :
  carries m c → DroneCommand.command_id c ∈ answered i →
  ∃ o i', handle limit r drone m (i, w) = (Ok (o, Settled), (i', w)) ∧ (o = REPLAYED ∨ o = SUPERSEDED).
Proof.
  unfold carries, handle. intros -> Hin. unfold admit_command. cbn [fst snd].
  destruct (negb _); [by eauto|]. cbn [answered]. rewrite bool_decide_eq_true_2 by done. by eauto.
Qed.

(** ** The two reports *)

(** One report reached the broker: under a stamp drawn for it, the canonical bytes of the result that
    tells this state of the command, handed to the session on the command's result topic and taken. *)
Definition reported (c : IncomingCommand) (s : CommandState) (w w' : port_state) : Prop :=
  ∃ stamp v word declared schema rendered topic bytes,
    draw_result_stamp drone (DroneCommand.correlation_id c) (DroneCommand.event_id c) w = (stamp, v) ∧
    dict_get OUTCOMES s = Some word ∧
    format_topic (DroneCommand.result_topic (Scenario.mission_id (scenario r)) drone (DroneCommand.command_id c)) = Ok topic ∧
    canonical_bytes (PyDict (envelope_document (DroneCommand.result_envelope (Scenario.mission_id (scenario r)) drone
      (DroneCommand.command_id c) word stamp declared schema rendered))) = Ok bytes ∧
    send_result topic bytes v = (None, w').

(** What the drone makes of a command: a sector it has been given must be one of the scenario's. *)
Definition final_state (c : IncomingCommand) : CommandState :=
  match body c with
  | ASSIGN a => if decide (DroneCommand.sector_id a ∈ sectors (scenario r)) then SUCCEEDED else FAILED
  | ESCALATE _ => SUCCEEDED
  end.

Lemma report_published c p w u w' : report r drone c p w = (Ok u, w') → reported c (Commands.state p) w w'.
Proof.
  unfold report. intros Hr. apply act_Ok in Hr as (stamp&v&Hs&Hr). unfold world in Hs.
  destruct (draw_result_stamp _ _ _ w) as [stamp' v'] eqn:Hd. injection Hs as -> ->.
  apply act_Ok in Hr as ([topic d]&v1&[= Hrec%map_err_Ok <-]&Hr).
  apply act_Ok in Hr as (bytes&v1&[= Hb%map_err_Ok <-]&Hr). apply act_Ok in Hr as (o&v1&Hsend&Hr).
  unfold world in Hsend. destruct (send_result topic bytes v) as [o' v2] eqn:Hs2. injection Hsend as -> ->.
  destruct o; [done|]. injection Hr as _ <-. unfold result_record in Hrec.
  apply bind_Ok in Hrec as (word&Hword%or_raise_Ok&Hrec). apply bind_Ok in Hrec as (rendered&_&Hrec).
  apply bind_Ok in Hrec as (declared&_&Hrec). apply bind_Ok in Hrec as (b&_&Hrec).
  apply bind_Ok in Hrec as ([]&_&Hrec). apply bind_Ok in Hrec as (text&Htext%map_err_Ok&Hrec).
  injection Hrec as <- <-. by exists stamp, v, word, declared, (bound_schema b), rendered, text, bytes.
Qed.

Lemma event_moves p e b q : apply_event p e b = Ok q → e ≠ TIME_OUT → lc_get (Commands.state p) e = Some (Commands.state q).
Proof.
  unfold apply_event. intros (u&_&Hq)%bind_Ok Hne. apply map_err_Ok in Hq. unfold Commands.advance in Hq.
  destruct (lc_get _ _) as [t|]; [|done]. destruct (decide (e = SEND)); [by injection Hq as <-|].
  rewrite (bool_decide_eq_false_2 (e = TIME_OUT)) in Hq by done. by injection Hq as <-.
Qed.

(** An answer that returns has published both reports, the acknowledgement first. *)
Lemma answer_reports c w u w' :
  answer r drone c w = (Ok u, w') → ∃ v, reported c ACKNOWLEDGED w v ∧ reported c (final_state c) v w'.
Proof.
  unfold answer. intros Ha. apply act_Ok in Ha as (start&v1&[= Hstart <-]&Ha).
  apply act_Ok in Ha as (ack&v1&[= Hack%map_err_Ok <-]&Ha). apply act_Ok in Ha as ([]&v&H1&Ha).
  apply act_Ok in Ha as (last&v2&[= Hlast%map_err_Ok <-]&Ha).
  subst start.
  apply event_moves in Hack; [|done]. cbn in Hack. injection Hack as Hack.
  assert (Hres : resolution r c ≠ TIME_OUT ∧ lc_get ACKNOWLEDGED (resolution r c) = Some (final_state c)).
  { unfold resolution, final_state. destruct (body c); [case_decide|]; done. }
  destruct Hres as [Hne Hres]. apply event_moves in Hlast; [|done]. rewrite <- Hack, Hres in Hlast. injection Hlast as Hlast.
  exists v. rewrite Hack, Hlast. split; by eapply report_published.
Qed.

(** C28: a command is answered once, and settled only after its answer.  A message handled is
    accepted and its command was unknown to the queue.  Both of its reports were published, the
    acknowledgement and then the final state (failed for a sector that is not the scenario's,
    succeeded otherwise): each drew its stamp, handed the session the canonical bytes of its result
    on the command's result topic, and was taken.  A poll that brings the message asks its settlement
    of the world those reports have left; and whatever the queue receives afterwards, every later
    message with that command's identifier is accepted without a report. *)
Theorem command_answered_once m i w x i' w' :
  handle limit r drone m (i, w) = (Ok (HANDLED, x), (i', w')) →
  x = Settled ∧ ∃ c, carries m c ∧ (DroneCommand.command_id c ∉ answered i) ∧
  (∃ v, reported c ACKNOWLEDGED w v ∧ reported c (final_state c) v w') ∧
  (∀ w0, poll drone w0 = (Arrived m, w) →
     (drain_once limit r drone (i, w0)).2 = (i', (settle drone m Settled w').2)) ∧
  ∀ j m' c' w1, reaches inbox_step i' j → carries m' c' → DroneCommand.command_id c' = DroneCommand.command_id c →
    ∃ o k, handle limit r drone m' (j, w1) = (Ok (o, Settled), (k, w1)) ∧ (o = REPLAYED ∨ o = SUPERSEDED).
Proof.
  intros Hh. pose proof Hh as Hhandle. unfold handle in Hh. cbn [fst snd] in Hh.
  destruct (accept _ _ _ _ _) as [c|[]] eqn:Hc; try done.
  destruct (admit_command i c) as [[o|] k] eqn:Ha.
  { exfalso. injection Hh as -> _ _ _. revert Ha. unfold admit_command. destruct (negb _); [done|].
    by destruct (idempotency_decision _ _). }
  apply admit_executes in Ha as (_&Hn&_). apply answering_inbox in Hh as (_&_&Hx).
  destruct (Hx _ eq_refl eq_refl) as (Hs&Hans&Hset). cbn [snd] in Hs. split; [done|]. exists c. split; [done|]. split; [done|].
  split; [by eapply answer_reports|]. split.
  - intros w0 Hp. subst x. unfold drain_once, in_world. rewrite act_run. unfold zoom at 1, world at 1. cbn [fst snd].
    rewrite Hp, act_run, Hhandle, act_run. unfold zoom, world. cbn [fst snd]. by destruct (settle drone m Settled w').
  - intros j m' c' w1 Hr Hc' He. apply (known_command j c' w1 m' Hc'). rewrite He. apply reaches_kept in Hr as [_ Hr].
    apply Hr. rewrite Hset. set_solver.
Qed.

(** C27: a refused result is never sent again.  A message whose report the transport refuses is
    returned to its queue for redelivery, but its sequence was recorded before the answer was
    tried: whatever the queue receives in between, the redelivery is judged superseded, settled
    as accepted, and nothing is published. *)
Theorem refused_result_lost m i w x i' w' :
  handle limit r drone m (i, w) = (Ok (RESULT_REFUSED, x), (i', w')) →
  x = Returned ∧ ∀ j w1, reaches inbox_step i' j →
    handle limit r drone m (j, w1) = (Ok (SUPERSEDED, Settled), (j, w1)).
Proof.
  intros Hh. unfold handle in Hh. cbn [fst snd] in Hh. destruct (accept _ _ _ _ _) as [c|[]] eqn:Hc; try done.
  destruct (admit_command i c) as [[o|] k] eqn:Ha.
  { exfalso. injection Hh as -> _ _ _. revert Ha. unfold admit_command. destruct (negb _); [done|].
    by destruct (idempotency_decision _ _). }
  apply admit_executes in Ha as (Hl&_&_). pose proof (answering_inbox _ _ _ _ _ _ Hh) as (Hs&_&_). split.
  - unfold answering in Hh. destruct (in_world _ _) as [[[]|[| | | |[]| |[]| | |]] [? ?]]; try done; by injection Hh.
  - intros j w1 Hr. apply (superseded j c w1 m Hc). apply reaches_kept in Hr as [Hr _]. by rewrite <- Hl, <- Hs.
Qed.
End queue.

(** ** The run *)

Section run.
Context `{N : Normalization} `{M : CommandModels} `{F : FleetSession} (limit : nat) (r : Runtime).

(** Not the fold's exceptions, nor the publisher's of transitions. *)
Definition edge_free (e : serve_failure) : Prop :=
  match e with TickFailed _ | TransitionsFailed _ => False | _ => True end.

Ltac safe := repeat first
  [ apply raises_bind; [|intros ?] | apply raises_ret | apply raises_world | apply raises_modify
  | apply raises_zoom | progress case_match | apply raises_plainly; intros ? ?; simplify_eq; done ].

Lemma publish_reading_raises x : raises (publish_reading r x) edge_free.
Proof.
  unfold publish_reading. safe; apply raises_plainly.
  - intros e. destruct (run_event_source _ _); [done|]. by intros [= <-].
  - intros e. destruct (canonical_bytes _); [done|]. by intros [= <-].
Qed.

Lemma report_raises drone c p : raises (report r drone c p) edge_free.
Proof.
  unfold report. safe; apply raises_plainly.
  - intros e. destruct (result_record _ _ _ _ _); [done|]. by intros [= <-].
  - intros e. destruct (canonical_bytes _); [done|]. by intros [= <-].
Qed.

Lemma answer_raises drone c : raises (answer r drone c) edge_free.
Proof.
  unfold answer. apply raises_bind; [apply raises_plainly; intros e; destruct (received _); [done|]; by intros [= <-]|].
  intros b. apply raises_bind; [apply raises_plainly; intros e; destruct (apply_event _ _ _); [done|]; by intros [= <-]|].
  intros p. apply raises_bind; [apply report_raises|]. intros _.
  apply raises_bind; [apply raises_plainly; intros e; destruct (apply_event _ _ _); [done|]; by intros [= <-]|].
  intros q. apply report_raises.
Qed.

Lemma queue_handle_raises drone m : raises (handle limit r drone m) edge_free.
Proof.
  intros [i w] e [i' w']. unfold handle. cbn [fst snd].
  destruct (accept _ _ _ _ _) as [c|[]]; try (by intros [= <-]); try done.
  destruct (admit_command i c) as [[o|] j]; [done|]. unfold answering, in_world, zoom. cbn [fst snd].
  destruct (answer r drone c w) as [[[]|x] v] eqn:Ha; [done|]. apply answer_raises in Ha.
  destruct x as [| | | |[]| |[]| | |]; intros [=]; by subst.
Qed.

Lemma drain_raises n drone : raises (drain limit r n drone) edge_free.
Proof.
  induction n as [|n IH]; cbn [drain]; [apply raises_ret|]. apply raises_bind.
  - apply raises_zoom. unfold drain_once, in_world. apply raises_bind; [apply raises_zoom, raises_world|].
    intros [|m| |e]; safe; apply queue_handle_raises.
  - intros [o|]; [|apply raises_ret]. apply raises_bind; [apply raises_modify|]. intros _. apply IH.
Qed.

Lemma drain_fleet_raises : raises (drain_fleet limit r) edge_free.
Proof.
  intros s e s'. unfold drain_fleet. apply (raises_each (drain_of limit r) (dict_keys (inboxes s)) edge_free).
  intros d. unfold drain_of, drain_drone. apply raises_zoom. apply raises_bind; [|intros _; apply drain_raises].
  apply raises_plainly. intros x. destruct (has_receiver d); [done|]. by intros [= <-].
Qed.

(** ** What one tick counts *)

Lemma drain_counts n drone s a s' :
  drain limit r n drone s = (Ok a, s') → counted s.2 ≤ counted s'.2 ≤ counted s.2 + Z.of_nat n.
Proof.
  revert s. induction n as [|n IH]; intros s; cbn [drain]; [intros [= _ <-]; lia|].
  intros (o&v&Hz&Hd)%act_Ok. apply zoom_Ok in Hz as (u&_&->). destruct o as [o|]; [|injection Hd as _ <-; cbn [snd]; lia].
  apply act_Ok in Hd as ([]&t&[= <-]&Hd). apply IH in Hd. cbn [snd fst] in Hd. rewrite counted_count in Hd. lia.
Qed.

(** What a part of the tick may do to the rest of the locals. *)
Definition drained (k : Z) (s s' : serving) : Prop :=
  fleet s' = fleet s ∧ published s' = published s ∧ paced s' = paced s ∧
  dict_keys (inboxes s') = dict_keys (inboxes s) ∧ counted (intake s) ≤ counted (intake s') ≤ counted (intake s) + k.

Lemma drained_refl k s : 0 ≤ k → drained k s s.
Proof. intros Hk. split; [done|]. split; [done|]. split; [done|]. split; [done|]. lia. Qed.

Lemma drain_of_counts drone s a s' : drone ∈ dict_keys (inboxes s) → drain_of limit r drone s = (Ok a, s') →
  drained (0 `max` commands_per_drone_per_tick r) s s'.
Proof.
  intros Hin (v&Hd&->)%zoom_Ok. unfold drain_drone in Hd. apply act_Ok in Hd as ([]&t&[= _ <-]&Hd).
  apply drain_counts in Hd. cbn [snd] in Hd. split; [done|]. split; [done|]. split; [done|]. cbn [inboxes intake].
  split; [rewrite dict_set_keys; by rewrite decide_True|lia].
Qed.

Lemma drain_fleet_counts s a s' : drain_fleet limit r s = (Ok a, s') →
  drained (Z.of_nat (length (inboxes s)) * (0 `max` commands_per_drone_per_tick r)) s s'.
Proof.
  unfold drain_fleet. replace (length (inboxes s)) with (length (dict_keys (inboxes s))) by apply length_fmap.
  assert (Hsub : dict_keys (inboxes s) ⊆ dict_keys (inboxes s)) by done. revert Hsub.
  generalize (dict_keys (inboxes s)) at 1 3 4. intros l. revert s.
  induction l as [|d l IH]; intros s Hsub; cbn [each length]; [intros [= _ <-]; apply drained_refl; lia|].
  intros ([]&t&Hd&Hl)%act_Ok. apply drain_of_counts in Hd as (H1&H2&H3&H4&H5); [|apply Hsub, list_elem_of_here].
  apply IH in Hl as (J1&J2&J3&J4&J5); [|rewrite H4; intros x Hx; by apply Hsub, list_elem_of_further].
  split; [congruence|]. split; [congruence|]. split; [congruence|]. split; [congruence|]. lia.
Qed.

Lemma publish_counts l s a s' : each (publish_one r) l s = (Ok a, s') →
  fleet s' = fleet s ∧ intake s' = intake s ∧ paced s' = paced s ∧ inboxes s' = inboxes s ∧
  counted (published s') = counted (published s) + Z.of_nat (length l).
Proof.
  revert s. induction l as [|x l IH]; intros s; cbn [each length]; [intros [= _ <-]; repeat split; lia|].
  intros ([]&t&Hp&Hl)%act_Ok. unfold publish_one in Hp. apply act_Ok in Hp as (o&u&Hz&[= <-]).
  apply zoom_Ok in Hz as (v&_&->). apply IH in Hl as (H1&H2&H3&H4&H5). cbn [fleet published intake inboxes paced outside] in *. repeat split; try done.
  rewrite H5, counted_count. lia.
Qed.

Context (Hs : accepted (scenario r)).

Lemma terminal_at n : Mission.is_terminal (mission_at (scenario r) n) = bool_decide (mission_at (scenario r) n = Mission.EXHAUSTED).
Proof. destruct n as [|n]; [done|]. cbn. by destruct (all_searched _ _). Qed.

Lemma readings_length n : length (readings_at (scenario r) n) = length (drones (scenario r)).
Proof. unfold readings_at. rewrite length_fmap. by rewrite (ordered_Permutation (scenario r)). Qed.

(** A tick that returns moves the fleet on by one, and counts each reading and its own pace. *)
Lemma serve_tick_Ok n s s' : fleet s = fleet_at (scenario r) n → serve_tick limit r s = (Ok tt, s') →
  mission_at (scenario r) n ≠ Mission.EXHAUSTED ∧ fleet s' = fleet_at (scenario r) (S n) ∧
  counted (published s') = counted (published s) + Z.of_nat (length (drones (scenario r))) ∧
  counted (paced s') = counted (paced s) + 1 ∧ dict_keys (inboxes s') = dict_keys (inboxes s) ∧
  counted (intake s) ≤ counted (intake s') ≤
    counted (intake s) + Z.of_nat (length (inboxes s)) * (0 `max` commands_per_drone_per_tick r).
Proof.
  intros Hf. unfold serve_tick. intros (st&s1&Hnow&Hq)%act_Ok. apply zoom_Ok in Hnow as (w1&_&->).
  apply act_Ok in Hq as (b&s2&Hb&Hq). injection Hb as <- <-. apply act_Ok in Hq as (t&s3&Ht&Hq). cbn [fleet] in Ht.
  unfold plainly in Ht. rewrite Hf in Ht. destruct (advance_tick _ _) as [t'|e] eqn:Ha; [|done].
  injection Ht as <- <-. rewrite advance_at in Ha by done. case_bool_decide as He; [done|].
  destruct (stray _ n); [done|]. injection Ha as <-. apply act_Ok in Hq as ([]&s4&[= <-]&Hq). cbn [reached readings] in Hq.
  apply act_Ok in Hq as ([]&s5&(H1&H2&H3&H4&H5)%publish_counts&Hq). cbn [fleet published intake inboxes paced outside] in H1, H2, H3, H4, H5.
  apply act_Ok in Hq as ([]&s6&(w6&_&->)%zoom_Ok&Hq). apply act_Ok in Hq as ([]&s7&Hd&Hq).
  assert (Hdr : drained (Z.of_nat (length (inboxes s)) * (0 `max` commands_per_drone_per_tick r))
                  s5 s7).
  { destruct (command_intake_enabled r).
    - apply drain_fleet_counts in Hd. rewrite <- H4. exact Hd.
    - injection Hd as <-. unfold drained. cbn [fleet published intake inboxes paced]. split_and!; done || lia. }
  apply act_Ok in Hq as (k&s8&(w8&_&->)%zoom_Ok&[= <-]). cbn [fleet published intake inboxes paced outside]. destruct Hdr as (D1&D2&D3&D4&D5).
  rewrite readings_length in H5. rewrite D1, D2, D3, D4, counted_count, H1, H3, H4, H5. rewrite H2 in D5.
  split; [done|]. split; [done|]. split; [done|]. split; [done|]. split; [done|]. lia.
Qed.

(** A tick that raises: of the fold, only a drone that would leave the map; of the
    transitions, only the port's own refusal. *)
Lemma serve_tick_Err n s e s' : fleet s = fleet_at (scenario r) n → mission_at (scenario r) n ≠ Mission.EXHAUSTED →
  serve_tick limit r s = (Err e, s') →
  match e with
  | TickFailed x => ∃ d, d ∈ drones (scenario r) ∧ x = FlightRefused {| Flight.refusal := Flight.OUT_OF_RANGE; Flight.value := drone_id d |}
  | TransitionsFailed x => ∃ y, x = PortFailed y
  | _ => True
  end.
Proof.
  intros Hf He. set (P := λ e : serve_failure, match e with
    | TickFailed x => ∃ d, d ∈ drones (scenario r) ∧ x = FlightRefused {| Flight.refusal := Flight.OUT_OF_RANGE; Flight.value := drone_id d |}
    | TransitionsFailed x => ∃ y, x = PortFailed y | _ => True end). change (serve_tick limit r s = (Err e, s') → P e).
  assert (HP : ∀ x, edge_free x → P x) by by intros [].
  assert (Hw : ∀ A (m : act serving serve_failure A), raises m edge_free → raises m P) by (intros A m Hm w x w' Hx; by eapply HP, Hm).
  unfold serve_tick. rewrite act_run. unfold with_outside at 1, zoom at 1, world at 1.
  destruct (now_milliseconds (outside s)) as [st w1]. rewrite act_run. cbn [fleet]. rewrite act_run. unfold plainly at 1.
  rewrite Hf, advance_at by done. rewrite bool_decide_false by done. destruct (stray _ n) as [d|] eqn:Hd.
  { intros [= <- _]. exists d. split; [|done]. by apply (stray_leaves _ n). }
  cbn [map_err reached readings]. rewrite act_run. cbn [modify]. revert e s'.
  match goal with |- ∀ e s', ?m ?s = _ → _ => enough (raises m P) as Hr by (intros e s' Hx; by eapply Hr) end.
  apply raises_bind; [apply Hw, raises_each; intros x; unfold publish_one; apply raises_bind;
    [apply raises_zoom, publish_reading_raises|intros o; apply raises_modify]|]. intros _.
  apply raises_bind.
  - apply raises_zoom. intros w x w'. unfold publish_lifecycle. destruct (lifecycle_given r).
    + destruct (observer_named (scenario r) Hs) as (d&_&Ho). rewrite (tick_edges (scenario r) Hs _ n w Ho).
      generalize (edges (scenario r) (drone_id d) n). intros l. revert w. induction l as [|a l IH]; intros w; cbn [each]; [done|].
      rewrite act_run. unfold tell at 1. destruct (announce a w) as [[y|] v]; [|apply IH]. intros [= <- _]. by exists y.
    + done.
  - intros _. apply raises_bind; [apply Hw; destruct (command_intake_enabled r); [apply drain_fleet_raises|apply raises_ret]|].
    intros _. apply raises_bind; [apply Hw, raises_zoom; unfold pace; safe|]. intros k. apply Hw, raises_modify.
Qed.

(** What leaves [serve] as an exception. *)
Definition serve_raises (e : serve_failure) : Prop :=
  match e with
  | TickFailed x => ∃ d, d ∈ drones (scenario r) ∧ x = FlightRefused {| Flight.refusal := Flight.OUT_OF_RANGE; Flight.value := drone_id d |}
  | TransitionsFailed x => ∃ y, x = PortFailed y
  | _ => True
  end.

(** The report of a run of [k] ticks, from one that counted as [s] did. *)
Definition reports (k : nat) (s s' : serving) : Prop :=
  let n := Z.of_nat (length (drones (scenario r))) in
  counted (published s') = counted (published s) + Z.of_nat k * n ∧
  counted (paced s') = counted (paced s) + Z.of_nat k ∧
  counted (intake s) ≤ counted (intake s') ≤ counted (intake s) + Z.of_nat k * (n * (0 `max` commands_per_drone_per_tick r)).

Lemma serve_loop_ends fuel n s :
  (n ≤ longest_run (scenario r))%nat → (longest_run (scenario r) - n < fuel)%nat →
  fleet s = fleet_at (scenario r) n → (length (inboxes s) ≤ length (drones (scenario r)))%nat →
  ∃ o s' k, serve_loop limit r fuel s = Some (o, s') ∧ (n + k ≤ longest_run (scenario r))%nat ∧
    match o with
    | Ok _ => fleet s' = fleet_at (scenario r) (n + k) ∧ reports k s s' ∧
              (mission (fleet s') = Mission.EXHAUSTED ∨ ∃ w, running w = (false, outside s'))
    | Err e => serve_raises e
    end.
Proof.
  revert n s. induction fuel as [|fuel IH]; intros n s Hn Hfuel Hf Hi; [lia|]. cbn [serve_loop].
  destruct (running (outside s)) as [go w] eqn:Hgo. cbn [fleet]. rewrite Hf. cbn [fleet_at mission]. rewrite terminal_at.
  assert (Hstop : ∀ s', fleet s' = fleet s → published s' = published s → paced s' = paced s → intake s' = intake s →
            (mission (fleet s') = Mission.EXHAUSTED ∨ ∃ w, running w = (false, outside s')) →
            ∃ o s1 k, Some (@Ok serve_failure unit tt, s') = Some (o, s1) ∧ (n + k ≤ longest_run (scenario r))%nat ∧
              match o with Ok _ => fleet s1 = fleet_at (scenario r) (n + k) ∧ reports k s s1 ∧
                (mission (fleet s1) = Mission.EXHAUSTED ∨ ∃ w, running w = (false, outside s1)) | Err e => serve_raises e end).
  { intros s' H1 H2 H3 H4 H5. exists (Ok tt), s', 0%nat. split; [done|]. rewrite Nat.add_0_r. split; [done|].
    split; [by rewrite H1|]. split; [|done]. unfold reports. rewrite H2, H3, H4. lia. }
  destruct go; cbn [negb orb]; [|apply Hstop; try done; right; by exists (outside s)].
  case_bool_decide as He; [apply Hstop; try done; by left|].
  destruct (serve_tick limit r _) as [[[]|e] s1] eqn:Ht.
  - apply (serve_tick_Ok n) in Ht as (_&H1&H2&H3&H4&H5); [|done]. cbn [published intake inboxes paced] in *.
    assert (n ≠ longest_run (scenario r)) by (intros ->; by apply He, longest_run_exhausts).
    assert (Hlen : length (inboxes s1) = length (inboxes s)) by (apply (f_equal length) in H4; unfold dict_keys in H4; by rewrite !length_fmap in H4).
    destruct (IH (S n) s1) as (o&s2&k&Hl&Hk&Ho); [lia|lia|done|lia|]. exists o, s2, (S k). split; [done|]. split; [lia|].
    destruct o as [[]|e]; [|done]. destruct Ho as (Ho1&(R1&R2&R3)&Ho3). rewrite Nat.add_succ_r. split; [done|]. split; [|done].
    unfold reports. rewrite R1, R2, H2, H3. split; [lia|]. split; [lia|].
    assert (Z.of_nat (length (inboxes s)) * (0 `max` commands_per_drone_per_tick r) ≤
            Z.of_nat (length (drones (scenario r))) * (0 `max` commands_per_drone_per_tick r)) by (apply Z.mul_le_mono_nonneg_r; lia).
    lia.
  - exists (Err e), s1, 0%nat. split; [done|]. split; [lia|]. by apply (serve_tick_Err n) in Ht.
Qed.
End run.

(** C17: a run ends, and its report is exact.  With more fuel than an accepted scenario's longest
    run, and whatever the broker, the clock and the lifecycle port do, the loop ends within that
    many ticks: stopped from outside, or with the mission exhausted, at the fold's own state,
    with one outcome counted for each reading of each tick and one for each interval, and at most
    the bound's worth of commands taken for each drone and tick; or by an exception, which is
    never one of the fold but a drone that would leave the map, and never a lookup that failed
    while the edges were published. *)
Theorem serve_ends `{N : Normalization} `{M : CommandModels} `{F : FleetSession} (limit fuel : nat) (r : Runtime)
    (w : port_state) (Hs : accepted (scenario r)) (Hfuel : (longest_run (scenario r) < fuel)%nat) :
  ∃ o s k, serve limit r fuel w = Some (o, s) ∧ (k ≤ longest_run (scenario r))%nat ∧
    match o with
    | Ok _ => fleet s = fleet_at (scenario r) k ∧ reports r k (serving_from r w) s ∧
              (mission (fleet s) = Mission.EXHAUSTED ∨ ∃ w', running w' = (false, outside s))
    | Err e => serve_raises r e
    end.
Proof.
  destruct (serve_loop_ends limit r Hs fuel 0 (serving_from r w)) as (o&s&k&Hl&Hk&Ho); [lia|lia| | |].
  - apply initial_fleet_at, Hs.
  - unfold serving_from. cbn [inboxes]. destruct (command_intake_enabled r); [|cbn; lia].
    change ((λ d, (drone_id d, new_inbox)) <$> ordered_drones (scenario r)) with (tabulate drone_id (λ _, new_inbox) (ordered_drones (scenario r))).
    rewrite tabulate_of_pairs by by apply ordered_ids. unfold tabulate. rewrite length_fmap. by rewrite (ordered_Permutation (scenario r)).
  - exists o, s, k. split; [done|]. split; [done|]. exact Ho.
Qed.

(** ** A sample run *)

#[local] Existing Instances ascii_normalization strict_branches.

(** A world that writes down the topics it was sent. *)
#[local] Instance sample_lifecycle : LifecyclePort :=
  {| port_state := list string; port_error := Empty_set;
     announce := λ a w, (None, (w ++ [default "" (ok_value (format_topic (announced_topic a)))])%list) |}.

Definition sample_trace : string := "00-0af7651916cd43dd8448eb211c80319c-b7ad6b7169203331-01".

(** The broker takes every result, or refuses them until it has taken something else. *)
Definition sample_session (refusing : bool) : FleetSession (H := sample_lifecycle) := {|
  transport_error := unit;
  draw_stamp := λ p w, ({| FleetRecords.event_id := "reading-" ++ dec (Z.of_nat (length w)); FleetRecords.occurred_at := "2026-07-28T09:00:01.000Z";
                           FleetRecords.stamp_sequence := Z.of_nat (length w); FleetRecords.stamp_correlation := "run-1";
                           FleetRecords.stamp_traceparent := sample_trace |}, w);
  draw_result_stamp := λ p c x w,
    ({| stamp_event := "result-" ++ dec (Z.of_nat (length w)); DroneCommand.occurred_at := "2026-07-28T09:00:01.000Z";
        DroneCommand.stamp_sequence := Z.of_nat (length w); DroneCommand.stamp_correlation := c; stamp_causation := x;
        DroneCommand.stamp_traceparent := sample_trace |}, w);
  send_telemetry := λ t _ w, (None, (w ++ [t])%list);
  send_result := λ t _ w, if refusing && bool_decide (w = []) then (Some tt, w) else (None, (w ++ [t])%list);
  has_receiver := λ _, true;
  poll := λ _ w, (NoMessage, w);
  settle := λ _ _ _ w, (None, w);
  reject_unread := λ _ w, (None, w);
  running := λ w, (true, w);
  now_milliseconds := λ w, (0, w);
  wait := λ _ w, w
|}.

Definition sample_runtime : Runtime := {|
  scenario := sample_scenario roster_ab; send_budget := {| max_sends := 3 |}; commands_per_drone_per_tick := 2;
  lifecycle_given := true; command_intake_enabled := true
|}.

Definition sample_order : FleetMessage := Eval vm_compute in {|
  destination_name := Some "aerial-rescue/v1/mission-1/drone/drone-a/command/assign-sector";
  message_body := ok_value (canonical_bytes (PyDict (envelope_document
    {| Envelope.id := "event-1"; Envelope.source := "urn:aerial-rescue:command-gateway:gateway-1";
       Envelope.type := "aerial-rescue.v1.drone.command.assign-sector"; Envelope.subject := "mission-1";
       Envelope.time := "2026-07-28T09:00:00.000Z";
       Envelope.dataschema := "https://aerial-rescue.invalid/schemas/v1/payload/drone-command-assign-sector.schema.json";
       Envelope.sequence := zero_padded 15 7; Envelope.correlation_id := "trace-1"; Envelope.traceparent := sample_trace;
       Envelope.data := document [("missionId", PyStr "mission-1"); ("droneId", PyStr "drone-a");
                                  ("commandId", PyStr "command-1"); ("sectorId", PyStr "sector-1")];
       Envelope.causation_id := None; Envelope.tracestate := None |})))
|}.

Abbreviation sample_handled refusing i w :=
  (handle (F := sample_session refusing) 4300 sample_runtime "drone-a" sample_order (i, w)).

(** Both reports, and the command remembered. *)
Definition after_order : DroneInbox * list string :=
  ({| stream := {| last_accepted := Some 7 |}; answered := {["command-1"]} ∪ ∅ |},
   ["aerial-rescue/v1/mission-1/drone/drone-a/command-result/command-1";
    "aerial-rescue/v1/mission-1/drone/drone-a/command-result/command-1"]).

Lemma order_handled : sample_handled false new_inbox [] = (Ok (HANDLED, Settled), after_order).
Proof. vm_cast_no_check (eq_refl (sample_handled false new_inbox [])). Qed.

(** The broker refused the report; the sequence is recorded all the same. *)
Definition after_refusal : DroneInbox * list string := ({| stream := {| last_accepted := Some 7 |}; answered := ∅ |}, []).

Lemma order_refused : sample_handled true new_inbox [] = (Ok (RESULT_REFUSED, Returned), after_refusal).
Proof. vm_cast_no_check (eq_refl (sample_handled true new_inbox [])). Qed.

Lemma command_answered_once_witness :
  ∃ o k, sample_handled false after_order.1 ["later"] = (Ok (o, Settled), (k, ["later"])) ∧ (o = REPLAYED ∨ o = SUPERSEDED).
Proof.
  destruct (command_answered_once (F := sample_session false) 4300 sample_runtime "drone-a" sample_order
              new_inbox [] Settled after_order.1 after_order.2 order_handled) as (_&c&Hc&_&_&_&Hagain).
  exact (Hagain after_order.1 sample_order c ["later"] (reaches_refl _ _) Hc eq_refl).
Defined.

(** The broker takes reports now: the redelivery sends none. *)
Lemma refused_result_lost_witness :
  sample_handled true after_refusal.1 ["later"] = (Ok (SUPERSEDED, Settled), (after_refusal.1, ["later"])).
Proof.
  destruct (refused_result_lost (F := sample_session true) 4300 sample_runtime "drone-a" sample_order
              new_inbox [] Returned after_refusal.1 after_refusal.2 order_refused) as [_ Hlost].
  exact (Hlost after_refusal.1 ["later"] (reaches_refl _ _)).
Defined.

Lemma serve_ends_witness : ∃ o s k,
  serve (F := sample_session false) 4300 sample_runtime 12 [] = Some (o, s) ∧ (k ≤ longest_run (sample_scenario roster_ab))%nat ∧
  match o with Ok _ => fleet s = fleet_at (sample_scenario roster_ab) k | Err e => serve_raises sample_runtime e end.
Proof.
  destruct (serve_ends (F := sample_session false) 4300 12 sample_runtime [] (sample_accepted _ (or_introl eq_refl))
              ltac:(vm_compute; lia)) as (o&s&k&Hr&Hk&Ho).
  exists o, s, k. split; [exact Hr|]. split; [exact Hk|]. destruct o; [apply Ho|exact Ho].
Defined.
