(* ===== verification/Recorder.v ===== *)
(** * The recorder

    [services/recorder/src/aerial_rescue_recorder/capture.py], its store adapter [store.py], and
    [process_next] of [processing.py]: an accepted notification's inbox claim, source event,
    mission lifecycle, audit record, broker link and completed claim commit in one transaction,
    and only then is a guaranteed delivery settled.  What the recorder's store does on its own is
    [StoreInbox], [StoreTimeline], [StoreAudit] and [StoreRefusals]. *)

From S2P Require Import Prelude PyStr PyVal Canonical JsonBytes Digest DroneCommand FleetRecords Mission Topics Envelope Idempotency Ingress.
From S2P Require Import Sql Schema StoreRefusals StoreInbox StoreAudit StoreTimeline.
Local Open Scope string_scope.
Local Open Scope Z_scope.

Inductive RecordingPolicy : Set := RECORD | EXCLUDED.

#[export] Instance RecordingPolicy_eq_dec : EqDecision RecordingPolicy.
Proof. solve_decision. Defined.

Definition EXCLUDED_FAMILIES : list Family := [AGENT_RESPONSE; GATEWAY_REQUEST; GATEWAY_RESPONSE].
Definition recording_policy (f : Family) : RecordingPolicy :=
  if decide (f ∈ EXCLUDED_FAMILIES) then EXCLUDED else RECORD.

Definition MISSION_LIFECYCLE_TYPE : string := "aerial-rescue.v1.mission.event.lifecycle".
Definition LIFECYCLE_MEMBER : string := "lifecycle".

Inductive CaptureRefusal : Set :=
| SETTLEMENT_MISMATCH | EXCLUDED_FAMILY | TOPIC_BINDING | INBOX_OUTCOME | AUDIT_ORDINAL | MISSION_LIFECYCLE.

Inductive CaptureDecision : Set := RECORDED | DUPLICATE | REFUSED.

#[export] Instance CaptureDecision_eq_dec : EqDecision CaptureDecision.
Proof. solve_decision. Defined.

(** [ReceivedNotification] *)
Record ReceivedNotification : Set := { topic : Topic; envelope : Envelope; observed_at : string }.

(** [RecordingFact], with its parts as the values the adapter stores of them. *)
Record RecordingFact : Set := {
  inbox : InboxIdentity; source_event : StoredSourceEvent; audit : AuditRecord;
  fact_event : BrokerEvent; received_at : string; mission_lifecycle : option MissionState
}.

Record CaptureOutcome : Set := { captured : CaptureDecision; captured_ordinal : Z }.

(** The calls on the settlement capability, which may raise. *)
Inductive recorder_settlement : Set := Accepts | Rejects.

Class RecorderPort := { recorder_error : Type; settle_recorder : recorder_settlement → option recorder_error }.

(** Everything that leaves [capture] as an exception. *)
Inductive capture_failure `{RecorderPort} : Type :=
| CaptureError (refusal : CaptureRefusal)
| BindingLookup (name : string)
| Uncanonical (e : CanonicalizationError)
| Undigestible (e : digest_failure)
| BadTopic (e : topic_failure)
| InboxFailure (e : store_failure InboxRefusal)
| SourceFailure (e : store_failure SourceEventRefusal)
| AuditFailure (e : store_failure AuditRefusal)
| EventFailure (e : store_failure DashboardEventRefusal)
| RunFailure (e : store_failure DashboardRunRefusal)
| MissionRefused
| StoreAdapterError
| SettlementFailed (e : recorder_error).

(** [MissionState[name]], of the members' names. *)
Definition state_name (s : MissionState) : string :=
  match s with
  | PLANNED => "PLANNED" | SEARCHING => "SEARCHING" | ESCALATED => "ESCALATED"
  | COMPLETED => "COMPLETED" | EXHAUSTED => "EXHAUSTED" | ABORTED => "ABORTED"
  end.
Definition STATE_NAMES : list (string * MissionState) := (λ s, (state_name s, s)) <$> enum MissionState.
Definition named_state (name : string) : option MissionState := dict_get STATE_NAMES name.

(** [_PERMANENT_STORE_REFUSALS] *)
Definition PERMANENT_STORE_REFUSALS : list DashboardEventRefusal :=
  [DIVERGENT_DUPLICATE; SEQUENCE_REUSED; STALE_SEQUENCE; UNREADABLE_SOURCE; UNREADABLE_EVENT].

Section recorder.
Context `{N : Normalization} `{D : Database} `{P : RecorderPort} (limit : nat) (consumer : string).

Abbreviation recorder_tx := (tx capture_failure).

(** [_observed_lifecycle] *)
Definition observed_lifecycle (e : Envelope) : result capture_failure (option MissionState) :=
  if negb (bool_decide (Envelope.type e = MISSION_LIFECYCLE_TYPE)) then Ok None else
  match get (data e) LIFECYCLE_MEMBER with
  | PyStr name => s ← or_raise (named_state name) (CaptureError MISSION_LIFECYCLE); Ok (Some s)
  | _ => Err (CaptureError MISSION_LIFECYCLE)
  end.

(** What [except ValueError] makes of the check of an arrived envelope. *)
Definition unbound (e : envelope_failure) : capture_failure :=
  match envelope_lookup e with Some n => BindingLookup n | None => CaptureError TOPIC_BINDING end.

(** [_recording_fact].  The envelope's sequence is fifteen digits, which [int] reads. *)
Definition recording_fact (x : ReceivedNotification) : result capture_failure RecordingFact :=
  let e := envelope x in
  map_err unbound (check_topic_binding e (topic x)) ;;
  bytes ← map_err Uncanonical (canonical_bytes (PyDict (envelope_document e)));
  digest ← map_err Undigestible (source_event_digest e);
  text ← map_err BadTopic (format_topic (topic x));
  lifecycle ← observed_lifecycle e;
  Ok {| inbox := {| StoreInbox.consumer := consumer; StoreInbox.source := Envelope.source e;
                    StoreInbox.event_id := Envelope.id e; StoreInbox.mission_id := Envelope.subject e;
                    StoreInbox.canonical_digest := digest |};
        source_event := {| StoreTimeline.source := Envelope.source e; StoreTimeline.event_id := Envelope.id e;
                           StoreTimeline.mission_id := Envelope.subject e; StoreTimeline.topic := text;
                           StoreTimeline.canonical_digest := digest; canonical_payload := bytes;
                           StoreTimeline.observed_at := Envelope.time e |};
        audit := {| StoreAudit.mission_id := Envelope.subject e; kind := Envelope.type e;
                    occurred_at := Envelope.time e; StoreAudit.payload := bytes;
                    StoreAudit.correlation_id := Envelope.correlation_id e;
                    StoreAudit.causation_id := Envelope.causation_id e;
                    StoreAudit.traceparent := Envelope.traceparent e |};
        fact_event := {| broker_source := Envelope.source e; broker_event := Envelope.id e;
                         source_sequence := digits_value 0 (Envelope.sequence e);
                         payload_digest := sha256_hex bytes |};
        received_at := observed_at x; mission_lifecycle := lifecycle |}.

(** ** The store adapter *)

Definition ordinal_document (n : Z) : members := document [("auditOrdinal", PyInt n)].

(** [_decode_ordinal] *)
Definition decode_ordinal (bytes : option string) : result capture_failure Z :=
  raw ← or_raise bytes StoreAdapterError;
  v ← map_err (λ _, StoreAdapterError) (decode_bytes limit raw);
  canonical ← map_err (λ _, StoreAdapterError) (canonical_bytes v);
  raise_if (negb (bool_decide (canonical = raw))) StoreAdapterError ;;
  match v with
  | PyDict d =>
      raise_if (negb (exactly ["auditOrdinal"] d)) StoreAdapterError ;;
      match get d "auditOrdinal" with
      | PyInt n => if 0 <? n then Ok n else Err StoreAdapterError
      | _ => Err StoreAdapterError
      end
  | _ => Err StoreAdapterError
  end.

(** [claim_inbox]: nothing when the claim is new, or the ordinal of the duplicate. *)
Definition claim_inbox (i : InboxIdentity) : recorder_tx (option Z) :=
  o ← lift InboxFailure (claim i);
  match decision o with
  | CLAIMED => pure (raise_if (bool_decide (is_Some (prior o))) StoreAdapterError) ;; mret None
  | StoreInbox.DUPLICATE => n ← pure (decode_ordinal (prior o)); mret (Some n)
  end.

Definition apply_mission_lifecycle (m : string) (target : MissionState) : recorder_tx unit :=
  name ← lift RunFailure (mission_lifecycle_for_update m);
  current ← pure (or_raise (named_state name) MissionRefused);
  if decide (current = target) then mret tt else
  event ← pure (or_raise (event_reaching target) MissionRefused);
  approved ← pure (map_err (λ _, MissionRefused) (transition current event));
  lift RunFailure (transition_mission m (state_name current) (state_name approved)).

(** [append_audit], and the [_positive_ordinal] of what it returns. *)
Definition append_audit (r : AuditRecord) : recorder_tx Z :=
  v ← lift AuditFailure (append r);
  match v with
  | SInt n => if 0 <? n then mret n else pure (Err (CaptureError AUDIT_ORDINAL))
  | _ => pure (Err (CaptureError AUDIT_ORDINAL))
  end.

Definition complete_inbox (i : InboxIdentity) (n : Z) (at_ : string) : recorder_tx unit :=
  bytes ← pure (map_err Uncanonical (canonical_bytes (PyDict (ordinal_document n))));
  lift InboxFailure (complete i bytes at_).

(** ** One notification *)

(** [_persist] *)
Definition persist (f : RecordingFact) : recorder_tx CaptureOutcome :=
  known ← claim_inbox (inbox f);
  match known with
  | Some n => mret {| captured := DUPLICATE; captured_ordinal := n |}
  | None =>
      lift SourceFailure (record (source_event f)) ;;
      match mission_lifecycle f with
      | Some target => apply_mission_lifecycle (StoreAudit.mission_id (audit f)) target
      | None => mret tt
      end ;;
      n ← append_audit (audit f);
      lift EventFailure (link_broker_event (fact_event f) (StoreAudit.mission_id (audit f)) n) ;;
      complete_inbox (inbox f) n (received_at f) ;;
      mret {| captured := RECORDED; captured_ordinal := n |}
  end.

(** What the handler leaves: its value or exception, the store, and the settlements it asked for. *)
Record capturing : Type := {
  returned : result capture_failure CaptureOutcome; store : db; asked : list recorder_settlement
}.

Definition raising (e : capture_failure) (d : db) : capturing := {| returned := Err e; store := d; asked := [] |}.

(** A guaranteed delivery is settled; a direct one has nothing to settle. *)
Definition settling (guaranteed : bool) (s : recorder_settlement) (o : CaptureOutcome) (d : db) : capturing :=
  if guaranteed
  then {| returned := match settle_recorder s with Some e => Err (SettlementFailed e) | None => Ok o end;
          store := d; asked := [s] |}
  else {| returned := Ok o; store := d; asked := [] |}.

(** [Recorder.capture], given whether a settlement capability came with the notification. *)
Definition capture (guaranteed : bool) (x : ReceivedNotification) (d : db) : capturing :=
  let f := Topics.family (topic x) in
  if bool_decide (recording_policy f = EXCLUDED) then raising (CaptureError EXCLUDED_FAMILY) d
  else if negb (Bool.eqb (bool_decide (delivery_for f = GUARANTEED)) guaranteed)
  then raising (CaptureError SETTLEMENT_MISMATCH) d
  else match recording_fact x with
  | Err e => raising e d
  | Ok fact =>
      match transaction (persist fact) d with
      | (Ok o, d') => settling guaranteed Accepts o d'
      | (Err (EventFailure (Sql.Refused r v)), d') =>
          if bool_decide (r ∈ PERMANENT_STORE_REFUSALS)
          then settling guaranteed Rejects {| captured := REFUSED; captured_ordinal := 0 |} d'
          else raising (EventFailure (Sql.Refused r v)) d'
      | (Err e, d') => raising e d'
      end
  end.

(** ** The receive loop's body *)

Inductive ProcessDecision : Set := IDLE | EXCLUDED_INGRESS | RECORDED_INGRESS | DUPLICATE_INGRESS | REJECTED | DROPPED.

(** What the receiver yields: an input of an excluded family, a notification, or a refusal of
    hostile bytes, the last two with the settlement capability a guaranteed message carries. *)
Inductive recorder_ingress : Set :=
| ExcludedIngress (f : Family)
| NotificationIngress (x : ReceivedNotification) (guaranteed : bool)
| RefusedIngress (c : BrokerRefusalCandidate) (guaranteed : bool).

Inductive process_failure : Type :=
| ProcessError (f : Family)
| RefusalStore (e : store_failure BrokerRefusalRefusal)
| CaptureFailed (e : capture_failure)
| RejectFailed (e : recorder_error).

Record processing : Type := {
  answered : result process_failure (ProcessDecision * option Z); left_store : db; settled : list recorder_settlement
}.

(** [process_next]; [observed] is the refusal recorder's clock. *)
Definition process_next (observed : string) (i : option recorder_ingress) (d : db) : processing :=
  match i with
  | None => {| answered := Ok (IDLE, None); left_store := d; settled := [] |}
  | Some (RefusedIngress c guaranteed) =>
      match record_candidate observed c d with
      | (Err e, d') => {| answered := Err (RefusalStore e); left_store := d'; settled := [] |}
      | (Ok _, d') =>
          if guaranteed
          then {| answered := match settle_recorder Rejects with
                              | Some e => Err (RejectFailed e) | None => Ok (REJECTED, None) end;
                  left_store := d'; settled := [Rejects] |}
          else {| answered := Ok (DROPPED, None); left_store := d'; settled := [] |}
      end
  | Some (ExcludedIngress f) =>
      {| answered := if bool_decide (recording_policy f = EXCLUDED) then Ok (EXCLUDED_INGRESS, None)
                     else Err (ProcessError f);
         left_store := d; settled := [] |}
  | Some (NotificationIngress x guaranteed) =>
      let c := capture guaranteed x d in
      {| answered := match returned c with
                     | Err e => Err (CaptureFailed e)
                     | Ok o => Ok match captured o with
                                  | REFUSED => (REJECTED, None)
                                  | RECORDED => (RECORDED_INGRESS, Some (captured_ordinal o))
                                  | DUPLICATE => (DUPLICATE_INGRESS, Some (captured_ordinal o))
                                  end
                     end;
         left_store := store c; settled := asked c |}
  end.
End recorder.

Arguments returned {D P} _.
Arguments store {D P} _.
Arguments asked {D P} _.
Arguments left_store {D P} _.
Arguments answered {D P} _.
Arguments settled {D P} _.

(** ** What one notification leaves *)

Section theorems.
Context `{N : Normalization} `{D : Database} `{P : RecorderPort} (limit : nat) (consumer : string).

Definition RECORDER_TABLES : list Table :=
  [BROKER_INBOX; SOURCE_EVENT; DASHBOARD_MISSION; AUDIT_SEQUENCE; AUDIT_RECORD; DASHBOARD_BROKER_SOURCE;
   DASHBOARD_BROKER_EVENT].

(** The recorder is the only writer of links: each was made under a claim of its own. *)
Definition vouched (d : db) : Prop :=
  ∀ i, StoreInbox.consumer i = consumer → is_Some (link_entry d (StoreInbox.source i) (StoreInbox.event_id i)) →
       is_Some (entry d i).

(** The claim was finished with this ordinal. *)
Definition answered_with (d : db) (i : InboxIdentity) (n : Z) : Prop :=
  ∃ bytes, completed d i bytes ∧ canonical_bytes (PyDict (ordinal_document n)) = Ok bytes.

(** The mission stands where the event says, by at most one step of its machine. *)
Definition lifecycle_moved (m : string) (target : MissionState) (d d' : db) : Prop :=
  lifecycle_of d' m = Some (state_name target) ∧ (∀ x, x ≠ m → lifecycle_of d' x = lifecycle_of d x) ∧
  (lifecycle_of d m = Some (state_name target) ∨
   ∃ s e, lifecycle_of d m = Some (state_name s) ∧ Mission.step s e target).

(** The event is stored, or was stored already as it is. *)
Definition source_kept (f : RecordingFact) (d d' : db) : Prop :=
  rows d' SOURCE_EVENT = (rows d SOURCE_EVENT ++ [source_row (source_event f)])%list ∨
  rows d' SOURCE_EVENT = rows d SOURCE_EVENT ∧
  ∃ r, source_entry d (StoreTimeline.source (source_event f)) (StoreTimeline.event_id (source_event f)) = Some r ∧
       stored (StoreTimeline.event_id (source_event f)) (project (columns SOURCE_EVENT) r) = Ok (source_event f).

(** The record is its mission's next. *)
Definition numbered_next (f : RecordingFact) (n : Z) (d d' : db) : Prop :=
  ∀ m rs, timeline d m rs →
    timeline d' m (if decide (StoreAudit.mission_id (audit f) = m) then rs ++ [audit f] else rs)%list ∧
    (StoreAudit.mission_id (audit f) = m → n = Z.of_nat (length rs) + 1).

Definition mission_kept (f : RecordingFact) (d d' : db) : Prop :=
  match mission_lifecycle f with
  | Some target => lifecycle_moved (StoreAudit.mission_id (audit f)) target d d'
  | None => ∀ m, lifecycle_of d' m = lifecycle_of d m
  end.

Definition recorded_exactly (f : RecordingFact) (n : Z) (d d' : db) : Prop :=
  let e := fact_event f in
  entry d (inbox f) = None ∧ answered_with d' (inbox f) n ∧ 0 < n ∧
  (∀ i r, entry d i = Some r → entry d' i = Some r) ∧
  source_kept f d d' ∧
  rows d' AUDIT_RECORD = (rows d AUDIT_RECORD ++ [StoreAudit.new_row (audit f) (SInt n)])%list ∧
  numbered_next f n d d' ∧
  match high_water d (broker_source e) with None => True | Some k => k < source_sequence e end ∧
  high_water d' (broker_source e) = Some (source_sequence e) ∧
  (∀ s, s ≠ broker_source e → high_water d' s = high_water d s) ∧
  rows d' DASHBOARD_BROKER_EVENT =
    (rows d DASHBOARD_BROKER_EVENT ++ [link_row e (StoreAudit.mission_id (audit f)) n])%list ∧
  mission_kept f d d' ∧
  confined RECORDER_TABLES d d'.

(** ** The steps of one transaction *)

Lemma ordinal_reads_back n b :
  (0 < limit)%nat → 0 < n → canonical_bytes (PyDict (ordinal_document n)) = Ok b → decode_ordinal limit (Some b) = Ok n.
Proof.
  intros Hl Hn Hb. destruct (decode_bytes_plain limit [("auditOrdinal", PyInt n)] b) as [Hv Hc]; try done.
  { apply NoDup_singleton. }
  { by repeat constructor. }
  unfold decode_ordinal. cbn [or_raise mbind result_bind]. rewrite Hv. cbn [map_err mbind result_bind].
  change (sort_members [("auditOrdinal", PyInt n)]) with [("auditOrdinal", PyInt n)] in *. rewrite Hc.
  cbn [map_err mbind result_bind]. rewrite bool_decide_eq_true_2 by done.
  transitivity (if 0 <? n then Ok n else Err (@StoreAdapterError P)); [reflexivity|]. by rewrite (proj2 (Z.ltb_lt 0 n) Hn).
Qed.

Lemma claim_inbox_Ok i o d d' :
  consistent d → claim_inbox limit i d = Ok (o, d') →
  match entry d i with
  | None => o = None ∧ replaces d BROKER_INBOX (rows d BROKER_INBOX ++ [StoreInbox.new_row i])%list d'
  | Some _ => d' ≡ d ∧ ∃ n bytes, o = Some n ∧ completed d i bytes ∧ decode_ordinal limit (Some bytes) = Ok n
  end.
Proof.
  intros Hd Hc. unfold claim_inbox in Hc. apply tx_bind_Ok in Hc as (x&d1&Hx%lift_Ok&Hc).
  apply claim_Ok in Hx; [|done]. destruct (entry d i) as [r|].
  - destruct Hx as [Hs (b&->&Hb)]. cbn [decision prior] in Hc. apply tx_bind_Ok in Hc as (n&d2&[Hn ->]%pure_Ok&Hc).
    apply tx_ret_Ok in Hc as [<- <-]. split; [done|]. by exists n, b.
  - destruct Hx as [-> Hr]. cbn [decision prior] in Hc. apply tx_bind_Ok in Hc as ([]&d2&[_ ->]%pure_Ok&Hc).
    apply tx_ret_Ok in Hc as [<- <-]. done.
Qed.

Lemma named_state_Some name s : named_state name = Some s → name = state_name s.
Proof.
  unfold named_state, STATE_NAMES. cbn. intros Hn. repeat case_decide; simplify_eq; done.
Qed.

(** The event that reaches a state reaches no other. *)
Lemma reaching_lands current target e approved :
  event_reaching target = Some e → transition current e = Ok approved → approved = target ∧ Mission.step current e target.
Proof.
  intros He Ht. assert (approved = target) as -> by (destruct target, current, e; try discriminate He; by try injection Ht).
  split; [done|]. by apply step_transition.
Qed.

Lemma apply_mission_Ok m target u d d' :
  consistent d → apply_mission_lifecycle m target d = Ok (u, d') →
  lifecycle_moved m target d d' ∧ confined [DASHBOARD_MISSION] d d'.
Proof.
  intros Hd Ha. unfold apply_mission_lifecycle in Ha. apply tx_bind_Ok in Ha as (name&d1&Hl%lift_Ok&Ha).
  apply lifecycle_Ok in Hl as [Hs Hl]. apply tx_bind_Ok in Ha as (current&d2&[Hc%or_raise_Ok ->]%pure_Ok&Ha).
  apply named_state_Some in Hc as ->. assert (Hd1 : consistent d1) by (intros t; rewrite (Hs t); apply Hd).
  assert (Hsame : ∀ x, lifecycle_of d1 x = lifecycle_of d x)
    by (intros x; unfold lifecycle_of, mission_entry; by rewrite (found_proper _ _ _ _ Hs)).
  case_decide as Hct.
  - subst current. apply tx_ret_Ok in Ha as [_ <-]. split; [|intros t _; apply Hs].
    split; [by rewrite Hsame|]. split; [by intros x _|by left].
  - apply tx_bind_Ok in Ha as (e&d3&[He%or_raise_Ok ->]%pure_Ok&Ha).
    apply tx_bind_Ok in Ha as (approved&d3&[Hap%map_err_Ok ->]%pure_Ok&Ha).
    destruct (reaching_lands _ _ _ _ He Hap) as [-> Hst]. apply lift_Ok, mission_transition_Ok in Ha as (_&Ht&Ho&Hf); [|done].
    split; [|intros t Ht'; by rewrite (Hf t Ht'), (Hs t)]. split; [done|].
    split; [intros x Hx; by rewrite (Ho x Hx)|]. right. by exists current, e.
Qed.

Lemma append_audit_Ok r n d d' :
  append_audit r d = Ok (n, d') → append r d = Ok (SInt n, d') ∧ 0 < n.
Proof.
  unfold append_audit. intros (v&d1&Ha%lift_Ok&Hn)%tx_bind_Ok. destruct v as [| |k|]; try by apply pure_Ok in Hn as [? _].
  destruct (Z.ltb_spec 0 k); [|by apply pure_Ok in Hn as [? _]]. by apply tx_ret_Ok in Hn as [<- <-].
Qed.

Lemma complete_inbox_Ok i n at_ u d d' :
  consistent d → complete_inbox i n at_ d = Ok (u, d') →
  answered_with d' i n ∧ confined [BROKER_INBOX] d d' ∧
  ∀ j r, entry d j = Some r → selects (identity_conds i) r = false → entry d' j = Some r.
Proof.
  unfold complete_inbox. intros Hd (b&d1&[Hb%map_err_Ok ->]%pure_Ok&Hc%lift_Ok)%tx_bind_Ok. split; [|split].
  - exists b. split; [by eapply complete_completed|done].
  - by eapply complete_confined.
  - intros j r Hj Hs. apply complete_Ok in Hc as [_ Hr]; [|done]. unfold entry in *.
    rewrite (found_update _ _ _ _ _ _ Hr) by done. rewrite Hj. cbn [fmap option_fmap option_map]. by rewrite Hs.
Qed.

(** The fact of a notification names one event throughout. *)
Definition one_event (f : RecordingFact) : Prop :=
  StoreInbox.consumer (inbox f) = consumer ∧
  StoreInbox.source (inbox f) = broker_source (fact_event f) ∧
  StoreInbox.event_id (inbox f) = broker_event (fact_event f).

Lemma recording_fact_one x f : recording_fact consumer x = Ok f → one_event f.
Proof.
  unfold recording_fact. intros (?&_&H)%bind_Ok. apply bind_Ok in H as (?&_&H). apply bind_Ok in H as (?&_&H).
  apply bind_Ok in H as (?&_&H). apply bind_Ok in H as (?&_&H). injection H as <-. done.
Qed.

Lemma recording_fact_source x f : recording_fact consumer x = Ok f →
  broker_source (fact_event f) = Envelope.source (envelope x) ∧
  source_sequence (fact_event f) = digits_value 0 (Envelope.sequence (envelope x)).
Proof.
  unfold recording_fact. intros (?&_&H)%bind_Ok. apply bind_Ok in H as (?&_&H). apply bind_Ok in H as (?&_&H).
  apply bind_Ok in H as (?&_&H). apply bind_Ok in H as (?&_&H). injection H as <-. done.
Qed.

(** What a table read says when the table was left alone. *)
Lemma frame_link ts d d' s id :
  confined ts d d' → DASHBOARD_BROKER_EVENT ∉ ts → link_entry d' s id = link_entry d s id.
Proof. intros Hf Ht. unfold link_entry, found. by rewrite Hf. Qed.
Lemma frame_high ts d d' s : confined ts d d' → DASHBOARD_BROKER_SOURCE ∉ ts → high_water d' s = high_water d s.
Proof. intros Hf Ht. unfold high_water, found. by rewrite Hf. Qed.
Lemma frame_lifecycle ts d d' m : confined ts d d' → DASHBOARD_MISSION ∉ ts → lifecycle_of d' m = lifecycle_of d m.
Proof. intros Hf Ht. unfold lifecycle_of, mission_entry, found. by rewrite Hf. Qed.
Lemma frame_timeline ts d d' m rs :
  confined ts d d' → AUDIT_RECORD ∉ ts → AUDIT_SEQUENCE ∉ ts → timeline d m rs ↔ timeline d' m rs.
Proof. intros Hf Ha Hs. unfold timeline, mission_rows, counter, found. by rewrite !Hf. Qed.

Lemma moved_mission f d d' u :
  consistent d →
  match mission_lifecycle f with
  | Some target => apply_mission_lifecycle (StoreAudit.mission_id (audit f)) target
  | None => mret (M := tx capture_failure) tt
  end d = Ok (u, d') →
  match mission_lifecycle f with
  | Some target => lifecycle_moved (StoreAudit.mission_id (audit f)) target d d'
  | None => ∀ m, lifecycle_of d' m = lifecycle_of d m
  end ∧ confined [DASHBOARD_MISSION] d d'.
Proof.
  intros Hd Ha. destruct (mission_lifecycle f) as [target|].
  - by eapply apply_mission_Ok.
  - apply tx_ret_Ok in Ha as [_ <-]. done.
Qed.

Lemma appended_timelines r n d d' :
  consistent d → append r d = Ok (SInt n, d') →
  ∀ m rs, timeline d m rs →
    timeline d' m (if decide (StoreAudit.mission_id r = m) then rs ++ [r] else rs)%list ∧
    (StoreAudit.mission_id r = m → n = Z.of_nat (length rs) + 1).
Proof.
  intros Hd Ha m rs Ht. case_decide as Hm.
  - subst m. destruct (append_Ok _ _ _ _ _ Hd Ht Ha) as (Hn&Ht'&_). split; [done|]. intros _. by injection Hn as ->.
  - split; [|done]. by apply (append_others _ _ _ _ _ _ Hd Ha); [congruence|].
Qed.

Lemma confined_all ts (d d' : db) : confined ts d d' → forallb (λ t, bool_decide (t ∈ RECORDER_TABLES)) ts = true →
  confined RECORDER_TABLES d d'.
Proof. apply confined_sub. Qed.

(** ** A new event, up to its link *)

(** The statements between the claim and the link. *)
Definition written (f : RecordingFact) : tx capture_failure Z :=
  lift SourceFailure (record (source_event f)) ;;
  match mission_lifecycle f with
  | Some target => apply_mission_lifecycle (StoreAudit.mission_id (audit f)) target
  | None => mret tt
  end ;;
  append_audit (audit f).

(** A new event's transaction is its claim, [written], the link and the completed claim. *)
Lemma persist_new f d d1 : claim_inbox limit (inbox f) d = Ok (None, d1) →
  persist limit f d =
  (n ← written f;
   lift EventFailure (link_broker_event (fact_event f) (StoreAudit.mission_id (audit f)) n) ;;
   complete_inbox (inbox f) n (received_at f) ;;
   mret {| captured := RECORDED; captured_ordinal := n |}) d1.
Proof.
  intros Hc. unfold persist, written. rewrite (tx_bind_run _ _ _ _ _ Hc). unfold mbind, tx_bind.
  destruct (lift SourceFailure _ d1) as [[so d2]|e]; [|done].
  destruct (mission_lifecycle f) as [target|]; [by destruct (apply_mission_lifecycle _ target d2) as [[u d3]|e]|done].
Qed.

Lemma claim_inbox_effect i : effect stays_consistent (claim_inbox limit i).
Proof. unfold claim_inbox. pose proof claim_effect. effects. Qed.
Lemma apply_mission_effect m target : effect stays_consistent (apply_mission_lifecycle m target).
Proof. unfold apply_mission_lifecycle. effects. Qed.

Definition WRITTEN_TABLES : list Table := [SOURCE_EVENT; DASHBOARD_MISSION; AUDIT_SEQUENCE; AUDIT_RECORD].

Lemma written_Ok f n d d' :
  consistent d → written f d = Ok (n, d') →
  consistent d' ∧ 0 < n ∧ confined WRITTEN_TABLES d d' ∧ source_kept f d d' ∧
  rows d' AUDIT_RECORD = (rows d AUDIT_RECORD ++ [StoreAudit.new_row (audit f) (SInt n)])%list ∧
  numbered_next f n d d' ∧ mission_kept f d d'.
Proof.
  intros Hd Hp. unfold written in Hp. apply tx_bind_Ok in Hp as (so&d2&Hso%lift_Ok&Hp).
  assert (Hd2 := record_source_effect _ _ _ _ Hso Hd). assert (F2 := record_source_confined _ _ _ _ Hso).
  apply record_source_Ok in Hso; [|done]. apply tx_bind_Ok in Hp as (u&d3&Hm&Ha).
  assert (Hd3 : consistent d3).
  { revert Hm Hd2. destruct (mission_lifecycle f); [apply apply_mission_effect|by intros [_ <-]%tx_ret_Ok]. }
  apply moved_mission in Hm as [Hm F3]; [|done]. apply append_audit_Ok in Ha as [Ha Hn].
  assert (F4 := append_confined _ _ _ _ Ha). split; [exact (append_effect _ _ _ _ Ha Hd3)|]. split; [done|].
  split; [transitivity d2; [|transitivity d3]; (eapply confined_sub; [eassumption|reflexivity])|].
  split; [|split; [|split]].
  - unfold source_kept, source_entry, found in *. rewrite (F4 SOURCE_EVENT), (F3 SOURCE_EVENT) by by_decide.
    destruct (head _) as [r|].
    + right. destruct Hso as (_&Hs&Hr). split; [apply (Hs SOURCE_EVENT)|]. by exists r.
    + left. destruct Hso as [_ Hr]. by apply replaces_target in Hr.
  - rewrite (append_adds _ _ _ _ Ha). by rewrite (F3 AUDIT_RECORD), (F2 AUDIT_RECORD) by by_decide.
  - intros m rs Ht. rewrite (frame_timeline _ _ _ _ _ F2), (frame_timeline _ _ _ _ _ F3) in Ht by by_decide.
    exact (appended_timelines _ _ _ _ Hd3 Ha m rs Ht).
  - assert (H4 : ∀ m, lifecycle_of d' m = lifecycle_of d3 m) by (intros m; by rewrite (frame_lifecycle _ _ _ _ F4) by by_decide).
    assert (H2 : ∀ m, lifecycle_of d2 m = lifecycle_of d m) by (intros m; by rewrite (frame_lifecycle _ _ _ _ F2) by by_decide).
    unfold mission_kept. destruct (mission_lifecycle f) as [target|]; [|intros m; by rewrite H4, Hm, H2].
    destruct Hm as (M1&M2&M3). split; [by rewrite H4|]. rewrite H2 in M3. split; [|done].
    intros x Hx. rewrite H4, <- H2. by apply M2.
Qed.

(** What a new event finds before its link: no link of its own, and the high-water as it was. *)
Lemma unlinked f n d d1 d4 :
  consistent d → vouched d → one_event f → claim_inbox limit (inbox f) d = Ok (None, d1) → written f d1 = Ok (n, d4) →
  entry d (inbox f) = None ∧ replaces d BROKER_INBOX (rows d BROKER_INBOX ++ [StoreInbox.new_row (inbox f)])%list d1 ∧
  consistent d4 ∧ link_entry d4 (broker_source (fact_event f)) (broker_event (fact_event f)) = None ∧
  (∀ s, high_water d4 s = high_water d s).
Proof.
  intros Hd Hv (Hcons&Hsrc&Hid) Hc Hw. assert (Hd1 := claim_inbox_effect _ _ _ _ Hc Hd).
  apply claim_inbox_Ok in Hc; [|done]. destruct (entry d (inbox f)) as [r|] eqn:He; [by destruct Hc as (_&?&?&[=]&_)|].
  destruct Hc as [_ Hc]. apply written_Ok in Hw as (Hd4&_&F4&_); [|done].
  assert (F1 : confined [BROKER_INBOX] d d1) by (intros t Ht; apply (replaces_frame _ _ _ _ _ Hc); intros ->; apply Ht; left).
  split; [done|]. split; [done|]. split; [done|]. split.
  - rewrite (frame_link _ _ _ _ _ F4), (frame_link _ _ _ _ _ F1) by by_decide.
    destruct (link_entry d _ _) as [x|] eqn:Hx; [|done]. exfalso. rewrite <- Hsrc, <- Hid in Hx.
    destruct (Hv (inbox f) Hcons) as [y Hy]; [by rewrite Hx|]. congruence.
  - intros s. by rewrite (frame_high _ _ _ _ F4), (frame_high _ _ _ _ F1) by by_decide.
Qed.

(** Two claims that differ are told apart by the table's key. *)
Lemma claims_apart (d : db) i j r :
  consistent d → entry d i = Some r → entry d j = None → selects (identity_conds j) r = false.
Proof.
  intros Hd Hi Hj. apply not_true_iff_false. intros Hsel. apply found_Some in Hi as [Hi _].
  assert (entry d j = Some r) by (eapply found_elem; [done|left|apply identity_key|done..]). congruence.
Qed.

Lemma mission_kept_frame f (d d1 d4 d' : db) :
  (∀ m, lifecycle_of d1 m = lifecycle_of d m) → mission_kept f d1 d4 → (∀ m, lifecycle_of d' m = lifecycle_of d4 m) →
  mission_kept f d d'.
Proof.
  intros H1 Hm H4. unfold mission_kept in *. destruct (mission_lifecycle f) as [target|]; [|intros m; by rewrite H4, Hm, H1].
  destruct Hm as (M1&M2&M3). split; [by rewrite H4|]. rewrite H1 in M3. split; [|done]. intros x Hx. rewrite H4, <- H1. by apply M2.
Qed.

(** One transaction: a known event is answered with its ordinal, a new one recorded exactly. *)
Lemma fact_persist_Ok f o d d' :
  consistent d → vouched d → one_event f → persist limit f d = Ok (o, d') →
  (∃ n bytes, o = {| captured := DUPLICATE; captured_ordinal := n |} ∧ completed d (inbox f) bytes ∧
              decode_ordinal limit (Some bytes) = Ok n ∧ d' ≡ d) ∨
  (∃ n, o = {| captured := RECORDED; captured_ordinal := n |} ∧ recorded_exactly f n d d').
Proof.
  intros Hd Hv Hone Hp. assert (Hp' := Hp). unfold persist in Hp'. apply tx_bind_Ok in Hp' as (known&d1&Hc&Hp').
  destruct known as [k|].
  { apply tx_ret_Ok in Hp' as [<- <-]. apply claim_inbox_Ok in Hc; [|done]. destruct (entry d (inbox f)); [|by destruct Hc].
    destruct Hc as (Hs&n&b&[= ->]&Hb&Hdec). left. by exists n, b. }
  right. clear Hp'. rewrite (persist_new _ _ _ Hc) in Hp. apply tx_bind_Ok in Hp as (n&d4&Hw&Hp).
  destruct (unlinked _ _ _ _ _ Hd Hv Hone Hc Hw) as (He&Hnew&Hd4&Hlink&Hh4).
  assert (Hd1 := claim_inbox_effect _ _ _ _ Hc Hd). apply written_Ok in Hw as (_&Hn&F4&Hsource&Haudit&Htimes&Hmission); [|done].
  apply tx_bind_Ok in Hp as (rc&d5&Hl%lift_Ok&Hp). assert (Hd5 := link_effect _ _ _ _ _ _ Hl Hd4).
  apply link_Ok in Hl as [F5 Hl]; [|done]. rewrite Hlink in Hl. destruct Hl as (->&Hahead&Hw&Hothers&Hrows).
  apply tx_bind_Ok in Hp as (u&d6&Hcomp&Hp). apply tx_ret_Ok in Hp as [<- <-].
  apply complete_inbox_Ok in Hcomp as (Hans&F6&Hkept); [|done]. rewrite Hh4 in Hahead.
  assert (F1 : confined [BROKER_INBOX] d d1) by (intros t Ht; apply (replaces_frame _ _ _ _ _ Hnew); intros ->; apply Ht; left).
  assert (FR : confined [BROKER_INBOX; DASHBOARD_BROKER_SOURCE; DASHBOARD_BROKER_EVENT] d4 d6)
    by (transitivity d5; (eapply confined_sub; [eassumption|reflexivity])).
  exists n. split; [done|]. split; [done|]. split; [done|]. split; [done|].
  split; [|split; [|split; [|split; [|split; [done|split; [|split; [|split; [|split]]]]]]]].
  - intros i r Hi. apply Hkept; [|by apply (claims_apart d i (inbox f) r)].
    unfold entry, found in *. rewrite (F5 BROKER_INBOX), (F4 BROKER_INBOX) by by_decide.
    fold (found d1 BROKER_INBOX (identity_conds i)). rewrite (found_snoc _ _ _ _ _ Hnew). unfold found. by rewrite Hi.
  - unfold source_kept, source_entry, found in *. rewrite (FR SOURCE_EVENT) by by_decide.
    by rewrite (F1 SOURCE_EVENT) in Hsource by by_decide.
  - rewrite (FR AUDIT_RECORD) by by_decide. by rewrite Haudit, (F1 AUDIT_RECORD) by by_decide.
  - intros m rs Ht. rewrite (frame_timeline _ _ _ _ _ F1) in Ht by by_decide. destruct (Htimes m rs Ht) as [Ht' Hnum].
    split; [|done]. by rewrite <- (frame_timeline _ _ _ _ _ F6), <- (frame_timeline _ _ _ _ _ F5) by by_decide.
  - by rewrite (frame_high _ _ _ _ F6) by by_decide.
  - intros s Hs. rewrite (frame_high _ _ _ _ F6) by by_decide. by rewrite Hothers.
  - rewrite (F6 DASHBOARD_BROKER_EVENT) by by_decide. rewrite Hrows.
    by rewrite (F4 DASHBOARD_BROKER_EVENT), (F1 DASHBOARD_BROKER_EVENT) by by_decide.
  - apply (mission_kept_frame f d d1 d4); [|done|]; intros m;
      unfold lifecycle_of, mission_entry, found; [by rewrite (F1 DASHBOARD_MISSION) by by_decide|by rewrite (FR DASHBOARD_MISSION) by by_decide].
  - transitivity d1; [by apply (confined_all _ _ _ F1)|]. transitivity d4; [by apply (confined_all _ _ _ F4)|].
    transitivity d5; [by apply (confined_all _ _ _ F5)|by apply (confined_all _ _ _ F6)].
Qed.

(** ** The recorder's invariant *)

(** The sequences linked of a source, in the order of their linking. *)
Definition linked_sequence (r : row) : option Z := match cell r "source_sequence" with SInt n => Some n | _ => None end.
Definition sequences (d : db) (s : string) : list Z :=
  omap linked_sequence (where_rows (source_conds s) (rows d DASHBOARD_BROKER_EVENT)).

(** A source's events were linked in the order of their sequences, none beyond its high-water. *)
Definition ordered_streams (d : db) : Prop :=
  ∀ s, StronglySorted Z.lt (sequences d s) ∧ Forall (λ n, ∃ k, high_water d s = Some k ∧ n ≤ k) (sequences d s).

(** Every link names a record of the audit log. *)
Definition anchored (d : db) : Prop :=
  ∀ r, r ∈ rows d DASHBOARD_BROKER_EVENT → ∃ a, a ∈ rows d AUDIT_RECORD ∧
    cell a "mission_id" = cell r "audit_mission_id" ∧ cell a "ordinal" = cell r "audit_ordinal".

Record well_recorded (d : db) : Prop := {
  wr_consistent : consistent d; wr_vouched : vouched d; wr_streams : ordered_streams d; wr_anchored : anchored d
}.

Record grown (d d' : db) : Prop := {
  grown_well : well_recorded d';
  grown_entries i r : entry d i = Some r → entry d' i = Some r;
  grown_sources : rows d SOURCE_EVENT `prefix_of` rows d' SOURCE_EVENT;
  grown_audit : rows d AUDIT_RECORD `prefix_of` rows d' AUDIT_RECORD;
  grown_links : rows d DASHBOARD_BROKER_EVENT `prefix_of` rows d' DASHBOARD_BROKER_EVENT;
  grown_high s : forward (high_water d s) (high_water d' s);
  grown_timeline m rs : timeline d m rs → ∃ rs', timeline d' m (rs ++ rs')%list;
  grown_lifecycle m s : lifecycle_of d m = Some (state_name s) →
    ∃ s', lifecycle_of d' m = Some (state_name s') ∧ reaches (λ a b, ∃ e, Mission.step a e b) s s'
}.

Definition grows (d d' : db) : Prop := well_recorded d → grown d d'.

#[global] Instance grows_preorder : PreOrder grows.
Proof.
  split.
  - intros d Hd. split; [done..| |].
    + intros m rs Ht. exists []. by rewrite app_nil_r.
    + intros m s Hs. exists s. split; [done|constructor].
  - intros d1 d2 d3 H1 H2 Hd. destruct (H1 Hd) as [W1 E1 S1 A1 L1 F1 T1 M1]. destruct (H2 W1) as [W2 E2 S2 A2 L2 F2 T2 M2].
    split; [done|by eauto|by etransitivity|by etransitivity|by etransitivity| | |].
    + intros s. etransitivity; [apply F1|apply F2].
    + intros m rs Ht. destruct (T1 m rs Ht) as [rs1 Ht1]. destruct (T2 m _ Ht1) as [rs2 Ht2].
      exists (rs1 ++ rs2)%list. by rewrite (assoc_L (++)%list).
    + intros m s Hs. destruct (M1 m s Hs) as (s1&Hs1&R1). destruct (M2 m s1 Hs1) as (s2&Hs2&R2).
      exists s2. split; [done|]. by eapply reaches_trans.
Qed.

(** A store whose recorder tables are the same says the same. *)
Lemma grows_frame d d' : consistent d' → (∀ t, t ∈ RECORDER_TABLES → rows d' t = rows d t) → grows d d'.
Proof.
  intros Hd' Hs [C V S A].
  assert (T : rows d' BROKER_INBOX = rows d BROKER_INBOX ∧ rows d' SOURCE_EVENT = rows d SOURCE_EVENT ∧
              rows d' DASHBOARD_MISSION = rows d DASHBOARD_MISSION ∧ rows d' AUDIT_SEQUENCE = rows d AUDIT_SEQUENCE ∧
              rows d' AUDIT_RECORD = rows d AUDIT_RECORD ∧ rows d' DASHBOARD_BROKER_SOURCE = rows d DASHBOARD_BROKER_SOURCE ∧
              rows d' DASHBOARD_BROKER_EVENT = rows d DASHBOARD_BROKER_EVENT) by (split_and!; apply Hs; by_decide).
  destruct T as (T1&T2&T3&T4&T5&T6&T7).
  assert (He : ∀ i, entry d' i = entry d i) by (intros i; unfold entry, found; by rewrite T1).
  assert (Hh : ∀ s, high_water d' s = high_water d s) by (intros s; unfold high_water, found; by rewrite T6).
  split.
  - split; [done| | |].
    + intros i. rewrite He. unfold link_entry, found. rewrite T7. apply V.
    + intros s. unfold sequences. rewrite T7, Hh. apply S.
    + intros r. rewrite T7, T5. apply A.
  - intros i r. by rewrite He.
  - by rewrite T2.
  - by rewrite T5.
  - by rewrite T7.
  - intros s. by rewrite Hh.
  - intros m rs Ht. exists []. rewrite app_nil_r. revert Ht. unfold timeline, mission_rows, counter, found. by rewrite T4, T5.
  - intros m s Hm. exists s. unfold lifecycle_of, mission_entry, found in *. split; [by rewrite T3|constructor].
Qed.

Lemma grows_equiv d d' : d' ≡ d → grows d d'.
Proof.
  intros Hs Hd. apply grows_frame; [|by intros t _; apply Hs|done].
  intros t. rewrite (Hs t). apply Hd.
Qed.

Lemma state_name_inj s s' : state_name s = state_name s' → s = s'.
Proof. by destruct s, s'. Qed.

Lemma link_row_selected e m n s : selects (source_conds s) (link_row e m n) = bool_decide (broker_source e = s).
Proof.
  cbn [selects source_conds forallb holds]. cells. rewrite andb_true_r. apply bool_decide_ext. naive_solver.
Qed.

Lemma recorded_sequences f n d d' s :
  recorded_exactly f n d d' →
  sequences d' s = (sequences d s ++ if bool_decide (broker_source (fact_event f) = s) then [source_sequence (fact_event f)] else [])%list.
Proof.
  intros (_&_&_&_&_&_&_&_&_&_&Hrows&_). unfold sequences. rewrite Hrows, where_rows_app, omap_app, where_rows_cons, link_row_selected.
  by case_bool_decide.
Qed.

Lemma sorted_snoc (l : list Z) n : StronglySorted Z.lt l → Forall (λ m, m < n) l → StronglySorted Z.lt (l ++ [n]).
Proof.
  induction 1 as [|m l Hl IH Hm]; intros Hn; [by repeat constructor|]. apply Forall_cons in Hn as [Hmn Hn].
  cbn. constructor; [by apply IH|]. apply Forall_app. by split; [|constructor].
Qed.

Lemma recorded_streams f n d d' : recorded_exactly f n d d' → ordered_streams d → ordered_streams d'.
Proof.
  intros Hr Hd s. rewrite (recorded_sequences _ _ _ _ s Hr). destruct Hr as (_&_&_&_&_&_&_&Hnew&Hw&Hother&_).
  destruct (Hd s) as [Hs Hf]. case_bool_decide as Hs'; [subst s|].
  - assert (Hlt : Forall (λ m, m < source_sequence (fact_event f)) (sequences d (broker_source (fact_event f)))).
    { eapply Forall_impl; [exact Hf|]. intros m (k&Hk&Hle). rewrite Hk in Hnew. cbv beta. lia. }
    split; [by apply sorted_snoc|]. rewrite Hw. apply Forall_app. split.
    + eapply Forall_impl; [exact Hlt|]. intros m Hm. cbv beta in Hm. exists (source_sequence (fact_event f)). split; [done|lia].
    + constructor; [|done]. eexists. split; [done|lia].
  - rewrite app_nil_r. split; [done|]. by rewrite Hother by done.
Qed.

(** A recorded notification keeps the invariant, and only adds. *)
Lemma recorded_grows f n d d' : one_event f → consistent d' → recorded_exactly f n d d' → grows d d'.
Proof.
  intros (Hcons&Hsrc&Hid) Hd' Hr [C V S A]. pose proof (recorded_streams _ _ _ _ Hr S) as S'.
  destruct Hr as (Hnone&(b&(r&at_&Hr&_)&_)&Hn&Hkept&Hsource&Haudit&Htime&Hnew&Hw&Hother&Hlinks&Hlife&_). split.
  - split; [done| |done|].
    + intros i Hi Hl. destruct (decide (same_identity i (inbox f))) as [Hsame|Hne].
      { exists r. unfold entry in *. by rewrite (same_identity_conds _ _ Hsame). }
      destruct (V i Hi) as [y Hy]; [|exists y; by apply Hkept]. unfold link_entry, found in *. rewrite Hlinks, where_rows_app in Hl.
      destruct (where_rows _ (rows d DASHBOARD_BROKER_EVENT)) as [|y l]; [|done]. cbn [app head] in Hl.
      rewrite where_rows_cons in Hl. destruct (selects _ (link_row _ _ _)) eqn:Hsel; [|by destruct Hl].
      exfalso. apply Hne. cbn [selects event_conds forallb holds] in Hsel. rewrite andb_true_r, andb_true_iff, !sql_eq_true in Hsel.
      destruct Hsel as [[_ H1] [_ H2]]. revert H1 H2. cells. intros [=] [=]. split; [congruence|]. split; congruence.
    + intros x Hx. rewrite Hlinks in Hx. rewrite Haudit. apply elem_of_app in Hx as [Hx|Hx%list_elem_of_singleton].
      * destruct (A x Hx) as (a&Ha&Hm). exists a. split; [|done]. apply elem_of_app. by left.
      * subst x. eexists. split; [apply elem_of_app; right; left|]. by cells.
  - done.
  - destruct Hsource as [->|[-> _]]; [by eexists|done].
  - rewrite Haudit. by eexists.
  - rewrite Hlinks. by eexists.
  - intros s. destruct (decide (s = broker_source (fact_event f))) as [->|Hs]; [|by rewrite Hother].
    rewrite Hw. destruct (high_water d _); cbn; lia || done.
  - intros m rs Ht. destruct (Htime m rs Ht) as [Ht' _]. case_decide; [by eexists|]. exists []. by rewrite app_nil_r.
  - intros m s Hs. unfold mission_kept in Hlife. destruct (mission_lifecycle f) as [target|]; [|exists s; split; [by rewrite Hlife|constructor]].
    destruct Hlife as (L1&L2&L3). destruct (decide (m = StoreAudit.mission_id (audit f))) as [->|Hm]; [|exists s; split; [by rewrite L2|constructor]].
    exists target. split; [done|]. destruct L3 as [L3|(s0&e&L3&Hst)]; rewrite Hs in L3; injection L3 as L3;
      apply state_name_inj in L3 as ->; [constructor|].
    eapply reaches_step; [by exists e|constructor].
Qed.
(** ** Captures *)

Lemma fact_persist_effect f : effect stays_consistent (persist limit f).
Proof.
  assert (H1 : ∀ i, effect stays_consistent (claim_inbox limit i)) by (intros i; unfold claim_inbox; pose proof claim_effect; effects).
  assert (H2 : ∀ m t, effect stays_consistent (apply_mission_lifecycle m t)) by (intros; unfold apply_mission_lifecycle; effects).
  assert (H3 : ∀ r, effect stays_consistent (append_audit r)) by (intros r; unfold append_audit; pose proof append_effect; effects).
  assert (H4 : ∀ i n at_, effect stays_consistent (complete_inbox i n at_)) by (intros; unfold complete_inbox; pose proof complete_effect; effects).
  unfold persist. effects.
Qed.

(** A guaranteed delivery was settled so, and this is what was returned unless the port raised. *)
Definition settled_as (guaranteed : bool) (s : recorder_settlement) (o : CaptureOutcome) (c : capturing) : Prop :=
  if guaranteed
  then asked c = [s] ∧ returned c = match settle_recorder s with Some e => Err (SettlementFailed e) | None => Ok o end
  else asked c = [] ∧ returned c = Ok o.

Definition outcome_of (r : CaptureDecision) (n : Z) : CaptureOutcome := {| captured := r; captured_ordinal := n |}.

(** Left for the broker to redeliver. *)
Definition left_alone (d : db) (c : capturing) : Prop := (∃ e, returned c = Err e) ∧ asked c = [] ∧ store c = d.

(** A captured notification: answered from its claim, refused for good, or recorded. *)
(** The store refuses the event with one of the five refusals no redelivery can change. *)
Definition refused_for_good (f : RecordingFact) (d : db) : Prop :=
  ∃ refusal v, persist limit f d = Err (EventFailure (Sql.Refused refusal v)) ∧ refusal ∈ PERMANENT_STORE_REFUSALS.

Definition capture_settled (g : bool) (f : RecordingFact) (d : db) (c : capturing) : Prop :=
  (∃ n bytes, settled_as g Accepts (outcome_of DUPLICATE n) c ∧ completed d (inbox f) bytes ∧
              decode_ordinal limit (Some bytes) = Ok n ∧ store c ≡ d) ∨
  (refused_for_good f d ∧ settled_as g Rejects (outcome_of REFUSED 0) c ∧ store c = d) ∨
  (∃ n, settled_as g Accepts (outcome_of RECORDED n) c ∧ recorded_exactly f n d (store c)).

Lemma settling_settled g s o d : settled_as g s o (settling g s o d) ∧ store (settling g s o d) = d.
Proof. by destruct g. Qed.

Lemma capture_cases g x d :
  consistent d → vouched d →
  left_alone d (capture limit consumer g x d) ∨
  ∃ f, recording_fact consumer x = Ok f ∧ capture_settled g f d (capture limit consumer g x d).
Proof.
  intros Hd Hv. unfold capture. case_bool_decide; [left; split; [by eexists|done]|].
  destruct (Bool.eqb _ _); [|left; split; [by eexists|done]]. cbn [negb].
  destruct (recording_fact consumer x) as [f|e] eqn:Hf; [|left; split; [by eexists|done]].
  destruct (transaction (persist limit f) d) as [[o|e] d'] eqn:Ht.
  - apply transaction_Ok, fact_persist_Ok in Ht; [|done..|by eapply recording_fact_one]. right. exists f. split; [done|].
    destruct (settling_settled g Accepts o d') as [Hs Hst].
    destruct Ht as [(n&b&->&Hb&Hn&Hs')|(n&->&Hr)].
    + left. exists n, b. by rewrite Hst.
    + right; right. exists n. by rewrite Hst.
  - apply transaction_Err in Ht as [Ht ->].
    destruct e as [| | | | | | | |[r v| |]| | | |]; try (left; split; [by eexists|done]).
    case_bool_decide; [|left; split; [by eexists|done]]. right. exists f. split; [done|]. right; left.
    split; [by exists r, v|]. apply settling_settled.
Qed.

Lemma capture_consistent g x d : consistent d → consistent (store (capture limit consumer g x d)).
Proof.
  intros Hd. unfold capture. case_bool_decide; [done|]. destruct (Bool.eqb _ _); [|done]. cbn [negb].
  destruct (recording_fact consumer x) as [f|e]; [|done].
  destruct (transaction (persist limit f) d) as [[o|e] d'] eqn:Ht.
  - apply transaction_Ok in Ht. rewrite (proj2 (settling_settled g Accepts o d')). by eapply fact_persist_effect.
  - apply transaction_Err in Ht as [_ ->]. destruct e as [| | | | | | | |[r v| |]| | | |]; try done.
    case_bool_decide; [|done]. by rewrite (proj2 (settling_settled g Rejects _ d)).
Qed.

Lemma capture_grows g x d : grows d (store (capture limit consumer g x d)).
Proof.
  intros Hd. destruct (capture_cases g x d (wr_consistent _ Hd) (wr_vouched _ Hd)) as [(_&_&->)|(f&Hf&Hc)]; [by apply grows_equiv|].
  destruct Hc as [(n&b&_&_&_&Hs)|[(_&_&->)|(n&_&Hr)]]; [by apply grows_equiv|by apply grows_equiv|].
  apply (recorded_grows f n); [by eapply recording_fact_one| |done|done]. apply capture_consistent, Hd.
Qed.
(** ** Histories *)

(** What the recorder does to its store over a list of received inputs, each with the instant of
    its refusal, should it be one. *)
Definition recorder_run (d : db) (l : list (string * option recorder_ingress)) : db :=
  foldl (λ d s, left_store (process_next limit consumer s.1 s.2 d)) d l.

Lemma process_grows observed i d : grows d (left_store (process_next limit consumer observed i d)).
Proof.
  intros Hd. destruct i as [[f|x g|c g]|]; cbn [process_next left_store]; try by apply grows_equiv.
  - by apply capture_grows.
  - destruct (record_candidate observed c d) as [[o|e] d'] eqn:Hr.
    + apply transaction_Ok in Hr.
      assert (Hg : grown d d').
      { apply grows_frame; [by eapply record_refusal_effect; [|apply Hd]| |done].
        intros t Ht. apply (record_refusal_confined _ _ _ _ Hr). intros ->%list_elem_of_singleton.
        revert Ht. apply (bool_decide_unpack (BROKER_REFUSAL ∉ RECORDER_TABLES)). by vm_compute. }
      by destruct g.
    + apply transaction_Err in Hr as [_ ->]. by apply grows_equiv.
Qed.

Lemma recorder_run_grows l : ∀ d, grows d (recorder_run d l).
Proof.
  induction l as [|s l IH]; intros d; [by apply grows_preorder|]. etransitivity; [apply process_grows|apply IH].
Qed.

(** C8: the recorder's store is a faithful, append-only history.  Whatever it receives, in
    whatever order and however often: audit records, source events and broker links are only
    ever added, and a mission's records stay numbered one, two, and so on; a source's events are
    linked in the strict order of their sequences, and its high-water never moves back; every
    link names a record of the log; every finished claim keeps its result; and a mission's
    lifecycle moves only along the edges of its machine. *)
Theorem recorder_history (d : db) (l : list (string * option recorder_ingress)) (Hd : well_recorded d) :
  let d' := recorder_run d l in
  (rows d AUDIT_RECORD `prefix_of` rows d' AUDIT_RECORD ∧ rows d SOURCE_EVENT `prefix_of` rows d' SOURCE_EVENT ∧
   rows d DASHBOARD_BROKER_EVENT `prefix_of` rows d' DASHBOARD_BROKER_EVENT) ∧
  (∀ m rs, timeline d m rs → ∃ rs', timeline d' m (rs ++ rs')%list) ∧
  (∀ s, StronglySorted Z.lt (sequences d' s) ∧ forward (high_water d s) (high_water d' s)) ∧
  (∀ r, r ∈ rows d' DASHBOARD_BROKER_EVENT → ∃ a, a ∈ rows d' AUDIT_RECORD ∧
     cell a "mission_id" = cell r "audit_mission_id" ∧ cell a "ordinal" = cell r "audit_ordinal") ∧
  (∀ i bytes, completed d i bytes → completed d' i bytes) ∧
  (∀ m s, lifecycle_of d m = Some (state_name s) →
     ∃ s', lifecycle_of d' m = Some (state_name s') ∧ reaches (λ a b, ∃ e, Mission.step a e b) s s').
Proof.
  intros d'. destruct (recorder_run_grows l d Hd) as [[_ _ S A] E Hsrc Haud Hlnk Hh Ht Hm]. split_and!; try done.
  - intros s. split; [apply S|apply Hh].
  - intros i bytes (r&at_&Hr&Hrest). exists r, at_. split; [by apply E|done].
Qed.

(** ** One notification *)

(** C12: a notification is settled only after what it caused is durable.  It is left unsettled
    with the store untouched; or its claim answers it with the ordinal it was first given and
    nothing is written; or the store refuses its event for good, and it is rejected with nothing
    written, not even the refusal (ADR-0146 asks for a durable refusal first); or it is
    recorded: the claim and its result, the source event, one audit record at the mission's next
    ordinal, the link that moves its source's high-water past every earlier sequence, and the
    mission's step when it announces one, all in one commit. *)
Theorem notification_recorded (g : bool) (x : ReceivedNotification) (d : db) (Hd : well_recorded d) :
  let c := capture limit consumer g x d in
  well_recorded (store c) ∧
  (left_alone d c ∨
   ∃ f, recording_fact consumer x = Ok f ∧
     ((∃ n bytes, settled_as g Accepts (outcome_of DUPLICATE n) c ∧ completed d (inbox f) bytes ∧
                  decode_ordinal limit (Some bytes) = Ok n ∧ store c ≡ d) ∨
      (refused_for_good f d ∧ settled_as g Rejects (outcome_of REFUSED 0) c ∧ store c = d) ∨
      (∃ n, settled_as g Accepts (outcome_of RECORDED n) c ∧ recorded_exactly f n d (store c)))).
Proof.
  intros c. split; [by apply capture_grows|]. exact (capture_cases g x d (wr_consistent _ Hd) (wr_vouched _ Hd)).
Qed.

(** ** Once *)

(** A capture that was not refused ran its transaction. *)
Lemma capture_ran g x d o :
  returned (capture limit consumer g x d) = Ok o → captured o ≠ REFUSED →
  ∃ f, recording_fact consumer x = Ok f ∧ recording_policy (Topics.family (topic x)) = RECORD ∧
       bool_decide (delivery_for (Topics.family (topic x)) = GUARANTEED) = g ∧
       persist limit f d = Ok (o, store (capture limit consumer g x d)).
Proof.
  unfold capture. case_bool_decide as Hp; [done|]. destruct (Bool.eqb _ _) eqn:Hg; [|done]. cbn [negb].
  destruct (recording_fact consumer x) as [f|e]; [|done]. intros Hr Ho. exists f. split; [done|].
  split; [by destruct (recording_policy _)|]. split; [by apply Bool.eqb_prop in Hg|]. revert Hr.
  assert (Hset : ∀ s o' d', returned (settling g s o' d') = Ok o → o' = o).
  { intros s o' d'. destruct g; cbn; [destruct (settle_recorder s); [done|]|]; by intros [=]. }
  destruct (transaction (persist limit f) d) as [[o'|e] d'] eqn:Ht.
  - apply transaction_Ok in Ht. intros Hr. rewrite (proj2 (settling_settled g Accepts o' d')). by rewrite <- (Hset _ _ _ Hr).
  - destruct e as [| | | | | | | |[r v| |]| | | |]; try (intros Hr; discriminate Hr). destruct (bool_decide (r ∈ _)); [|intros Hr; discriminate Hr].
    intros Hr. by rewrite <- (Hset _ _ _ Hr) in Ho.
Qed.

(** A fact names the same claim whenever it was received. *)
Lemma recording_fact_inbox x x' f :
  topic x' = topic x → envelope x' = envelope x → recording_fact consumer x = Ok f →
  ∃ f', recording_fact consumer x' = Ok f' ∧ inbox f' = inbox f.
Proof.
  intros Ht He. unfold recording_fact. rewrite Ht, He. intros H. do 5 (apply bind_Ok in H as (?&->&H); cbn [mbind result_bind]).
  injection H as <-. eexists. by split.
Qed.

(** The server runs the two statements a repeated claim needs. *)
Definition serves_claim (i : InboxIdentity) (d : db) : Prop :=
  permits (claim_statement i) d = true ∧ ∀ d', permits (stored_statement i) d' = true.

Lemma capture_again g x f n d :
  (0 < limit)%nat → consistent d → 0 < n → recording_fact consumer x = Ok f →
  recording_policy (Topics.family (topic x)) = RECORD → bool_decide (delivery_for (Topics.family (topic x)) = GUARANTEED) = g →
  answered_with d (inbox f) n → admitted BROKER_INBOX (StoreInbox.new_row (inbox f)) = true → serves_claim (inbox f) d →
  settled_as g Accepts (outcome_of DUPLICATE n) (capture limit consumer g x d) ∧ store (capture limit consumer g x d) ≡ d.
Proof.
  intros Hl Hd Hn Hf Hpol Hdel (b&Hb&Hcan) Had [Hp Hp'].
  pose proof (claim_completed_runs (inbox f) (inbox f) b d Hd Hp Hp' Had ltac:(done) Hb) as Hc.
  rewrite decide_True in Hc by done. destruct Hc as (d'&Hc&Hs).
  assert (Hin : persist limit f d = Ok (outcome_of DUPLICATE n, d')).
  { unfold persist, claim_inbox. rewrite (tx_bind_run _ _ d (Some n) d'); [reflexivity|].
    rewrite (tx_bind_run _ _ _ _ _ (lift_run InboxFailure _ _ _ Hc)). cbn [decision prior].
    rewrite (tx_bind_run _ _ d' n d'); [done|]. unfold pure. by rewrite (ordinal_reads_back n b Hl Hn Hcan). }
  unfold capture. rewrite Hpol, bool_decide_eq_false_2 by done. rewrite Hdel, Bool.eqb_reflx. cbn [negb].
  rewrite Hf. unfold transaction. rewrite Hin. destruct (settling_settled g Accepts (outcome_of DUPLICATE n) d') as [Hset ->].
  split; [exact Hset|done].
Qed.

Lemma capture_conflict g x f r d :
  consistent d → recording_fact consumer x = Ok f → entry d (inbox f) = Some r →
  cell r "canonical_digest" ≠ SText (StoreInbox.canonical_digest (inbox f)) →
  left_alone d (capture limit consumer g x d).
Proof.
  intros Hd Hf He Hne. assert (Hc : ∃ e, claim (inbox f) d = Err e).
  { destruct (claim (inbox f) d) as [[o d']|e] eqn:Hc; [|by eexists]. exfalso. apply claim_Ok in Hc; [|done]. rewrite He in Hc.
    destruct Hc as (_&b&_&(r'&at_&He'&Hdig&_)). congruence. }
  destruct Hc as [e Hc]. assert (Hin : persist limit f d = Err (InboxFailure e)).
  { unfold persist. apply tx_bind_Err. left. unfold claim_inbox. apply tx_bind_Err. left. unfold lift. by rewrite Hc. }
  unfold capture. case_bool_decide; [split; [by eexists|done]|]. destruct (Bool.eqb _ _); [|split; [by eexists|done]].
  cbn [negb]. rewrite Hf. unfold transaction. rewrite Hin. split; [by eexists|done].
Qed.

(** C13: a notification is recorded once.  After it was recorded, and whatever was received
    since, every redelivery of its event is accepted with the ordinal it was given and writes
    nothing; and another event under its source and identity is never recorded: the call raises,
    nothing is settled and nothing is written. *)
Theorem recorded_once (g : bool) (x : ReceivedNotification) (n : Z) (d : db) (l : list (string * option recorder_ingress))
    (Hl : (0 < limit)%nat) (Hd : well_recorded d)
    (Hrecorded : returned (capture limit consumer g x d) = Ok (outcome_of RECORDED n)) :
  let d' := recorder_run (store (capture limit consumer g x d)) l in
  ∃ f, recording_fact consumer x = Ok f ∧ StoreAudit.new_row (audit f) (SInt n) ∈ rows d' AUDIT_RECORD ∧
  (∀ x', topic x' = topic x → envelope x' = envelope x → serves_claim (inbox f) d' →
     settled_as g Accepts (outcome_of DUPLICATE n) (capture limit consumer g x' d') ∧
     store (capture limit consumer g x' d') ≡ d') ∧
  (∀ g' x' f', recording_fact consumer x' = Ok f' → same_identity (inbox f') (inbox f) →
     StoreInbox.canonical_digest (inbox f') ≠ StoreInbox.canonical_digest (inbox f) →
     left_alone d' (capture limit consumer g' x' d')).
Proof.
  intros d'. destruct (capture_ran g x d _ Hrecorded) as (f&Hf&Hpol&Hdel&Hran); [done|]. exists f. split; [done|].
  set (d1 := store (capture limit consumer g x d)) in *. pose proof (capture_grows g x d Hd) as [Hd1 _ _ _ _ _ _ _].
  fold d1 in Hd1. pose proof (recorder_run_grows l d1 Hd1) as [[Hd' _ _ _] Hent _ [k Haud] _ _ _ _]. fold d' in Hd', Hent, Haud.
  assert (Had : admitted BROKER_INBOX (StoreInbox.new_row (inbox f)) = true).
  { unfold persist in Hran. apply tx_bind_Ok in Hran as (kn&d2&Hc&_). unfold claim_inbox in Hc.
    apply tx_bind_Ok in Hc as (o&d3&Hc%lift_Ok&_). by eapply claim_admitted; [apply Hd|]. }
  apply fact_persist_Ok in Hran as [(?&?&[=]&_)|(n'&[= <-]&Hx)]; [|apply Hd|apply Hd|by eapply recording_fact_one].
  destruct Hx as (_&(b&(r&at_&He&Hdig&Hb&Hat)&Hcan)&Hn&_&_&Hrow&_). apply Hent in He. split; [|split].
  - rewrite Haud, Hrow. apply elem_of_app. left. apply elem_of_app. right. left.
  - intros x' Ht Henv Hs. destruct (recording_fact_inbox x x' f Ht Henv Hf) as (f'&Hf'&Hi). rewrite <- Hi in *.
    refine (capture_again g x' f' n d' Hl Hd' Hn Hf' _ _ _ Had Hs); [by rewrite Ht..|].
    exists b. split; [by exists r, at_|done].
  - intros g' x' f' Hf' Hsame Hne. apply (capture_conflict g' x' f' r); [done|done| |].
    + unfold entry in *. by rewrite (same_identity_conds _ _ Hsame).
    + rewrite Hdig. congruence.
Qed.

Lemma recorder_run_nil d : recorder_run d [] = d.
Proof. done. Qed.

(** ** A sequence behind its source's *)

(** The same event, had its producer counted it so. *)
Definition resequenced (n : Z) (f : RecordingFact) : RecordingFact := {|
  inbox := inbox f; source_event := source_event f; audit := audit f;
  fact_event := {| broker_source := broker_source (fact_event f); broker_event := broker_event (fact_event f);
                   source_sequence := n; payload_digest := payload_digest (fact_event f) |};
  received_at := received_at f; mission_lifecycle := mission_lifecycle f
|}.

(** An event that would be recorded under another sequence is refused for one its source has
    reached. *)
Lemma behind_refused f k q o d d' :
  well_recorded d → one_event f → (∀ st d', permits st d' = true) →
  high_water d (broker_source (fact_event f)) = Some k → 0 ≤ k → source_sequence (fact_event f) ≤ k →
  persist limit (resequenced q f) d = Ok (o, d') → captured o = RECORDED →
  ∃ x v, persist limit f d = Err (EventFailure (Sql.Refused x v)) ∧ x ∈ PERMANENT_STORE_REFUSALS.
Proof.
  intros [Hd Hv _ _] Hone Hp Hk Hk0 Hle Hq Ho. assert (Hq' := Hq). unfold persist in Hq'.
  apply tx_bind_Ok in Hq' as (known&d1&Hc&Hq'). cbn [resequenced inbox] in Hc.
  destruct known as [n|]; [by apply tx_ret_Ok in Hq' as [<- <-]|]. clear Hq'.
  rewrite (persist_new (resequenced q f) d d1 Hc) in Hq. apply tx_bind_Ok in Hq as (n&d4&Hw&_).
  change (written (resequenced q f)) with (written f) in Hw. rewrite (persist_new f d d1 Hc), (tx_bind_run _ _ _ _ _ Hw).
  destruct (unlinked _ _ _ _ _ Hd Hv Hone Hc Hw) as (_&_&Hd4&Hlink&Hh4).
  exists (if source_sequence (fact_event f) =? k then SEQUENCE_REUSED else STALE_SEQUENCE), (PyInt (source_sequence (fact_event f))).
  split; [|unfold PERMANENT_STORE_REFUSALS; destruct (_ =? _); by_decide].
  apply tx_bind_Err. left. unfold lift. rewrite (link_behind _ _ _ k); [done|done|done|done|by rewrite Hh4|done|done].
Qed.

Lemma document_reads e e' : parse_envelope (PyDict (envelope_document e)) = Ok e' →
  Envelope.source e' = Envelope.source e ∧ Envelope.sequence e' = Envelope.sequence e.
Proof.
  assert (Hget : ∀ x, dict_get (envelope_document x) (KStr "source") = Some (PyStr (Envelope.source x)) ∧
                      dict_get (envelope_document x) (KStr "sequence") = Some (PyStr (Envelope.sequence x)))
    by (intros x; rewrite !envelope_document_members; split; reflexivity).
  intros Hp%envelope_document_equiv. pose proof (Hp (KStr "source")) as H1. pose proof (Hp (KStr "sequence")) as H2.
  destruct (Hget e) as [G1 G2], (Hget e') as [G3 G4]. split; congruence.
Qed.

Lemma rendered_reads n s : sequence_text n = Some s → digits_value 0 s = n ∧ 0 ≤ n.
Proof.
  intros Hs. destruct (sequence_text_ordered n n) as (Hnone&Hsome&_). split; [by apply Hsome|].
  destruct (Z.le_gt_cases 0 n); [done|]. rewrite (proj2 Hnone) in Hs; [done|lia].
Qed.

(** The two records a drone is the source of. *)
Lemma salient_reads run s m drone o text bytes e :
  lifecycle_record (announced_topic (SalientObserved m drone o)) (announced_source run (SalientObserved m drone o)) s
    (announced_payload (SalientObserved m drone o)) = Ok (text, bytes, e) →
  Envelope.source e = event_source drone ∧ digits_value 0 (Envelope.sequence e) = FleetRecords.stamp_sequence s.
Proof.
  unfold lifecycle_record, built. intros ([d e']&H&H')%bind_Ok. apply bind_Ok in H as (rs&Hrs%or_raise_Ok&H).
  apply bind_Ok in H as (ty&_&H). apply bind_Ok in H as (b&_&H). apply bind_Ok in H as (x&Hx%map_err_Ok&H). injection H as <- <-.
  apply bind_Ok in Hx as (y&Hy&Hx). apply bind_Ok in Hx as (?&_&[= <-]). apply document_reads in Hy as [Hs Hq].
  apply bind_Ok in H' as (?&_&H'). apply bind_Ok in H' as (?&_&[= _ _ <-]). rewrite Hs, Hq. split; [done|].
  by apply rendered_reads.
Qed.

Lemma result_reads m drone command state s text d e :
  result_record m drone command state s = Ok (text, d) → parse_envelope (PyDict d) = Ok e →
  Envelope.source e = event_source drone ∧ digits_value 0 (Envelope.sequence e) = DroneCommand.stamp_sequence s ∧
  0 ≤ DroneCommand.stamp_sequence s.
Proof.
  unfold result_record. intros (w&_&H)%bind_Ok Hp. apply bind_Ok in H as (rs&Hrs%or_raise_Ok&H).
  apply bind_Ok in H as (ty&_&H). apply bind_Ok in H as (b&_&H). apply bind_Ok in H as (?&_&H). apply bind_Ok in H as (?&_&H).
  injection H as _ <-. apply document_reads in Hp as [-> ->]. apply rendered_reads in Hrs. by split.
Qed.

(** C25: a drone's sighting is lost to the recorder.  A drone's results and its sightings are
    published under one source, but their sequences are drawn from two counters.  So once a
    result has been recorded, whatever was received since, a sighting whose sequence is not
    beyond the result's is rejected for good and nothing is written, although the same sighting
    counted after the result would have been recorded. *)
Theorem salient_lost (m drone command run : string) (state : Commands.CommandState) (rs : ResultStamp)
    (text text' bytes : string) (doc : members) (re e : Envelope) (s : TelemetryStamp) (seen : SalientObservation)
    (observed observed' : string) (n n' k : Z) (d d'' : db) (l : list (string * option recorder_ingress)) (f : RecordingFact)
    (Hd : well_recorded d) (Hserves : ∀ st d', permits st d' = true)
    (Hresult : result_record m drone command state rs = Ok (text, doc)) (Hread : parse_envelope (PyDict doc) = Ok re)
    (Hrecorded : returned (capture limit consumer true
                   {| topic := DroneCommand.result_topic m drone command; envelope := re; observed_at := observed |} d) = Ok (outcome_of RECORDED n))
    (Hsalient : lifecycle_record (announced_topic (SalientObserved m drone seen)) (announced_source run (SalientObserved m drone seen)) s
                  (announced_payload (SalientObserved m drone seen)) = Ok (text', bytes, e))
    (Hbehind : FleetRecords.stamp_sequence s ≤ DroneCommand.stamp_sequence rs) :
  let x := {| topic := announced_topic (SalientObserved m drone seen); envelope := e; observed_at := observed' |} in
  let d' := recorder_run (store (capture limit consumer true
              {| topic := DroneCommand.result_topic m drone command; envelope := re; observed_at := observed |} d)) l in
  recording_fact consumer x = Ok f → persist limit (resequenced k f) d' = Ok (outcome_of RECORDED n', d'') →
  settled_as true Rejects (outcome_of REFUSED 0) (capture limit consumer true x d') ∧
  store (capture limit consumer true x d') = d'.
Proof.
  intros x d' Hf Hq. destruct (result_reads _ _ _ _ _ _ _ _ Hresult Hread) as (Hsrc&Hseq&H0).
  destruct (salient_reads _ _ _ _ _ _ _ _ Hsalient) as [Hsrc' Hseq'].
  destruct (capture_ran true _ d _ Hrecorded) as (fr&Hfr&_&_&Hran); [done|].
  pose proof (capture_grows true {| topic := DroneCommand.result_topic m drone command; envelope := re; observed_at := observed |} d Hd)
    as [Hd1 _ _ _ _ _ _ _].
  pose proof (recorder_run_grows l _ Hd1) as [Hd' _ _ _ _ Hh _ _]. fold d' in Hd', Hh.
  apply fact_persist_Ok in Hran as [(?&?&[=]&_)|(?&_&Hx)]; [|apply Hd|apply Hd|by eapply recording_fact_one].
  destruct Hx as (_&_&_&_&_&_&_&_&Hw&_). apply recording_fact_source in Hfr as [Hb Hbq]. cbn [envelope] in Hb, Hbq.
  rewrite Hb, Hsrc in Hw. specialize (Hh (event_source drone)). rewrite Hw, Hbq, Hseq in Hh.
  destruct (high_water d' (event_source drone)) as [h|] eqn:Hhw; [|done]. cbn in Hh.
  pose proof (recording_fact_source _ _ Hf) as [Hb' Hbq']. cbn [envelope x] in Hb', Hbq'.
  destruct (behind_refused f h k (outcome_of RECORDED n') d' d'' Hd' (recording_fact_one _ _ Hf) Hserves) as (y&v&Hper&Hin);
    [by rewrite Hb', Hsrc'|lia|rewrite Hbq', Hseq'; lia|exact Hq|done|].
  unfold capture. cbn [topic x announced_topic Topics.family]. rewrite bool_decide_eq_false_2 by done. cbn [delivery_for].
  rewrite bool_decide_eq_true_2 by done. cbn [Bool.eqb negb]. fold x. rewrite Hf. unfold transaction. rewrite Hper.
  rewrite bool_decide_eq_true_2 by done. apply settling_settled.
Qed.
End theorems.

(** ** A sample run *)

#[local] Existing Instances ascii_normalization memory.

#[local] Instance quiet_recorder : RecorderPort := {| recorder_error := Empty_set; settle_recorder := λ _, None |}.

(** Identifiers counted up from one, and a clock that stands. *)
#[local] Instance counted_supply : Supply :=
  {| supply := Z; identifiers := λ n, ("1" ++ zero_padded 31 n, n + 1); clock := λ n, ("2026-07-28T09:00:01.000Z", n) |}.

(** The stamps of a process that has answered nothing. *)
Definition unused : CountingStamps := {| run_correlation := "run-1"; FleetRecords.sequences := []; source_of := 0 |}.
Definition result_stamp : ResultStamp := Eval vm_compute in (next_result_stamp "drone-a" "trace-1" "event-1" unused).1.

Definition seen : SalientObservation :=
  {| observation := SALIENT_OBSERVATION; FleetRecords.latitude_microdegrees := 46002700; FleetRecords.longitude_microdegrees := 7000000;
     detail := "A high-visibility artifact held across the sweep of sector-1." |}.
Abbreviation salient := (SalientObserved "mission-1" "drone-a" seen).

(** The first sighting, after the first result. *)
Definition salient_stamp : TelemetryStamp := Eval vm_compute in
  (next_stamp (announced_producer salient) (next_result_stamp "drone-a" "trace-1" "event-1" unused).2).1.

Definition result_document : string * members := Eval vm_compute in
  default ("", []) (ok_value (result_record "mission-1" "drone-a" "command-1" Commands.ACKNOWLEDGED result_stamp)).

Definition nothing_read : Envelope := {|
  Envelope.id := ""; Envelope.source := ""; Envelope.type := ""; Envelope.subject := ""; Envelope.time := "";
  Envelope.dataschema := ""; Envelope.sequence := ""; Envelope.correlation_id := ""; Envelope.traceparent := "";
  Envelope.data := []; Envelope.causation_id := None; Envelope.tracestate := None
|}.

Definition result_read : Envelope := Eval vm_compute in default nothing_read (ok_value (parse_envelope (PyDict result_document.2))).

Definition salient_record : string * string * Envelope := Eval vm_compute in
  default ("", "", nothing_read) (ok_value (lifecycle_record (announced_topic salient) (announced_source "run-1" salient) salient_stamp
    (announced_payload salient))).

Abbreviation heard_result := {|
  topic := DroneCommand.result_topic "mission-1" "drone-a" "command-1"; envelope := result_read;
  observed_at := "2026-07-28T09:00:02.000Z" |}.
Abbreviation heard_salient := {|
  topic := announced_topic salient; envelope := salient_record.2; observed_at := "2026-07-28T09:00:03.000Z" |}.

Abbreviation sample_capture x d := (capture 4300 "recorder" true x d).

(** A store with no rows. *)
Definition fresh : @db memory := [].

Definition after_result : @db memory := Eval vm_compute in store (sample_capture heard_result fresh).

Lemma result_captured : sample_capture heard_result fresh =
  {| returned := Ok (outcome_of RECORDED 1); store := after_result; asked := [Accepts] |}.
Proof. vm_cast_no_check (eq_refl (sample_capture heard_result fresh)). Qed.

Lemma empty_well_recorded : well_recorded "recorder" fresh.
Proof.
  split; [apply memory_empty| | |].
  - intros i _ Hl. exfalso. revert Hl. unfold link_entry, found. cbn. by intros [].
  - intros s. by repeat constructor.
  - intros r. cbn. by intros ?%elem_of_nil.
Qed.

Definition received_twice : list (string * option recorder_ingress) :=
  [("2026-07-28T09:00:02.000Z", Some (NotificationIngress heard_result true));
   ("2026-07-28T09:00:03.000Z", Some (NotificationIngress heard_salient true));
   ("2026-07-28T09:00:04.000Z", None);
   ("2026-07-28T09:00:05.000Z", Some (NotificationIngress heard_result true))].

Lemma recorder_history_witness :
  StronglySorted Z.lt (sequences (recorder_run 4300 "recorder" fresh received_twice) "urn:aerial-rescue:drone:drone-a") ∧
  sequences (recorder_run 4300 "recorder" fresh received_twice) "urn:aerial-rescue:drone:drone-a" = [0].
Proof.
  destruct (recorder_history 4300 "recorder" fresh received_twice empty_well_recorded) as (_&_&Hs&_).
  split; [exact (proj1 (Hs "urn:aerial-rescue:drone:drone-a"))|].
  vm_cast_no_check (eq_refl (sequences (recorder_run 4300 "recorder" fresh received_twice) "urn:aerial-rescue:drone:drone-a")).
Defined.

Lemma notification_recorded_witness :
  well_recorded "recorder" after_result ∧ ∃ f, recording_fact "recorder" heard_result = Ok f ∧ recorded_exactly f 1 fresh after_result.
Proof.
  destruct (notification_recorded 4300 "recorder" true heard_result fresh empty_well_recorded) as [Hw Hc].
  rewrite result_captured in Hw, Hc. split; [exact Hw|].
  destruct Hc as [[[e He] _]|(f&Hf&[(n&b&[_ Hr]&_)|[(_&[_ Hr]&_)|(n&[_ Hr]&Hx)]])]; [discriminate He|discriminate Hr|discriminate Hr|].
  injection Hr as <-. exists f. split; [exact Hf|exact Hx].
Defined.

Lemma recorded_once_witness : settled_as true Accepts (outcome_of DUPLICATE 1) (sample_capture heard_result after_result).
Proof.
  destruct (recorded_once 4300 "recorder" true heard_result 1 fresh [] ltac:(lia) empty_well_recorded (f_equal returned result_captured))
    as (f&_&_&Hagain&_).
  rewrite recorder_run_nil, result_captured in Hagain.
  exact (proj1 (Hagain heard_result eq_refl eq_refl (conj eq_refl (λ _, eq_refl)))).
Defined.

(** The fact was read, and its transaction recorded it at this ordinal. *)
Definition records_at (n : Z) (fact : result (capture_failure (H := quiet_recorder)) RecordingFact)
    (run : RecordingFact → result capture_failure (CaptureOutcome * @db memory)) : bool :=
  match fact with
  | Ok f =>
      match run f with
      | Ok (o, _) => bool_decide (captured o = RECORDED) && bool_decide (captured_ordinal o = n)
      | Err _ => false
      end
  | Err _ => false
  end.

Lemma records_at_true n fact run : records_at n fact run = true →
  ∃ f d, fact = Ok f ∧ run f = Ok (outcome_of RECORDED n, d).
Proof.
  unfold records_at. destruct fact as [f|e]; [|done]. destruct (run f) as [[[c k] d]|e] eqn:Hr; [|done]. cbn.
  intros [->%bool_decide_eq_true ->%bool_decide_eq_true]%andb_true_iff. by exists f, d.
Qed.

(** Counted after the result, the sighting would be recorded. *)
Lemma salient_would_be_recorded :
  records_at 2 (recording_fact "recorder" heard_salient) (λ f, persist 4300 (resequenced 1 f) after_result) = true.
Proof. vm_cast_no_check (eq_refl true). Qed.

Lemma result_reads_back :
  result_record "mission-1" "drone-a" "command-1" Commands.ACKNOWLEDGED result_stamp = Ok result_document ∧
  parse_envelope (PyDict result_document.2) = Ok result_read ∧
  lifecycle_record (announced_topic salient) (announced_source "run-1" salient) salient_stamp (announced_payload salient) =
    Ok salient_record.
Proof.
  split; [vm_cast_no_check (eq_refl (Ok (E := result_failure) result_document))|].
  split; [vm_cast_no_check (eq_refl (Ok (E := envelope_failure) result_read))|].
  vm_cast_no_check (eq_refl (Ok (E := record_failure) salient_record)).
Qed.

Lemma salient_lost_witness :
  settled_as true Rejects (outcome_of REFUSED 0) (sample_capture heard_salient after_result) ∧
  store (sample_capture heard_salient after_result) = after_result.
Proof.
  destruct (records_at_true _ _ _ salient_would_be_recorded) as (f&d''&Hf&Hp), result_reads_back as (Hres&Hread&Hsal).
  pose proof (f_equal returned result_captured) as Hr.
  pose proof (salient_lost 4300 "recorder" "mission-1" "drone-a" "command-1" "run-1" Commands.ACKNOWLEDGED result_stamp
    result_document.1 salient_record.1.1 salient_record.1.2 result_document.2 result_read salient_record.2 salient_stamp seen
    "2026-07-28T09:00:02.000Z" "2026-07-28T09:00:03.000Z" 1 2 1 fresh d'' [] f empty_well_recorded (λ _ _, eq_refl)
    Hres Hread Hr Hsal (Z.le_refl 0) Hf) as Hlost.
  rewrite recorder_run_nil, result_captured in Hlost. exact (Hlost Hp).
Defined.
