(* ===== verification/Authorization.v ===== *)
(** * Operator commands

    [services/command_gateway/src/aerial_rescue_command_gateway/authorization.py]: one guaranteed
    operator command, authorized or refused in one transaction with every effect of the decision.
    The inbox and idempotency claims, the approval's consumption, the audit record and its
    publication, the command and its progress, and the recorded result commit together, and only
    then is the delivery accepted ([Delivery.handle]). *)

From stdpp Require Import gmap.
From S2P Require Import Prelude PyStr PyVal Canonical JsonBytes Digest Topics Envelope Scoring Idempotency.
From S2P Require Import Sql Schema StoreInbox StoreClaims StoreProposals StoreEvidence StoreApprovals StoreBindings StoreAudit StoreEvents StoreOutbox StoreProgress.
From S2P Require Import Approvals Ingress Artifacts Adapter Delivery.
Local Open Scope string_scope.
Local Open Scope Z_scope.

Definition REFUSAL_CHANNEL : string := "command-gateway-operator-command".

Definition PROPOSAL_KEYS : list string :=
  ["canonicalizationVersion"; "proposalVersion"; "missionId"; "proposalId"; "proposalType";
   "agentName"; "sourceInvocationId"; "sourceEventId"; "sourceEventDigest"; "commandType"; "droneId";
   "latitudeMicrodegrees"; "longitudeMicrodegrees"; "proposalDigest"].

Definition DECISION_KEYS : list string :=
  ["canonicalizationVersion"; "evidenceDecisionVersion"; "missionId"; "proposalId"; "proposalDigest";
   "proposalVersion"; "evidenceDecisionId"; "outcome"; "scoreVersion"; "score"; "band";
   "contributors"; "evidenceDecisionDigest"].

Inductive AuthorizationOutcome : Set := AUTHORIZED | REFUSED | DUPLICATE.

#[export] Instance AuthorizationOutcome_eq_dec : EqDecision AuthorizationOutcome.
Proof. solve_decision. Defined.

Inductive AuthorizationRefusal : Set := INGRESS_KIND | DUPLICATE_RESULT | IDEMPOTENCY_RESULT.

(** Everything that leaves the transaction as an exception. *)
Inductive authorization_failure : Type :=
| AuthorizationError (refusal : AuthorizationRefusal)
| InboxFailure (e : store_failure InboxRefusal)
| ClaimFailure (e : store_failure StoredClaimRefusal)
| ProposalFailure (e : store_failure ProposalRefusal)
| EvidenceFailure (e : store_failure EvidenceStoreRefusal)
| ApprovalFailure (e : store_failure StoredApprovalRefusal)
| BindingFailure (e : store_failure ApprovalBindingRefusal)
| AuditFailure (e : store_failure AuditRefusal)
| EventFailure (e : store_failure ApplicationOutboxRefusal)
| CommandFailure (e : store_failure StagedCommandRefusal)
| ProgressFailure (e : store_failure CommandProgressRefusal)
| AdapterFailure (e : adapter_failure)
| ConsumptionFailure (e : approval_failure)
| DigestFailure (e : digest_failure)
| Uncanonical (e : CanonicalizationError)
| Unreadable (e : decode_error)
| ArtifactFailure (e : artifact_failure)
| IncompleteArtifacts.

Record AuthorizationClock : Set := { reading : ClockReading; runtime_epoch : string }.

Record AuthorizationResult : Set := {
  outcome : AuthorizationOutcome; result_bytes : string; reason : option string
}.

(** [_Decision] *)
Record Decision : Set := {
  authorized : bool; refusal_reason : option string; consumed : option BoundApproval
}.

Definition deny (why : string) : Decision :=
  {| authorized := false; refusal_reason := Some why; consumed := None |}.

(** [a and b], of which [b] may raise. *)
Definition and_then {E} (a : bool) (b : result E bool) : result E bool := if a then b else Ok false.

Definition opt_int (o : option Z) : pyval := match o with Some n => PyInt n | None => PyNone end.

(** [stored == payload.get(name)] for a text and for an integer. *)
Definition text_is (s : string) (d : members) (name : string) : bool := py_eq (get d name) (PyStr s).
Definition int_is (n : Z) (d : members) (name : string) : bool := py_eq (get d name) (PyInt n).

Section matching.
Context `{N : Normalization} (limit : nat).

(** [_canonical_object] *)
Definition canonical_object (payload : string) : option members :=
  match decode_bytes limit payload with
  | Ok (PyDict d) => Some (filter (λ kv : pykey * pyval, is_Some (match kv.1 with KStr s => Some s | KOther _ => None end)) d)
  | _ => None
  end.

(** [_proposal_matches] *)
Definition proposal_matches (stored : StoredProposal) (a : EscalateRescueAction) (d : members)
    : result authorization_failure bool :=
  let received :=
    text_is (StoreProposals.mission_id stored) d "missionId" &&
    text_is (StoreProposals.proposal_id stored) d "proposalId" &&
    text_is (StoreProposals.proposal_digest stored) d "proposalDigest" &&
    text_is (StoreProposals.drone_id stored) d "droneId" &&
    text_is (StoreProposals.command_type stored) d "commandType" &&
    int_is (StoreProposals.latitude_microdegrees stored) d "latitudeMicrodegrees" &&
    int_is (StoreProposals.longitude_microdegrees stored) d "longitudeMicrodegrees" in
  row_consistent ← and_then
    (exactly PROPOSAL_KEYS d && int_is 1 d "canonicalizationVersion" && int_is 1 d "proposalVersion" &&
     text_is (StoreProposals.source_event_id stored) d "sourceEventId" &&
     text_is (StoreProposals.source_event_digest stored) d "sourceEventDigest" &&
     text_is (StoreProposals.agent_name stored) d "agentName" &&
     text_is (StoreProposals.invocation_id stored) d "sourceInvocationId" &&
     text_is (StoreProposals.proposal_type stored) d "proposalType")
    (bytes ← map_err Uncanonical (canonical_bytes (PyDict d));
     and_then (bool_decide (bytes = StoreProposals.payload stored))
       (same ← map_err DigestFailure (proposal_digest_matches d); Ok (same && received)));
  let action_consistent :=
    bool_decide (StoreProposals.proposal_id stored = Ingress.proposal_id a) &&
    bool_decide (StoreProposals.proposal_digest stored = Ingress.proposal_digest a) &&
    bool_decide (StoreProposals.drone_id stored = Ingress.drone_id a) &&
    bool_decide (StoreProposals.command_type stored = "escalate-rescue") &&
    (StoreProposals.latitude_microdegrees stored =? Ingress.latitude_microdegrees a) &&
    (StoreProposals.longitude_microdegrees stored =? Ingress.longitude_microdegrees a) in
  Ok (row_consistent && action_consistent && (Ingress.proposal_version a =? 1)).

(** [_decision_matches] *)
Definition decision_matches (stored : StoredEvidenceDecision) (a : EscalateRescueAction) (d : members)
    : result authorization_failure bool :=
  and_then
    (exactly DECISION_KEYS d && int_is 1 d "canonicalizationVersion" && int_is 1 d "proposalVersion")
    (bytes ← map_err Uncanonical (canonical_bytes (PyDict d));
     and_then (bool_decide (bytes = StoreEvidence.payload stored))
       (same ← map_err DigestFailure (evidence_decision_digest_matches d);
        and_then
          (same && text_is (StoreEvidence.mission_id stored) d "missionId" &&
           text_is (StoreEvidence.proposal_id stored) d "proposalId" &&
           text_is (StoreEvidence.proposal_digest stored) d "proposalDigest" &&
           text_is (decision_id stored) d "evidenceDecisionId" &&
           text_is (decision_digest stored) d "evidenceDecisionDigest" &&
           int_is (decision_version stored) d "evidenceDecisionVersion" &&
           py_eq (get d "scoreVersion") (opt_int (score_version stored)) &&
           py_eq (get d "score") (opt_int (score stored)) &&
           match band stored with Some b => text_is (band_value b) d "band" | None => false end &&
           text_is (outcome_value (StoreEvidence.outcome stored)) d "outcome")
          match contributors stored with
          | None => Ok false
          | Some bytes =>
              v ← map_err Unreadable (decode_bytes limit bytes);
              Ok (py_eq v (get d "contributors") &&
                  bool_decide (StoreEvidence.outcome stored = OUTCOME_CONTRIBUTING) &&
                  bool_decide (band stored = Some CORROBORATED) &&
                  bool_decide (StoreEvidence.proposal_id stored = Ingress.proposal_id a) &&
                  bool_decide (StoreEvidence.proposal_digest stored = Ingress.proposal_digest a) &&
                  bool_decide (decision_id stored = Ingress.evidence_decision_id a) &&
                  bool_decide (decision_digest stored = Ingress.evidence_decision_digest a) &&
                  (decision_version stored =? Ingress.evidence_decision_version a))
          end)).
End matching.

(** [_approval_reason] *)
Definition approval_reason (e : ApprovalError) (s : ApprovalState) : string :=
  match Approvals.refusal e with
  | NOT_APPROVED => if bool_decide (s = REJECTED) then "approval-rejected" else "approval-missing"
  | TRANSITION | TIME_TO_LIVE => "approval-missing"
  | HAS_EXPIRED | CLOCK_REGRESSION => "approval-expired"
  | WAS_SUPERSEDED => "approval-superseded"
  | ALREADY_CONSUMED => "approval-consumed"
  | MISSION | PROPOSAL_ID | DIGEST | PARAMETERS => "proposal-mismatch"
  end.

(** [_approval_binding_refusal]; the action is a rescue on both sides. *)
Definition approval_binding_refusal (b : BoundApproval) (a : EscalateRescueAction) : option string :=
  if negb (bool_decide (bound_evidence b = Ingress.evidence_decision_id a)) ||
     negb (bool_decide (bound_evidence_digest b = Ingress.evidence_decision_digest a)) ||
     negb (bound_evidence_version b =? Ingress.evidence_decision_version a)
  then Some "evidence-decision-mismatch"
  else if negb (bool_decide (bound_action b = {|
            rescue_drone := Ingress.drone_id a; rescue_latitude := Ingress.latitude_microdegrees a;
            rescue_longitude := Ingress.longitude_microdegrees a |}))
  then Some "action-mismatch" else None.

Section handler.
Context `{N : Normalization} `{M : PayloadModels} `{D : Database} (limit : nat).

(** [_consume_bound_approval]: the consumed approval, or the reason of the refusal. *)
Definition consume_bound_approval (b : BoundApproval) (stored : StoredProposal) (d : option members)
    (now : AuthorizationClock) : result authorization_failure (BoundApproval + string) :=
  let c := {| Approvals.mission_id := StoreProposals.mission_id stored;
              Approvals.proposal_id := StoreProposals.proposal_id stored;
              parameters := default [] d |} in
  if bool_decide (Approvals.state (bound_approval b) = APPROVED) &&
     negb (bool_decide (bound_epoch b = Some (runtime_epoch now)))
  then Ok (inr "approval-expired")
  else match consume (bound_approval b) c (reading now) with
       | Ok executed => Ok (inl (with_approval b executed))
       | Err (Approvals.Refused e) => Ok (inr (approval_reason e (Approvals.state (bound_approval b))))
       | Err e => Err (ConsumptionFailure e)
       end.

(** [_evidence_refusal] *)
Definition evidence_refusal (a : EscalateRescueAction) : tx authorization_failure (option string) :=
  stored ← lift EvidenceFailure (load_decision (Ingress.evidence_decision_id a));
  match canonical_object limit (StoreEvidence.payload stored) with
  | None => mret (Some "evidence-decision-mismatch")
  | Some d =>
      same ← pure (decision_matches limit stored a d);
      mret (if same : bool then None else Some "evidence-decision-mismatch" : option string)
  end.

(** [CommandAuthorizationTransaction.load_approval] under the row's lock, and the adapter. *)
Definition load_approval (proposal : string) : tx authorization_failure BoundApproval :=
  a ← lift ApprovalFailure (load_for_update proposal);
  b ← lift BindingFailure (load_by_proposal proposal);
  pure (map_err AdapterFailure
    (map_authorization_approval limit {| stored_approval := a; stored_binding := b |})).

(** [_authorize_escalation] *)
Definition authorize_escalation (i : OperatorCommandIngress) (a : EscalateRescueAction)
    (now : AuthorizationClock) : tx authorization_failure Decision :=
  stored ← lift ProposalFailure (StoreProposals.load (Ingress.proposal_id a));
  bound ← load_approval (Ingress.proposal_id a);
  let d := canonical_object limit (StoreProposals.payload stored) in
  attempt ← pure (consume_bound_approval bound stored d now);
  match attempt with
  | inr why => mret (deny why)
  | inl executed =>
      same ← pure (and_then (bool_decide (Ingress.mission_id (command_payload i) =
                                          StoreProposals.mission_id stored))
                     match d with Some d => proposal_matches stored a d | None => Ok false end);
      if negb same then mret (deny "proposal-mismatch") else
      why ← evidence_refusal a;
      match why with
      | Some why => mret (deny why)
      | None =>
          match approval_binding_refusal bound a with
          | Some why => mret (deny why)
          | None => mret {| authorized := true; refusal_reason := None; consumed := Some executed |}
          end
      end
  end.

(** [_claim] *)
Definition command_claim (i : OperatorCommandIngress) (at_ : string)
    : result authorization_failure StoredClaim :=
  body ← map_err DigestFailure (digest IDEMPOTENCY_BODY (PyDict (document
    [("canonicalizationVersion", PyInt 1); ("body", PyDict (envelope_document (command_envelope i)))])));
  Ok {| idempotency_key := Ingress.command_id (command_payload i); StoreClaims.kind := COMMAND;
        body_digest := body; StoreClaims.mission_id := Ingress.mission_id (command_payload i);
        claimed_at := at_ |}.

(** [StoreAuthorizationTransaction.persist_consumed] *)
Definition persist (b : BoundApproval) : tx authorization_failure unit :=
  row ← pure (map_err AdapterFailure (executed_row b));
  lift ApprovalFailure (persist_consumed row).

(** [_command_effects]: both effects of a command, or neither. *)
Definition command_effects (x : AuthorizationArtifacts)
    : result authorization_failure (option (StagedCommand * CommandIdentity)) :=
  match command_ x, progress_ x with
  | None, None => Ok None
  | Some c, Some p => Ok (Some (c, p))
  | _, _ => Err IncompleteArtifacts
  end.

(** [_persist_decision] *)
Definition persist_decision (id : InboxIdentity) (i : OperatorCommandIngress) (s : AuthorizationStamp)
    (v : Decision) : tx authorization_failure AuthorizationResult :=
  x ← pure (map_err ArtifactFailure (build_authorization_artifacts limit i s (authorized v)
              (bound_id <$> consumed v) (refusal_reason v)));
  match consumed v with Some b => persist b | None => mret tt end ;;
  lift AuditFailure (append (audit_record x)) ;;
  lift EventFailure (StoreEvents.stage (audit_event x)) ;;
  effects ← pure (command_effects x);
  match effects with
  | None => mret tt
  | Some (c, p) =>
      lift CommandFailure (StoreOutbox.stage c) ;;
      lift ProgressFailure (initialize p (occurred_at s)) ;;
      mret tt
  end ;;
  lift ClaimFailure (record_result (Ingress.command_id (command_payload i)) (result_ x)) ;;
  lift InboxFailure (complete id (result_ x) (occurred_at s)) ;;
  mret {| outcome := if authorized v then AUTHORIZED else REFUSED; result_bytes := result_ x;
          reason := refusal_reason v |}.

(** [_process_claimed] *)
Definition process_claimed (id : InboxIdentity) (i : OperatorCommandIngress) (s : AuthorizationStamp)
    (now : AuthorizationClock) : tx authorization_failure AuthorizationResult :=
  c ← pure (command_claim i (occurred_at s));
  claimed ← lift ClaimFailure (StoreClaims.claim c);
  match StoreClaims.decision claimed with
  | Idempotency.RETURN_PRIOR_RESULT =>
      prior ← pure (or_raise (StoreClaims.prior claimed) (AuthorizationError IDEMPOTENCY_RESULT));
      lift InboxFailure (complete id prior (occurred_at s)) ;;
      mret {| outcome := DUPLICATE; result_bytes := prior; reason := None |}
  | Idempotency.DENY => persist_decision id i s (deny "idempotency-conflict")
  | Idempotency.EXECUTE =>
      v ← match action (command_payload i) with
          | AssignSector _ => mret {| authorized := true; refusal_reason := None; consumed := None |}
          | EscalateRescue a => authorize_escalation i a now
          end;
      persist_decision id i s v
  end.

(** The transaction of [handle_operator_command]. *)
Definition authorize_command (s : AuthorizationStamp) (now : AuthorizationClock) (id : InboxIdentity)
    (i : OperatorCommandIngress) : tx authorization_failure AuthorizationResult :=
  inbox ← lift InboxFailure (StoreInbox.claim id);
  match StoreInbox.decision inbox with
  | StoreInbox.DUPLICATE =>
      pure (prior ← or_raise (StoreInbox.prior inbox) (AuthorizationError DUPLICATE_RESULT);
            Ok {| outcome := DUPLICATE; result_bytes := prior; reason := None |})
  | StoreInbox.CLAIMED => process_claimed id i s now
  end.

Definition operator_command_handler (s : AuthorizationStamp) (now : AuthorizationClock)
    : guaranteed OperatorCommandIngress authorization_failure AuthorizationResult := {|
  channel := REFUSAL_CHANNEL;
  selected := λ a, match a with AcceptedCommand i => Some i | _ => None end;
  wrong_kind := AuthorizationError INGRESS_KIND;
  envelope_of := command_envelope;
  identity := λ i, map_err Uncanonical (inbox_identity (command_envelope i) (Ingress.mission_id (command_payload i)));
  body := authorize_command s now
|}.

Definition handle_operator_command `{P : SettlementPort} (dl : GuaranteedDelivery)
    (s : AuthorizationStamp) (now : AuthorizationClock) (observed : string) (d : db)
    : Delivery.outcome authorization_failure AuthorizationResult :=
  handle limit (operator_command_handler s now) dl observed d.
End handler.
