(* ===== verification/GatewaySample.v ===== *)
(** * A store and a command to run on

    One rescue, concretely: the proposal, the corroborated evidence decision, the operator's
    approval and the gateway's bound clock as the repositories store them, and the operator's
    commands as delivered bytes.  The witnesses of the gateway's theorems run on these. *)

From S2P Require Import Prelude PyStr PyVal Canonical Digest Instant Envelope Scoring.
From S2P Require Import Sql Schema StoreProposals StoreEvidence StoreApprovals StoreBindings.
From S2P Require Import Approvals Ingress Artifacts Delivery Authorization.
Local Open Scope string_scope.
Local Open Scope Z_scope.

#[local] Existing Instance ascii_normalization.
#[local] Existing Instance strict_models.
#[local] Existing Instance memory.

Definition DIGITS : nat := 4300.
Definition or_empty {E} (r : result E string) : string := default "" (ok_value r).
Definition wire (d : members) : string := or_empty (canonical_bytes (PyDict d)).

Definition some_digest : string := "00000000000000000000000000000000000000000000000000000000000000aa".
Definition trace : string := "00-0af7651916cd43dd8448eb211c80319c-b7ad6b7169203331-01".

(** [document] with its own digest under a field. *)
Definition sealed (digest : members → result digest_failure string) (field : string) (d : members) : members :=
  dict_set d (KStr field) (PyStr (or_empty (digest d))).

Definition rescue_proposal : members :=
  sealed Digest.proposal_digest "proposalDigest" (document
    [("canonicalizationVersion", PyInt 1); ("proposalVersion", PyInt 1);
     ("missionId", PyStr "mission-1"); ("proposalId", PyStr "proposal-1");
     ("proposalType", PyStr "candidate-location"); ("agentName", PyStr "Coordinator");
     ("sourceInvocationId", PyStr "invocation-1"); ("sourceEventId", PyStr "event-0");
     ("sourceEventDigest", PyStr some_digest); ("commandType", PyStr "escalate-rescue");
     ("droneId", PyStr "drone-1"); ("latitudeMicrodegrees", PyInt 1);
     ("longitudeMicrodegrees", PyInt 2)]).

Definition rescue_digest : string :=
  match get rescue_proposal "proposalDigest" with PyStr s => s | _ => "" end.

Definition rescue_evidence : members :=
  sealed Digest.evidence_decision_digest "evidenceDecisionDigest" (document
    [("canonicalizationVersion", PyInt 1); ("evidenceDecisionVersion", PyInt 1);
     ("missionId", PyStr "mission-1"); ("proposalId", PyStr "proposal-1");
     ("proposalDigest", PyStr rescue_digest); ("proposalVersion", PyInt 1);
     ("evidenceDecisionId", PyStr "decision-1"); ("outcome", PyStr "contributing");
     ("scoreVersion", PyInt 1); ("score", PyInt 90); ("band", PyStr "corroborated");
     ("contributors", PyList [])]).

Definition evidence_digest : string :=
  match get rescue_evidence "evidenceDecisionDigest" with PyStr s => s | _ => "" end.

Definition rescue_action_document : members := document
  [("commandType", PyStr "escalate-rescue"); ("droneId", PyStr "drone-1");
   ("latitudeMicrodegrees", PyInt 1); ("longitudeMicrodegrees", PyInt 2)].

Definition stored_proposal : StoredProposal := {|
  StoreProposals.proposal_id := "proposal-1"; StoreProposals.mission_id := "mission-1";
  StoreProposals.source_event_id := "event-0"; StoreProposals.source_event_digest := some_digest;
  StoreProposals.agent_name := "Coordinator"; StoreProposals.invocation_id := "invocation-1";
  StoreProposals.proposal_type := "candidate-location"; StoreProposals.proposal_digest := rescue_digest;
  StoreProposals.payload := wire rescue_proposal; StoreProposals.drone_id := "drone-1";
  StoreProposals.latitude_microdegrees := 1; StoreProposals.longitude_microdegrees := 2;
  StoreProposals.command_type := "escalate-rescue";
  StoreProposals.issued_at := "2026-07-28T08:59:00.000Z"; StoreProposals.sequence := 1;
  StoreProposals.correlation_id := "trace-1"; StoreProposals.causation_id := None;
  StoreProposals.traceparent := trace
|}.

Definition stored_evidence : StoredEvidenceDecision := {|
  decision_id := "decision-1"; StoreEvidence.mission_id := "mission-1";
  StoreEvidence.proposal_id := "proposal-1"; StoreEvidence.proposal_digest := rescue_digest;
  decision_digest := evidence_digest; decision_version := 1; score_version := Some 1;
  score := Some 90; band := Some CORROBORATED; StoreEvidence.outcome := OUTCOME_CONTRIBUTING;
  contributors := Some (or_empty (canonical_bytes (PyList []))); StoreEvidence.payload := wire rescue_evidence;
  decided_at := "2026-07-28T08:59:30.000Z"; StoreEvidence.sequence := 1
|}.

Definition rescue_approval : StoredApproval := {|
  StoreApprovals.mission_id := "mission-1"; StoreApprovals.proposal_id := "proposal-1";
  StoreApprovals.state := APPROVED; StoreApprovals.operator_identity := "operator-1";
  StoreApprovals.issued_wall := "2026-07-28T09:00:00.000Z";
  StoreApprovals.issued_monotonic_milliseconds := 0;
  StoreApprovals.time_to_live_milliseconds := 60000;
  StoreApprovals.proposal_digest := rescue_digest
|}.

Definition rescue_binding : StoredApprovalBinding := {|
  StoreBindings.approval_id := "approval-1"; StoreBindings.proposal_id := "proposal-1";
  StoreBindings.proposal_version := 1; StoreBindings.evidence_decision_id := "decision-1";
  StoreBindings.evidence_decision_digest := evidence_digest;
  StoreBindings.evidence_decision_version := 1; StoreBindings.decision := "approve";
  action_payload := wire rescue_action_document; decision_runtime_id := "api-1";
  authority_runtime_epoch := None; authority_issued_monotonic_milliseconds := None;
  StoreBindings.expires_at := Some "2026-07-28T09:01:00.000Z"
|}.

(** What the services before the gateway stored. *)
Definition prepare : tx unit unit :=
  lift (λ _, tt) (StoreProposals.record stored_proposal) ;;
  lift (λ _, tt) (record_decision stored_evidence) ;;
  lift (λ _, tt) (StoreApprovals.record rescue_approval) ;;
  lift (λ _, tt) (StoreBindings.record rescue_binding) ;;
  mret tt.

Definition undecided : db := Eval vm_compute in (transaction prepare []).2.

(** The gateway then bound its clock to the approval. *)
Definition epoch_authority : StoredApprovalAuthority :=
  {| StoreBindings.runtime_epoch := "epoch-1"; StoreBindings.issued_monotonic_milliseconds := 5000 |}.

Definition ready : db :=
  Eval vm_compute in (transaction (bind_authority "approval-1" epoch_authority) undecided).2.

Lemma undecided_consistent : consistent undecided.
Proof.
  assert (Hp : ∃ u, prepare [] = Ok (u, undecided)) by (eexists; vm_compute; reflexivity).
  destruct Hp as [u Hp]. assert (He : effect stays_consistent prepare).
  { unfold prepare.
    apply effect_bind; [apply _|apply effect_lift, proposal_record_effect|intros _].
    apply effect_bind; [apply _|apply effect_lift, record_decision_effect|intros _].
    apply effect_bind; [apply _|apply effect_lift, record_effect|intros _].
    apply effect_bind; [apply _|apply effect_lift, binding_record_effect|intros _].
    apply effect_ret, _. }
  exact (He _ _ _ Hp memory_empty).
Qed.

Lemma ready_consistent : consistent ready.
Proof.
  assert (Hp : ∃ u, bind_authority "approval-1" epoch_authority undecided = Ok (u, ready))
    by (eexists; vm_compute; reflexivity).
  destruct Hp as [u Hp]. exact (bind_effect _ _ _ _ _ Hp undecided_consistent).
Qed.

(** ** Deliveries *)

Definition notification (id type schema : string) (body : members) : Envelope :=
  {| Envelope.id := id; Envelope.source := "urn:aerial-rescue:dashboard-api:api-1";
     Envelope.type := "aerial-rescue.v1." ++ type; Envelope.subject := "mission-1";
     Envelope.time := "2026-07-28T09:00:00.000Z";
     Envelope.dataschema := "https://aerial-rescue.invalid/schemas/v1/payload/" ++ schema ++ ".schema.json";
     Envelope.sequence := "000000000000007"; Envelope.correlation_id := "trace-1";
     Envelope.traceparent := trace; Envelope.data := body; Envelope.causation_id := None;
     Envelope.tracestate := None |}.

Definition escalation (command : string) : members := document
  [("operatorCommandVersion", PyInt 1); ("missionId", PyStr "mission-1");
   ("commandId", PyStr command); ("operatorId", PyStr "operator-1");
   ("action", PyDict (document
     [("commandType", PyStr "escalate-rescue"); ("droneId", PyStr "drone-1");
      ("proposalId", PyStr "proposal-1"); ("proposalDigest", PyStr rescue_digest);
      ("proposalVersion", PyInt 1); ("evidenceDecisionId", PyStr "decision-1");
      ("evidenceDecisionDigest", PyStr evidence_digest); ("evidenceDecisionVersion", PyInt 1);
      ("latitudeMicrodegrees", PyInt 1); ("longitudeMicrodegrees", PyInt 2)]))].

Definition escalation_delivery (event command : string) : GuaranteedDelivery := {|
  topic := "aerial-rescue/v1/mission-1/operator/command/escalate-rescue";
  payload := wire (envelope_document
    (notification event "operator.command.escalate-rescue" "operator-command" (escalation command)))
|}.

Definition first_escalation : GuaranteedDelivery :=
  Eval vm_compute in escalation_delivery "event-1" "command-1".
Definition second_escalation : GuaranteedDelivery :=
  Eval vm_compute in escalation_delivery "event-2" "command-2".

Definition stamp (n : Z) : AuthorizationStamp := {|
  producer_id := "gateway-1"; command_event_id := "command-event-" ++ dec n;
  audit_record_id := "audit-record-" ++ dec n; audit_event_id := "audit-event-" ++ dec n;
  occurred_at := "2026-07-28T09:00:30.000Z"; command_sequence := n; audit_sequence := n;
  stamp_traceparent := trace; stamp_tracestate := None
|}.

Definition half_minute : AuthorizationClock := {|
  reading := {|
    wall := micros {| year := 2026; month := 7; day := 28; hour := 9; minute := 0; second := 30;
                      microsecond := 0; offset := Some 0 |};
    monotonic := 35000000 |};
  Authorization.runtime_epoch := "epoch-1"
|}.

Definition observed_at : string := "2026-07-28T09:00:30.000Z".

#[local] Existing Instance settling_port.

Definition nothing : AuthorizationResult :=
  {| Authorization.outcome := Authorization.REFUSED; result_bytes := ""; reason := None |}.

Abbreviation first_run :=
  (handle_operator_command DIGITS first_escalation (stamp 1) half_minute observed_at ready).
Definition granted : AuthorizationResult := Eval vm_compute in default nothing (ok_value (returned first_run)).
Abbreviation second_run :=
  (handle_operator_command DIGITS second_escalation (stamp 3) half_minute observed_at (store first_run)).
Definition refused_again : AuthorizationResult :=
  Eval vm_compute in default nothing (ok_value (returned second_run)).

Lemma first_run_granted : returned first_run = Ok granted ∧ Authorization.outcome granted = AUTHORIZED.
Proof. by vm_compute. Qed.

Lemma second_run_refused :
  returned second_run = Ok refused_again ∧ reason refused_again = Some "approval-consumed".
Proof. by vm_compute. Qed.
