(* ===== verification/Authorized.v ===== *)
(** * What authorization guarantees

    The theorems about [authorization.py], over [Authorization.handle_operator_command]: what an
    authorized rescue escalation presupposes in the store, that one proposal is escalated at most
    once, which effects commit with a decision, and that a redelivered command is answered from
    the store. *)

From stdpp Require Import gmap.
From S2P Require Import Prelude PyStr PyVal Canonical Digest Envelope Scoring Idempotency.
From S2P Require Import Sql Schema StoreInbox StoreClaims StoreProposals StoreEvidence StoreApprovals StoreBindings StoreAudit StoreEvents StoreOutbox StoreProgress.
From S2P Require Import Approvals Ingress Artifacts Adapter Delivery Authorization GatewaySample.
Local Open Scope string_scope.
Local Open Scope Z_scope.

Section handler.
Context `{N : Normalization} `{M : PayloadModels} `{D : Database} (limit : nat).

Lemma authorize_escalation_durable i a now : effect durable (authorize_escalation limit i a now).
Proof. unfold authorize_escalation, load_approval, evidence_refusal. effects. Qed.

Lemma consumed_durable b : effect durable (persist b).
Proof. unfold persist. effects. Qed.

Lemma persist_decision_durable id i s v : effect durable (persist_decision limit id i s v).
Proof. pose proof consumed_durable. unfold persist_decision. effects. Qed.

Lemma process_claimed_durable id i s now : effect durable (process_claimed limit id i s now).
Proof.
  pose proof authorize_escalation_durable. pose proof persist_decision_durable.
  unfold process_claimed. effects.
Qed.

Lemma authorize_command_durable s now id i : effect durable (authorize_command limit s now id i).
Proof. apply deduplicated_durable, process_claimed_durable. Qed.
End handler.

#[export] Hint Resolve authorize_escalation_durable consumed_durable persist_decision_durable authorize_command_durable
  : effects.

Section replay.
Context `{N : Normalization} `{M : PayloadModels} `{D : Database} (limit : nat).

Lemma persist_decision_completes id i s v d r d' :
  consistent d → persist_decision limit id i s v d = Ok (r, d') →
  completed d' id (result_bytes r) ∧ outcome r = (if authorized v then AUTHORIZED else REFUSED) ∧
  reason r = refusal_reason v.
Proof.
  intros Hd Hp. unfold persist_decision in Hp. run_tx. subst. follow.
  split; [|done]. cbn [result_bytes].
  match goal with H : complete _ _ _ ?d0 = Ok _, Hd0 : consistent ?d0 |- _ =>
    exact (complete_completed _ _ _ _ _ _ Hd0 H) end.
Qed.

Lemma process_claimed_completes id i s now d r d' :
  consistent d → process_claimed limit id i s now d = Ok (r, d') → completed d' id (result_bytes r).
Proof.
  intros Hd Hr. unfold process_claimed in Hr. run_tx. subst. follow.
  destruct (StoreClaims.decision _); run_tx; subst; follow.
  - by match goal with H : persist_decision _ _ _ _ _ _ = _ |- _ => apply persist_decision_completes in H as [? _] end.
  - cbn [result_bytes].
    match goal with H : complete _ _ _ ?d0 = Ok _, Hd0 : consistent ?d0 |- _ =>
      exact (complete_completed _ _ _ _ _ _ Hd0 H) end.
  - by match goal with H : persist_decision _ _ _ _ _ _ = _ |- _ => apply persist_decision_completes in H as [? _] end.
Qed.

Definition duplicate_of (r : AuthorizationResult) : AuthorizationResult :=
  {| outcome := DUPLICATE; result_bytes := result_bytes r; reason := None |}.

(** The result of a completed command is the one its inbox identity keeps. *)
Definition prior_result (p : string) : result authorization_failure AuthorizationResult :=
  Ok {| outcome := DUPLICATE; result_bytes := p; reason := None |}.

#[global] Instance operator_command_replay_safe :
  ReplaySafe limit (λ p : AuthorizationStamp * AuthorizationClock, operator_command_handler limit p.1 p.2)
             duplicate_of.
Proof.
  split; try done; cbn [body operator_command_handler].
  - intros a id i. apply authorize_command_durable.
  - intros a b id i d r d1 d2 _ Hd Hr Hl Hs.
    refine (deduplicated_again InboxFailure (AuthorizationError DUPLICATE_RESULT) prior_result
      result_bytes duplicate_of id (process_claimed limit id i a.1 a.2) (process_claimed limit id i b.1 b.2)
      d r d1 d2 _ _ _ Hd Hr Hl Hs).
    + intros d0 r0 d0' Hd0 Hp. split; [|done]. by eapply process_claimed_completes.
    + by intros p r0 [= <-].
    + apply process_claimed_durable.
Qed.
End replay.

(** ** What an escalation presupposes *)

Section escalation.
Context `{N : Normalization} `{M : PayloadModels} `{D : Database} (limit : nat).

(** Everything that must stand in the store, at this clock, for the action to be authorized. *)
Record authority_for (i : OperatorCommandIngress) (a : EscalateRescueAction) (now : AuthorizationClock)
    (d : db) (proposal : StoredProposal) (approval : StoredApproval) (binding : StoredApprovalBinding)
    (bound : BoundApproval) (evidence : StoredEvidenceDecision) : Prop := {
  proposal_held :
    reads PROPOSAL (StoreProposals.proposal_conds (Ingress.proposal_id a))
      (StoreProposals.stored (Ingress.proposal_id a)) d proposal;
  proposal_exact :
    StoreProposals.mission_id proposal = Ingress.mission_id (command_payload i) ∧
    StoreProposals.proposal_id proposal = Ingress.proposal_id a ∧
    StoreProposals.proposal_digest proposal = Ingress.proposal_digest a ∧
    StoreProposals.drone_id proposal = Ingress.drone_id a ∧
    StoreProposals.command_type proposal = "escalate-rescue" ∧
    StoreProposals.latitude_microdegrees proposal = Ingress.latitude_microdegrees a ∧
    StoreProposals.longitude_microdegrees proposal = Ingress.longitude_microdegrees a;
  approval_held :
    ∃ r, StoreApprovals.entry d (Ingress.proposal_id a) = Some r ∧ holds_approval r approval ∧
         StoreApprovals.state approval = APPROVED;
  binding_held :
    reads APPROVAL_BINDING (StoreBindings.proposal_conds (Ingress.proposal_id a))
      (StoreBindings.stored (Ingress.proposal_id a)) d binding;
  approval_mapped :
    map_authorization_approval limit {| stored_approval := approval; stored_binding := binding |} = Ok bound;
  epoch_current : bound_epoch bound = Some (runtime_epoch now);
  approval_live : live (bound_approval bound) (reading now);
  approval_binds_proposal : ∃ fields,
    canonical_object limit (StoreProposals.payload proposal) = Some fields ∧
    Digest.proposal_digest fields = Ok (Approvals.approved_digest (bound_approval bound));
  approval_binds_action :
    bound_action bound = {| rescue_drone := Ingress.drone_id a;
                            rescue_latitude := Ingress.latitude_microdegrees a;
                            rescue_longitude := Ingress.longitude_microdegrees a |} ∧
    bound_evidence bound = Ingress.evidence_decision_id a ∧
    bound_evidence_digest bound = Ingress.evidence_decision_digest a ∧
    bound_evidence_version bound = Ingress.evidence_decision_version a;
  evidence_held :
    reads EVIDENCE_DECISION (decision_conds (Ingress.evidence_decision_id a)) StoreEvidence.decision d evidence;
  evidence_corroborated :
    StoreEvidence.outcome evidence = OUTCOME_CONTRIBUTING ∧ band evidence = Some CORROBORATED ∧
    StoreEvidence.proposal_id evidence = Ingress.proposal_id a ∧
    StoreEvidence.proposal_digest evidence = Ingress.proposal_digest a ∧
    decision_id evidence = Ingress.evidence_decision_id a ∧
    decision_digest evidence = Ingress.evidence_decision_digest a ∧
    decision_version evidence = Ingress.evidence_decision_version a
}.

Lemma and_then_Ok {E} a (m : result E bool) : and_then a m = Ok true ↔ a = true ∧ m = Ok true.
Proof. unfold and_then. destruct a; split; intuition congruence. Qed.

Lemma proposal_matches_exact x a fields :
  proposal_matches x a fields = Ok true →
  StoreProposals.proposal_id x = Ingress.proposal_id a ∧
  StoreProposals.proposal_digest x = Ingress.proposal_digest a ∧
  StoreProposals.drone_id x = Ingress.drone_id a ∧
  StoreProposals.command_type x = "escalate-rescue" ∧
  StoreProposals.latitude_microdegrees x = Ingress.latitude_microdegrees a ∧
  StoreProposals.longitude_microdegrees x = Ingress.longitude_microdegrees a.
Proof. unfold proposal_matches. intros Hm. run_ok. by bools. Qed.

Lemma decision_matches_exact x a fields :
  decision_matches limit x a fields = Ok true →
  StoreEvidence.outcome x = OUTCOME_CONTRIBUTING ∧ band x = Some CORROBORATED ∧
  StoreEvidence.proposal_id x = Ingress.proposal_id a ∧
  StoreEvidence.proposal_digest x = Ingress.proposal_digest a ∧
  decision_id x = Ingress.evidence_decision_id a ∧
  decision_digest x = Ingress.evidence_decision_digest a ∧
  decision_version x = Ingress.evidence_decision_version a.
Proof.
  unfold decision_matches. intros [_ Hm]%and_then_Ok. run_ok.
  repeat match goal with H : and_then _ _ = Ok true |- _ => apply and_then_Ok in H as [? ?]; run_ok end.
  destruct (contributors x); [|done]. run_ok. by bools.
Qed.

Lemma binding_refusal_None bound a :
  approval_binding_refusal bound a = None →
  bound_action bound = {| rescue_drone := Ingress.drone_id a;
                          rescue_latitude := Ingress.latitude_microdegrees a;
                          rescue_longitude := Ingress.longitude_microdegrees a |} ∧
  bound_evidence bound = Ingress.evidence_decision_id a ∧
  bound_evidence_digest bound = Ingress.evidence_decision_digest a ∧
  bound_evidence_version bound = Ingress.evidence_decision_version a.
Proof.
  unfold approval_binding_refusal. case_match eqn:H1; [done|]. case_match eqn:H2; [done|]. by bools.
Qed.

Lemma consume_bound_Ok bound x fields now b' :
  consume_bound_approval bound x fields now = Ok (inl b') →
  bound_epoch bound = Some (runtime_epoch now) ∧
  ∃ executed,
    b' = with_approval bound executed ∧
    consume (bound_approval bound) {| Approvals.mission_id := StoreProposals.mission_id x;
      Approvals.proposal_id := StoreProposals.proposal_id x; parameters := default [] fields |}
      (reading now) = Ok executed.
Proof.
  unfold consume_bound_approval. case_match eqn:He; [done|].
  destruct (consume _ _ _) as [executed|[]] eqn:Hc; try done. intros [= <-].
  apply andb_false_iff in He as [He|He]; bools; [|eauto].
  by apply consume_Ok in Hc as (Hs&_).
Qed.

Lemma load_approval_Ok p bound d d' :
  consistent d → load_approval limit p d = Ok (bound, d') →
  ∃ approval binding r,
    StoreApprovals.entry d p = Some r ∧ holds_approval r approval ∧
    reads APPROVAL_BINDING (StoreBindings.proposal_conds p) (StoreBindings.stored p) d binding ∧
    map_authorization_approval limit {| stored_approval := approval; stored_binding := binding |} = Ok bound.
Proof.
  intros Hd Hl. unfold load_approval in Hl. run_tx. subst.
  match goal with H : load_for_update _ _ = Ok _ |- _ => apply load_Ok in H as (Hs&r&Hr&Hh); [|done] end.
  match goal with H : load_by_proposal _ _ = Ok _ |- _ => apply select_reads in H as [_ Hb] end.
  do 3 eexists. split; [exact Hr|]. split; [exact Hh|]. split; [|done].
  eapply reads_same; [apply Hs|exact Hb].
Qed.

Lemma evidence_refusal_None a d d' :
  evidence_refusal limit a d = Ok (None, d') →
  ∃ evidence fields,
    reads EVIDENCE_DECISION (decision_conds (Ingress.evidence_decision_id a)) StoreEvidence.decision d evidence ∧
    decision_matches limit evidence a fields = Ok true.
Proof.
  intros He. unfold evidence_refusal in He. run_tx.
  match goal with H : load_decision _ _ = Ok _ |- _ => apply select_reads in H as [Hs Hr] end.
  destruct (canonical_object limit _) as [fields|]; run_tx; [|done]. subst.
  destruct (_ : bool); [|done]. eauto.
Qed.

Lemma authorize_escalation_unchanged i a now : effect unchanged (authorize_escalation limit i a now).
Proof.
  pose proof proposal_load_effect. pose proof load_for_update_unchanged.
  pose proof by_proposal_unchanged. pose proof load_decision_unchanged.
  unfold authorize_escalation, load_approval, evidence_refusal. effects.
Qed.

Lemma authorize_escalation_Ok i a now v d d' :
  consistent d → authorize_escalation limit i a now d = Ok (v, d') → authorized v = true →
  ∃ proposal approval binding bound evidence,
    authority_for i a now d proposal approval binding bound evidence ∧
    consumed v = Some (with_approval bound (with_state (bound_approval bound) EXECUTED)).
Proof.
  intros Hd He Hv. unfold authorize_escalation in He.
  apply tx_bind_Ok in He as (proposal&d1&Hp&He). apply lift_Ok, select_reads in Hp as [Hs1 Hp].
  apply tx_bind_Ok in He as (bound&d2&Hb&He).
  assert (Hd1 : consistent d1) by (intros t; rewrite (Hs1 t); apply Hd).
  assert (Hs2 : d2 ≡ d1).
  { revert Hb. pose proof load_for_update_unchanged. pose proof by_proposal_unchanged.
    assert (effect unchanged (load_approval limit (Ingress.proposal_id a))) as Hu by (unfold load_approval; effects).
    apply Hu. }
  apply load_approval_Ok in Hb as (approval&binding&r&Hr&Hh&Hbind&Hm); [|done].
  apply tx_bind_Ok in He as (attempt&d3&Ha&He). run_tx. subst.
  destruct attempt as [executed|why]; [|run_tx; by subst].
  match goal with H : consume_bound_approval _ _ _ _ = _ |- _ =>
    apply consume_bound_Ok in H as (Hepoch&x&->&Hc) end.
  apply consume_Ok in Hc as (Hst&(Hcm&Hcp&Hdig)&Hlive&->).
  run_tx. match goal with H : (if negb ?b then _ else _) _ = Ok _ |- _ =>
    destruct b; cbn [negb] in H; run_tx; subst; [|done] end.
  match goal with H : and_then _ _ = Ok true |- _ => apply and_then_Ok in H as [Hmis Hfields] end.
  destruct (canonical_object limit (StoreProposals.payload proposal)) as [fields|] eqn:Hco; [|done].
  run_tx. match goal with H : match ?w with Some _ => _ | None => _ end _ = _ |- _ =>
    destruct w as [why|]; [run_tx; by subst|] end.
  match goal with H : evidence_refusal _ _ _ = _ |- _ =>
    apply evidence_refusal_None in H as (evidence&ef&Hev&Hem) end.
  destruct (approval_binding_refusal bound a) as [why|] eqn:Hbr; [run_tx; by subst|]. run_tx. subst.
  exists proposal, approval, binding, bound, evidence. split; [|done]. bools.
  apply approving_approval_of in Hm as Hm'. destruct Hm' as [Hao _].
  apply approval_of_Ok in Hao as (_&_&_&_&dt&w&m&_&_&_&_&Hab). cbn in Hab.
  split; try done.
  - split; [done|]. by eapply proposal_matches_exact.
  - exists r. unfold StoreApprovals.entry in *. rewrite (found_proper _ _ _ _ Hs1) in Hr.
    split; [done|]. split; [done|]. by rewrite Hab in Hst.
  - eapply reads_same; [apply Hs1|exact Hbind].
  - exists fields. split; [done|]. by apply proposal_digest_Ok in Hdig.
  - by apply binding_refusal_None.
  - eapply reads_same; [|exact Hev]. rewrite <- (Hs1 EVIDENCE_DECISION). apply Hs2.
  - by eapply decision_matches_exact.
Qed.
End escalation.

(** ** What commits with a decision *)

Section commit.
Context `{N : Normalization} `{M : PayloadModels} `{D : Database} (limit : nat).

(** The rows one decision leaves behind, all of them in one transaction. *)
Record committed (i : OperatorCommandIngress) (s : AuthorizationStamp) (id : InboxIdentity)
    (consumed : option BoundApproval) (x : AuthorizationArtifacts) (d d' : db) : Prop := {
  committed_audit :
    ∃ n, rows d' AUDIT_RECORD = (rows d AUDIT_RECORD ++ [StoreAudit.new_row (audit_record x) n])%list;
  committed_event :
    rows d' APPLICATION_OUTBOX = (rows d APPLICATION_OUTBOX ++ [event_row (audit_event x)])%list;
  committed_command :
    rows d' COMMAND_OUTBOX =
      (rows d COMMAND_OUTBOX ++ from_option (λ c, [StoreOutbox.new_row c]) [] (command_ x))%list;
  committed_progress :
    rows d' COMMAND_PROGRESS =
      (rows d COMMAND_PROGRESS ++ from_option (λ p, [initial_row p (occurred_at s)]) [] (progress_ x))%list;
  committed_approval :
    rows d' APPROVAL =
      match consumed with
      | None => rows d APPROVAL
      | Some b => update_rows (StoreApprovals.key_conds (StoreApprovals.proposal_id (durable_approval b)))
                              [("state", SText "executed")] (rows d APPROVAL)
      end;
  committed_inbox : completed d' id (result_ x)
}.

Lemma executed_row_Ok b row :
  executed_row b = Ok row → row = with_stored_state (durable_approval b) EXECUTED.
Proof. unfold executed_row. intros Hr. run_ok. by subst. Qed.

Lemma persist_Ok_rows b u d d' :
  consistent d → persist b d = Ok (u, d') →
  rows d' APPROVAL = update_rows (StoreApprovals.key_conds (StoreApprovals.proposal_id (durable_approval b)))
                       [("state", SText "executed")] (rows d APPROVAL) ∧
  confined [APPROVAL] d d'.
Proof.
  intros Hd Hp. unfold persist in Hp. run_tx. subst.
  match goal with H : executed_row _ = _ |- _ => apply executed_row_Ok in H as -> end.
  match goal with H : persist_consumed _ _ = _ |- _ =>
    split; [|by eapply persist_confined]; apply persist_Ok in H as (_&_&Hr); [|done] end.
  by rewrite (replaces_target _ _ _ _ Hr).
Qed.

Lemma effects_Ok x o :
  command_effects x = Ok o → command_ x = fst <$> o ∧ progress_ x = snd <$> o.
Proof. unfold command_effects. by destruct (command_ x), (progress_ x); intros [= <-]. Qed.

Lemma stage_effects_rows (o : option (StagedCommand * CommandIdentity)) s u d d' :
  consistent d →
  match o with
  | None => mret tt
  | Some (c, p) =>
      lift CommandFailure (StoreOutbox.stage c) ;;
      lift ProgressFailure (initialize p (occurred_at s)) ;;
      mret tt
  end d = Ok (u, d') →
  rows d' COMMAND_OUTBOX =
    (rows d COMMAND_OUTBOX ++ from_option (λ c, [StoreOutbox.new_row c]) [] (fst <$> o))%list ∧
  rows d' COMMAND_PROGRESS =
    (rows d COMMAND_PROGRESS ++ from_option (λ p, [initial_row p (occurred_at s)]) [] (snd <$> o))%list ∧
  confined [COMMAND_OUTBOX; COMMAND_PROGRESS] d d'.
Proof.
  intros Hd Hs. destruct o as [[c p]|]; run_tx; subst; cbn [fmap option_fmap option_map from_option fst snd];
    [|rewrite !app_nil_r; by split_and!].
  follow.
  match goal with H : StoreOutbox.stage _ _ = _ |- _ =>
    pose proof (stage_confined _ _ _ _ H) as Hc1; apply stage_Ok in H as (_&_&_&Hr1) end.
  match goal with H : initialize _ _ _ = _ |- _ =>
    pose proof (initialize_confined _ _ _ _ _ H) as Hc2; apply initialize_Ok in H as [_ Hr2]; [|done] end.
  rewrite (replaces_target _ _ _ _ Hr2), (Hc1 COMMAND_PROGRESS) by by_decide.
  rewrite (Hc2 COMMAND_OUTBOX), (replaces_target _ _ _ _ Hr1) by by_decide. split_and!; [done|done|].
  intros t Ht. rewrite (Hc2 t), (Hc1 t); [done|set_solver..].
Qed.

(** Rewrite a table's rows back through the steps that do not touch it. *)
Ltac frame :=
  repeat match goal with
  | H : confined _ ?d ?d' |- context [rows ?d' ?t] => rewrite (H t) by by_decide
  end.

Lemma persist_option_rows (o : option BoundApproval) u d d' :
  consistent d → match o with Some b => persist b | None => mret tt end d = Ok (u, d') →
  rows d' APPROVAL =
    match o with
    | None => rows d APPROVAL
    | Some b => update_rows (StoreApprovals.key_conds (StoreApprovals.proposal_id (durable_approval b)))
                            [("state", SText "executed")] (rows d APPROVAL)
    end ∧ confined [APPROVAL] d d'.
Proof. intros Hd Hp. destruct o; [by eapply persist_Ok_rows|]. run_tx. by subst. Qed.

Lemma persist_decision_commits id i s v d r d' :
  consistent d → persist_decision limit id i s v d = Ok (r, d') →
  ∃ x, build_authorization_artifacts limit i s (authorized v) (bound_id <$> consumed v)
         (refusal_reason v) = Ok x ∧
       result_bytes r = result_ x ∧ committed i s id (consumed v) x d d'.
Proof.
  intros Hd Hp.
  assert (Hdone := proj1 (persist_decision_completes _ _ _ _ _ _ _ _ Hd Hp)).
  unfold persist_decision in Hp. apply tx_bind_Ok in Hp as (x&d0&Hx&Hp). run_tx. subst.
  exists x. split; [done|]. split; [done|]. follow.
  match goal with H : command_effects x = _ |- _ => apply effects_Ok in H as [Hcmd Hpro] end.
  match goal with H : match consumed v with _ => _ end _ = _ |- _ =>
    apply persist_option_rows in H as [Hap Hc1]; [|done] end.
  match goal with H : append _ _ = _ |- _ =>
    pose proof (append_confined _ _ _ _ H) as Hc2; apply append_adds in H as Hau end.
  match goal with H : StoreEvents.stage _ _ = _ |- _ =>
    pose proof (stage_event_confined _ _ _ _ H) as Hc3; apply stage_event_Ok in H as [_ Hev]; [|done];
    apply replaces_target in Hev end.
  match goal with H : _ = Ok (_, ?d0), H' : record_result _ _ ?d0 = _ |- _ =>
    apply stage_effects_rows in H as (Hout&Hprog&Hc4); [|done] end.
  match goal with H : record_result _ _ _ = _ |- _ => pose proof (record_result_confined _ _ _ _ _ H) as Hc5 end.
  match goal with H : complete _ _ _ _ = _ |- _ => pose proof (complete_confined _ _ _ _ _ _ H) as Hc6 end.
  split; [eexists| | | | |exact Hdone]; frame.
  - rewrite Hau. by frame.
  - rewrite Hev. by frame.
  - rewrite Hout, Hcmd. by frame.
  - rewrite Hprog, Hpro. by frame.
  - by rewrite Hap.
Qed.
(** A run that is not a duplicate: claimed, decided on an untouched store, and persisted. *)
Lemma decided_run s now id i d r d' :
  consistent d → authorize_command limit s now id i d = Ok (r, d') → outcome r ≠ DUPLICATE →
  ∃ d2 v d3,
    consistent d2 ∧ durable d d2 ∧ confined [BROKER_INBOX; IDEMPOTENCY_CLAIM] d d2 ∧
    match action (command_payload i) with
    | AssignSector _ => d3 = d2 ∧ v = {| authorized := true; refusal_reason := None; consumed := None |}
    | EscalateRescue a => authorize_escalation limit i a now d2 = Ok (v, d3) ∧ d3 ≡ d2
    end ∧
    persist_decision limit id i s v d3 = Ok (r, d').
Proof.
  intros Hd Hr Ho. unfold authorize_command in Hr. apply tx_bind_Ok in Hr as (o&d1&Hc&Hr).
  apply lift_Ok in Hc. pose proof (claim_durable _ _ _ _ Hc) as Hdur1. pose proof (proj1 (Hdur1 Hd)) as Hd1.
  pose proof (claim_confined _ _ _ _ Hc) as Hf1.
  destruct (StoreInbox.decision o); [|run_tx; by subst]. unfold process_claimed in Hr.
  run_tx. subst.
  match goal with H : StoreClaims.claim _ _ = Ok (?cl, ?dc) |- _ =>
    pose proof (command_claim_durable _ _ _ _ H) as Hdur2; pose proof (command_claim_confined _ _ _ _ H) as Hf2;
    rename cl into taken, dc into d2, H into Hclaim end.
  pose proof (proj1 (Hdur2 Hd1)) as Hd2.
  match goal with H : command_claim _ _ = _ |- _ => unfold command_claim in H; run_ok; subst end.
  apply command_claim_Ok in Hclaim; [|done]. cbn [StoreClaims.kind idempotency_key] in Hclaim.
  assert (StoreClaims.decision taken = Idempotency.EXECUTE ∨
          StoreClaims.decision taken = Idempotency.RETURN_PRIOR_RESULT) as [Ht|Ht].
  { destruct (StoreClaims.entry d1 _) as [row|]; [right|left; by destruct Hclaim as [-> _]].
    destruct Hclaim as (_&_&_&Hc'). rewrite decide_False in Hc' by done. by destruct Hc' as (?&->&_). }
  - rewrite Ht in *. run_tx.
    match goal with H : match action _ with _ => _ end _ = Ok (?v, ?d3) |- _ => exists d2, v, d3; rename H into Ha end.
    split; [done|]. split; [by etransitivity|]. split.
    + intros t Hn. rewrite (Hf2 t), (Hf1 t); [done|set_solver..].
    + split; [|done]. destruct (action (command_payload i)) as [|a]; [by run_tx|].
      split; [done|]. by eapply authorize_escalation_unchanged.
  - rewrite Ht in *. run_tx. by subst.
Qed.
End commit.

Section theorems.
Context `{N : Normalization} `{M : PayloadModels} `{D : Database} `{P : SettlementPort} (limit : nat).

Lemma authority_before i a now proposal approval binding bound evidence d d' :
  confined [BROKER_INBOX; IDEMPOTENCY_CLAIM] d d' →
  authority_for limit i a now d' proposal approval binding bound evidence →
  authority_for limit i a now d proposal approval binding bound evidence.
Proof.
  intros Hc []. split; try done.
  - eapply reads_same; [apply Hc; by_decide|done].
  - destruct approval_held0 as (r&Hr&?). exists r. split; [|done].
    unfold StoreApprovals.entry, found in *. by rewrite <- (Hc APPROVAL) by by_decide.
  - eapply reads_same; [apply Hc; by_decide|done].
  - eapply reads_same; [apply Hc; by_decide|done].
Qed.

Lemma executed_after p b d d' r :
  StoreApprovals.entry d p = Some r → StoreApprovals.proposal_id b = p →
  rows d' APPROVAL = update_rows (StoreApprovals.key_conds (StoreApprovals.proposal_id b))
                       [("state", SText "executed")] (rows d APPROVAL) →
  ∃ r', StoreApprovals.entry d' p = Some r' ∧ cell r' "state" = SText (Approvals.state_value EXECUTED).
Proof.
  intros Hr <- Hu. unfold StoreApprovals.entry, found in *. rewrite Hu, where_update by done.
  destruct (where_rows _ (rows d APPROVAL)) as [|x l] eqn:Hw; [done|]. injection Hr as ->.
  assert (Hs : selects (StoreApprovals.key_conds (StoreApprovals.proposal_id b)) r = true).
  { apply (where_rows_elem _ (rows d APPROVAL)). rewrite Hw. left. }
  unfold update_rows. cbn [fmap list_fmap head]. rewrite Hs. eexists. split; [done|].
  unfold assign. cbn [foldl fst snd]. by rewrite cell_dict_set, decide_True.
Qed.

Lemma holds_proposal_key d p r x :
  StoreApprovals.entry d p = Some r → holds_approval r x → StoreApprovals.proposal_id x = p.
Proof.
  intros [_ Hs]%found_Some (_&Hp&_). cbn [selects StoreApprovals.key_conds forallb holds] in Hs.
  rewrite Hp, andb_true_r in Hs. apply sql_eq_true in Hs as [_ Hs]. congruence.
Qed.

(** One authorized escalation, seen from the store it started on and the one it left. *)
Lemma authorized_escalation s now id i a d r d' :
  consistent d → authorize_command limit s now id i d = Ok (r, d') → outcome r = AUTHORIZED →
  action (command_payload i) = EscalateRescue a →
  (∃ proposal approval binding bound evidence,
     authority_for limit i a now d proposal approval binding bound evidence) ∧
  ∃ row, StoreApprovals.entry d' (Ingress.proposal_id a) = Some row ∧
         cell row "state" = SText (Approvals.state_value EXECUTED).
Proof.
  intros Hd Hr Ho Ha.
  destruct (decided_run limit s now id i d r d' Hd Hr) as (d2&v&d3&Hd2&_&Hf&Hv&Hp); [by rewrite Ho|].
  rewrite Ha in Hv. destruct Hv as [Hv H32].
  assert (Hd3 : consistent d3) by (intros t; rewrite (H32 t); apply Hd2).
  destruct (persist_decision_completes _ _ _ _ _ _ _ _ Hd3 Hp) as (_&Hov&_).
  assert (authorized v = true) as Hav by (rewrite Ho in Hov; by destruct (authorized v)).
  destruct (authorize_escalation_Ok _ _ _ _ _ _ _ Hd2 Hv Hav) as (proposal&approval&binding&bound&evidence&Hau&Hcon).
  split; [do 5 eexists; by eapply authority_before|].
  destruct (persist_decision_commits _ _ _ _ _ _ _ _ Hd3 Hp) as (x&_&_&[_ _ _ _ Hrows _]).
  rewrite Hcon in Hrows. cbn [durable_approval with_approval] in Hrows.
  destruct Hau as [? ? (row&Hrow&Hh&_) ? Hm]. apply approving_approval_of in Hm as [_ Hdur]. cbn in Hdur.
  rewrite Hdur in Hrows. eapply (executed_after _ _ d3); [|by eapply holds_proposal_key|exact Hrows].
  unfold StoreApprovals.entry. by rewrite (found_proper _ _ _ _ H32).
Qed.

(** The reasons a refusal of this gateway carries. *)
Definition REASONS : list string :=
  ["approval-missing"; "approval-rejected"; "approval-expired"; "approval-superseded";
   "approval-consumed"; "proposal-mismatch"; "evidence-decision-mismatch"; "action-mismatch"].

(** A refusal consumes nothing and names its reason; an authorization names none. *)
Definition well_decided (v : Decision) : Prop :=
  if authorized v then refusal_reason v = None
  else consumed v = None ∧ ∃ why, refusal_reason v = Some why ∧ why ∈ REASONS.

Lemma deny_decided why : why ∈ REASONS → well_decided (deny why).
Proof. intros Hw. split; [done|]. by exists why. Qed.

Lemma approval_reason_closed e s : approval_reason e s ∈ REASONS.
Proof. unfold approval_reason. destruct (Approvals.refusal e); try case_match; by_decide. Qed.

Lemma consume_bound_reason bound x fields now why :
  consume_bound_approval bound x fields now = Ok (inr why) → why ∈ REASONS.
Proof.
  unfold consume_bound_approval. case_match; [intros [= <-]; by_decide|].
  destruct (consume _ _ _) as [|[]]; intros [= <-]. apply approval_reason_closed.
Qed.

Lemma evidence_reason a why d d' : evidence_refusal limit a d = Ok (Some why, d') → why ∈ REASONS.
Proof.
  intros He. unfold evidence_refusal in He. run_tx.
  destruct (canonical_object limit _); run_tx; subst; [|simplify_eq; by_decide].
  match goal with H : (if ?b then _ else _) = Some _ |- _ => destruct b; [done|] end.
  simplify_eq. by_decide.
Qed.

Lemma binding_reason bound a why : approval_binding_refusal bound a = Some why → why ∈ REASONS.
Proof. unfold approval_binding_refusal. repeat case_match; intros [= <-]; by_decide. Qed.

Lemma escalation_decided i a now v d d' : authorize_escalation limit i a now d = Ok (v, d') → well_decided v.
Proof.
  intros He. unfold authorize_escalation in He. run_tx.
  match goal with H : match ?w with inl _ => _ | inr _ => _ end _ = Ok _ |- _ => destruct w as [b|why] end;
    run_tx; subst; [|apply deny_decided; by eapply consume_bound_reason].
  match goal with H : (if negb ?b then _ else _) _ = Ok _ |- _ => destruct b; cbn [negb] in H end;
    run_tx; subst; [|apply deny_decided; by_decide].
  match goal with H : match ?w with Some _ => _ | None => _ end _ = Ok _ |- _ => destruct w as [why|] end;
    run_tx; subst; [apply deny_decided; by eapply evidence_reason|].
  destruct (approval_binding_refusal _ a) as [why|] eqn:Hb; run_tx; subst;
    [apply deny_decided; by eapply binding_reason|done].
Qed.

(** What the built effects are, by the decision. *)
Definition effects_of (i : OperatorCommandIngress) (x : AuthorizationArtifacts) (granted : bool) : Prop :=
  let p := command_payload i in
  if granted then
    ∃ c q, command_ x = Some c ∧ progress_ x = Some q ∧
      StoreOutbox.command_id c = Ingress.command_id p ∧ StoreOutbox.mission_id c = Ingress.mission_id p ∧
      StoreOutbox.drone_id c = drone_of (action p) ∧
      StoreProgress.command_id q = Ingress.command_id p ∧
      StoreProgress.mission_id q = Ingress.mission_id p ∧ StoreProgress.drone_id q = drone_of (action p)
  else command_ x = None ∧ progress_ x = None.

Lemma artifacts_of i s granted approval why x :
  build_authorization_artifacts limit i s granted approval why = Ok x → effects_of i x granted.
Proof.
  unfold build_authorization_artifacts. intros Hx. run_ok.
  destruct granted; cbn [negb] in *; run_ok; subst; [by eexists _, _|done].
Qed.

Lemma committed_before i s id consumed x d d2 d' :
  (∀ t, t ∉ [BROKER_INBOX; IDEMPOTENCY_CLAIM] → rows d2 t = rows d t) →
  committed i s id consumed x d2 d' → committed i s id consumed x d d'.
Proof.
  intros Hf [[n H1] H2 H3 H4 H5 H6]. split; [exists n| | | | |done].
  - by rewrite H1, Hf by by_decide.
  - by rewrite H2, Hf by by_decide.
  - by rewrite H3, Hf by by_decide.
  - by rewrite H4, Hf by by_decide.
  - rewrite H5. by rewrite Hf by by_decide.
Qed.

Lemma handled_command dl s now observed d r :
  returned (handle_operator_command limit dl s now observed d) = Ok r →
  ∃ i id, accept_ingress limit (payload dl) (PyStr (topic dl)) = Ok (AcceptedCommand i) ∧
    authorize_command limit s now id i d =
      Ok (r, store (handle_operator_command limit dl s now observed d)).
Proof.
  intros (a&i&id&Ha&Hs&_&Hb)%handle_returned. exists i, id. split; [|exact Hb].
  cbn in Hs. destruct a; try done. by injection Hs as ->.
Qed.

(** C4: what an authorized rescue escalation presupposes.  If the handler authorizes one, then in
    the store it started from the proposal is the one the command names and executes exactly the
    command's drone and coordinates; the operator's approval was approved and not yet used, is
    live on both clocks, was bound to this gateway's own epoch, covers the proposal's digest and
    binds the same action and evidence; and that evidence decision contributes a corroborated
    band.  In the store it leaves, the approval is executed. *)
Theorem escalation_needs_authority (dl : GuaranteedDelivery) (s : AuthorizationStamp)
    (now : AuthorizationClock) (observed : string) (d : db) (r : AuthorizationResult)
    (Hd : consistent d)
    (Hr : returned (handle_operator_command limit dl s now observed d) = Ok r)
    (Ho : outcome r = AUTHORIZED) :
  ∃ i, accept_ingress limit (payload dl) (PyStr (topic dl)) = Ok (AcceptedCommand i) ∧
    ∀ a, action (command_payload i) = EscalateRescue a →
      (∃ proposal approval binding bound evidence,
         authority_for limit i a now d proposal approval binding bound evidence) ∧
      ∃ row, StoreApprovals.entry (store (handle_operator_command limit dl s now observed d))
               (Ingress.proposal_id a) = Some row ∧
             cell row "state" = SText (Approvals.state_value EXECUTED).
Proof.
  destruct (handled_command _ _ _ _ _ _ Hr) as (i&id&Hi&Hb). exists i. split; [done|].
  intros a Ha. by eapply authorized_escalation.
Qed.

(** C5: a proposal is escalated at most once.  After a run that authorized the escalation of a
    proposal, no run from any later store, with any command naming that proposal, any approval
    clock and any identities, authorizes it again. *)
Theorem escalated_once (dl dl' : GuaranteedDelivery) (s s' : AuthorizationStamp)
    (now now' : AuthorizationClock) (observed observed' : string) (d later : db)
    (r r' : AuthorizationResult) (i i' : OperatorCommandIngress) (a a' : EscalateRescueAction)
    (Hd : consistent d)
    (Hi : accept_ingress limit (payload dl) (PyStr (topic dl)) = Ok (AcceptedCommand i))
    (Hi' : accept_ingress limit (payload dl') (PyStr (topic dl')) = Ok (AcceptedCommand i'))
    (Ha : action (command_payload i) = EscalateRescue a)
    (Ha' : action (command_payload i') = EscalateRescue a')
    (Hp : Ingress.proposal_id a' = Ingress.proposal_id a)
    (Hr : returned (handle_operator_command limit dl s now observed d) = Ok r)
    (Ho : outcome r = AUTHORIZED)
    (Hl : durable (store (handle_operator_command limit dl s now observed d)) later)
    (Hr' : returned (handle_operator_command limit dl' s' now' observed' later) = Ok r') :
  outcome r' ≠ AUTHORIZED.
Proof.
  intros Ho'.
  destruct (handled_command _ _ _ _ _ _ Hr) as (j&id&Hj&Hb). rewrite Hi in Hj. injection Hj as <-.
  destruct (handled_command _ _ _ _ _ _ Hr') as (j&id'&Hj&Hb'). rewrite Hi' in Hj. injection Hj as <-.
  assert (Hd1 := proj1 (authorize_command_durable _ _ _ _ _ _ _ _ Hb Hd)).
  destruct (Hl Hd1) as (Hd2&_&Hprog).
  destruct (authorized_escalation _ _ _ _ _ _ _ _ Hd Hb Ho Ha) as (_&row&Hrow&Hst).
  destruct (authorized_escalation _ _ _ _ _ _ _ _ Hd2 Hb' Ho' Ha') as ((?&approval&?&?&?&Hau)&_).
  destruct (approval_held _ _ _ _ _ _ _ _ _ _ Hau) as (row2&Hrow2&(_&_&Hst2&_)&Hap).
  rewrite Hp in Hrow2. destruct (Hprog _ _ Hrow) as (row3&Hrow3&_&Hs). rewrite Hrow2 in Hrow3.
  injection Hrow3 as <-. rewrite Hap in Hst2. 
  destruct Hs as [Hs|[Hs _]]; rewrite ?Hst, ?Hst2 in Hs; discriminate Hs.
Qed.

(** C30: a decision commits whole.  A run that decides a command appends one audit record and one
    audit event, completes its inbox identity with the result it returns, and queues exactly one
    command with its progress when it authorizes, for the command's own drone; when it refuses it
    queues no command, leaves every approval as it was, and names one of the eight reasons. *)
Theorem decision_commits (dl : GuaranteedDelivery) (s : AuthorizationStamp)
    (now : AuthorizationClock) (observed : string) (d : db) (r : AuthorizationResult)
    (Hd : consistent d)
    (Hr : returned (handle_operator_command limit dl s now observed d) = Ok r)
    (Ho : outcome r ≠ DUPLICATE) :
  ∃ i id used x,
    accept_ingress limit (payload dl) (PyStr (topic dl)) = Ok (AcceptedCommand i) ∧
    committed i s id used x d (store (handle_operator_command limit dl s now observed d)) ∧
    result_bytes r = result_ x ∧
    effects_of i x (bool_decide (outcome r = AUTHORIZED)) ∧
    (outcome r = REFUSED → used = None ∧ ∃ why, reason r = Some why ∧ why ∈ REASONS).
Proof.
  destruct (handled_command _ _ _ _ _ _ Hr) as (i&id&Hi&Hb).
  destruct (decided_run limit s now id i d r _ Hd Hb Ho) as (d2&v&d3&Hd2&_&Hf&Hv&Hp).
  assert (H32 : d3 ≡ d2 ∧ well_decided v).
  { destruct (action (command_payload i)) as [|a]; [by destruct Hv as [-> ->]|].
    destruct Hv as [Hv ?]. split; [done|]. by eapply escalation_decided. }
  destruct H32 as [H32 Hw].
  assert (Hd3 : consistent d3) by (intros t; rewrite (H32 t); apply Hd2).
  destruct (persist_decision_completes _ _ _ _ _ _ _ _ Hd3 Hp) as (_&Hov&Hre).
  destruct (persist_decision_commits _ _ _ _ _ _ _ _ Hd3 Hp) as (x&Hx&Hres&Hcom).
  exists i, id, (consumed v), x. split; [done|]. split.
  { eapply committed_before; [|exact Hcom]. intros t Ht. by rewrite (H32 t), (Hf t Ht). }
  split; [done|]. apply artifacts_of in Hx. unfold well_decided in Hw. rewrite Hov, Hre.
  destruct (authorized v); (split; [exact Hx|]); [done|]. by intros _.
Qed.
End theorems.

(** ** On the sample store *)

#[local] Existing Instance ascii_normalization.
#[local] Existing Instance strict_models.
#[local] Existing Instance memory.
#[local] Existing Instance settling_port.

Lemma escalation_needs_authority_witness :
  outcome granted = AUTHORIZED ∧
  ∃ i, accept_ingress DIGITS (payload first_escalation) (PyStr (topic first_escalation)) = Ok (AcceptedCommand i).
Proof.
  split; [reflexivity|].
  destruct (escalation_needs_authority DIGITS first_escalation (stamp 1) half_minute observed_at ready granted
    ready_consistent (proj1 first_run_granted) eq_refl) as (i&Hi&_).
  exists i. exact Hi.
Defined.

Definition command_in (dl : GuaranteedDelivery) : option OperatorCommandIngress :=
  match accept_ingress DIGITS (payload dl) (PyStr (topic dl)) with Ok (AcceptedCommand i) => Some i | _ => None end.

Lemma escalated_once_witness :
  returned second_run = Ok refused_again ∧ outcome refused_again ≠ AUTHORIZED.
Proof.
  split; [exact (proj1 second_run_refused)|].
  eapply (escalated_once DIGITS first_escalation second_escalation (stamp 1) (stamp 3) half_minute
    half_minute observed_at observed_at ready (store first_run) granted refused_again _ _ _ _ ready_consistent);
    [vm_compute; reflexivity | vm_compute; reflexivity | reflexivity | reflexivity | reflexivity
    | exact (proj1 first_run_granted) | reflexivity | reflexivity | exact (proj1 second_run_refused)].
Defined.

Lemma decision_commits_witness :
  outcome granted ≠ DUPLICATE ∧ ∃ i x, effects_of i x true.
Proof.
  split; [discriminate|].
  destruct (decision_commits DIGITS first_escalation (stamp 1) half_minute observed_at ready granted
    ready_consistent (proj1 first_run_granted) ltac:(discriminate)) as (i&id&used&x&_&_&_&Hx&_).
  exists i, x. exact Hx.
Defined.
