(* ===== verification/Publication.v ===== *)
(** * Publishing what was staged

    [services/command_gateway/src/aerial_rescue_command_gateway/publication.py] with the outbox
    classes of [store_adapter.py]: staged rows are read in one transaction, each is handed to the
    broker session outside any, and what the broker answered is recorded in a transaction of its
    own.  A worker acts on the store and on the wire, and what it did stays done when it raises. *)

From S2P Require Import Prelude PyStr Regex PyVal Canonical JsonBytes Instant Topics Envelope.
From S2P Require Import Outbox Sql Schema StoreProposals StoreEvents StoreOutbox Ingress Routing.
Local Open Scope string_scope.
Local Open Scope Z_scope.

Definition COMMAND_PUBLICATION_BATCH_SIZE : Z := 50.
Definition APPLICATION_PRODUCER : string := "command-gateway".
Definition COMMAND_TYPE_PREFIX : string := "aerial-rescue.v1.drone.command.".
Definition COMMAND_TYPES : list string := ["assign-sector"; "escalate-rescue"].

Inductive PublicationRefusal : Set := BATCH_EXCEEDED | COMMAND_BINDING | OUTBOX_STATE | BROKER_OUTCOME.

Inductive ApplicationPublicationRefusal : Set :=
| APPLICATION_BATCH_EXCEEDED | HEADERS | IDENTITY | CONFIRMATION | APPLICATION_BROKER_OUTCOME.

(** Everything that leaves a worker as an exception. *)
Inductive publication_failure : Type :=
| PublicationError (refusal : PublicationRefusal)
| ApplicationPublicationError (refusal : ApplicationPublicationRefusal)
| ConfirmationError
| CommandOutboxFailure (e : outbox_failure)
| EventOutboxFailure (e : event_failure)
| EnvelopeEscape (e : envelope_failure)
| TopicEscape (e : topic_failure)
| RouterEscape (e : routing_failure)
| LookupEscape (name : string).

Record PublicationReport : Set := { confirmed : nat; ambiguous : nat; refused : nat }.

Record ApplicationPublicationReport : Set := { visited : nat; publications : PublicationReport }.

Definition nothing_yet : PublicationReport := {| confirmed := 0; ambiguous := 0; refused := 0 |}.
Definition and_one (r : PublicationReport) (o : option OutboxEvent) : PublicationReport :=
  match o with
  | Some CONFIRM => {| confirmed := S (confirmed r); ambiguous := ambiguous r; refused := refused r |}
  | Some AMBIGUOUS => {| confirmed := confirmed r; ambiguous := S (ambiguous r); refused := refused r |}
  | None => {| confirmed := confirmed r; ambiguous := ambiguous r; refused := S (refused r) |}
  end.

Section workers.
Context `{N : Normalization} `{D : Database} `{B : Broker} (limit : nat).

Record world : Type := { store : db; said : wire }.

Abbreviation worked := (acting world publication_failure).

(** One short transaction. *)
Definition committed {E A} (h : E → publication_failure) (body : tx E A) : worked A := λ w,
  let (r, d) := transaction body (store w) in (map_err h r, {| store := d; said := said w |}).

(** What the broker's answer to one publication says to record: [None] is a definite refusal,
    which leaves the row staged; another answer is the failure it raises. *)
Definition broker_outcome (other : routing_failure → publication_failure) (call : wired routing_failure unit)
    : worked (option OutboxEvent) := λ w,
  let (r, log) := call (said w) in
  (match r with
   | Ok _ => Ok (Some CONFIRM)
   | Err (MessagingError PUBLISH_REFUSED) => Ok None
   | Err (MessagingError PUBLISH_AMBIGUOUS) => Ok (Some AMBIGUOUS)
   | Err e => Err (other e)
   end, {| store := store w; said := log |}).

(** ** Commands *)

(** [StoreCommandOutbox.record] *)
Definition record_command (id : string) (was : OutboxState) (event : OutboxEvent) (confirmed_at : option string)
    : worked unit :=
  calm (match event, confirmed_at with
        | CONFIRM, Some at_ => map_err (λ _, ConfirmationError) (parse_instant (PyStr at_)) ;; Ok tt
        | AMBIGUOUS, None => Ok tt
        | _, _ => Err ConfirmationError
        end) ;;
  committed CommandOutboxFailure (StoreOutbox.record_publication id was event) ;;
  mret tt.

(** What [except ValueError] leaves of decoding. *)
Definition command_unbound (e : envelope_failure) : publication_failure :=
  match envelope_lookup e with Some n => LookupEscape n | None => PublicationError COMMAND_BINDING end.

(** [payload.get(name) == text] *)
Definition carries (d : members) (name text : string) : bool := py_eq (get d name) (PyStr text).

Definition command_topic_of (c : StagedCommand) (command_type : string) : Topic := {|
  Topics.family := DRONE_COMMAND; Topics.mission_id := StoreOutbox.mission_id c;
  parameters := [("droneId", StoreOutbox.drone_id c); ("commandType", command_type)]
|}.

(** The staged identity is the envelope's own. *)
Definition command_bound (c : StagedCommand) (e : Envelope) (command_type : string) : bool :=
  negb (bool_decide (Envelope.type e = command_type)) &&
  bool_decide (command_type ∈ COMMAND_TYPES) &&
  carries (Envelope.data e) "missionId" (StoreOutbox.mission_id c) &&
  carries (Envelope.data e) "droneId" (StoreOutbox.drone_id c) &&
  carries (Envelope.data e) "commandId" (StoreOutbox.command_id c) &&
  bool_decide (Envelope.correlation_id e = StoreOutbox.correlation_id c) &&
  bool_decide (Envelope.causation_id e = StoreOutbox.causation_id c) &&
  bool_decide (Envelope.traceparent e = StoreOutbox.traceparent c).

(** [_topic] *)
Definition command_destination (c : StagedCommand) : result publication_failure string :=
  e ← map_err command_unbound (decode_delivered limit (StoreOutbox.payload c));
  let command_type := remove_prefix COMMAND_TYPE_PREFIX (Envelope.type e) in
  raise_if (negb (command_bound c e command_type)) (PublicationError COMMAND_BINDING) ;;
  map_err EnvelopeEscape (check_topic_binding e (command_topic_of c command_type)) ;;
  map_err TopicEscape (format_topic (command_topic_of c command_type)).

Definition broker_failed (_ : routing_failure) : publication_failure := PublicationError BROKER_OUTCOME.

(** [_publish_one] *)
Definition publish_one (p : CommandOutboxRecord) (confirmed_at : string) : worked (option OutboxEvent) :=
  calm (raise_if (negb (bool_decide (StoreOutbox.state p = STAGED))) (PublicationError OUTBOX_STATE)) ;;
  text ← calm (command_destination (command p));
  o ← broker_outcome broker_failed
        (hand_over {| port := GUARANTEED_PORT; destination := text; body := StoreOutbox.payload (command p);
                      carried := [] |});
  match o with
  | None => mret tt
  | Some AMBIGUOUS => record_command (StoreOutbox.command_id (command p)) (StoreOutbox.state p) AMBIGUOUS None
  | Some CONFIRM => record_command (StoreOutbox.command_id (command p)) (StoreOutbox.state p) CONFIRM (Some confirmed_at)
  end ;;
  mret o.

(** [for row in pending] *)
Fixpoint each {A} (one : A → worked (option OutboxEvent)) (l : list A) (r : PublicationReport)
    : worked PublicationReport :=
  match l with
  | [] => mret r
  | a :: l => o ← one a; each one l (and_one r o)
  end.

Definition publish_batch (confirmed_at : string) : worked PublicationReport :=
  rows ← committed (CommandOutboxFailure ∘ StoreOutbox.Store) (StoreOutbox.pending STAGED COMMAND_PUBLICATION_BATCH_SIZE);
  calm (raise_if (COMMAND_PUBLICATION_BATCH_SIZE <? Z.of_nat (length rows)) (PublicationError BATCH_EXCEEDED)) ;;
  each (λ p, publish_one p confirmed_at) rows nothing_yet.

(** [reconcile_publication], of which [confirms] is the injected evidence. *)
Definition reconcile_publication (p : CommandOutboxRecord) (confirms : string → bool) (confirmed_at : string)
    : worked bool :=
  calm (raise_if (negb (bool_decide (StoreOutbox.state p = RECONCILIATION_NEEDED))) (PublicationError OUTBOX_STATE)) ;;
  if negb (confirms (StoreOutbox.command_id (command p))) then mret false else
  record_command (StoreOutbox.command_id (command p)) (StoreOutbox.state p) CONFIRM (Some confirmed_at) ;;
  mret true.

(** ** Application events *)

(** What [except ValueError] leaves of each check. *)
Definition unbound (escaped : option string) : publication_failure :=
  match escaped with Some n => LookupEscape n | None => ApplicationPublicationError IDENTITY end.

(** [_bind_application_event] *)
Definition bind_application_event (e : StagedApplicationEvent) (t : Topic) : result publication_failure unit :=
  x ← map_err (λ f, unbound (envelope_lookup f))
        (x ← decode_delivered limit (StoreEvents.payload e); check_topic_binding x t ;; Ok x);
  raise_if (negb (bool_decide (Envelope.id x = StoreEvents.event_id e) &&
                  bool_decide (Envelope.traceparent x = StoreEvents.traceparent e) &&
                  bool_decide (Envelope.tracestate x = StoreEvents.tracestate e) &&
                  bool_decide (Envelope.correlation_id x = StoreEvents.correlation_id e) &&
                  bool_decide (Envelope.causation_id x = StoreEvents.causation_id e) &&
                  bool_decide (Envelope.time x = StoreEvents.staged_at e)))
           (ApplicationPublicationError IDENTITY).

(** [_application_properties] *)
Definition application_properties (e : StagedApplicationEvent) : result publication_failure members :=
  t ← map_err (λ f, unbound (topic_lookup f)) (parse_topic (PyStr (StoreEvents.topic e)));
  raise_if (negb (bool_decide (StoreEvents.producer e = APPLICATION_PRODUCER)) ||
            negb (bool_decide (StoreEvents.family e = outbox_family (Topics.family t))))
           (ApplicationPublicationError IDENTITY) ;;
  bind_application_event e t ;;
  v ← map_err (λ _, ApplicationPublicationError HEADERS) (decode_bytes limit (StoreEvents.headers e));
  match v with
  | PyDict d =>
      if forallb (λ kv : pykey * pyval, match kv.1 with KStr _ => true | KOther _ => false end) d
      then Ok d else Err (ApplicationPublicationError HEADERS)
  | _ => Err (ApplicationPublicationError HEADERS)
  end.

Definition identity_of (e : StagedApplicationEvent) : ApplicationEventIdentity :=
  {| of_producer := StoreEvents.producer e; of_event := StoreEvents.event_id e |}.

(** [StoreApplicationOutbox.record] *)
Definition record_event (e : StagedApplicationEvent) (event : OutboxEvent) (confirmed_at : option string)
    : worked unit :=
  committed EventOutboxFailure (StoreEvents.record_publication (identity_of e) STAGED event confirmed_at) ;; mret tt.

(** Only [MessagingError] is caught, and only two of its refusals are answers. *)
Definition routed_failed (e : routing_failure) : publication_failure :=
  match e with
  | MessagingError _ => ApplicationPublicationError APPLICATION_BROKER_OUTCOME
  | e => RouterEscape e
  end.

Definition publish_event (r : DeliveryRouter) (confirmed_at : string) (e : StagedApplicationEvent)
    : worked (option OutboxEvent) :=
  properties ← calm (application_properties e);
  o ← broker_outcome routed_failed (publish limit r (StoreEvents.topic e) (StoreEvents.payload e) properties);
  match o with
  | None => mret tt
  | Some AMBIGUOUS => record_event e AMBIGUOUS None
  | Some CONFIRM => record_event e CONFIRM (Some confirmed_at)
  end ;;
  mret o.

Definition publish_application_batch (r : DeliveryRouter) (confirmed_at : string)
    : worked ApplicationPublicationReport :=
  calm (map_err (λ _, ApplicationPublicationError CONFIRMATION) (parse_instant (PyStr confirmed_at))) ;;
  rows ← committed (EventOutboxFailure ∘ StoreEvents.Store) (StoreEvents.pending APPLICATION_PRODUCER);
  calm (raise_if (APPLICATION_OUTBOX_BATCH_SIZE <? Z.of_nat (length rows))
                 (ApplicationPublicationError APPLICATION_BATCH_EXCEEDED)) ;;
  report ← each (publish_event r confirmed_at) rows nothing_yet;
  mret {| visited := length rows; publications := report |}.
End workers.
