(* ===== verification/Published.v ===== *)
(** * What the publication worker guarantees

    The theorems about [Publication.publish_batch]: a command's durable state follows what the
    broker answered about that very command, however the batch ends, and a broker that confirms
    drains the outbox. *)

From stdpp Require Import sorting sets strings.
From S2P Require Import Prelude PyStr PyVal Canonical Instant Topics Envelope Lifecycle Outbox Sql Schema StoreProposals StoreEvents StoreOutbox Principals Ingress Delivery Authorization GatewaySample Authorized Exchange Routing Publication.
Local Open Scope string_scope.
Local Open Scope Z_scope.

(** ** The identities of a table's rows *)

Definition id_of (r : row) : string := StoreOutbox.command_id (command_of r).

Section identities.
Context `{D : Database}.

Lemma ids_distinct (l : list row) :
  Forall (λ r, Sql.admitted COMMAND_OUTBOX r = true) l → keys_unique id_columns l → NoDup (id_of <$> l).
Proof.
  induction l as [|r l IH]; intros Ha Hu; [apply NoDup_nil_2|]. rewrite fmap_cons. apply Forall_cons in Ha as [Hr Ha].
  assert (Hkey : ∀ x, Sql.admitted COMMAND_OUTBOX x = true → cell x "command_id" = SText (id_of x)).
  { intros x Hx. destruct (admitted_text _ x "command_id" 64 Hx) as [s Hs]; [by_decide|]. unfold id_of. cbn. by rewrite Hs. }
  apply NoDup_cons. split.
  - intros Hin. apply list_elem_of_fmap in Hin as (x&Hid&Hx). specialize (Hu r).
    rewrite filter_cons, decide_True in Hu.
    2: { unfold same_key. cbn. rewrite andb_true_r. apply sql_eq_true. by rewrite Hkey. }
    assert (Hf : x ∈ filter (λ y, same_key id_columns r y = true) l).
    { apply list_elem_of_filter. split; [|done]. unfold same_key. cbn. rewrite andb_true_r. apply sql_eq_true.
      rewrite Forall_forall in Ha. rewrite !Hkey by auto. by rewrite Hid. }
    destruct (filter _ l); [by apply elem_of_nil in Hf|]. cbn in Hu. lia.
  - apply IH; [done|]. intros x. specialize (Hu x). rewrite filter_cons in Hu. case_decide; [rewrite length_cons in Hu|]; lia.
Qed.

Lemma oldest_distinct d limit : consistent d → NoDup (id_of <$> oldest d STAGED limit).
Proof.
  intros Hd. destruct (Hd COMMAND_OUTBOX) as [Ha Hu]. apply Forall_cons in Hu as [Hu _].
  pose proof (ids_distinct _ Ha Hu) as Hn. unfold oldest.
  eapply sublist_NoDup; [|apply fmap_sublist, sublist_take].
  rewrite merge_sort_Permutation. eapply sublist_NoDup; [exact Hn|]. apply fmap_sublist, sublist_filter.
Qed.
End identities.

Section published.
Context `{N : Normalization} `{D : Database} `{B : Broker} (limit : nat).

(** The publication a stored command stands for. *)
Definition command_publication (r : row) (text : string) : Publication :=
  {| port := GUARANTEED_PORT; destination := text; body := StoreOutbox.payload (command_of r); carried := [] |}.

Definition speaks_for (d : db) (p : Publication) : Prop :=
  ∃ id r text, entry d id = Some r ∧ command_destination limit (command_of r) = Ok text ∧
    p = command_publication r text.

(** Between two worlds the publication was handed over, and got this answer. *)
Definition asked (w w' : world) (p : Publication) (a : option MessagingRefusal) : Prop :=
  ∃ before after, said w' = (said w ++ before ++ p :: after)%list ∧ answered (said w ++ before)%list p = a.

(** The answer that means each report. *)
Definition meant (e : OutboxEvent) : option MessagingRefusal :=
  match e with CONFIRM => None | AMBIGUOUS => Some PUBLISH_AMBIGUOUS end.

(** A staged command moved as the broker's answer about it says. *)
Definition recorded (w w' : world) (r r' : row) : Prop :=
  cell r "state" = SText (state_value STAGED) ∧
  ∃ text event became, command_destination limit (command_of r) = Ok text ∧
    asked w w' (command_publication r text) (meant event) ∧
    Outbox.transition STAGED event = Ok became ∧ r' = moved_to became r.

Definition published (w w' : world) : Prop :=
  consistent (store w) →
  consistent (store w') ∧ confined [COMMAND_OUTBOX] (store w) (store w') ∧
  (∃ ps, said w' = (said w ++ ps)%list ∧ Forall (speaks_for (store w)) ps) ∧
  ∀ id, match entry (store w) id with
        | None => entry (store w') id = None
        | Some r => ∃ r', entry (store w') id = Some r' ∧ (r' = r ∨ recorded w w' r r')
        end.

Lemma asked_later w1 w2 w3 p a ps :
  said w2 = (said w1 ++ ps)%list → asked w2 w3 p a → asked w1 w3 p a.
Proof.
  intros Hs (before&after&H3&Ha). exists (ps ++ before)%list, after. rewrite H3, Hs in *.
  by rewrite <- !app_assoc in *.
Qed.

Lemma asked_extends w1 w2 w3 p a ps :
  said w3 = (said w2 ++ ps)%list → asked w1 w2 p a → asked w1 w3 p a.
Proof.
  intros Hs (before&after&H2&Ha). exists before, (after ++ ps)%list. split; [|done].
  rewrite Hs, H2. by rewrite <- !app_assoc.
Qed.

Lemma published_refl w w' : said w' = said w → store w' ≡ store w → published w w'.
Proof.
  intros Hw Hs Hd. split; [intros t; rewrite (Hs t); apply Hd|]. split; [intros t _; apply Hs|]. split.
  - exists []. by rewrite app_nil_r.
  - intros id. unfold entry. rewrite (found_proper _ _ _ _ Hs). destruct (found _ _ _) as [r|]; eauto.
Qed.

Lemma recorded_command w w' r r' : recorded w w' r r' → command_of r' = command_of r.
Proof. intros (_&text&event&became&_&_&_&->). apply command_of_moved. Qed.

(** What a row spoke for before, it speaks for after. *)
Lemma speaks_before w w' p : consistent (store w) → published w w' → speaks_for (store w') p → speaks_for (store w) p.
Proof.
  intros Hd Hp (id&r'&text&Hr'&Ht&->). destruct (Hp Hd) as (_&_&_&Hrows). specialize (Hrows id).
  destruct (entry (store w) id) as [r|] eqn:Hr; [|congruence]. destruct Hrows as (r2&Hr2&Hmoved).
  rewrite Hr' in Hr2. injection Hr2 as <-.
  assert (Hc : command_of r' = command_of r) by (destruct Hmoved as [->|Hm]; [done|by eapply recorded_command]).
  exists id, r, text. rewrite Hc in Ht. unfold command_publication. by rewrite Hc.
Qed.

Lemma published_trans w1 w2 w3 : published w1 w2 → published w2 w3 → published w1 w3.
Proof.
  intros H12 H23 Hd1. destruct (H12 Hd1) as (Hd2&Hc2&(ps&Hs2&Hp2)&Hr2).
  destruct (H23 Hd2) as (Hd3&Hc3&(qs&Hs3&Hp3)&Hr3). split; [done|]. split; [by etransitivity|]. split.
  { exists (ps ++ qs)%list. split; [by rewrite Hs3, Hs2, app_assoc|]. apply Forall_app. split; [done|].
    eapply Forall_impl; [exact Hp3|]. intros p. by apply speaks_before. }
  intros id. specialize (Hr2 id). specialize (Hr3 id). destruct (entry (store w1) id) as [r1|].
  2: { by rewrite Hr2 in Hr3. }
  destruct Hr2 as (r2&He2&Hm2). rewrite He2 in Hr3. destruct Hr3 as (r3&He3&Hm3). exists r3. split; [done|].
  destruct Hm2 as [->|Hm2].
  - destruct Hm3 as [->|(Hst&text&event&became&Ht&Ha&Htr&->)]; [by left|]. right.
    split; [done|]. exists text, event, became. split; [done|]. split; [by eapply asked_later|done].
  - right. destruct Hm2 as (Hst&text&event&became&Ht&Ha&Htr&->).
    destruct Hm3 as [->|(Hst2&_)].
    + split; [done|]. exists text, event, became. split; [done|]. split; [by eapply asked_extends|done].
    + rewrite moved_state in Hst2. by destruct event; injection Htr as <-.
Qed.

(** ** One command *)

(** The transaction of one record: nothing, or the compared row moved. *)
Lemma record_command_run id event at_ w o w' :
  consistent (store w) → record_command id STAGED event at_ w = (o, w') →
  said w' = said w ∧ consistent (store w') ∧ confined [COMMAND_OUTBOX] (store w) (store w') ∧
  (store w' = store w ∨ ∃ became,
    Outbox.transition STAGED event = Ok became ∧
    (∃ r, entry (store w) id = Some r ∧ cell r "state" = SText (state_value STAGED)) ∧
    replaces (store w) COMMAND_OUTBOX
      (update_rows (id_conds id) [("state", SText (state_value became))] (rows (store w) COMMAND_OUTBOX)) (store w')).
Proof.
  intros Hd Hw. unfold record_command, mbind, acting_bind, calm in Hw.
  match type of Hw with context [match ?m with Ok _ => _ | Err _ => _ end] => destruct m end;
    [|injection Hw as _ <-; by split_and!; try left].
  unfold committed in Hw. destruct (transaction _ _) as [r d'] eqn:Ht. destruct r as [became|e]; cbn in Hw; injection Hw as _ <-.
  - apply transaction_Ok in Ht. pose proof (publication_effect _ _ _ _ _ _ Ht Hd) as Hd'.
    pose proof (publication_confined _ _ _ _ _ _ Ht) as Hc. apply publication_Ok in Ht as (Htr&Hrow&Hr); [|done].
    split_and!; [done..|]. right. by exists became.
  - apply transaction_Err in Ht as [_ ->]. by split_and!; try left.
Qed.

(** The command is the one a row of the store holds. *)
Definition held (d : db) (c : StagedCommand) : Prop :=
  ∃ r, entry d (StoreOutbox.command_id c) = Some r ∧ command_of r = c.

Lemma held_published w w' c : consistent (store w) → published w w' → held (store w) c → held (store w') c.
Proof.
  intros Hd Hp (r&Hr&Hc). destruct (Hp Hd) as (_&_&_&Hrows). specialize (Hrows (StoreOutbox.command_id c)).
  rewrite Hr in Hrows. destruct Hrows as (r'&Hr'&[->|Hm]); [by exists r|].
  exists r'. split; [done|]. apply recorded_command in Hm. congruence.
Qed.

(** Handing over what a held command stands for. *)
Lemma handed_over d w ps r id text :
  entry d id = Some r → command_destination limit (command_of r) = Ok text →
  published {| store := d; said := w |} {| store := d; said := (w ++ [command_publication r text] ++ ps)%list |} ∨ ps ≠ [].
Proof.
  intros Hr Ht. destruct ps; [left|by right]. intros Hd. split; [done|]. split; [done|]. split.
  - eexists. split; [done|]. apply Forall_singleton. by exists id, r, text.
  - intros id'. destruct (entry _ id') as [x|]; eauto.
Qed.

Lemma publish_one_published p at_ w o w' :
  held (store w) (command p) → publish_one limit p at_ w = (o, w') → published w w'.
Proof.
  intros (r&Hr&Hc) Hw Hd. revert Hd. unfold publish_one, mbind at 1, acting_bind, calm at 1, raise_if in Hw.
  destruct (negb _) eqn:Hst; [injection Hw as _ <-; by apply published_refl|].
  apply negb_false_iff, bool_decide_eq_true in Hst. unfold mbind at 1, acting_bind, calm at 1 in Hw.
  destruct (command_destination limit (command p)) as [text|e] eqn:Ht; [|injection Hw as _ <-; by apply published_refl].
  rewrite <- Hc in Ht. intros Hd. set (x := command_publication r text).
  assert (Hx : {| port := GUARANTEED_PORT; destination := text; body := StoreOutbox.payload (command p); carried := [] |} = x)
    by (unfold x, command_publication; by rewrite Hc).
  rewrite Hx in Hw. set (w1 := {| store := store w; said := (said w ++ [x])%list |}).
  assert (H1 : published w w1).
  { destruct (handed_over (store w) (said w) [] r _ text Hr Ht) as [H|]; [|done]. by destruct w. }
  unfold mbind at 1, acting_bind, broker_outcome, hand_over in Hw. fold w1 in Hw.
  assert (Hrec : ∀ event at' o' w2, answered (said w) x = meant event →
    record_command (StoreOutbox.command_id (command p)) STAGED event at' w1 = (o', w2) → published w w2).
  { intros event at' o' w2 Ha Hrun Hd'. apply record_command_run in Hrun as (Hs&Hd2&Hc2&Hrun); [|done].
    destruct (H1 Hd') as (_&_&Hps&Hrows). split; [done|]. split; [exact Hc2|]. split; [by rewrite Hs|].
    intros id. change (store w1) with (store w) in Hrun.
    destruct Hrun as [->|(became&Htr&(r1&Hr1&Hst1)&Hrep)]; [destruct (entry (store w) id); eauto|].
    rewrite Hr in Hr1. injection Hr1 as <-. rewrite (moved_entry _ _ _ _ _ Hrep).
    destruct (entry (store w) id) as [y|] eqn:Hy; [|done]. cbn [fmap option_fmap option_map].
    eexists. split; [done|]. destruct (decide (id = _)) as [->|Hn]; [|by left]. right.
    rewrite Hr in Hy. injection Hy as <-. split; [done|]. exists text, event, became. split; [done|]. split; [|done].
    exists [], []. rewrite Hs. by rewrite app_nil_r. }
  revert Hw. destruct (answered (said w) x) as [refusal|] eqn:Ha.
  - destruct refusal; try (intros [= _ <-]; exact (H1 Hd)). rewrite Hst.
    intros Hw. unfold mbind, acting_bind in Hw. destruct (record_command _ _ _ _ w1) as [o' w2] eqn:Hrun.
    apply (Hrec AMBIGUOUS) in Hrun; [|done]. by destruct o'; injection Hw as _ <-; apply Hrun.
  - rewrite Hst. intros Hw. unfold mbind, acting_bind in Hw. destruct (record_command _ _ _ _ w1) as [o' w2] eqn:Hrun.
    apply (Hrec CONFIRM) in Hrun; [|done]. by destruct o'; injection Hw as _ <-; apply Hrun.
Qed.
Lemma publish_one_said p at_ w o w' :
  publish_one limit p at_ w = (o, w') → (length (said w') ≤ S (length (said w)))%nat.
Proof.
  intros Hw. unfold publish_one, mbind at 1, acting_bind, calm at 1 in Hw.
  destruct (raise_if _ _); [|injection Hw as _ <-; lia]. unfold mbind at 1, acting_bind, calm at 1 in Hw.
  destruct (command_destination limit (command p)); [|injection Hw as _ <-; lia].
  unfold mbind at 1, acting_bind, broker_outcome, hand_over in Hw.
  assert (Hrec : ∀ id was event at' v r v', record_command id was event at' v = (r, v') → said v' = said v).
  { intros id was event at' v r v' Hr. unfold record_command, mbind at 1, acting_bind, calm in Hr.
    match type of Hr with context [match ?m with Ok _ => _ | Err _ => _ end] => destruct m end;
      [|by injection Hr as _ <-].
    unfold mbind, acting_bind, committed in Hr. destruct (transaction _ _) as [[] ?]; by injection Hr as _ <-. }
  set (w1 := {| store := store w; said := _ |}) in Hw.
  assert (Hl : length (said w1) = S (length (said w))) by (cbn; rewrite length_app; cbn; lia).
  destruct (answered _ _) as [[]|]; try (injection Hw as _ <-; lia);
    unfold mbind, acting_bind in Hw; destruct (record_command _ _ _ _ w1) as [[] w2] eqn:Hrun;
    apply Hrec in Hrun; injection Hw as _ <-; rewrite Hrun; lia.
Qed.

Lemma each_published l at_ : ∀ report w o w',
  consistent (store w) → Forall (λ p, held (store w) (command p)) l →
  each (λ p, publish_one limit p at_) l report w = (o, w') →
  published w w' ∧ (length (said w') ≤ length (said w) + length l)%nat.
Proof.
  induction l as [|p l IH]; intros report w o w' Hd Hl Hw; cbn [each] in Hw.
  - injection Hw as _ <-. split; [by apply published_refl|lia].
  - apply Forall_cons in Hl as [Hp Hl]. unfold mbind, acting_bind in Hw.
    destruct (publish_one limit p at_ w) as [o1 w1] eqn:H1. pose proof (publish_one_said _ _ _ _ _ H1) as Hs.
    apply publish_one_published in H1; [|done]. destruct (H1 Hd) as [Hd1 _].
    destruct o1 as [o1|e]; [|injection Hw as _ <-; split; [done|cbn; lia]].
    apply IH in Hw as [Hw Hlen]; [|done|].
    + split; [by eapply published_trans|cbn; lia].
    + eapply Forall_impl; [exact Hl|]. intros q. by apply held_published.
Qed.

(** The publications of these rows, each once and in their order. *)
Definition publications_of : list row → list Publication → Prop :=
  Forall2 (λ r x, ∃ text, command_destination limit (command_of r) = Ok text ∧ x = command_publication r text).

Lemma record_command_said id was event at_ w o w' : record_command id was event at_ w = (o, w') → said w' = said w.
Proof.
  unfold record_command, mbind at 1, acting_bind, calm.
  match goal with |- context [match ?m with Ok _ => _ | Err _ => _ end] => destruct m end; [|by intros [= _ <-]].
  unfold mbind, acting_bind, committed. destruct (transaction _ _) as [[] ?]; by intros [= _ <-].
Qed.

(** One staged row: its own publication and no other, or none because it raised before. *)
Lemma publish_one_spoke r at_ w o w' :
  publish_one limit (record_of STAGED r) at_ w = (o, w') →
  (w' = w ∧ is_ok o = false) ∨ ∃ text, command_destination limit (command_of r) = Ok text ∧
    said w' = (said w ++ [command_publication r text])%list.
Proof.
  unfold publish_one. cbn [record_of command StoreOutbox.state]. unfold raise_if. rewrite bool_decide_true by done.
  cbn [negb]. unfold mbind at 1 2, acting_bind, calm.
  destruct (command_destination limit (command_of r)) as [text|e]; [|intros [= <- <-]; by left].
  unfold mbind at 1, acting_bind, broker_outcome, hand_over. fold (command_publication r text).
  set (w1 := {| store := store w; said := _ |}). intros Hw. right. exists text. split; [done|].
  change (said w' = said w1).
  destruct (answered _ _) as [[]|]; try (by injection Hw as _ <-); unfold mbind, acting_bind in Hw;
    destruct (record_command _ _ _ _ w1) as [[] w2] eqn:Hrun; apply record_command_said in Hrun; by injection Hw as _ <-.
Qed.

(** A batch goes through its rows in their order, and ends early only by raising. *)
Lemma each_spoke l at_ : ∀ report w o w',
  each (λ p, publish_one limit p at_) (record_of STAGED <$> l) report w = (o, w') →
  ∃ k ps, said w' = (said w ++ ps)%list ∧ publications_of (take k l) ps ∧ (is_ok o = true → k = length l).
Proof.
  induction l as [|r l IH]; intros report w o w'; cbn [fmap list_fmap each].
  - intros [= _ <-]. exists 0%nat, []. rewrite app_nil_r. by split; [|split; [apply Forall2_nil_2|]].
  - unfold mbind, acting_bind. destruct (publish_one _ _ _ w) as [o1 w1] eqn:H1.
    apply publish_one_spoke in H1 as [[-> Herr]|(text&Ht&Hs)].
    + destruct o1; [done|]. intros [= <- <-]. exists 0%nat, []. rewrite app_nil_r.
      by split; [|split; [apply Forall2_nil_2|]].
    + destruct o1 as [o1|e].
      * intros (k&ps&Hps&Hp&Hk)%IH. exists (S k), (command_publication r text :: ps). rewrite Hps, Hs, <- app_assoc.
        split; [done|]. split; [apply Forall2_cons; eauto|]. intros Ho. cbn. by rewrite Hk.
      * intros [= <- <-]. exists 1%nat, [command_publication r text]. split; [done|].
        split; [apply Forall2_cons; split; [eauto|apply Forall2_nil_2]|done].
Qed.

(** A row is the entry of the identity it holds. *)
Lemma row_held d r : consistent d → r ∈ rows d COMMAND_OUTBOX → entry d (StoreOutbox.command_id (command_of r)) = Some r.
Proof.
  intros Hd Hr. destruct (id_names_any (StoreOutbox.command_id (command_of r))) as [k Hk].
  apply (found_elem COMMAND_OUTBOX d id_columns _ k); [done|left|done|done|].
  destruct (Hd COMMAND_OUTBOX) as [Ha _]. rewrite Forall_forall in Ha. specialize (Ha r Hr).
  destruct (admitted_text _ r "command_id" 64 Ha) as [s Hs]; [by_decide|].
  cbn [selects id_conds forallb holds command_of StoreOutbox.command_id]. rewrite Hs, andb_true_r. cbn [StoreOutbox.text].
  apply sql_eq_true. done.
Qed.

Lemma read_batch w at_ :
  consistent (store w) →
  (∃ e, publish_batch limit at_ w = (Err e, w)) ∨
  ∃ d, d ≡ store w ∧ publish_batch limit at_ w =
    each (λ p, publish_one limit p at_) (record_of STAGED <$> oldest (store w) STAGED COMMAND_PUBLICATION_BATCH_SIZE)
      nothing_yet {| store := d; said := said w |}.
Proof.
  intros Hd. unfold publish_batch, mbind, acting_bind, committed, calm.
  destruct (transaction _ _) as [r d] eqn:Ht. destruct r as [l|e]; cbn [map_err].
  - apply transaction_Ok, pending_Ok in Ht as [Hs ->]; [|done]. right. exists d. split; [done|]. unfold raise_if.
    rewrite (proj2 (Z.ltb_ge _ _)); [done|]. rewrite length_fmap.
    pose proof (oldest_length (store w) STAGED COMMAND_PUBLICATION_BATCH_SIZE).
    unfold COMMAND_PUBLICATION_BATCH_SIZE, StoreOutbox.COMMAND_PUBLICATION_BATCH_SIZE in *. lia.
  - apply transaction_Err in Ht as [_ ->]. left. destruct w. by eexists.
Qed.

(** What a batch says: the oldest staged rows, in that order, up to the one it raised on. *)
Lemma batch_spoke at_ w o w' :
  consistent (store w) → publish_batch limit at_ w = (o, w') →
  ∃ k ps, said w' = (said w ++ ps)%list ∧
    publications_of (take k (oldest (store w) STAGED COMMAND_PUBLICATION_BATCH_SIZE)) ps ∧
    (is_ok o = true → k = length (oldest (store w) STAGED COMMAND_PUBLICATION_BATCH_SIZE)).
Proof.
  intros Hd Hb. destruct (read_batch w at_ Hd) as [[e He]|(d&Hs&Hrun)].
  - rewrite He in Hb. injection Hb as <- <-. exists 0%nat, []. rewrite app_nil_r.
    by split; [|split; [apply Forall2_nil_2|]].
  - rewrite Hrun in Hb. by apply each_spoke in Hb.
Qed.

Lemma batch_published at_ w o w' :
  consistent (store w) → publish_batch limit at_ w = (o, w') →
  published w w' ∧ (length (said w') ≤ length (said w) + 50)%nat.
Proof.
  intros Hd Hb.
  destruct (read_batch w at_ Hd) as [[e He]|(d&Hs&Hrun)].
  - rewrite He in Hb. injection Hb as _ <-. split; [by apply published_refl|lia].
  - rewrite Hrun in Hb. set (w1 := {| store := d; said := said w |}) in *.
    assert (H1 : published w w1) by by apply published_refl. destruct (H1 Hd) as [Hd1 _].
    apply each_published in Hb as [Hb Hlen]; [|done|].
    + split; [by eapply published_trans|]. rewrite length_fmap in Hlen. cbn [said w1] in Hlen.
      pose proof (oldest_length (store w) STAGED COMMAND_PUBLICATION_BATCH_SIZE) as Ho.
      change (Z.to_nat _) with 50%nat in Ho. unfold w1 in Hlen. cbn in Hlen. lia.
    + apply Forall_fmap, Forall_forall. intros r Hr. apply oldest_row in Hr as [Hr _].
      apply (held_published w); [done..|]. exists r. split; [by apply row_held|done].
Qed.

(** C31: a publication batch says the oldest staged commands, in order, and a command's durable
    state follows what the broker answered about that very command.  The batch is the at most fifty
    staged rows that are oldest by staging instant and identity, no identity twice; what the session
    is handed is exactly the publications of those rows, each once and in that order (the stored
    bytes, on the topic the row's own envelope binds it to), all of them when the batch returns and
    a prefix of them when it raises; so no row in another state is ever handed over.  No row
    appears, disappears or changes in any other column; a staged row becomes confirmed only when
    the broker confirmed its publication in this batch, and awaits reconciliation only when that
    answer was ambiguous; a definite refusal and a failed record leave it staged; and no other
    table changes. *)
Theorem publication_follows_broker (at_ : string) (w w' : world)
    (o : result publication_failure PublicationReport)
    (Hd : consistent (store w)) (Hb : publish_batch limit at_ w = (o, w')) :
  let batch := oldest (store w) STAGED COMMAND_PUBLICATION_BATCH_SIZE in
  consistent (store w') ∧ confined [COMMAND_OUTBOX] (store w) (store w') ∧
  (length batch ≤ 50)%nat ∧ NoDup (id_of <$> batch) ∧
  (∃ k ps, said w' = (said w ++ ps)%list ∧ publications_of (take k batch) ps ∧ (is_ok o = true → k = length batch)) ∧
  ∀ id, match entry (store w) id with
        | None => entry (store w') id = None
        | Some r => ∃ r', entry (store w') id = Some r' ∧ (r' = r ∨ recorded w w' r r')
        end.
Proof.
  destruct (batch_published at_ w o w' Hd Hb) as [Hp _]. destruct (Hp Hd) as (Hd'&Hc&_&Hrows).
  split; [done|]. split; [done|]. split; [apply (oldest_length _ _ COMMAND_PUBLICATION_BATCH_SIZE)|].
  split; [by apply oldest_distinct|]. split; [by apply (batch_spoke at_)|done].
Qed.
End published.

(** ** The command an authorized escalation staged *)

#[local] Existing Instance ascii_normalization.
#[local] Existing Instance memory.
#[local] Existing Instance strict_models.
#[local] Existing Instance settling_port.
#[local] Existing Instance confirming.

Definition granted_store : db := Eval vm_compute in Delivery.store first_run.
Definition granted_world : world := {| store := granted_store; said := [] |}.
Abbreviation granted_batch := (publish_batch DIGITS "2026-07-28T09:00:31.000Z" granted_world).
Definition published_store : db := Eval vm_compute in store granted_batch.2.
Definition published_wire : wire := Eval vm_compute in said granted_batch.2.
Definition published_world : world := {| store := published_store; said := published_wire |}.
Definition published_report : result publication_failure PublicationReport := Eval vm_compute in granted_batch.1.

Lemma granted_consistent : consistent (store granted_world).
Proof.
  assert (Hs : granted_store = Delivery.store first_run) by (vm_compute; reflexivity).
  unfold granted_world. cbn [store]. rewrite Hs.
  exact (proj1 (handle_durable DIGITS (λ p, operator_command_handler DIGITS p.1 p.2) duplicate_of
    (stamp 1, half_minute) first_escalation observed_at ready ready_consistent)).
Qed.

(** A run, by its parts. *)
Lemma run_parts {E A} (p : result E A * world) o w :
  p.1 = o → store p.2 = store w → said p.2 = said w → p = (o, w).
Proof. destruct p as [? []], w. cbn. by intros -> -> ->. Qed.

Lemma publication_follows_broker_witness :
  (∃ r, published_report = Ok r ∧ confirmed r = 1%nat) ∧ length (said published_world) = 1%nat ∧
  ∃ r r', entry (store granted_world) "command-1" = Some r ∧ entry (store published_world) "command-1" = Some r' ∧
    (r' = r ∨ recorded DIGITS granted_world published_world r r').
Proof.
  assert (Hb : granted_batch = (published_report, published_world))
    by (apply run_parts; vm_compute; reflexivity).
  destruct (publication_follows_broker DIGITS "2026-07-28T09:00:31.000Z" granted_world published_world
    published_report granted_consistent Hb) as (_&_&_&_&_&Hrows).
  split; [eexists; split; reflexivity|]. split; [reflexivity|]. specialize (Hrows "command-1").
  assert (Hr : is_Some (entry (store granted_world) "command-1")) by (apply (bool_decide_unpack _); vm_compute; exact I).
  destruct Hr as [r Hr]. rewrite Hr in Hrows. destruct Hrows as (r'&Hr'&Hm).
  exists r, r'. exact (conj Hr (conj Hr' Hm)).
Defined.

(** ** The application outbox worker

    What [publish_application_batch] of [Publication.v] leaves on the wire and in the store: each
    publication is an outbox row of the gateway on a topic of the row's own family, and only the
    state of outbox rows changes. *)

Section announced.
Context `{N : Normalization} `{D : Database} `{B : Broker} (limit : nat) (p : PublicationPorts) (r : DeliveryRouter).
Context (Hr : delivery_router COMMAND_GATEWAY p = Ok r).

(** A row of the outbox, of the family of the topic it was handed over on. *)
Definition announces (d : db) (x : Publication) : Prop :=
  ∃ t row, parse_topic (PyStr (destination x)) = Ok t ∧ row ∈ rows d APPLICATION_OUTBOX ∧
    cell row "family" = SText (outbox_family (Topics.family t)) ∧
    cell row "topic" = SText (destination x) ∧ cell row "payload" = SBytes (body x).

(** A row that was there before, but for its state and confirmation. *)
Definition same_event (row row' : row) : Prop := ∀ c, c ∉ ["state"; "confirmed_at"] → cell row' c = cell row c.

Definition from_events (d d' : db) : Prop :=
  ∀ row', row' ∈ rows d' APPLICATION_OUTBOX → ∃ row, row ∈ rows d APPLICATION_OUTBOX ∧ same_event row row'.

Definition announced (w w' : world) : Prop :=
  consistent (store w) →
  consistent (store w') ∧ confined [APPLICATION_OUTBOX] (store w) (store w') ∧ from_events (store w) (store w') ∧
  ∃ ps, said w' = (said w ++ ps)%list ∧ Forall (announces (store w)) ps.

Lemma same_event_trans x y z : same_event x y → same_event y z → same_event x z.
Proof. intros H1 H2 c Hc. by rewrite H2, H1. Qed.

Lemma announces_before d d' x : from_events d d' → announces d' x → announces d x.
Proof.
  intros Hf (t&row'&Ht&Hin&Hfam&Htop&Hpay). apply Hf in Hin as (row&Hin&Hs). exists t, row.
  rewrite <- !Hs by by_decide. done.
Qed.

Lemma announced_same w w' : said w' = said w → store w' ≡ store w → announced w w'.
Proof.
  intros Hs Hd Hc. rewrite Hs. split_and!.
  - intros t. rewrite (Hd t). apply Hc.
  - intros t _. apply Hd.
  - intros row. rewrite (Hd APPLICATION_OUTBOX). intros Hin. by exists row.
  - exists []. by rewrite app_nil_r.
Qed.

Lemma announced_trans w1 w2 w3 : announced w1 w2 → announced w2 w3 → announced w1 w3.
Proof.
  intros H12 H23 Hc. destruct (H12 Hc) as (Hc2&Hf2&He2&ps&Hs2&Hp2). destruct (H23 Hc2) as (Hc3&Hf3&He3&qs&Hs3&Hp3).
  split_and!; [done| | |].
  - intros t Ht. by rewrite Hf3, Hf2.
  - intros row (x&Hx&Hxs)%He3. apply He2 in Hx as (y&Hy&Hys). exists y. split; [done|]. by eapply same_event_trans.
  - exists (ps ++ qs)%list. rewrite Hs3, Hs2, app_assoc. split; [done|]. apply Forall_app. split; [done|].
    eapply Forall_impl; [exact Hp3|]. intros x. by apply announces_before.
Qed.

(** A transaction that moves one row. *)
Lemma record_event_announced e event at_ w o w' : record_event e event at_ w = (o, w') → announced w w'.
Proof.
  unfold record_event, mbind, acting_bind, committed. destruct (transaction _ _) as [b d'] eqn:Ht.
  intros Hw Hc. assert (w' = {| store := d'; said := said w |}) as -> by (destruct b; by injection Hw as _ <-).
  destruct b as [b|x]; [|apply transaction_Err in Ht as [_ ->]; by apply announced_same].
  apply transaction_Ok in Ht. pose proof (event_publication_effect _ _ _ _ _ _ _ Ht Hc) as Hd'.
  pose proof (event_publication_rows _ _ _ _ _ _ _ Ht) as Hrows.
  split_and!; [done| | |exists []; by rewrite app_nil_r].
  - eapply event_publication_confined; exact Ht.
  - intros row Hin. cbn in Hin. rewrite (Hrows APPLICATION_OUTBOX) in Hin. rewrite decide_True in Hin by done.
    apply list_elem_of_fmap in Hin as (x&->&Hx). exists x. split; [done|]. intros c Hcol.
    destruct (selects _ x); [|done]. by apply cell_assign_frame.
Qed.

(** The event is the one a row of the store holds. *)
Definition holds_event (d : db) (e : StagedApplicationEvent) : Prop :=
  ∃ row, row ∈ rows d APPLICATION_OUTBOX ∧ cell row "family" = SText (StoreEvents.family e) ∧
    cell row "topic" = SText (StoreEvents.topic e) ∧ cell row "payload" = SBytes (StoreEvents.payload e).

(** Rows stay, whatever happens to their state. *)
Lemma confined_keeps w w' o e event at_ x :
  record_event e event at_ w = (o, w') → holds_event (store w) x → holds_event (store w') x.
Proof.
  unfold record_event, mbind, acting_bind, committed. destruct (transaction _ _) as [b d'] eqn:Ht.
  intros Hw (row&Hin&Hf&Hto&Hp). assert (w' = {| store := d'; said := said w |}) as -> by (destruct b; by injection Hw as _ <-).
  destruct b as [b|y].
  - apply transaction_Ok, event_publication_rows in Ht. set (moved := if selects
      (identity_conds (of_producer (identity_of e)) (of_event (identity_of e)) ++ [Equals "state" (SText (state_value STAGED))])%list
      row then assign (moved_values b at_) row else row).
    assert (Hs : same_event row moved) by (intros c Hc; unfold moved; destruct (selects _ _); [by apply cell_assign_frame|done]).
    exists moved. rewrite !Hs by by_decide. split; [|done]. cbn. rewrite (Ht APPLICATION_OUTBOX), decide_True by done.
    apply list_elem_of_fmap. by exists row.
  - apply transaction_Err in Ht as [_ ->]. by exists row.
Qed.

Lemma properties_bound e d : application_properties limit e = Ok d →
  ∃ t, parse_topic (PyStr (StoreEvents.topic e)) = Ok t ∧ StoreEvents.family e = outbox_family (Topics.family t).
Proof.
  intros (t&Ht%map_err_Ok&Hd)%bind_Ok. exists t. split; [done|]. apply bind_Ok in Hd as (?&Hd&_).
  apply raise_if_Ok in Hd. apply orb_false_iff in Hd as [_ Hd]. by apply negb_false_iff, bool_decide_eq_true in Hd.
Qed.

Lemma publish_event_announced now e w o w' :
  holds_event (store w) e → publish_event limit r now e w = (o, w') →
  announced w w' ∧ ∀ x, holds_event (store w) x → holds_event (store w') x.
Proof.
  intros He Hw. unfold publish_event, mbind, acting_bind, calm in Hw.
  destruct (application_properties limit e) as [d|x] eqn:Hd; [|injection Hw as _ <-; split; [by apply announced_same|done]].
  apply properties_bound in Hd as (t&Ht&Hf). unfold broker_outcome in Hw.
  destruct (publish limit r _ _ d (said w)) as [ro log] eqn:Hpub. set (w1 := {| store := store w; said := log |}) in *.
  assert (H1 : announced w w1).
  { apply (publish_wire limit p r Hr) in Hpub as [(t'&Ht'&->)|(->&_)]; [|by apply announced_same].
    intros Hc. split_and!; [done|done|intros row Hrow; by exists row|]. eexists. split; [done|].
    apply Forall_singleton. destruct He as (row&Hrow&H2&H3&H4). rewrite Hf in H2.
    exists t, row. exact (conj Ht (conj Hrow (conj H2 (conj H3 H4)))). }
  assert (Hrec : ∀ event at_ o' w2, record_event e event at_ w1 = (o', w2) →
    announced w w2 ∧ ∀ x, holds_event (store w) x → holds_event (store w2) x).
  { intros event at_ o' w2 Hrun. split; [eapply announced_trans; [exact H1|by eapply record_event_announced]|].
    intros x. by eapply (confined_keeps w1). }
  assert (Hend : announced w w1 ∧ ∀ x, holds_event (store w) x → holds_event (store w1) x) by done.
  destruct ro as [[]|[|[]|]]; try (injection Hw as _ <-; exact Hend);
    destruct (record_event e _ _ w1) as [[] w2] eqn:Hrun; injection Hw as _ <-; by eapply Hrec.
Qed.

Lemma each_announced now l : ∀ report w o w',
  Forall (holds_event (store w)) l → each (publish_event limit r now) l report w = (o, w') → announced w w'.
Proof.
  induction l as [|e l IH]; intros report w o w' Hl Hw; cbn [each] in Hw; [injection Hw as _ <-; by apply announced_same|].
  apply Forall_cons in Hl as [He Hl]. unfold mbind at 1, acting_bind in Hw.
  destruct (publish_event limit r now e w) as [[o1|x] w1] eqn:H1; apply publish_event_announced in H1 as [H1 Hk]; [|done| |done].
  - eapply announced_trans; [exact H1|]. eapply IH; [|exact Hw]. eapply Forall_impl; [exact Hl|]. exact Hk.
  - by injection Hw as _ <-.
Qed.

Lemma stored_cells row e : StoreEvents.stored STAGED (project (columns APPLICATION_OUTBOX) row) = Ok e →
  cell row "family" = SText (StoreEvents.family e) ∧ cell row "topic" = SText (StoreEvents.topic e) ∧
  cell row "payload" = SBytes (StoreEvents.payload e).
Proof.
  intros He. cbn in He. unfold StoreEvents.stored in He.
  repeat match type of He with context [match ?x with _ => _ end] => destruct x eqn:?; try discriminate He end.
  all: by injection He as <-.
Qed.

(** What a read of the outbox gives is held by its rows. *)
Lemma events_held q d l d' : StoreEvents.pending q d = Ok (l, d') → d' ≡ d ∧ Forall (holds_event d) l.
Proof.
  intros Hp. unfold StoreEvents.pending in Hp. run_tx. subst.
  match goal with H : fetch_all _ _ = _ |- _ => apply fetch_Select_Ok in H as [Heq ->] end.
  split; [done|]. match goal with H : map_ok _ _ = _ |- _ => apply map_ok_Forall2 in H as Hall end.
  apply Forall_forall. intros e He. apply list_elem_of_lookup in He as [i He].
  destruct (Forall2_lookup_r _ _ _ _ _ Hall He) as (vs&Hvs%list_elem_of_lookup_2&Hst).
  apply list_elem_of_fmap in Hvs as (row&->&Hrow). apply elem_of_take in Hrow as (k&Hrow&_).
  apply list_elem_of_lookup_2 in Hrow. rewrite merge_sort_Permutation in Hrow.
  apply list_elem_of_filter in Hrow as [_ Hrow]. exists row. split; [done|]. by apply stored_cells in Hst.
Qed.

Lemma batch_announced now w o w' : publish_application_batch limit r now w = (o, w') → announced w w'.
Proof.
  intros Hw. unfold publish_application_batch, mbind at 1, acting_bind, calm at 1 in Hw.
  destruct (map_err _ _); [|injection Hw as _ <-; by apply announced_same].
  unfold mbind at 1, acting_bind, committed in Hw. destruct (transaction _ _) as [[l|e] d] eqn:Ht; cbn [map_err] in Hw.
  - apply transaction_Ok, events_held in Ht as [Hd Hl]. set (w1 := {| store := d; said := said w |}) in *.
    assert (H1 : announced w w1) by by apply announced_same.
    unfold mbind at 1, acting_bind, calm at 1 in Hw. destruct (raise_if _ _); [|by injection Hw as _ <-].
    unfold mbind, acting_bind in Hw. destruct (each _ l _ w1) as [o2 w2] eqn:He.
    apply each_announced in He; [|eapply Forall_impl; [exact Hl|]; intros e (row&Hin&?); exists row;
      split; [cbn; by rewrite (Hd APPLICATION_OUTBOX)|done]].
    assert (w' = w2) as -> by (destruct o2; by injection Hw as _ <-). by eapply announced_trans.
  - injection Hw as _ <-. apply transaction_Err in Ht as [_ ->]. by apply announced_same.
Qed.
End announced.
