(* ===== verification/Drained.v ===== *)
(** * A confirming broker drains the command outbox

    The publication worker is run again and again over what is staged.  Each batch takes the
    oldest fifty commands, so with a broker that confirms and a server that answers, the bound on
    the outbox is also a bound on the batches that empty it. *)

From stdpp Require Import sorting.
From S2P Require Import Prelude PyStr PyVal Canonical Instant Topics Envelope Lifecycle.
From S2P Require Import Outbox Sql Schema StoreOutbox Ingress GatewaySample Routing Publication Published.
Local Open Scope string_scope.
Local Open Scope Z_scope.

(** Oldest first: by staging instant, then identity. *)
Abbreviation staging_order := (row_le text_le ["staged_at"; "command_id"]).

(** ** Rows *)

Section rows.
Context `{D : Database}.

Definition is_staged (r : row) : Prop := cell r "state" = SText (state_value STAGED).
#[local] Instance is_staged_dec r : Decision (is_staged r).
Proof. unfold is_staged. apply _. Defined.

Definition staged_rows (d : db) : list row := filter is_staged (rows d COMMAND_OUTBOX).

(** One row of an identity, so a move changes one place of the table. *)
Lemma move_one d id r became d' :
  consistent d → entry d id = Some r →
  replaces d COMMAND_OUTBOX (update_rows (id_conds id) [("state", SText (state_value became))] (rows d COMMAND_OUTBOX)) d' →
  ∃ l1 l2, rows d COMMAND_OUTBOX = (l1 ++ r :: l2)%list ∧ rows d' COMMAND_OUTBOX = (l1 ++ moved_to became r :: l2)%list.
Proof.
  intros Hd Hr Hrep. rewrite (replaces_target _ _ _ _ Hrep). destruct (id_names_any id) as [k Hk].
  destruct (found_key COMMAND_OUTBOX d id_columns (id_conds id) k Hd) as [_ Hw]; [left|done|].
  unfold entry in Hr. rewrite Hr in Hw. apply found_Some in Hr as [Hin Hsel].
  apply list_elem_of_split in Hin as (l1&l2&Hl). exists l1, l2. split; [done|]. rewrite Hl in Hw |- *.
  rewrite where_rows_app, where_rows_cons, Hsel in Hw.
  assert (H0 : length (where_rows (id_conds id) l1) = 0%nat ∧ length (where_rows (id_conds id) l2) = 0%nat).
  { apply (f_equal length) in Hw. rewrite length_app in Hw. cbn in Hw. lia. }
  destruct H0 as [H1%nil_length_inv H2%nil_length_inv]. unfold update_rows. rewrite fmap_app, fmap_cons, Hsel.
  change (fmap _ l1) with (update_rows (id_conds id) [("state", SText (state_value became))] l1).
  change (fmap _ l2) with (update_rows (id_conds id) [("state", SText (state_value became))] l2).
  by rewrite !update_rows_none.
Qed.

(** Confirming a staged row takes it, and no other, off the staged rows. *)
Lemma confirmed_one d id r d' :
  consistent d → entry d id = Some r → is_staged r →
  replaces d COMMAND_OUTBOX (update_rows (id_conds id) [("state", SText (state_value CONFIRMED))] (rows d COMMAND_OUTBOX)) d' →
  staged_rows d ≡ₚ r :: staged_rows d'.
Proof.
  intros Hd Hr Hs Hrep. destruct (move_one d id r CONFIRMED d' Hd Hr Hrep) as (l1&l2&Hl&Hl').
  unfold staged_rows. rewrite Hl, Hl', !filter_app, !filter_cons, decide_True by done.
  rewrite decide_False; [by rewrite Permutation_middle|]. unfold is_staged. by rewrite moved_state.
Qed.

(** The oldest of the staged rows come before all others. *)
Lemma oldest_first d limit rest :
  staged_rows d ≡ₚ oldest d STAGED limit ++ rest →
  StronglySorted staging_order (oldest d STAGED limit) ∧
  ∀ x y, x ∈ oldest d STAGED limit → y ∈ rest → staging_order x y.
Proof.
  set (l := merge_sort staging_order (staged_rows d)).
  change (oldest d STAGED limit) with (take (Z.to_nat limit) l). intros Hp.
  assert (Hl : StronglySorted staging_order l) by (apply StronglySorted_merge_sort; apply _).
  rewrite <- (take_drop (Z.to_nat limit) l) in Hl. apply StronglySorted_app in Hl as Hapart. destruct Hapart as (Hcross&Hhead&_). split; [exact Hhead|].
  intros x y Hx Hy. apply Hcross; [done|].
  assert (Hrest : drop (Z.to_nat limit) l ≡ₚ rest).
  { apply (Permutation_app_inv_l (take (Z.to_nat limit) l)). rewrite take_drop, <- Hp. apply merge_sort_Permutation. }
  by rewrite Hrest.
Qed.

End rows.

(** ** Batches *)

Section drained.
Context `{N : Normalization} `{D : Database} `{B : Broker} (limit : nat).

(** The staged bytes bind to the row's identity, so the worker can name their topic. *)
Definition publishable (r : row) : Prop := is_ok (command_destination limit (command_of r)) = true.

Context (Hserver : ∀ st d, permits st d = true) (Hbroker : ∀ w p, answered w p = None).

Lemma publish_one_confirms w at_ t r :
  consistent (store w) → parse_instant (PyStr at_) = Ok t →
  entry (store w) (id_of r) = Some r → is_staged r → publishable r →
  ∃ w', publish_one limit (record_of STAGED r) at_ w = (Ok (Some CONFIRM), w') ∧ consistent (store w') ∧
    replaces (store w) COMMAND_OUTBOX
      (update_rows (id_conds (id_of r)) [("state", SText (state_value CONFIRMED))] (rows (store w) COMMAND_OUTBOX))
      (store w') ∧
    ∃ text, command_destination limit (command_of r) = Ok text ∧ said w' = (said w ++ [command_publication r text])%list.
Proof.
  intros Hd Hat Hr Hs Hp. unfold publishable in Hp.
  destruct (command_destination limit (command_of r)) as [text|e] eqn:Ht; [|done].
  destruct (publication_runs (id_of r) STAGED CONFIRM CONFIRMED (store w) r Hd Hr Hs eq_refl (Hserver _ _)) as [d' Hrun].
  pose proof (publication_effect _ _ _ _ _ _ Hrun Hd) as Hd'. pose proof Hrun as Hrep.
  apply publication_Ok in Hrep as (_&_&Hrep); [|done].
  exists {| store := d'; said := (said w ++ [command_publication r text])%list |}.
  split; [|split; [exact Hd'|split; [exact Hrep|by exists text]]].
  unfold publish_one. cbn [record_of command StoreOutbox.state]. unfold raise_if. rewrite bool_decide_true by done. cbn [negb].
  unfold mbind, acting_bind, calm. rewrite Ht. unfold broker_outcome, hand_over. rewrite Hbroker.
  unfold record_command, mbind, acting_bind, calm. rewrite Hat. cbn [map_err mbind result_bind].
  unfold committed, transaction. cbn [store]. unfold id_of in Hrun. rewrite Hrun. reflexivity.
Qed.

(** The rows of a batch, still staged, are all confirmed, and nothing else moves. *)
Lemma each_confirms at_ t l : ∀ report w,
  parse_instant (PyStr at_) = Ok t → consistent (store w) → NoDup (id_of <$> l) →
  Forall (λ r, entry (store w) (id_of r) = Some r ∧ is_staged r ∧ publishable r) l →
  ∃ w', each (λ p, publish_one limit p at_) (record_of STAGED <$> l) report w =
      (Ok {| confirmed := confirmed report + length l; ambiguous := ambiguous report; refused := refused report |}, w') ∧
    consistent (store w') ∧ staged_rows (store w) ≡ₚ l ++ staged_rows (store w') ∧
    (∃ ps, said w' = (said w ++ ps)%list ∧ publications_of limit l ps) ∧
    ∀ id, entry (store w') id = (if decide (id ∈ id_of <$> l) then moved_to CONFIRMED else λ r, r) <$> entry (store w) id.
Proof.
  induction l as [|r l IH]; intros report w Hat Hd Hn Hl.
  - exists w. cbn. rewrite Nat.add_0_r. split; [by destruct report|]. split; [done|]. split; [done|].
    split; [exists []; rewrite app_nil_r; by split; [|apply Forall2_nil_2]|].
    intros id. by destruct (entry (store w) id).
  - rewrite fmap_cons in Hn. apply NoDup_cons in Hn as [Hr Hn]. apply Forall_cons in Hl as [(He&Hs&Hp) Hl].
    destruct (publish_one_confirms w at_ t r Hd Hat He Hs Hp) as (w1&H1&Hd1&Hrep&text&Ht&Hw1).
    pose proof (λ id, moved_entry _ _ _ _ id Hrep) as Hentry.
    pose proof (confirmed_one _ _ _ _ Hd He Hs Hrep) as Hcount.
    destruct (IH (and_one report (Some CONFIRM)) w1 Hat Hd1 Hn) as (w2&H2&Hd2&Hc2&(ps&Hps&Hpub)&He2).
    { eapply Forall_impl; [|intros x Hx; exact Hx]. apply Forall_forall. intros x Hx.
      rewrite Forall_forall in Hl. destruct (Hl x Hx) as (Hx1&Hx2&Hx3). rewrite Hentry, Hx1.
      rewrite decide_False; [done|]. intros Heq. apply Hr. rewrite <- Heq. by apply list_elem_of_fmap_2. }
    exists w2. cbn [fmap list_fmap each]. unfold mbind, acting_bind. rewrite H1. split.
    { rewrite H2. cbn. do 3 f_equal. lia. }
    split; [done|]. split; [by rewrite Hcount, Hc2|]. split.
    { exists (command_publication r text :: ps). rewrite Hps, Hw1, <- app_assoc. split; [done|].
      apply Forall2_cons. split; [by exists text|done]. }
    intros id. rewrite He2, Hentry.
    destruct (entry (store w) id) as [x|]; [|done]. cbn [fmap option_fmap option_map].
    destruct (decide (id = id_of r)) as [->|Hne].
    + rewrite (decide_False (P := id_of r ∈ _)) by done. by rewrite decide_True by left.
    + destruct (decide (id ∈ id_of <$> l)) as [Hin|Hin].
      * by rewrite decide_True by (right; done).
      * rewrite decide_False; [done|]. by rewrite elem_of_cons; intros [|].
Qed.
(** One batch confirms the oldest fifty, or all there are. *)
Lemma batch_confirms at_ t w :
  parse_instant (PyStr at_) = Ok t → consistent (store w) → Forall publishable (staged_rows (store w)) →
  ∃ report w', publish_batch limit at_ w = (Ok report, w') ∧ consistent (store w') ∧
    confirmed report = Nat.min 50 (length (staged_rows (store w))) ∧ ambiguous report = 0%nat ∧ refused report = 0%nat ∧
    staged_rows (store w) ≡ₚ oldest (store w) STAGED COMMAND_PUBLICATION_BATCH_SIZE ++ staged_rows (store w') ∧
    length (staged_rows (store w')) = (length (staged_rows (store w)) - 50)%nat ∧
    (∃ ps, said w' = (said w ++ ps)%list ∧
      publications_of limit (oldest (store w) STAGED COMMAND_PUBLICATION_BATCH_SIZE) ps) ∧
    Forall publishable (staged_rows (store w')) ∧
    ∀ id, match entry (store w) id with
          | None => entry (store w') id = None
          | Some r => entry (store w') id = Some r ∨ is_staged r ∧ entry (store w') id = Some (moved_to CONFIRMED r)
          end.
Proof.
  intros Hat Hd Hp. set (l := oldest (store w) STAGED COMMAND_PUBLICATION_BATCH_SIZE).
  destruct (pending_runs STAGED COMMAND_PUBLICATION_BATCH_SIZE (store w) Hd (Hserver _ _)) as (d&Hs&Hrun); [done..|].
  fold l in Hrun. assert (Hlen : length l = Nat.min 50 (length (staged_rows (store w)))).
  { unfold l, oldest. rewrite length_take. change (Z.to_nat _) with 50%nat.
    f_equal. unfold staged_rows. by rewrite merge_sort_Permutation. }
  set (w1 := {| store := d; said := said w |}).
  assert (Hd1 : consistent (store w1)) by (intros u; cbn; rewrite (Hs u); apply Hd).
  assert (Hin : ∀ r, r ∈ l → r ∈ rows (store w) COMMAND_OUTBOX ∧ is_staged r) by (intros r; apply oldest_row).
  assert (Hentry : ∀ id, entry (store w1) id = entry (store w) id) by (intros id; by apply found_proper).
  destruct (each_confirms at_ t l nothing_yet w1 Hat Hd1) as (w2&H2&Hd2&Hc2&Hsaid&He2).
  { by apply oldest_distinct. }
  { apply Forall_forall. intros r Hr. destruct (Hin r Hr) as [Hr1 Hr2]. rewrite Hentry. split; [by apply row_held|].
    split; [done|]. rewrite Forall_forall in Hp. apply Hp. by apply list_elem_of_filter. }
  assert (Hall : ∀ id, match entry (store w) id with
          | None => entry (store w2) id = None
          | Some r => entry (store w2) id = Some r ∨ is_staged r ∧ entry (store w2) id = Some (moved_to CONFIRMED r)
          end).
  { intros id. rewrite He2, Hentry. destruct (entry (store w) id) as [r|] eqn:Hr; [|done]. cbn.
    destruct (decide (id ∈ id_of <$> l)) as [Hid|_]; [|by left]. right.
    apply list_elem_of_fmap in Hid as (x&->&Hx). destruct (Hin x Hx) as [Hx1 Hx2].
    pose proof (row_held _ _ Hd Hx1) as Hx3. unfold id_of in Hr. rewrite Hx3 in Hr. by injection Hr as <-. }
  eexists _, w2. split.
  { unfold publish_batch, mbind, acting_bind, committed, transaction, calm. rewrite Hrun. cbn [map_err].
    unfold raise_if. rewrite length_fmap, Hlen, (proj2 (Z.ltb_ge _ _)) by (unfold COMMAND_PUBLICATION_BATCH_SIZE; lia).
    fold w1. exact H2. }
  cbn [confirmed ambiguous refused nothing_yet]. split; [done|]. split; [lia|]. split; [done|]. split; [done|].
  assert (Hst : staged_rows (store w1) = staged_rows (store w)).
  { unfold staged_rows. cbn [store w1]. by rewrite (Hs COMMAND_OUTBOX). }
  rewrite Hst in Hc2. split; [exact Hc2|].
  split; [apply Permutation_length in Hc2; rewrite length_app, Hlen in Hc2; lia|].
  split; [exact Hsaid|]. split; [|done].
  apply Forall_forall. intros r' Hr'. apply list_elem_of_filter in Hr' as [Hst' Hr'].
  pose proof (row_held _ _ Hd2 Hr') as Hr2. specialize (Hall (id_of r')). change (entry (store w2) (id_of r') = Some r') in Hr2. rewrite Hr2 in Hall.
  destruct (entry (store w) (id_of r')) as [r|] eqn:Hr; [|done]. destruct Hall as [[= <-]|[_ [= ->]]].
  - rewrite Forall_forall in Hp. apply Hp. apply list_elem_of_filter. split; [done|].
    unfold entry in Hr. by apply found_Some in Hr as [Hr _].
  - unfold is_staged in Hst'. by rewrite moved_state in Hst'.
Qed.

(** The worker's turns, at these instants. *)
Fixpoint batches (ats : list string) : acting world publication_failure unit :=
  match ats with
  | [] => mret tt
  | at_ :: ats => publish_batch limit at_ ;; batches ats
  end.

Lemma batches_drain ats : ∀ w,
  Forall (λ at_, is_ok (parse_instant (PyStr at_)) = true) ats → consistent (store w) →
  Forall publishable (staged_rows (store w)) → (length (staged_rows (store w)) ≤ 50 * length ats)%nat →
  ∃ w', batches ats w = (Ok tt, w') ∧ consistent (store w') ∧ staged_rows (store w') = [] ∧
    (∃ order ps, order ≡ₚ staged_rows (store w) ∧ StronglySorted staging_order order ∧
      publications_of limit order ps ∧ said w' = (said w ++ ps)%list) ∧
    ∀ id, match entry (store w) id with
          | None => entry (store w') id = None
          | Some r => entry (store w') id = Some r ∨ is_staged r ∧ entry (store w') id = Some (moved_to CONFIRMED r)
          end.
Proof.
  induction ats as [|at_ ats IH]; intros w Hats Hd Hp Hlen.
  - exists w. split; [done|]. split; [done|]. assert (Hnone : staged_rows (store w) = []) by (apply nil_length_inv; cbn in Hlen; lia).
    split; [done|]. split.
    { exists [], []. rewrite Hnone, app_nil_r. split; [done|]. split; [constructor|]. by split; [apply Forall2_nil_2|]. }
    intros id. destruct (entry (store w) id); [by left|done].
  - apply Forall_cons in Hats as [Hat Hats]. destruct (parse_instant (PyStr at_)) as [t|] eqn:Ht; [|done].
    destruct (batch_confirms at_ t w Ht Hd Hp) as (report&w1&H1&Hd1&_&_&_&Hperm&Hc1&(ps1&Hs1&Hq1)&Hp1&He1).
    destruct (IH w1 Hats Hd1 Hp1) as (w2&H2&Hd2&Hs2&(order&ps2&Ho2&Hsort2&Hq2&Hw2)&He2); [rewrite Hc1; cbn [length] in Hlen; lia|].
    exists w2. cbn [batches]. unfold mbind, acting_bind. rewrite H1. split; [done|]. split; [done|]. split; [done|].
    split.
    { destruct (oldest_first _ _ _ Hperm) as [Hsort1 Hfirst].
      exists (oldest (store w) STAGED COMMAND_PUBLICATION_BATCH_SIZE ++ order)%list, (ps1 ++ ps2)%list.
      split; [by rewrite Hperm, Ho2|]. split; [|split; [by apply Forall2_app|by rewrite Hw2, Hs1, app_assoc]].
      apply StronglySorted_app. split_and!; [|done..].
      intros x y Hx Hy. apply Hfirst; [done|]. by rewrite <- Ho2. }
    intros id. specialize (He1 id). specialize (He2 id). destruct (entry (store w) id) as [r|]; [|by rewrite He1 in He2].
    destruct He1 as [He1|[Hst He1]]; rewrite He1 in He2; [done|]. right. split; [done|].
    destruct He2 as [He2|[Hst2 _]]; [done|]. unfold is_staged in Hst2. by rewrite moved_state in Hst2.
Qed.

Lemma staged_unconfirmed d : Z.of_nat (length (staged_rows d)) ≤ unconfirmed d.
Proof.
  unfold unconfirmed, staged_rows. apply Nat2Z.inj_le. induction (rows d COMMAND_OUTBOX) as [|r l IH]; [done|].
  rewrite filter_cons, where_rows_cons. case_decide as Hs.
  - assert (Hsel : selects unconfirmed_conds r = true)
      by (cbn [selects unconfirmed_conds forallb holds]; rewrite Hs; by_decide || reflexivity).
    rewrite Hsel, !length_cons. lia.
  - destruct (selects _ _); [rewrite length_cons|]; lia.
Qed.

(** C32: what is staged is published, oldest first and once, given a broker that confirms every
    publication and a server that answers every statement.  Take a command outbox within its bound
    of five hundred, every staged row of which is publishable (its bytes bind to the row's own
    identity).  Ten turns of the worker, at whatever valid instants, all return and leave nothing
    staged.  What they hand the session is the publication of every staged row, each exactly once,
    in the order of staging instant and then identity, and nothing else; every row that was staged
    is confirmed, and every other row is as it was. *)
Theorem outbox_drains (ats : list string) (w : world)
    (Hten : length ats = 10%nat) (Hats : Forall (λ at_, is_ok (parse_instant (PyStr at_)) = true) ats)
    (Hd : consistent (store w)) (Hbound : unconfirmed (store w) ≤ MAXIMUM_UNCONFIRMED_RECORDS)
    (Hp : Forall publishable (staged_rows (store w))) :
  ∃ w', batches ats w = (Ok tt, w') ∧ staged_rows (store w') = [] ∧
    (∃ order ps, order ≡ₚ staged_rows (store w) ∧ StronglySorted staging_order order ∧
      publications_of limit order ps ∧ said w' = (said w ++ ps)%list) ∧
    ∀ id, entry (store w') id = (λ r, if decide (is_staged r) then moved_to CONFIRMED r else r) <$> entry (store w) id.
Proof.
  pose proof (staged_unconfirmed (store w)) as Hs. unfold MAXIMUM_UNCONFIRMED_RECORDS in Hbound.
  destruct (batches_drain ats w Hats Hd Hp) as (w'&Hrun&Hd'&Hnone&Hwire&He); [lia|]. exists w'. split; [done|]. split; [done|].
  split; [done|]. intros id. specialize (He id). destruct (entry (store w) id) as [r|] eqn:Hr; [|done].
  cbn [fmap option_fmap option_map]. case_decide as Hst.
  - destruct He as [He|[_ He]]; [|done]. exfalso. unfold entry in He. apply found_Some in He as [Hin _].
    assert (Hr' : r ∈ staged_rows (store w')) by by apply list_elem_of_filter. rewrite Hnone in Hr'. by apply elem_of_nil in Hr'.
  - by destruct He as [|[? _]].
Qed.
End drained.

(** ** The command an authorized escalation staged *)

#[local] Existing Instance ascii_normalization.
#[local] Existing Instance memory.
#[local] Existing Instance confirming.

Definition ten_turns : list string := repeat "2026-07-28T09:00:31.000Z" 10.

Lemma outbox_drains_witness :
  length (staged_rows granted_store) = 1%nat ∧
  ∃ w' ps, batches DIGITS ten_turns granted_world = (Ok tt, w') ∧ staged_rows (store w') = [] ∧
    said w' = (said granted_world ++ ps)%list ∧ length ps = 1%nat.
Proof.
  split; [vm_compute; reflexivity|].
  assert (Hats : Forall (λ at_, is_ok (parse_instant (PyStr at_)) = true) ten_turns)
    by (repeat (apply Forall_cons; split; [vm_compute; reflexivity|]); apply Forall_nil; exact I).
  assert (Hbound : unconfirmed (store granted_world) ≤ MAXIMUM_UNCONFIRMED_RECORDS)
    by (apply Z.leb_le; vm_compute; reflexivity).
  assert (Hp : Forall (publishable DIGITS) (staged_rows (store granted_world))).
  { apply Stdlib.Lists.List.Forall_forall. intros r Hr.
    assert (Hall : forallb (λ r, is_ok (command_destination DIGITS (command_of r))) (staged_rows (store granted_world)) = true)
      by (vm_compute; reflexivity).
    exact (proj1 (forallb_forall _ _) Hall r Hr). }
  destruct (outbox_drains (D := memory) (B := confirming) DIGITS (λ _ _, eq_refl) (λ _ _, eq_refl) ten_turns granted_world eq_refl Hats
    granted_consistent Hbound Hp) as (w'&Hw&Hnone&(order&ps&Horder&_&Hps&Hsaid)&_).
  exists w', ps. split; [exact Hw|]. split; [exact Hnone|]. split; [exact Hsaid|].
  rewrite <- (Forall2_length _ _ _ Hps), (Permutation_length Horder). vm_compute; reflexivity.
Defined.
