(* ===== verification/ApprovalIngress.v ===== *)
(** * Operator approvals

    [services/command_gateway/src/aerial_rescue_command_gateway/operator_approval.py]: the
    dashboard decided and stored the approval; the broker's event is only compared with what it
    stored.  An event that matches binds this gateway's clock to the approval once: the trusted
    issue instant is moved to the gateway's monotonic clock, so that the window the operator
    granted ends when it should even if the wall clock is changed later. *)

From S2P Require Import Prelude PyStr PyVal Canonical JsonBytes Instant Topics Envelope Sql Schema StoreProposals StoreInbox StoreApprovals StoreBindings.
From S2P Require Import Approvals Ingress Adapter Delivery Authorization GatewaySample.
Local Open Scope string_scope.
Local Open Scope Z_scope.

Definition REFUSAL_CHANNEL : string := "command-gateway-operator-approval".

Inductive ApprovalIngressOutcome : Set :=
| VERIFIED | MISMATCH | EXPIRED | CLOCK_REGRESSION | EPOCH_MISMATCH | DUPLICATE.

Definition outcome_value (o : ApprovalIngressOutcome) : string :=
  match o with
  | VERIFIED => "verified" | MISMATCH => "persisted-binding-mismatch"
  | EXPIRED => "expired-before-gateway-binding"
  | CLOCK_REGRESSION => "wall-clock-regressed-before-gateway-binding"
  | EPOCH_MISMATCH => "approval-is-bound-to-another-gateway-epoch" | DUPLICATE => "duplicate"
  end.

Inductive ApprovalIngressRefusal : Set := INGRESS_KIND | DUPLICATE_RESULT.

(** Everything that leaves the transaction as an exception. *)
Inductive approval_ingress_failure : Type :=
| ApprovalIngressError (refusal : ApprovalIngressRefusal)
| InboxFailure (e : store_failure InboxRefusal)
| ApprovalFailure (e : store_failure StoredApprovalRefusal)
| BindingFailure (e : store_failure ApprovalBindingRefusal)
| AdapterFailure (e : adapter_failure)
| Uncanonical (e : CanonicalizationError).

Record ApprovalIngressResult : Set := { outcome : ApprovalIngressOutcome; result_bytes : string }.

(** [_matches] *)
Definition matches (i : OperatorApprovalIngress) (stored : ApprovalBinding) : bool :=
  let p := approval_payload i in
  bool_decide (Envelope.source (approval_envelope i) =
               "urn:aerial-rescue:dashboard-api:" ++ binding_runtime stored) &&
  bool_decide (binding_id stored = Ingress.approval_id p) &&
  bool_decide (binding_mission stored = approval_mission p) &&
  bool_decide (binding_operator stored = approval_operator p) &&
  bool_decide (binding_decision stored = Ingress.decision p) &&
  bool_decide (binding_issued stored = Ingress.issued_at p) &&
  bool_decide (binding_expires stored = Ingress.expires_at p) &&
  bool_decide (binding_proposal stored = Ingress.approved_proposal p) &&
  bool_decide (binding_digest stored = Ingress.approved_digest p) &&
  (binding_version stored =? approved_version p) &&
  bool_decide (binding_evidence stored = approved_evidence p) &&
  bool_decide (binding_evidence_digest stored = approved_evidence_digest p) &&
  (binding_evidence_version stored =? approved_evidence_version p) &&
  bool_decide (binding_action stored = approved_action p).

(** [_authority]: the rebased authority, or the outcome that refuses it.  The clock's wall
    reading is a UTC datetime, which [format_instant] floors to the millisecond. *)
Definition authority (stored : ApprovalBinding) (now : AuthorizationClock)
    : StoredApprovalAuthority + ApprovalIngressOutcome :=
  let instants :=
    issued_wall ← map_err (λ _, BadInstant) (parse_instant (PyStr (binding_issued stored)));
    text ← instant_text (wall (reading now));
    current_wall ← map_err (λ _, BadInstant) (parse_instant (PyStr text));
    Ok (micros current_wall - micros issued_wall) in
  match instants with
  | Err _ => inr CLOCK_REGRESSION
  | Ok elapsed =>
      if elapsed <? 0 then inr CLOCK_REGRESSION else
      if binding_window stored <=? 0 then inr MISMATCH else
      let elapsed_milliseconds := elapsed / MILLISECOND in
      if binding_window stored <=? elapsed_milliseconds then inr EXPIRED else
      if (monotonic (reading now) <? 0) || bool_decide (Authorization.runtime_epoch now = "")
      then inr CLOCK_REGRESSION else
      inl {| StoreBindings.runtime_epoch := Authorization.runtime_epoch now;
             StoreBindings.issued_monotonic_milliseconds :=
               monotonic (reading now) / MILLISECOND - elapsed_milliseconds |}
  end.

Section handler.
Context `{N : Normalization} `{M : PayloadModels} `{D : Database} (limit : nat).

(** [_result] *)
Definition result_document (i : OperatorApprovalIngress) (o : ApprovalIngressOutcome) : members :=
  document [("approvalIngress", PyStr (outcome_value o));
            ("approvalId", PyStr (Ingress.approval_id (approval_payload i)))].

Definition result_of (i : OperatorApprovalIngress) (o : ApprovalIngressOutcome)
    : result approval_ingress_failure string :=
  map_err Uncanonical (canonical_bytes (PyDict (result_document i o))).

(** [ApprovalIngressTransaction.load_binding] and the adapter's mapping. *)
Definition load_binding (id : string) : tx approval_ingress_failure ApprovalBinding :=
  b ← lift BindingFailure (load_by_approval id);
  a ← lift ApprovalFailure (load_for_update (StoreBindings.proposal_id b));
  pure (map_err AdapterFailure
    (map_approval_binding limit {| stored_approval := a; stored_binding := b |})).

(** [_verify_new_claim] *)
Definition verify_new_claim (i : OperatorApprovalIngress) (now : AuthorizationClock)
    : tx approval_ingress_failure ApprovalIngressOutcome :=
  binding ← load_binding (Ingress.approval_id (approval_payload i));
  if negb (matches i binding) then mret MISMATCH else
  match authority binding now with
  | inr refusal => mret refusal
  | inl a =>
      bound ← lift BindingFailure (bind_authority (Ingress.approval_id (approval_payload i)) a);
      mret (match bound with EPOCH_CONFLICT => EPOCH_MISMATCH | _ => VERIFIED end)
  end.

(** The new claim's work, up to the inbox's completion. *)
Definition verify_and_complete (now : AuthorizationClock) (id : InboxIdentity) (i : OperatorApprovalIngress)
    : tx approval_ingress_failure ApprovalIngressResult :=
  o ← verify_new_claim i now;
  durable_result ← pure (result_of i o);
  lift InboxFailure (complete id durable_result (Envelope.time (approval_envelope i))) ;;
  mret {| outcome := o; result_bytes := durable_result |}.

Definition prior_verification (bytes : string) : result approval_ingress_failure ApprovalIngressResult :=
  Ok {| outcome := DUPLICATE; result_bytes := bytes |}.

Definition operator_approval_handler (now : AuthorizationClock)
    : guaranteed OperatorApprovalIngress approval_ingress_failure ApprovalIngressResult := {|
  channel := REFUSAL_CHANNEL;
  selected := λ a, match a with AcceptedApproval i => Some i | _ => None end;
  wrong_kind := ApprovalIngressError INGRESS_KIND;
  envelope_of := approval_envelope;
  identity := λ i, map_err Uncanonical
    (inbox_identity (approval_envelope i) (approval_mission (approval_payload i)));
  body := λ id i, deduplicated InboxFailure (ApprovalIngressError DUPLICATE_RESULT) prior_verification id
                    (verify_and_complete now id i)
|}.

Definition handle_operator_approval `{P : SettlementPort} (dl : GuaranteedDelivery)
    (now : AuthorizationClock) (observed : string) (d : db)
    : Delivery.outcome approval_ingress_failure ApprovalIngressResult :=
  handle limit (operator_approval_handler now) dl observed d.
End handler.

(** ** The rebased window *)

(** What is left of the window is the same on both clocks. *)
Lemma authority_inl b now a :
  authority b now = inl a →
  ∃ issued current,
    parse_instant (PyStr (binding_issued b)) = Ok issued ∧
    instant_text (wall (reading now)) = Ok current ∧
    ∃ read, parse_instant (PyStr current) = Ok read ∧
    let elapsed := (micros read - micros issued) / MILLISECOND in
    0 ≤ elapsed < binding_window b ∧ 0 ≤ monotonic (reading now) ∧
    Authorization.runtime_epoch now ≠ "" ∧
    a = {| StoreBindings.runtime_epoch := Authorization.runtime_epoch now;
           StoreBindings.issued_monotonic_milliseconds :=
             monotonic (reading now) / MILLISECOND - elapsed |}.
Proof.
  unfold authority. destruct (parse_instant (PyStr (binding_issued b))) as [issued|] eqn:Hi; [|done].
  cbn [map_err mbind result_bind]. destruct (instant_text _) as [text|] eqn:Ht; [|done].
  cbn [map_err mbind result_bind]. destruct (parse_instant (PyStr text)) as [read|] eqn:Hr; [|done].
  cbn [map_err mbind result_bind]. repeat case_match; try done. intros [= <-]. bools.
  eexists _, _. split; [done|]. split; [done|]. exists read. split; [done|].
  split_and!; try done; try lia. apply Z.div_pos; [lia|done].
Qed.

(** ** Durability and replay *)

Section replay.
Context `{N : Normalization} `{M : PayloadModels} `{D : Database} (limit : nat).

Lemma verify_new_claim_durable i now : effect durable (verify_new_claim limit i now).
Proof. unfold verify_new_claim, load_binding. effects. Qed.

Lemma verify_and_complete_durable now id i : effect durable (verify_and_complete limit now id i).
Proof. pose proof verify_new_claim_durable. unfold verify_and_complete. effects. Qed.

Lemma verify_and_complete_completes now id i d r d' :
  consistent d → verify_and_complete limit now id i d = Ok (r, d') → completed d' id (result_bytes r).
Proof.
  intros Hd Hr. unfold verify_and_complete in Hr. apply tx_bind_Ok in Hr as (o&d1&Hv&Hr).
  pose proof (verify_new_claim_durable _ _ _ _ _ Hv Hd) as [Hd1 _]. run_tx. subst.
  cbn [result_bytes]. by eapply complete_completed.
Qed.

Definition verified_before (r : ApprovalIngressResult) : ApprovalIngressResult :=
  {| outcome := DUPLICATE; result_bytes := result_bytes r |}.

#[global] Instance operator_approval_replay_safe :
  ReplaySafe limit (operator_approval_handler limit) verified_before.
Proof.
  split; try done; cbn [body operator_approval_handler].
  - intros a id i. apply deduplicated_durable, verify_and_complete_durable.
  - intros a b id i d r d1 d2 _ Hd Hr Hl Hs.
    refine (deduplicated_again InboxFailure (ApprovalIngressError DUPLICATE_RESULT) prior_verification
      result_bytes verified_before id (verify_and_complete limit a id i) (verify_and_complete limit b id i)
      d r d1 d2 _ _ _ Hd Hr Hl Hs).
    + intros d0 r0 d0' Hd0 Hp. split; [|done]. by eapply verify_and_complete_completes.
    + by intros p r0 [= <-].
    + apply verify_and_complete_durable.
Qed.
End replay.

(** ** What a verified approval stands on *)

Section verified.
Context `{N : Normalization} `{M : PayloadModels} `{D : Database} (limit : nat).

(** The decision an event reports, in the shape the store keeps it. *)
Definition reported (p : OperatorApprovalPayload) (runtime : string) (window : Z) : ApprovalBinding := {|
  binding_id := Ingress.approval_id p; binding_mission := approval_mission p;
  binding_operator := approval_operator p; binding_decision := Ingress.decision p;
  binding_issued := Ingress.issued_at p; binding_expires := Ingress.expires_at p;
  binding_proposal := approved_proposal p; binding_digest := approved_digest p;
  binding_version := approved_version p; binding_evidence := approved_evidence p;
  binding_evidence_digest := approved_evidence_digest p; binding_evidence_version := approved_evidence_version p;
  binding_action := approved_action p; binding_runtime := runtime; binding_window := window
|}.

Lemma matches_reported i stored :
  matches i stored = true →
  stored = reported (approval_payload i) (binding_runtime stored) (binding_window stored) ∧
  Envelope.source (approval_envelope i) = "urn:aerial-rescue:dashboard-api:" ++ binding_runtime stored.
Proof. unfold matches, reported. intros Hm. bools. destruct stored. cbn in *. by subst. Qed.

(** The event, the stored decision it is compared with, and the authority rebased from it. *)
Record verified_against (i : OperatorApprovalIngress) (now : AuthorizationClock) (d : db)
    (approval : StoredApproval) (binding : StoredApprovalBinding) (stored : ApprovalBinding)
    (a : StoredApprovalAuthority) : Prop := {
  verified_binding :
    reads APPROVAL_BINDING (approval_conds (Ingress.approval_id (approval_payload i)))
      (StoreBindings.stored (Ingress.approval_id (approval_payload i))) d binding;
  verified_approval :
    ∃ r, StoreApprovals.entry d (StoreBindings.proposal_id binding) = Some r ∧ holds_approval r approval;
  verified_mapping :
    map_approval_binding limit {| stored_approval := approval; stored_binding := binding |} = Ok stored;
  verified_fields : stored = reported (approval_payload i) (binding_runtime stored) (binding_window stored);
  verified_source :
    Envelope.source (approval_envelope i) = "urn:aerial-rescue:dashboard-api:" ++ binding_runtime stored;
  verified_clock : authority stored now = inl a;
  verified_window :
    0 ≤ monotonic (reading now) / MILLISECOND - StoreBindings.issued_monotonic_milliseconds a <
    binding_window stored
}.

Lemma load_binding_Ok id stored d d' :
  consistent d → load_binding limit id d = Ok (stored, d') →
  d' ≡ d ∧ ∃ approval binding r,
    reads APPROVAL_BINDING (approval_conds id) (StoreBindings.stored id) d binding ∧
    StoreApprovals.entry d (StoreBindings.proposal_id binding) = Some r ∧ holds_approval r approval ∧
    map_approval_binding limit {| stored_approval := approval; stored_binding := binding |} = Ok stored.
Proof.
  intros Hd Hl. unfold load_binding in Hl. run_tx. subst.
  match goal with H : load_by_approval _ _ = Ok _ |- _ => apply select_reads in H as [Hs Hb] end.
  match goal with H : load_for_update _ _ = Ok _ |- _ => apply load_Ok in H as (Hs'&r&Hr&Hh) end.
  2: { intros t. rewrite (Hs t). apply Hd. }
  split; [by rewrite Hs'|]. do 3 eexists. split; [exact Hb|]. split; [|done].
  unfold StoreApprovals.entry in *. by rewrite <- (found_proper _ _ _ _ Hs).
Qed.

Lemma verify_new_claim_Ok i now o d d' :
  consistent d → verify_new_claim limit i now d = Ok (o, d') →
  let id := Ingress.approval_id (approval_payload i) in
  authority_once d d' ∧ confined [APPROVAL_BINDING] d d' ∧
  match o with
  | VERIFIED => ∃ approval binding stored a row bound,
      verified_against i now d approval binding stored a ∧ binding_entry d' id = Some row ∧
      authority_of row = Some bound ∧ StoreBindings.runtime_epoch bound = Authorization.runtime_epoch now ∧
      (authority_runtime_epoch binding = None → bound = a)
  | _ => d' ≡ d
  end.
Proof.
  intros Hd Hv id. unfold verify_new_claim in Hv. apply tx_bind_Ok in Hv as (stored&d1&Hl&Hv).
  apply load_binding_Ok in Hl as (Hs&approval&binding&r&Hb&Hr&Hh&Hm); [|done].
  assert (Hsame : ∀ x, x ≡ d1 → authority_once d x ∧ confined [APPROVAL_BINDING] d x).
  { intros x Hx. rewrite Hs in Hx. split; [|intros t _; apply Hx].
    intros j y Hy. exists y. unfold binding_entry in *. by rewrite (found_proper _ _ _ _ Hx). }
  destruct (negb (matches i stored)) eqn:Hma.
  { apply tx_ret_Ok in Hv as [<- <-]. by destruct (Hsame d1). }
  apply negb_false_iff, matches_reported in Hma as [Hrep Hsrc].
  destruct (authority stored now) as [a|why] eqn:Ha.
  2: { apply tx_ret_Ok in Hv as [<- <-]. destruct (Hsame d1); [done|]. split; [done|]. split; [done|].
       unfold authority in Ha. by repeat case_match; simplify_eq. }
  apply tx_bind_Ok in Hv as (bound&d2&Hbind&Hv). apply lift_Ok in Hbind. apply tx_ret_Ok in Hv as [<- <-].
  assert (Hd1 : consistent d1) by (intros t; rewrite (Hs t); apply Hd).
  pose proof (bind_authority_Ok _ _ _ _ _ Hd1 Hbind) as [Honce Hout].
  pose proof (bind_confined _ _ _ _ _ Hbind) as Hconf.
  split; [by etransitivity; [apply (Hsame d1)|]|].
  split; [by etransitivity; [apply (Hsame d1)|]|].
  destruct (authority_inl _ _ _ Ha) as (?&?&_&_&?&_&Hwin&_&_&Hae).
  assert (Hva : verified_against i now d approval binding stored a).
  { split; eauto. rewrite Hae. cbn [StoreBindings.issued_monotonic_milliseconds]. lia. }
  assert (Hread : ∀ d3 kept, bound ≠ BOUND → d2 ≡ d3 →
    reads APPROVAL_BINDING (approval_conds id) (StoreBindings.stored id) d3 kept → kept = binding ∧ d2 ≡ d).
  { intros d3 kept Hnb H23 Hk. assert (H21 : d2 ≡ d1) by by destruct bound.
    assert (H30 : d3 ≡ d) by by rewrite <- H23, H21. split; [|by rewrite H21].
    apply (reads_same _ _ _ d d3) in Hk; [|apply H30].
    destruct Hk as (r1&Hr1&Hk), Hb as (r2&Hr2&Hb). subst id. rewrite Hr1 in Hr2. injection Hr2 as ->. congruence. }
  destruct bound.
  - destruct Hout as (row&Hrow&Hat). exists approval, binding, stored, a, row, a.
    split_and!; [done|exact Hrow|exact Hat|by rewrite Hae|done].
  - destruct (bind_authority_read _ _ _ _ _ Hbind) as (d3&kept&Hk&H23&Hal); [done|].
    destruct (Hread d3 kept) as [-> H20]; [done..|]. apply proj1 in Hal. specialize (Hal eq_refl).
    destruct (reads_authority _ _ _ _ Hb Hal) as (row&bound&Hrow&Hat&He&_).
    exists approval, binding, stored, a, row, bound. split; [done|].
    split. { unfold binding_entry in *. by rewrite (found_proper _ _ _ _ H20). }
    split; [done|]. split; [by rewrite He, Hae|]. by rewrite Hal.
  - destruct (bind_authority_read _ _ _ _ _ Hbind) as (d3&kept&Hk&H23&Hal); [done|].
    by destruct (Hread d3 kept).
Qed.

Lemma verified_same i now d d' approval binding stored a :
  rows d' APPROVAL_BINDING = rows d APPROVAL_BINDING → rows d' APPROVAL = rows d APPROVAL →
  verified_against i now d' approval binding stored a → verified_against i now d approval binding stored a.
Proof.
  intros Hb Ha [H1 H2 H3 H4 H5 H6 H7]. split; try done; [by eapply reads_same|].
  unfold StoreApprovals.entry, found in *. by rewrite <- Ha.
Qed.

Lemma handled_approval now id i d r d' :
  consistent d → body (operator_approval_handler limit now) id i d = Ok (r, d') →
  rows d' APPROVAL = rows d APPROVAL ∧ authority_once d d' ∧
  match outcome r with
  | VERIFIED => ∃ approval binding stored a row bound,
      verified_against i now d approval binding stored a ∧
      binding_entry d' (Ingress.approval_id (approval_payload i)) = Some row ∧
      authority_of row = Some bound ∧
      StoreBindings.runtime_epoch bound = Authorization.runtime_epoch now ∧
      (authority_runtime_epoch binding = None → bound = a)
  | _ => rows d' APPROVAL_BINDING = rows d APPROVAL_BINDING
  end.
Proof.
  intros Hd Hr. cbn [body operator_approval_handler] in Hr. unfold deduplicated in Hr.
  apply tx_bind_Ok in Hr as (o&d1&Hc&Hr). apply lift_Ok in Hc.
  assert (Hclaim : confined [BROKER_INBOX] d d1) by by eapply claim_confined.
  assert (Hd1 : consistent d1) by by eapply claim_durable.
  destruct (StoreInbox.decision o).
  - unfold verify_and_complete in Hr. apply tx_bind_Ok in Hr as (v&d2&Hv&Hr). run_tx. subst. cbn [outcome].
    destruct (verify_new_claim_Ok _ _ _ _ _ Hd1 Hv) as (Ho&Hconf&Hout).
    match goal with H : complete _ _ _ _ = Ok _ |- _ => apply complete_confined in H as Hcomp end.
    assert (Hrows : rows d' APPROVAL_BINDING = rows d2 APPROVAL_BINDING) by (apply Hcomp; by_decide).
    assert (Hrows1 : rows d1 APPROVAL_BINDING = rows d APPROVAL_BINDING) by (apply Hclaim; by_decide).
    split. { rewrite (Hcomp APPROVAL), (Hconf APPROVAL), (Hclaim APPROVAL) by by_decide. done. }
    split. { by eapply authority_once_rows; [exact Hrows1|symmetry; exact Hrows|]. }
    destruct v; try (by rewrite Hrows, <- Hrows1; apply Hout).
    destruct Hout as (approval&binding&stored&a&row&bound&Hva&Hrow&Hrest).
    exists approval, binding, stored, a, row, bound.
    split. { eapply verified_same; [done|apply Hclaim; by_decide|exact Hva]. }
    split; [|exact Hrest]. unfold binding_entry, found in *. by rewrite Hrows.
  - apply pure_Ok in Hr as [Hr ->]. run_ok.
    match goal with H : prior_verification _ = _ |- _ => injection H as <- end. cbn [outcome].
    split; [apply Hclaim; by_decide|]. split; [|apply Hclaim; by_decide].
    eapply authority_once_rows; [reflexivity|symmetry; apply Hclaim; by_decide|].
    apply (PreOrder_Reflexive (R := authority_once)).
Qed.

(** C20: an approval is verified against the operator's stored decision only.  Handling an approval
    event never changes an approval and never replaces a clock authority.  It reports the event
    verified only when every field equals the stored decision's, inside the window the operator
    granted; the binding then carries this gateway's epoch and, if it carried none, exactly the
    issue instant moved to the gateway's monotonic clock, with the unused part of the window
    left.  Whatever else it reports, the binding is as it was. *)
Theorem approval_verified `{P : SettlementPort} (dl : GuaranteedDelivery) (now : AuthorizationClock)
    (observed : string) (d : db) (r : ApprovalIngressResult)
    (Hd : consistent d)
    (Hr : returned (handle_operator_approval limit dl now observed d) = Ok r) :
  let d' := store (handle_operator_approval limit dl now observed d) in
  rows d' APPROVAL = rows d APPROVAL ∧ authority_once d d' ∧
  match outcome r with
  | VERIFIED => ∃ i approval binding stored a row bound,
      accept_ingress limit (payload dl) (PyStr (topic dl)) = Ok (AcceptedApproval i) ∧
      verified_against i now d approval binding stored a ∧
      binding_entry d' (Ingress.approval_id (approval_payload i)) = Some row ∧
      authority_of row = Some bound ∧
      StoreBindings.runtime_epoch bound = Authorization.runtime_epoch now ∧
      (authority_runtime_epoch binding = None → bound = a)
  | _ => rows d' APPROVAL_BINDING = rows d APPROVAL_BINDING
  end.
Proof.
  intros d'. apply handle_returned in Hr as (x&i&id&Hx&Hsel&_&Hb). fold d' in Hb.
  assert (x = AcceptedApproval i) as -> by (cbn in Hsel; destruct x; try done; by injection Hsel as ->).
  destruct (handled_approval now id i d r d' Hd Hb) as (Ha&Ho&Hv). split; [done|]. split; [done|].
  destruct (outcome r); try done. destruct Hv as (approval&binding&stored&a&row&bound&Hv).
  by exists i, approval, binding, stored, a, row, bound.
Qed.
End verified.

#[local] Existing Instance ascii_normalization.
#[local] Existing Instance strict_models.
#[local] Existing Instance memory.
#[local] Existing Instance settling_port.

Definition approved : members := document
  [("operatorApprovalVersion", PyInt 1); ("missionId", PyStr "mission-1");
   ("approvalId", PyStr "approval-1"); ("operatorId", PyStr "operator-1");
   ("decision", PyStr "approve"); ("issuedAt", PyStr "2026-07-28T09:00:00.000Z");
   ("expiresAt", PyStr "2026-07-28T09:01:00.000Z"); ("proposalId", PyStr "proposal-1");
   ("proposalDigest", PyStr rescue_digest); ("proposalVersion", PyInt 1);
   ("evidenceDecisionId", PyStr "decision-1"); ("evidenceDecisionDigest", PyStr evidence_digest);
   ("evidenceDecisionVersion", PyInt 1); ("action", PyDict rescue_action_document)].

Definition approval_delivery : GuaranteedDelivery := Eval vm_compute in {|
  topic := "aerial-rescue/v1/mission-1/operator/approval/approve";
  payload := wire (envelope_document
    (notification "event-9" "operator.approval.approve" "operator-approval" approved))
|}.

Abbreviation verification_run :=
  (handle_operator_approval DIGITS approval_delivery half_minute observed_at undecided).

Definition verified_result : ApprovalIngressResult :=
  Eval vm_compute in default {| outcome := DUPLICATE; result_bytes := "" |} (ok_value (returned verification_run)).

Lemma approval_verified_witness :
  outcome verified_result = VERIFIED ∧
  ∃ i row bound,
    binding_entry (store verification_run) (Ingress.approval_id (approval_payload i)) = Some row ∧
    authority_of row = Some bound ∧ StoreBindings.runtime_epoch bound = "epoch-1".
Proof.
  assert (Hr : returned verification_run = Ok verified_result) by (vm_compute; reflexivity).
  destruct (approval_verified DIGITS approval_delivery half_minute observed_at undecided verified_result
    undecided_consistent Hr) as (_&_&i&?&?&?&?&row&bound&_&_&Hrow&Hat&He&_).
  split; [reflexivity|]. exists i, row, bound. exact (conj Hrow (conj Hat He)).
Defined.
