(* ===== verification/Progression.v ===== *)
(** * Command progression

    [services/command_gateway/src/aerial_rescue_command_gateway/progression.py]: the five-send
    lifecycle of a dispatched command.  A send and a timeout are recorded each in a transaction
    of its own; a drone's result is recorded with its inbox identity in one, and a result that is
    no edge of the command's state is answered as stale and changes nothing but the inbox. *)

From S2P Require Import Prelude PyStr Regex PyVal Canonical JsonBytes Topics Envelope Lifecycle Commands Dispatch.
From S2P Require Import Sql Schema StoreProposals StoreInbox StoreProgress Ingress Authorization Delivery GatewaySample.
Local Open Scope string_scope.
Local Open Scope Z_scope.

Definition REFUSAL_CHANNEL : string := "command-gateway-command-result".
Definition SEND_BUDGET : SendBudget := {| max_sends := MAX_COMMAND_SENDS |}.

Inductive ProgressionRefusal : Set := INGRESS_KIND | DUPLICATE_RESULT.
Inductive TimeoutOutcome : Set := RETRY | ABANDONED.
Inductive CommandResultOutcome : Set := UPDATED | STALE | MISMATCH | DUPLICATE.

#[export] Instance CommandResultOutcome_eq_dec : EqDecision CommandResultOutcome.
Proof. solve_decision. Defined.
#[export] Program Instance CommandResultOutcome_finite : Finite CommandResultOutcome :=
  {| enum := [UPDATED; STALE; MISMATCH; DUPLICATE] |}.
Solve All Obligations with solve_finite.

Definition outcome_value (o : CommandResultOutcome) : string :=
  match o with
  | UPDATED => "updated" | STALE => "stale" | MISMATCH => "identity-mismatch" | DUPLICATE => "duplicate"
  end.

(** Everything that leaves a result's transaction as an exception; [UnknownOutcome] is the
    [KeyError] of an outcome no event has. *)
Inductive progression_failure : Type :=
| ProgressionError (refusal : ProgressionRefusal)
| InboxFailure (e : store_failure InboxRefusal)
| ProgressFailure (e : store_failure CommandProgressRefusal)
| Uncanonical (e : CanonicalizationError)
| UnknownOutcome (outcome : string).

Record SendClock : Set := { sent_at : string; clock_deadline_at : string; clock_updated_at : string }.

Record TimeoutResult : Set := {
  timeout_outcome : TimeoutOutcome; timeout_progress : StoredCommandProgress; waiting : option Z
}.

Record CommandResult : Set := {
  outcome : CommandResultOutcome; state : CommandState; result_bytes : string
}.

(** ** Sends and timeouts *)

Section dispatch.
Context `{D : Database}.

Definition record_send (current : StoredCommandProgress) (clock : SendClock) (d : db)
    : result progress_failure StoredCommandProgress * db :=
  transaction (record_transition current SEND SEND_BUDGET
    {| last_sent_at := Some (sent_at clock); deadline_at := Some (clock_deadline_at clock);
       result_id := result_id (facts current); updated_at := clock_updated_at clock |}) d.

(** The wait is computed after the transition committed. *)
Definition record_timeout (current : StoredCommandProgress) (at_ : string) (jitter : Z) (d : db)
    : result (progress_failure + ScheduleError) TimeoutResult * db :=
  match transaction (record_transition current TIME_OUT SEND_BUDGET
    {| last_sent_at := last_sent_at (facts current); deadline_at := None;
       result_id := result_id (facts current); updated_at := at_ |}) d with
  | (Err e, d') => (Err (inl e), d')
  | (Ok became, d') =>
      (if bool_decide (Commands.state (progress became) = Commands.ABANDONED)
       then Ok {| timeout_outcome := ABANDONED; timeout_progress := became; waiting := None |}
       else map_err inr (wait ← wait_milliseconds (sends (progress current)) jitter;
                         Ok {| timeout_outcome := RETRY; timeout_progress := became; waiting := Some wait |}),
       d')
  end.
End dispatch.

(** ** Results *)

(** [_event] *)
Definition event_of (outcome : string) : option CommandEvent :=
  dict_get [("acknowledged", ACKNOWLEDGE); ("succeeded", SUCCEED); ("failed", FAIL)] outcome.

Definition DUPLICATE_KEYS : list string := ["commandResult"; "commandId"; "state"].

(** [Enum(value)] *)
Definition enum_value {A} (value : A → string) (all : list A) (v : pyval) : option A :=
  match v with PyStr s => head (filter (λ a, value a = s) all) | _ => None end.

(** What [m] raises before any statement, handled: the transaction goes on. *)
Definition unless {E E' A} `{Database} (m : tx E A) (handled : E → tx E' A) : tx E' A :=
  λ d, match m d with Ok x => Ok x | Err e => handled e d end.

Section results.
Context `{N : Normalization} `{M : PayloadModels} `{D : Database} (limit : nat).

(** [_result] *)
Definition result_texts (command : string) (o : CommandResultOutcome) (s : CommandState)
    : list (string * string) :=
  [("commandResult", outcome_value o); ("commandId", command); ("state", state_value s)].

Definition result_of (i : CommandResultIngress) (o : CommandResultOutcome) (s : CommandState)
    : result progression_failure string :=
  map_err Uncanonical
    (canonical_bytes (PyDict (texts (result_texts (Ingress.result_command (result_payload i)) o s)))).

(** [_duplicate_state] *)
Definition duplicate_state (bytes command : string) : result progression_failure CommandState :=
  let lost := ProgressionError DUPLICATE_RESULT in
  v ← map_err (λ _, lost) (decode_bytes limit bytes);
  d ← or_raise (as_dict v) lost;
  raise_if (negb (exactly DUPLICATE_KEYS d)) lost ;;
  again ← map_err Uncanonical (canonical_bytes v);
  raise_if (negb (bool_decide (again = bytes)) || negb (py_eq (get d "commandId") (PyStr command))) lost ;;
  o ← or_raise (enum_value outcome_value (enum CommandResultOutcome) (get d "commandResult")) lost;
  s ← or_raise (enum_value state_value (enum CommandState) (get d "state")) lost;
  raise_if (bool_decide (o = DUPLICATE)) lost ;;
  raise_if (bool_decide (o = UPDATED) && negb (bool_decide (s ∈ [ACKNOWLEDGED; SUCCEEDED; FAILED]))) lost ;;
  Ok s.

(** [_matches] *)
Definition matches (i : CommandResultIngress) (current : StoredCommandProgress) : bool :=
  let p := result_payload i in
  bool_decide (Ingress.result_command p = StoreProgress.command_id (StoreProgress.identity current)) &&
  bool_decide (result_mission p = StoreProgress.mission_id (StoreProgress.identity current)) &&
  bool_decide (result_drone p = StoreProgress.drone_id (StoreProgress.identity current)).

Definition answering (i : CommandResultIngress) (o : CommandResultOutcome) (s : CommandState)
    : result progression_failure CommandResult :=
  bytes ← result_of i o s; Ok {| outcome := o; state := s; result_bytes := bytes |}.

(** [_apply_result]: only the domain's refusal of the event is caught, and it is raised before
    the transition's statement runs. *)
Definition apply_result (i : CommandResultIngress) (current : StoredCommandProgress)
    : tx progression_failure CommandResult :=
  let stands := Commands.state (progress current) in
  if negb (matches i current) then pure (answering i MISMATCH stands) else
  event ← pure (or_raise (event_of (Ingress.outcome (result_payload i)))
                         (UnknownOutcome (Ingress.outcome (result_payload i))));
  moved ← unless
    (became ← record_transition current event SEND_BUDGET
       {| last_sent_at := last_sent_at (facts current); deadline_at := None;
          result_id := Some (Envelope.id (result_envelope i));
          updated_at := Envelope.time (result_envelope i) |};
     mret (Some became))
    (λ e, match e with
          | Domain _ => mret None
          | Store e => pure (Err (ProgressFailure e))
          end);
  match moved with
  | None => pure (answering i STALE stands)
  | Some became => pure (answering i UPDATED (Commands.state (progress became)))
  end.

Definition apply_and_complete (id : InboxIdentity) (i : CommandResultIngress)
    : tx progression_failure CommandResult :=
  current ← lift ProgressFailure (StoreProgress.load (Ingress.result_command (result_payload i)));
  r ← apply_result i current;
  lift InboxFailure (complete id (result_bytes r) (Envelope.time (result_envelope i))) ;;
  mret r.

Definition prior_answer (command bytes : string) : result progression_failure CommandResult :=
  s ← duplicate_state bytes command;
  Ok {| outcome := DUPLICATE; state := s; result_bytes := bytes |}.

Definition command_result_handler : guaranteed CommandResultIngress progression_failure CommandResult := {|
  channel := REFUSAL_CHANNEL;
  selected := λ a, match a with AcceptedResult i => Some i | _ => None end;
  wrong_kind := ProgressionError INGRESS_KIND;
  envelope_of := result_envelope;
  identity := λ i, map_err Uncanonical
    (inbox_identity (result_envelope i) (result_mission (result_payload i)));
  body := λ id i, deduplicated InboxFailure (ProgressionError DUPLICATE_RESULT)
                    (prior_answer (Ingress.result_command (result_payload i))) id (apply_and_complete id i)
|}.

Definition handle_command_result `{P : SettlementPort} (dl : GuaranteedDelivery) (observed : string) (d : db)
    : Delivery.outcome progression_failure CommandResult :=
  handle limit command_result_handler dl observed d.
End results.

(** ** An answer is read back from the inbox *)

Lemma identifier_ascii s : fullmatch IDENTIFIER_PATTERN s = true → str_all is_ascii s = true.
Proof.
  apply fullmatch_all. intros c. cbn. destruct c as [[] [] [] [] [] [] [] []]; by vm_compute.
Qed.

Lemma enum_value_found {A} (value : A → string) `{Finite A} a :
  (∀ b, value b = value a → b = a) → enum_value value (enum A) (PyStr (value a)) = Some a.
Proof.
  intros Hi. cbn. destruct (filter (λ b, value b = value a) (enum A)) as [|b l] eqn:Hf.
  - exfalso. assert (Ha : a ∈ filter (λ b, value b = value a) (enum A))
      by (apply list_elem_of_filter; split; [done|apply elem_of_enum]).
    rewrite Hf in Ha. by apply not_elem_of_nil in Ha.
  - assert (Hb : b ∈ filter (λ b, value b = value a) (enum A)) by (rewrite Hf; left).
    apply list_elem_of_filter in Hb as [Hb _]. cbn. by rewrite (Hi b Hb).
Qed.

Section answers.
Context `{N : Normalization} (limit : nat).

(** The states an answer of a new result may name. *)
Definition answerable (o : CommandResultOutcome) (s : CommandState) : Prop :=
  match o with
  | UPDATED => s ∈ [ACKNOWLEDGED; SUCCEEDED; FAILED]
  | DUPLICATE => False
  | _ => True
  end.

Lemma duplicate_state_answer command o s bytes :
  (0 < limit)%nat → str_all is_ascii command = true → answerable o s →
  canonical_bytes (PyDict (texts (result_texts command o s))) = Ok bytes →
  duplicate_state limit bytes command = Ok s.
Proof.
  intros Hl Ha Ho Hb.
  destruct (decode_bytes_texts limit (result_texts command o s) bytes) as [Hd Hc]; [done|by_decide| |done..|].
  { repeat constructor; [by destruct o|done|by destruct s]. }
  unfold duplicate_state. rewrite Hd. cbn [map_err mbind result_bind as_dict or_raise].
  change (sort_members (result_texts command o s)) with
    [("commandId", command); ("commandResult", outcome_value o); ("state", state_value s)] in *.
  rewrite Hc. change (exactly DUPLICATE_KEYS _) with true. cbn [negb raise_if map_err mbind result_bind].
  rewrite (bool_decide_eq_true_2 (bytes = bytes)) by done.
  change (get _ "commandId") with (PyStr command). rewrite (proj2 (py_eq_text (PyStr command) command)) by done.
  cbn [negb orb raise_if mbind result_bind].
  change (get _ "commandResult") with (PyStr (outcome_value o)). change (get _ "state") with (PyStr (state_value s)).
  rewrite (enum_value_found outcome_value o) by (by intros []; destruct o).
  rewrite (enum_value_found state_value s) by (by intros []; destruct s).
  cbn [or_raise mbind result_bind]. destruct o; try done. cbn in Ho. cbn [bool_decide].
  by rewrite (bool_decide_eq_true_2 (s ∈ _)).
Qed.
End answers.

Section replay.
Context `{N : Normalization} `{M : PayloadModels} `{!LawfulModels} `{D : Database} (limit : nat).

Lemma effect_unless {E E' A} (R : relation db) (m : tx E A) (h : E → tx E' A) :
  effect R m → (∀ e, effect R (h e)) → effect R (unless m h).
Proof. intros Hm Hh d a d' Hu. unfold unless in Hu. destruct (m d) as [[]|] eqn:He; simplify_eq; [by eapply Hm|by eapply Hh]. Qed.

Lemma apply_result_durable i current : effect durable (apply_result i current).
Proof.
  unfold apply_result. destruct (negb _); [effects|].
  apply effect_bind; [apply _|effects|intros event].
  apply effect_bind; [apply _| |intros []; effects].
  apply effect_unless; [effects|]. intros []; effects.
Qed.

Lemma apply_result_confined i current : effect (confined [COMMAND_PROGRESS]) (apply_result i current).
Proof.
  unfold apply_result. destruct (negb _); [effects|].
  apply effect_bind; [apply _|effects|intros event].
  apply effect_bind; [apply _| |intros []; effects].
  apply effect_unless.
  - apply effect_bind; [apply _|apply transition_confined|effects].
  - intros []; effects.
Qed.

Lemma apply_and_complete_durable id i : effect durable (apply_and_complete id i).
Proof. pose proof apply_result_durable. unfold apply_and_complete. effects. Qed.

(** What applying a result does: it moves the command, or changes nothing. *)
Lemma apply_result_Ok i current d r d' :
  apply_result i current d = Ok (r, d') →
  result_of i (outcome r) (state r) = Ok (result_bytes r) ∧
  match outcome r with
  | UPDATED => ∃ event became,
      matches i current = true ∧ event_of (Ingress.outcome (result_payload i)) = Some event ∧
      advance (progress current) event SEND_BUDGET = Ok became ∧ state r = Commands.state became ∧
      ∃ f o, record_transition current event SEND_BUDGET f d = Ok (o, d') ∧
             result_id f = Some (Envelope.id (result_envelope i))
  | STALE => d' = d ∧ matches i current = true ∧ state r = Commands.state (progress current) ∧
      ∃ event e, event_of (Ingress.outcome (result_payload i)) = Some event ∧
                 advance (progress current) event SEND_BUDGET = Err e
  | MISMATCH => d' = d ∧ matches i current = false ∧ state r = Commands.state (progress current)
  | DUPLICATE => False
  end.
Proof.
  unfold apply_result. intros Hr. destruct (matches i current) eqn:Hm; cbn [negb] in Hr.
  2: { apply pure_Ok in Hr as [Hr ->]. unfold answering in Hr. run_ok. by subst. }
  apply tx_bind_Ok in Hr as (event&d1&He&Hr). apply pure_Ok in He as [He ->]. apply or_raise_Ok in He.
  apply tx_bind_Ok in Hr as (moved&d2&Hu&Hr). unfold unless in Hu.
  match type of Hu with match ?m with _ => _ end = _ => destruct m as [[o d3]|[e|e]] eqn:Ht end.
  - injection Hu as <- <-. apply tx_bind_Ok in Ht as (became&d4&Ht&Hret). apply tx_ret_Ok in Hret as [<- <-].
    apply pure_Ok in Hr as [Hr ->]. unfold answering in Hr. run_ok. subst. cbn [outcome state result_bytes].
    split; [done|]. pose proof Ht as Ht'. unfold record_transition in Ht'. run_tx. subst.
    do 2 eexists. split_and!; try done. do 2 eexists. split; [exact Ht|done].
  - discriminate Hu.
  - cbn in Hu. apply tx_ret_Ok in Hu as [<- <-]. apply transition_refused in Ht.
    apply pure_Ok in Hr as [Hr ->]. unfold answering in Hr. run_ok. subst. cbn [outcome state result_bytes].
    split; [done|]. split_and!; try done. by exists event, e.
Qed.

Lemma advance_results event p p' :
  event_of p = Some event → ∀ a, advance a event SEND_BUDGET = Ok p' →
  Commands.state p' ∈ [ACKNOWLEDGED; SUCCEEDED; FAILED].
Proof.
  intros He a Ha. unfold event_of in He. cbn [dict_get] in He. destruct a as [s n].
  repeat case_decide; simplify_eq; destruct s; try done; injection Ha as <-; by_decide.
Qed.

Lemma apply_and_complete_remembers id i d r d' :
  (0 < limit)%nat → str_all is_ascii (Ingress.result_command (result_payload i)) = true →
  consistent d → apply_and_complete id i d = Ok (r, d') →
  remembered (prior_answer limit (Ingress.result_command (result_payload i))) result_bytes
    (λ r, {| outcome := DUPLICATE; state := state r; result_bytes := result_bytes r |}) id r d'.
Proof.
  intros Hl Ha Hd Hr. unfold apply_and_complete in Hr. run_tx. subst. follow.
  pose proof apply_result_durable as Hdur.
  match goal with H : apply_result _ _ ?d0 = Ok _ |- _ =>
    assert (Hd2 := proj1 (Hdur _ _ _ _ _ H ltac:(assumption))); apply apply_result_Ok in H as [Hb Ho] end.
  split; [by eapply complete_completed|]. unfold prior_answer. unfold result_of in Hb.
  apply map_err_Ok in Hb. erewrite duplicate_state_answer; [done|done|done| |exact Hb].
  destruct (outcome r); cbn; try done. destruct Ho as (event&became&_&He&Hadv&->&_).
  by eapply advance_results.
Qed.

Definition answered_before (r : CommandResult) : CommandResult :=
  {| outcome := DUPLICATE; state := state r; result_bytes := result_bytes r |}.

#[global] Instance command_result_replay_safe :
  (0 < limit)%nat → ReplaySafe limit (λ _ : unit, command_result_handler limit) answered_before.
Proof.
  intros Hl. split; try done; cbn [body command_result_handler].
  - intros _ id i. apply deduplicated_durable, apply_and_complete_durable.
  - intros _ _ id i d r d1 d2 (raw&t&a&Hacc&Hsel) Hd Hr Hlat Hs.
    refine (deduplicated_again InboxFailure (ProgressionError DUPLICATE_RESULT)
      (prior_answer limit (Ingress.result_command (result_payload i))) result_bytes answered_before id
      (apply_and_complete id i) (apply_and_complete id i) d r d1 d2 _ _ _ Hd Hr Hlat Hs).
    + intros d0 r0 d0' Hd0 Hp. apply (apply_and_complete_remembers _ _ d0); [done| |done|done].
      apply identifier_ascii. cbn [selected command_result_handler] in Hsel. destruct a; try done.
      injection Hsel as ->. apply accept_ingress_from in Hacc as (topic&_&_&_&_&_&Hmodel).
      by eapply declared_command_id.
    + intros p r0 Hp. unfold prior_answer in Hp. run_ok. by subst.
    + apply apply_and_complete_durable.
Qed.
End replay.

(** ** What a result does to its command *)

Section followed.
Context `{N : Normalization} `{M : PayloadModels} `{D : Database} (limit : nat).

(** The row of a command stands at a progress, under this identity. *)
Definition command_at (d : db) (id mission drone : string) (p : CommandProgress) : Prop :=
  ∃ r, progress_entry d id = Some r ∧ stands_at r p ∧
       cell r "mission_id" = SText mission ∧ cell r "drone_id" = SText drone.

(** What a handled result has done to the commands. *)
Definition followed (i : CommandResultIngress) (r : CommandResult) (d d' : db) : Prop :=
  let p := result_payload i in
  let at_ d := command_at d (result_command p) (result_mission p) (result_drone p) in
  (∀ other, other ≠ result_command p → progress_entry d' other = progress_entry d other) ∧
  match outcome r with
  | UPDATED => ∃ was event became,
      at_ d was ∧ event_of (Ingress.outcome p) = Some event ∧ advance was event SEND_BUDGET = Ok became ∧
      state r = Commands.state became ∧ at_ d' became
  | STALE => rows d' COMMAND_PROGRESS = rows d COMMAND_PROGRESS ∧ ∃ was event e,
      at_ d was ∧ event_of (Ingress.outcome p) = Some event ∧ advance was event SEND_BUDGET = Err e ∧
      state r = Commands.state was
  | MISMATCH => rows d' COMMAND_PROGRESS = rows d COMMAND_PROGRESS ∧ ∃ row was,
      progress_entry d (result_command p) = Some row ∧ stands_at row was ∧ state r = Commands.state was ∧
      ¬ (cell row "mission_id" = SText (result_mission p) ∧ cell row "drone_id" = SText (result_drone p))
  | DUPLICATE => rows d' COMMAND_PROGRESS = rows d COMMAND_PROGRESS
  end.

Lemma followed_rows i r d d1 d' d1' :
  rows d1 COMMAND_PROGRESS = rows d COMMAND_PROGRESS → rows d1' COMMAND_PROGRESS = rows d' COMMAND_PROGRESS →
  followed i r d1 d1' → followed i r d d'.
Proof.
  intros H1 H2. unfold followed, command_at, progress_entry, found. by rewrite H1, H2.
Qed.

Lemma matches_identity i current :
  matches i current = true →
  result_command (result_payload i) = StoreProgress.command_id (StoreProgress.identity current) ∧
  result_mission (result_payload i) = StoreProgress.mission_id (StoreProgress.identity current) ∧
  result_drone (result_payload i) = StoreProgress.drone_id (StoreProgress.identity current).
Proof. unfold matches. intros Hm. by bools. Qed.

Lemma loaded_at i current d :
  StoreProposals.reads COMMAND_PROGRESS (progress_conds (result_command (result_payload i)))
    (StoreProgress.stored (result_command (result_payload i))) d current →
  matches i current = true →
  command_at d (result_command (result_payload i)) (result_mission (result_payload i))
    (result_drone (result_payload i)) (progress current).
Proof.
  intros (r&Hr&Hp&_&Hm&Hd)%progress_reads (_&->&->)%matches_identity. by exists r.
Qed.

(** A result under another mission or drone than its command's. *)
Lemma loaded_elsewhere i current d :
  StoreProposals.reads COMMAND_PROGRESS (progress_conds (result_command (result_payload i)))
    (StoreProgress.stored (result_command (result_payload i))) d current →
  matches i current = false →
  ∃ row, progress_entry d (result_command (result_payload i)) = Some row ∧ stands_at row (progress current) ∧
    ¬ (cell row "mission_id" = SText (result_mission (result_payload i)) ∧
       cell row "drone_id" = SText (result_drone (result_payload i))).
Proof.
  intros (r&Hr&Hp&Hc&Hm&Hd)%progress_reads Hno. exists r. split; [done|]. split; [done|]. intros [Hm' Hd'].
  apply found_Some in Hr as [_ Hr]. apply andb_true_iff in Hr as [Hr _]. apply sql_eq_true in Hr as [_ Hr].
  rewrite Hm in Hm'. rewrite Hd in Hd'. rewrite Hc in Hr. injection Hm' as Hm'. injection Hd' as Hd'. injection Hr as Hr.
  unfold matches in Hno. by rewrite !bool_decide_true in Hno by done.
Qed.

Lemma apply_result_followed i current d d1 r d' :
  consistent d → StoreProgress.load (result_command (result_payload i)) d = Ok (current, d1) →
  apply_result i current d1 = Ok (r, d') → followed i r d d'.
Proof.
  intros Hd Hl Hr. apply select_reads in Hl as [Hs Hread].
  assert (Hd1 : consistent d1) by (intros t; rewrite (Hs t); apply Hd).
  apply apply_result_Ok in Hr as [_ Ho]. apply (followed_rows _ _ _ d1 _ d'); [apply Hs|done|].
  apply (reads_same _ _ _ d1 d) in Hread; [|symmetry; apply Hs]. unfold followed. destruct (outcome r); [| | |done].
  - destruct Ho as (event&became&Hm&He&Ha&Hst&f&o&Ht&_).
    pose proof (loaded_at i current d1 Hread Hm) as Hat. destruct (matches_identity i current Hm) as (Hid&_&_).
    destruct (transition_row _ _ _ _ _ _ _ Hd1 Ht) as (became'&row&Ha'&Hrow&_&Hrow'&Hother).
    rewrite Ha in Ha'. injection Ha' as <-. rewrite <- Hid in *. split; [done|].
    exists (progress current), event, became. split_and!; try done.
    destruct Hat as (row2&Hrow2&_&Hm2&Hd2). rewrite Hrow in Hrow2. injection Hrow2 as <-.
    exists (assign (moved_values became f) row). split; [done|]. split; [apply moved_stands|].
    by rewrite !moved_cells by by_decide.
  - destruct Ho as (->&Hm&Hst&event&e&He&Ha). split; [done|]. split; [done|].
    exists (progress current), event, e. split_and!; try done. by apply loaded_at.
  - destruct Ho as (->&Hm&Hst). split; [done|]. split; [done|].
    destruct (loaded_elsewhere i current d1 Hread Hm) as (row&Hrow&Hat&Hno). by exists row, (progress current).
Qed.

Lemma handled_result id i d r d' :
  consistent d → body (command_result_handler limit) id i d = Ok (r, d') →
  confined [BROKER_INBOX; COMMAND_PROGRESS] d d' ∧ followed i r d d'.
Proof.
  intros Hd Hr. cbn [body command_result_handler] in Hr. unfold deduplicated in Hr.
  apply tx_bind_Ok in Hr as (o&d1&Hc&Hr). apply lift_Ok in Hc.
  assert (Hclaim : confined [BROKER_INBOX] d d1) by by eapply claim_confined.
  assert (Hd1 : consistent d1) by by eapply claim_durable.
  assert (Hpr1 : rows d1 COMMAND_PROGRESS = rows d COMMAND_PROGRESS) by (apply Hclaim; by_decide).
  destruct (StoreInbox.decision o).
  - unfold apply_and_complete in Hr. run_tx. subst.
    match goal with H : complete _ _ _ _ = Ok _ |- _ => apply complete_confined in H as Hcomp end.
    match goal with H : apply_result _ _ _ = Ok _ |- _ =>
      pose proof (apply_result_confined _ _ _ _ _ H) as Hap;
      eapply apply_result_followed in H as Hf; [|exact Hd1|eassumption] end.
    match goal with H : StoreProgress.load _ _ = Ok _ |- _ => apply select_reads in H as [Hs _] end.
    split.
    + intros t Ht. rewrite (Hcomp t), (Hap t), (Hs t), (Hclaim t); [done|..];
        intros Hin; apply Ht; revert Hin; rewrite !elem_of_cons, elem_of_nil; naive_solver.
    + eapply followed_rows; [exact Hpr1|symmetry; apply Hcomp; by_decide|exact Hf].
  - apply pure_Ok in Hr as [Hr ->]. run_ok. unfold prior_answer in *. run_ok. subst.
    split; [intros t Ht; apply Hclaim; intros Hin; apply Ht; revert Hin; rewrite !elem_of_cons; naive_solver|].
    split; [|done]. intros other _. unfold progress_entry, found. by rewrite Hpr1.
Qed.

(** An answer is the inbox's record of the event; without a row for its command, an earlier one. *)
Lemma handled_inbox id i d r d' :
  consistent d → body (command_result_handler limit) id i d = Ok (r, d') →
  completed d' id (result_bytes r) ∧
  (progress_entry d (result_command (result_payload i)) = None →
   outcome r = DUPLICATE ∧ completed d id (result_bytes r)).
Proof.
  intros Hd Hr. cbn [body command_result_handler] in Hr. unfold deduplicated in Hr.
  apply tx_bind_Ok in Hr as (o&d1&Hc&Hr). apply lift_Ok in Hc.
  assert (Hd1 : consistent d1) by by eapply claim_durable.
  assert (Hpr1 : rows d1 COMMAND_PROGRESS = rows d COMMAND_PROGRESS) by (eapply claim_confined; [exact Hc|by_decide]).
  apply claim_Ok in Hc; [|done]. destruct (StoreInbox.entry d id) as [x|].
  - destruct Hc as (Hs&b&->&Hb). cbn [StoreInbox.decision StoreInbox.prior] in Hr.
    apply pure_Ok in Hr as [Hr ->]. unfold prior_answer in Hr. run_ok. subst.
    match goal with H : Some _ = Some _ |- _ => injection H as <- | _ => idtac end.
    split; [by eapply completed_proper|done].
  - destruct Hc as [-> _]. cbn [StoreInbox.decision] in Hr. unfold apply_and_complete in Hr. run_tx. subst. follow.
    pose proof apply_result_durable as Hdur.
    match goal with H : apply_result _ _ ?d0 = Ok _ |- _ =>
      pose proof (proj1 (Hdur _ _ _ _ _ H ltac:(assumption))) end.
    split; [by eapply complete_completed|]. intros Hnone. exfalso.
    match goal with H : StoreProgress.load _ _ = Ok _ |- _ => apply select_reads in H as [_ (row&Hrow&_)] end.
    revert Hnone. unfold progress_entry, found in *. rewrite <- Hpr1. by rewrite Hrow.
Qed.

(** C21: a result moves its command exactly as the domain's machine does, and what it cannot place
    raises.  An answered delivery was a valid command result, is settled by accepting its event,
    and wrote at most the inbox row of its event, completed with the answer's bytes, and the
    progress row of its command.  An answer that reports an update found that row, under the mission
    and drone the result names, at a progress its event leaves, and left it at the progress after;
    one that reports stale found no such edge, one that reports a mismatch found the row under
    another mission or drone, and those two and a duplicate changed no progress row.  A result for a
    command the store does not know, under an event the inbox does not hold, raises; and whatever
    the handler raises itself over a valid result leaves the store as it was and nothing settled. *)
Theorem results_follow_machine `{P : SettlementPort} (dl : GuaranteedDelivery) (observed : string)
    (d : db) (Hd : consistent d) :
  let run := handle_command_result limit dl observed d in
  (∀ r, returned run = Ok r → ∃ i id,
     accept_ingress limit (payload dl) (PyStr (topic dl)) = Ok (AcceptedResult i) ∧
     inbox_identity (result_envelope i) (result_mission (result_payload i)) = Ok id ∧
     settlements run = [Accept (Envelope.id (result_envelope i))] ∧
     confined [BROKER_INBOX; COMMAND_PROGRESS] d (store run) ∧ completed (store run) id (result_bytes r) ∧
     followed i r d (store run)) ∧
  (∀ i, accept_ingress limit (payload dl) (PyStr (topic dl)) = Ok (AcceptedResult i) →
     (progress_entry d (result_command (result_payload i)) = None →
      (∀ id, inbox_identity (result_envelope i) (result_mission (result_payload i)) = Ok id → StoreInbox.entry d id = None) →
      ∃ e, returned run = Err (Raised e)) ∧
     (∀ e, returned run = Err (Raised e) → store run = d ∧ settlements run = [])).
Proof.
  cbv zeta. split.
  - intros r Hr. pose proof Hr as Hb. apply handle_returned in Hb as (x&i&id&Hx&Hsel&Hid&Hb). exists i, id.
    assert (x = AcceptedResult i) as -> by (cbn in Hsel; destruct x; try done; by injection Hsel as ->).
    destruct (handled_inbox _ _ _ _ _ Hd Hb) as [Hc _]. apply map_err_Ok in Hid as Hid'.
    destruct (handled_result _ _ _ _ _ Hd Hb) as [Hcon Hf]. split_and!; try done.
    revert Hr Hb. unfold handle_command_result, handle. rewrite Hx, Hsel, Hid.
    by destruct (transaction _ d) as [[y|e] d'].
  - intros i Hx. unfold handle_command_result, handle. rewrite Hx. cbn [selected command_result_handler].
    destruct (identity (command_result_handler limit) i) as [id|e] eqn:Hid; [|split; [by eexists|done]].
    apply map_err_Ok in Hid. destruct (transaction _ d) as [[r|e] d'] eqn:Ht.
    + split; [|unfold settling; cbn; by destruct (settle _)]. intros Hnone Hfresh.
      apply transaction_Ok in Ht. destruct (handled_inbox _ _ _ _ _ Hd Ht) as [_ Hold].
      destruct (Hold Hnone) as [_ (row&at_&Hrow&_)]. by rewrite (Hfresh id Hid) in Hrow.
    + apply transaction_Err in Ht as [_ ->]. split; [by eexists|done].
Qed.
End followed.

(** ** What a timeout schedules *)

Section timeouts.
Context `{D : Database}.

(** A timeout that commits was of a command in flight, and names its next wait or its end. *)
Definition scheduled (current : StoredCommandProgress) (jitter : Z) (t : TimeoutResult) : Prop :=
  let n := sends (progress current) in
  Commands.state (progress current) = IN_FLIGHT ∧ 1 ≤ n ≤ MAX_COMMAND_SENDS ∧
  sends (progress (timeout_progress t)) = n ∧
  if n <? MAX_COMMAND_SENDS
  then timeout_outcome t = RETRY ∧ Commands.state (progress (timeout_progress t)) = ACCEPTED ∧
       waiting t = Some (6000 * 2 ^ (n - 1) + jitter)
  else timeout_outcome t = ABANDONED ∧
       Commands.state (progress (timeout_progress t)) = Commands.ABANDONED ∧ waiting t = None.

(** A timeout's wait is never lost.  Over any store the gateway's transitions can reach, a
    timeout with a legal draw either raises before its transaction commits, changing nothing, or
    commits and returns: the doubled wait before the next send while the budget lasts, and the
    abandonment of the command after its fifth unanswered send.  The schedule's own refusals
    never follow a commit. *)
Lemma timeout_scheduled (current : StoredCommandProgress) (at_ : string) (jitter : Z) (d : db)
    (Hd : consistent d) (Hdr : driven SEND_BUDGET d) (Hj : legal_draw jitter) :
  match record_timeout current at_ jitter d with
  | (Ok t, _) => scheduled current jitter t
  | (Err e, d') => d' = d ∧ ∃ f, e = inl f
  end.
Proof.
  unfold record_timeout. destruct (transaction _ d) as [[became|e] d'] eqn:Ht.
  2: { apply transaction_Err in Ht as [_ ->]. eauto. }
  apply transaction_Ok in Ht. pose proof Ht as Hrt.
  destruct (transition_row _ _ _ _ _ _ _ Hd Ht) as (next&row&Hadv&Hrow&Hst&_).
  assert (Hok : progress_ok SEND_BUDGET (progress current)) by (eapply driven_bounded; [done|exact Hdr|done..]).
  assert (Hbn : progress became = next).
  { unfold record_transition in Hrt. run_tx. subst. cbn [progress]. congruence. }
  destruct Hok as [Hbound Hok]. unfold scheduled. change (max_sends SEND_BUDGET) with MAX_COMMAND_SENDS in *.
  unfold MAX_COMMAND_SENDS in *. rewrite Hbn.
  apply advance_cases in Hadv as [H|[(Hs&_&Hn&->)|[(Hs&_&Hn&->)|H]]]; [naive_solver| | |naive_solver];
    rewrite Hs in Hok; cbn [Commands.state sends].
  - rewrite bool_decide_eq_true_2 by done. cbn [timeout_progress timeout_outcome waiting].
    rewrite Hbn. cbn [Commands.state sends]. split; [done|]. split; [lia|]. split; [done|].
    change (max_sends SEND_BUDGET) with 5 in Hn. by destruct (Z.ltb_spec (sends (progress current)) 5); [lia|].
  - change (max_sends SEND_BUDGET) with 5 in Hn. rewrite bool_decide_eq_false_2 by done.
    rewrite wait_in_budget, decide_True by (done || lia).
    cbn [mbind result_bind map_err timeout_progress timeout_outcome waiting]. rewrite Hbn. cbn [Commands.state sends].
    split; [done|]. split; [lia|]. split; [done|]. by destruct (Z.ltb_spec (sends (progress current)) 5); [|lia].
Qed.
End timeouts.

(** ** A dispatched command *)

#[local] Existing Instance ascii_normalization.
#[local] Existing Instance strict_models.
#[local] Existing Instance memory.
#[local] Existing Instance settling_port.

Definition sent_identity : CommandIdentity :=
  {| StoreProgress.command_id := "command-1"; StoreProgress.mission_id := "mission-1";
     StoreProgress.drone_id := "drone-1" |}.

Definition first_progress : StoredCommandProgress := {|
  StoreProgress.identity := sent_identity; progress := INITIAL_PROGRESS;
  facts := {| last_sent_at := None; deadline_at := None; result_id := None;
              updated_at := "2026-07-28T09:00:30.000Z" |}
|}.

Definition sent_clock : SendClock := {|
  sent_at := "2026-07-28T09:00:31.000Z"; clock_deadline_at := "2026-07-28T09:00:37.000Z";
  clock_updated_at := "2026-07-28T09:00:31.000Z"
|}.

Definition accepted_calls : list progress_call := [Initialize sent_identity "2026-07-28T09:00:30.000Z"].
Definition accepted : db := Eval vm_compute in foldl (called SEND_BUDGET) [] accepted_calls.
Definition sent : StoredCommandProgress :=
  Eval vm_compute in default first_progress (ok_value (record_send first_progress sent_clock accepted).1).
Definition in_flight : db := Eval vm_compute in (record_send first_progress sent_clock accepted).2.

Lemma in_flight_reached : consistent in_flight ∧ driven SEND_BUDGET in_flight.
Proof.
  destruct (called_moves (H := memory) SEND_BUDGET (Initialize sent_identity "2026-07-28T09:00:30.000Z") []
    memory_empty ltac:(done)) as (Hd1&Hdr1&_).
  destruct (called_moves SEND_BUDGET (Transition first_progress SEND (facts sent)) _ Hd1 Hdr1) as (Hd2&Hdr2&_).
  assert (He : called SEND_BUDGET (called (H := memory) SEND_BUDGET [] (Initialize sent_identity "2026-07-28T09:00:30.000Z"))
                 (Transition first_progress SEND (facts sent)) = in_flight) by (vm_compute; reflexivity).
  rewrite He in Hd2, Hdr2. done.
Qed.

Definition result_document (outcome : string) : members := document
  [("missionId", PyStr "mission-1"); ("droneId", PyStr "drone-1"); ("commandId", PyStr "command-1");
   ("outcome", PyStr outcome)].

Definition result_delivery (event outcome : string) : GuaranteedDelivery := {|
  topic := "aerial-rescue/v1/mission-1/drone/drone-1/command-result/command-1";
  payload := wire (envelope_document
    {| Envelope.id := event; Envelope.source := "urn:aerial-rescue:fleet:drone-1";
       Envelope.type := "aerial-rescue.v1.drone.command-result"; Envelope.subject := "mission-1";
       Envelope.time := "2026-07-28T09:00:32.000Z";
       Envelope.dataschema := "https://aerial-rescue.invalid/schemas/v1/payload/drone-command-result.schema.json";
       Envelope.sequence := "000000000000007"; Envelope.correlation_id := "trace-1";
       Envelope.traceparent := trace; Envelope.data := result_document outcome;
       Envelope.causation_id := None; Envelope.tracestate := None |})
|}.

Definition acknowledgement : GuaranteedDelivery := Eval vm_compute in result_delivery "result-1" "acknowledged".

Abbreviation acknowledged_run := (handle_command_result DIGITS acknowledgement observed_at in_flight).

Definition acknowledged : CommandResult :=
  Eval vm_compute in default {| outcome := DUPLICATE; state := ACCEPTED; result_bytes := "" |}
    (ok_value (returned acknowledged_run)).

Definition nothing_sent : db (Database := memory) := [].

Lemma results_follow_machine_witness :
  outcome acknowledged = UPDATED ∧ state acknowledged = ACKNOWLEDGED ∧
  (∃ i, followed i acknowledged in_flight (store acknowledged_run)) ∧
  ∃ e, returned (handle_command_result DIGITS acknowledgement observed_at nothing_sent) = Err (Raised e).
Proof.
  assert (Hr : returned acknowledged_run = Ok acknowledged) by (vm_compute; reflexivity).
  destruct (results_follow_machine DIGITS acknowledgement observed_at in_flight
    (proj1 in_flight_reached)) as [Hans _].
  destruct (Hans acknowledged Hr) as (i&id&Hi&_&_&_&_&Hf).
  split; [reflexivity|]. split; [reflexivity|]. split; [exists i; exact Hf|].
  destruct (results_follow_machine DIGITS acknowledgement observed_at nothing_sent memory_empty) as [_ Hraise].
  apply (proj1 (Hraise i Hi)); [reflexivity|intros id' _; reflexivity].
Defined.

Lemma timeout_scheduled_witness :
  ∃ t d', record_timeout sent "2026-07-28T09:00:37.000Z" 500 in_flight = (Ok t, d') ∧
          waiting t = Some 6500 ∧ scheduled sent 500 t.
Proof.
  destruct (record_timeout sent "2026-07-28T09:00:37.000Z" 500 in_flight) as [[t|e] d'] eqn:Ht.
  - exists t, d'. split; [reflexivity|]. split.
    + vm_compute in Ht. injection Ht as <- _. reflexivity.
    + pose proof (timeout_scheduled sent "2026-07-28T09:00:37.000Z" 500 in_flight (proj1 in_flight_reached)
        (proj2 in_flight_reached) ltac:(unfold legal_draw; lia)) as Hs. rewrite Ht in Hs. exact Hs.
  - vm_compute in Ht. discriminate Ht.
Defined.
