(* ===== verification/Normalization.v ===== *)
(** * Agent responses become proposals

    [services/command_gateway/src/aerial_rescue_command_gateway/normalization.py] and
    [agent_response.py] beside it: one direct response of an agent is compared with the trusted
    context of its invocation and becomes, in one transaction, either a stored proposal with its
    publication and an audit event, or an audit event alone.  The response supplies the fields of
    its candidate and nothing else: every identity, instant, sequence, digest and destination is
    the gateway's.  A direct message has no settlement. *)

From S2P Require Import Prelude PyStr Regex PyVal Canonical JsonBytes Digest Topics Envelope Integration.
From S2P Require Import Sql Schema StoreProposals StoreEvents StoreInvocations StoreInbox Ingress Artifacts.
Local Open Scope string_scope.
Local Open Scope Z_scope.

Definition CONSUMER : string := "command-gateway".
Definition SOURCE : string := "event-mesh-gateway".
Definition PROPOSAL_TYPE : string := "candidate-location".
Definition PROPOSAL_VERSION : Z := 1.
Definition AUDIT_VERSION : Z := 1.

Inductive NormalizationRefusal : Set :=
| IDENTITY_MISMATCH | DIGEST_MISMATCH | RESPONSE_KIND | SEQUENCE | DUPLICATE_RESULT
| TRANSPORT_CONTEXT | TRANSPORT_CONTEXT_CONFLICT.

(** Everything that leaves the handler as an exception. *)
Inductive normalization_failure : Type :=
| NormalizationError (refusal : NormalizationRefusal)
| IngressFailure (e : ingress_failure)
| InboxFailure (e : store_failure InboxRefusal)
| InvocationFailure (e : store_failure PendingInvocationRefusal)
| ProposalFailure (e : store_failure ProposalRefusal)
| EventFailure (e : store_failure ApplicationOutboxRefusal)
| DigestFailure (e : digest_failure)
| BadTopic (e : topic_failure)
| BadEnvelope (e : envelope_failure)
| Uncanonical (e : CanonicalizationError).

Record NormalizationStamp : Set := {
  producer_id : string; stamp_proposal : string; proposal_event_id : string; audit_record_id : string;
  audit_event_id : string; occurred_at : string; proposal_sequence : Z; audit_sequence : Z;
  stamp_traceparent : string; stamp_tracestate : option string
}.

Record NormalizationArtifacts : Set := {
  proposal : option StoredProposal; events : list StagedApplicationEvent; result_ : string
}.

Inductive NormalizationOutcome : Set := COMMITTED | DUPLICATE.

Record NormalizationResult : Set := { outcome : NormalizationOutcome; result_bytes : string }.

Record DirectDelivery : Set := { topic : string; payload : string; properties : members }.

Definition refuse {A} (r : NormalizationRefusal) : result normalization_failure A := Err (NormalizationError r).

(** ** Construction *)

(** [_bind_pending] *)
Definition bind_pending (r : AgentResponse) (p : StoredPendingInvocation) : result normalization_failure unit :=
  raise_if (negb (bool_decide (
    (Integration.mission_id r, Integration.agent_name r, Integration.invocation_id r, Integration.correlation_id r) =
    (StoreInvocations.mission_id p, StoreInvocations.agent_name p, StoreInvocations.invocation_id p,
     StoreInvocations.correlation_id p))))
    (NormalizationError IDENTITY_MISMATCH) ;;
  match candidate r with
  | None => Ok tt
  | Some c =>
      raise_if (negb (bool_decide (Integration.source_event_id c = StoreInvocations.source_event_id p)))
               (NormalizationError IDENTITY_MISMATCH) ;;
      raise_if (negb (bool_decide (Integration.source_event_digest c = StoreInvocations.source_event_digest p)))
               (NormalizationError DIGEST_MISMATCH)
  end.

Section construction.
Context `{N : Normalization} (limit : nat).

(** The payload of [_proposal_payload] before its digest is added. *)
Definition proposal_fields (c : AgentCandidate) (p : StoredPendingInvocation) (s : NormalizationStamp) : members :=
  document
    [("canonicalizationVersion", PyInt 1); ("proposalVersion", PyInt PROPOSAL_VERSION);
     ("missionId", PyStr (StoreInvocations.mission_id p)); ("proposalId", PyStr (stamp_proposal s));
     ("proposalType", PyStr (Integration.proposal_type c)); ("agentName", PyStr (StoreInvocations.agent_name p));
     ("sourceInvocationId", PyStr (StoreInvocations.invocation_id p));
     ("sourceEventId", PyStr (StoreInvocations.source_event_id p));
     ("sourceEventDigest", PyStr (StoreInvocations.source_event_digest p));
     ("commandType", PyStr (Integration.command_type c)); ("droneId", PyStr (Integration.drone_id c));
     ("latitudeMicrodegrees", PyInt (Integration.latitude_microdegrees c));
     ("longitudeMicrodegrees", PyInt (Integration.longitude_microdegrees c))].

(** [_proposal_payload] *)
Definition proposal_payload (r : AgentResponse) (p : StoredPendingInvocation) (s : NormalizationStamp)
    : result normalization_failure members :=
  c ← or_raise (candidate r) (NormalizationError RESPONSE_KIND);
  let fields := proposal_fields c p s in
  sealed ← map_err DigestFailure (Digest.proposal_digest fields);
  Ok (dict_set fields (KStr "proposalDigest") (PyStr sealed)).

(** [_audit_payload] *)
Definition normalization_audit (r : AgentResponse) (p : StoredPendingInvocation) (s : NormalizationStamp)
    (proposal : option members) : result normalization_failure members :=
  let common :=
    [("auditVersion", PyInt AUDIT_VERSION); ("missionId", PyStr (StoreInvocations.mission_id p));
     ("recordId", PyStr (audit_record_id s)); ("recordType", PyStr "proposal-normalization");
     ("agentName", PyStr (StoreInvocations.agent_name p));
     ("invocationId", PyStr (StoreInvocations.invocation_id p));
     ("correlationId", PyStr (StoreInvocations.correlation_id p));
     ("outcome", PyStr (match proposal with Some _ => "normalized" | None => "abstained" end))] in
  match proposal with
  | None =>
      why ← or_raise (reason r) (NormalizationError RESPONSE_KIND);
      Ok (document (common ++ [("reason", PyStr (reason_value why))])%list)
  | Some d =>
      Ok (document (common ++
        [("sourceEventId", PyStr (StoreInvocations.source_event_id p));
         ("sourceEventDigest", PyStr (StoreInvocations.source_event_digest p));
         ("proposalId", PyStr (stamp_proposal s)); ("proposalDigest", get d "proposalDigest");
         ("proposalVersion", PyInt PROPOSAL_VERSION)])%list)
  end.

(** The envelope document of one output event. *)
Definition event_document (p : StoredPendingInvocation) (s : NormalizationStamp) (spec : EventSpec)
    (kind schema sequence : string) : members :=
  document (
    [("specversion", PyStr "1.0"); ("id", PyStr (spec_event spec));
     ("source", PyStr ("urn:aerial-rescue:command-gateway:" ++ producer_id s)); ("type", PyStr kind);
     ("subject", PyStr (StoreInvocations.mission_id p)); ("time", PyStr (occurred_at s));
     ("datacontenttype", PyStr "application/json"); ("dataschema", PyStr schema);
     ("data", PyDict (spec_payload spec)); ("sequence", PyStr sequence);
     ("correlationid", PyStr (StoreInvocations.correlation_id p));
     ("causationid", PyStr (StoreInvocations.source_event_id p));
     ("traceparent", PyStr (stamp_traceparent s))]
    ++ match stamp_tracestate s with Some t => [("tracestate", PyStr t)] | None => [] end)%list.

(** [_event] *)
Definition event (p : StoredPendingInvocation) (s : NormalizationStamp) (spec : EventSpec)
    : result normalization_failure string :=
  sequence ← or_raise (sequence_text (spec_sequence spec)) (NormalizationError SEQUENCE);
  kind ← map_err BadTopic (event_type (spec_topic spec));
  binding ← map_err BadEnvelope (binding_for kind);
  let d := event_document p s spec kind (bound_schema binding) sequence in
  e ← map_err BadEnvelope (parse_envelope (PyDict d));
  map_err BadEnvelope (check_topic_binding e (spec_topic spec)) ;;
  map_err Uncanonical (canonical_bytes (PyDict d)).

(** [_staged] *)
Definition staged (payload : string) (f : Family) (t : Topic) : result normalization_failure StagedApplicationEvent :=
  e ← map_err BadEnvelope (decode_delivered limit payload);
  text ← map_err BadTopic (format_topic t);
  Ok {| StoreEvents.producer := PRODUCER; StoreEvents.event_id := Envelope.id e;
        StoreEvents.family := outbox_family f; StoreEvents.topic := text;
        StoreEvents.headers := EMPTY_HEADERS; StoreEvents.payload := payload;
        StoreEvents.traceparent := Envelope.traceparent e; StoreEvents.tracestate := Envelope.tracestate e;
        StoreEvents.correlation_id := Envelope.correlation_id e;
        StoreEvents.causation_id := Envelope.causation_id e; StoreEvents.staged_at := Envelope.time e |}.

(** [_stored_proposal] *)
Definition normalized_proposal (payload : members) (c : AgentCandidate) (e : StagedApplicationEvent)
    (p : StoredPendingInvocation) (s : NormalizationStamp) : result normalization_failure StoredProposal :=
  bytes ← map_err Uncanonical (canonical_bytes (PyDict payload));
  Ok {| StoreProposals.proposal_id := stamp_proposal s; StoreProposals.mission_id := StoreInvocations.mission_id p;
        StoreProposals.source_event_id := StoreInvocations.source_event_id p;
        StoreProposals.source_event_digest := StoreInvocations.source_event_digest p;
        StoreProposals.agent_name := StoreInvocations.agent_name p;
        StoreProposals.invocation_id := StoreInvocations.invocation_id p;
        StoreProposals.proposal_type := Integration.proposal_type c;
        StoreProposals.proposal_digest :=
          match get payload "proposalDigest" with PyStr sealed => sealed | _ => "" end;
        StoreProposals.payload := bytes; StoreProposals.drone_id := Integration.drone_id c;
        StoreProposals.latitude_microdegrees := Integration.latitude_microdegrees c;
        StoreProposals.longitude_microdegrees := Integration.longitude_microdegrees c;
        StoreProposals.command_type := Integration.command_type c;
        StoreProposals.issued_at := occurred_at s; StoreProposals.sequence := proposal_sequence s;
        StoreProposals.correlation_id := StoreInvocations.correlation_id p;
        StoreProposals.causation_id := StoreEvents.causation_id e;
        StoreProposals.traceparent := StoreEvents.traceparent e |}.

Definition proposal_topic (p : StoredPendingInvocation) : Topic := {|
  Topics.family := AGENT_PROPOSAL; Topics.mission_id := StoreInvocations.mission_id p;
  Topics.parameters := [("agentName", StoreInvocations.agent_name p); ("proposalType", PROPOSAL_TYPE)]
|}.

Definition normalization_topic (p : StoredPendingInvocation) : Topic := {|
  Topics.family := AUDIT; Topics.mission_id := StoreInvocations.mission_id p;
  Topics.parameters := [("recordType", "proposal-normalization")]
|}.

(** The proposal and its publication, for a candidate. *)
Definition build_proposal (r : AgentResponse) (p : StoredPendingInvocation) (s : NormalizationStamp)
    (payload : members) : result normalization_failure (StoredProposal * StagedApplicationEvent) :=
  bytes ← event p s {| spec_topic := proposal_topic p; spec_event := proposal_event_id s;
                       spec_sequence := proposal_sequence s; spec_payload := payload |};
  e ← staged bytes AGENT_PROPOSAL (proposal_topic p);
  c ← or_raise (candidate r) (NormalizationError RESPONSE_KIND);
  kept ← normalized_proposal payload c e p s;
  Ok (kept, e).

Definition build_normalization (r : AgentResponse) (p : StoredPendingInvocation) (s : NormalizationStamp)
    : result normalization_failure NormalizationArtifacts :=
  bind_pending r p ;;
  payload ← match Integration.outcome r with
            | CANDIDATE => d ← proposal_payload r p s; Ok (Some d)
            | ABSTAINED => Ok None
            end;
  built ← match payload with
          | Some d => b ← build_proposal r p s d; Ok (Some b)
          | None => Ok None
          end;
  body ← normalization_audit r p s payload;
  bytes ← event p s {| spec_topic := normalization_topic p; spec_event := audit_event_id s;
                       spec_sequence := audit_sequence s; spec_payload := body |};
  audit ← staged bytes AUDIT (normalization_topic p);
  Ok match built with
     | Some (kept, e) =>
         {| proposal := Some kept; events := [e; audit]; result_ := StoreEvents.payload e |}
     | None => {| proposal := None; events := [audit]; result_ := StoreEvents.payload audit |}
     end.
End construction.

(** ** The transport context *)

Definition INVOCATION_ID_PROPERTY : string := "aerial-rescue-agent-response-invocation-id".
Definition CORRELATION_ID_PROPERTY : string := "aerial-rescue-agent-response-correlation-id".
Definition MISSION_ID_PROPERTY : string := "aerial-rescue-agent-response-mission-id".
Definition SOURCE_EVENT_ID_PROPERTY : string := "aerial-rescue-agent-response-source-event-id".
Definition SOURCE_EVENT_DIGEST_PROPERTY : string := "aerial-rescue-agent-response-source-event-digest".
Definition AGENT_NAME_PROPERTY : string := "aerial-rescue-agent-response-agent-name".

Definition TRANSPORT_PROPERTIES : list string :=
  [INVOCATION_ID_PROPERTY; CORRELATION_ID_PROPERTY; MISSION_ID_PROPERTY; SOURCE_EVENT_ID_PROPERTY;
   SOURCE_EVENT_DIGEST_PROPERTY; AGENT_NAME_PROPERTY].

(** [_property] *)
Definition property (d : members) (name : string) (pattern : re) : result normalization_failure string :=
  match get d name with
  | PyStr s => if fullmatch pattern s then Ok s else refuse TRANSPORT_CONTEXT
  | _ => refuse TRANSPORT_CONTEXT
  end.

(** [_pending_context] *)
Definition pending_context (d : members) : result normalization_failure StoredPendingInvocation :=
  raise_if (negb (exactly TRANSPORT_PROPERTIES d)) (NormalizationError TRANSPORT_CONTEXT) ;;
  mission ← property d MISSION_ID_PROPERTY IDENTIFIER_PATTERN;
  agent ← property d AGENT_NAME_PROPERTY AGENT_NAME_PATTERN;
  invocation ← property d INVOCATION_ID_PROPERTY IDENTIFIER_PATTERN;
  correlation ← property d CORRELATION_ID_PROPERTY IDENTIFIER_PATTERN;
  event ← property d SOURCE_EVENT_ID_PROPERTY IDENTIFIER_PATTERN;
  digest ← property d SOURCE_EVENT_DIGEST_PROPERTY DIGEST_FORM;
  Ok {| StoreInvocations.invocation_id := invocation; StoreInvocations.mission_id := mission;
        StoreInvocations.agent_name := agent; StoreInvocations.correlation_id := correlation;
        StoreInvocations.source_event_id := event; StoreInvocations.source_event_digest := digest |}.

(** ** The handler *)

(** [except PendingInvocationError]: a refusal of the repository, not an error of its driver. *)
Definition invocation_failure (e : store_failure PendingInvocationRefusal) : normalization_failure :=
  match e with
  | Refused _ _ => NormalizationError TRANSPORT_CONTEXT_CONFLICT
  | e => InvocationFailure e
  end.

Section handler.
Context `{N : Normalization} `{M : PayloadModels} `{D : Database} (limit : nat).

(** The inbox identity of a response: its own bytes under its invocation. *)
Definition response_identity (r : AgentResponse) : result normalization_failure InboxIdentity :=
  bytes ← map_err Uncanonical (canonical_bytes (PyDict (agent_response_document r)));
  Ok {| StoreInbox.consumer := CONSUMER; StoreInbox.source := SOURCE;
        StoreInbox.event_id := Integration.invocation_id r;
        StoreInbox.mission_id := Integration.mission_id r;
        StoreInbox.canonical_digest := sha256_hex bytes |}.

(** [for event in artifacts.events: await transaction.stage(event)] *)
Fixpoint stage_all (es : list StagedApplicationEvent) : tx normalization_failure unit :=
  match es with
  | [] => mret tt
  | e :: es => lift EventFailure (StoreEvents.stage e) ;; stage_all es
  end.

(** The effects of a new response. *)
Definition commit_artifacts (id : InboxIdentity) (x : NormalizationArtifacts) (s : NormalizationStamp)
    : tx normalization_failure unit :=
  match proposal x with
  | Some p => lift ProposalFailure (StoreProposals.record p) ;; mret tt
  | None => mret tt
  end ;;
  stage_all (events x) ;;
  lift InboxFailure (complete id (result_ x) (occurred_at s)).

(** The body of the one transaction. *)
Definition normalize (r : AgentResponse) (id : InboxIdentity) (trusted : StoredPendingInvocation)
    (s : NormalizationStamp) : tx normalization_failure NormalizationResult :=
  lift invocation_failure (StoreInvocations.record trusted) ;;
  pending ← lift invocation_failure (StoreInvocations.load (StoreInvocations.invocation_id trusted));
  x ← pure (build_normalization limit r pending s);
  claimed ← lift InboxFailure (StoreInbox.claim id);
  match StoreInbox.decision claimed with
  | StoreInbox.DUPLICATE =>
      pure (prior ← or_raise (StoreInbox.prior claimed) (NormalizationError DUPLICATE_RESULT);
            Ok {| outcome := DUPLICATE; result_bytes := prior |})
  | StoreInbox.CLAIMED =>
      commit_artifacts id x s ;;
      mret {| outcome := COMMITTED; result_bytes := result_ x |}
  end.

Definition handle_agent_response (dl : DirectDelivery) (s : NormalizationStamp) (d : db)
    : result normalization_failure NormalizationResult * db :=
  match accept_ingress limit (payload dl) (PyStr (topic dl)) with
  | Err e => (Err (IngressFailure e), d)
  | Ok (AcceptedResponse i) =>
      match trusted ← pending_context (properties dl); id ← response_identity (response i); Ok (trusted, id) with
      | Err e => (Err e, d)
      | Ok (trusted, id) => transaction (normalize (response i) id trusted s) d
      end
  | Ok _ => (refuse RESPONSE_KIND, d)
  end.
End handler.
