(* ===== verification/Normalized.v ===== *)
(** * What normalization guarantees

    The theorems about [Normalization.handle_agent_response]: what one response may leave in the
    store, and that the proposal it stores is one that command authorization recognizes. *)

From S2P Require Import Prelude Authorization Progression PyStr Regex PyVal Canonical JsonBytes Digest Topics Envelope Integration Sql Schema StoreProposals StoreInvocations StoreEvents StoreInbox Ingress Artifacts Delivery GatewaySample Normalization.
Local Open Scope string_scope.
Local Open Scope Z_scope.

(** The response is the answer its invocation's trusted context expects. *)
Definition answers (r : AgentResponse) (p : StoredPendingInvocation) : Prop :=
  Integration.mission_id r = StoreInvocations.mission_id p ∧
  Integration.agent_name r = StoreInvocations.agent_name p ∧
  Integration.invocation_id r = StoreInvocations.invocation_id p ∧
  Integration.correlation_id r = StoreInvocations.correlation_id p ∧
  ∀ c, Integration.candidate r = Some c →
    Integration.source_event_id c = StoreInvocations.source_event_id p ∧
    Integration.source_event_digest c = StoreInvocations.source_event_digest p.

Lemma bind_pending_Ok r p : bind_pending r p = Ok tt → answers r p.
Proof.
  unfold bind_pending, answers. intros Hb. run_ok. bools. simplify_eq.
  do 4 (split; [done|]). intros c Hc. rewrite Hc in *. run_ok. by bools.
Qed.

Section effects.
Context `{N : Normalization} `{D : Database} (limit : nat).

Lemma invocation_record_durable p : effect durable (StoreInvocations.record p).
Proof. eapply effect_durable; [apply invocation_record_effect|apply invocation_record_confined|by_decide..]. Qed.

Lemma invocation_load_durable p : effect durable (StoreInvocations.load p).
Proof. apply effect_unchanged_durable, invocation_load_effect. Qed.

Lemma proposal_record_durable p : effect durable (StoreProposals.record p).
Proof. eapply effect_durable; [apply proposal_record_effect|apply proposal_record_confined|by_decide..]. Qed.

Lemma stage_all_durable es : effect durable (stage_all es).
Proof. induction es as [|e es IH]; cbn [stage_all]; effects. Qed.

Lemma normalize_durable r id trusted s : effect durable (normalize limit r id trusted s).
Proof.
  pose proof invocation_record_durable. pose proof invocation_load_durable.
  pose proof proposal_record_durable. pose proof stage_all_durable. unfold normalize, commit_artifacts. effects.
Qed.

(** Every event of a list is appended, in order. *)
Lemma stage_all_Ok es u d d' :
  consistent d → stage_all es d = Ok (u, d') →
  replaces d APPLICATION_OUTBOX (rows d APPLICATION_OUTBOX ++ (event_row <$> es))%list d'.
Proof.
  revert d. induction es as [|e es IH]; intros d Hd Hs; cbn [stage_all] in Hs.
  - apply tx_ret_Ok in Hs as [_ <-]. cbn. rewrite app_nil_r. intros t. by case_decide; subst.
  - apply tx_bind_Ok in Hs as (?&d1&H1&Hs). apply lift_Ok in H1.
    pose proof (stage_event_effect _ _ _ _ H1 Hd) as Hd1. apply stage_event_Ok in H1 as [_ H1]; [|done].
    apply IH in Hs; [|done]. intros t. rewrite (Hs t). destruct (decide _) as [->|Ht].
    + rewrite (replaces_target _ _ _ _ H1). cbn. by rewrite <- app_assoc.
    + by rewrite (H1 t), decide_False.
Qed.
End effects.

(** ** One response *)

Section responses.
Context `{N : Normalization} `{M : PayloadModels} `{D : Database} (limit : nat).

(** The tables normalization may write. *)
Definition NORMALIZED : list Table := [PENDING_INVOCATION; BROKER_INBOX; PROPOSAL; APPLICATION_OUTBOX].

(** What a committed response leaves. *)
Definition normalized (r : AgentResponse) (p : StoredPendingInvocation) (s : NormalizationStamp)
    (result : string) (d d' : db) : Prop :=
  ∃ x, build_normalization limit r p s = Ok x ∧ result = result_ x ∧
    rows d' APPLICATION_OUTBOX = (rows d APPLICATION_OUTBOX ++ (event_row <$> events x))%list ∧
    match proposal x with
    | Some kept => keeps d' kept
    | None => rows d' PROPOSAL = rows d PROPOSAL
    end.

Lemma keeps_same `{Fact A R} d d' (a : A) : rows d' fact_table = rows d fact_table → keeps d a → keeps d' a.
Proof. intros Hr. unfold keeps, fact_entry, found. by rewrite Hr. Qed.

(** The context just recorded is the one loaded. *)
Lemma pending_loaded p d o d1 q d2 :
  consistent d → StoreInvocations.record p d = Ok (o, d1) →
  StoreInvocations.load (StoreInvocations.invocation_id p) d1 = Ok (q, d2) → q = p ∧ keeps d1 p ∧ d2 ≡ d1.
Proof.
  intros Hd Hr Hl. rewrite invocation_record_is_fact in Hr. run_tx. subst.
  match goal with H : record_fact _ _ _ _ = Ok _ |- _ => apply record_fact_keeps in H as [Hk _]; [|done] end.
  rewrite invocation_load_is_fact in Hl. apply load_fact_Ok in Hl as (Hs&r&Hr&Hq).
  split; [|done]. destruct Hk as (r'&Hr'&Hp). cbn in *. rewrite Hr in Hr'. injection Hr' as <-. congruence.
Qed.

Lemma commit_artifacts_Ok id x s u d d' :
  consistent d → commit_artifacts id x s d = Ok (u, d') →
  completed d' id (result_ x) ∧ confined [BROKER_INBOX; PROPOSAL; APPLICATION_OUTBOX] d d' ∧
  rows d' APPLICATION_OUTBOX = (rows d APPLICATION_OUTBOX ++ (event_row <$> events x))%list ∧
  match proposal x with
  | Some kept => keeps d' kept
  | None => rows d' PROPOSAL = rows d PROPOSAL
  end.
Proof.
  intros Hd Hn. unfold commit_artifacts in Hn. apply tx_bind_Ok in Hn as (u1&d1&Hp&Hn).
  apply tx_bind_Ok in Hn as (u2&d2&Hst&Hn). apply lift_Ok in Hn.
  assert (Hp1 : consistent d1 ∧ confined [PROPOSAL] d d1 ∧ match proposal x with
            | Some kept => keeps d1 kept | None => rows d1 PROPOSAL = rows d PROPOSAL end).
  { destruct (proposal x) as [kept|].
    - apply tx_bind_Ok in Hp as (?&d1'&Hp&Hret). apply lift_Ok in Hp. apply tx_ret_Ok in Hret as [_ ->].
      split; [by eapply proposal_record_effect|]. split; [by eapply proposal_record_confined|].
      by eapply proposal_record_keeps.
    - apply tx_ret_Ok in Hp as [_ ->]. by split_and!. }
  destruct Hp1 as (Hd1&Hc1&Hk). pose proof (stage_all_durable _ _ _ _ Hst Hd1) as (Hd2&_&_).
  apply stage_all_Ok in Hst; [|done]. pose proof (complete_confined _ _ _ _ _ _ Hn) as Hc3.
  assert (Hprop : rows d' PROPOSAL = rows d1 PROPOSAL) by (by rewrite (Hc3 PROPOSAL), (Hst PROPOSAL) by by_decide).
  split; [by eapply complete_completed|]. split_and!.
  - etransitivity; [eapply confined_sub; [exact Hc1|done]|].
    etransitivity; [|eapply confined_sub; [exact Hc3|done]].
    intros t Ht. rewrite (Hst t), decide_False; [done|]. intros ->. apply Ht. by_decide.
  - rewrite (Hc3 APPLICATION_OUTBOX), (replaces_target _ _ _ _ Hst), (Hc1 APPLICATION_OUTBOX) by by_decide. done.
  - destruct (proposal x); [by eapply keeps_same|by rewrite Hprop].
Qed.

Lemma normalize_Ok r id trusted s d o d' :
  consistent d → normalize limit r id trusted s d = Ok (o, d') →
  answers r trusted ∧ keeps d' trusted ∧ confined NORMALIZED d d' ∧ completed d' id (result_bytes o) ∧
  match outcome o with
  | COMMITTED => normalized r trusted s (result_bytes o) d d'
  | DUPLICATE => rows d' PROPOSAL = rows d PROPOSAL ∧ rows d' APPLICATION_OUTBOX = rows d APPLICATION_OUTBOX
  end.
Proof.
  intros Hd Hn. pose proof invocation_record_durable. pose proof invocation_load_durable.
  unfold normalize in Hn. apply tx_bind_Ok in Hn as (dec&d1&Hrec&Hn). apply lift_Ok in Hrec.
  apply tx_bind_Ok in Hn as (pending&d2&Hload&Hn). apply lift_Ok in Hload.
  destruct (pending_loaded _ _ _ _ _ _ Hd Hrec Hload) as (->&Hkeep&Hs).
  pose proof (invocation_record_confined _ _ _ _ Hrec) as Hc1.
  assert (Hd2 : consistent d2).
  { intros t. rewrite (Hs t). by apply (invocation_record_effect _ _ _ _ Hrec). }
  assert (Hc2 : confined [PENDING_INVOCATION] d d2) by (intros t Ht; rewrite (Hs t); by apply Hc1).
  assert (Hkeep2 : keeps d2 trusted) by (eapply keeps_same; [apply Hs|done]).
  apply tx_bind_Ok in Hn as (x&d3&Hx&Hn). apply pure_Ok in Hx as [Hx ->].
  assert (Hans : answers r trusted).
  { pose proof Hx as Hx'. unfold build_normalization in Hx'. apply bind_Ok in Hx' as ([]&Hb&_). by apply bind_pending_Ok. }
  split; [done|]. apply tx_bind_Ok in Hn as (claimed&d3&Hcl&Hn). apply lift_Ok in Hcl.
  pose proof (claim_confined _ _ _ _ Hcl) as Hc3. pose proof (claim_durable _ _ _ _ Hcl Hd2) as (Hd3&_&_).
  assert (Hpi : rows d3 PENDING_INVOCATION = rows d2 PENDING_INVOCATION) by (apply Hc3; by_decide).
  apply claim_Ok in Hcl; [|done]. destruct (StoreInbox.entry d2 id).
  - destruct Hcl as (Hs3&res&->&Hres). cbn [StoreInbox.decision StoreInbox.prior or_raise mbind result_bind] in Hn.
    apply pure_Ok in Hn as [[= <-] ->]. cbn [result_bytes outcome].
    split; [by eapply keeps_same|]. split.
    { etransitivity; [by eapply confined_sub|]. intros t _. apply Hs3. }
    split; [eapply completed_proper; [symmetry; exact Hs3|exact Hres]|].
    by rewrite !(Hs3 _), !Hc2 by by_decide.
  - destruct Hcl as [-> _]. cbn [StoreInbox.decision] in Hn.
    apply tx_bind_Ok in Hn as (u&d4&Hcom&Hn). apply tx_ret_Ok in Hn as [<- <-]. cbn [result_bytes outcome].
    apply commit_artifacts_Ok in Hcom as (Hcompl&Hc4&Hout&Hprop); [|done].
    split. { eapply keeps_same; [|exact Hkeep2]. cbn. by rewrite (Hc4 PENDING_INVOCATION) by by_decide. }
    split. { etransitivity; [eapply confined_sub; [exact Hc2|done]|].
             etransitivity; eapply confined_sub; [exact Hc3|done|exact Hc4|done]. }
    split; [done|]. exists x. split; [done|]. split; [done|].
    rewrite Hout, (Hc3 APPLICATION_OUTBOX), (Hc2 APPLICATION_OUTBOX) by by_decide. split; [done|].
    destruct (proposal x); [done|]. by rewrite Hprop, (Hc3 PROPOSAL), (Hc2 PROPOSAL) by by_decide.
Qed.

(** The payload with the digest that seals it. *)
Definition sealed_fields (c : AgentCandidate) (p : StoredPendingInvocation) (s : NormalizationStamp)
    (sealed : string) : members :=
  dict_set (proposal_fields c p s) (KStr "proposalDigest") (PyStr sealed).

(** The proposal's own fields: the candidate's, under the gateway's identities. *)
Definition proposal_of (c : AgentCandidate) (p : StoredPendingInvocation) (s : NormalizationStamp)
    (kept : StoredProposal) : Prop :=
  StoreProposals.proposal_id kept = stamp_proposal s ∧
  StoreProposals.mission_id kept = StoreInvocations.mission_id p ∧
  StoreProposals.agent_name kept = StoreInvocations.agent_name p ∧
  StoreProposals.invocation_id kept = StoreInvocations.invocation_id p ∧
  StoreProposals.source_event_id kept = StoreInvocations.source_event_id p ∧
  StoreProposals.source_event_digest kept = StoreInvocations.source_event_digest p ∧
  StoreProposals.proposal_type kept = Integration.proposal_type c ∧
  StoreProposals.command_type kept = Integration.command_type c ∧
  StoreProposals.drone_id kept = Integration.drone_id c ∧
  StoreProposals.latitude_microdegrees kept = Integration.latitude_microdegrees c ∧
  StoreProposals.longitude_microdegrees kept = Integration.longitude_microdegrees c ∧
  Digest.proposal_digest (proposal_fields c p s) = Ok (StoreProposals.proposal_digest kept) ∧
  canonical_bytes (PyDict (sealed_fields c p s (StoreProposals.proposal_digest kept))) =
    Ok (StoreProposals.payload kept).

(** What an event is: its producer, family, destination and bytes. *)
Definition event_on (f : Family) (t : Topic) (e : StagedApplicationEvent) : Prop :=
  StoreEvents.producer e = PRODUCER ∧ StoreEvents.family e = outbox_family f ∧
  format_topic t = Ok (StoreEvents.topic e).

(** A candidate becomes a proposal, its publication and an audit event; an abstention an audit
    event alone.  The response chooses no destination. *)
Definition artifacts_of (r : AgentResponse) (p : StoredPendingInvocation) (s : NormalizationStamp)
    (x : NormalizationArtifacts) : Prop :=
  ∃ audit, event_on AUDIT (normalization_topic p) audit ∧
  match Integration.outcome r with
  | CANDIDATE => ∃ c kept e, Integration.candidate r = Some c ∧ proposal_of c p s kept ∧
      event_on AGENT_PROPOSAL (proposal_topic p) e ∧
      proposal x = Some kept ∧ events x = [e; audit] ∧ result_ x = StoreEvents.payload e
  | ABSTAINED => proposal x = None ∧ events x = [audit] ∧ result_ x = StoreEvents.payload audit
  end.

Lemma staged_Ok bytes f t e :
  staged limit bytes f t = Ok e → event_on f t e ∧ StoreEvents.payload e = bytes.
Proof. unfold staged. intros He. run_ok. by subst. Qed.

Lemma proposal_payload_Ok r p s d :
  proposal_payload r p s = Ok d →
  ∃ c sealed, Integration.candidate r = Some c ∧ Digest.proposal_digest (proposal_fields c p s) = Ok sealed ∧
    d = sealed_fields c p s sealed.
Proof.
  unfold proposal_payload. intros Hp. apply bind_Ok in Hp as (c&Hc&Hp). apply or_raise_Ok in Hc.
  apply bind_Ok in Hp as (sealed&Hs&Hp). apply map_err_Ok in Hs. injection Hp as <-. eauto.
Qed.

Lemma build_proposal_Ok r p s c sealed kept e :
  Integration.candidate r = Some c → Digest.proposal_digest (proposal_fields c p s) = Ok sealed →
  build_proposal limit r p s (sealed_fields c p s sealed) = Ok (kept, e) →
  proposal_of c p s kept ∧ event_on AGENT_PROPOSAL (proposal_topic p) e.
Proof.
  intros Hc Hsealed Hb. unfold build_proposal in Hb. apply bind_Ok in Hb as (bytes&_&Hb).
  apply bind_Ok in Hb as (e'&He&Hb). apply staged_Ok in He as [He _]. rewrite Hc in Hb. cbn [or_raise mbind result_bind] in Hb.
  apply bind_Ok in Hb as (kept'&Hk&Hb). injection Hb as <- <-. split; [|done].
  unfold normalized_proposal in Hk. apply bind_Ok in Hk as (payload&Hpay&Hk). apply map_err_Ok in Hpay.
  injection Hk as <-. unfold proposal_of.
  replace (get (sealed_fields c p s sealed) "proposalDigest") with (PyStr sealed) by done.
  cbn -[Digest.proposal_digest canonical_bytes proposal_fields dict_set]. by split_and!.
Qed.

Lemma build_normalization_Ok r p s x : build_normalization limit r p s = Ok x → artifacts_of r p s x.
Proof.
  unfold build_normalization, artifacts_of. intros Hb.
  apply bind_Ok in Hb as ([]&_&Hb). apply bind_Ok in Hb as (body&Hbody&Hb).
  apply bind_Ok in Hb as (built&Hbuilt&Hb). apply bind_Ok in Hb as (audit_body&_&Hb).
  apply bind_Ok in Hb as (bytes&_&Hb). apply bind_Ok in Hb as (audit&Haudit&Hb).
  apply staged_Ok in Haudit as [Haudit _]. exists audit. split; [done|]. injection Hb as <-.
  destruct (Integration.outcome r).
  - apply bind_Ok in Hbody as (d&Hd&[= <-]). apply bind_Ok in Hbuilt as ([kept e]&Hbuilt&[= <-]).
    apply proposal_payload_Ok in Hd as (c&sealed&Hc&Hs&->).
    destruct (build_proposal_Ok _ _ _ _ _ _ _ Hc Hs Hbuilt). by exists c, kept, e.
  - injection Hbody as <-. by injection Hbuilt as <-.
Qed.
(** A handler that returns has run its one transaction; one that fails left the store alone. *)
Lemma handle_agent_response_run dl s d o d' :
  handle_agent_response limit dl s d = (o, d') →
  match o with
  | Err _ => d' = d
  | Ok r => ∃ i trusted id,
      accept_ingress limit (payload dl) (PyStr (topic dl)) = Ok (AcceptedResponse i) ∧
      pending_context (properties dl) = Ok trusted ∧ response_identity (response i) = Ok id ∧
      normalize limit (response i) id trusted s d = Ok (r, d')
  end.
Proof.
  unfold handle_agent_response. intros Hr. destruct (accept_ingress _ _ _) as [[]|] eqn:Hi; try by injection Hr as <- <-.
  match type of Hr with context [mbind ?f ?m] => destruct (mbind f m) as [[trusted id]|] eqn:Hc end;
    [|by injection Hr as <- <-].
  apply bind_Ok in Hc as (trusted'&Ht&Hc). apply bind_Ok in Hc as (id'&Hid&[= -> ->]).
  destruct o as [r|e]; [|by apply transaction_Err in Hr as [_ ->]]. apply transaction_Ok in Hr.
  by exists i, trusted, id.
Qed.

(** C18: one agent response leaves the store exactly what normalization may, errors included: a
    response of another mission, agent, invocation, correlation, source event or source digest
    than its transport context leaves the store alone, and so does every other refusal, which
    therefore stages none of the refused audit records ADR-0146 and ADR-0148 describe; a
    committed response writes its trusted context, its inbox result and its artifacts, a candidate
    one stored proposal with its publication and an audit event and an abstention an audit event
    alone, all under the gateway's own identities and destinations; a duplicate stages nothing.
    No command, approval or binding is touched. *)
Theorem normalization_exact (dl : DirectDelivery) (s : NormalizationStamp) (d d' : db)
    (o : result normalization_failure NormalizationResult)
    (Hd : consistent d) (Hr : handle_agent_response limit dl s d = (o, d')) :
  match o with
  | Err _ => d' = d
  | Ok r => ∃ i trusted id,
      accept_ingress limit (payload dl) (PyStr (topic dl)) = Ok (AcceptedResponse i) ∧
      pending_context (properties dl) = Ok trusted ∧ response_identity (response i) = Ok id ∧
      answers (response i) trusted ∧ keeps d' trusted ∧ completed d' id (result_bytes r) ∧
      confined NORMALIZED d d' ∧
      match outcome r with
      | COMMITTED => ∃ x, artifacts_of (response i) trusted s x ∧ result_bytes r = result_ x ∧
          rows d' APPLICATION_OUTBOX = (rows d APPLICATION_OUTBOX ++ (event_row <$> events x))%list ∧
          match proposal x with
          | Some kept => keeps d' kept
          | None => rows d' PROPOSAL = rows d PROPOSAL
          end
      | DUPLICATE => rows d' PROPOSAL = rows d PROPOSAL ∧ rows d' APPLICATION_OUTBOX = rows d APPLICATION_OUTBOX
      end
  end.
Proof.
  apply handle_agent_response_run in Hr. destruct o as [r|e]; [|done].
  destruct Hr as (i&trusted&id&Hi&Ht&Hid&Hn). apply normalize_Ok in Hn as (Ha&Hk&Hconf&Hcomp&Hout); [|done].
  exists i, trusted, id. do 7 (split; [done|]). destruct (outcome r); [|done].
  destruct Hout as (x&Hx&Hres&Hrows&Hprop). exists x. split; [by eapply build_normalization_Ok|]. done.
Qed.
End responses.

(** ** A response of the coordinator *)

#[local] Existing Instance ascii_normalization.
#[local] Existing Instance strict_models.
#[local] Existing Instance memory.

Definition rescue_response : AgentResponse := {|
  Integration.mission_id := "mission-1"; Integration.agent_name := "Coordinator";
  Integration.invocation_id := "invocation-1"; Integration.correlation_id := "trace-1";
  Integration.outcome := CANDIDATE;
  Integration.candidate := Some {|
    Integration.proposal_type := "candidate-location"; Integration.command_type := "escalate-rescue";
    Integration.drone_id := "drone-1"; Integration.latitude_microdegrees := 1;
    Integration.longitude_microdegrees := 2; Integration.source_event_id := "event-0";
    Integration.source_event_digest := some_digest |};
  reason := None
|}.

Definition rescue_context : members := document
  [(INVOCATION_ID_PROPERTY, PyStr "invocation-1"); (CORRELATION_ID_PROPERTY, PyStr "trace-1");
   (MISSION_ID_PROPERTY, PyStr "mission-1"); (SOURCE_EVENT_ID_PROPERTY, PyStr "event-0");
   (SOURCE_EVENT_DIGEST_PROPERTY, PyStr some_digest); (AGENT_NAME_PROPERTY, PyStr "Coordinator")].

Definition response_delivery : DirectDelivery := Eval vm_compute in {|
  topic := "aerial-rescue/v1/mission-1/agent/response/Coordinator";
  payload := wire (agent_response_document rescue_response); properties := rescue_context
|}.

Definition stamped : NormalizationStamp := {|
  producer_id := "gateway-1"; stamp_proposal := "proposal-1"; proposal_event_id := "event-1";
  audit_record_id := "record-1"; audit_event_id := "event-2"; occurred_at := "2026-07-28T09:00:00.000Z";
  proposal_sequence := 1; audit_sequence := 1; stamp_traceparent := trace; stamp_tracestate := None
|}.

Definition empty_store : db := [].
Abbreviation response_run := (handle_agent_response DIGITS response_delivery stamped empty_store).

Definition response_result : NormalizationResult :=
  Eval vm_compute in default {| outcome := DUPLICATE; result_bytes := "" |} (ok_value response_run.1).
Definition response_store : db := Eval vm_compute in response_run.2.

Lemma normalization_exact_witness :
  outcome response_result = COMMITTED ∧
  ∃ i trusted x, answers (response i) trusted ∧ keeps response_store trusted ∧
    artifacts_of (response i) trusted stamped x ∧
    rows response_store APPLICATION_OUTBOX = event_row <$> events x.
Proof.
  assert (Hr : response_run = (Ok response_result, response_store)) by (vm_compute; reflexivity).
  destruct (normalization_exact DIGITS response_delivery stamped empty_store response_store (Ok response_result)
    memory_empty Hr) as (i&trusted&id&_&_&_&Ha&Hk&_&_&x&Hx&_&Hrows&_).
  split; [reflexivity|]. exists i, trusted, x. exact (conj Ha (conj Hk (conj Hx Hrows))).
Defined.

(** ** A normalized proposal is one that authorization recognizes

    [normalization.py] writes a proposal and, in another transaction and possibly another process,
    [authorization.py] reads it back, decodes its bytes and compares every member, the canonical
    form and the digest.  The two share no code: this file composes them. *)

(** Every member of a valid candidate's proposal is an integer or an ASCII text. *)

Lemma agent_name_ascii s : fullmatch AGENT_NAME_PATTERN s = true → str_all is_ascii s = true.
Proof. apply fullmatch_all. intros c. cbn. destruct c as [[] [] [] [] [] [] [] []]; by vm_compute. Qed.

Lemma digest_ascii s : fullmatch Integration.DIGEST_PATTERN s = true → str_all is_ascii s = true.
Proof. apply fullmatch_all. intros c. cbn. destruct c as [[] [] [] [] [] [] [] []]; by vm_compute. Qed.

Section recognized.
Context `{N : Normalization} (limit : nat).

(** The members of a proposal and of a sealed one, by name. *)
Definition proposal_members (c : AgentCandidate) (p : StoredPendingInvocation) (s : NormalizationStamp)
    : list (string * pyval) :=
  [("canonicalizationVersion", PyInt 1); ("proposalVersion", PyInt PROPOSAL_VERSION);
   ("missionId", PyStr (StoreInvocations.mission_id p)); ("proposalId", PyStr (stamp_proposal s));
   ("proposalType", PyStr (Integration.proposal_type c)); ("agentName", PyStr (StoreInvocations.agent_name p));
   ("sourceInvocationId", PyStr (StoreInvocations.invocation_id p));
   ("sourceEventId", PyStr (StoreInvocations.source_event_id p));
   ("sourceEventDigest", PyStr (StoreInvocations.source_event_digest p));
   ("commandType", PyStr (Integration.command_type c)); ("droneId", PyStr (Integration.drone_id c));
   ("latitudeMicrodegrees", PyInt (Integration.latitude_microdegrees c));
   ("longitudeMicrodegrees", PyInt (Integration.longitude_microdegrees c))].

Definition sealed_members c p s (sealed : string) : list (string * pyval) :=
  (proposal_members c p s ++ [("proposalDigest", PyStr sealed)])%list.

Lemma sealed_fields_members c p s sealed : sealed_fields c p s sealed = document (sealed_members c p s sealed).
Proof. done. Qed.

Lemma proposal_members_plain r p s c :
  valid_response r → Integration.candidate r = Some c → answers r p → str_all is_ascii (stamp_proposal s) = true →
  Forall (λ m, plain m.2 = true) (proposal_members c p s).
Proof.
  intros (Hm&Hn&Hi&_&Hb) Hc (Hm'&Hn'&Hi'&_&Hs) Hs'. unfold valid_branches in Hb. rewrite Hc in Hb.
  destruct (Integration.outcome r), (Integration.reason r); try done. destruct (Hs c Hc) as [He Hd].
  destruct Hb as (Ht&Hco&Hev&Hdi&Hdr&_&_). rewrite Hn' in Hn. rewrite Hi' in Hi. rewrite Hm' in Hm.
  rewrite He in Hev. rewrite Hd in Hdi. unfold proposal_members. rewrite Ht, Hco.
  repeat (apply Forall_cons; split); try exact eq_refl; try apply Forall_nil; cbn [plain snd];
    eauto using identifier_ascii, agent_name_ascii, digest_ascii.
Qed.

Lemma members_distinct c p s sealed :
  NoDup (proposal_members c p s).*1 ∧ NoDup (sealed_members c p s sealed).*1.
Proof. split; cbn; by_decide. Qed.

(** The document a reader of the stored bytes finds. *)
Definition received c p s sealed : members := document (sort_members (sealed_members c p s sealed)).

(** Its digest covers the members without the digest, whose order does not matter. *)
Lemma received_digest c p s h :
  Forall (λ m, plain m.2 = true) (proposal_members c p s) →
  Digest.proposal_digest (proposal_fields c p s) = Ok h →
  proposal_digest_matches (received c p s h) = Ok true.
Proof.
  intros Hp Hh. assert (Hc : Digest.proposal_digest (received c p s h) = Ok h).
  { unfold Digest.proposal_digest in *.
    change (covered_members (PyDict (proposal_fields c p s)) PROPOSAL_DIGEST_FIELD)
      with (Ok (E := digest_failure) (document (proposal_members c p s))) in Hh.
    change (covered_members (PyDict (received c p s h)) PROPOSAL_DIGEST_FIELD)
      with (Ok (E := digest_failure) (document (sort_members (proposal_members c p s)))).
    cbn [mbind result_bind] in *. apply digest_covered_Ok in Hh as (b&Hb&->). apply digest_covered_Ok.
    exists b. split; [|done]. destruct (members_distinct c p s ""%string).
    by eapply (decode_bytes_plain 1); [..|exact Hb]; [done..|lia]. }
  unfold proposal_digest_matches. rewrite Hc. cbn [mbind result_bind].
  change (get (received c p s h) PROPOSAL_DIGEST_FIELD) with (PyStr h). apply matches_self.
  unfold Digest.proposal_digest in Hh. apply bind_Ok in Hh as (d&_&Hd). by eapply digest_covered_ascii.
Qed.

(** The stored bytes decode to that document, with the same canonical form. *)
Lemma received_bytes c p s h bytes :
  Forall (λ m, plain m.2 = true) (proposal_members c p s) → str_all is_ascii h = true → (0 < limit)%nat →
  canonical_bytes (PyDict (sealed_fields c p s h)) = Ok bytes →
  canonical_object limit bytes = Some (received c p s h) ∧
  canonical_bytes (PyDict (received c p s h)) = Ok bytes.
Proof.
  intros Hp Hh Hl Hb. rewrite sealed_fields_members in Hb. destruct (members_distinct c p s h).
  destruct (decode_bytes_plain limit (sealed_members c p s h) bytes) as [Hd Hc]; try done.
  { apply Forall_app. split; [done|]. apply Forall_singleton. exact Hh. }
  split; [|done]. unfold canonical_object. by rewrite Hd.
Qed.

Lemma received_members c p s h :
  exactly PROPOSAL_KEYS (received c p s h) = true ∧
  Forall (λ m, get (received c p s h) m.1 = m.2) (sealed_members c p s h).
Proof. split; [reflexivity|]. repeat (apply Forall_cons; split); try apply Forall_nil; reflexivity. Qed.

(** The action names the stored proposal, in the version the gateway issues. *)
Definition names (a : EscalateRescueAction) (kept : StoredProposal) : Prop :=
  Ingress.proposal_id a = StoreProposals.proposal_id kept ∧
  Ingress.proposal_digest a = StoreProposals.proposal_digest kept ∧
  Ingress.proposal_version a = PROPOSAL_VERSION ∧
  Ingress.drone_id a = StoreProposals.drone_id kept ∧
  Ingress.latitude_microdegrees a = StoreProposals.latitude_microdegrees kept ∧
  Ingress.longitude_microdegrees a = StoreProposals.longitude_microdegrees kept.

Lemma proposal_of_matches c p s kept a :
  Forall (λ m, plain m.2 = true) (proposal_members c p s) → (0 < limit)%nat →
  Integration.command_type c = "escalate-rescue" → proposal_of c p s kept → names a kept →
  ∃ fields, canonical_object limit (StoreProposals.payload kept) = Some fields ∧
    proposal_matches kept a fields = Ok true.
Proof.
  intros Hp Hl Hct (H1&H2&H3&H4&H5&H6&H7&H8&H9&H10&H11&Hd&Hb) (N1&N2&N3&N4&N5&N6).
  exists (received c p s (StoreProposals.proposal_digest kept)).
  pose proof (received_digest c p s _ Hp Hd) as Hm.
  assert (Hh : str_all is_ascii (StoreProposals.proposal_digest kept) = true).
  { unfold Digest.proposal_digest in Hd. apply bind_Ok in Hd as (d&_&Hd). by eapply digest_covered_ascii. }
  destruct (received_bytes c p s _ _ Hp Hh Hl Hb) as [Hco Hcb]. split; [done|].
  destruct (received_members c p s (StoreProposals.proposal_digest kept)) as [Hk Hg].
  unfold proposal_matches, text_is, int_is. rewrite Hm, Hcb, Hk.
  repeat (apply Forall_cons in Hg as [Hx Hg]; cbn [fst snd] in Hx; rewrite ?Hx; clear Hx).
  rewrite N1, N2, N3, N4, N5, N6, H1, H2, H3, H4, H5, H6, H7, H8, H9, H10, H11, Hct.
  cbn [py_eq map_err mbind result_bind and_then].
  by rewrite ?Z.eqb_refl, ?(bool_decide_true (_ = _)) by done.
Qed.
Context `{M : PayloadModels} `{D : Database}.

Lemma accepted_response_valid raw text i :
  accept_ingress limit raw text = Ok (AcceptedResponse i) → valid_response (response i).
Proof. intros (t&_&_&_&(v&_&Hv)&_)%accept_ingress_from. by eapply parse_agent_response_valid. Qed.

(** C19: what normalization stores, command authorization recognizes.  Once a candidate of an
    accepted response is committed, its proposal is in the store under the gateway's identity and
    passes every comparison the authorization of a rescue makes of it, in the bytes it was stored
    in: they decode to an object of exactly the proposal's members, whose canonical form is those
    bytes and whose digest verifies, for every action that names the proposal. *)
Theorem normalized_proposal_recognized (dl : DirectDelivery) (s : NormalizationStamp) (d d' : db)
    (r : NormalizationResult) (i : AgentResponseIngress)
    (Hl : (0 < limit)%nat) (Hs : str_all is_ascii (stamp_proposal s) = true) (Hd : consistent d)
    (Hr : handle_agent_response limit dl s d = (Ok r, d')) (Hc : Normalization.outcome r = COMMITTED)
    (Hi : accept_ingress limit (payload dl) (PyStr (topic dl)) = Ok (AcceptedResponse i))
    (Ho : Integration.outcome (response i) = CANDIDATE) :
  ∃ kept, keeps d' kept ∧ StoreProposals.proposal_id kept = stamp_proposal s ∧
    ∀ a, names a kept →
      ∃ fields, canonical_object limit (StoreProposals.payload kept) = Some fields ∧
        proposal_matches kept a fields = Ok true.
Proof.
  apply handle_agent_response_run in Hr as (i'&trusted&id&Hi'&_&_&Hn). rewrite Hi in Hi'. injection Hi' as <-.
  apply accepted_response_valid in Hi. apply normalize_Ok in Hn as (Ha&_&_&_&Hn); [|done]. rewrite Hc in Hn.
  destruct Hn as (x&Hx&_&_&Hk). apply build_normalization_Ok in Hx as (audit&_&Hx). rewrite Ho in Hx.
  destruct Hx as (c&kept&e&Hcand&Hp&_&Hpx&_). rewrite Hpx in Hk. exists kept. split; [done|]. split; [by apply Hp|].
  intros a Hnames. eapply proposal_of_matches; [by eapply proposal_members_plain|done| |done|done].
  destruct Hi as (_&_&_&_&Hb). unfold valid_branches in Hb. rewrite Ho, Hcand in Hb.
  destruct (Integration.reason _); [done|]. apply Hb.
Qed.
End recognized.

#[local] Existing Instance ascii_normalization.
#[local] Existing Instance strict_models.
#[local] Existing Instance memory.

Definition response_ingress : AgentResponseIngress := Eval vm_compute in
  match accept_ingress DIGITS (payload response_delivery) (PyStr (topic response_delivery)) with
  | Ok (AcceptedResponse i) => i
  | _ => {| response_topic := sample_topic; response := rescue_response |}
  end.

Lemma normalized_proposal_recognized_witness :
  Integration.outcome (response response_ingress) = CANDIDATE ∧
  ∃ kept, keeps response_store kept ∧
    (names {| Ingress.drone_id := "drone-1"; Ingress.proposal_id := "proposal-1";
              Ingress.proposal_digest := rescue_digest; Ingress.proposal_version := 1;
              Ingress.evidence_decision_id := "decision-1"; Ingress.evidence_decision_digest := evidence_digest;
              Ingress.evidence_decision_version := 1; Ingress.latitude_microdegrees := 1;
              Ingress.longitude_microdegrees := 2 |} kept →
     ∃ fields, canonical_object DIGITS (StoreProposals.payload kept) = Some fields).
Proof.
  assert (Hr : response_run = (Ok response_result, response_store)) by (vm_compute; reflexivity).
  assert (Hi : accept_ingress DIGITS (payload response_delivery) (PyStr (topic response_delivery)) =
               Ok (AcceptedResponse response_ingress)) by (vm_compute; reflexivity).
  assert (Hl : (0 < DIGITS)%nat) by (apply Nat.ltb_lt; vm_compute; reflexivity).
  destruct (normalized_proposal_recognized DIGITS response_delivery stamped empty_store response_store
    response_result response_ingress Hl eq_refl memory_empty Hr eq_refl Hi eq_refl) as (kept&Hk&_&Hm).
  split; [reflexivity|]. exists kept. split; [exact Hk|]. intros Hn.
  destruct (Hm _ Hn) as (fields&Hf&_). exists fields. exact Hf.
Defined.
