(* ===== verification/Footprint.v ===== *)
(** * The tables each handler may change

    [authorize_command], the two deduplicated handlers, [handle_agent_response] and the refusal
    recorder each stay within a list of tables, on every branch. *)

From stdpp Require Import sets strings.
From S2P Require Import Prelude PyStr PyVal Canonical Sql Schema StoreProposals StoreInvocations StoreEvents StoreProgress StoreBindings StoreEvidence StoreRefusals StoreInbox StoreClaims StoreOutbox StoreApprovals StoreAudit Ingress Delivery Authorization Authorized ApprovalIngress Progression Normalization Normalized Envelope Artifacts GatewaySample.
Local Open Scope string_scope.
Local Open Scope Z_scope.

Definition COMMAND_TABLES : list Table :=
  [BROKER_INBOX; IDEMPOTENCY_CLAIM; APPROVAL; AUDIT_SEQUENCE; AUDIT_RECORD; APPLICATION_OUTBOX; COMMAND_OUTBOX;
   COMMAND_PROGRESS].
Definition APPROVAL_TABLES : list Table := [BROKER_INBOX; APPROVAL_BINDING].
Definition RESULT_TABLES : list Table := [BROKER_INBOX; COMMAND_PROGRESS].

Section footprint.
Context `{N : Normalization} `{M : PayloadModels} `{D : Database} `{P : SettlementPort} (limit : nat).

Lemma confined_in ts ts' d d' : confined ts d d' → (∀ t, t ∈ ts → t ∈ ts') → confined ts' d d'.
Proof. intros Hc Hs t Ht. apply Hc. auto. Qed.

Lemma effect_unchanged_confined {E A} ts (m : tx E A) : effect unchanged m → effect (confined ts) m.
Proof. intros Hm d a d' Hd t _. by eapply Hm. Qed.

Ltac within l := eapply effect_confined_into; [apply l|reflexivity].

Lemma claim_within ts id : BROKER_INBOX ∈ ts → effect (confined ts) (StoreInbox.claim id).
Proof. intros Hi. eapply effect_confined_into; [apply StoreInbox.claim_confined|]. cbn. by rewrite bool_decide_eq_true_2. Qed.
Lemma complete_within ts id r at_ : BROKER_INBOX ∈ ts → effect (confined ts) (StoreInbox.complete id r at_).
Proof. intros Hi. eapply effect_confined_into; [apply complete_confined|]. cbn. by rewrite bool_decide_eq_true_2. Qed.

Lemma persist_decision_confined id i s v : effect (confined COMMAND_TABLES) (persist_decision limit id i s v).
Proof.
  assert (∀ b, effect (confined COMMAND_TABLES) (persist b)) by (unfold persist; effects; within persist_confined).
  assert (∀ r, effect (confined COMMAND_TABLES) (append r)) by (intros; within append_confined).
  assert (∀ e, effect (confined COMMAND_TABLES) (StoreEvents.stage e)) by (intros; within stage_event_confined).
  assert (∀ c, effect (confined COMMAND_TABLES) (StoreOutbox.stage c)) by (intros; within stage_confined).
  assert (∀ q at_, effect (confined COMMAND_TABLES) (initialize q at_)) by (intros; within initialize_confined).
  assert (∀ k r, effect (confined COMMAND_TABLES) (record_result k r)) by (intros; within record_result_confined).
  assert (∀ r at_, effect (confined COMMAND_TABLES) (StoreInbox.complete id r at_)) by (intros; apply complete_within; by_decide).
  unfold persist_decision. effects.
Qed.

Lemma authorize_command_confined s now id i : effect (confined COMMAND_TABLES) (authorize_command limit s now id i).
Proof.
  assert (effect (confined COMMAND_TABLES) (StoreInbox.claim id)) by (apply claim_within; by_decide).
  assert (∀ c, effect (confined COMMAND_TABLES) (StoreClaims.claim c)) by (intros; within command_claim_confined).
  assert (∀ r at_, effect (confined COMMAND_TABLES) (StoreInbox.complete id r at_)) by (intros; apply complete_within; by_decide).
  assert (∀ a, effect (confined COMMAND_TABLES) (authorize_escalation limit i a now))
    by (intros; apply effect_unchanged_confined, authorize_escalation_unchanged).
  pose proof persist_decision_confined. unfold authorize_command, process_claimed. effects.
Qed.

Lemma deduplicated_confined {E R} ts (failed : store_failure InboxRefusal → E) lost again id (work : tx E R) :
  BROKER_INBOX ∈ ts → effect (confined ts) work →
  effect (confined ts) (deduplicated failed lost again id work).
Proof. intros Hs Hw. pose proof (claim_within ts id Hs). unfold deduplicated. effects. Qed.

Lemma approval_confined now id i : effect (confined APPROVAL_TABLES) (body (operator_approval_handler limit now) id i).
Proof.
  apply deduplicated_confined; [by_decide|].
  assert (∀ r at_, effect (confined APPROVAL_TABLES) (StoreInbox.complete id r at_)) by (intros; apply complete_within; by_decide).
  assert (∀ k a, effect (confined APPROVAL_TABLES) (bind_authority k a)) by (intros; within bind_confined).
  assert (∀ k, effect (confined APPROVAL_TABLES) (load_by_approval k))
    by (intros; apply effect_unchanged_confined, by_approval_unchanged).
  assert (∀ k, effect (confined APPROVAL_TABLES) (load_for_update k))
    by (intros; apply effect_unchanged_confined, load_for_update_unchanged).
  unfold verify_and_complete, verify_new_claim, load_binding. effects.
Qed.

Lemma result_confined id i : effect (confined RESULT_TABLES) (body (command_result_handler limit) id i).
Proof.
  apply deduplicated_confined; [by_decide|].
  assert (∀ r at_, effect (confined RESULT_TABLES) (StoreInbox.complete id r at_)) by (intros; apply complete_within; by_decide).
  assert (∀ k, effect (confined RESULT_TABLES) (StoreProgress.load k))
    by (intros; apply effect_unchanged_confined, progress_load_effect).
  assert (∀ c, effect (confined RESULT_TABLES) (apply_result i c)) by (intros; within apply_result_confined).
  unfold apply_and_complete. effects.
Qed.

Lemma normalize_confined r id trusted s : effect (confined NORMALIZED) (normalize limit r id trusted s).
Proof.
  assert (effect (confined NORMALIZED) (StoreInbox.claim id)) by (apply claim_within; by_decide).
  assert (∀ b at_, effect (confined NORMALIZED) (StoreInbox.complete id b at_)) by (intros; apply complete_within; by_decide).
  assert (∀ q, effect (confined NORMALIZED) (StoreInvocations.record q)) by (intros; within invocation_record_confined).
  assert (∀ k, effect (confined NORMALIZED) (StoreInvocations.load k))
    by (intros; apply effect_unchanged_confined, invocation_load_effect).
  assert (∀ q, effect (confined NORMALIZED) (StoreProposals.record q)) by (intros; within proposal_record_confined).
  assert (∀ e, effect (confined NORMALIZED) (StoreEvents.stage e)) by (intros; within stage_event_confined).
  assert (∀ es, effect (confined NORMALIZED) (stage_all es)) by (induction es; cbn [stage_all]; effects).
  unfold normalize, commit_artifacts. effects.
Qed.

(** ** The transactions around them *)

Lemma record_candidate_confined observed c d : confined [BROKER_REFUSAL] d (record_candidate observed c d).2.
Proof.
  unfold record_candidate. destruct (transaction _ d) as [[f|e] d'] eqn:Ht.
  - apply transaction_Ok in Ht. by eapply record_refusal_confined.
  - by apply transaction_Err in Ht as [_ ->].
Qed.

(** A relation kept by the body and by a recorded refusal is kept by the delivery. *)
Lemma handled_keeps (Q : relation db) `{!Reflexive Q} {I E R} (h : guaranteed I E R) dl observed d :
  (∀ c, Q d (record_candidate observed c d).2) → (∀ id i, effect Q (body h id i)) →
  Q d (Delivery.store (handle limit h dl observed d)).
Proof.
  intros Hc Hb.
  assert (Hrej : ∀ ch code (e : delivery_failure E),
    Q d (Delivery.store (reject_after_refusal (A := R) limit dl ch code observed e d))).
  { intros ch code e. unfold reject_after_refusal. destruct (candidate limit dl ch code) as [c|n]; [|done].
    pose proof (Hc c) as Hr. by destruct (record_candidate observed c d) as [[f|x] d']. }
  unfold handle. destruct (accept_ingress _ _ _) as [x|[r|n]]; [|apply Hrej|done].
  destruct (selected h x) as [i|]; [|apply Hrej]. destruct (identity h i) as [id|e]; [|done].
  destruct (transaction _ d) as [[r|e] d'] eqn:Ht.
  - apply transaction_Ok in Ht. by eapply Hb.
  - by apply transaction_Err in Ht as [_ ->].
Qed.

Lemma handled_confined {I E R} ts (h : guaranteed I E R) dl observed d :
  (∀ id i, effect (confined ts) (body h id i)) →
  confined (BROKER_REFUSAL :: ts) d (Delivery.store (handle limit h dl observed d)).
Proof.
  intros Hb. apply handled_keeps; [by intros d1 t|..].
  - intros c. eapply (confined_in [BROKER_REFUSAL]); [apply record_candidate_confined|].
    intros t. rewrite !elem_of_cons, elem_of_nil. tauto.
  - intros id i d1 r d2 Hr. eapply confined_in; [by eapply Hb|]. intros t Hin. by right.
Qed.

Lemma response_confined dl s d : confined NORMALIZED d (handle_agent_response limit dl s d).2.
Proof.
  unfold handle_agent_response. destruct (accept_ingress _ _ _) as [[]|]; try done.
  destruct (mbind _ _) as [[trusted id]|]; [|done]. destruct (transaction _ d) as [[a|e] d'] eqn:Ht.
  - apply transaction_Ok in Ht. by eapply normalize_confined.
  - by apply transaction_Err in Ht as [_ ->].
Qed.
End footprint.

(** ** Redelivered messages

    A broker delivers a guaranteed message again whenever it was not told of its settlement.
    The theorem holds for every handler that is [Delivery.ReplaySafe]; the operator commands,
    the operator approvals and the command results are. *)

Section redelivery.
Context `{N : Normalization} `{M : PayloadModels} `{D : Database} `{P : SettlementPort} (limit : nat).
Context {A I E R : Type} (h : A → guaranteed I E R) (replay : R → R) `{!ReplaySafe limit h replay}.

(** C15: a redelivered message is answered from the store.  Once a delivery was accepted, the same
    delivery handled again at any later store, with any later clock and identities, commits
    without changing a row, is accepted again under the same event id, and returns the result of
    the first run marked as a duplicate. *)
Theorem redelivery_replays (a b : A) (dl : GuaranteedDelivery) (observed observed' e : string)
    (d later : db) (Hd : consistent d) :
  let first := handle limit (h a) dl observed d in
  let again := handle limit (h b) dl observed' later in
  settlements first = [Accept e] → durable (store first) later → (∀ id, serves id later) →
  store again ≡ later ∧ settlements again = [Accept e] ∧
  (settle (Accept e) = None → ∃ r, returned first = Ok r ∧ returned again = Ok (replay r)).
Proof.
  intros first again. subst first again. unfold handle.
  destruct (accept_ingress _ _ _) as [x|[r|n]] eqn:Hx; [| |done].
  2: { unfold reject_after_refusal. destruct (candidate _ _ _ _); [|done].
       by destruct (record_candidate _ _ _) as [[]]. }
  rewrite (replay_selected (h := h) b a). destruct (selected (h a) x) as [i|] eqn:Hsel.
  2: { unfold reject_after_refusal. destruct (candidate _ _ _ _); [|done].
       by destruct (record_candidate _ _ _) as [[]]. }
  rewrite (replay_identity (h := h) b a), (replay_envelope (h := h) b a).
  destruct (identity (h a) i) as [id|?]; [|done].
  destruct (transaction _ d) as [[r|?] d'] eqn:Ht; [|done]. apply transaction_Ok in Ht.
  cbn [settlements store settling returned]. intros He Hl Hs. injection He as <-.
  assert (Hi : taken limit (h a) i) by (by eexists _, _, _).
  destruct (body_replays a b id i d r d' later Hi Hd Ht Hl (Hs id)) as (d3&Hb&H3).
  unfold transaction. rewrite Hb. cbn [settlements store settling returned].
  split; [done|]. split; [done|]. intros ->. by exists r.
Qed.
End redelivery.

#[local] Existing Instance ascii_normalization.
#[local] Existing Instance strict_models.
#[local] Existing Instance memory.
#[local] Existing Instance settling_port.

Abbreviation delivered at_ d :=
  (handle DIGITS (operator_command_handler DIGITS at_ half_minute) first_escalation observed_at d).

Lemma redelivery_replays_witness :
  ∃ r, returned (delivered (stamp 1) ready) = Ok r ∧
       returned (delivered (stamp 2) (store (delivered (stamp 1) ready))) = Ok (duplicate_of r).
Proof.
  refine (proj2 (proj2 (redelivery_replays DIGITS
    (λ p, operator_command_handler DIGITS p.1 p.2) duplicate_of (stamp 1, half_minute) (stamp 2, half_minute)
    first_escalation observed_at observed_at "event-1" ready _ ready_consistent _ _ _)) eq_refl).
  - vm_compute. reflexivity.
  - exact (PreOrder_Reflexive (R := durable) _).
  - split; [reflexivity | intros d'; reflexivity].
Defined.
