(* ===== verification/Service.v ===== *)
(** * The command gateway service

    [services/command_gateway/src/aerial_rescue_command_gateway/service.py]: typed dispatch of one
    input, recovery of both outboxes, and the fair serving loop; with [native_trace_candidate] of
    [refusal.py] and the receiver metadata of [packages/broker/src/aerial_rescue_broker/messaging.py].

    What the process does not decide is a [Surroundings]: identities, clocks, the inputs a receiver
    hands over and the callbacks the client library makes from its own threads.  Each is read at
    a [tick], and the callbacks of a tick are applied before the reading, so that they may land
    between any two steps of the service.  [serve_application] takes the number of turns it may
    make; one that makes them all is still serving. *)

From stdpp Require Import gmap sets strings sorting.
From S2P Require Import Prelude PyStr PyVal Canonical JsonBytes Topics Envelope Sql Schema Digest StoreRefusals Outbox StoreOutbox StoreEvents Principals Subscriptions Dispatch Ingress Routing Queues BrokerLink Exchange Artifacts Delivery Authorization Publication ApprovalIngress Progression Normalization Instant.
Local Open Scope string_scope.
Local Open Scope Z_scope.

Definition TRACE_SAMPLED : string := "01".
Definition TRACE_VERSION : string := "00".
Definition TRACE_PARENT_DIGITS : nat := 16.
Definition NATIVE_TRACE_REFUSED : string := "native-trace-refused".

Inductive DirectDispatchOutcome : Set := REQUEST_REPLIED | RESPONSE_NORMALIZED | DIRECT_REFUSED.
Inductive GuaranteedDispatchOutcome : Set := COMMITTED | REFUSED.
Inductive ServiceExit : Set := STOPPED | BROKER_EXHAUSTED.

#[export] Instance GuaranteedDispatchOutcome_eq_dec : EqDecision GuaranteedDispatchOutcome.
Proof. solve_decision. Defined.

(** Body-free context of one invalid delivery. *)
Record UnsettledMessageMetadata : Set := {
  meta_source : option string; meta_family : option string; meta_digest : string
}.

(** What a receiver hands over: nothing, a message, one whose native trace it refused, or another
    refusal of its own. *)
Inductive arrival : Set :=
| Idle
| Message (m : InboundMessage)
| TraceRefused (m : InboundMessage)
| Broken (r : MessagingRefusal).

(** One call on the settlement of one message. *)
Record settled_message : Set := { on_channel : string; message : InboundMessage; asked : settlement }.

Class Surroundings := {
  identifier_at : nat → string;
  wall_clock_at : nat → datetime;
  authority_at : nat → AuthorizationClock;
  observed_at : nat → string;
  running_at : nat → bool;
  arriving_at : nat → string → arrival;
  callbacks_at : nat → list callback
}.

(** Everything that leaves the serving loop as an exception. *)
Inductive service_failure `{SettlementPort} : Type :=
| LookupEscape (name : string)
| ClockEscape (e : InstantError datetime)
| ReceiveEscape (r : MessagingRefusal)
| ExchangeEscape (e : exchange_failure)
| ResponseEscape (e : normalization_failure)
| CommandEscape (e : delivery_failure authorization_failure)
| ApprovalEscape (e : delivery_failure approval_ingress_failure)
| ResultEscape (e : delivery_failure progression_failure)
| RefusalEscape (e : store_failure BrokerRefusalRefusal)
| SettlementEscape (e : port_error)
| PublicationEscape (e : publication_failure).

Section service.
Context `{N : Normalization} `{M : PayloadModels} `{D : Database} `{B : Broker} `{P : SettlementPort}.
Context `{Env : Surroundings} (limit : nat).

Record gateway : Type := {
  world_ : world; link : BrokerLifecycle; sequence : Z; tick : nat; settled : list settled_message
}.

Abbreviation serving := (acting gateway service_failure).

Definition with_world (w : world) (g : gateway) : gateway :=
  {| world_ := w; link := link g; sequence := sequence g; tick := tick g; settled := settled g |}.
Definition with_link (l : BrokerLifecycle) (g : gateway) : gateway :=
  {| world_ := world_ g; link := l; sequence := sequence g; tick := tick g; settled := settled g |}.
Definition with_sequence (s : Z) (g : gateway) : gateway :=
  {| world_ := world_ g; link := link g; sequence := s; tick := tick g; settled := settled g |}.

(** The next moment: the callbacks made since the last one take the lifecycle's lock. *)
Definition elapsed (g : gateway) : gateway :=
  {| world_ := world_ g; link := foldl step (link g) (callbacks_at (tick g)); sequence := sequence g;
     tick := S (tick g); settled := settled g |}.

Definition consult {A} (f : nat → A) : serving A := λ g, (Ok (f (tick g)), elapsed g).
Definition look {A} (f : BrokerLifecycle → A) : serving A := λ g, (Ok (f (link (elapsed g))), elapsed g).
Definition touch (f : BrokerLifecycle → BrokerLifecycle) : serving unit := λ g,
  (Ok tt, with_link (f (link (elapsed g))) (elapsed g)).

(** ** Calls of the parts *)

Definition published {A} (m : acting world publication_failure A) : serving A := λ g,
  let (r, w) := m (world_ g) in (map_err PublicationEscape r, with_world w g).

Definition on_wire {A} (m : wired exchange_failure A) : serving A := λ g,
  let (r, log) := m (said (world_ g)) in
  (map_err ExchangeEscape r, with_world {| Publication.store := Publication.store (world_ g); said := log |} g).

Definition on_store {E A} (h : E → service_failure) (m : db → result E A * db) : serving A := λ g,
  let (r, d) := m (Publication.store (world_ g)) in
  (map_err h r, with_world {| Publication.store := d; said := said (world_ g) |} g).

(** A guaranteed handler over its message-bound settlement. *)
Definition delivered {E A} (name : string) (msg : InboundMessage) (h : delivery_failure E → service_failure) (m : db → Delivery.outcome E A)
    : serving A := λ g,
  let o := m (Publication.store (world_ g)) in
  (map_err h (returned o),
   {| world_ := {| Publication.store := Delivery.store o; said := said (world_ g) |}; link := link g;
      sequence := sequence g; tick := tick g; settled := settled g ++ ((λ s, {| on_channel := name; message := msg; asked := s |}) <$> settlements o) |}%list).

(** An [except] clause: what the handled failures return. *)
Definition excepting {A} (handled : service_failure → option A) (m : serving A) : serving A := λ g,
  match m g with
  | (Err e, g') => (match handled e with Some a => Ok a | None => Err e end, g')
  | out => out
  end.

(** ** [CountingStamps] *)

Definition next_sequence : serving Z := λ g, (Ok (sequence g), with_sequence (sequence g + 1) g).
Definition identifiers : serving string := consult identifier_at.
Definition instant : serving string := now ← consult wall_clock_at; calm (map_err ClockEscape (format_instant now)).

(** [_traceparent] *)
Definition traceparent : serving string :=
  trace ← identifiers; parent ← identifiers;
  mret (join "-" [TRACE_VERSION; trace; substring 0 TRACE_PARENT_DIGITS parent; TRACE_SAMPLED]).

Definition next_stamp : serving RecordStamp :=
  event ← identifiers; now ← instant; n ← next_sequence; trace ← traceparent;
  mret {| Exchange.event_id := event; Exchange.occurred_at := now; stamp_sequence := n;
          Exchange.stamp_traceparent := trace |}.

Definition next_authorization : serving AuthorizationStamp :=
  event ← identifiers; record ← identifiers; audit ← identifiers; now ← instant;
  n ← next_sequence; n' ← next_sequence; trace ← traceparent;
  mret {| Artifacts.producer_id := CONSUMER; command_event_id := event; Artifacts.audit_record_id := record;
          Artifacts.audit_event_id := audit; Artifacts.occurred_at := now; command_sequence := n;
          Artifacts.audit_sequence := n'; Artifacts.stamp_traceparent := trace; Artifacts.stamp_tracestate := None |}.

Definition next_normalization : serving NormalizationStamp :=
  proposal ← identifiers; event ← identifiers; record ← identifiers; audit ← identifiers; now ← instant;
  n ← next_sequence; n' ← next_sequence; trace ← traceparent;
  mret {| producer_id := CONSUMER; stamp_proposal := proposal; proposal_event_id := event; audit_record_id := record;
          audit_event_id := audit; occurred_at := now; proposal_sequence := n; audit_sequence := n';
          stamp_traceparent := trace; stamp_tracestate := None |}.

(** ** Dispatch of one input *)

Definition text_keys (d : members) : bool :=
  forallb (λ kv : pykey * pyval, match kv.1 with KStr _ => true | KOther _ => false end) d.

(** [_direct_parts] *)
Definition direct_parts (m : InboundMessage) : option (string * string * members) :=
  match destination_name m, inbound_payload m, user_properties m with
  | Some topic, Some payload, PyDict d => if text_keys d then Some (topic, payload, d) else None
  | _, _, _ => None
  end.

Definition response_refused (e : service_failure) : option DirectDispatchOutcome :=
  match e with
  | ResponseEscape (IngressFailure (IngressError _)) | ResponseEscape (NormalizationError _) => Some DIRECT_REFUSED
  | _ => None
  end.

Definition dispatch_direct (r : DeliveryRouter) (m : InboundMessage) : serving DirectDispatchOutcome :=
  match direct_parts m with
  | None => mret DIRECT_REFUSED
  | Some (topic, payload, properties) =>
      match parse_topic (PyStr topic) with
      | Err e => match topic_lookup e with Some n => calm (Err (LookupEscape n)) | None => mret DIRECT_REFUSED end
      | Ok t =>
          if bool_decide (Topics.family t = GATEWAY_REQUEST) then
            s ← next_stamp;
            exchange ← on_wire (handle_message limit (publish limit r) m s);
            mret (if bool_decide (Exchange.outcome exchange = REPLIED) then REQUEST_REPLIED else DIRECT_REFUSED)
          else if bool_decide (Topics.family t = AGENT_RESPONSE) then
            excepting response_refused (
              s ← next_normalization;
              on_store ResponseEscape (handle_agent_response limit
                {| Normalization.topic := topic; Normalization.payload := payload;
                   Normalization.properties := properties |} s) ;;
              mret RESPONSE_NORMALIZED)
          else mret DIRECT_REFUSED
      end
  end.

(** [_guaranteed_delivery]: empty texts for the members a message does not have. *)
Definition guaranteed_delivery (m : InboundMessage) : Delivery.GuaranteedDelivery :=
  {| Delivery.topic := default "" (destination_name m); Delivery.payload := default "" (inbound_payload m) |}.

(** The four refusals [dispatch_guaranteed] catches. *)
Definition contained {E} (own : E → bool) (e : delivery_failure E) : bool :=
  match e with Raised e => own e | Refusal (IngressError _) => true | _ => false end.
Definition authorization_own (e : authorization_failure) : bool :=
  match e with AuthorizationError _ => true | _ => false end.
Definition approval_own (e : approval_ingress_failure) : bool :=
  match e with ApprovalIngressError _ => true | _ => false end.
Definition progression_own (e : progression_failure) : bool :=
  match e with ProgressionError _ => true | _ => false end.

Definition delivery_refused (e : service_failure) : option GuaranteedDispatchOutcome :=
  let caught :=
    match e with
    | CommandEscape e => contained authorization_own e
    | ApprovalEscape e => contained approval_own e
    | ResultEscape e => contained progression_own e
    | _ => false
    end in
  if caught then Some REFUSED else None.

Definition dispatch_guaranteed (name : string) (m : InboundMessage) (now : AuthorizationClock)
    : serving GuaranteedDispatchOutcome :=
  let dl := guaranteed_delivery m in
  excepting delivery_refused (
    if bool_decide (name = literal_suffix OPERATOR_COMMAND) then
      s ← next_authorization; observed ← consult observed_at;
      delivered name m CommandEscape (handle_operator_command limit dl s now observed) ;; mret COMMITTED
    else if bool_decide (name = literal_suffix OPERATOR_APPROVAL) then
      observed ← consult observed_at;
      delivered name m ApprovalEscape (handle_operator_approval limit dl now observed) ;; mret COMMITTED
    else if bool_decide (name = literal_suffix DRONE_COMMAND_RESULT) then
      observed ← consult observed_at;
      delivered name m ResultEscape (handle_command_result limit dl observed) ;; mret COMMITTED
    else mret REFUSED).

(** [gateway_bindings]: the queue of each channel the gateway consumes, and its subscriptions. *)
Definition gateway_queues : result queue_failure (list (string * string)) :=
  map_ok (λ f, q ← family_queue_name COMMAND_GATEWAY f; Ok (literal_suffix f, q)) (guaranteed_grants COMMAND_GATEWAY).
Definition gateway_subscriptions : list string := subscription_for <$> [GATEWAY_REQUEST; AGENT_RESPONSE].

(** [receiver_names] of the session bound to them. *)
Definition receiver_names (queues : list (string * string)) : list string := merge_sort String.le queues.*1.

(** ** Recovery *)

Definition is_connected (l : BrokerLifecycle) : bool :=
  bool_decide (BrokerLink.state l = CONNECTED) || bool_decide (BrokerLink.state l = RECOVERY_PENDING).

Definition uncertain (r : PublicationReport) : bool := negb ((ambiguous r =? 0)%nat && (refused r =? 0)%nat).

(** [_drain_application] *)
Definition drain_application (r : DeliveryRouter) : serving bool :=
  now ← consult observed_at;
  report ← published (publish_application_batch limit r now);
  if uncertain (publications report) || negb (visited report =? 0)%nat then mret false else
  left_ ← published (committed (EventOutboxFailure ∘ StoreEvents.Store) (reconciliation APPLICATION_PRODUCER));
  mret (bool_decide (left_ = [])).

(** [_drain_commands] *)
Definition drain_commands : serving bool :=
  now ← consult observed_at;
  report ← published (publish_batch limit now);
  if uncertain report || negb (confirmed report =? 0)%nat then mret false else
  left_ ← published (committed (CommandOutboxFailure ∘ StoreOutbox.Store)
                       (StoreOutbox.pending RECONCILIATION_NEEDED COMMAND_PUBLICATION_BATCH_SIZE));
  mret (bool_decide (left_ = [])).

Definition recover_application (r : DeliveryRouter) : serving bool :=
  touch recovery_required ;;
  connected ← look is_connected;
  if negb connected then mret false else
  application_ready ← drain_application r;
  commands_ready ← if application_ready : bool then drain_commands else mret false;
  if negb commands_ready then mret false else
  touch mark_ready ;;
  look is_ready.

(** [_restore_readiness] *)
Definition restore_readiness (r : DeliveryRouter) : serving bool :=
  connected ← look is_connected;
  (if connected : bool then recover_application r ;; mret tt else mret tt) ;;
  look is_ready.

(** ** Serving *)

(** [_publish_connected] *)
Definition publish_connected (r : DeliveryRouter) : serving bool :=
  now ← consult observed_at;
  report ← published (publish_application_batch limit r now);
  now' ← consult observed_at;
  commands ← published (publish_batch limit now');
  let ready := negb (uncertain (publications report)) && negb (uncertain commands) in
  (if ready then mret tt else touch recovery_required) ;;
  mret ready.

(** [_unsettled_metadata] *)
Definition unsettled_metadata (m : InboundMessage) : result string UnsettledMessageMetadata :=
  family ← match destination_name m with
           | Some t => suppressed topic_lookup (parse_topic (PyStr t))
           | None => Ok None
           end;
  let payload := default "" (inbound_payload m) in
  envelope ← suppressed envelope_lookup (decode_delivered limit payload);
  Ok {| meta_source := Envelope.source <$> envelope;
        meta_family := (λ t, literal_suffix (Topics.family t)) <$> family; meta_digest := sha256_hex payload |}.

Definition native_trace_candidate (m : UnsettledMessageMetadata) (name : string) : BrokerRefusalCandidate := {|
  cand_consumer := CONSUMER; cand_source := meta_source m; cand_family := meta_family m; cand_channel := name;
  cand_refusal_code := NATIVE_TRACE_REFUSED; cand_raw_digest := meta_digest m |}.

Definition refuse_trace (name : string) (m : InboundMessage) : serving unit :=
  metadata ← calm (map_err LookupEscape (unsettled_metadata m));
  observed ← consult observed_at;
  on_store RefusalEscape (record_candidate observed (native_trace_candidate metadata name)) ;;
  mret tt.

(** [error.settlement.reject()] *)
Definition reject_native (name : string) (msg : InboundMessage) : serving unit := λ g,
  (match settle Reject with Some e => Err (SettlementEscape e) | None => Ok tt end,
   {| world_ := world_ g; link := link g; sequence := sequence g; tick := tick g;
      settled := settled g ++ [{| on_channel := name; message := msg; asked := Reject |}] |}%list).

Definition DIRECT : string := "direct".

(** [_dispatch_channel] *)
Definition dispatch_channel (r : DeliveryRouter) (name : string) : serving unit :=
  got ← consult (λ t, arriving_at t name);
  match got with
  | Idle => mret tt
  | Broken e => calm (Err (ReceiveEscape e))
  | TraceRefused m =>
      refuse_trace name m ;;
      if bool_decide (name = DIRECT) then mret tt else reject_native name m
  | Message m =>
      if bool_decide (name = DIRECT) then dispatch_direct r m ;; mret tt
      else now ← consult authority_at; dispatch_guaranteed name m now ;; mret tt
  end.

(** The channels from the first one on, around the ring. *)
Definition rotation (first : nat) (channels : list string) : list string :=
  (λ offset, default "" (channels !! ((first + offset) mod length channels)%nat)) <$> seq 0 (length channels).

Fixpoint in_turn {A} (f : A → serving unit) (l : list A) : serving unit :=
  match l with [] => mret tt | a :: l => f a ;; in_turn f l end.

Definition channels_of (queues : list (string * string)) : list string := DIRECT :: receiver_names queues.

(** One connected turn: every channel once, then one publication batch of each outbox. *)
Definition turn (r : DeliveryRouter) (queues : list (string * string)) (first : nat) : serving unit :=
  in_turn (dispatch_channel r) (rotation first (channels_of queues)) ;;
  publish_connected r ;;
  mret tt.

(** The guards at the head of the loop. *)
Definition leaving : serving (option ServiceExit) :=
  state ← look BrokerLink.state;
  match state with
  | EXHAUSTED => mret (Some BROKER_EXHAUSTED)
  | CLOSED => mret (Some STOPPED)
  | _ => running ← consult running_at; mret (if running : bool then None else Some STOPPED)
  end.

(** [None] is a service that is still running after all its turns. *)
Fixpoint serve_application (turns : nat) (r : DeliveryRouter) (queues : list (string * string)) (first : nat)
    : serving (option ServiceExit) :=
  match turns with
  | O => mret None
  | S turns =>
      exit ← leaving;
      match exit with
      | Some e => mret (Some e)
      | None =>
          ready ← look is_ready;
          ready ← if ready : bool then mret true else restore_readiness r;
          if negb ready then serve_application turns r queues first else
          turn r queues first ;;
          serve_application turns r queues ((first + 1) mod length (channels_of queues))%nat
      end
  end.
End service.
