(* ===== verification/Served.v ===== *)
(** * What every run of the gateway service keeps

    A step of [Service.v] is a call of one part.  [World] lifts what the parts promise of the
    store and the wire to every run of the serving loop, whatever the surroundings answer; the
    theorems are its instances, and the ones on recovery and on the refusals a dispatch contains. *)

From stdpp Require Import gmap sets strings sorting.
From S2P Require Import Prelude PyStr PyVal Canonical JsonBytes Topics Envelope Lifecycle Outbox Sql Schema StoreProposals Digest StoreRefusals StoreOutbox StoreEvents StoreInbox StoreApprovals Principals Ingress Routing BrokerLink Exchange Artifacts Delivery Authorization Authorized Publication Published Drained ApprovalIngress Progression Normalization Normalized Footprint GatewaySample Queues Service Instant.
Local Open Scope string_scope.
Local Open Scope Z_scope.

(** ** A gateway over the sample store

    One rescue escalation of [GatewaySample.v] arrives on its queue; the broker confirms and no
    callback comes. *)

#[export] Existing Instance ascii_normalization.
#[export] Existing Instance strict_models.
#[export] Existing Instance memory.
#[export] Existing Instance settling_port.
#[export] Existing Instance confirming.

Definition COMMAND_CHANNEL : string := literal_suffix OPERATOR_COMMAND.
Definition command_message : InboundMessage := {|
  inbound_payload := Some (Delivery.payload first_escalation);
  destination_name := Some (Delivery.topic first_escalation); user_properties := PyDict [] |}.

(** The queues of the gateway, and its link once every receiver is bound. *)
Definition queues : list (string * string) := Eval vm_compute in default [] (ok_value gateway_queues).
Definition bound : list callback :=
  Connected :: ((ReceiverRegistered <$> queues.*1) ++ ((λ q, ReceiverActive q None) <$> queues.*1))%list.

(** The message is there to be taken at one tick. *)
Definition surroundings (at_ : nat) : Surroundings := {|
  identifier_at := λ n, "a" ++ zero_padded 31 (Z.of_nat n);
  wall_clock_at := λ _, {| year := 2026; month := 7; day := 28; hour := 9; minute := 0; second := 30;
                           microsecond := 0; offset := Some 0 |};
  authority_at := λ _, half_minute;
  observed_at := λ _, GatewaySample.observed_at;
  running_at := λ _, true;
  arriving_at := λ n name, if Nat.eqb n at_ && bool_decide (name = COMMAND_CHANNEL) then Message command_message else Idle;
  callbacks_at := λ _, []
|}.

Definition starting : gateway := {|
  world_ := {| Publication.store := ready; said := [] |}; link := lifecycle bound; sequence := 0; tick := 0; settled := []
|}.

Abbreviation sample_run :=
  (serve_application (Env := surroundings 14) DIGITS 3 gateway_router queues 0 starting).

(** The router the gateway's session is given, and what the run leaves on the wire. *)
Lemma router_accepted : delivery_router COMMAND_GATEWAY gateway_ports = Ok gateway_router.
Proof. by vm_compute. Qed.

Definition sample_topics : list string := [
  "aerial-rescue/v1/mission-1/audit/command-authorization";
  "aerial-rescue/v1/mission-1/drone/drone-1/command/escalate-rescue" ].

Lemma sample_run_published : destination <$> said (world_ sample_run.2) = sample_topics.
Proof. by vm_compute. Qed.

Lemma sample_run_settled : length (settled sample_run.2) = 1%nat.
Proof. by vm_compute. Qed.

(** ** From the parts to a run *)

Section world.
Context `{N : Normalization} `{M : PayloadModels} `{D : Database} `{B : Broker} `{P : SettlementPort}.
Context `{Env : Surroundings} (limit : nat).

Abbreviation serving := (acting gateway service_failure).

(** However a call ends, the two gateways are related. *)
Definition ensures {A} (R : relation gateway) (m : serving A) : Prop := ∀ g o g', m g = (o, g') → R g g'.

(** The wire is only appended to. *)
Definition extends (w w' : world) : Prop := ∃ ps, said w' = (said w ++ ps)%list.

Section ensured.
Context (R : relation gateway) `{!PreOrder R}.

Lemma ensures_ret {A} (a : A) : ensures R (mret a).
Proof. by intros g o g' [= <- <-]. Qed.

Lemma ensures_calm {A} (m : result service_failure A) : ensures R (calm m).
Proof. by intros g o g' [= <- <-]. Qed.

Lemma ensures_bind {A C} (m : serving A) (f : A → serving C) :
  ensures R m → (∀ a, ensures R (f a)) → ensures R (m ≫= f).
Proof.
  intros Hm Hf g o g' H. unfold mbind, acting_bind in H. destruct (m g) as [[a|e] g1] eqn:Hg.
  - etransitivity; [by eapply Hm|by eapply Hf].
  - injection H as <- <-. by eapply Hm.
Qed.

Lemma ensures_excepting {A} (handled : service_failure → option A) (m : serving A) :
  ensures R m → ensures R (excepting handled m).
Proof.
  intros Hm g o g' H. unfold excepting in H. destruct (m g) as [[a|e] g1] eqn:Hg; injection H as <- <-; by eapply Hm.
Qed.

Lemma ensures_in_turn {A} (f : A → serving unit) l : (∀ a, ensures R (f a)) → ensures R (in_turn f l).
Proof.
  intros Hf. induction l as [|a l IH]; cbn [in_turn]; [apply ensures_ret|]. apply ensures_bind; [apply Hf|by intros _].
Qed.
End ensured.

(** What a step can change besides the link and the clock: the store, the wire and the settlements. *)
Definition ledger : Type := world * list settled_message.
Definition view (g : gateway) : ledger := (world_ g, settled g).
Definition at_store (d : db) (l : ledger) : ledger := ({| Publication.store := d; said := said l.1 |}, l.2).

(** A relation on ledgers that every part keeps is kept by every run. *)
Section kept.
Context (R : relation ledger) `{!PreOrder R} (r : DeliveryRouter).

Definition on_ledgers : relation gateway := λ g g', R (view g) (view g').

#[global] Instance on_ledgers_preorder : PreOrder on_ledgers.
Proof.
  split; [by intros g; unfold on_ledgers|]. intros g1 g2 g3 H1 H2. unfold on_ledgers in *. by etransitivity.
Qed.

(** One guaranteed delivery on a channel. *)
Definition keeps_delivery {E A} (name : string) (msg : InboundMessage) (m : db → Delivery.outcome E A) : Prop := ∀ l,
  R l ({| Publication.store := Delivery.store (m (Publication.store l.1)); said := said l.1 |},
       l.2 ++ ((λ s, {| on_channel := name; message := msg; asked := s |}) <$>
               settlements (m (Publication.store l.1))))%list.

Record parts_keep : Prop := {
  keeps_events now w o w' ss : publish_application_batch limit r now w = (o, w') → R (w, ss) (w', ss);
  keeps_commands now w o w' ss : publish_batch limit now w = (o, w') → R (w, ss) (w', ss);
  keeps_event_read w o w' ss :
    committed (EventOutboxFailure ∘ StoreEvents.Store) (reconciliation APPLICATION_PRODUCER) w = (o, w') →
    R (w, ss) (w', ss);
  keeps_command_read w o w' ss :
    committed (CommandOutboxFailure ∘ StoreOutbox.Store)
      (StoreOutbox.pending RECONCILIATION_NEEDED COMMAND_PUBLICATION_BATCH_SIZE) w = (o, w') → R (w, ss) (w', ss);
  keeps_exchange m s d log o log' ss :
    handle_message limit (publish limit r) m s log = (o, log') →
    R ({| Publication.store := d; said := log |}, ss) ({| Publication.store := d; said := log' |}, ss);
  keeps_response dl s l : R l (at_store (handle_agent_response limit dl s (Publication.store l.1)).2 l);
  keeps_refusal name m : ensures on_ledgers (refuse_trace limit name m);
  keeps_native name m : ensures on_ledgers (refuse_trace limit name m ;; reject_native name m);
  keeps_command name m s now at_ :
    keeps_delivery name m (handle_operator_command limit (guaranteed_delivery m) s now at_);
  keeps_approval name m now at_ : keeps_delivery name m (handle_operator_approval limit (guaranteed_delivery m) now at_);
  keeps_result name m at_ : keeps_delivery name m (handle_command_result limit (guaranteed_delivery m) at_)
}.

Context (Hk : parts_keep).

Lemma keeps_consult {A} (f : nat → A) : ensures on_ledgers (consult f).
Proof. intros g o g' [= <- <-]. by unfold on_ledgers. Qed.
Lemma keeps_look {A} (f : BrokerLifecycle → A) : ensures on_ledgers (look f).
Proof. intros g o g' [= <- <-]. by unfold on_ledgers. Qed.
Lemma keeps_touch f : ensures on_ledgers (touch f).
Proof. intros g o g' [= <- <-]. by unfold on_ledgers. Qed.
Lemma keeps_sequence : ensures on_ledgers next_sequence.
Proof. intros g o g' [= <- <-]. by unfold on_ledgers. Qed.
Lemma keeps_published {A} (m : acting world publication_failure A) :
  (∀ w o w' ss, m w = (o, w') → R (w, ss) (w', ss)) → ensures on_ledgers (Service.published m).
Proof.
  intros Hm g o g' H. unfold Service.published in H. destruct (m (world_ g)) as [r' w] eqn:Hw.
  injection H as <- <-. by eapply Hm.
Qed.

Lemma keeps_on_store {E A} (h : E → service_failure) (m : db → result E A * db) :
  (∀ l, R l (at_store (m (Publication.store l.1)).2 l)) → ensures on_ledgers (on_store h m).
Proof.
  intros Hm g o g' H. unfold on_store in H. specialize (Hm (view g)). cbn in Hm.
  destruct (m (Publication.store (world_ g))) as [r' d']. injection H as <- <-. exact Hm.
Qed.

Lemma keeps_delivered {E A} name msg (h : delivery_failure E → service_failure) (m : db → Delivery.outcome E A) :
  keeps_delivery name msg m → ensures on_ledgers (delivered name msg h m).
Proof. intros Hm g o g' [= <- <-]. exact (Hm (view g)). Qed.

Lemma keeps_on_wire m s : ensures on_ledgers (on_wire (handle_message limit (publish limit r) m s)).
Proof.
  intros g o g' H. unfold on_wire in H. destruct (handle_message _ _ _ _ (said (world_ g))) as [o1 log'] eqn:Hm.
  injection H as <- <-. unfold on_ledgers, view, with_world; cbn. destruct (world_ g) as [d log]. by eapply keeps_exchange.
Qed.

Create HintDb kept discriminated.
#[local] Hint Resolve on_ledgers_preorder ensures_ret ensures_calm keeps_consult keeps_look keeps_touch keeps_sequence : kept.
#[local] Hint Resolve keeps_published keeps_on_store keeps_delivered keeps_on_wire : kept.
#[local] Hint Resolve keeps_events keeps_commands keeps_event_read keeps_command_read keeps_response keeps_command
  keeps_approval keeps_result keeps_refusal keeps_native : kept.

(** One call after another, through every branch. *)
Ltac ensured :=
  lazymatch goal with
  | |- ensures _ (mbind _ _) => apply (ensures_bind on_ledgers); [|intros ?]; ensured
  | |- ensures _ (excepting _ _) => apply (ensures_excepting on_ledgers); ensured
  | |- ensures _ (match _ with _ => _ end) => case_match; ensured
  | |- _ => try solve [eauto with kept]
  end.

Lemma keeps_instant : ensures on_ledgers instant.
Proof. unfold instant. ensured. Qed.
#[local] Hint Resolve keeps_instant : kept.

Lemma keeps_traceparent : ensures on_ledgers traceparent.
Proof. unfold traceparent, identifiers. ensured. Qed.
#[local] Hint Resolve keeps_traceparent : kept.

Lemma keeps_stamps :
  ensures on_ledgers next_stamp ∧ ensures on_ledgers next_authorization ∧ ensures on_ledgers next_normalization.
Proof. unfold next_stamp, next_authorization, next_normalization, identifiers. repeat split; ensured. Qed.

Lemma keeps_direct m : ensures on_ledgers (dispatch_direct limit r m).
Proof.
  destruct keeps_stamps as (H1&_&H3). unfold dispatch_direct. ensured.
Qed.

Lemma keeps_guaranteed name m now : ensures on_ledgers (dispatch_guaranteed limit name m now).
Proof. destruct keeps_stamps as (_&H2&_). unfold dispatch_guaranteed. ensured. Qed.
#[local] Hint Resolve keeps_direct keeps_guaranteed : kept.

Lemma keeps_channel name : ensures on_ledgers (dispatch_channel limit r name).
Proof.
  unfold dispatch_channel. apply (ensures_bind on_ledgers); [apply keeps_consult|].
  intros [|m|m|e]; [ensured..|case_bool_decide; [ensured|by apply (keeps_native Hk)]|ensured].
Qed.

Lemma keeps_publication : ensures on_ledgers (publish_connected limit r).
Proof. unfold publish_connected. ensured. Qed.

Lemma keeps_recovery : ensures on_ledgers (restore_readiness limit r).
Proof. unfold restore_readiness, recover_application, drain_application, drain_commands. ensured. Qed.
#[local] Hint Resolve keeps_channel keeps_publication keeps_recovery : kept.

Lemma keeps_serving queues turns : ∀ first, ensures on_ledgers (serve_application limit turns r queues first).
Proof.
  induction turns as [|turns IH]; intros first; cbn [serve_application]; [ensured|].
  unfold leaving, turn. ensured. apply (ensures_in_turn on_ledgers). intros name. ensured.
Qed.
End kept.
End world.

(** ** The store and the wire *)

Section lasting.
Context `{N : Normalization} `{M : PayloadModels} `{D : Database} `{B : Broker} `{P : SettlementPort}.
Context `{Env : Surroundings} (limit : nat) (p : PublicationPorts) (r : DeliveryRouter) (Hr : delivery_router COMMAND_GATEWAY p = Ok r).

(** What a settlement stands on: an accepted message's event is completed in the inbox under the
    digest of its own envelope, and the refusal of a rejected message's bytes is in the ledger. *)
Definition backed (d : db) (x : settled_message) : Prop :=
  let dl := guaranteed_delivery (message x) in
  match asked x with
  | Accept event => ∃ e mission id result,
      decode_delivered limit (Delivery.payload dl) = Ok e ∧ Envelope.id e = event ∧
      inbox_identity e mission = Ok id ∧ completed d id result
  | Reject => ∃ ch, refusal_recorded ch dl d
  end.

(** The refusals of the ledger stay, each as it was recorded. *)
Definition refusals_kept (d d' : db) : Prop :=
  ∀ c ch dg refusal, refusal_entry d c ch dg = Some refusal → refusal_entry d' c ch dg = Some refusal.

Definition lasting (l l' : ledger) : Prop :=
  let d := Publication.store l.1 in let d' := Publication.store l'.1 in
  consistent d →
  durable d d' ∧ refusals_kept d d' ∧ consistent d' ∧ extends l.1 l'.1 ∧
  ∃ xs, l'.2 = (l.2 ++ xs)%list ∧ Forall (backed d') xs.

Lemma backed_later d d' x : consistent d → durable d d' → refusals_kept d d' → backed d x → backed d' x.
Proof.
  intros Hd Hs Hk. unfold backed. destruct (asked x).
  - intros (e&mission&id&result&?&?&?&Hc). exists e, mission, id, result. split_and!; [done..|]. by apply Hs.
  - intros (ch&refusal&Hc). exists ch, refusal. by apply Hk.
Qed.

#[global] Instance lasting_preorder : PreOrder lasting.
Proof.
  split.
  - intros l Hd. split_and!; [done|by intros c ch dg|done|exists []; by rewrite app_nil_r|].
    exists []. by rewrite app_nil_r.
  - intros l1 l2 l3 H12 H23 Hd. destruct (H12 Hd) as (H1&K1&Hd2&(ps&Hp)&xs&Hx&Bx).
    destruct (H23 Hd2) as (H2&K2&Hd3&(qs&Hq)&ys&Hy&By).
    split_and!; [by etransitivity|intros c ch dg x Hc; by apply K2, K1|done|exists (ps ++ qs)%list; by rewrite Hq, Hp, app_assoc|].
    exists (xs ++ ys)%list. split; [by rewrite Hy, Hx, app_assoc|]. apply Forall_app. split; [|done].
    eapply Forall_impl; [exact Bx|]. intros x. by apply backed_later.
Qed.

Lemma refusals_spared ts d d' : confined ts d d' → BROKER_REFUSAL ∉ ts → refusals_kept d d'.
Proof. intros Hc Ht c ch dg. unfold refusal_entry, found. by rewrite (Hc _ Ht). Qed.

Lemma response_durable dl s d : durable d (handle_agent_response limit dl s d).2.
Proof.
  unfold handle_agent_response. destruct (accept_ingress _ _ _) as [[]|]; try reflexivity.
  destruct (mbind _ _) as [[trusted id]|]; [|reflexivity].
  destruct (transaction _ d) as [[a|e] d'] eqn:Ht.
  - apply transaction_Ok in Ht. by eapply normalize_durable.
  - by apply transaction_Err in Ht as [_ ->].
Qed.

Lemma lasting_quiet ts (l : ledger) w' :
  (consistent (Publication.store l.1) →
     consistent (Publication.store w') ∧ confined ts (Publication.store l.1) (Publication.store w') ∧ extends l.1 w') →
  BROKER_INBOX ∉ ts → APPROVAL ∉ ts → BROKER_REFUSAL ∉ ts →
  lasting l (w', l.2).
Proof.
  intros Hs Hi Ha Hf Hd. destruct (Hs Hd) as (Hd'&Hc&He). split_and!; [|by eapply refusals_spared|done|done|].
  - eapply confined_durable; [|exact Hc|done|done]. by intros _.
  - exists []. by rewrite app_nil_r.
Qed.

(** A transaction with no settlement of its own. *)
Lemma lasting_silent d' (l : ledger) :
  durable (Publication.store l.1) d' → (consistent (Publication.store l.1) → refusals_kept (Publication.store l.1) d') →
  lasting l (at_store d' l).
Proof.
  intros Hs Hk Hd. split_and!; [done|by apply Hk|by apply Hs|exists []; by rewrite app_nil_r|exists []; by rewrite app_nil_r].
Qed.

Lemma lasting_read {E A} (h : E → publication_failure) (m : tx E A) w o w' ss :
  effect unchanged m → committed h m w = (o, w') → lasting (w, ss) (w', ss).
Proof.
  intros Hm Hw. apply (lasting_quiet [] (w, ss)); [|by_decide..]. intros Hd.
  assert (unchanged (Publication.store w) (Publication.store w') ∧ said w' = said w) as [Hu Hs].
  { unfold committed in Hw. destruct (transaction m _) as [[a|e] d] eqn:Ht; injection Hw as _ <-; (split; [|done]).
    - apply transaction_Ok in Ht. by eapply Hm.
    - by apply transaction_Err in Ht as [_ ->]. }
  split_and!; [intros t; rewrite (Hu t); apply Hd|intros t _; apply Hu|exists []; by rewrite app_nil_r].
Qed.

Lemma refusal_stays observed c d : consistent d → refusals_kept d (record_candidate observed c d).2.
Proof.
  intros Hd. unfold record_candidate. destruct (transaction _ d) as [[f|e] d'] eqn:Ht; [|apply transaction_Err in Ht as [_ ->]; by intros c' ch dg].
  apply transaction_Ok, record_refusal_Ok in Ht; [|done]. cbn. intros c' ch dg x Hs. unfold refusal_entry in *.
  destruct (found d BROKER_REFUSAL (refusal_conds (StoreRefusals.consumer _) _ _)).
  - destruct Ht as [Ht _]. by rewrite (found_proper _ _ _ _ Ht).
  - destruct Ht as [_ Ht]. by rewrite (found_snoc _ _ _ _ _ Ht), Hs.
Qed.

(** What the three guaranteed handlers have in common. *)
Record gateway_handler {I E X} (h : guaranteed I E X) (ts : list Table) : Prop := {
  handler_durable id i : effect durable (body h id i);
  handler_confined id i : effect (confined ts) (body h id i);
  handler_completes id i d x d' : consistent d → body h id i d = Ok (x, d') → ∃ result, completed d' id result;
  handler_identity i id : identity h i = Ok id → ∃ mission, inbox_identity (envelope_of h i) mission = Ok id;
  handler_envelope raw t a i :
    accept_ingress limit raw t = Ok a → selected h a = Some i → decode_delivered limit raw = Ok (envelope_of h i);
  handler_spares : BROKER_REFUSAL ∉ ts
}.

Lemma handled_refusals {I E X} (h : guaranteed I E X) ts dl at_ d :
  gateway_handler h ts → consistent d → refusals_kept d (Delivery.store (handle limit h dl at_ d)).
Proof.
  intros [_ Hcon _ _ _ Hsp] Hd.
  assert (Hrej : ∀ ch code (e : delivery_failure E),
    refusals_kept d (Delivery.store (reject_after_refusal (A := X) limit dl ch code at_ e d))).
  { intros ch code e. unfold reject_after_refusal. destruct (candidate limit dl ch code) as [c|n]; [|by intros c' ch' dg].
    pose proof (refusal_stays at_ c d Hd) as Hs. by destruct (record_candidate at_ c d) as [[f|x] d']. }
  unfold handle. destruct (accept_ingress _ _ _) as [x|[y|n]]; [|apply Hrej|by intros c' ch' dg].
  destruct (selected h x) as [i|]; [|apply Hrej]. destruct (identity h i) as [id|e]; [|by intros c' ch' dg].
  destruct (transaction _ d) as [[y|e] d'] eqn:Ht.
  - apply transaction_Ok in Ht. eapply refusals_spared; [by eapply Hcon|done].
  - apply transaction_Err in Ht as [_ ->]. by intros c' ch' dg.
Qed.

Lemma lasting_delivery {I E X} (h : guaranteed I E X) ts name m at_ :
  gateway_handler h ts → keeps_delivery lasting name m (handle limit h (guaranteed_delivery m) at_).
Proof.
  intros Hh l Hd. pose proof Hh as [Hb Hcon Hcom Hid Henv Hsp]. cbn. set (d := Publication.store l.1) in *.
  set (dl := guaranteed_delivery m). pose proof (handled_durable limit h dl at_ d Hb) as Hs.
  pose proof (handled_refusals h ts dl at_ d Hh Hd) as Hk. assert (Hd' := proj1 (Hs Hd)).
  split_and!; [done..|exists []; by rewrite app_nil_r|].
  destruct (handle_settles limit h dl at_ d Hd) as [[_ Href]|(a&i&id&x&Ha&Hsel&Hi&Hrun&Hset&_)].
  - destruct Href as [[-> Hst]|(->&Hrec&_)].
    + exists []. by split.
    + eexists. split; [done|]. apply Forall_singleton. by exists (channel h).
  - rewrite Hset. eexists. split; [done|]. apply Forall_singleton. cbn. destruct (Hid _ _ Hi) as [mission Hm].
    destruct (Hcom _ _ _ _ _ Hd Hrun) as [result Hres]. exists (envelope_of h i), mission, id, result.
    split_and!; [by eapply Henv|done..].
Qed.

Lemma deduplicated_completes {E X} (failed : store_failure InboxRefusal → E) lost again id (work : tx E X) d x d' :
  (∀ d0 y d1, consistent d0 → work d0 = Ok (y, d1) → ∃ result, completed d1 id result) →
  consistent d → deduplicated failed lost again id work d = Ok (x, d') → ∃ result, completed d' id result.
Proof.
  intros Hw Hd Hx. unfold deduplicated in Hx. apply tx_bind_Ok in Hx as (o&d1&Hc&Hx). apply lift_Ok in Hc.
  pose proof (claim_durable _ _ _ _ Hc Hd) as [Hd1 _]. apply StoreInbox.claim_Ok in Hc; [|done].
  destruct (StoreInbox.entry d id).
  - destruct Hc as (Hs&result&->&Hres). cbn [StoreInbox.decision] in Hx. apply pure_Ok in Hx as [_ ->].
    exists result. eapply completed_proper; [symmetry; exact Hs|exact Hres].
  - destruct Hc as [-> _]. cbn [StoreInbox.decision] in Hx. by eapply Hw.
Qed.

Lemma carried_envelope {Q} raw t e (model : members → option Q) q :
  Ingress.carries limit raw t e model q → decode_delivered limit raw = Ok e.
Proof. by intros (Hd&_). Qed.

Lemma command_gateway_handler s now : gateway_handler (operator_command_handler limit s now) COMMAND_TABLES.
Proof.
  split; cbn.
  - intros id i. apply (body_durable (h := λ x, operator_command_handler limit x.1 x.2) (s, now)).
  - intros id i. apply authorize_command_confined.
  - intros id i d x d' Hd Hx. eapply (deduplicated_completes Authorization.InboxFailure (AuthorizationError Authorization.DUPLICATE_RESULT) prior_result);
      [|exact Hd|exact Hx]. intros d0 y d1 Hd0 Hy. eexists. by eapply process_claimed_completes.
  - intros i id Hi%map_err_Ok. by eexists.
  - intros raw t a i (t'&_&Ha)%accept_ingress_from Hs. destruct a; try done. injection Hs as ->.
    destruct Ha as (_&_&Hc). by eapply carried_envelope.
  - by_decide.
Qed.

Lemma approval_gateway_handler now : gateway_handler (operator_approval_handler limit now) APPROVAL_TABLES.
Proof.
  split.
  - intros id i. apply (body_durable (h := operator_approval_handler limit) now).
  - intros id i. apply approval_confined.
  - intros id i d x d' Hd Hx. eapply deduplicated_completes; [|exact Hd|exact Hx].
    intros d0 y d1 Hd0 Hy. eexists. by eapply verify_and_complete_completes.
  - intros i id Hi%map_err_Ok. by eexists.
  - intros raw t a i (t'&_&Ha)%accept_ingress_from Hs. cbn in Hs. destruct a; try done. injection Hs as ->.
    destruct Ha as (_&_&Hc). by eapply carried_envelope.
  - by_decide.
Qed.

Lemma result_gateway_handler : gateway_handler (command_result_handler limit) RESULT_TABLES.
Proof.
  split.
  - intros id i. apply deduplicated_durable, apply_and_complete_durable.
  - intros id i. apply result_confined.
  - intros id i d x d' Hd Hx. eapply deduplicated_completes; [|exact Hd|exact Hx].
    intros d0 y d1 Hd0 Hy. unfold apply_and_complete in Hy.
    run_tx. subst. follow. pose proof apply_result_durable as Hdur.
    match goal with H : apply_result _ _ ?d0 = Ok _ |- _ =>
      pose proof (proj1 (Hdur _ _ _ _ _ H ltac:(assumption))) end. eexists.
    match goal with H : StoreInbox.complete _ _ _ ?d2 = Ok _, Hd2 : consistent ?d2 |- _ =>
      exact (complete_completed _ _ _ _ _ _ Hd2 H) end.
  - intros i id Hi%map_err_Ok. by eexists.
  - intros raw t a i (t'&_&Ha)%accept_ingress_from Hs. cbn in Hs. destruct a; try done. injection Hs as ->.
    destruct Ha as (_&_&Hc). by eapply carried_envelope.
  - by_decide.
Qed.

(** One refused native trace: its refusal is durable when the call returns. *)
Lemma refuse_trace_run name m g o g' :
  refuse_trace limit name m g = (o, g') →
  (view g' = view g ∧ ∃ e, o = Err e) ∨
  ∃ at_ c, view g' = at_store (record_candidate at_ c (Publication.store (world_ g))).2 (view g) ∧
    (o = Ok tt → consistent (Publication.store (world_ g)) →
     refusal_recorded name (guaranteed_delivery m) (Publication.store (world_ g'))).
Proof.
  unfold refuse_trace, mbind at 1, acting_bind, calm. destruct (unsettled_metadata limit m) as [x|n] eqn:Hx; cbn [map_err].
  2: { intros [= <- <-]. left. eauto. }
  unfold mbind, acting_bind, consult, on_store. cbn [elapsed world_]. set (at_ := observed_at _). set (c := native_trace_candidate x name).
  destruct (record_candidate at_ c _) as [y d'] eqn:Hrec. intros Hw. right. exists at_, c. rewrite Hrec.
  assert (Hc : cand_raw_digest c = sha256_hex (default "" (inbound_payload m))) by (unfold unsettled_metadata in Hx; run_ok; by subst).
  destruct y as [f|e]; injection Hw as <- <-; (split; [done|]); [|done]. intros _ Hd. unfold record_candidate in Hrec.
  apply transaction_Ok, record_refusal_held in Hrec; [|done]. unfold refusal_recorded. cbn [guaranteed_delivery Delivery.payload].
  rewrite <- Hc. exact Hrec.
Qed.

Lemma trace_refusal_lasts name m : ensures (on_ledgers lasting) (refuse_trace limit name m).
Proof.
  intros g o g' Hg. unfold on_ledgers. apply refuse_trace_run in Hg as [[-> _]|(at_&c&->&_)]; [done|].
  apply lasting_silent; [apply record_candidate_durable|apply refusal_stays].
Qed.

Lemma native_refusal_lasts name m : ensures (on_ledgers lasting) (refuse_trace limit name m ;; reject_native name m).
Proof.
  intros g o g' Hg. unfold mbind, acting_bind in Hg. destruct (refuse_trace limit name m g) as [[[]|e] g1] eqn:H1;
    [|injection Hg as <- <-; by eapply trace_refusal_lasts].
  pose proof (trace_refusal_lasts _ _ _ _ _ H1) as Hl. injection Hg as _ <-. unfold on_ledgers in *. intros Hd.
  apply refuse_trace_run in H1 as [[_ [? ?]]|(at_&c&Hv&Hrec)]; [done|].
  destruct (Hl Hd) as (H2&H3&H4&H5&xs&Hxs&Hb). split_and!; [done..|]. cbn [view world_ settled fst snd] in *.
  exists (xs ++ [{| on_channel := name; message := m; asked := Reject |}])%list. rewrite Hxs, app_assoc. split; [done|].
  apply Forall_app. split; [done|]. apply Forall_singleton. exists name. by apply Hrec.
Qed.

Lemma parts_last : parts_keep limit lasting r.
Proof.
  split.
  - intros now w o w' ss Hw. apply (lasting_quiet [APPLICATION_OUTBOX] (w, ss)); [|by_decide..]. intros Hd.
    destruct (batch_announced limit p r Hr _ _ _ _ Hw Hd) as (?&?&_&ps&?&_). split_and!; [done|done|by exists ps].
  - intros now w o w' ss Hw. apply (lasting_quiet [COMMAND_OUTBOX] (w, ss)); [|by_decide..]. intros Hd.
    destruct (proj1 (batch_published limit _ _ _ _ Hd Hw) Hd) as (?&?&(ps&?&_)&_). split_and!; [done|done|by exists ps].
  - intros w o w' ss. apply lasting_read. unfold reconciliation, reconciliation_statement, selection_statement. effects.
  - intros w o w' ss. apply lasting_read. unfold StoreOutbox.pending, pending_statement. effects.
  - intros m s d log o log' ss Hm. apply (handle_message_said limit p r Hr) in Hm as (ps&->&_).
    apply (lasting_quiet [] (_, ss)); [|by_decide..]. intros Hd. split_and!; [done|done|by exists ps].
  - intros dl s l. apply lasting_silent; [apply response_durable|]. intros _.
    eapply refusals_spared; [apply response_confined|by_decide].
  - apply trace_refusal_lasts.
  - apply native_refusal_lasts.
  - intros name m s now at_. eapply lasting_delivery, command_gateway_handler.
  - intros name m now at_. eapply lasting_delivery, approval_gateway_handler.
  - intros name m at_. eapply lasting_delivery, result_gateway_handler.
Qed.

(** C6: however long the service runs and whatever its surroundings do, what it has told anyone
    stays true.  Starting from a well-formed store, after any number of turns, returned or raised:
    the store is well formed, every row of every table of its column types, within its checks and
    alone with its keys; every inbox result recorded is still recorded; every refusal in the ledger
    is still there, its row unchanged; an approval has at most
    moved from approved to executed; what is on the wire stays and is only added to; and every
    message settled in the run is backed by the store as it now is: an accepted one by the
    completed inbox entry of its own envelope's digest, a rejected one by the ledger's refusal of
    its exact bytes. *)
Theorem service_keeps_its_word (turns : nat) (queues : list (string * string)) (first : nat)
    (g g' : gateway) (o : result service_failure (option ServiceExit))
    (Hd : consistent (Publication.store (world_ g)))
    (Hg : serve_application limit turns r queues first g = (o, g')) :
  let d := Publication.store (world_ g) in let d' := Publication.store (world_ g') in
  consistent d' ∧ (∀ i result, completed d i result → completed d' i result) ∧
  (∀ consumer channel digest refusal, refusal_entry d consumer channel digest = Some refusal →
     refusal_entry d' consumer channel digest = Some refusal) ∧
  approvals_progress d d' ∧
  extends (world_ g) (world_ g') ∧
  ∃ xs, settled g' = (settled g ++ xs)%list ∧ Forall (backed d') xs.
Proof.
  destruct (keeps_serving limit lasting r parts_last queues turns first _ _ _ Hg Hd) as (Hs&Hk&Hd'&He&Hx).
  destruct (Hs Hd) as (_&Hc&Ha). exact (conj Hd' (conj Hc (conj Hk (conj Ha (conj He Hx))))).
Qed.
End lasting.

(** ** One escalation, served *)

Lemma service_keeps_its_word_witness :
  length (settled sample_run.2) = 1%nat ∧
  ∃ xs, settled sample_run.2 = ([] ++ xs)%list ∧
    Forall (backed DIGITS (Publication.store (world_ sample_run.2))) xs.
Proof.
  split; [exact sample_run_settled|].
  destruct (service_keeps_its_word (Env := surroundings 14) DIGITS gateway_ports gateway_router router_accepted
    3 queues 0 starting sample_run.2 sample_run.1 ready_consistent (surjective_pairing _)) as (_&_&_&_&_&Hx).
  exact Hx.
Defined.
