(* ===== verification/Recovery.v ===== *)
(** * Recovery

    When the gateway service says it is ready: [recover_application] of [Service.v] over the
    lifecycle of [BrokerLink.v] and the two outboxes. *)

From stdpp Require Import gmap sets strings sorting.
From S2P Require Import Prelude PyStr PyVal Canonical Topics Lifecycle Sql Schema StoreProposals StoreRefusals StoreInbox Principals Ingress Delivery Authorization Routing Exchange Publication Published Drained Progression Normalization GatewaySample Queues Service Served Outbox StoreEvents StoreOutbox BrokerLink.
Local Open Scope string_scope.
Local Open Scope Z_scope.

(** ** The link *)

(** The application is not ready, or the link is over. *)
Definition down (l : BrokerLifecycle) : Prop := application_ready l = false ∨ is_terminal l = true.

Lemma down_unready l : down l → is_ready l = false.
Proof.
  unfold is_ready, is_terminal. intros [->|Ht]; [by rewrite andb_false_r|]. apply orb_true_iff in Ht.
  rewrite (bool_decide_eq_false_2 (state l = CONNECTED)); [done|].
  by destruct Ht as [->%bool_decide_eq_true| ->%bool_decide_eq_true].
Qed.

Lemma down_recovery l : down (recovery_required l).
Proof. unfold recovery_required, down. destruct (is_terminal l) eqn:Ht; [by right|by left]. Qed.

Lemma down_terminal l : is_terminal l = true → down l.
Proof. by right. Qed.

(** Every callback but [MarkReady] leaves the service down. *)
Lemma down_step l c : c ≠ MarkReady → down l → down (step l c).
Proof.
  intros Hc [Ha|Ht].
  - unfold down. destruct c; try done; cbn [step];
      unfold connected, receiver_registered, receiver_active, receiver_passive, publisher_blocked, recovery_required,
        publisher_available, reconnecting, reconnected, flow_event, accept_receiver_event, accept_transport_event;
      repeat (case_match; simplify_eq; try (by left)); try (by left).
  - unfold down. right. destruct c; try done; cbn [step];
      unfold connected, receiver_registered, receiver_active, receiver_passive, publisher_blocked, recovery_required,
        publisher_available, reconnecting, reconnected, flow_event; by rewrite ?Ht.
Qed.

Lemma down_callbacks cs : MarkReady ∉ cs → ∀ l, down l → down (foldl step l cs).
Proof.
  induction cs as [|c cs IH]; [done|]. rewrite not_elem_of_cons. intros [Hc Hcs] l Hl. cbn. by apply IH, down_step.
Qed.

(** ** The outboxes *)

Section drained.
Context `{N : Normalization} `{D : Database} `{B : Broker} (limit : nat).

(** A row that waits for its publication, or for evidence about it. *)
Definition waiting (r : row) : Prop :=
  cell r "state" = SText (state_value STAGED) ∨ cell r "state" = SText (state_value RECONCILIATION_NEEDED).

Definition commands_settled (d : db) : Prop := ∀ r, r ∈ rows d COMMAND_OUTBOX → ¬ waiting r.
Definition events_settled (d : db) : Prop :=
  ∀ r, r ∈ rows d APPLICATION_OUTBOX → cell r "producer" = SText APPLICATION_PRODUCER → ¬ waiting r.

(** A worker reports one outcome for each row it visits. *)
Definition total (r : PublicationReport) : nat := (confirmed r + ambiguous r + refused r)%nat.

Lemma each_total {A} (one : A → acting world publication_failure (option OutboxEvent)) l : ∀ report w report' w',
  each one l report w = (Ok report', w') → total report' = (total report + length l)%nat.
Proof.
  induction l as [|a l IH]; intros report w report' w' Hw; cbn [each] in Hw.
  - injection Hw as <- _. cbn. lia.
  - unfold mbind, acting_bind in Hw. destruct (one a w) as [[o|e] w1]; [|done]. apply IH in Hw. rewrite Hw.
    destruct o as [[]|]; unfold total; cbn; lia.
Qed.

(** A read that lists nothing. *)
Lemma oldest_nil d s : oldest d s Publication.COMMAND_PUBLICATION_BATCH_SIZE = [] →
  ∀ r, r ∈ rows d COMMAND_OUTBOX → cell r "state" ≠ SText (state_value s).
Proof.
  unfold oldest. intros Hn r Hr Hs. change (Z.to_nat _) with 50%nat in Hn.
  assert (Hin : r ∈ merge_sort (row_le text_le ["staged_at"; "command_id"])
    (filter (λ r, cell r "state" = SText (state_value s)) (rows d COMMAND_OUTBOX)))
    by (rewrite merge_sort_Permutation; by apply list_elem_of_filter).
  destruct (merge_sort _ _); [by apply elem_of_nil in Hin|done].
Qed.

Lemma events_nil q s d d' l : q = APPLICATION_PRODUCER →
  fetch_all (selection_statement q s) d = Ok (l, d') → l = [] →
  d' ≡ d ∧ ∀ r, r ∈ rows d APPLICATION_OUTBOX → cell r "producer" = SText q → cell r "state" ≠ SText (state_value s).
Proof.
  intros -> [Hd ->]%fetch_Select_Ok Hn. split; [done|]. intros r Hr Hq Hs. apply fmap_nil_inv in Hn.
  assert (Hin : r ∈ merge_sort (row_le text_le ["staged_at"; "event_id"])
    (where_rows [Equals "producer" (SText APPLICATION_PRODUCER); Equals "state" (SText (state_value s))] (rows d APPLICATION_OUTBOX))).
  { rewrite merge_sort_Permutation. apply list_elem_of_filter. split; [|done].
    unfold selects. cbn [forallb holds]. rewrite Hq, Hs. unfold sql_eq. by rewrite !bool_decide_eq_true_2. }
  change (Z.to_nat _) with 50%nat in Hn. destruct (merge_sort _ _); [by apply elem_of_nil in Hin|done].
Qed.

(** A batch that visits no row found none and did nothing. *)
Lemma commands_quiet now w report w' :
  consistent (store w) → publish_batch limit now w = (Ok report, w') → total report = 0%nat →
  store w' ≡ store w ∧ said w' = said w ∧
  ∀ r, r ∈ rows (store w) COMMAND_OUTBOX → cell r "state" ≠ SText (state_value STAGED).
Proof.
  intros Hd Hb Ht. destruct (read_batch limit w now Hd) as [[e He]|(d&Hs&Hrun)]; [by rewrite He in Hb|].
  rewrite Hrun in Hb. pose proof (each_total _ _ _ _ _ _ Hb) as Hl. rewrite Ht, length_fmap in Hl.
  assert (Hn : oldest (store w) STAGED Publication.COMMAND_PUBLICATION_BATCH_SIZE = []) by (apply nil_length_inv; change (total nothing_yet) with 0%nat in Hl; lia).
  rewrite Hn in Hb. injection Hb as _ <-. split; [done|]. split; [done|]. by apply oldest_nil.
Qed.

Lemma events_quiet r now w report w' :
  publish_application_batch limit r now w = (Ok report, w') → visited report = 0%nat →
  store w' ≡ store w ∧ said w' = said w ∧
  ∀ x, x ∈ rows (store w) APPLICATION_OUTBOX → cell x "producer" = SText APPLICATION_PRODUCER →
    cell x "state" ≠ SText (state_value STAGED).
Proof.
  unfold publish_application_batch, mbind at 1, acting_bind, calm at 1. intros Hb Hv. destruct (map_err _ _); [|done].
  unfold mbind at 1, acting_bind, committed in Hb. destruct (transaction _ _) as [[l|e] d] eqn:Ht; [|done].
  cbn [map_err] in Hb. unfold mbind at 1, acting_bind, calm at 1 in Hb. destruct (raise_if _ _); [|done].
  unfold mbind, acting_bind in Hb. destruct (each _ l _ _) as [[x|e] w2] eqn:He; [|done].
  injection Hb as <- <-. cbn [visited] in Hv. apply nil_length_inv in Hv as ->. injection He as _ <-.
  apply transaction_Ok in Ht. unfold StoreEvents.pending in Ht. run_tx. subst.
  match goal with H : fetch_all _ _ = Ok (?out, _), Hm : map_ok _ ?out = Ok [] |- _ =>
    apply map_ok_Forall2 in Hm; apply (events_nil _ _ _ _ _ eq_refl) in H as [Hs Hn]; [|by inversion Hm] end.
  by split_and!.
Qed.

(** A read for reconciliation that lists nothing. *)
Lemma commands_reconciled w w' :
  consistent (store w) →
  committed (CommandOutboxFailure ∘ StoreOutbox.Store)
    (StoreOutbox.pending RECONCILIATION_NEEDED Publication.COMMAND_PUBLICATION_BATCH_SIZE) w = (Ok [], w') →
  store w' ≡ store w ∧ said w' = said w ∧
  ∀ r, r ∈ rows (store w) COMMAND_OUTBOX → cell r "state" ≠ SText (state_value RECONCILIATION_NEEDED).
Proof.
  intros Hd. unfold committed. destruct (transaction _ _) as [[l|e] d] eqn:Ht; [|done]. intros [= -> <-].
  apply transaction_Ok, pending_Ok in Ht as [Hs Hn]; [|done]. symmetry in Hn. apply fmap_nil_inv in Hn.
  split; [done|]. split; [done|]. by apply oldest_nil.
Qed.

Lemma events_reconciled w w' :
  committed (EventOutboxFailure ∘ StoreEvents.Store) (reconciliation APPLICATION_PRODUCER) w = (Ok [], w') →
  store w' ≡ store w ∧ said w' = said w ∧
  ∀ x, x ∈ rows (store w) APPLICATION_OUTBOX → cell x "producer" = SText APPLICATION_PRODUCER →
    cell x "state" ≠ SText (state_value RECONCILIATION_NEEDED).
Proof.
  unfold committed. destruct (transaction _ _) as [[l|e] d] eqn:Ht; [|done]. intros [= -> <-].
  apply transaction_Ok in Ht. unfold reconciliation in Ht. run_tx. subst.
  match goal with H : fetch_all _ _ = Ok (?out, _), Hm : map_ok _ ?out = Ok [] |- _ =>
    apply map_ok_Forall2 in Hm; apply (events_nil _ _ _ _ _ eq_refl) in H as [Hs Hn]; [|by inversion Hm] end.
  by split_and!.
Qed.
End drained.

(** ** Recovery *)

Section recovery.
Context `{N : Normalization} `{M : PayloadModels} `{D : Database} `{B : Broker} `{P : SettlementPort}.
Context `{Env : Surroundings} (limit : nat) (p : PublicationPorts) (r : DeliveryRouter).
Context (Hr : delivery_router COMMAND_GATEWAY p = Ok r).

(** Only the service itself says that recovery is complete. *)
Context (Hsdk : ∀ t, MarkReady ∉ callbacks_at t).

Abbreviation serving := (acting gateway service_failure).

Definition stays_down : relation gateway := λ g g', down (link g) → down (link g').

#[local] Instance stays_down_preorder : PreOrder stays_down.
Proof. split; [by intros g Hg|]. intros g1 g2 g3 H12 H23 Hg. by apply H23, H12. Qed.

Lemma down_elapsed g : down (link g) → down (link (elapsed g)).
Proof. apply down_callbacks, Hsdk. Qed.

Lemma consult_down {A} (f : nat → A) : ensures stays_down (consult f).
Proof. intros g o g' [= <- <-]. exact (down_elapsed g). Qed.

Lemma look_down {A} (f : BrokerLifecycle → A) : ensures stays_down (look f).
Proof. intros g o g' [= <- <-]. exact (down_elapsed g). Qed.

Lemma published_down {A} (m : acting world publication_failure A) : ensures stays_down (Service.published m).
Proof. intros g o g'. unfold Service.published. destruct (m _). intros [= <- <-] Hg. done. Qed.

Create HintDb down discriminated.
#[local] Hint Resolve stays_down_preorder consult_down look_down published_down : down.
#[local] Hint Extern 1 (ensures _ (mret _)) => apply ensures_ret : down.

Ltac downward :=
  lazymatch goal with
  | |- ensures _ (mbind _ _) => apply (ensures_bind stays_down); [|intros ?]; downward
  | |- ensures _ (match _ with _ => _ end) => case_match; downward
  | |- _ => try solve [eauto with down]
  end.

Lemma drain_application_down : ensures stays_down (drain_application limit r).
Proof. unfold drain_application. downward. Qed.
Lemma drain_commands_down : ensures stays_down (drain_commands limit).
Proof. unfold drain_commands. downward. Qed.

(** A drain that says so found its outbox empty, and changed nothing. *)
Lemma drain_application_true g g' :
  drain_application limit r g = (Ok true, g') →
  Publication.store (world_ g') ≡ Publication.store (world_ g) ∧ events_settled (Publication.store (world_ g)).
Proof.
  unfold drain_application, mbind, acting_bind, consult, Service.published. cbn [elapsed world_].
  set (now := observed_at _). destruct (publish_application_batch limit r now (world_ g)) as [[report|e] w1] eqn:H1; [|done].
  cbn [map_err]. destruct (uncertain _ || negb _) eqn:Hu; [done|]. apply orb_false_iff in Hu as [_ Hv].
  apply negb_false_iff, Nat.eqb_eq in Hv. destruct (events_quiet _ _ _ _ _ _ H1 Hv) as (Hs1&_&Hn1).
  cbn [with_world world_]. destruct (committed _ _ w1) as [[left_|e] w2] eqn:H2; [|done]. cbn [map_err].
  intros [= Hl <-]. apply bool_decide_eq_true in Hl as ->. apply events_reconciled in H2 as (Hs2&_&Hn2).
  cbn [with_world world_]. split; [by rewrite Hs2|]. intros x Hx Hp [Hst|Hst]; [by eapply Hn1|].
  eapply Hn2; [|done|done]. by rewrite (Hs1 APPLICATION_OUTBOX).
Qed.

Lemma drain_commands_true g g' :
  consistent (Publication.store (world_ g)) → drain_commands limit g = (Ok true, g') →
  Publication.store (world_ g') ≡ Publication.store (world_ g) ∧ commands_settled (Publication.store (world_ g)).
Proof.
  intros Hd. unfold drain_commands, mbind, acting_bind, consult, Service.published. cbn [elapsed world_].
  set (now := observed_at _). destruct (publish_batch limit now (world_ g)) as [[report|e] w1] eqn:H1; [|done].
  cbn [map_err]. destruct (uncertain report || negb _) eqn:Hu; [done|]. apply orb_false_iff in Hu as [Hu Hc].
  apply negb_false_iff, Nat.eqb_eq in Hc. apply negb_false_iff, andb_true_iff in Hu as [Ha Hf].
  apply Nat.eqb_eq in Ha, Hf. destruct (commands_quiet _ _ _ _ _ Hd H1) as (Hs1&_&Hn1); [unfold total; lia|].
  cbn [with_world world_]. destruct (committed _ _ w1) as [[left_|e] w2] eqn:H2; [|done]. cbn [map_err].
  intros [= Hl <-]. apply bool_decide_eq_true in Hl as ->.
  apply commands_reconciled in H2 as (Hs2&_&Hn2); [|intros t; rewrite (Hs1 t); apply Hd].
  cbn [with_world world_]. split; [by rewrite Hs2|]. intros x Hx [Hst|Hst]; [by eapply Hn1|].
  eapply Hn2; [|done]. by rewrite (Hs1 COMMAND_OUTBOX).
Qed.

(** What a recovery that ends leaves. *)
Definition recovered (o : result service_failure bool) (g' : gateway) : Prop :=
  match o with
  | Ok ready => ready = is_ready (link g')
  | Err _ => is_ready (link g') = false
  end ∧
  (down (link g') ∨
     commands_settled (Publication.store (world_ g')) ∧ events_settled (Publication.store (world_ g'))).

Lemma recovered_down o g' : down (link g') → (o = Ok false ∨ ∃ e, o = Err e) → recovered o g'.
Proof.
  intros Hl Ho. split; [|by left]. rewrite (down_unready _ Hl). by destruct Ho as [->|[e ->]].
Qed.

Lemma settled_proper d d' : d' ≡ d →
  (commands_settled d → commands_settled d') ∧ (events_settled d → events_settled d').
Proof.
  intros Hs. split; intros H x Hx; [rewrite (Hs COMMAND_OUTBOX) in Hx|rewrite (Hs APPLICATION_OUTBOX) in Hx]; by apply H.
Qed.

(** The drains, from a link that is down. *)
Lemma drains_true g3 g4 g5 :
  consistent (Publication.store (world_ g3)) →
  drain_application limit r g3 = (Ok true, g4) → drain_commands limit g4 = (Ok true, g5) →
  commands_settled (Publication.store (world_ g5)) ∧ events_settled (Publication.store (world_ g5)).
Proof.
  intros Hd [Hs4 He]%drain_application_true H5.
  assert (Hd4 : consistent (Publication.store (world_ g4))) by (intros t; rewrite (Hs4 t); apply Hd).
  apply drain_commands_true in H5 as [Hs5 Hc]; [|done]. split; [by eapply settled_proper|].
  eapply settled_proper; [exact Hs5|]. by eapply settled_proper.
Qed.

Lemma recover_application_recovers g o g' :
  consistent (Publication.store (world_ g)) → recover_application limit r g = (o, g') → recovered o g'.
Proof.
  intros Hd. unfold recover_application. unfold mbind at 1, acting_bind, touch at 1.
  set (g1 := with_link _ _). assert (H1 : down (link g1)) by apply down_recovery.
  unfold mbind at 1, acting_bind, look at 1. set (g2 := elapsed g1). pose proof (down_elapsed _ H1 : down (link g2)) as H2.
  destruct (is_connected (link g2)); cbn [negb]; [|intros [= <- <-]; apply recovered_down; [done|by left]].
  unfold mbind at 1, acting_bind. destruct (drain_application limit r g2) as [[a|e] g3] eqn:H23;
    pose proof (drain_application_down _ _ _ H23 H2) as H3; [|intros [= <- <-]; apply recovered_down; [done|by eauto]].
  unfold mbind at 1, acting_bind. destruct a; cbn [negb]; [|intros [= <- <-]; apply recovered_down; [done|by left]].
  destruct (drain_commands limit g3) as [[c|e] g4] eqn:H34;
    pose proof (drain_commands_down _ _ _ H34 H3) as H4; [|intros [= <- <-]; apply recovered_down; [done|by eauto]].
  destruct c; cbn [negb]; [|intros [= <- <-]; apply recovered_down; [done|by left]].
  unfold mbind, acting_bind, touch, look. intros [= <- <-]. split; [reflexivity|].
  right. by eapply (drains_true g2 g3 g4).
Qed.

(** C9: the gateway is ready only over empty outboxes.  A recovery that returns says whether the
    link is ready as it leaves it, and one that raises leaves it unready; and whenever it leaves
    the application ready on a link that is not over, no command and no application event of
    this gateway waits in the store, neither for its publication nor for evidence about an
    ambiguous one. *)
Theorem ready_over_empty_outboxes (g g' : gateway) (o : result service_failure bool)
    (Hd : consistent (Publication.store (world_ g))) (Hg : recover_application limit r g = (o, g')) :
  match o with Ok ready => ready = is_ready (link g') | Err _ => is_ready (link g') = false end ∧
  (application_ready (link g') = true → is_terminal (link g') = false →
     let d := Publication.store (world_ g') in
     Forall (λ x, ¬ waiting x) (rows d COMMAND_OUTBOX) ∧
     Forall (λ x, cell x "producer" = SText APPLICATION_PRODUCER → ¬ waiting x) (rows d APPLICATION_OUTBOX)).
Proof.
  destruct (recover_application_recovers g o g' Hd Hg) as [Ho [[Hl|Hl]|[Hc He]]]; (split; [exact Ho|]).
  - by rewrite Hl.
  - by rewrite Hl.
  - intros _ _. split; apply Forall_forall; [exact Hc|exact He].
Qed.

(** ** A command whose publication is ambiguous *)

(** Recovery leaves everything but the outboxes as it was, and every ambiguous command. *)
Definition spares (l l' : ledger) : Prop :=
  let d := Publication.store l.1 in let d' := Publication.store l'.1 in
  consistent d →
  consistent d' ∧ confined [APPLICATION_OUTBOX; COMMAND_OUTBOX] d d' ∧ l'.2 = l.2 ∧
  ∀ id x, StoreOutbox.entry d id = Some x → cell x "state" = SText (state_value RECONCILIATION_NEEDED) →
          StoreOutbox.entry d' id = Some x.

#[local] Instance spares_preorder : PreOrder spares.
Proof.
  split; [by intros l Hd; split_and!|]. intros l1 l2 l3 H12 H23 Hd. destruct (H12 Hd) as (Hd2&Hc2&Hs2&He2).
  destruct (H23 Hd2) as (Hd3&Hc3&Hs3&He3). split_and!; [done| |by rewrite Hs3|].
  - intros t Ht. by rewrite Hc3, Hc2.
  - intros id x Hx Hst. apply He3; [by apply He2|done].
Qed.

Lemma spares_same w w' ss : Publication.store w' ≡ Publication.store w → spares (w, ss) (w', ss).
Proof.
  intros Hs Hd. cbn in *. split_and!; [intros t; rewrite (Hs t); apply Hd|intros t _; apply Hs|done|].
  intros id x. unfold StoreOutbox.entry. by rewrite (found_proper _ _ _ _ Hs).
Qed.

Lemma spares_read {E A} (h : E → publication_failure) (m : tx E A) w o w' ss :
  effect unchanged m → committed h m w = (o, w') → spares (w, ss) (w', ss).
Proof.
  intros Hm. unfold committed. destruct (transaction m _) as [[a|e] d] eqn:Ht; intros [= _ <-]; apply spares_same; cbn.
  - apply transaction_Ok in Ht. by eapply Hm.
  - by apply transaction_Err in Ht as [_ ->].
Qed.

Lemma spares_events now w o w' ss : publish_application_batch limit r now w = (o, w') → spares (w, ss) (w', ss).
Proof.
  intros Hw Hd. cbn in *. destruct (batch_announced limit p r Hr _ _ _ _ Hw Hd) as (Hd'&Hc&_). split_and!; [done| |done|].
  - intros t Ht. apply Hc. rewrite elem_of_cons in Ht. rewrite list_elem_of_singleton. intros ->. apply Ht. by left.
  - intros id x. unfold StoreOutbox.entry, found. by rewrite (Hc COMMAND_OUTBOX) by by_decide.
Qed.

Lemma spares_commands now w o w' ss : publish_batch limit now w = (o, w') → spares (w, ss) (w', ss).
Proof.
  intros Hw Hd. cbn in *. destruct (proj1 (batch_published limit _ _ _ _ Hd Hw) Hd) as (Hd'&Hc&_&He).
  split_and!; [done| |done|].
  - intros t Ht. apply Hc. rewrite !elem_of_cons in Ht. rewrite list_elem_of_singleton. intros ->. apply Ht. right. by left.
  - intros id x Hx Hst. specialize (He id). rewrite Hx in He. destruct He as (x'&Hx'&[->|[Hstaged _]]); [done|].
    by rewrite Hst in Hstaged.
Qed.

Abbreviation within := (ensures (on_ledgers spares)).

Lemma spares_published {A} (m : acting world publication_failure A) :
  (∀ w o w' ss, m w = (o, w') → spares (w, ss) (w', ss)) → within (Service.published m).
Proof. apply keeps_published. Qed.

Lemma restore_spares : within (restore_readiness limit r).
Proof.
  assert (Hl : ∀ A (f : BrokerLifecycle → A), within (look f)) by (intros; apply keeps_look; apply _).
  assert (Hc : ∀ A (f : nat → A), within (consult f)) by (intros; apply keeps_consult; apply _).
  assert (Ht : ∀ f, within (touch f)) by (intros; apply keeps_touch; apply _).
  assert (Hret : ∀ A (a : A), within (mret a)) by (intros; apply ensures_ret; apply _).
  pose proof (λ now, spares_published _ (spares_events now)) as He.
  pose proof (λ now, spares_published _ (spares_commands now)) as Hcm.
  assert (Hre : within (Service.published (committed (EventOutboxFailure ∘ StoreEvents.Store) (reconciliation APPLICATION_PRODUCER))))
    by (apply spares_published; intros ????; apply spares_read; unfold reconciliation, reconciliation_statement, selection_statement; effects).
  assert (Hrc : within (Service.published (committed (CommandOutboxFailure ∘ StoreOutbox.Store)
    (StoreOutbox.pending RECONCILIATION_NEEDED Publication.COMMAND_PUBLICATION_BATCH_SIZE))))
    by (apply spares_published; intros ????; apply spares_read; unfold StoreOutbox.pending, pending_statement; effects).
  unfold restore_readiness, recover_application, drain_application, drain_commands.
  repeat first [apply (ensures_bind (on_ledgers spares)); [|intros ?] | case_match | done | by apply Hl | by apply Hc
    | by apply Ht | by apply Hret].
Qed.

(** An unready gateway with an ambiguous command. *)
Definition halted (id : string) (x : row) (g : gateway) : Prop :=
  consistent (Publication.store (world_ g)) ∧ down (link g) ∧
  StoreOutbox.entry (Publication.store (world_ g)) id = Some x ∧
  cell x "state" = SText (state_value RECONCILIATION_NEEDED).

Lemma halted_step {A} (m : serving A) id x g o g' :
  within m → ensures stays_down m → halted id x g → m g = (o, g') → halted id x g'.
Proof.
  intros Hw Hl (Hd&Hdown&Hx&Hst) Hm. destruct (Hw _ _ _ Hm Hd) as (Hd'&_&_&He).
  split_and!; [done|by eapply Hl|by apply He|done].
Qed.

Lemma restore_halted id x g o g' :
  halted id x g → restore_readiness limit r g = (o, g') → halted id x g'.
Proof.
  intros Hh Hg. pose proof Hh as (Hd&Hdown&Hx&Hst). destruct (restore_spares _ _ _ Hg Hd) as (Hd'&_&_&He).
  assert (Hx' : StoreOutbox.entry (Publication.store (world_ g')) id = Some x) by by apply He.
  split_and!; [done| |done|done]. revert Hg Hx'.
  unfold restore_readiness, mbind at 1, acting_bind, look at 1. set (g1 := elapsed g).
  pose proof (down_elapsed _ Hdown : down (link g1)) as H1. unfold mbind, acting_bind.
  destruct (is_connected (link g1)); [|intros [= _ <-] _; by apply (down_elapsed g1)].
  destruct (recover_application limit r g1) as [o2 g2] eqn:H2.
  apply recover_application_recovers in H2 as [_ [Hl|[Hc _]]]; [| |done].
  - destruct o2; intros [= _ <-] _; [by apply (down_elapsed g2)|done].
  - intros Hg Hx'. assert (world_ g' = world_ g2) as Hw by (by destruct o2; injection Hg as _ <-).
    rewrite Hw in Hx'. apply found_Some in Hx' as [Hin _]. destruct (Hc _ Hin). by right.
Qed.

Lemma restore_answer g b g' : restore_readiness limit r g = (Ok b, g') → b = is_ready (link g').
Proof.
  unfold restore_readiness, mbind, acting_bind, look. destruct (is_connected _); [destruct (recover_application _ _ _) as [[] g2]|];
    by intros [= <- <-].
Qed.

Lemma leaving_halted id x g o g' : halted id x g → leaving g = (o, g') → halted id x g' ∧ view g' = view g.
Proof.
  intros Hh Hg. unfold leaving, mbind, acting_bind, look, consult in Hg.
  destruct Hh as (Hd&Hdown&Hx). pose proof (down_elapsed _ Hdown) as H1. pose proof (down_elapsed _ H1) as H2.
  destruct (BrokerLink.state (link (elapsed g))); injection Hg as _ <-; by split_and!; try done.
Qed.

(** C10: a gateway that does not know whether a command went out takes nothing more in.  Unready,
    with a command in its outbox whose publication the broker left ambiguous, and however long
    it runs: it settles no message and is never ready, it changes no table but its two outboxes,
    and the command's row stays exactly as it is. *)
Theorem ambiguity_halts_intake (turns : nat) (queues : list (string * string)) (first : nat)
    (g g' : gateway) (o : result service_failure (option ServiceExit)) (id : string) (x : row)
    (Hh : halted id x g) (Hg : serve_application limit turns r queues first g = (o, g')) :
  settled g' = settled g ∧ is_ready (link g') = false ∧
  confined [APPLICATION_OUTBOX; COMMAND_OUTBOX] (Publication.store (world_ g)) (Publication.store (world_ g')) ∧
  StoreOutbox.entry (Publication.store (world_ g')) id = Some x.
Proof.
  enough (halted id x g' ∧ spares (view g) (view g')) as [(_&Hl&Hx&_) Hs].
  { destruct (Hs (proj1 Hh)) as (_&Hc&Hset&_). by split_and!; [|apply down_unready| |]. }
  revert g first Hh Hg. induction turns as [|turns IH]; intros g first Hh Hg; cbn [serve_application] in Hg.
  { injection Hg as _ <-. by split. }
  unfold mbind at 1, acting_bind in Hg. destruct (leaving g) as [[[e|]|e] g1] eqn:H1; apply (leaving_halted id x) in H1 as [H1 V1]; try done.
  1,3: injection Hg as _ <-; by rewrite V1.
  unfold mbind at 1, acting_bind, look at 1 in Hg. set (g2 := elapsed g1) in *.
  assert (H2 : halted id x g2) by (destruct H1 as (?&Hl&?&?); split_and!; try done; exact (down_elapsed _ Hl)).
  rewrite (down_unready _ (proj1 (proj2 H2))) in Hg. unfold mbind at 1, acting_bind in Hg.
  destruct (restore_readiness limit r g2) as [[b|e] g3] eqn:H3; pose proof (restore_halted _ _ _ _ _ H2 H3) as Hh3;
    pose proof (restore_spares _ _ _ H3 : spares (view g2) (view g3)) as S3; rewrite <- V1;
    change (view g1) with (view g2).
  2: { by injection Hg as _ <-. }
  assert (b = false) as -> by (rewrite (restore_answer _ _ _ H3); by apply down_unready, Hh3).
  destruct (IH _ _ Hh3 Hg) as [H4 S4]. split; [done|]. by etransitivity.
Qed.
End recovery.

(** ** Over the sample store *)

Abbreviation sample_recovery := (recover_application (Env := surroundings 14) DIGITS gateway_router starting).

Lemma ready_over_empty_outboxes_witness :
  application_ready (link sample_recovery.2) = true ∧
  Forall (λ x, ¬ waiting x) (rows (Publication.store (world_ sample_recovery.2)) COMMAND_OUTBOX).
Proof.
  assert (Ha : application_ready (link sample_recovery.2) = true) by (vm_compute; reflexivity).
  assert (Ht : is_terminal (link sample_recovery.2) = false) by (vm_compute; reflexivity).
  split; [exact Ha|].
  destruct (ready_over_empty_outboxes (Env := surroundings 14) DIGITS gateway_router
    (λ t H, not_elem_of_nil _ H) starting sample_recovery.2 sample_recovery.1 ready_consistent
    (surjective_pairing _)) as [_ Hs].
  exact (proj1 (Hs Ha Ht)).
Defined.

(** A broker that never says whether a publication arrived, and the command it leaves behind. *)
Definition wavering : Broker := {|
  answered := λ _ _, Some PUBLISH_AMBIGUOUS;
  correlated := λ _ _ _, {| inbound_payload := None; destination_name := None; user_properties := PyNone |} |}.

Abbreviation wavered := (publish_batch (B := wavering) DIGITS "2026-07-28T09:00:31.000Z" granted_world).
Definition uncertain_gateway : gateway := {|
  world_ := wavered.2; link := recovery_required (lifecycle bound); sequence := 0; tick := 0; settled := [] |}.
Definition uncertain_row : row :=
  default [] (StoreOutbox.entry (Publication.store (world_ uncertain_gateway)) "command-1").

Lemma ambiguity_halts_intake_witness :
  ∃ o g', serve_application (Env := surroundings 14) DIGITS 5 gateway_router queues 0 uncertain_gateway = (o, g') ∧
    settled g' = [] ∧ is_ready (link g') = false.
Proof.
  set (run := serve_application (Env := surroundings 14) DIGITS 5 gateway_router queues 0 uncertain_gateway).
  exists run.1, run.2. split; [apply surjective_pairing|].
  destruct (ambiguity_halts_intake (Env := surroundings 14) DIGITS gateway_ports gateway_router router_accepted
    (λ t H, not_elem_of_nil _ H) 5 queues 0 uncertain_gateway run.2 run.1 "command-1" uncertain_row) as (Hs&Hr&_).
  - split_and!.
    + exact (proj1 (proj1 (batch_published (B := wavering) DIGITS _ granted_world wavered.1 wavered.2 granted_consistent
        (surjective_pairing _)) granted_consistent)).
    + left. vm_compute. reflexivity.
    + vm_compute. reflexivity.
    + vm_compute. reflexivity.
  - apply surjective_pairing.
  - split; [exact Hs|exact Hr].
Defined.
