(* ===== verification/Stalled.v ===== *)
(** * What the service does not do: record a send, outlive a reused identity

    [progression.py] has the two calls that would move a command from [ACCEPTED], [record_send]
    and [record_timeout]; [service.py] makes neither.  Whatever the serving loop does, it leaves
    each command it has accepted at its initial progress, where no drone's result can move it.
    And [dispatch_guaranteed] catches four refusals, of which an inbox conflict is none. *)

From stdpp Require Import gmap sets strings sorting relations.
From S2P Require Import Prelude PyStr PyVal Canonical JsonBytes Instant Topics Envelope Lifecycle Commands Outbox Sql Schema StoreProposals Digest StoreProgress StoreRefusals StoreOutbox StoreEvents StoreInbox StoreBindings StoreClaims StoreAudit StoreApprovals Principals Ingress Routing BrokerLink Exchange Artifacts Delivery Authorization Authorized Publication Published Drained ApprovalIngress Progression Normalization Normalized Footprint GatewaySample Queues Service Served.
Local Open Scope string_scope.
Local Open Scope Z_scope.

Section idle.
Context `{N : Normalization} `{M : PayloadModels} `{D : Database} (limit : nat).

(** Every command stands where it was accepted: no send, no result. *)
Definition never_sent (d : db) : Prop := ∀ x, x ∈ rows d COMMAND_PROGRESS → stands_at x INITIAL_PROGRESS.

Definition idle (d d' : db) : Prop := durable d d' ∧ (consistent d → never_sent d → never_sent d').

#[local] Instance idle_preorder : PreOrder idle.
Proof.
  split; [by intros d; split|]. intros d1 d2 d3 [H1 S1] [H2 S2]. split; [by etransitivity|]. intros Hd Hn.
  apply S2; [by apply H1|by apply S1].
Qed.

Lemma idle_confined ts d d' : durable d d' → confined ts d d' → COMMAND_PROGRESS ∉ ts → idle d d'.
Proof. intros Hs Hc Ht. split; [done|]. intros _ Hn x. rewrite (Hc _ Ht). apply Hn. Qed.

Lemma effect_idle {E A} ts (m : tx E A) :
  effect durable m → effect (confined ts) m → COMMAND_PROGRESS ∉ ts → effect idle m.
Proof. intros Hs Hc Ht d a d' Hm. eapply idle_confined; [by eapply Hs|by eapply Hc|done]. Qed.

Lemma initialize_idle i at_ : effect idle (initialize i at_).
Proof.
  intros d a d' Hi. split; [by eapply initialize_durable|]. intros Hd Hn x Hx.
  apply initialize_Ok in Hi as [_ Hr]; [|done]. rewrite (Hr COMMAND_PROGRESS), decide_True in Hx by done. apply elem_of_app in Hx as [Hx|Hx]; [by apply Hn|].
  by apply list_elem_of_singleton in Hx as ->.
Qed.

(** No result moves a command from its initial progress. *)
Lemma initial_refuses outcome event p : event_of outcome = Some event → advance INITIAL_PROGRESS event SEND_BUDGET ≠ Ok p.
Proof. intros He. unfold event_of in He. cbn [dict_get] in He. repeat case_decide; by simplify_eq. Qed.

(** A result that is handled there changes no command. *)
Lemma handled_unmoved id i d r d' :
  consistent d → never_sent d → body (command_result_handler limit) id i d = Ok (r, d') →
  Progression.outcome r ≠ UPDATED ∧ rows d' COMMAND_PROGRESS = rows d COMMAND_PROGRESS.
Proof.
  intros Hd Hn Hr. apply handled_result in Hr as [_ [_ Hf]]; [|done].
  destruct (Progression.outcome r); [|by destruct Hf as [Hf _]..|done].
  destruct Hf as (was&event&became&(x&Hx&Hst&_)&He&Ha&_). apply found_Some in Hx as [Hx _].
  rewrite (stands_at_unique _ _ _ Hst (Hn _ Hx)) in Ha. by destruct (initial_refuses _ _ _ He Ha).
Qed.

Lemma result_idle id i : effect idle (body (command_result_handler limit) id i).
Proof.
  intros d r d' Hr. split; [by eapply (handler_durable limit), Hr; apply result_gateway_handler|].
  intros Hd Hn. destruct (handled_unmoved _ _ _ _ _ Hd Hn Hr) as [_ Hs]. intros x. rewrite Hs. apply Hn.
Qed.

Lemma persist_decision_idle id i s v : effect idle (persist_decision limit id i s v).
Proof.
  pose proof initialize_idle.
  assert (∀ b, effect idle (persist b))
    by (intros; eapply (effect_idle [APPROVAL]); [apply consumed_durable|unfold persist; effects; apply persist_confined|by_decide]).
  assert (∀ r, effect idle (append r)) by (intros; eapply effect_idle; [apply append_durable|apply append_confined|by_decide]).
  assert (∀ e, effect idle (StoreEvents.stage e))
    by (intros; eapply effect_idle; [apply stage_event_durable|apply stage_event_confined|by_decide]).
  assert (∀ c, effect idle (StoreOutbox.stage c))
    by (intros; eapply effect_idle; [apply stage_command_durable|apply stage_confined|by_decide]).
  assert (∀ k r, effect idle (record_result k r))
    by (intros; eapply effect_idle; [apply record_result_durable|apply record_result_confined|by_decide]).
  assert (∀ r at_, effect idle (StoreInbox.complete id r at_))
    by (intros; eapply effect_idle; [apply complete_durable|apply complete_confined|by_decide]).
  unfold persist_decision. effects.
Qed.

Lemma command_idle s now id i : effect idle (body (operator_command_handler limit s now) id i).
Proof.
  cbn. assert (effect idle (StoreInbox.claim id))
    by (eapply effect_idle; [apply claim_durable|apply StoreInbox.claim_confined|by_decide]).
  assert (∀ c, effect idle (StoreClaims.claim c))
    by (intros; eapply effect_idle; [apply command_claim_durable|apply command_claim_confined|by_decide]).
  assert (∀ r at_, effect idle (StoreInbox.complete id r at_))
    by (intros; eapply effect_idle; [apply complete_durable|apply complete_confined|by_decide]).
  assert (∀ a, effect idle (authorize_escalation limit i a now))
    by (intros; apply (effect_idle []); [apply authorize_escalation_durable|apply effect_unchanged_confined, authorize_escalation_unchanged|by_decide]).
  pose proof persist_decision_idle. unfold authorize_command, process_claimed. effects.
Qed.

Lemma approval_idle now id i : effect idle (body (operator_approval_handler limit now) id i).
Proof.
  eapply effect_idle; [by apply (handler_durable limit _ _ (approval_gateway_handler limit now))|apply approval_confined|by_decide].
Qed.

(** A delivery handled by such a body. *)
Lemma handled_idle `{P : SettlementPort} {I E R} (h : guaranteed I E R) dl observed d :
  (∀ id i, effect idle (body h id i)) → idle d (Delivery.store (handle limit h dl observed d)).
Proof.
  intros Hb. apply (handled_keeps limit idle); [|exact Hb].
  intros c. eapply idle_confined; [apply record_candidate_durable|apply record_candidate_confined|by_decide].
Qed.
End idle.

(** ** A run *)

Section stalled.
Context `{N : Normalization} `{M : PayloadModels} `{D : Database} `{B : Broker} `{P : SettlementPort}.
Context `{Env : Surroundings} (limit : nat) (p : PublicationPorts) (r : DeliveryRouter) (Hr : delivery_router COMMAND_GATEWAY p = Ok r).

Definition stalls (l l' : ledger) : Prop :=
  lasting limit l l' ∧ (consistent (Publication.store l.1) → never_sent (Publication.store l.1) → never_sent (Publication.store l'.1)).

#[local] Instance stalls_preorder : PreOrder stalls.
Proof.
  split; [by intros l; split|]. intros l1 l2 l3 [H1 S1] [H2 S2]. split; [by etransitivity|]. intros Hd Hn.
  apply S2; [by apply H1|by apply S1].
Qed.

Lemma stalls_confined ts (l l' : ledger) :
  lasting limit l l' → (consistent (Publication.store l.1) → confined ts (Publication.store l.1) (Publication.store l'.1)) →
  COMMAND_PROGRESS ∉ ts → stalls l l'.
Proof. intros Hl Hc Ht. split; [done|]. intros Hd Hn x. rewrite (Hc Hd _ Ht). apply Hn. Qed.

Lemma stalls_delivery {I E X} (h : guaranteed I E X) ts name m at_ :
  gateway_handler limit h ts → (∀ id i, effect idle (body h id i)) →
  keeps_delivery stalls name m (handle limit h (guaranteed_delivery m) at_).
Proof.
  intros Hh Hi l. split; [by eapply lasting_delivery|]. apply handled_idle. exact Hi.
Qed.

Lemma stalls_read {E A} (h : E → publication_failure) (m : tx E A) w o w' ss :
  effect unchanged m → committed h m w = (o, w') → stalls (w, ss) (w', ss).
Proof.
  intros Hm Hw. apply (stalls_confined []); [by eapply lasting_read| |by_decide]. intros _. cbn.
  unfold committed in Hw. destruct (transaction m _) as [[a|e] d] eqn:Ht; injection Hw as _ <-; cbn.
  - apply transaction_Ok in Ht. intros t _. by eapply Hm.
  - by apply transaction_Err in Ht as [_ ->].
Qed.

Lemma served_consistent turns queues first g :
  consistent (Publication.store (world_ g)) →
  consistent (Publication.store (world_ (serve_application limit turns r queues first g).2)).
Proof.
  intros Hd. by destruct (keeps_serving limit (lasting limit) r (parts_last limit p r Hr) queues turns first g _ _
    (surjective_pairing _) Hd) as (_&_&?&_).
Qed.

Lemma stalls_refusal name m : ensures (on_ledgers stalls) (refuse_trace limit name m).
Proof.
  intros g o g' Hg. pose proof (trace_refusal_lasts limit name m _ _ _ Hg) as Hl.
  apply refuse_trace_run in Hg as [[Hv _]|(at_&c&Hv&_)]; unfold on_ledgers in *; rewrite Hv in *; [done|].
  eapply stalls_confined; [exact Hl|intros _; apply record_candidate_confined|by_decide].
Qed.

Lemma stalls_native name m : ensures (on_ledgers stalls) (refuse_trace limit name m ;; reject_native name m).
Proof.
  intros g o g' Hg. pose proof (native_refusal_lasts limit name m _ _ _ Hg) as Hl. split; [exact Hl|].
  unfold mbind, acting_bind in Hg. destruct (refuse_trace limit name m g) as [[[]|e] g1] eqn:H1;
    pose proof (stalls_refusal _ _ _ _ _ H1) as [_ Hs]; by injection Hg as _ <-.
Qed.

Lemma parts_stall : parts_keep limit stalls r.
Proof.
  pose proof (parts_last limit p r Hr) as [He Hc Her Hcr Hx Hn _ _ Hcom Happ Hres]. split.
  - intros now w o w' ss Hw. apply (stalls_confined [APPLICATION_OUTBOX]); [by eapply He| |by_decide].
    intros Hd. by destruct (batch_announced limit p r Hr _ _ _ _ Hw Hd) as (_&?&_).
  - intros now w o w' ss Hw. apply (stalls_confined [COMMAND_OUTBOX]); [by eapply Hc| |by_decide].
    intros Hd. by destruct (proj1 (batch_published limit _ _ _ _ Hd Hw) Hd) as (_&?&_).
  - intros w o w' ss. apply stalls_read. unfold reconciliation, reconciliation_statement, selection_statement. effects.
  - intros w o w' ss. apply stalls_read. unfold StoreOutbox.pending, pending_statement. effects.
  - intros m s d log o log' ss Hm. by apply (stalls_confined []); [by eapply Hx| |by_decide].
  - intros dl s l. eapply stalls_confined; [apply Hn|intros _; apply response_confined|by_decide].
  - apply stalls_refusal.
  - apply stalls_native.
  - intros name m s now at_. eapply stalls_delivery; [apply command_gateway_handler|apply command_idle].
  - intros name m now at_. eapply stalls_delivery; [apply approval_gateway_handler|apply approval_idle].
  - intros name m at_. eapply stalls_delivery; [apply result_gateway_handler|apply result_idle].
Qed.

(** C23: the service never records a send, so nothing a drone answers moves its command.  From a
    store whose commands all stand where they were accepted, however long the service runs and
    whatever it publishes, they all still stand there; and no command result handled over the
    store it leaves reports an update: it is stale, a mismatch or a duplicate. *)
Theorem sends_never_recorded (turns : nat) (queues : list (string * string)) (first : nat)
    (g g' : gateway) (o : result service_failure (option ServiceExit))
    (Hd : consistent (Publication.store (world_ g))) (Hn : never_sent (Publication.store (world_ g)))
    (Hg : serve_application limit turns r queues first g = (o, g')) :
  never_sent (Publication.store (world_ g')) ∧
  ∀ dl observed answer,
    returned (handle_command_result limit dl observed (Publication.store (world_ g'))) = Ok answer →
    Progression.outcome answer ≠ UPDATED.
Proof.
  destruct (keeps_serving limit stalls r parts_stall queues turns first _ _ _ Hg) as [Hl Hs].
  destruct (Hl Hd) as (_&_&Hd'&_). specialize (Hs Hd Hn). split; [exact Hs|]. intros dl observed answer Ha.
  apply handle_returned in Ha as (a&i&id&_&_&_&Hb). by eapply handled_unmoved.
Qed.
End stalled.

(** ** A reused event identity *)

Section reused.
Context `{N : Normalization} `{M : PayloadModels} `{D : Database} `{B : Broker} `{P : SettlementPort}.
Context `{Env : Surroundings} (limit : nat) (r : DeliveryRouter).

(** The channel, envelope and mission a guaranteed message is claimed under. *)
Definition claimed_as (a : AcceptedIngress) : option (Family * Envelope * string) :=
  match a with
  | AcceptedCommand i => Some (OPERATOR_COMMAND, command_envelope i, Ingress.mission_id (command_payload i))
  | AcceptedApproval i => Some (OPERATOR_APPROVAL, approval_envelope i, approval_mission (approval_payload i))
  | AcceptedResult i => Some (DRONE_COMMAND_RESULT, result_envelope i, result_mission (result_payload i))
  | _ => None
  end.

(** Its event identity is in the inbox, under the digest of other bytes. *)
Definition reused (d : db) (name : string) (m : InboundMessage) : Prop :=
  let dl := guaranteed_delivery m in ∃ a f e mission id x,
    accept_ingress limit (Delivery.payload dl) (PyStr (Delivery.topic dl)) = Ok a ∧
    claimed_as a = Some (f, e, mission) ∧ name = literal_suffix f ∧ inbox_identity e mission = Ok id ∧
    StoreInbox.entry d id = Some x ∧ cell x "canonical_digest" ≠ SText (canonical_digest id).

(** No claim of such an identity returns. *)
Lemma conflict_refused id d x :
  consistent d → StoreInbox.entry d id = Some x → cell x "canonical_digest" ≠ SText (canonical_digest id) →
  ∃ e, StoreInbox.claim id d = Err e.
Proof.
  intros Hd Hx Hn. destruct (StoreInbox.claim id d) as [[o d']|e] eqn:Hc; [|by exists e].
  apply StoreInbox.claim_Ok in Hc; [|done]. rewrite Hx in Hc. destruct Hc as (_&res&_&(y&?&Hy&Hdig&_)).
  rewrite Hx in Hy. by injection Hy as <-.
Qed.

Lemma lifted_first {E E' A X} (h : E → E') (m : tx E A) (f : A → tx E' X) d e :
  m d = Err e → (lift h m ≫= f) d = Err (h e).
Proof. intros Hm. unfold mbind, tx_bind, lift. by rewrite Hm. Qed.

(** A transaction that fails leaves the delivery unsettled. *)
Lemma handle_raises {I E X} (h : guaranteed I E X) dl at_ d a i id e :
  accept_ingress limit (Delivery.payload dl) (PyStr (Delivery.topic dl)) = Ok a → selected h a = Some i →
  identity h i = Ok id → body h id i d = Err e →
  handle limit h dl at_ d = raising (Raised e) d.
Proof.
  intros Ha Hs Hi Hb. unfold handle. rewrite Ha, Hs, Hi. unfold transaction. by rewrite Hb.
Qed.

(** A stamp that cannot be made is a clock's failure, and touches nothing. *)
Lemma stamp_touches_nothing g o g' :
  next_authorization g = (o, g') → view g' = view g ∧ ∀ e, o = Err e → delivery_refused e = None.
Proof.
  intros Hg. unfold next_authorization, identifiers, instant, traceparent, next_sequence, mbind, acting_bind, consult, calm in Hg.
  destruct (format_instant _); injection Hg as <- <-; (split; [reflexivity|]); [by intros ?|by intros ? [= <-]].
Qed.

(** A delivery whose handler raised no refusal of its own. *)
Lemma delivered_raises {E A} name m (h : delivery_failure E → service_failure) (k : db → Delivery.outcome E A) e g :
  k (Publication.store (world_ g)) = raising (Raised e) (Publication.store (world_ g)) →
  delivered name m h k g = (Err (h (Raised e)), g).
Proof.
  intros Hk. unfold delivered. rewrite Hk. cbn. rewrite app_nil_r. by destruct g as [[] ? ? ? ?].
Qed.

(** The failure of a reused identity is an inbox failure of each handler. *)
Lemma reused_raises name m d :
  consistent d → reused d name m → let dl := guaranteed_delivery m in ∃ c,
  (name = literal_suffix OPERATOR_COMMAND ∧ ∀ s now at_,
     handle_operator_command limit dl s now at_ d = raising (Raised (Authorization.InboxFailure c)) d) ∨
  (name = literal_suffix OPERATOR_APPROVAL ∧ ∀ now at_,
     handle_operator_approval limit dl now at_ d = raising (Raised (ApprovalIngress.InboxFailure c)) d) ∨
  (name = literal_suffix DRONE_COMMAND_RESULT ∧ ∀ at_,
     handle_command_result limit dl at_ d = raising (Raised (Progression.InboxFailure c)) d).
Proof.
  intros Hd (a&f&e&mission&id&x&Ha&Hc&->&Hid&Hx&Hn). destruct (conflict_refused _ _ _ Hd Hx Hn) as [c Hclaim]. exists c.
  destruct a as [i|i|i|i|i]; try done; injection Hc as <- <- <-; [left|right; left|right; right]; (split; [done|]); intros;
    (eapply handle_raises; [exact Ha|reflexivity|by apply map_err_Ok|]); unfold authorize_command, deduplicated;
    by apply lifted_first.
Qed.

(** What escapes the handlers of [dispatch_guaranteed], with nothing done. *)
Definition escapes {A} (m : acting gateway service_failure A) (g : gateway) : Prop :=
  view (m g).2 = view g ∧ ∃ e, (m g).1 = Err e ∧ delivery_refused e = None.

Lemma escapes_delivered {E A C} name m (h : delivery_failure E → service_failure) (k : string → db → Delivery.outcome E A)
    (f : A → acting gateway service_failure C) e g :
  (∀ at_, k at_ (Publication.store (world_ g)) = raising (Raised e) (Publication.store (world_ g))) →
  delivery_refused (h (Raised e)) = None →
  escapes (observed ← consult observed_at; delivered name m h (k observed) ≫= f) g.
Proof.
  intros Hk Hh. unfold escapes, mbind, acting_bind, consult.
  rewrite (delivered_raises name m h _ e (elapsed g)) by apply Hk. split; [done|]. eauto.
Qed.

Lemma escapes_stamp {A} (f : AuthorizationStamp → acting gateway service_failure A) g :
  (∀ s g', view g' = view g → escapes (f s) g') → escapes (s ← next_authorization; f s) g.
Proof.
  intros Hf. unfold escapes, mbind, acting_bind. destruct (next_authorization g) as [[s|e] g'] eqn:Hs;
    apply stamp_touches_nothing in Hs as [Hv He].
  - destruct (Hf s g' Hv) as [Hv' Ho]. by rewrite Hv', Hv.
  - split; [done|]. exists e. auto.
Qed.

Lemma escapes_excepting (m : acting gateway service_failure GuaranteedDispatchOutcome) g :
  escapes m g → ∃ e g', excepting delivery_refused m g = (Err e, g') ∧ view g' = view g.
Proof.
  intros (Hv&e&He&Hh). unfold excepting. destruct (m g) as [o g'] eqn:Hm. cbn in *. subst o. rewrite Hh. eauto.
Qed.

(** C26: one reused event identity ends the service, and leaves no trace.  A message that validates,
    but whose event is already in the inbox under the digest of other bytes, makes the dispatch of
    its channel raise, whichever of the three handlers takes it: nothing is settled, and store and
    wire are as they were, so no refusal is recorded and the broker will deliver it again. *)
Theorem reused_identity_escapes (name : string) (m : InboundMessage) (g g' : gateway) (o : result service_failure unit)
    (Hd : consistent (Publication.store (world_ g))) (Hu : reused (Publication.store (world_ g)) name m)
    (Ha : arriving_at (tick g) name = Message m) (Hg : dispatch_channel limit r name g = (o, g')) :
  (∃ e, o = Err e) ∧ world_ g' = world_ g ∧ settled g' = settled g.
Proof.
  enough ((∃ e, o = Err e) ∧ view g' = view g) as [He Hv] by (by injection Hv as -> ->).
  unfold dispatch_channel, mbind at 1, acting_bind, consult at 1 in Hg. rewrite Ha in Hg.
  destruct (reused_raises name m _ Hd Hu) as [c Hc].
  assert (Hnot : name ≠ DIRECT) by (by destruct Hc as [[-> _]|[[-> _]|[-> _]]]).
  rewrite bool_decide_eq_false_2 in Hg by done. unfold mbind at 1, acting_bind, consult at 1 in Hg.
  unfold mbind, acting_bind in Hg. set (g0 := elapsed (elapsed g)) in *.
  enough (∃ e g2, dispatch_guaranteed limit name m (authority_at (tick (elapsed g))) g0 = (Err e, g2) ∧ view g2 = view g0)
    as (e&g2&He&Hv) by (rewrite He in Hg; injection Hg as <- <-; eauto).
  unfold dispatch_guaranteed. destruct Hc as [[-> Hc]|[[-> Hc]|[-> Hc]]].
  - apply escapes_excepting, escapes_stamp. intros s g1 Hv. injection Hv as Hw _.
    eapply escapes_delivered; [intros at_; rewrite Hw; apply Hc|done].
  - apply escapes_excepting. eapply escapes_delivered; [apply Hc|done].
  - apply escapes_excepting. eapply escapes_delivered; [apply Hc|done].
Qed.
End reused.

(** ** Over the sample store: an escalation is accepted and published, and stays unsent *)

Lemma sends_never_recorded_witness :
  length (rows (Publication.store (world_ sample_run.2)) COMMAND_PROGRESS) = 1%nat ∧
  never_sent (Publication.store (world_ sample_run.2)).
Proof.
  split; [vm_compute; reflexivity|].
  assert (Hn : never_sent (Publication.store (world_ starting))).
  { intros x Hx. vm_compute in Hx. by apply not_elem_of_nil in Hx. }
  exact (proj1 (sends_never_recorded (Env := surroundings 14) DIGITS gateway_ports gateway_router router_accepted
    3 queues 0 starting sample_run.2 sample_run.1 ready_consistent Hn (surjective_pairing _))).
Defined.

(** The same event over other bytes, once the run has taken the first. *)
Definition reused_message : InboundMessage := {|
  inbound_payload := Some (Delivery.payload (escalation_delivery "event-1" "command-2"));
  destination_name := Some (Delivery.topic first_escalation); user_properties := PyNone |}.

Definition reusing : Surroundings := {|
  identifier_at := identifier_at (Surroundings := surroundings 14);
  wall_clock_at := wall_clock_at (Surroundings := surroundings 14);
  authority_at := authority_at (Surroundings := surroundings 14);
  observed_at := observed_at (Surroundings := surroundings 14);
  running_at := λ _, true; arriving_at := λ _ _, Message reused_message; callbacks_at := λ _, [] |}.

Abbreviation reused_run := (dispatch_channel (Env := reusing) DIGITS gateway_router COMMAND_CHANNEL sample_run.2).

Lemma sample_run_consistent : consistent (Publication.store (world_ sample_run.2)).
Proof.
  exact (served_consistent (Env := surroundings 14) DIGITS gateway_ports gateway_router router_accepted 3 queues 0 starting ready_consistent).
Qed.

Lemma reused_identity_escapes_witness :
  reused DIGITS (Publication.store (world_ sample_run.2)) COMMAND_CHANNEL reused_message ∧ settled reused_run.2 = settled sample_run.2.
Proof.
  assert (Hu : reused DIGITS (Publication.store (world_ sample_run.2)) COMMAND_CHANNEL reused_message).
  { do 6 eexists. split_and!; [vm_compute; reflexivity..|]. vm_compute. discriminate. }
  split; [exact Hu|].
  apply (reused_identity_escapes (Env := reusing) DIGITS gateway_router COMMAND_CHANNEL reused_message sample_run.2
    reused_run.2 reused_run.1 sample_run_consistent Hu eq_refl (surjective_pairing _)).
Defined.
