(* ===== verification/Vouched.v ===== *)
(** * No escalation without its approval, end to end

    The gateway writes an authorized command in one transaction and publishes it, possibly much
    later and after a restart, from the bytes in its outbox.  This file follows a rescue
    escalation from the decision to the wire: whatever the service is asked, by whom and however
    often, each escalation it hands to the broker names a proposal whose approval its store holds
    as executed. *)

From stdpp Require Import gmap sets strings sorting.
From S2P Require Import Prelude PyStr Regex PyVal Canonical JsonBytes Topics Envelope Lifecycle Outbox Sql Schema StoreRefusals StoreEvents StoreClaims StoreInbox StoreApprovals StoreProposals StoreInvocations StoreOutbox Principals Approvals Ingress Routing BrokerLink Reply Exchange Normalization Normalized ApprovalIngress Progression Footprint Artifacts Delivery Authorization Authorized GatewaySample Queues Publication Published Service Served.
Local Open Scope string_scope.
Local Open Scope Z_scope.

(** ** Reading back a canonical object *)

Section bytes.
Context `{N : Normalization} (limit : nat).

Lemma object_head (d : members) t :
  NoDup d.*1 → d ≠ [] → encode (PyDict d) = Ok t → ∃ rest, t = String "{" (String QUOTE rest).
Proof.
  intros Hnd Hne Ht. apply encode_object_Ok in Ht as (_&parts&Hp&->); [|done]. pose proof (Forall2_length _ _ _ Hp) as Hl.
  rewrite (Permutation_length (sort_members_Permutation _)) in Hl. unfold named in Hl. rewrite length_fmap in Hl.
  destruct parts as [|x parts]; [by destruct d|]. apply Forall2_cons_inv_r in Hp as (m&ms&(vt&_&->)&_&_).
  destruct parts; cbn; eauto.
Qed.

Lemma decode_bytes_object (d : members) t (v : pyval) :
  d ≠ [] → Canonical.well_formed (PyDict d) = true → (depth (PyDict d) ≤ limit)%nat →
  canonical_bytes (PyDict d) = Ok t → decode_bytes limit t = Ok v → v = canonical_form (PyDict d).
Proof.
  intros Hne Hwf Hdep Ht Hv. assert (Hnd : NoDup d.*1).
  { cbn [Canonical.well_formed] in Hwf. apply andb_true_iff in Hwf as [Hnd _]. by apply bool_decide_eq_true in Hnd. }
  destruct (object_head d t Hnd Hne Ht) as [rest Hr]. unfold decode_bytes in Hv. rewrite Hr in Hv.
  change (decode_text (String "{" (String QUOTE rest))) with (decode_utf8 (String "{" (String QUOTE rest))) in Hv.
  unfold decode_utf8 in Hv. destruct (valid_utf8 _ _); [|done]. rewrite <- Hr in Hv. unfold decode in Hv.
  rewrite (loads_encode limit _ t Hwf Hdep Ht) in Hv. destruct (canonical_bytes (canonical_form _)); [|done]. congruence.
Qed.
End bytes.

(** ** The bytes of a drone command *)

Section command.
Context `{N : Normalization} (limit : nat) (Hlimit : (3 ≤ limit)%nat).

(** The envelope type of a rescue escalation on its way to a drone. *)
Definition ESCALATION : string := COMMAND_TYPE_PREFIX ++ "escalate-rescue".

Lemma event_Ok i s spec t :
  event i s spec = Ok t →
  ∃ text topic kind schema sequence,
    format_topic (spec_topic spec) = Ok text ∧ parse_topic (PyStr text) = Ok topic ∧ event_type topic = Ok kind ∧
    canonical_bytes (PyDict (event_document i s spec kind schema sequence)) = Ok t.
Proof.
  unfold event, encoded. intros He. run_ok. by do 5 eexists.
Qed.

Lemma drone_kind i text topic :
  format_topic (drone_topic i) = Ok text → parse_topic (PyStr text) = Ok topic →
  event_type topic = Ok (COMMAND_TYPE_PREFIX ++ command_type_of (action (command_payload i))).
Proof.
  intros Hf Hp. destruct (format_topic_parses (drone_topic i) text) as (ps&Ht&Hps&_); [|done|].
  { cbn. by_decide. }
  rewrite Hp in Ht. injection Ht as ->. unfold event_type. cbn [Topics.family Topics.parameters drone_topic] in *.
  assert (Hc : dict_get ps "commandType" = Some (command_type_of (action (command_payload i)))) by (by rewrite Hps).
  destruct (action (command_payload i)); cbn [command_type_of] in *;
    change (type_levels DRONE_COMMAND) with ["drone"; "command"; "{commandType}"]; cbn [map_ok]; unfold fill;
    change (placeholder "{commandType}") with "commandType"; rewrite Hc; reflexivity.
Qed.
(** A parsed envelope says what its document says. *)
Lemma parsed_members d e :
  parse_envelope (PyDict d) = Ok e → get d "type" = PyStr (Envelope.type e) ∧ get d "data" = PyDict (Envelope.data e).
Proof.
  intros He%envelope_document_equiv. unfold get, member. rewrite <- !(He (KStr _)).
  rewrite !envelope_document_members. split; reflexivity.
Qed.

Lemma event_read_back i s spec kind schema sequence t e :
  Canonical.well_formed (PyDict (spec_payload spec)) = true → (depth (PyDict (spec_payload spec)) ≤ 2)%nat →
  canonical_bytes (PyDict (event_document i s spec kind schema sequence)) = Ok t →
  decode_delivered limit t = Ok e →
  Envelope.type e = nfc kind ∧ PyDict (Envelope.data e) = canonical_form (PyDict (spec_payload spec)).
Proof.
  intros Hwf Hdep Ht He. unfold decode_delivered in He. apply bind_Ok in He as (v&Hv%map_err_Ok&He).
  set (d := event_document i s spec kind schema sequence) in *.
  assert (Hd : v = canonical_form (PyDict d)).
  { eapply decode_bytes_object; [| | |exact Ht|exact Hv].
    - by subst d.
    - subst d. unfold event_document. clear -Hwf. remember (PyDict (spec_payload spec)) as body. clear Heqbody.
      destruct (stamp_tracestate s); cbn; by rewrite Hwf.
    - transitivity 3%nat; [|exact Hlimit]. subst d. unfold event_document. clear -Hdep.
      remember (PyDict (spec_payload spec)) as body. clear Heqbody. destruct (stamp_tracestate s); cbn; lia. }
  assert (Hg : get (document (sort_members ((λ kv, (key_text kv.1, canonical_form kv.2)) <$> d))) "type" = PyStr (nfc kind) ∧
    get (document (sort_members ((λ kv, (key_text kv.1, canonical_form kv.2)) <$> d))) "data" = canonical_form (PyDict (spec_payload spec))).
  { subst d. unfold event_document. destruct (stamp_tracestate s); split; reflexivity. }
  subst v. cbn [canonical_form] in He. apply parsed_members in He as [H1 H2]. destruct Hg as [G1 G2].
  rewrite H1 in G1. rewrite H2 in G2. split; [congruence|done].
Qed.
(** What the decoded bytes of a built command say: an escalation names the action's proposal. *)
Lemma built_command_reads i s approval why x c e :
  build_authorization_artifacts limit i s true approval why = Ok x → command_ x = Some c →
  decode_delivered limit (StoreOutbox.payload c) = Ok e → Envelope.type e = ESCALATION →
  ∃ a, action (command_payload i) = EscalateRescue a ∧
       get (Envelope.data e) "proposalId" = PyStr (nfc (Ingress.proposal_id a)).
Proof.
  intros Hx Hc He Ht. unfold build_authorization_artifacts in Hx. run_ok.
  cbn [negb] in *. run_ok. subst. cbn [command_] in Hc. injection Hc as <-. cbn [StoreOutbox.payload] in He.
  match goal with H : Artifacts.event _ _ {| spec_topic := drone_topic _ |} = Ok _ |- _ =>
    apply event_Ok in H as (text&topic&kind&schema&sequence&Hf&Hp&Hk&Hb) end.
  cbn [spec_topic] in Hf. rewrite (drone_kind _ _ _ Hf Hp) in Hk. injection Hk as <-.
  match goal with H : drone_payload _ _ = Ok ?b |- _ => unfold drone_payload in H; rename H into Hbody end.
  destruct (action (command_payload i)) as [a|a].
  - injection Hbody as <-. destruct (λ H1 H2, event_read_back _ _ _ _ _ _ _ e H1 H2 Hb He) as [Hty _]; [reflexivity|cbn; lia|].
    rewrite nfc_ascii in Hty by reflexivity. by rewrite Ht in Hty.
  - exists a. split; [done|]. apply bind_Ok in Hbody as (approved&_&[= <-]).
    destruct (λ H1 H2, event_read_back _ _ _ _ _ _ _ e H1 H2 Hb He) as [_ Hd]; [reflexivity|cbn; lia|].
    cbn [spec_payload canonical_form] in Hd. injection Hd as ->. reflexivity.
Qed.
End command.

(** ** The store and the wire *)

Section vouched.
Context `{N : Normalization} `{M : PayloadModels} `{L : !LawfulModels} `{D : Database} `{B : Broker} `{P : SettlementPort}.
Context `{Env : Surroundings} (limit : nat) (Hlimit : (3 ≤ limit)%nat) (p : PublicationPorts) (r : DeliveryRouter).
Context (Hr : delivery_router COMMAND_GATEWAY p = Ok r).

(** The approval of a proposal was consumed. *)
Definition executed (d : db) (proposal : string) : Prop :=
  ∃ row, StoreApprovals.entry d proposal = Some row ∧ cell row "state" = SText (Approvals.state_value EXECUTED).

(** Command bytes that, if they read as an escalation, name such a proposal. *)
Definition vouched (d : db) (payload : string) : Prop := ∀ e,
  decode_delivered limit payload = Ok e → Envelope.type e = ESCALATION →
  ∃ proposal, get (Envelope.data e) "proposalId" = PyStr proposal ∧ executed d proposal.

(** Every command in the outbox is vouched for, and no event in the other is a drone command. *)
Definition cleared (d : db) : Prop :=
  (∀ id x, StoreOutbox.entry d id = Some x → vouched d (StoreOutbox.payload (command_of x))) ∧
  (∀ x, x ∈ rows d APPLICATION_OUTBOX → cell x "family" ≠ SText (outbox_family DRONE_COMMAND)).

(** A publication on an escalation topic of some drone. *)
Definition escalates (x : Publication) : Prop := ∃ t,
  parse_topic (PyStr (destination x)) = Ok t ∧ Topics.family t = DRONE_COMMAND ∧
  dict_get (Topics.parameters t) "commandType" = Some "escalate-rescue".

(** The message reads as a command that names a proposal whose approval the store holds as executed. *)
Definition approved (d : db) (x : Publication) : Prop := ∃ e proposal,
  decode_delivered limit (Routing.body x) = Ok e ∧ get (Envelope.data e) "proposalId" = PyStr proposal ∧ executed d proposal.

Definition justified (d : db) (x : Publication) : Prop := escalates x → approved d x.

Lemma executed_later d d' proposal : approvals_progress d d' → executed d proposal → executed d' proposal.
Proof.
  intros Hp (x&Hx&Hs). destruct (Hp _ _ Hx) as (x'&Hx'&_&Hs'). exists x'. split; [done|].
  destruct Hs' as [->|[_ ->]]; done.
Qed.

Lemma vouched_later d d' t : approvals_progress d d' → vouched d t → vouched d' t.
Proof. intros Hp Hv e He Ht. destruct (Hv e He Ht) as (q&Hq&Hx). exists q. split; [done|]. by eapply executed_later. Qed.

Lemma justified_later d d' x : approvals_progress d d' → justified d x → justified d' x.
Proof.
  intros Hp Hj Hx. destruct (Hj Hx) as (e&q&He&Hq&Hex). exists e, q. split_and!; [done..|]. by eapply executed_later.
Qed.

(** What one step keeps. *)
Definition vouching (l l' : ledger) : Prop :=
  let d := Publication.store l.1 in let d' := Publication.store l'.1 in
  lasting limit l l' ∧
  (consistent d → cleared d →
   cleared d' ∧ ∃ ps, said l'.1 = (said l.1 ++ ps)%list ∧ Forall (justified d') ps).

#[local] Instance vouching_preorder : PreOrder vouching.
Proof.
  split; [intros l; split; [done|]; intros _ Hc; split; [done|exists []; by rewrite app_nil_r]|].
  intros l1 l2 l3 [H1 S1] [H2 S2]. split; [by etransitivity|]. intros Hd Hc.
  destruct (S1 Hd Hc) as (Hc2&ps&Hs2&Hp2). destruct (H1 Hd) as (_&_&Hd2&_).
  destruct (S2 Hd2 Hc2) as (Hc3&qs&Hs3&Hp3). split; [done|]. exists (ps ++ qs)%list.
  split; [by rewrite Hs3, Hs2, app_assoc|]. apply Forall_app. split; [|done]. eapply Forall_impl; [exact Hp2|].
  intros x. apply justified_later. by destruct (H2 Hd2) as (Hdur&_), (Hdur Hd2) as (_&_&?).
Qed.

Lemma prefix_removed q s : remove_prefix q s ≠ s → s = q ++ remove_prefix q s.
Proof.
  unfold remove_prefix. destruct (remove_prefix_opt q s) eqn:Hq; cbn [default from_option]; [|done].
  by apply remove_prefix_opt_Some in Hq.
Qed.

(** A command in the outbox goes out as it was vouched for. *)
Lemma spoken_justified d x : cleared d → speaks_for limit d x → justified d x.
Proof.
  intros [Hc _] (id&w&text&Hw&Ht&->) (t&Hp&Hf&Hk). cbn [destination command_publication] in Hp.
  unfold command_destination in Ht. apply bind_Ok in Ht as (e&He%map_err_Ok&Ht).
  apply bind_Ok in Ht as ([]&Hb%raise_if_Ok&Ht). apply bind_Ok in Ht as ([]&_&Hfmt%map_err_Ok).
  set (kind := remove_prefix COMMAND_TYPE_PREFIX (Envelope.type e)) in *.
  destruct (λ H, format_topic_parses _ _ H Hfmt) as (ps&Hps&Heq&_); [by_decide|]. rewrite Hp in Hps. injection Hps as ->.
  cbn [Topics.parameters command_topic_of] in Hk, Heq. rewrite Heq in Hk. cbn in Hk. injection Hk as Hk.
  destruct (Hc id w Hw e He) as (q&Hq&Hex); [|by exists e, q].
  apply negb_false_iff in Hb. unfold command_bound in Hb. repeat (apply andb_true_iff in Hb as [Hb _]).
  unfold ESCALATION. rewrite <- Hk. apply prefix_removed. fold kind. bools. congruence.
Qed.

(** The commands are the same and every event was there, or has a family of its own. *)
Lemma cleared_same d d' :
  approvals_progress d d' → rows d' COMMAND_OUTBOX = rows d COMMAND_OUTBOX →
  (∀ x', x' ∈ rows d' APPLICATION_OUTBOX →
     (∃ x, x ∈ rows d APPLICATION_OUTBOX ∧ cell x' "family" = cell x "family") ∨
     cell x' "family" ∈ [SText (outbox_family AUDIT); SText (outbox_family AGENT_PROPOSAL)]) →
  cleared d → cleared d'.
Proof.
  intros Hp Hc He [H1 H2]. split.
  - intros id x. unfold StoreOutbox.entry, found. rewrite Hc. intros Hx. eapply vouched_later; [exact Hp|]. by apply (H1 id).
  - intros x' [(x&Hx&->)|Hf]%He; [by apply H2|]. intros Hx. rewrite Hx in Hf.
    rewrite !elem_of_cons, elem_of_nil in Hf. by destruct Hf as [?|[?|?]].
Qed.

Lemma lasting_approvals (l l' : ledger) :
  lasting limit l l' → consistent (Publication.store l.1) → approvals_progress (Publication.store l.1) (Publication.store l'.1).
Proof. intros Hl Hd. destruct (Hl Hd) as (Hdur&_). by destruct (Hdur Hd) as (_&_&?). Qed.

Lemma vouching_quiet ts (l l' : ledger) :
  lasting limit l l' → (consistent (Publication.store l.1) → confined ts (Publication.store l.1) (Publication.store l'.1)) →
  COMMAND_OUTBOX ∉ ts → APPLICATION_OUTBOX ∉ ts → said l'.1 = said l.1 → vouching l l'.
Proof.
  intros Hl Hc Ht Ht' Hs. split; [done|]. intros Hd Hcl. split; [|exists []; by rewrite app_nil_r].
  eapply cleared_same; [by apply lasting_approvals|by apply Hc| |exact Hcl].
  intros x. rewrite (Hc Hd _ Ht'). left. by exists x.
Qed.

Lemma vouching_events now w o w' ss : publish_application_batch limit r now w = (o, w') → vouching (w, ss) (w', ss).
Proof.
  intros Hw. pose proof (keeps_events _ _ _ (parts_last limit p r Hr) _ _ _ _ ss Hw) as Hl. split; [done|]. intros Hd Hcl.
  destruct (batch_announced limit p r Hr _ _ _ _ Hw Hd) as (_&Hc&Hf&ps&Hs&Hp). cbn in *. split.
  - eapply cleared_same; [by apply (lasting_approvals _ _ Hl)|apply Hc; by_decide| |exact Hcl].
    intros x' (x&Hx&He)%Hf. left. exists x. split; [done|]. by apply He; by_decide.
  - exists ps. split; [done|]. eapply Forall_impl; [exact Hp|]. intros x (t&y&Ht&Hy&Hfam&_) (t'&Ht'&Hdc&_).
    rewrite Ht in Ht'. injection Ht' as <-. exfalso. apply (proj2 Hcl y Hy). by rewrite Hfam, Hdc.
Qed.

Lemma vouching_commands now w o w' ss : publish_batch limit now w = (o, w') → vouching (w, ss) (w', ss).
Proof.
  intros Hw. pose proof (keeps_commands _ _ _ (parts_last limit p r Hr) _ _ _ _ ss Hw) as Hl. split; [done|]. intros Hd Hcl.
  pose proof (lasting_approvals _ _ Hl Hd) as Hap. cbn in *.
  destruct (proj1 (batch_published limit _ _ _ _ Hd Hw) Hd) as (_&Hc&(ps&Hs&Hp)&Hrows). split; [split|].
  - intros id x' Hx'. specialize (Hrows id). destruct (StoreOutbox.entry (Publication.store w) id) as [x|] eqn:Hx; [|congruence].
    destruct Hrows as (y&Hy&Hm). rewrite Hx' in Hy. injection Hy as <-. eapply vouched_later; [exact Hap|].
    assert (command_of x' = command_of x) as -> by (destruct Hm as [->|Hm]; [done|by eapply recorded_command]).
    by apply (proj1 Hcl id).
  - intros x. rewrite (Hc APPLICATION_OUTBOX) by by_decide. apply Hcl.
  - exists ps. split; [done|]. eapply Forall_impl; [exact Hp|]. intros x Hx. eapply justified_later; [exact Hap|].
    by apply spoken_justified.
Qed.

Lemma vouching_read {E A} (h : E → publication_failure) (m : tx E A) w o w' ss :
  effect unchanged m → committed h m w = (o, w') → vouching (w, ss) (w', ss).
Proof.
  intros Hm Hw. unfold committed in Hw.
  apply (vouching_quiet []); [by eapply lasting_read|intros _|by_decide|by_decide|]; cbn;
    destruct (transaction m _) as [[a|e] d] eqn:Ht; injection Hw as _ <-; cbn; try done.
  - apply transaction_Ok in Ht. intros t _. by eapply Hm.
  - by apply transaction_Err in Ht as [_ ->].
Qed.
(** A reply or a record is on no drone's topic. *)
Lemma spoken_elsewhere m s d ps : Exchange.said limit m s ps → Forall (justified d) ps.
Proof.
  assert (Hno : ∀ x t, parse_topic (PyStr (destination x)) = Ok t → Topics.family t ≠ DRONE_COMMAND → justified d x).
  { intros x t Ht Hf (t'&Ht'&Hf'&_). rewrite Ht in Ht'. injection Ht' as <-. done. }
  destruct ps as [|first rest]; [by constructor|]. cbn.
  intros (target&request&response&(?&reply&_&_&_&Hpr&Hfr&_)&_&_&(_&Hdest&_)&Hrest). apply Forall_cons. split.
  - apply (Hno _ reply); [by rewrite Hdest|by rewrite Hfr].
  - destruct Hrest as [->|(second&->&(_&_&doc&Hrec&_))]; [by constructor|]. apply Forall_singleton.
    destruct (record_destination _ _ _ _ Hrec) as (t&Ht&Hf). apply (Hno _ t); [done|by rewrite Hf].
Qed.

Lemma vouching_exchange m s d log o log' ss :
  handle_message limit (publish limit r) m s log = (o, log') →
  vouching ({| Publication.store := d; said := log |}, ss) ({| Publication.store := d; said := log' |}, ss).
Proof.
  intros Hm. split; [by eapply (keeps_exchange _ _ _ (parts_last limit p r Hr))|]. intros _ Hc. split; [exact Hc|].
  apply (handle_message_said limit p r Hr) in Hm as (ps&->&Hs&_). exists ps. split; [done|]. by eapply spoken_elsewhere.
Qed.

(** A response is normalized into audit events and proposals. *)
Lemma normalized_families resp pending s x e :
  build_normalization limit resp pending s = Ok x → e ∈ events x →
  StoreEvents.family e ∈ [outbox_family AUDIT; outbox_family AGENT_PROPOSAL].
Proof.
  intros (audit&(_&Ha&_)&Hx)%build_normalization_Ok He. destruct (Integration.outcome resp).
  - destruct Hx as (c&kept&e'&_&_&(_&He'&_)&_&Hev&_). rewrite Hev, !elem_of_cons, elem_of_nil in He.
    destruct He as [->|[->|[]]]; [rewrite He'|rewrite Ha]; by_decide.
  - destruct Hx as (_&Hev&_). rewrite Hev, list_elem_of_singleton in He. subst e. rewrite Ha. by_decide.
Qed.

Lemma vouching_response dl s l : vouching l (at_store (handle_agent_response limit dl s (Publication.store l.1)).2 l).
Proof.
  pose proof (keeps_response _ _ _ (parts_last limit p r Hr) dl s l) as Hl. split; [exact Hl|]. intros Hd Hcl.
  split; [|exists []; by rewrite app_nil_r]. pose proof (lasting_approvals _ _ Hl Hd) as Hap.
  pose proof (response_confined limit dl s (Publication.store l.1)) as Hc. cbn in *.
  destruct (handle_agent_response limit dl s (Publication.store l.1)) as [o d'] eqn:Hrun. cbn in *.
  eapply cleared_same; [exact Hap|apply Hc; by_decide| |exact Hcl]. intros x' Hx'.
  apply handle_agent_response_run in Hrun. destruct o as [res|e]; [|subst d'; left; by exists x'].
  destruct Hrun as (i&trusted&id&_&_&_&Hn). apply normalize_Ok in Hn as (_&_&_&_&Hn); [|done].
  destruct (Normalization.outcome res).
  - destruct Hn as (x&Hx&_&Hrows&_). rewrite Hrows in Hx'. apply elem_of_app in Hx' as [Hx'|Hx']; [left; by exists x'|right].
    apply list_elem_of_fmap in Hx' as (e&->&He). pose proof (normalized_families _ _ _ _ _ Hx He) as Hf.
    change (cell (event_row e) "family") with (SText (StoreEvents.family e)).
    revert Hf. rewrite !elem_of_cons, !elem_of_nil. intros [->|[->|[]]]; [by left|by right; left].
  - destruct Hn as [_ Hrows]. rewrite Hrows in Hx'. left. by exists x'.
Qed.

Lemma vouching_refusal name m : ensures (on_ledgers vouching) (refuse_trace limit name m).
Proof.
  intros g o g' Hg. pose proof (trace_refusal_lasts limit name m _ _ _ Hg) as Hl.
  apply refuse_trace_run in Hg as [[Hv _]|(at_&c&Hv&_)]; unfold on_ledgers in *; rewrite Hv in *; [done|].
  eapply vouching_quiet; [exact Hl|intros _; apply record_candidate_confined|by_decide|by_decide|done].
Qed.

Lemma vouching_native name m : ensures (on_ledgers vouching) (refuse_trace limit name m ;; reject_native name m).
Proof.
  intros g o g' Hg. pose proof (native_refusal_lasts limit name m _ _ _ Hg) as Hl. split; [exact Hl|].
  unfold mbind, acting_bind in Hg. destruct (refuse_trace limit name m g) as [[[]|e] g1] eqn:H1;
    pose proof (vouching_refusal _ _ _ _ _ H1) as [_ Hs]; by injection Hg as _ <-.
Qed.

Lemma vouching_delivery {I E X} (h : guaranteed I E X) ts name m at_ :
  gateway_handler limit h ts → COMMAND_OUTBOX ∉ ts → APPLICATION_OUTBOX ∉ ts →
  keeps_delivery vouching name m (handle limit h (guaranteed_delivery m) at_).
Proof.
  intros Hh H1 H2 l. apply (vouching_quiet (BROKER_REFUSAL :: ts)); [by eapply lasting_delivery| | |..]; try done.
  - intros _. apply handled_confined. by apply (handler_confined limit _ _ Hh).
  - by intros [[=]|?]%elem_of_cons.
  - by intros [[=]|?]%elem_of_cons.
Qed.

(** *** The decision *)

(** A run answered from the store has only looked at its claims. *)
Lemma duplicate_confined s now id i d a d' :
  consistent d → authorize_command limit s now id i d = Ok (a, d') → Authorization.outcome a = Authorization.DUPLICATE →
  confined [BROKER_INBOX; IDEMPOTENCY_CLAIM] d d'.
Proof.
  intros Hd Hrun Ho. unfold authorize_command in Hrun. apply tx_bind_Ok in Hrun as (o&d1&Hc%lift_Ok&Hrun).
  pose proof (claim_durable _ _ _ _ Hc Hd) as (Hd1&_). apply StoreInbox.claim_confined in Hc.
  destruct (StoreInbox.decision o).
  2: { apply pure_Ok in Hrun as [_ ->]. eapply confined_in; [exact Hc|]. intros t. rewrite !elem_of_cons. tauto. }
  unfold process_claimed in Hrun. apply tx_bind_Ok in Hrun as (cl&d2&Hcl&Hrun). apply pure_Ok in Hcl as [_ ->].
  apply tx_bind_Ok in Hrun as (taken&d2&Ht%lift_Ok&Hrun). pose proof (command_claim_durable _ _ _ _ Ht Hd1) as (Hd2&_).
  apply command_claim_confined in Ht.
  assert (Hdecided : ∀ v d3, consistent d3 → persist_decision limit id i s v d3 = Ok (a, d') → False).
  { intros v d3 Hd3 Hp. apply persist_decision_completes in Hp as (_&Hout&_); [|done]. rewrite Ho in Hout. by destruct (authorized v). }
  destruct (StoreClaims.decision taken).
  - apply tx_bind_Ok in Hrun as (v&d3&Hv&Hrun). destruct (Hdecided v d3); [|exact Hrun].
    destruct (action (command_payload i)); [by apply tx_ret_Ok in Hv as [_ <-]|].
    apply authorize_escalation_unchanged in Hv. intros t. rewrite (Hv t). apply Hd2.
  - apply tx_bind_Ok in Hrun as (prior&d3&Hp&Hrun). apply pure_Ok in Hp as [_ ->].
    apply tx_bind_Ok in Hrun as (u&d3&Hcomp%lift_Ok&Hrun). apply tx_ret_Ok in Hrun as [_ <-].
    apply complete_confined in Hcomp. intros t Hn. rewrite (Hcomp t), (Ht t), (Hc t); [done|set_solver..].
  - by destruct (Hdecided _ _ Hd2 Hrun).
Qed.

Lemma audit_family i s granted approval why x :
  build_authorization_artifacts limit i s granted approval why = Ok x → StoreEvents.family (audit_event x) = "audit".
Proof. unfold build_authorization_artifacts. intros Hx. run_ok. destruct granted; cbn [negb] in *; run_ok; by subst. Qed.

(** A decided command is staged with bytes its consumed approval vouches for. *)
Lemma decided_cleared s now id i q d a d' :
  consistent d → cleared d → operator_command q = Some (command_payload i) →
  authorize_command limit s now id i d = Ok (a, d') → Authorization.outcome a ≠ Authorization.DUPLICATE → cleared d'.
Proof.
  intros Hd Hcl Hq Hrun Ho. pose proof (authorize_command_durable _ _ _ _ _ _ _ _ Hrun Hd) as (Hd'&_&Hap).
  pose proof (authorized_escalation limit s now id i) as Hesc.
  destruct (decided_run _ _ _ _ _ _ _ _ Hd Hrun Ho) as (d2&v&d3&Hd2&_&Hc&Hv&Hp).
  assert (H32 : d3 ≡ d2) by (destruct (action (command_payload i)); [by destruct Hv as [-> _]|by destruct Hv]).
  assert (Hd3 : consistent d3) by (intros t; rewrite (H32 t); apply Hd2).
  destruct (persist_decision_completes _ _ _ _ _ _ _ _ Hd3 Hp) as (_&Hout&_).
  destruct (persist_decision_commits _ _ _ _ _ _ _ _ Hd3 Hp) as (x&Hx&_&[_ Hev Hcmd _ _ _]).
  rewrite (H32 COMMAND_OUTBOX), (Hc COMMAND_OUTBOX) in Hcmd by by_decide.
  rewrite (H32 APPLICATION_OUTBOX), (Hc APPLICATION_OUTBOX) in Hev by by_decide. split.
  - intros oid w Hw. unfold StoreOutbox.entry, found in Hw. rewrite Hcmd, where_rows_app in Hw.
    destruct (where_rows _ (rows d COMMAND_OUTBOX)) as [|w' l] eqn:Hold.
    2: { injection Hw as <-. eapply vouched_later; [exact Hap|]. apply (proj1 Hcl oid). unfold StoreOutbox.entry, found. by rewrite Hold. }
    assert (∃ c, command_ x = Some c ∧ w = StoreOutbox.new_row c) as (c&Hxc&->).
    { destruct (command_ x) as [c|]; [|done]. exists c. split; [done|]. cbn in Hw. destruct (decide _); [|done]. by injection Hw. }
    rewrite command_of_new. intros e He Ht. apply artifacts_of in Hx as Hfx. unfold effects_of in Hfx.
    destruct (authorized v); [|by rewrite Hxc in Hfx; destruct Hfx].
    destruct (built_command_reads limit Hlimit _ _ _ _ _ _ _ Hx Hxc He Ht) as (b&Hb&Hg).
    exists (Ingress.proposal_id b). split.
    + rewrite Hg. f_equal. apply nfc_ascii, identifier_ascii. by eapply declared_proposal_id.
    + destruct (Hesc b d a d' Hd Hrun Hout Hb) as [_ Hex]. exact Hex.
  - intros y. rewrite Hev. intros [Hy|Hy]%elem_of_app; [by apply Hcl|]. apply list_elem_of_singleton in Hy as ->.
    change (cell (event_row (audit_event x)) "family") with (SText (StoreEvents.family (audit_event x))).
    by rewrite (audit_family _ _ _ _ _ _ Hx).
Qed.

Lemma vouching_command name m s now at_ :
  keeps_delivery vouching name m (handle_operator_command limit (guaranteed_delivery m) s now at_).
Proof.
  intros l. pose proof (lasting_delivery limit _ _ name m at_ (command_gateway_handler limit s now) l) as Hl.
  split; [exact Hl|]. intros Hd Hcl. split; [|exists []; by rewrite app_nil_r].
  pose proof (lasting_approvals _ _ Hl Hd) as Hap. unfold handle_operator_command. cbn in *.
  set (d := Publication.store l.1) in *.
  destruct (handle_settles limit (operator_command_handler limit s now) (guaranteed_delivery m) at_ d Hd)
    as [[_ [[_ Hs]|(_&_&Hc)]]|(acc&i&id&a&Ha&Hsel&_&Hb&_)].
  - by rewrite Hs.
  - eapply cleared_same; [exact Hap|apply Hc; by_decide| |exact Hcl].
    intros x Hx. rewrite (Hc APPLICATION_OUTBOX) in Hx by by_decide. left. by exists x.
  - assert (acc = AcceptedCommand i) as -> by (cbn in Hsel; destruct acc; try done; by injection Hsel as ->).
    apply accept_ingress_from in Ha as (t&_&_&_&_&_&Hmodel). cbn [body operator_command_handler] in Hb.
    destruct (decide (Authorization.outcome a = Authorization.DUPLICATE)) as [Ho|Ho].
    + apply duplicate_confined in Hb; [|done|done].
      eapply cleared_same; [exact Hap|apply Hb; by_decide| |exact Hcl].
      intros x Hx. left. exists x. split; [|done]. by rewrite <- (Hb APPLICATION_OUTBOX) by by_decide.
    + by eapply decided_cleared.
Qed.

Lemma parts_vouch : parts_keep limit vouching r.
Proof.
  split.
  - intros. by eapply vouching_events.
  - intros. by eapply vouching_commands.
  - intros w o w' ss. apply vouching_read. unfold reconciliation, reconciliation_statement, selection_statement. effects.
  - intros w o w' ss. apply vouching_read. unfold StoreOutbox.pending, pending_statement. effects.
  - intros m s d log o log' ss. apply vouching_exchange.
  - intros dl s l. apply vouching_response.
  - apply vouching_refusal.
  - apply vouching_native.
  - apply vouching_command.
  - intros name m now at_. eapply vouching_delivery; [apply approval_gateway_handler|by_decide..].
  - intros name m at_. eapply vouching_delivery; [apply result_gateway_handler|by_decide..].
Qed.

(** C1: no rescue escalation leaves the gateway without its approval.  From a store whose outboxes
    hold no unvouched escalation, in particular an empty one, whatever arrives, whatever the
    broker, the clocks and the identities answer, and however long the service runs: everything
    new on the wire that stands on some drone's escalation topic reads as a command that names a
    proposal, and the store then holds that proposal's approval as executed.  The outboxes are
    left as vouched for as they were, so the same holds of every later run, after any restart. *)
Theorem no_unapproved_escalation (turns : nat) (queues : list (string * string)) (first : nat)
    (g g' : gateway) (o : result service_failure (option ServiceExit))
    (Hd : consistent (Publication.store (world_ g))) (Hc : cleared (Publication.store (world_ g)))
    (Hg : serve_application limit turns r queues first g = (o, g')) :
  ∃ ps, said (world_ g') = (said (world_ g) ++ ps)%list ∧
    Forall (λ x, escalates x → approved (Publication.store (world_ g')) x) ps ∧
    consistent (Publication.store (world_ g')) ∧ cleared (Publication.store (world_ g')).
Proof.
  destruct (keeps_serving limit vouching r parts_vouch queues turns first _ _ _ Hg) as [Hl Hs].
  destruct (Hl Hd) as (_&_&Hd'&_). destruct (Hs Hd Hc) as (Hc'&ps&Hps&Hj). exists ps. by split_and!.
Qed.
End vouched.

(** ** Over the sample store: one escalation goes out, and is approved *)

Lemma no_unapproved_escalation_witness :
  length (filter (λ x : Publication, destination x = "aerial-rescue/v1/mission-1/drone/drone-1/command/escalate-rescue")
            (said (world_ sample_run.2))) = 1%nat ∧
  ∃ ps, said (world_ sample_run.2) = ([] ++ ps)%list ∧
    Forall (λ x, escalates x → approved DIGITS (Publication.store (world_ sample_run.2)) x) ps.
Proof.
  split; [vm_compute; reflexivity|].
  assert (Hc : cleared DIGITS (Publication.store (world_ starting))).
  { split; [intros id x Hx; vm_compute in Hx; discriminate Hx|]. intros x Hx. vm_compute in Hx. by apply not_elem_of_nil in Hx. }
  assert (Hl : (3 ≤ DIGITS)%nat) by (apply Nat.leb_le; vm_compute; reflexivity).
  destruct (no_unapproved_escalation (Env := surroundings 14) DIGITS Hl gateway_ports gateway_router router_accepted
    3 queues 0 starting sample_run.2 sample_run.1 ready_consistent Hc (surjective_pairing _)) as (ps&Hs&Hp&_).
  exists ps. split; [exact Hs|exact Hp].
Defined.
